(* ===== verification/_CoqProject ===== *)
-Q . S2P
Prelude.v
MinHeap.v
MinHeapInv.v
MinHeapOps.v
MinHeapSpec.v
UvHeap.v
UvHeapInv.v
UvHeapOps.v
UvHeapSpec.v
Uevent.v
UeventInv.v
UeventSteps.v
UeventOps.v
UeventAdd.v
UeventMoves.v
UeventApi.v
UeventDel.v
UeventMake.v
UeventLoop.v
UeventRecord.v
UeventWorker.v
UeventWorkerInv.v
UeventSpec.v
Schedule.v
UeventTimers.v
UeventEpoll.v
UeventPool.v
UeventWork.v
UeventTick.v
UeventLimits.v
KList.v
KListSpec.v
UDeque.v
UDequeSpec.v
HTable.v
HTableInv.v
HTableOps.v
HTableSpec.v
SList.v
SListSpec.v
Netlink.v
NetlinkSafe.v
NetlinkSpec.v
NetlinkEncode.v
NetlinkIO.v
NetlinkIOSpec.v
NetlinkFree.v
ArpCache.v
ArpTransfer.v
TimeUtil.v
TimeUtilSpec.v
TimeUtilClock.v
NlMon.v
NlMonSpec.v
NlMonDispatch.v
PcapDhcp.v
PcapDhcpSpec.v
DbgTracer.v
DbgDigits.v
DbgMaps.v
DbgRegistry.v
Syslog2.v
Syslog2Spec.v
SyslogLock.v
UeventLog.v
KHash.v
KHashSpec.v
LeakDetector.v
LeakDetectorSpec.v
KHlist.v
KernelList.v
KernelListOps.v
KernelLoops.v
KernelListSpec.v
AssocArray.v
AssocArrayInv.v
AssocArrayOps.v
AssocArrayLife.v
AssocArrayStats.v
AssocArraySpec.v
