(* ===== verification/Prelude.v ===== *)
(** * Verification of the C module collection

    [src/] holds small C modules, one per directory: an epoll event loop with
    its timer heap and worker pool, containers, netlink readers and an interface
    monitor, a time zone cache, a DHCP sniffer and a crash tracer.  This library
    models them one by one and proves what each promises to its users.

    ** How a module is modelled

    A C function is a computation [M S A] over the state [S] of its module: it
    returns a value and the next state, or [None] when the C code has undefined
    behaviour (a null, dangling or foreign pointer, an index outside an array or
    buffer, signed overflow, a failed assertion).  Loops that are not structural
    take fuel, and running out of it is [None] as well; so every theorem that
    shows a result shows termination and memory safety with it.  The theorems
    say how much fuel is enough: the length of the list, the number of events or
    the size of the buffer; where the code loops on its own state ([loopbreak],
    the timers of one turn) the bound is the number of timers.  Integers are [Z]
    with the wrap-around of their C type written out ([u8] to [u64], [s16] to
    [s64] below).  Heap objects live in finite maps from addresses to records,
    [malloc] is an argument of the operations that allocate ([None], or [false],
    is a failure) and [free] removes the object, so that a later use has no
    result.  System calls, clocks, files and libraries are arguments of the
    operations: their results are whatever the caller of the model supplies.

    ** The parts

    - minheap ([src/minheap/minheap.c], [minheap_internal.h]): [MinHeap] has the
      4-ary heap of intrusive nodes with its 16-bit position fields; [MinHeapInv]
      the representation invariant, the order and the two sift loops;
      [MinHeapOps] what each operation does; [MinHeapSpec] the priority queue
      ([PQ]) that every admissible sequence of calls refines (capacities below
      2^16, no new key for a node of a full heap), draining in order, and the
      limits (full heap, 16-bit field).
    - libuv heap ([src/minheap/heap-inl.h]): [UvHeap] has the binary heap whose
      nodes point to their children and parent; [UvHeapInv] lays it out as an
      array and has the rule of the swap, [UvHeapOps] the walk along the digits
      of a position, the insertion and the removal, [UvHeapSpec] the order, the
      sifting and the priority queue ([UvPQ]) it refines.
    - uevent ([src/uevent/uevent.c], [uevent_internal.h], [uevent_worker.c]):
      [Uevent] has one base: event slots with reference counts, the timers (a
      minheap, used through [MinHeap]), descriptors, the queue of tasks, and the
      public calls; [UeventWorker] the worker turns, the loop and the end of a
      base.  The creation of a base takes its parts one by one and gives back
      those it has when one is refused: [making] records the parts held,
      [UeventMake] shows that a base that is made holds all and a failure none,
      but for the array of slots, which is freed twice when its list of free
      slots is refused.  [UeventInv] states the invariant: each slot's count is the sum of
      its owners (the user, the heap, the queue, calls in progress), and heap,
      slots and counters agree.  [UeventSteps], [UeventOps], [UeventAdd],
      [UeventDel], [UeventMake], [UeventApi], [UeventLoop] and
      [UeventWorkerInv] have the rules of the operations; [UeventSpec] the
      theorems: any sequence of API calls and any turn of the loop or of a
      worker is safe and keeps the invariant, what add, del, free, loopbreak and
      stop do, bounds of the queue and of the epoll timeout.  [Schedule] says
      which timers are to fire, when and in which order, without a heap;
      [UeventTimers] shows that [uevent_handle_timers] runs that schedule, and
      [UeventTick] what the turns of the loop make of it over a clock that does
      not go back: every armed timer fires, and a base with timers that fire once
      runs them all and ends.  [UeventRecord] has user functions that record their
      calls, and [UeventEpoll] shows which calls a batch of descriptor events
      makes and what it leaves armed.  [UeventPool] has the rules of the worker
      pool and [UeventWork] the pool as a queue: the events fired by the loop and
      the steps of any number of workers, interleaved.
      [UeventMoves] carries what the system calls do to the outside world
      through the operations.  [UeventLog] has the reports of
      late timers, over the logger.  [UeventLimits] has the runs on which the
      code falls short.
    - list ([src/list/list.h], [list.c]): [KList] has the circular doubly linked
      lists; [KListSpec] their refinement to sequences.  The singly chained
      [hlist] is part of [HTable], which uses it.
    - udeque ([src/udeque/udeque.c], over the lists of [KList]): [UDeque], and in
      [UDequeSpec] the refinement to a sequence, with all memory given back.
    - htable ([src/htable/htable.c]): [HTable] with the invariant in [HTableInv],
      the operations' rules in [HTableOps] and the refinement to a finite map in
      [HTableSpec].
    - slist ([src/netlink_getlink/slist.h]): [SList], [SListSpec].
    - netlink ([src/netlink_getlink/libnl_getlink.c]): [Netlink] has the bytes,
      the attribute and message parsers and [addattr_l]; [NetlinkSafe] shows that
      no byte sequence makes them misbehave; [NetlinkSpec] has round trips of
      single attributes and [NetlinkEncode] of whole messages and datagrams.
      [NetlinkIO] has the calls around the parsers ([send_msg], [recv_msg],
      [get_netdev]) with the open descriptors and allocated buffers; the kernel
      is a class of operations, and what is relied on of it the classes of laws
      in [NetlinkIOSpec], which shows that every run ends and releases what it
      took, and that a dump is turned into its devices.  [NetlinkFree] has
      [free_netdev_list] on the lists of [SList].
    - ARP cache ([src/netlink_arp_cache/libnlarpcache.c]): [ArpCache] has the
      parsers; [ArpTransfer] what [send_recv] and [get_arp_cache], modelled in
      [NetlinkIO], leave and answer.
    - syslog2 ([src/syslog2/syslog2.c], and the logger other modules fall back
      to): [Syslog2] records the calls to the C library; [Syslog2Spec] shows
      which messages are emitted and as what; [SyslogLock] has the lock around
      the output as a step relation of any number of threads.
    - nlmon ([src/nlmon/nlmon.c]): [NlMon] has the published slot of filters, the
      dispatch and the thread; [NlMonSpec] the refinement to a bounded list of
      filters under the calls of the program and the steps of the monitor thread
      (it loads the slot, reads it, and is done), up to the first step that can go
      wrong: a slot freed while the thread reads it, a join of a thread that was
      not created.  [NlMonDispatch] shows which callbacks a batch of messages runs.
    - timeutil ([src/timeutil/timeutil.c]): [TimeUtil]; [TimeUtilSpec] reads back
      every TZif file with transitions, and shows that one without is refused;
      [TimeUtilClock] has the clocks, the daylight
      rule and the cache.
    - DHCP capture ([src/libpcap-dhcp-capture/pcap_dhcp.c]): [PcapDhcp],
      [PcapDhcpSpec].
    - dbg_tracer ([src/dbg_tracer/dbg_tracer.c]): [DbgTracer]; [DbgDigits] for
      printed numbers, [DbgMaps] for the memory map, [DbgRegistry] for the rings
      of trace points.
    - kernel hash tables ([src/hashtable-linux-kernel]): [KHash] has the hash
      functions and logarithm macros ([hash.h], [log2.h]) and [KHashSpec] what
      they compute; [KernelList] the [k_list_head] part of [list.h], with its
      rules in [KernelListOps], the loop macros over entries in [KernelLoops] and
      the refinement to sequences in [KernelListSpec]; [KHlist] the [hlist] part; [AssocArray] the tables
      ([hashtable.c], [hashtable.h]) and the associative array
      ([assoc_array.c]); [AssocArrayInv] states what an array owns,
      [AssocArrayOps], [AssocArrayLife] and [AssocArrayStats] have the rules of
      the operations, of creation and release, and of the collision rate;
      [AssocArraySpec] the refinement to a sequence of pairs.
    - leak_detector ([src/leak_detector_c/leak_detector.c]): [LeakDetector], and
      in [LeakDetectorSpec] that its records are the outstanding allocations, as
      long as there is memory for the records, and what a failed [realloc] leaves.

    ** What the theorems show

    Refinements: a sequence of calls of any length answers as an abstract object
    does (a priority queue, a finite map, a sequence, a bounded list of filters,
    a history of marks), with no misuse of memory and, where the module frees,
    no leak.  Safety and invariants: [uevent] from the creation of a base on, and
    the parsers of untrusted bytes.  Round trips: what the parsers read is what an
    encoder wrote.  Functional, error and bounds
    theorems: single operations on every branch, the timers, the descriptor
    events, the conversions and clocks.  The worker pool is a first-in first-out
    queue that holds an event at most once.
    Liveness and termination: the timers of the loop, the lock of the logger.
    End to end: a dump of link messages, or the kernel's neighbour table, from the
    request to the list, whatever the kernel and the allocator answer.
    Theorems named after limits show the inputs on which the code is wrong.

    ** Where the theorems stop

    A hypothesis that the code does not check is named by the theorem, with a
    theorem that shows what happens without it.  The callbacks of [uevent] in a
    base without workers do not free an event that epoll has reported and the
    loop has yet to reach ([epoll_ok]; [handle_epoll_free_in_callback]).  The
    keys of an associative array have one length below 256
    ([array_keys_of_two_lengths], [array_long_keys]).  The crash tracer has up to
    128 threads, and the texts of its trace points are under 96 bytes
    ([trace_limits]); a memory map fits its buffer of 64 kB.  The netlink
    transfers run with fewer than 1024 open descriptors
    ([high_descriptor_overflows]), and [get_netdev] ends when the datagrams do.
    The logger has priorities and levels that can be shifted in an [int], and
    lines that fit ([syslog2_limits]); its [write] is not cut short.  For the frames and options of
    the DHCP capture, the logger and [send_recv] the theorems say exactly
    which inputs and answers lead to undefined behaviour or a leak.

    ** Not modelled, and why

    Threads run the code of [uevent] under its mutex and atomics: a thread is
    the sequence of its locked sections, and the theorems quantify over their
    interleavings at that grain, not over weak memory orders.  The log messages
    of the modules are left out of their models, the reports of late timers
    apart; the logger is a module of its own.  The programs ([main.c], [test.c], [perftest.c],
    [robust_test.c]), the compiler and type headers of
    [src/hashtable-linux-kernel] and its mock allocator are left out. *)

From Stdlib Require Export ZArith Lia.
From stdpp Require Export numbers gmap list prelude.

#[global] Open Scope Z_scope.

(** ** Machine integers *)

(** Conversion to an unsigned or signed type of the given width. *)
Definition wrap (w z : Z) : Z := z mod 2 ^ w.
Definition swrap (w z : Z) : Z := (z + 2 ^ (w - 1)) mod 2 ^ w - 2 ^ (w - 1).

Declare Scope c_scope.
Delimit Scope c_scope with c.
Abbreviation u8 := (wrap 8).
Abbreviation u16 := (wrap 16).
Abbreviation u32 := (wrap 32).
Abbreviation u64 := (wrap 64).
Abbreviation s16 := (swrap 16).
Abbreviation s32 := (swrap 32).
Abbreviation s64 := (swrap 64).

Lemma wrap_range w z : 0 <= w -> 0 <= wrap w z < 2 ^ w.
Proof. intros. unfold wrap. apply Z.mod_pos_bound. lia. Qed.

Lemma wrap_small w z : 0 <= z < 2 ^ w -> wrap w z = z.
Proof. apply Z.mod_small. Qed.

Lemma swrap_small w z : 0 < w -> - 2 ^ (w - 1) <= z < 2 ^ (w - 1) -> swrap w z = z.
Proof.
  intros Hw Hz. unfold swrap.
  assert (2 ^ w = 2 * 2 ^ (w - 1)) by (rewrite <- Z.pow_succ_r by lia; f_equal; lia).
  rewrite Z.mod_small; lia.
Qed.

Lemma swrap_range w z : 0 < w -> - 2 ^ (w - 1) <= swrap w z < 2 ^ (w - 1).
Proof.
  intros Hw. unfold swrap.
  assert (2 ^ w = 2 * 2 ^ (w - 1)) by (rewrite <- Z.pow_succ_r by lia; f_equal; lia).
  pose proof (Z.mod_pos_bound (z + 2 ^ (w - 1)) (2 ^ w)). lia.
Qed.

Lemma wrap_wrap w z : 0 <= w -> wrap w (wrap w z) = wrap w z.
Proof. intros. apply wrap_small, wrap_range. done. Qed.

(** ** Computations with undefined behaviour

  [M S A] is a computation over the state [S]: it returns a value and the
  next state, or [None] when the C program has undefined behaviour (a null or
  dangling dereference, an array index out of range, signed overflow, a
  failed [assert]), or, in a loop written with fuel, when the fuel runs out.
  Every theorem about [wp] therefore shows the absence of both. *)
Definition M (S A : Type) : Type := S -> option (A * S).

#[export] Instance M_ret S : MRet (M S) := fun A a s => Some (a, s).
#[export] Instance M_bind S : MBind (M S) := fun A B k m s =>
  match m s with
  | Some (a, s') => k a s'
  | None => None
  end.

Definition ub {S A} : M S A := fun _ => None.
Definition gets {S A} (f : S -> A) : M S A := fun s => Some (f s, s).
Definition modify {S} (f : S -> S) : M S unit := fun s => Some (tt, f s).
Definition of_option {S A} (o : option A) : M S A :=
  match o with Some a => mret a | None => ub end.

(** Signed [int] arithmetic: overflow is undefined. *)
Definition int_min : Z := - 2 ^ 31.
Definition int_max : Z := 2 ^ 31 - 1.
Definition cint {S} (z : Z) : M S Z :=
  if (int_min <=? z) && (z <=? int_max) then mret z else ub.

(** A computation on a part of the state, given by a getter and a setter. *)
Definition zoom {S T A} (get : S -> T) (set : T -> S -> S) (m : M T A) : M S A :=
  fun s => match m (get s) with
         | Some (a, t) => Some (a, set t s)
         | None => None
         end.

(** Total weakest precondition: [m] has no undefined behaviour from [s] and
  ends in a value and a state that satisfy [Q]. *)
Definition wp {S A} (m : M S A) (Q : A -> S -> Prop) (s : S) : Prop :=
  match m s with
  | Some (a, s') => Q a s'
  | None => False
  end.

Section wp.
Context {S : Type}.

Lemma wp_run {A} (m : M S A) (Q : A -> S -> Prop) s :
  wp m Q s -> exists a s', m s = Some (a, s') /\ Q a s'.
Proof. unfold wp. destruct (m s) as [[a s']|]; [eauto|done]. Qed.

Lemma wp_intro {A} (m : M S A) (Q : A -> S -> Prop) s a s' :
  m s = Some (a, s') -> Q a s' -> wp m Q s.
Proof. unfold wp. by intros ->. Qed.

Lemma wp_ret {A} (a : A) (Q : A -> S -> Prop) s : Q a s -> wp (mret a) Q s.
Proof. done. Qed.

Lemma wp_bind {A B} (m : M S A) (k : A -> M S B) (Q : B -> S -> Prop) s :
  wp m (fun a => wp (k a) Q) s -> wp (m ≫= k) Q s.
Proof. unfold wp, mbind, M_bind. by destruct (m s) as [[a s']|]. Qed.

Lemma wp_mono {A} (m : M S A) (P Q : A -> S -> Prop) s :
  wp m P s -> (forall a s', P a s' -> Q a s') -> wp m Q s.
Proof. unfold wp. destruct (m s) as [[a s']|]; eauto. Qed.

Lemma wp_and {A} (m : M S A) (P Q : A -> S -> Prop) s :
  wp m P s -> wp m Q s -> wp m (fun a s' => P a s' /\ Q a s') s.
Proof. unfold wp. destruct (m s) as [[a s']|]; eauto. Qed.

Lemma wp_gets {A} (f : S -> A) (Q : A -> S -> Prop) s : Q (f s) s -> wp (gets f) Q s.
Proof. done. Qed.

Lemma wp_modify (f : S -> S) (Q : unit -> S -> Prop) s : Q tt (f s) -> wp (modify f) Q s.
Proof. done. Qed.

Lemma wp_of_option {A} (o : option A) a (Q : A -> S -> Prop) s :
  o = Some a -> Q a s -> wp (of_option o) Q s.
Proof. by intros ->. Qed.

Lemma wp_cint z (Q : Z -> S -> Prop) s :
  int_min <= z <= int_max -> Q z s -> wp (cint z) Q s.
Proof.
  intros [H1%Z.leb_le H2%Z.leb_le] HQ. unfold cint. by rewrite H1, H2.
Qed.

Lemma wp_zoom {T A} (get : S -> T) (set : T -> S -> S) (m : M T A)
    (Q : A -> S -> Prop) s :
  wp m (fun a t => Q a (set t s)) (get s) -> wp (zoom get set m) Q s.
Proof. unfold wp, zoom. by destruct (m (get s)) as [[a t]|]. Qed.

Lemma wp_seq_assoc {A B C} (m : M S A) (k : M S B) (k' : M S C) (Q : C -> S -> Prop) s :
  wp ((m;; k);; k') Q s -> wp (m;; (k;; k')) Q s.
Proof. unfold wp, mbind, M_bind. by destruct (m s) as [[a s']|]. Qed.

Lemma wp_seq_bind {A B C} (m : M S A) (k : A -> M S B) (k' : M S C) (Q : C -> S -> Prop) s :
  wp (a ← m; k a) (fun _ s' => wp k' Q s') s -> wp (a ← m; k a;; k') Q s.
Proof.
  unfold wp, mbind, M_bind. destruct (m s) as [[a s']|]; [|done]. by destruct (k a s') as [[b s2]|].
Qed.

Lemma bind_run {A B} (m : M S A) (k : A -> M S B) s a s' :
  m s = Some (a, s') -> (m ≫= k) s = k a s'.
Proof. unfold mbind, M_bind. by intros ->. Qed.

Lemma bind_undefined {A B} (m : M S A) (k : A -> M S B) s : m s = None -> (m ≫= k) s = None.
Proof. unfold mbind, M_bind. by intros ->. Qed.

Lemma of_option_run {A} (o : option A) x (s : S) : o = Some x -> of_option o s = Some (x, s).
Proof. by intros ->. Qed.
End wp.

(** One structural step of a [wp] goal. *)
Ltac wp_step :=
  lazymatch goal with
  | |- wp (mbind _ _) _ _ => apply wp_bind
  | |- wp (mret _) _ _ => apply wp_ret
  | |- wp (gets _) _ _ => apply wp_gets
  | |- wp (modify _) _ _ => apply wp_modify
  | |- wp (cint _) _ _ => apply wp_cint; [unfold int_min, int_max|]
  | |- wp (zoom _ _ _) _ _ => apply wp_zoom
  | |- wp (of_option _) _ _ => eapply wp_of_option
  end; cbv beta.

(** ** Arrays: lists read and written at a [Z] index, out of range undefined *)
Section array.
Context {A : Type}.
Implicit Types (l : list A) (i j : Z).

Definition znth l i : option A := if i <? 0 then None else l !! Z.to_nat i.
Definition zset l i (x : A) : list A := if i <? 0 then l else <[Z.to_nat i := x]> l.
Definition zlen l : Z := Z.of_nat (length l).

Lemma zlen_nonneg l : 0 <= zlen l.
Proof. unfold zlen. lia. Qed.

Lemma zlen_app l1 l2 : zlen (l1 ++ l2) = zlen l1 + zlen l2.
Proof. unfold zlen. rewrite length_app. lia. Qed.

Lemma zlen_replicate n (x : A) : 0 <= n -> zlen (replicate (Z.to_nat n) x) = n.
Proof. intros. unfold zlen. rewrite length_replicate. lia. Qed.

Lemma zlen_zset l i x : zlen (zset l i x) = zlen l.
Proof. unfold zlen, zset. destruct (i <? 0); [done|]. by rewrite length_insert. Qed.

Lemma znth_Some_range l i x : znth l i = Some x -> 0 <= i < zlen l.
Proof.
  unfold znth, zlen. destruct (Z.ltb_spec i 0); [done|].
  intros Hl%lookup_lt_Some. lia.
Qed.

Lemma znth_replicate (x : A) n i : 0 <= i < n -> znth (replicate (Z.to_nat n) x) i = Some x.
Proof. intros. unfold znth. destruct (Z.ltb_spec i 0); [lia|]. apply lookup_replicate_2. lia. Qed.

Lemma znth_outside l i : zlen l <= i -> znth l i = None.
Proof. intros H. unfold znth. destruct (i <? 0); [done|]. apply lookup_ge_None_2. unfold zlen in H. lia. Qed.

Lemma znth_is_Some l i : 0 <= i < zlen l -> exists x, znth l i = Some x.
Proof.
  unfold znth, zlen. intros Hi. destruct (Z.ltb_spec i 0); [lia|].
  destruct (lookup_lt_is_Some_2 l (Z.to_nat i)) as [x Hx]; [lia|eauto].
Qed.

Lemma znth_zset_eq l i x : 0 <= i < zlen l -> znth (zset l i x) i = Some x.
Proof.
  unfold znth, zset, zlen. intros Hi. destruct (Z.ltb_spec i 0); [lia|].
  apply list_lookup_insert_eq. lia.
Qed.

Lemma znth_zset_ne l i j x : i <> j -> znth (zset l i x) j = znth l j.
Proof.
  unfold znth, zset. intros Hij.
  destruct (Z.ltb_spec j 0), (Z.ltb_spec i 0); try done.
  apply list_lookup_insert_ne. lia.
Qed.

Lemma zset_zset l i x y : zset (zset l i x) i y = zset l i y.
Proof.
  unfold zset. destruct (i <? 0); [done|]. apply list_insert_insert_eq.
Qed.

Lemma zset_comm l i j x y : i <> j -> zset (zset l i x) j y = zset (zset l j y) i x.
Proof.
  unfold zset. intros. destruct (Z.ltb_spec i 0), (Z.ltb_spec j 0); try done.
  apply list_insert_insert_ne. lia.
Qed.

Lemma zset_id l i x : znth l i = Some x -> zset l i x = l.
Proof.
  unfold znth, zset. destruct (i <? 0); [done|]. apply list_insert_id.
Qed.
Lemma zlen_app_le l1 l2 : zlen l1 <= zlen (l1 ++ l2).
Proof. rewrite zlen_app. pose proof (zlen_nonneg l2). lia. Qed.

Lemma znth_middle l x r : znth (l ++ x :: r) (zlen l) = Some x.
Proof. unfold znth, zlen. destruct (Z.ltb_spec (Z.of_nat (length l)) 0); [lia|]. rewrite Nat2Z.id. by rewrite list_lookup_middle. Qed.

Lemma zset_middle l x y r : zset (l ++ x :: r) (zlen l) y = l ++ y :: r.
Proof.
  unfold zset, zlen. destruct (Z.ltb_spec (Z.of_nat (length l)) 0); [lia|]. rewrite Nat2Z.id.
  rewrite insert_app_r_alt by lia. by rewrite Nat.sub_diag.
Qed.

Lemma zlen_snoc l x : zlen (l ++ [x]) = zlen l + 1.
Proof. rewrite zlen_app. done. Qed.
End array.

(** The byte at [i], 0 outside the buffer. *)
Definition v8 (buf : list Z) (i : Z) : Z := default 0 (znth buf i).

Lemma znth_v8 buf i : 0 <= i < zlen buf -> znth buf i = Some (v8 buf i).
Proof. intros H. destruct (znth_is_Some buf i H) as [b Hb]. unfold v8. by rewrite Hb. Qed.

Lemma v8_app pre l i : 0 <= i < zlen l -> v8 (pre ++ l) (zlen pre + i) = v8 l i.
Proof.
  intros H. unfold v8, znth, zlen in *. destruct (Z.ltb_spec (Z.of_nat (length pre) + i) 0), (Z.ltb_spec i 0); try lia.
  rewrite lookup_app_r by lia. repeat f_equal. lia.
Qed.

Create Rewrite HintDb arr.
#[export] Hint Rewrite @zlen_zset : arr.
Create HintDb cmod.
#[export] Hint Resolve zlen_nonneg : cmod.

(** Addresses are integers; a pointer is an address or [NULL] ([None]). *)
Definition loc : Type := Z.
Abbreviation ptr := (option loc).

(** [lia] with division and modulo by constants. *)
Ltac div_lia := Z.to_euclidean_division_equations; lia.
