(* ===== verification/MinHeap.v ===== *)
(** * minheap: the 4-ary min-heap of intrusive nodes

    Models [src/minheap/minheap.c] and [src/minheap/minheap_internal.h].  A heap
    stores pointers to nodes owned by the caller; a node records its own
    position plus one in a 16-bit field, zero meaning "not in a heap".  The
    state of a computation is the heap object the argument [minheap] points to
    ([None] is the null pointer) and the nodes, by address. *)

From S2P Require Import Prelude.

Module MinHeap.

(** ** Data *)

Record minheap_node_t := Node { key : Z; idx : Z }.

Record minheap_t := Heap { arr : list ptr; size : Z; capacity : Z }.

Record mst := St { mh : option minheap_t; nodes : gmap loc minheap_node_t }.

(** ** Memory accesses *)

(** [*minheap] read and written. *)
Definition hp : M mst minheap_t := m ← gets mh; of_option m.
Definition put_hp (h : minheap_t) : M mst unit :=
  modify (fun s => St (Some h) (nodes s)).

(** [heap[i]] and [heap[i] = p], where [heap] is [minheap->arr]. *)
Definition arr_get (i : Z) : M mst ptr := h ← hp; of_option (znth (arr h) i).
Definition arr_set (i : Z) (p : ptr) : M mst unit :=
  h ← hp;
  if (0 <=? i) && (i <? zlen (arr h))
  then put_hp (Heap (zset (arr h) i p) (size h) (capacity h))
  else ub.

Definition put_size (sz : Z) : M mst unit :=
  h ← hp; put_hp (Heap (arr h) sz (capacity h)).

(** [*node] read and written. *)
Definition node_get (n : loc) : M mst minheap_node_t :=
  N ← gets nodes; of_option (N !! n).
Definition node_put (n : loc) (nd : minheap_node_t) : M mst unit :=
  modify (fun s => St (mh s) (<[n := nd]> (nodes s))).

(** [p->key]. *)
Definition node_key (p : ptr) : M mst Z :=
  n ← of_option p; nd ← node_get n; mret (key nd).

(** ** The position field *)

Definition mh_map_set (node : ptr) (i : Z) : M mst unit :=
  match node with
  | None => mret tt
  | Some n => nd ← node_get n; node_put n (Node (key nd) (u16 (u16 i + 1)))
  end.

Definition mh_map_get (node : ptr) : M mst Z :=
  match node with
  | None => mret (-1)
  | Some n => nd ← node_get n; mret (idx nd - 1)
  end.

Definition mh_map_del (node : ptr) : M mst unit :=
  match node with
  | None => mret tt
  | Some n => nd ← node_get n; node_put n (Node (key nd) 0)
  end.

(** ** Life cycle *)

(** [malloc_heap] and [malloc_arr] say whether the two allocations succeed. *)
Definition mh_create (malloc_heap malloc_arr : bool) (cap : Z) : option minheap_t :=
  if cap =? 0 then None
  else if negb malloc_heap then None
  else if negb malloc_arr then None
  else Some (Heap (replicate (Z.to_nat cap) None) 0 cap).

Definition mh_free : M mst unit := modify (fun s => St None (nodes s)).

(** ** Sifting *)

Definition mh_parent (i : Z) : Z := (i - 1) ÷ 4.
Definition mh_left_child (i : Z) : M mst Z := x ← cint (4 * i); cint (x + 1).

(** The loop of [mh_sift_up]; it returns the final hole. *)
Fixpoint sift_up_loop (fuel : nat) (new_value hole : Z) : M mst Z :=
  match fuel with
  | O => ub
  | S fuel =>
      if 0 <? hole then
        let parent := mh_parent hole in
        p ← arr_get parent;
        kp ← node_key p;
        if new_value <? kp then
          arr_set hole p;;
          mh_map_set p hole;;
          sift_up_loop fuel new_value parent
        else mret hole
      else mret hole
  end.

Definition mh_sift_up (i : Z) : M mst unit :=
  m ← gets mh;
  match m with
  | None => mret tt
  | Some h =>
      if (i <? 0) || (s32 (size h) <=? i) then mret tt
      else
        new_node ← arr_get i;
        new_value ← node_key new_node;
        hole ← sift_up_loop (S (Z.to_nat i)) new_value i;
        arr_set hole new_node;;
        mh_map_set new_node hole
  end.

(** One of the three blocks [if (mc + k < sz) ...] of [mh_sift_down], updating
    [min_idx] and [min_key]. *)
Definition check_child (mc k sz : Z) (m : Z * Z) : M mst (Z * Z) :=
  c ← cint (mc + k);
  if c <? sz then
    p ← arr_get c;
    kc ← node_key p;
    if kc <? m.2 then mret (c, kc) else mret m
  else mret m.

Fixpoint sift_down_loop (fuel : nat) (sz val hole : Z) : M mst Z :=
  match fuel with
  | O => ub
  | S fuel =>
      mc ← mh_left_child hole;
      if sz <=? mc then mret hole
      else
        p0 ← arr_get mc;
        k0 ← node_key p0;
        m1 ← check_child mc 1 sz (mc, k0);
        m2 ← check_child mc 2 sz m1;
        m3 ← check_child mc 3 sz m2;
        if val <=? m3.2 then mret hole
        else
          p ← arr_get m3.1;
          arr_set hole p;;
          mh_map_set p hole;;
          sift_down_loop fuel sz val m3.1
  end.

Definition mh_sift_down (i : Z) : M mst unit :=
  m ← gets mh;
  match m with
  | None => mret tt
  | Some h =>
      if (i <? 0) || (s32 (size h) <=? i) then mret tt
      else
        node ← arr_get i;
        val ← node_key node;
        hole ← sift_down_loop (S (Z.to_nat (s32 (size h)))) (s32 (size h)) val i;
        arr_set hole node;;
        mh_map_set node hole
  end.

(** ** The public operations *)

Definition mh_insert (node : ptr) : M mst Z :=
  m ← gets mh;
  match m, node with
  | None, _ | _, None => mret (-1)
  | Some h, Some _ =>
      if capacity h <=? size h then mret (-1)
      else
        i ← mh_map_get node;
        if 0 <=? i then
          mh_sift_up i;;
          mh_sift_down i;;
          mret 0
        else
          let i := s32 (size h) in
          put_size (u32 (size h + 1));;
          arr_set i node;;
          mh_map_set node i;;
          mh_sift_up i;;
          mret 0
  end.

Definition mh_extract_min : M mst ptr :=
  m ← gets mh;
  match m with
  | None => mret None
  | Some h =>
      if size h =? 0 then mret None
      else
        min ← arr_get 0;
        mh_map_del min;;
        let sz := u32 (size h - 1) in
        put_size sz;;
        (if 0 <? sz then
           last ← arr_get sz;
           arr_set 0 last;;
           arr_set sz None;;
           r ← arr_get 0;
           mh_map_set r 0;;
           mh_sift_down 0
         else arr_set 0 None);;
        mret min
  end.

Definition mh_get_node (i : Z) : M mst ptr :=
  m ← gets mh;
  match m with
  | None => mret None
  | Some h => if (i <? 0) || (s32 (size h) <=? i) then mret None else arr_get i
  end.

Definition mh_get_min : M mst ptr :=
  m ← gets mh;
  match m with
  | None => mret None
  | Some h => if size h =? 0 then mret None else arr_get 0
  end.

Definition mh_is_empty : M mst bool :=
  m ← gets mh;
  match m with None => mret true | Some h => mret (size h =? 0) end.

Definition mh_get_size : M mst Z :=
  m ← gets mh;
  match m with None => mret 0 | Some h => mret (size h) end.

Definition mh_delete_node (node : ptr) : M mst unit :=
  m ← gets mh;
  match m, node with
  | None, _ | _, None => mret tt
  | Some h, Some _ =>
      if size h =? 0 then mret tt
      else
        i ← mh_map_get node;
        if i <? 0 then mret tt
        else
          mh_map_del node;;
          if i =? s32 (size h) - 1 then
            put_size (u32 (size h - 1));;
            arr_set (u32 (size h - 1)) None
          else
            last ← arr_get (u32 (size h - 1));
            arr_set i last;;
            arr_set (u32 (size h - 1)) None;;
            r ← arr_get i;
            mh_map_set r i;;
            put_size (u32 (size h - 1));;
            mh_sift_up i;;
            mh_sift_down i
  end.

End MinHeap.
