(* ===== verification/MinHeapInv.v ===== *)
(** * minheap: representation invariant and heap order

    The invariant [rep] ties the array, the size and the position fields of the
    nodes; [ordered] is the 4-ary heap order.  The two sift loops move a hole,
    so both are reasoned about on the array with the sifted node written back
    into the hole. *)

From S2P Require Import Prelude.
From S2P Require Import MinHeap.
Import MinHeap.

(** ** Rules for the memory accesses on a live heap *)
Section access.
Implicit Types (h : minheap_t) (N : gmap loc minheap_node_t).

Lemma wp_hp h N (Q : minheap_t -> mst -> Prop) :
  Q h (St (Some h) N) -> wp hp Q (St (Some h) N).
Proof. done. Qed.

Lemma wp_arr_get a sz cap N i p (Q : ptr -> mst -> Prop) :
  znth a i = Some p -> Q p (St (Some (Heap a sz cap)) N) ->
  wp (arr_get i) Q (St (Some (Heap a sz cap)) N).
Proof. intros Hi HQ. apply wp_bind, wp_hp. by eapply wp_of_option. Qed.

Lemma wp_arr_set a sz cap N i p (Q : unit -> mst -> Prop) :
  0 <= i < zlen a -> Q tt (St (Some (Heap (zset a i p) sz cap)) N) ->
  wp (arr_set i p) Q (St (Some (Heap a sz cap)) N).
Proof.
  intros [H1%Z.leb_le H2%Z.ltb_lt] HQ. apply wp_bind, wp_hp. simpl.
  by rewrite H1, H2.
Qed.

Lemma wp_put_size a sz cap N sz' (Q : unit -> mst -> Prop) :
  Q tt (St (Some (Heap a sz' cap)) N) ->
  wp (put_size sz') Q (St (Some (Heap a sz cap)) N).
Proof. done. Qed.

Lemma wp_node_get m N n nd (Q : minheap_node_t -> mst -> Prop) :
  N !! n = Some nd -> Q nd (St m N) -> wp (node_get n) Q (St m N).
Proof. intros Hn HQ. apply wp_bind, wp_gets. by eapply wp_of_option. Qed.

Lemma wp_node_key m N n nd (Q : Z -> mst -> Prop) :
  N !! n = Some nd -> Q (key nd) (St m N) -> wp (node_key (Some n)) Q (St m N).
Proof.
  intros Hn HQ. apply wp_bind, wp_ret, wp_bind. by eapply wp_node_get.
Qed.

Lemma wp_map_set m N n nd i (Q : unit -> mst -> Prop) :
  N !! n = Some nd ->
  Q tt (St m (<[n := Node (key nd) (u16 (u16 i + 1))]> N)) ->
  wp (mh_map_set (Some n) i) Q (St m N).
Proof. intros Hn HQ. apply wp_bind. by eapply wp_node_get. Qed.

Lemma wp_map_del m N n nd (Q : unit -> mst -> Prop) :
  N !! n = Some nd ->
  Q tt (St m (<[n := Node (key nd) 0]> N)) ->
  wp (mh_map_del (Some n)) Q (St m N).
Proof. intros Hn HQ. apply wp_bind. by eapply wp_node_get. Qed.

Lemma wp_map_get m N n nd (Q : Z -> mst -> Prop) :
  N !! n = Some nd -> Q (idx nd - 1) (St m N) -> wp (mh_map_get (Some n)) Q (St m N).
Proof. intros Hn HQ. apply wp_bind. by eapply wp_node_get. Qed.
End access.

(** The position stored for index [i] is exact as long as it fits 16 bits. *)
Lemma stored_idx i : 0 <= i < 2 ^ 16 - 1 -> u16 (u16 i + 1) = i + 1.
Proof. intros. rewrite (wrap_small 16 i), wrap_small; lia. Qed.

(** ** Abstraction: the priority queue a node store stands for *)

(** Nodes whose position field is set, with their keys. *)
Definition pq (N : gmap loc minheap_node_t) : gmap loc Z :=
  omap (fun nd => if idx nd =? 0 then None else Some (key nd)) N.

Definition keys (N : gmap loc minheap_node_t) : gmap loc Z := key <$> N.

Definition kof (N : gmap loc minheap_node_t) (n : loc) : Z := default 0 (keys N !! n).

Lemma pq_lookup N n k :
  pq N !! n = Some k <-> exists nd, N !! n = Some nd /\ idx nd <> 0 /\ key nd = k.
Proof.
  unfold pq. rewrite lookup_omap. destruct (N !! n) as [nd|]; simpl.
  - destruct (Z.eqb_spec (idx nd) 0); naive_solver.
  - naive_solver.
Qed.

Lemma pq_move N n nd i :
  N !! n = Some nd -> idx nd <> 0 -> i <> 0 -> pq (<[n := Node (key nd) i]> N) = pq N.
Proof.
  intros Hn Hi Hi'. apply map_eq. intros m. apply option_eq. intros k.
  rewrite !pq_lookup. destruct (decide (n = m)) as [->|Hne].
  - rewrite lookup_insert_eq. naive_solver.
  - by rewrite lookup_insert_ne.
Qed.

Lemma pq_add N n nd i :
  i <> 0 -> pq (<[n := Node (key nd) i]> N) = <[n := key nd]> (pq N).
Proof.
  intros Hi. apply map_eq. intros m. apply option_eq. intros k.
  rewrite pq_lookup. destruct (decide (n = m)) as [->|Hne].
  - rewrite !lookup_insert_eq. naive_solver.
  - rewrite !lookup_insert_ne by done. by rewrite pq_lookup.
Qed.

Lemma pq_remove N n k : pq (<[n := Node k 0]> N) = delete n (pq N).
Proof.
  apply map_eq. intros m. apply option_eq. intros k'.
  rewrite pq_lookup. destruct (decide (n = m)) as [->|Hne].
  - rewrite lookup_insert_eq, lookup_delete_eq. naive_solver.
  - rewrite lookup_insert_ne, lookup_delete_ne by done. by rewrite pq_lookup.
Qed.

Lemma keys_move N n nd i :
  N !! n = Some nd -> keys (<[n := Node (key nd) i]> N) = keys N.
Proof.
  intros Hn. unfold keys. rewrite fmap_insert. apply insert_id.
  by rewrite lookup_fmap, Hn.
Qed.

Lemma kof_keys N N' n : keys N = keys N' -> kof N n = kof N' n.
Proof. unfold kof. by intros ->. Qed.

Lemma kof_lookup N n nd : N !! n = Some nd -> kof N n = key nd.
Proof. intros Hn. unfold kof, keys. by rewrite lookup_fmap, Hn. Qed.

(** ** Representation invariant *)

(** [rep L N sz o]: the first [sz] slots of [L] hold distinct nodes, each with
    its position recorded, except that the position of [o], when given, is
    only known to be set; no other node is marked; the rest of [L] is null. *)
Record rep (L : list ptr) (N : gmap loc minheap_node_t) (sz : Z) (o : option loc) : Prop := {
  rep_size : 0 <= sz <= zlen L;
  rep_small : sz < 2 ^ 16;
  rep_slot : forall i, 0 <= i < sz -> exists n nd,
    znth L i = Some (Some n) /\ N !! n = Some nd /\ (o <> Some n -> idx nd = i + 1);
  rep_back : forall n nd, N !! n = Some nd -> idx nd <> 0 -> o <> Some n ->
    0 <= idx nd - 1 < sz /\ znth L (idx nd - 1) = Some (Some n);
  rep_uniq : forall i j n, 0 <= i < sz -> 0 <= j < sz ->
    znth L i = Some (Some n) -> znth L j = Some (Some n) -> i = j;
  rep_tail : forall i, sz <= i < zlen L -> znth L i = Some None;
  rep_hole : forall n nd, o = Some n -> N !! n = Some nd -> idx nd <> 0
}.

(** The key of slot [i]. *)
Definition kat (K : loc -> Z) (L : list ptr) (i : Z) : Z :=
  match znth L i with Some (Some n) => K n | _ => 0 end.

Definition ordered_at (K : loc -> Z) (L : list ptr) (j : Z) : Prop :=
  kat K L (mh_parent j) <= kat K L j.

Definition ordered (K : loc -> Z) (L : list ptr) (sz : Z) : Prop :=
  forall j, 0 < j < sz -> ordered_at K L j.

(** The order may fail between slot [i] and its parent and between [i] and its
    children, while its children stay above its parent. *)
Definition broken_at (K : loc -> Z) (L : list ptr) (sz i : Z) : Prop :=
  (forall j, 0 < j < sz -> j <> i -> mh_parent j <> i -> ordered_at K L j) /\
  (forall c, 0 < c < sz -> mh_parent c = i -> 0 < i ->
    kat K L (mh_parent i) <= kat K L c).

(** The order may fail only between slot [i] and its children. *)
Definition broken_down (K : loc -> Z) (L : list ptr) (sz i : Z) : Prop :=
  (forall j, 0 < j < sz -> mh_parent j <> i -> ordered_at K L j) /\
  (forall c, 0 < c < sz -> mh_parent c = i -> 0 < i ->
    kat K L (mh_parent i) <= kat K L c).

(** The invariant of a live heap: representation and order. *)
Record heap_ok (h : minheap_t) (N : gmap loc minheap_node_t) : Prop := {
  ok_cap : zlen (arr h) = capacity h;
  ok_rep : rep (arr h) N (size h) None;
  ok_ord : ordered (kof N) (arr h) (size h)
}.

Lemma parent_div j : 0 < j -> mh_parent j = (j - 1) / 4.
Proof. intros. unfold mh_parent. apply Z.quot_div_nonneg; lia. Qed.

Lemma parent_range j : 0 < j -> 0 <= mh_parent j < j.
Proof. intros. rewrite parent_div by done. div_lia. Qed.

Lemma parent_child j i : 0 < j -> mh_parent j = i <-> 4 * i + 1 <= j <= 4 * i + 4.
Proof. intros. rewrite parent_div by done. div_lia. Qed.

Lemma kat_Some K L i n : znth L i = Some (Some n) -> kat K L i = K n.
Proof. unfold kat. by intros ->. Qed.

Lemma kat_zset_eq K L i n : 0 <= i < zlen L -> kat K (zset L i (Some n)) i = K n.
Proof. intros. apply kat_Some. by apply znth_zset_eq. Qed.

Lemma kat_zset_ne K L i j p : i <> j -> kat K (zset L i p) j = kat K L j.
Proof. intros. unfold kat. by rewrite znth_zset_ne. Qed.

(** ** Moving the hole *)

(** Writing the node of slot [p] into the hole [hole] of [a] and recording its
    position is, with the hole filled, an exchange of the two slots. *)
Lemma rep_exchange L N sz new hole p m nd :
  rep L N sz (Some new) ->
  0 <= hole < sz -> 0 <= p < sz -> p <> hole ->
  znth L hole = Some (Some new) -> znth L p = Some (Some m) -> N !! m = Some nd ->
  rep (zset (zset L hole (Some m)) p (Some new))
      (<[m := Node (key nd) (u16 (u16 hole + 1))]> N) sz (Some new).
Proof.
  intros R Hh Hp Hne Lh Lp Nm.
  pose proof (rep_size _ _ _ _ R) as Hsz. pose proof (rep_small _ _ _ _ R) as Hsm.
  assert (m <> new) as Hmn.
  { intros ->. apply Hne. symmetry. by eapply (rep_uniq _ _ _ _ R). }
  rewrite stored_idx by lia.
  assert (idx nd = p + 1) as Hidx.
  { destruct (rep_slot _ _ _ _ R p Hp) as (n & nd' & E1 & E2 & E3).
    rewrite Lp in E1. simplify_eq. apply E3. congruence. }
  set (L' := zset (zset L hole (Some m)) p (Some new)).
  assert (znth L' hole = Some (Some m)) as L'h.
  { unfold L'. rewrite znth_zset_ne by done. apply znth_zset_eq. lia. }
  assert (znth L' p = Some (Some new)) as L'p.
  { unfold L'. apply znth_zset_eq. rewrite zlen_zset. lia. }
  assert (forall i, i <> hole -> i <> p -> znth L' i = znth L i) as L'i.
  { intros. unfold L'. by rewrite !znth_zset_ne by done. }
  assert (zlen L' = zlen L) as L'len by (unfold L'; by rewrite !zlen_zset).
  assert (forall i n, 0 <= i < sz -> i <> hole -> i <> p ->
            znth L i = Some (Some n) -> n <> m /\ n <> new) as Hoth.
  { intros i n Hi Hi1 Hi2 E. split; intros ->.
    - apply Hi2. by eapply (rep_uniq _ _ _ _ R).
    - apply Hi1. by eapply (rep_uniq _ _ _ _ R). }
  constructor; try lia.
  - intros i Hi. destruct (decide (i = hole)) as [->|H1]; [|destruct (decide (i = p)) as [->|H2]].
    + exists m, (Node (key nd) (hole + 1)). by rewrite lookup_insert_eq.
    + destruct (rep_slot _ _ _ _ R hole Hh) as (n & nd' & E1 & E2 & E3).
      rewrite Lh in E1. simplify_eq. exists n, nd'.
      rewrite lookup_insert_ne by done. done.
    + destruct (rep_slot _ _ _ _ R i Hi) as (n & nd' & E1 & E2 & E3).
      destruct (Hoth _ _ Hi H1 H2 E1) as [? ?].
      exists n, nd'. rewrite L'i, lookup_insert_ne by done. done.
  - intros n nd' En Ei Eo. destruct (decide (m = n)) as [<-|Hmn'].
    + rewrite lookup_insert_eq in En. simplify_eq. simpl.
      replace (hole + 1 - 1) with hole by lia. done.
    + rewrite lookup_insert_ne in En by done.
      destruct (rep_back _ _ _ _ R n nd' En Ei Eo) as [E1 E2]. split; [done|].
      rewrite L'i; [done|..]; intros E; rewrite E in E2; congruence.
  - intros i j n Hi Hj E1 E2.
    set (swap k := if decide (k = hole) then p else if decide (k = p) then hole else k).
    assert (forall k, znth L' k = znth L (swap k)) as Hswap.
    { intros k. unfold swap. repeat case_decide; subst; try congruence. by apply L'i. }
    assert (swap i = swap j) as E.
    { rewrite Hswap in E1, E2.
      eapply (rep_uniq _ _ _ _ R); [..|exact E1|exact E2];
        unfold swap; repeat case_decide; lia. }
    unfold swap in E. repeat case_decide; congruence.
  - intros i Hi. rewrite L'i by lia. apply (rep_tail _ _ _ _ R). lia.
  - intros n nd' E1 E2. simplify_eq. rewrite lookup_insert_ne in E2 by done.
    by eapply (rep_hole _ _ _ _ R).
Qed.

(** Opening and closing the hole. *)
Lemma rep_open L N sz i n :
  rep L N sz None -> 0 <= i < sz -> znth L i = Some (Some n) -> rep L N sz (Some n).
Proof.
  intros R Hi Li. destruct R as [R1 R2 R3 R4 R5 R6 R7]. constructor; auto.
  - intros j Hj. destruct (R3 j Hj) as (m & nd & E1 & E2 & E3). exists m, nd. auto.
  - intros m nd E1 E2. simplify_eq.
    destruct (R3 i Hi) as (m' & nd' & E3 & E4 & E5). rewrite Li in E3.
    intros. simplify_eq. rewrite E5 by done. lia.
Qed.

Lemma rep_close L N sz hole new nd :
  rep L N sz (Some new) -> 0 <= hole < sz ->
  znth L hole = Some (Some new) -> N !! new = Some nd ->
  rep L (<[new := Node (key nd) (u16 (u16 hole + 1))]> N) sz None.
Proof.
  intros [R1 R2 R3 R4 R5 R6 R7] Hh Lh Nn. rewrite stored_idx by lia.
  constructor; auto.
  - intros i Hi. destruct (R3 i Hi) as (n & nd' & E1 & E2 & E3).
    destruct (decide (new = n)) as [<-|Hne].
    + assert (i = hole) as -> by (by eapply R5).
      exists new, (Node (key nd) (hole + 1)). by rewrite lookup_insert_eq.
    + exists n, nd'. rewrite lookup_insert_ne by done. split; [done|]. split; [done|].
      intros. apply E3. congruence.
  - intros n nd' En Ei _. destruct (decide (new = n)) as [<-|Hne].
    + rewrite lookup_insert_eq in En. simplify_eq. simpl.
      replace (hole + 1 - 1) with hole by lia. done.
    + rewrite lookup_insert_ne in En by done. apply R4; auto. congruence.
Qed.

(** Keys after the exchange. *)
Lemma kat_exchange K L hole p m new j :
  0 <= hole < zlen L -> 0 <= p < zlen L -> p <> hole ->
  kat K (zset (zset L hole (Some m)) p (Some new)) j =
    (if decide (j = p) then K new else if decide (j = hole) then K m else kat K L j).
Proof.
  intros. repeat case_decide; subst.
  - apply kat_zset_eq. by rewrite zlen_zset.
  - rewrite kat_zset_ne by done. by apply kat_zset_eq.
  - by rewrite !kat_zset_ne by done.
Qed.

(** ** The sift loops *)

(** What every step of a sift loop keeps: [N0] is the node store at entry. *)
Record sifting (a : list ptr) (N N0 : gmap loc minheap_node_t) (sz : Z) (new : loc)
    (hole : Z) : Prop := {
  sf_rep : rep (zset a hole (Some new)) N sz (Some new);
  sf_hole : 0 <= hole < sz;
  sf_keys : keys N = keys N0;
  sf_pq : pq N = pq N0
}.

Lemma sifting_slot a N N0 sz new hole p :
  sifting a N N0 sz new hole -> 0 <= p < sz -> p <> hole ->
  exists m nd, znth a p = Some (Some m) /\ N !! m = Some nd /\ idx nd <> 0 /\
    key nd = kat (kof N0) (zset a hole (Some new)) p /\ m <> new.
Proof.
  intros [R Hh Hk Hp] Hpr Hne.
  destruct (rep_slot _ _ _ _ R p Hpr) as (m & nd & E1 & E2 & E3).
  rewrite znth_zset_ne in E1 by done.
  assert (m <> new) as Hmn.
  { intros ->. apply Hne. eapply (rep_uniq _ _ _ _ R); [done..| |].
    - by rewrite znth_zset_ne.
    - apply znth_zset_eq. pose proof (rep_size _ _ _ _ R) as E. rewrite zlen_zset in E. lia. }
  exists m, nd. split; [done|]. split; [done|]. split; [|split; [|done]].
  - rewrite E3 by congruence. lia.
  - rewrite kat_zset_ne by done. rewrite (kat_Some _ _ _ m) by done.
    rewrite (kof_keys N0 N) by done. by rewrite (kof_lookup _ _ _ E2).
Qed.

Lemma sifting_hole_key a N N0 sz new hole :
  sifting a N N0 sz new hole ->
  kat (kof N0) (zset a hole (Some new)) hole = kof N0 new.
Proof.
  intros [R Hh Hk Hp]. apply kat_zset_eq.
  pose proof (rep_size _ _ _ _ R) as E. rewrite zlen_zset in E. lia.
Qed.

Lemma sifting_move a N N0 sz new hole p m nd :
  sifting a N N0 sz new hole -> 0 <= p < sz -> p <> hole ->
  znth a p = Some (Some m) -> N !! m = Some nd -> idx nd <> 0 ->
  sifting (zset a hole (Some m)) (<[m := Node (key nd) (u16 (u16 hole + 1))]> N)
    N0 sz new p.
Proof.
  intros [R Hh Hk Hp] Hpr Hne Hap Hm Hi.
  pose proof (rep_size _ _ _ _ R) as E. rewrite zlen_zset in E.
  pose proof (rep_small _ _ _ _ R) as E'.
  constructor; try done.
  - replace (zset a hole (Some m)) with (zset (zset a hole (Some new)) hole (Some m))
      by apply zset_zset.
    apply rep_exchange; try done.
    + apply znth_zset_eq. lia.
    + by rewrite znth_zset_ne.
  - by rewrite keys_move.
  - rewrite pq_move; [done..|]. rewrite stored_idx by lia. lia.
Qed.

(** Order invariant of [mh_sift_up]: only the hole may be below its parent, and
    the children of the start slot are not constrained while it is the hole. *)
Definition up_order (K : loc -> Z) (L : list ptr) (sz start hole : Z) : Prop :=
  (forall j, 0 < j < sz -> j <> hole -> ~ (hole = start /\ mh_parent j = start) ->
    ordered_at K L j) /\
  (forall c, 0 < c < sz -> mh_parent c = hole -> 0 < hole ->
    kat K L (mh_parent hole) <= kat K L c).

Lemma up_order_step K L sz start hole m new :
  0 < hole < sz -> sz <= zlen L -> hole <= start ->
  znth L (mh_parent hole) = Some (Some m) -> kat K L hole = K new -> K new < K m ->
  up_order K L sz start hole ->
  up_order K (zset (zset L hole (Some m)) (mh_parent hole) (Some new)) sz start
    (mh_parent hole).
Proof.
  intros Hh Hl Hs Lp Kh Hlt [U1 U2].
  pose proof (parent_range hole ltac:(lia)) as Hp.
  assert (kat K L (mh_parent hole) = K m) as Kp by by apply kat_Some.
  unfold up_order, ordered_at in *. split.
  - intros j Hj Hjp _. rewrite !kat_exchange by lia.
    pose proof (parent_range j ltac:(lia)) as Hpj.
    destruct (decide (j = mh_parent hole)) as [?|_]; [done|].
    destruct (decide (j = hole)) as [->|Hjh]; [case_decide; [lia|done]|].
    pose proof (U2 j Hj) as U2j.
    destruct (decide (mh_parent j = mh_parent hole)) as [E|E].
    + specialize (U1 j Hj Hjh). rewrite E in U1. lia.
    + case_decide as E2; [rewrite E2 in *; lia|].
      apply U1; try done. intros [-> E3]. congruence.
  - intros c Hc Hcp Hpp.
    pose proof (parent_range (mh_parent hole) ltac:(lia)) as Hpp'.
    rewrite !kat_exchange by lia.
    repeat (destruct (decide (mh_parent (mh_parent hole) = _)); [lia|]).
    assert (kat K L (mh_parent (mh_parent hole)) <= K m) as Hg.
    { rewrite <- Kp. apply U1; lia. }
    case_decide; [subst c; lia|]. case_decide; [done|].
    specialize (U1 c Hc). rewrite Hcp in U1. lia.
Qed.

Lemma up_order_stop K L sz start hole :
  0 <= hole < sz -> hole <= start < sz ->
  (0 < hole -> kat K L (mh_parent hole) <= kat K L hole) ->
  up_order K L sz start hole -> broken_down K L sz start.
Proof.
  intros Hh Hs Hstop [U1 U2]. unfold ordered_at in *.
  assert (forall j, 0 < j < sz -> mh_parent j <> start \/ hole <> start ->
            ordered_at K L j) as Hord.
  { intros j Hj Hor. destruct (decide (j = hole)) as [->|]; [by apply Hstop; lia|].
    apply U1; [done..|]. lia. }
  split; [auto|].
  intros c Hc Hcp H0. destruct (decide (hole = start)) as [->|Hne]; [auto|].
  transitivity (kat K L start); [apply Hord; lia|].
  rewrite <- Hcp. apply Hord; lia.
Qed.

Lemma sift_up_loop_spec fuel a sz cap N N0 new start hole :
  hole < Z.of_nat fuel -> hole <= start < sz ->
  sifting a N N0 sz new hole ->
  up_order (kof N0) (zset a hole (Some new)) sz start hole ->
  wp (sift_up_loop fuel (kof N0 new) hole)
    (fun hole' s => exists a' N', s = St (Some (Heap a' sz cap)) N' /\
       zlen a' = zlen a /\ sifting a' N' N0 sz new hole' /\
       broken_down (kof N0) (zset a' hole' (Some new)) sz start)
    (St (Some (Heap a sz cap)) N).
Proof.
  revert a N hole. induction fuel as [|fuel IH]; intros a N hole Hf Hs SF U.
  { destruct SF. lia. }
  pose proof (sf_hole _ _ _ _ _ _ SF) as Hh.
  pose proof (sifting_hole_key _ _ _ _ _ _ SF) as Kh.
  pose proof (rep_size _ _ _ _ (sf_rep _ _ _ _ _ _ SF)) as Hz. rewrite zlen_zset in Hz.
  simpl. destruct (Z.ltb_spec 0 hole) as [H0|H0].
  2: { apply wp_ret. exists a, N. split_and!; try done.
       eapply (up_order_stop _ _ _ _ hole); try done. lia. }
  pose proof (parent_range hole H0) as Hp.
  destruct (sifting_slot _ _ _ _ _ _ (mh_parent hole) SF) as (m & nd & E1 & E2 & E3 & E4 & E5);
    [lia..|].
  apply wp_bind. eapply wp_arr_get; [done|].
  apply wp_bind. eapply wp_node_key; [done|].
  destruct (Z.ltb_spec (kof N0 new) (key nd)) as [Hlt|Hge].
  - apply wp_bind, wp_arr_set; [lia|].
    apply wp_bind. eapply wp_map_set; [done|].
    assert (znth (zset a hole (Some new)) (mh_parent hole) = Some (Some m)) as E1'
      by (rewrite znth_zset_ne by lia; done).
    eapply wp_mono; [apply IH|].
    + lia.
    + lia.
    + apply (sifting_move _ _ _ _ _ _ _ _ _ SF); done || lia.
    + rewrite <- (zset_zset a hole (Some new)).
      apply up_order_step; rewrite ?zlen_zset; try done; try lia.
      rewrite <- (kat_Some (kof N0) _ _ _ E1'). by rewrite <- E4.
    + intros hole' s (a' & N' & -> & Hl & H'). exists a', N'. rewrite Hl, zlen_zset. done.
  - apply wp_ret. exists a, N. split_and!; try done.
    eapply (up_order_stop _ _ _ _ hole); try done. intros _. rewrite Kh, <- E4. done.
Qed.

(** Order invariant of [mh_sift_down]. *)
Lemma down_order_step K L sz hole c m new :
  0 <= hole < sz -> sz <= zlen L -> 0 < c < sz -> mh_parent c = hole ->
  znth L c = Some (Some m) -> kat K L hole = K new -> K m < K new ->
  (forall j, 0 < j < sz -> mh_parent j = hole -> K m <= kat K L j) ->
  broken_down K L sz hole ->
  broken_down K (zset (zset L hole (Some m)) c (Some new)) sz c.
Proof.
  intros Hh Hl Hc Hcp Lc Kh Hlt Hmin [D1 D2].
  pose proof (parent_range c ltac:(lia)) as Hpc.
  assert (kat K L c = K m) as Kc by by apply kat_Some.
  unfold broken_down, ordered_at in *. split.
  - intros j Hj Hjp. rewrite !kat_exchange by lia.
    pose proof (parent_range j ltac:(lia)) as Hpj.
    destruct (decide (mh_parent j = c)); [lia|].
    destruct (decide (j = c)) as [->|Hjc].
    { rewrite Hcp. case_decide; lia. }
    destruct (decide (mh_parent j = hole)) as [E|E].
    { case_decide; [lia|]. by apply Hmin. }
    destruct (decide (j = hole)) as [->|Hjh]; [|by apply D1].
    rewrite <- Kc. apply D2; done || lia.
  - intros j Hj Hjp _. rewrite !kat_exchange by lia.
    pose proof (parent_range j ltac:(lia)) as Hpj.
    rewrite Hcp. destruct (decide (hole = c)); [lia|]. case_decide; [|lia].
    repeat (destruct (decide (j = _)); [lia|]).
    rewrite <- Kc, <- Hjp. apply D1; lia.
Qed.

Lemma broken_down_ordered K L sz hole :
  broken_down K L sz hole ->
  (forall j, 0 < j < sz -> mh_parent j = hole -> kat K L hole <= kat K L j) ->
  ordered K L sz.
Proof.
  intros [D1 D2] H j Hj. destruct (decide (mh_parent j = hole)) as [E|E]; [|by apply D1].
  unfold ordered_at. rewrite E. by apply H.
Qed.

(** [m] is the running minimum of the children of the hole. *)
Definition child_min (K : loc -> Z) (L : list ptr) (mc sz : Z) (m : Z * Z) : Prop :=
  mc <= m.1 < sz /\ m.1 <= mc + 3 /\ m.2 = kat K L m.1.

Lemma check_child_spec a sz cap N N0 new hole mc k m :
  sifting a N N0 sz new hole -> mc = 4 * hole + 1 -> 1 <= k <= 3 ->
  child_min (kof N0) (zset a hole (Some new)) mc sz m ->
  wp (check_child mc k sz m)
    (fun m' s => s = St (Some (Heap a sz cap)) N /\
       child_min (kof N0) (zset a hole (Some new)) mc sz m' /\ m'.2 <= m.2 /\
       (mc + k < sz -> m'.2 <= kat (kof N0) (zset a hole (Some new)) (mc + k)))
    (St (Some (Heap a sz cap)) N).
Proof.
  intros SF Hmc Hk Hm. destruct (Hm) as (Hm1 & Hm2 & Hm3).
  pose proof (sf_hole _ _ _ _ _ _ SF) as Hh.
  pose proof (rep_small _ _ _ _ (sf_rep _ _ _ _ _ _ SF)) as Hsm.
  apply wp_bind, wp_cint; [unfold int_min, int_max; lia|].
  destruct (Z.ltb_spec (mc + k) sz) as [Hlt|Hge].
  - destruct (sifting_slot _ _ _ _ _ _ (mc + k) SF) as (n & nd & E1 & E2 & E3 & E4 & E5);
      [lia..|].
    apply wp_bind. eapply wp_arr_get; [done|].
    apply wp_bind. eapply wp_node_key; [done|].
    destruct (Z.ltb_spec (key nd) m.2) as [Hlt'|Hge']; apply wp_ret.
    all: unfold child_min in *; simpl; split_and!; done || lia.
  - apply wp_ret. split_and!; done || lia.
Qed.

Lemma sift_down_loop_spec fuel a sz cap N N0 new hole :
  sz - hole < Z.of_nat fuel ->
  sifting a N N0 sz new hole ->
  broken_down (kof N0) (zset a hole (Some new)) sz hole ->
  wp (sift_down_loop fuel sz (kof N0 new) hole)
    (fun hole' s => exists a' N', s = St (Some (Heap a' sz cap)) N' /\
       zlen a' = zlen a /\ sifting a' N' N0 sz new hole' /\
       ordered (kof N0) (zset a' hole' (Some new)) sz)
    (St (Some (Heap a sz cap)) N).
Proof.
  revert a N hole. induction fuel as [|fuel IH]; intros a N hole Hf SF D.
  { destruct SF. lia. }
  pose proof (sf_hole _ _ _ _ _ _ SF) as Hh.
  pose proof (sifting_hole_key _ _ _ _ _ _ SF) as Kh.
  pose proof (rep_size _ _ _ _ (sf_rep _ _ _ _ _ _ SF)) as Hz. rewrite zlen_zset in Hz.
  pose proof (rep_small _ _ _ _ (sf_rep _ _ _ _ _ _ SF)) as Hsm.
  assert (forall h', ordered (kof N0) (zset a hole (Some new)) sz -> h' = hole ->
    exists a' N', St (Some (Heap a sz cap)) N = St (Some (Heap a' sz cap)) N' /\
       zlen a' = zlen a /\ sifting a' N' N0 sz new h' /\
       ordered (kof N0) (zset a' h' (Some new)) sz) as Hstop.
  { intros h' Ho ->. by exists a, N. }
  simpl. apply wp_bind. unfold mh_left_child.
  apply wp_bind, wp_cint; [unfold int_min, int_max; lia|].
  apply wp_cint; [unfold int_min, int_max; lia|].
  set (mc := 4 * hole + 1) in *.
  destruct (Z.leb_spec sz mc) as [Hmc|Hmc].
  { apply wp_ret, Hstop; [|done]. apply (broken_down_ordered _ _ _ _ D).
    intros j Hj Hp. apply parent_child in Hp; lia. }
  destruct (sifting_slot _ _ _ _ _ _ mc SF) as (n0 & nd0 & E1 & E2 & E3 & E4 & E5); [lia..|].
  apply wp_bind. eapply wp_arr_get; [done|].
  apply wp_bind. eapply wp_node_key; [done|].
  apply wp_bind. eapply wp_mono; [eapply (check_child_spec _ _ _ _ _ _ _ mc 1 _ SF)|];
    [done|lia|split_and!; simpl; done || lia|].
  intros m1 s (-> & C1 & L1 & M1). simpl in L1.
  apply wp_bind. eapply wp_mono; [eapply (check_child_spec _ _ _ _ _ _ _ mc 2 _ SF); done || lia|].
  intros m2 s (-> & C2 & L2 & M2).
  apply wp_bind. eapply wp_mono; [eapply (check_child_spec _ _ _ _ _ _ _ mc 3 _ SF); done || lia|].
  intros m3 s (-> & C3 & L3 & M3).
  destruct C3 as (B1 & B2 & B3).
  assert (forall j, 0 < j < sz -> mh_parent j = hole ->
            m3.2 <= kat (kof N0) (zset a hole (Some new)) j) as Hmin.
  { intros j Hj Hp%parent_child; [|lia].
    assert (j = mc \/ j = mc + 1 \/ j = mc + 2 \/ j = mc + 3) as [-> | [-> | [-> | ->]]] by lia;
      lia. }
  destruct (Z.leb_spec (kof N0 new) m3.2) as [Hge|Hlt].
  { apply wp_ret, Hstop; [|done]. apply (broken_down_ordered _ _ _ _ D).
    intros j Hj Hp. rewrite Kh. specialize (Hmin j Hj Hp). lia. }
  destruct (sifting_slot _ _ _ _ _ _ m3.1 SF) as (m & nd & F1 & F2 & F3 & F4 & F5); [lia..|].
  assert (znth (zset a hole (Some new)) m3.1 = Some (Some m)) as F1'
    by (rewrite znth_zset_ne by lia; done).
  pose proof (kat_Some (kof N0) _ _ _ F1') as Km. rewrite <- B3 in Km.
  apply wp_bind. eapply wp_arr_get; [done|].
  apply wp_bind, wp_arr_set; [lia|].
  apply wp_bind. eapply wp_map_set; [done|].
  eapply wp_mono; [apply IH|].
  - lia.
  - apply (sifting_move _ _ _ _ _ _ _ _ _ SF); done || lia.
  - rewrite <- (zset_zset a hole (Some new)).
    apply down_order_step with (hole := hole); rewrite ?zlen_zset; try done; try lia.
    + apply parent_child; lia.
    + intros. rewrite <- Km. auto.
  - intros hole' s (a' & N' & -> & Hl & H'). exists a', N'. rewrite Hl, zlen_zset. done.
Qed.

(** ** The sift functions on a represented heap *)

Lemma rep_slot_kof L N sz i :
  rep L N sz None -> 0 <= i < sz -> exists n nd,
    znth L i = Some (Some n) /\ N !! n = Some nd /\ idx nd = i + 1 /\ key nd = kof N n.
Proof.
  intros R Hi. destruct (rep_slot _ _ _ _ R i Hi) as (n & nd & E1 & E2 & E3).
  exists n, nd. rewrite (kof_lookup _ _ _ E2). auto.
Qed.

Lemma sifting_start L N sz i n :
  rep L N sz None -> 0 <= i < sz -> znth L i = Some (Some n) -> sifting L N N sz n i.
Proof.
  intros R Hi E. constructor; try done.
  rewrite zset_id by done. by eapply rep_open.
Qed.

Lemma sifting_end a N N0 sz new hole nd :
  sifting a N N0 sz new hole -> N !! new = Some nd ->
  let N' := <[new := Node (key nd) (u16 (u16 hole + 1))]> N in
  rep (zset a hole (Some new)) N' sz None /\ keys N' = keys N0 /\ pq N' = pq N0.
Proof.
  intros [R Hh Hk Hp] Hn N'.
  pose proof (rep_size _ _ _ _ R) as E. rewrite zlen_zset in E.
  pose proof (rep_small _ _ _ _ R) as E'. split_and!.
  - apply rep_close; try done. apply znth_zset_eq. lia.
  - unfold N'. by rewrite keys_move.
  - unfold N'. rewrite pq_move; try done.
    + by eapply (rep_hole _ _ _ _ R).
    + rewrite stored_idx by lia. lia.
Qed.

Lemma kof_ext N N' : keys N = keys N' -> kof N = kof N'.
Proof. unfold kof. by intros ->. Qed.

(** What a sift establishes: [N0] at entry, [P] on the resulting array. *)
Definition sifted (P : list ptr -> Prop) (len sz cap : Z) (N0 : gmap loc minheap_node_t)
    (s : mst) : Prop :=
  exists a N, s = St (Some (Heap a sz cap)) N /\ zlen a = len /\
    rep a N sz None /\ keys N = keys N0 /\ pq N = pq N0 /\ P a.

Lemma sift_start_guard sz i :
  0 <= i < sz -> sz < 2 ^ 16 -> (i <? 0) || (s32 sz <=? i) = false.
Proof.
  intros. rewrite swrap_small by lia. apply orb_false_intro; lia.
Qed.

Lemma mh_sift_up_spec a sz cap N i :
  rep a N sz None -> 0 <= i < sz -> broken_at (kof N) a sz i ->
  wp (mh_sift_up i)
    (fun _ => sifted (fun a' => broken_down (kof N) a' sz i) (zlen a) sz cap N)
    (St (Some (Heap a sz cap)) N).
Proof.
  intros R Hi [W1 W2]. pose proof (rep_small _ _ _ _ R) as Hsm.
  apply wp_bind, wp_gets. simpl. rewrite sift_start_guard by done.
  destruct (rep_slot_kof _ _ _ _ R Hi) as (n & nd & E1 & E2 & E3 & E4).
  apply wp_bind. eapply wp_arr_get; [done|].
  apply wp_bind. eapply wp_node_key; [done|]. rewrite E4.
  apply wp_bind. eapply wp_mono.
  { eapply (sift_up_loop_spec (S (Z.to_nat i)) _ _ _ _ N _ i); [lia|lia|by apply sifting_start|].
    rewrite zset_id by done. split; [|done].
    intros j Hj Hji Hx. apply W1; try done. intros E. apply Hx. done. }
  intros hole' s (a' & N' & -> & Hl & SF & D).
  pose proof (rep_size _ _ _ _ (sf_rep _ _ _ _ _ _ SF)) as Hz. rewrite zlen_zset in Hz.
  pose proof (sf_hole _ _ _ _ _ _ SF) as Hh.
  apply wp_bind, wp_arr_set; [lia|].
  assert (exists nd', N' !! n = Some nd') as [nd' Hn'].
  { pose proof (f_equal (.!! n) (sf_keys _ _ _ _ _ _ SF)) as E. unfold keys in E.
    rewrite !lookup_fmap, E2 in E. destruct (N' !! n); [eauto|done]. }
  eapply wp_map_set; [done|].
  destruct (sifting_end _ _ _ _ _ _ _ SF Hn') as (? & ? & ?).
  eexists _, _. split; [done|]. rewrite zlen_zset. done.
Qed.

Lemma mh_sift_down_spec a sz cap N i :
  rep a N sz None -> 0 <= i < sz -> broken_down (kof N) a sz i ->
  wp (mh_sift_down i)
    (fun _ => sifted (fun a' => ordered (kof N) a' sz) (zlen a) sz cap N)
    (St (Some (Heap a sz cap)) N).
Proof.
  intros R Hi D. pose proof (rep_small _ _ _ _ R) as Hsm.
  apply wp_bind, wp_gets. simpl. rewrite sift_start_guard by done.
  destruct (rep_slot_kof _ _ _ _ R Hi) as (n & nd & E1 & E2 & E3 & E4).
  apply wp_bind. eapply wp_arr_get; [done|].
  apply wp_bind. eapply wp_node_key; [done|]. rewrite E4, swrap_small by lia.
  apply wp_bind. eapply wp_mono.
  { eapply (sift_down_loop_spec (S (Z.to_nat sz)) a sz cap N N n i); [lia|by apply sifting_start|].
    by rewrite zset_id. }
  intros hole' s (a' & N' & -> & Hl & SF & O).
  pose proof (rep_size _ _ _ _ (sf_rep _ _ _ _ _ _ SF)) as Hz. rewrite zlen_zset in Hz.
  pose proof (sf_hole _ _ _ _ _ _ SF) as Hh.
  apply wp_bind, wp_arr_set; [lia|].
  assert (exists nd', N' !! n = Some nd') as [nd' Hn'].
  { pose proof (f_equal (.!! n) (sf_keys _ _ _ _ _ _ SF)) as E. unfold keys in E.
    rewrite !lookup_fmap, E2 in E. destruct (N' !! n); [eauto|done]. }
  eapply wp_map_set; [done|].
  destruct (sifting_end _ _ _ _ _ _ _ SF Hn') as (? & ? & ?).
  eexists _, _. split; [done|]. rewrite zlen_zset. done.
Qed.
