(* ===== verification/MinHeapOps.v ===== *)
(** * minheap: what each public operation does

    The abstract state of a heap is the finite map from the nodes in the heap to
    their keys ([pq]).  Each operation of [src/minheap/minheap.c] is shown to
    keep [heap_ok] and to act on that map as a priority queue does. *)

From S2P Require Import Prelude.
From S2P Require Import MinHeap.
From S2P Require Import MinHeapInv.
Import MinHeap.

(** ** Adding and removing the last slot *)

Lemma rep_push a N sz n nd :
  rep a N sz None -> sz < zlen a -> sz + 1 < 2 ^ 16 ->
  N !! n = Some nd -> idx nd = 0 ->
  rep (zset a sz (Some n)) (<[n := Node (key nd) (u16 (u16 sz + 1))]> N) (sz + 1) None.
Proof.
  intros [R1 R2 R3 R4 R5 R6 R7] Hl Hs Hn H0. rewrite stored_idx by lia.
  assert (forall i, 0 <= i < sz -> znth a i <> Some (Some n)) as Hnot.
  { intros i Hi E. destruct (R3 i Hi) as (n' & nd' & E1 & E2 & E3).
    rewrite E in E1. simplify_eq. rewrite E3 in H0 by done. lia. }
  assert (forall i, i <> sz -> znth (zset a sz (Some n)) i = znth a i) as Hne
    by (intros; by rewrite znth_zset_ne).
  assert (znth (zset a sz (Some n)) sz = Some (Some n)) as Heq by (apply znth_zset_eq; lia).
  constructor; rewrite ?zlen_zset; try done; try lia.
  - intros i Hi. destruct (decide (i = sz)) as [->|Hi'].
    + exists n, (Node (key nd) (sz + 1)). by rewrite lookup_insert_eq.
    + destruct (R3 i) as (m & nd' & E1 & E2 & E3); [lia|].
      exists m, nd'. rewrite Hne by done. rewrite lookup_insert_ne; [done|].
      intros ->. apply (Hnot i); [lia|done].
  - intros m nd' E1 E2 _. destruct (decide (n = m)) as [<-|Hm].
    + rewrite lookup_insert_eq in E1. simplify_eq. simpl.
      replace (sz + 1 - 1) with sz by lia. done || (split; [lia|done]).
    + rewrite lookup_insert_ne in E1 by done.
      destruct (R4 m nd' E1 E2) as [E3 E4]; [done|]. rewrite Hne by lia. split; [lia|done].
  - intros i j m Hi Hj E1 E2.
    destruct (decide (i = sz)) as [->|Hi'], (decide (j = sz)) as [->|Hj']; try done.
    + rewrite Heq in E1. rewrite Hne in E2 by done. simplify_eq.
      exfalso. apply (Hnot j); [lia|done].
    + rewrite Heq in E2. rewrite Hne in E1 by done. simplify_eq.
      exfalso. apply (Hnot i); [lia|done].
    + rewrite Hne in E1, E2 by done. apply (R5 i j m); done || lia.
  - intros i Hi. rewrite Hne by lia. apply R6. lia.
Qed.

Lemma rep_drop L N sz n nd :
  rep L N sz (Some n) -> 0 < sz -> znth L (sz - 1) = Some (Some n) -> N !! n = Some nd ->
  rep (zset L (sz - 1) None) (<[n := Node (key nd) 0]> N) (sz - 1) None.
Proof.
  intros [R1 R2 R3 R4 R5 R6 R7] Hs HL Hn.
  assert (forall i, i <> sz - 1 -> znth (zset L (sz - 1) None) i = znth L i) as Hne
    by (intros; by rewrite znth_zset_ne).
  constructor; rewrite ?zlen_zset; try done; try lia.
  - intros i Hi. destruct (R3 i) as (m & nd' & E1 & E2 & E3); [lia|].
    assert (m <> n). { intros ->. assert (i = sz - 1); [|lia]. apply (R5 _ _ n); done || lia. }
    exists m, nd'. rewrite Hne, lookup_insert_ne by (done || lia).
    split_and!; try done. intros _. apply E3. congruence.
  - intros m nd' E1 E2 _. destruct (decide (n = m)) as [<-|Hm].
    + rewrite lookup_insert_eq in E1. by simplify_eq.
    + rewrite lookup_insert_ne in E1 by done.
      destruct (R4 m nd' E1 E2) as [E3 E4]; [congruence|].
      assert (idx nd' - 1 <> sz - 1) by (intros E; rewrite E in E4; congruence).
      rewrite Hne by done. split; [lia|done].
  - intros i j m Hi Hj. rewrite !Hne by lia. apply R5; lia.
  - intros i Hi. destruct (decide (i = sz - 1)) as [->|]; [apply znth_zset_eq; lia|].
    rewrite Hne by done. apply R6. lia.
Qed.

(** Removing slot [i] by moving the last node into it. *)
Lemma rep_remove a N sz i n nd l ndl :
  rep a N sz None -> 0 <= i < sz - 1 ->
  znth a i = Some (Some n) -> N !! n = Some nd ->
  znth a (sz - 1) = Some (Some l) -> N !! l = Some ndl ->
  n <> l /\
  rep (zset (zset a i (Some l)) (sz - 1) None)
      (<[l := Node (key ndl) (u16 (u16 i + 1))]> (<[n := Node (key nd) 0]> N)) (sz - 1) None.
Proof.
  intros R Hi Hai Hn Hal Hl.
  assert (n <> l) as Hnl.
  { intros ->. assert (i = sz - 1); [|lia]. apply (rep_uniq _ _ _ _ R _ _ l); done || lia. }
  split; [done|].
  pose proof (rep_size _ _ _ _ R) as Hz.
  pose proof (rep_exchange a N sz n i (sz - 1) l ndl (rep_open _ _ _ i n R ltac:(lia) Hai)
    ltac:(lia) ltac:(lia) ltac:(lia) Hai Hal Hl) as X.
  eapply rep_drop with (nd := nd) in X; [|lia|apply znth_zset_eq; rewrite zlen_zset; lia|].
  - rewrite zset_zset in X. by rewrite insert_insert_ne.
  - by rewrite lookup_insert_ne.
Qed.

(** ** Keys and order *)

Lemma kat_agree K L L' i : znth L i = znth L' i -> kat K L i = kat K L' i.
Proof. unfold kat. by intros ->. Qed.

Lemma ordered_broken_at K L sz i : ordered K L sz -> 0 <= i -> broken_at K L sz i.
Proof.
  intros O Hi. split; [by intros; apply O|].
  intros c Hc Hp H0. pose proof (parent_range c ltac:(lia)).
  transitivity (kat K L i); [apply (O i); lia|]. rewrite <- Hp. apply (O c); lia.
Qed.

Lemma ordered_min K L sz i : ordered K L sz -> 0 <= i < sz -> kat K L 0 <= kat K L i.
Proof.
  intros O. induction (Z.lt_wf 0 i) as [i _ IH]. intros Hi.
  destruct (decide (i = 0)) as [->|]; [done|].
  pose proof (parent_range i ltac:(lia)).
  transitivity (kat K L (mh_parent i)); [apply IH; lia|]. apply O. lia.
Qed.

(** The nodes of the queue are exactly the nodes of the occupied slots. *)
Lemma pq_slot a N sz n k :
  rep a N sz None ->
  pq N !! n = Some k <-> exists i, 0 <= i < sz /\ znth a i = Some (Some n) /\ kof N n = k.
Proof.
  intros R. rewrite pq_lookup. split.
  - intros (nd & E1 & E2 & E3). exists (idx nd - 1).
    destruct (rep_back _ _ _ _ R n nd E1 E2) as [? ?]; [done|].
    by rewrite (kof_lookup _ _ _ E1).
  - intros (i & Hi & E1 & E2). destruct (rep_slot_kof _ _ _ _ R Hi) as (m & nd & F1 & F2 & F3 & F4).
    rewrite E1 in F1. simplify_eq. exists nd. split_and!; try done. lia.
Qed.

(** The head slot holds a minimum. *)
Lemma head_is_min a sz cap N :
  heap_ok (Heap a sz cap) N -> 0 < sz ->
  exists n nd, znth a 0 = Some (Some n) /\ N !! n = Some nd /\ idx nd = 1 /\
    pq N !! n = Some (key nd) /\ forall m k, pq N !! m = Some k -> key nd <= k.
Proof.
  intros [Hc R O] Hs. simpl in *.
  destruct (rep_slot_kof _ _ _ 0 R) as (n & nd & E1 & E2 & E3 & E4); [lia|].
  exists n, nd. split_and!; try done.
  - rewrite (pq_slot _ _ _ _ _ R). exists 0. split_and!; done || lia.
  - intros m k. rewrite (pq_slot _ _ _ _ _ R). intros (i & Hi & F1 & <-).
    rewrite E4, <- (kat_Some (kof N) _ _ _ E1), <- (kat_Some (kof N) _ _ _ F1).
    by apply ordered_min with sz.
Qed.

(** A heap with no nodes. *)
Definition unmarked (N : gmap loc minheap_node_t) : Prop := forall n nd, N !! n = Some nd -> idx nd = 0.

Lemma create_ok cap N : 0 < cap -> unmarked N ->
  heap_ok (Heap (replicate (Z.to_nat cap) None) 0 cap) N.
Proof.
  intros Hc HN. assert (zlen (replicate (Z.to_nat cap) (@None loc)) = cap) as Hl.
  { unfold zlen. rewrite length_replicate. lia. }
  constructor; simpl; [done| |intros j Hj; lia].
  constructor; try done; try lia.
  - intros n nd E1 E2. by apply HN in E1.
  - intros i Hi. apply znth_replicate. lia.
Qed.

(** ** Assembling a sift with what precedes it *)

Lemma fill_ok (a : list ptr) N sz cap s N0 :
  sifted (fun a' => ordered (kof N) a' sz) (zlen a) sz cap N s -> zlen a = cap ->
  keys N = keys N0 ->
  exists a' N', s = St (Some (Heap a' sz cap)) N' /\ heap_ok (Heap a' sz cap) N' /\
    pq N' = pq N /\ keys N' = keys N0.
Proof.
  intros (a' & N' & -> & Hl & R & Hk & Hp & O) Ha HK. exists a', N'.
  split; [done|]. split; [|split; [done|congruence]].
  constructor; simpl; [congruence|done|]. by rewrite (kof_ext N' N).
Qed.

(** [mh_sift_up i; mh_sift_down i] repairs a heap broken at slot [i]. *)
Lemma sift_both_ok (a : list ptr) N sz cap i (Q : unit -> mst -> Prop) :
  rep a N sz None -> 0 <= i < sz -> zlen a = cap -> broken_at (kof N) a sz i ->
  (forall a' N', heap_ok (Heap a' sz cap) N' -> pq N' = pq N -> keys N' = keys N ->
     Q tt (St (Some (Heap a' sz cap)) N')) ->
  wp (mh_sift_up i;; mh_sift_down i) Q (St (Some (Heap a sz cap)) N).
Proof.
  intros R Hi Ha B HQ. apply wp_bind.
  eapply wp_mono; [by apply mh_sift_up_spec|].
  intros [] s (a1 & N1 & -> & Hl1 & R1 & K1 & P1 & D1).
  rewrite <- (kof_ext _ _ K1) in D1.
  eapply wp_mono; [by apply mh_sift_down_spec|].
  intros [] s S. eapply (fill_ok a1 N1 sz cap s N1) in S; [|lia|done].
  destruct S as (a2 & N2 & -> & O2 & P2 & K2). apply HQ; congruence.
Qed.

(** Likewise when the slot can only have to move down. *)
Lemma sift_down_ok (a : list ptr) N sz cap i (Q : unit -> mst -> Prop) :
  rep a N sz None -> 0 <= i < sz -> zlen a = cap -> broken_down (kof N) a sz i ->
  (forall a' N', heap_ok (Heap a' sz cap) N' -> pq N' = pq N -> keys N' = keys N ->
     Q tt (St (Some (Heap a' sz cap)) N')) ->
  wp (mh_sift_down i) Q (St (Some (Heap a sz cap)) N).
Proof.
  intros R Hi Ha B HQ. eapply wp_mono; [by apply mh_sift_down_spec|].
  intros [] s S. eapply (fill_ok a N sz cap s N) in S; [|done|done].
  destruct S as (a2 & N2 & -> & O2 & P2 & K2). by apply HQ.
Qed.

(** ** The operations, as rules for their callers *)

(** Inserting a node that is in no heap. *)
Lemma mh_insert_new_wp h N n nd (Q : Z -> mst -> Prop) :
  heap_ok h N -> N !! n = Some nd -> idx nd = 0 ->
  size h < capacity h -> size h + 1 < 2 ^ 16 ->
  (forall h' N', heap_ok h' N' -> size h' = size h + 1 -> capacity h' = capacity h ->
     keys N' = keys N -> pq N' = <[n := key nd]> (pq N) -> Q 0 (St (Some h') N')) ->
  wp (mh_insert (Some n)) Q (St (Some h) N).
Proof.
  intros [Hc R O] Hn Hi Hs Hsm HQ. destruct h as [a sz cap]. simpl in *.
  pose proof (rep_size _ _ _ _ R) as Hz.
  apply wp_bind, wp_gets. simpl. rewrite (proj2 (Z.leb_gt cap sz)) by done.
  apply wp_bind. eapply wp_map_get; [done|]. rewrite Hi. simpl.
  apply wp_bind, wp_put_size. rewrite swrap_small, (wrap_small 32) by lia.
  apply wp_bind, wp_arr_set; [lia|]. apply wp_bind. eapply wp_map_set; [done|].
  apply wp_bind.
  pose proof (rep_push a N sz n nd R ltac:(lia) Hsm Hn Hi) as R'.
  set (N1 := <[n := _]> N) in *.
  assert (keys N1 = keys N) as HK by by apply keys_move.
  assert (pq N1 = <[n := key nd]> (pq N)) as HP.
  { apply pq_add. rewrite stored_idx; lia. }
  eapply wp_mono; [apply mh_sift_up_spec; [done|lia|]|].
  { rewrite (kof_ext N1 N) by done. split.
    - intros j Hj Hjs Hp. unfold ordered_at. pose proof (parent_range j ltac:(lia)).
      rewrite !kat_zset_ne by lia. apply O. lia.
    - intros c Hc' Hp. pose proof (parent_range c ltac:(lia)). lia. }
  intros [] s S. eapply wp_ret.
  edestruct (fill_ok (zset a sz (Some n)) N1 (sz + 1) cap s N) as (a' & N' & -> & Ok & HP' & HK').
  - destruct S as (a' & N' & ? & ? & ? & ? & ? & D). exists a', N'. split_and!; try done.
    apply (broken_down_ordered _ _ _ _ D). intros j Hj Hp.
    pose proof (parent_range j ltac:(lia)). lia.
  - rewrite zlen_zset. lia.
  - done.
  - apply HQ; simpl; try done; congruence.
Qed.

(** Re-inserting a node of the heap whose key the caller has just changed. *)
Lemma mh_insert_update_wp h N n nd k (Q : Z -> mst -> Prop) :
  heap_ok h N -> N !! n = Some nd -> idx nd <> 0 -> size h < capacity h ->
  (forall h' N', heap_ok h' N' -> size h' = size h -> capacity h' = capacity h ->
     keys N' = <[n := k]> (keys N) -> pq N' = <[n := k]> (pq N) -> Q 0 (St (Some h') N')) ->
  wp (mh_insert (Some n)) Q (St (Some h) (<[n := Node k (idx nd)]> N)).
Proof.
  intros [Hc R O] Hn Hi Hs HQ. destruct h as [a sz cap]. simpl in *.
  destruct (rep_back _ _ _ _ R n nd Hn Hi) as [Hr Ha]; [done|].
  set (N1 := <[n := Node k (idx nd)]> N).
  assert (rep a N1 sz None) as R1.
  { destruct R as [R1 R2 R3 R4 R5 R6 R7]. constructor; try done.
    - intros i Hi'. destruct (R3 i Hi') as (m & nd' & E1 & E2 & E3).
      destruct (decide (n = m)) as [<-|].
      + exists n, (Node k (idx nd)). rewrite Hn in E2. simplify_eq.
        unfold N1. by rewrite lookup_insert_eq.
      + exists m, nd'. unfold N1. by rewrite lookup_insert_ne.
    - intros m nd' E1 E2 E3. unfold N1 in E1. destruct (decide (n = m)) as [<-|].
      + rewrite lookup_insert_eq in E1. simplify_eq. done.
      + rewrite lookup_insert_ne in E1 by done. by apply R4. }
  assert (forall j, 0 <= j < sz -> j <> idx nd - 1 -> kat (kof N1) a j = kat (kof N) a j) as HK.
  { intros j Hj Hne. destruct (rep_slot_kof _ _ _ _ R Hj) as (m & nd' & E1 & E2 & E3 & E4).
    rewrite !(kat_Some _ _ _ _ E1). unfold kof, keys, N1.
    assert (n <> m) by (intros ->; simplify_eq; lia).
    by rewrite !lookup_fmap, lookup_insert_ne. }
  apply wp_bind, wp_gets. simpl. rewrite (proj2 (Z.leb_gt cap sz)) by done.
  apply wp_bind. eapply wp_map_get; [apply lookup_insert_eq|]. simpl.
  rewrite (proj2 (Z.leb_le 0 (idx nd - 1))) by lia.
  apply wp_seq_assoc, wp_bind.
  apply sift_both_ok; [done|done|lia| |].
  - split.
    + intros j Hj Hne Hp. unfold ordered_at. pose proof (parent_range j ltac:(lia)).
      rewrite !HK by lia. apply O. lia.
    + intros c Hc' Hp H0. pose proof (parent_range c ltac:(lia)).
      pose proof (parent_range (idx nd - 1) ltac:(lia)).
      rewrite !HK by lia. apply (ordered_broken_at _ _ _ (idx nd - 1) O); lia.
  - intros a' N' Ok HP HK'. apply wp_ret, HQ; simpl; try done.
    + rewrite HK'. unfold N1, keys. by rewrite fmap_insert.
    + rewrite HP. replace N1 with (<[n := Node (key (Node k (idx nd))) (idx nd)]> N) by done.
      by rewrite pq_add.
Qed.

(** A full heap, or a null argument: nothing is done. *)
Lemma mh_insert_refused_wp h N p (Q : Z -> mst -> Prop) :
  p = None \/ capacity h <= size h -> Q (-1) (St (Some h) N) ->
  wp (mh_insert p) Q (St (Some h) N).
Proof.
  intros Hp HQ. apply wp_bind, wp_gets. simpl. destruct p; [|done].
  destruct Hp as [?|Hp]; [done|]. by rewrite (proj2 (Z.leb_le _ _) Hp).
Qed.

(** [mh_get_min]: a node with the least key, or null when there is none. *)
Definition is_min (q : gmap loc Z) (n : loc) : Prop :=
  exists k, q !! n = Some k /\ forall m k', q !! m = Some k' -> k <= k'.

Lemma mh_get_min_wp h N (Q : ptr -> mst -> Prop) :
  heap_ok h N ->
  (size h = 0 -> Q None (St (Some h) N)) ->
  (forall n nd, 0 < size h -> N !! n = Some nd -> idx nd = 1 -> is_min (pq N) n ->
     Q (Some n) (St (Some h) N)) ->
  wp mh_get_min Q (St (Some h) N).
Proof.
  intros Ok H0 HQ. pose proof (rep_size _ _ _ _ (ok_rep _ _ Ok)) as Hz.
  apply wp_bind, wp_gets. simpl. destruct (Z.eqb_spec (size h) 0) as [E|E]; [by apply H0|].
  destruct h as [a sz cap]. simpl in *.
  destruct (head_is_min _ _ _ _ Ok) as (n & nd & E1 & E2 & E3 & E4 & E5); [lia|].
  eapply wp_arr_get; [done|]. eapply HQ; [lia|done|done|]. by exists (key nd).
Qed.

(** [mh_extract_min] on a heap with nodes. *)
Lemma mh_extract_min_wp h N (Q : ptr -> mst -> Prop) :
  heap_ok h N -> 0 < size h ->
  (forall h' N' n nd, heap_ok h' N' -> size h' = size h - 1 -> capacity h' = capacity h ->
     N !! n = Some nd -> idx nd = 1 -> is_min (pq N) n ->
     keys N' = keys N -> pq N' = delete n (pq N) ->
     Q (Some n) (St (Some h') N')) ->
  wp mh_extract_min Q (St (Some h) N).
Proof.
  intros Ok Hs HQ. destruct h as [a sz cap]. simpl in *.
  destruct (head_is_min _ _ _ _ Ok Hs) as (n & nd & E1 & E2 & E3 & E4 & E5).
  destruct Ok as [Hc R O]. simpl in *.
  pose proof (rep_size _ _ _ _ R) as Hz. pose proof (rep_small _ _ _ _ R) as Hsm.
  assert (is_min (pq N) n) as Hmin by by exists (key nd).
  apply wp_bind, wp_gets. simpl. rewrite (proj2 (Z.eqb_neq sz 0)) by lia.
  apply wp_bind. eapply wp_arr_get; [done|]. apply wp_bind. eapply wp_map_del; [done|].
  apply wp_bind, wp_put_size. rewrite (wrap_small 32) by lia.
  set (N1 := <[n := Node (key nd) 0]> N).
  assert (keys N1 = keys N) as HK1 by by apply keys_move.
  assert (pq N1 = delete n (pq N)) as HP1 by apply pq_remove.
  apply wp_bind. destruct (Z.ltb_spec 0 (sz - 1)) as [Hlt|Hge].
  - destruct (rep_slot_kof _ _ _ (sz - 1) R) as (l & ndl & F1 & F2 & F3 & F4); [lia|].
    destruct (rep_remove a N sz 0 n nd l ndl) as [Hnl R']; try done; try lia.
    apply wp_bind. eapply wp_arr_get; [done|].
    apply wp_bind, wp_arr_set; [lia|]. apply wp_bind, wp_arr_set; [rewrite zlen_zset; lia|].
    apply wp_bind. eapply wp_arr_get.
    { rewrite znth_zset_ne by lia. apply znth_zset_eq. lia. }
    assert (N1 !! l = Some ndl) as Hl1 by (unfold N1; by rewrite lookup_insert_ne).
    apply wp_bind. eapply wp_map_set; [exact Hl1|].
    set (N2 := <[l := _]> N1) in *.
    assert (keys N2 = keys N) as HK2 by (unfold N2; by rewrite keys_move).
    apply sift_down_ok; [done|lia|by rewrite !zlen_zset| |].
    + rewrite (kof_ext _ _ HK2). split; [|lia].
      intros j Hj Hp. unfold ordered_at. pose proof (parent_range j ltac:(lia)).
      rewrite !kat_zset_ne by lia. apply O. lia.
    + intros a' N' Ok HP HK. apply wp_ret. apply (HQ _ _ n nd); simpl; try done; try congruence.
      rewrite HP. unfold N2. rewrite pq_move; [done|done|lia|]. rewrite stored_idx; lia.
  - assert (sz = 1) as -> by lia. apply wp_arr_set; [lia|]. apply wp_ret.
    apply (HQ _ _ n nd); simpl; try done.
    pose proof (rep_drop a N 1 n nd (rep_open _ _ _ 0 n R ltac:(lia) E1) ltac:(lia) E1 E2) as R'.
    constructor; simpl; [by rewrite zlen_zset|done|intros j Hj; lia].
Qed.

Lemma mh_extract_empty_wp h N (Q : ptr -> mst -> Prop) :
  size h = 0 -> Q None (St (Some h) N) -> wp mh_extract_min Q (St (Some h) N).
Proof. intros Hs HQ. apply wp_bind, wp_gets. simpl. by rewrite Hs. Qed.

(** [mh_delete_node] on a node of the heap. *)
Lemma mh_delete_in_wp h N n nd (Q : unit -> mst -> Prop) :
  heap_ok h N -> N !! n = Some nd -> idx nd <> 0 ->
  (forall h' N', heap_ok h' N' -> size h' = size h - 1 -> capacity h' = capacity h ->
     keys N' = keys N -> pq N' = delete n (pq N) -> Q tt (St (Some h') N')) ->
  wp (mh_delete_node (Some n)) Q (St (Some h) N).
Proof.
  intros [Hc R O] Hn Hi HQ. destruct h as [a sz cap]. simpl in *.
  pose proof (rep_size _ _ _ _ R) as Hz. pose proof (rep_small _ _ _ _ R) as Hsm.
  destruct (rep_back _ _ _ _ R n nd Hn Hi) as [Hr Ha]; [done|].
  apply wp_bind, wp_gets. simpl. rewrite (proj2 (Z.eqb_neq sz 0)) by lia.
  apply wp_bind. eapply wp_map_get; [done|].
  rewrite (proj2 (Z.ltb_ge (idx nd - 1) 0)) by lia.
  apply wp_bind. eapply wp_map_del; [done|].
  rewrite swrap_small, (wrap_small 32) by lia.
  set (N1 := <[n := Node (key nd) 0]> N).
  assert (keys N1 = keys N) as HK1 by by apply keys_move.
  assert (pq N1 = delete n (pq N)) as HP1 by apply pq_remove.
  set (i := idx nd - 1) in *.
  destruct (Z.eqb_spec i (sz - 1)) as [E|E].
  - apply wp_bind, wp_put_size, wp_arr_set; [lia|]. apply HQ; simpl; try done.
    rewrite E in Ha.
    pose proof (rep_drop a N sz n nd (rep_open _ _ _ (sz - 1) n R ltac:(lia) Ha) ltac:(lia) Ha Hn) as R'.
    constructor; simpl; [by rewrite zlen_zset|done|]. rewrite (kof_ext _ _ HK1).
    intros j Hj. unfold ordered_at. pose proof (parent_range j ltac:(lia)).
    rewrite !kat_zset_ne by lia. apply O. lia.
  - destruct (rep_slot_kof _ _ _ (sz - 1) R) as (l & ndl & F1 & F2 & F3 & F4); [lia|].
    destruct (rep_remove a N sz i n nd l ndl) as [Hnl R']; try done; try lia.
    apply wp_bind. eapply wp_arr_get; [done|].
    apply wp_bind, wp_arr_set; [lia|]. apply wp_bind, wp_arr_set; [rewrite zlen_zset; lia|].
    apply wp_bind. eapply wp_arr_get.
    { rewrite znth_zset_ne by lia. apply znth_zset_eq. lia. }
    assert (N1 !! l = Some ndl) as Hl1 by (unfold N1; by rewrite lookup_insert_ne).
    apply wp_bind. eapply wp_map_set; [exact Hl1|].
    set (N2 := <[l := _]> N1) in *.
    assert (keys N2 = keys N) as HK2 by (unfold N2; by rewrite keys_move).
    apply wp_bind, wp_put_size.
    apply sift_both_ok; [done|lia|by rewrite !zlen_zset| |].
    + rewrite (kof_ext _ _ HK2).
      destruct (ordered_broken_at _ _ _ i O) as [B1 B2]; [lia|]. split.
      * intros j Hj Hji Hp. unfold ordered_at. pose proof (parent_range j ltac:(lia)).
        rewrite !kat_zset_ne by lia. apply B1; lia.
      * intros c Hc' Hp H0. pose proof (parent_range c ltac:(lia)).
        pose proof (parent_range i ltac:(lia)).
        rewrite !kat_zset_ne by lia. apply B2; lia.
    + intros a' N' Ok HP HK. apply HQ; simpl; try done; try congruence.
      rewrite HP. unfold N2. rewrite pq_move; [done|done|lia|]. rewrite stored_idx; lia.
Qed.

(** [mh_delete_node] on a node of no heap, or on an empty heap, does nothing. *)
Lemma mh_delete_out_wp h N n nd (Q : unit -> mst -> Prop) :
  N !! n = Some nd -> idx nd = 0 -> Q tt (St (Some h) N) ->
  wp (mh_delete_node (Some n)) Q (St (Some h) N).
Proof.
  intros Hn Hi HQ. apply wp_bind, wp_gets. simpl. destruct (size h =? 0); [done|].
  apply wp_bind. eapply wp_map_get; [done|]. by rewrite Hi.
Qed.

(** ** Nodes outside the heap *)

Lemma pq_None N n : pq N !! n = None <-> forall nd, N !! n = Some nd -> idx nd = 0.
Proof.
  rewrite eq_None_not_Some. split.
  - intros H nd Hn. destruct (decide (idx nd = 0)) as [|Hi]; [done|].
    destruct H. exists (key nd). apply pq_lookup. eauto.
  - intros H [k Hk]. apply pq_lookup in Hk as (nd & E1 & E2 & _). eauto.
Qed.

Lemma pq_unmarked N n nd : N !! n = Some nd -> idx nd = 0 -> pq N !! n = None.
Proof. intros Hn Hi. apply pq_None. intros nd' E. congruence. Qed.

Lemma pq_outside N N' n :
  pq N !! n = None -> pq N' !! n = None -> (forall m, m <> n -> N' !! m = N !! m) -> pq N' = pq N.
Proof.
  intros H0 H1 He. apply map_eq. intros m. destruct (decide (m = n)) as [->|Hne]; [by rewrite H0|].
  apply option_eq. intros k. rewrite !pq_lookup. by rewrite He.
Qed.

(** Whatever happens to a node that is not in the heap and is not put there
    does not disturb the heap. *)
Lemma heap_ok_outside h N N' n :
  heap_ok h N -> pq N !! n = None -> pq N' !! n = None ->
  (forall m, m <> n -> N' !! m = N !! m) ->
  heap_ok h N' /\ pq N' = pq N.
Proof.
  intros [Hc R O] H0 H1 He. pose proof (proj1 (pq_None _ _) H0) as Hn0.
  pose proof (proj1 (pq_None _ _) H1) as Hn1. split.
  - assert (forall m nd, N !! m = Some nd -> idx nd <> 0 -> N' !! m = Some nd) as Hin.
    { intros m nd E1 E2. rewrite He; [done|]. intros ->. eauto. }
    constructor; [done| |].
    + destruct R as [R1 R2 R3 R4 R5 R6 R7]. constructor; try done.
      * intros i Hi. destruct (R3 i Hi) as (m & nd & E1 & E2 & E3). exists m, nd.
        specialize (E3 ltac:(done)). rewrite (Hin m nd); [|done|lia]. done.
      * intros m nd E1 E2 E3. destruct (decide (m = n)) as [->|Hne]; [by apply Hn1 in E1|].
        rewrite He in E1 by done. eauto.
    + intros j Hj. pose proof (parent_range j ltac:(lia)).
      assert (forall i, 0 <= i < size h -> kat (kof N') (arr h) i = kat (kof N) (arr h) i) as E.
      { intros i Hi. destruct (rep_slot_kof _ _ _ _ R Hi) as (m & nd & E1 & E2 & E3 & E4).
        rewrite !(kat_Some _ _ _ _ E1), (kof_lookup _ _ _ E2).
        apply kof_lookup. apply Hin; [done|lia]. }
      unfold ordered_at. rewrite !E by lia. by apply O.
  - by eapply pq_outside.
Qed.

(** Writing the key of a node that is in no heap does not disturb the heap. *)
Lemma heap_ok_rekey h N n k :
  heap_ok h N -> pq N !! n = None ->
  heap_ok h (<[n := Node k 0]> N) /\ pq (<[n := Node k 0]> N) = pq N.
Proof.
  intros Ok H0. apply (heap_ok_outside _ _ _ n); [done..| |].
  - rewrite pq_remove. apply lookup_delete_eq.
  - intros m Hm. by rewrite lookup_insert_ne.
Qed.

Lemma heap_ok_forget h N n :
  heap_ok h N -> pq N !! n = None ->
  heap_ok h (delete n N) /\ pq (delete n N) = pq N.
Proof.
  intros Ok H0. apply (heap_ok_outside _ _ _ n); [done..| |].
  - apply pq_None. intros nd. by rewrite lookup_delete_eq.
  - intros m Hm. by rewrite lookup_delete_ne.
Qed.

Lemma dom_keys N : dom (keys N) = dom N.
Proof. unfold keys. apply dom_fmap_L. Qed.

Lemma keys_dom N N' : keys N' = keys N -> dom N' = dom N.
Proof. intros E. by rewrite <- (dom_keys N'), E, dom_keys. Qed.
