(* ===== verification/MinHeapSpec.v ===== *)
(** * minheap: the priority-queue contract and its refinement

    [PQ] is the contract [src/minheap/minheap.h] states for its users: a finite
    map from nodes to keys with put, delete, extract-min and peek.  The heap
    code refines it along every sequence of calls, as long as the position of a
    node fits the 16-bit field and an update is not attempted on a full heap. *)

From Stdlib Require Import Sorted.
From S2P Require Import Prelude.
From S2P Require Import MinHeap.
From S2P Require Import MinHeapInv.
From S2P Require Import MinHeapOps.
Import MinHeap.

(** ** The number of nodes *)

(** The first [n] nodes of the array. *)
Definition members (a : list ptr) (n : nat) : list loc := omap id (take n a).

Lemma elem_of_members a n x :
  x ∈ members a n <-> exists i, 0 <= i < Z.of_nat n /\ znth a i = Some (Some x).
Proof.
  unfold members. rewrite list_elem_of_omap. split.
  - intros (p & Hp & Hx). unfold id in Hx. subst p.
    apply list_elem_of_lookup in Hp as [i Hi].
    apply lookup_take_Some in Hi as [Hi Hl]. exists (Z.of_nat i). split; [lia|].
    unfold znth. destruct (Z.ltb_spec (Z.of_nat i) 0); [lia|]. by rewrite Nat2Z.id.
  - intros (i & Hi & Hx). exists (Some x). split; [|done].
    unfold znth in Hx. destruct (Z.ltb_spec i 0); [done|].
    apply list_elem_of_lookup. exists (Z.to_nat i). apply lookup_take_Some. split; [done|lia].
Qed.

Lemma members_spec a N sz n :
  rep a N sz None -> Z.of_nat n <= sz ->
  NoDup (members a n) /\ length (members a n) = n.
Proof.
  intros R. pose proof (rep_size _ _ _ _ R) as Hz. induction n as [|n IH]; intros Hn.
  { unfold members. rewrite take_0. split; [constructor|done]. }
  destruct IH as [IH1 IH2]; [lia|].
  destruct (rep_slot _ _ _ _ R (Z.of_nat n)) as (m & nd & E1 & E2 & _); [lia|].
  assert (members a (S n) = members a n ++ [m]) as ->.
  { unfold members. unfold znth in E1. destruct (Z.ltb_spec (Z.of_nat n) 0); [lia|].
    rewrite Nat2Z.id in E1. rewrite (take_S_r _ _ _ E1), omap_app. done. }
  split; [|rewrite length_app; simpl; lia].
  apply NoDup_app. split; [done|]. split; [|apply NoDup_singleton].
  intros x Hx Hx'. apply list_elem_of_singleton in Hx' as ->.
  apply elem_of_members in Hx as (i & Hi & Ei).
  assert (i = Z.of_nat n); [|lia]. apply (rep_uniq _ _ _ _ R _ _ m); done || lia.
Qed.

(** [minheap->size] counts the nodes of the queue. *)
Lemma pq_size h N : heap_ok h N -> Z.of_nat (base.size (pq N)) = MinHeap.size h.
Proof.
  intros [Hc R O]. pose proof (rep_size _ _ _ _ R) as Hz.
  set (n := Z.to_nat (MinHeap.size h)).
  destruct (members_spec (arr h) N (MinHeap.size h) n R) as [H1 H2]; [lia|].
  assert (dom (pq N) = list_to_set (members (arr h) n)) as Hd.
  { apply set_eq. intros x. rewrite elem_of_dom, elem_of_list_to_set, elem_of_members.
    replace (Z.of_nat n) with (MinHeap.size h) by lia. split.
    - intros [k Hk]. rewrite (pq_slot _ _ _ _ _ R) in Hk. naive_solver.
    - intros (i & Hi & E). exists (kof N x). rewrite (pq_slot _ _ _ _ _ R). eauto. }
  rewrite <- size_dom, Hd, size_list_to_set by done. lia.
Qed.

(** ** The abstract priority queue *)
Module PQ.

Inductive cmd :=
  | Put (n : loc) (k : Z)     (** [n->key = k; mh_insert(n)] *)
  | Delete (n : loc)          (** [mh_delete_node(n)] *)
  | Extract                   (** [mh_extract_min()] *)
  | Peek                      (** [mh_get_min()] *)
  | Size.                     (** [mh_get_size()] *)

Inductive reply := RInt (z : Z) | RPtr (p : ptr) | RUnit.

(** The contract: a queue of capacity [cap] is a map from nodes to keys. *)
Inductive step (cap : Z) (q : gmap loc Z) : cmd -> reply -> gmap loc Z -> Prop :=
  | step_put n k : Z.of_nat (base.size q) < cap -> step cap q (Put n k) (RInt 0) (<[n := k]> q)
  | step_full n k : cap <= Z.of_nat (base.size q) -> q !! n = None ->
      step cap q (Put n k) (RInt (-1)) q
  | step_delete n : step cap q (Delete n) RUnit (delete n q)
  | step_extract n : is_min q n -> step cap q Extract (RPtr (Some n)) (delete n q)
  | step_empty : q = ∅ -> step cap q Extract (RPtr None) q
  | step_peek n : is_min q n -> step cap q Peek (RPtr (Some n)) q
  | step_peek_empty : q = ∅ -> step cap q Peek (RPtr None) q
  | step_size : step cap q Size (RInt (Z.of_nat (base.size q))) q.

Inductive run (cap : Z) : gmap loc Z -> list cmd -> list reply -> gmap loc Z -> Prop :=
  | run_nil q : run cap q [] [] q
  | run_cons q c r q' cs rs q'' :
      step cap q c r q' -> run cap q' cs rs q'' -> run cap q (c :: cs) (r :: rs) q''.

(** Calls a client may make: on nodes that exist, and an update of a queued
    node only when the queue is not full. *)
Definition cmd_ok (cap : Z) (D : gset loc) (q : gmap loc Z) (c : cmd) : Prop :=
  match c with
  | Put n _ => n ∈ D /\ (is_Some (q !! n) -> Z.of_nat (base.size q) < cap)
  | Delete n => n ∈ D
  | _ => True
  end.

Fixpoint admissible (cap : Z) (D : gset loc) (q : gmap loc Z) (cs : list cmd) : Prop :=
  match cs with
  | [] => True
  | c :: cs => cmd_ok cap D q c /\ forall r q', step cap q c r q' -> admissible cap D q' cs
  end.

(** The same calls on the heap code. *)
Definition exec (c : cmd) : M mst reply :=
  match c with
  | Put n k =>
      nd ← node_get n;
      node_put n (Node k (idx nd));;
      r ← mh_insert (Some n);
      mret (RInt r)
  | Delete n => mh_delete_node (Some n);; mret RUnit
  | Extract => p ← mh_extract_min; mret (RPtr p)
  | Peek => p ← mh_get_min; mret (RPtr p)
  | Size => z ← mh_get_size; mret (RInt z)
  end.

Fixpoint exec_all (cs : list cmd) : M mst (list reply) :=
  match cs with
  | [] => mret []
  | c :: cs => r ← exec c; rs ← exec_all cs; mret (r :: rs)
  end.

(** The simulation relation. *)
Definition sim (cap : Z) (D : gset loc) (s : mst) (q : gmap loc Z) : Prop :=
  exists h N, s = St (Some h) N /\ heap_ok h N /\ capacity h = cap /\ dom N = D /\ pq N = q.

Lemma sim_put cap D s q n k :
  cap < 2 ^ 16 -> sim cap D s q -> cmd_ok cap D q (Put n k) ->
  wp (exec (Put n k)) (fun r s' => exists q', step cap q (Put n k) r q' /\ sim cap D s' q') s.
Proof.
  intros Hcap (h & N & -> & Ok & Hc & HD & <-) [Hn Hfull].
  rewrite <- HD in Hn. apply elem_of_dom in Hn as [nd Hn].
  pose proof (pq_size h N Ok) as Hsz.
  pose proof (rep_size _ _ _ _ (ok_rep _ _ Ok)) as Hz. rewrite (ok_cap _ _ Ok) in Hz.
  assert (n ∈ dom N) as HnD by (apply elem_of_dom; eauto).
  apply wp_bind. eapply wp_node_get; [done|]. apply wp_bind, wp_modify. apply wp_bind.
  simpl. destruct (Z.eqb_spec (idx nd) 0) as [Hi|Hi].
  - rewrite Hi. destruct (heap_ok_rekey h N n k Ok (pq_unmarked _ _ _ Hn Hi)) as [Ok' Hpq].
    destruct (decide (Z.of_nat (base.size (pq N)) < cap)) as [Hlt|Hge].
    + eapply mh_insert_new_wp; [done|apply lookup_insert_eq|done|lia|lia|].
      intros h' N' H1 H2 H3 H4 H5. apply wp_ret. exists (<[n := k]> (pq N)).
      split; [by constructor|]. exists h', N'. split_and!; try done; [lia| |by rewrite H5, Hpq].
      rewrite (keys_dom _ _ H4), dom_insert_L. rewrite <- HD. set_solver.
    + apply mh_insert_refused_wp; [lia|]. apply wp_ret. exists (pq N). split.
      * apply step_full; [lia|]. apply eq_None_not_Some. intros [k' Hk'].
        apply pq_lookup in Hk' as (nd' & E1 & E2 & E3). congruence.
      * exists h, (<[n := Node k 0]> N). split_and!; try done.
        rewrite dom_insert_L, <- HD. set_solver.
  - assert (Z.of_nat (base.size (pq N)) < cap) as Hlt.
    { apply Hfull. exists (key nd). apply pq_lookup. eauto. }
    eapply mh_insert_update_wp; [done|done|done|lia|].
    intros h' N' H1 H2 H3 H4 H5. apply wp_ret. exists (<[n := k]> (pq N)).
    split; [by constructor|]. exists h', N'. split_and!; try done; [lia|].
    rewrite <- dom_keys, H4, dom_insert_L, dom_keys, <- HD. set_solver.
Qed.

Lemma sim_step cap D s q c :
  cap < 2 ^ 16 -> sim cap D s q -> cmd_ok cap D q c ->
  wp (exec c) (fun r s' => exists q', step cap q c r q' /\ sim cap D s' q') s.
Proof.
  intros Hcap Hsim Hok. destruct c as [n k|n| | |]; [by apply sim_put|..];
    destruct Hsim as (h & N & -> & Ok & Hc & HD & <-);
    pose proof (pq_size h N Ok) as Hsz;
    pose proof (rep_size _ _ _ _ (ok_rep _ _ Ok)) as Hz; simpl.
  - simpl in Hok. rewrite <- HD in Hok. apply elem_of_dom in Hok as [nd Hn].
    apply wp_bind. destruct (Z.eqb_spec (idx nd) 0) as [Hi|Hi].
    + eapply mh_delete_out_wp; [done|done|]. apply wp_ret. exists (delete n (pq N)).
      split; [constructor|]. exists h, N. split_and!; try done.
      symmetry. apply delete_id. apply eq_None_not_Some. intros [k' Hk'].
      apply pq_lookup in Hk' as (nd' & E1 & E2 & E3). congruence.
    + eapply mh_delete_in_wp; [done|done|done|]. intros h' N' H1 H2 H3 H4 H5. apply wp_ret.
      exists (delete n (pq N)). split; [constructor|]. exists h', N'.
      split_and!; try done; [congruence|]. by rewrite (keys_dom _ _ H4).
  - apply wp_bind. destruct (decide (0 < MinHeap.size h)) as [Hs|Hs].
    + apply mh_extract_min_wp; [done|done|].
      intros h' N' n nd H1 H2 H3 H4 H5 H6 H7 H8. apply wp_ret. exists (delete n (pq N)).
      split; [by constructor|]. exists h', N'. split_and!; try done; [congruence|].
      by rewrite (keys_dom _ _ H7).
    + apply mh_extract_empty_wp; [lia|]. apply wp_ret. exists (pq N). split.
      * constructor. apply map_size_empty_inv. lia.
      * by exists h, N.
  - apply wp_bind. apply mh_get_min_wp; [done|..].
    + intros H0. apply wp_ret. exists (pq N). split; [|by exists h, N].
      constructor. apply map_size_empty_inv. lia.
    + intros n nd H1 H2 H3 H4. apply wp_ret. exists (pq N). split; [by constructor|].
      by exists h, N.
  - apply wp_bind, wp_bind, wp_gets. simpl. apply wp_ret, wp_ret. exists (pq N).
    rewrite <- Hsz. split; [constructor|by exists h, N].
Qed.

End PQ.

Definition node_store (l : list (loc * Z)) : gmap loc minheap_node_t :=
  list_to_map (map (fun p => (p.1, Node p.2 0)) l).

(** ** Properties *)

(** C2: on a freshly created heap of any capacity below 2^16, along every sequence
    of inserts, key updates, deletions, extractions and peeks that is admissible
    (live nodes, and no new key for a node of a full heap, which
    [mh_full_update_refused] shows to break the order), the heap code runs without
    undefined behaviour and its replies are those of the abstract priority
    queue. *)
Theorem mh_refines_pqueue cap N cs h :
  0 < cap < 2 ^ 16 -> unmarked N -> PQ.admissible cap (dom N) ∅ cs ->
  mh_create true true cap = Some h ->
  wp (PQ.exec_all cs)
    (fun rs s => exists q, PQ.run cap ∅ cs rs q /\ PQ.sim cap (dom N) s q)
    (St (Some h) N).
Proof.
  intros Hcap HN Hadm Hc.
  assert (PQ.sim cap (dom N) (St (Some h) N) ∅) as Hsim.
  { unfold mh_create in Hc. simpl in Hc. destruct (Z.eqb_spec cap 0); [done|].
    injection Hc as <-. eexists _, N. split_and!; try done; [apply create_ok; lia || done|].
    apply map_empty. intros x. apply eq_None_not_Some. intros [k Hk].
    apply pq_lookup in Hk as (nd & E1 & E2 & E3). by apply HN in E1. }
  revert Hadm Hsim. generalize (St (Some h) N), (∅ : gmap loc Z).
  induction cs as [|c cs IH]; intros s q Hadm Hsim.
  { apply wp_ret. exists q. split; [constructor|done]. }
  destruct Hadm as [Hok Hadm]. simpl. apply wp_bind.
  eapply wp_mono; [apply (PQ.sim_step cap (dom N) s q); [lia|done|done]|]. intros r s' (q' & Hst & Hsim').
  apply wp_bind. eapply wp_mono; [eapply IH; [by eapply Hadm|done]|].
  intros rs s'' (q'' & Hr & Hs). apply wp_ret. exists q''. split; [by econstructor|done].
Qed.

(** One step of an [admissible] goal on a concrete list of calls. *)
Ltac admissible_step :=
  match goal with
  | |- _ /\ _ => split
  | |- True => exact I
  | |- _ ∈ _ => assumption
  | |- is_Some _ -> _ => intros _
  | |- forall r q', PQ.step _ _ _ _ _ -> _ =>
      let H := fresh in intros ? ? H; inversion H; clear H; subst
  end.

(** Two nodes, a heap of capacity 3: insert both, lower a key, delete, extract. *)
Lemma mh_refines_pqueue_witness :
  let N := node_store [(1, 10); (2, 20)] in
  let cs := [PQ.Put 1 10; PQ.Put 1 30; PQ.Put 2 20; PQ.Delete 2; PQ.Size; PQ.Extract] in
  exists h, mh_create true true 3 = Some h /\
  wp (PQ.exec_all cs)
    (fun rs s => exists q, PQ.run 3 ∅ cs rs q /\ PQ.sim 3 (dom N) s q) (St (Some h) N).
Proof.
  intros N cs. eexists. split; [reflexivity|].
  apply (mh_refines_pqueue 3 N cs); [lia| | |reflexivity].
  - intros n nd Hn. unfold N, node_store in Hn. simpl in Hn.
    repeat (apply lookup_insert_Some in Hn as [[? <-]|[? Hn]]; [done|]). done.
  - assert (1 ∈ dom N /\ 2 ∈ dom N) as [H1 H2] by (split; by vm_compute).
    unfold cs. cbn [PQ.admissible PQ.cmd_ok]. repeat admissible_step; by vm_compute.
Defined.

(** Repeated extraction, as in the clean-up loop of [uevent_base_loopbreak]. *)
Fixpoint drain (fuel : nat) : M mst (list loc) :=
  match fuel with
  | O => mret []
  | S fuel =>
      p ← mh_extract_min;
      match p with
      | None => mret []
      | Some n => l ← drain fuel; mret (n :: l)
      end
  end.

(** extracting until the heap is empty returns every node of the heap
    exactly once, in ascending key order, and leaves an empty heap. *)
Theorem mh_drain_sorted h N fuel :
  heap_ok h N -> MinHeap.size h <= Z.of_nat fuel ->
  wp (drain fuel)
    (fun l s => StronglySorted (fun a b => kof N a <= kof N b) l /\ NoDup l /\
       (forall n, n ∈ l <-> is_Some (pq N !! n)) /\
       exists h' N', s = St (Some h') N' /\ MinHeap.size h' = 0 /\ keys N' = keys N)
    (St (Some h) N).
Proof.
  revert h N. induction fuel as [|fuel IH]; intros h N Ok Hs;
    pose proof (rep_size _ _ _ _ (ok_rep _ _ Ok)) as Hz; pose proof (pq_size h N Ok) as Hq.
  { apply wp_ret. split_and!; [constructor|constructor| |by exists h, N; split_and!; done || lia].
    intros n. rewrite (map_size_empty_inv (pq N)) by lia. rewrite lookup_empty.
    split; [by intros ?%not_elem_of_nil|by intros [??]]. }
  simpl. apply wp_bind. destruct (decide (0 < MinHeap.size h)) as [Hp|Hp].
  2: { apply mh_extract_empty_wp; [lia|]. apply wp_ret.
       split_and!; [constructor|constructor| |by exists h, N; split_and!; done || lia].
       intros n. rewrite (map_size_empty_inv (pq N)) by lia. rewrite lookup_empty.
       split; [by intros ?%not_elem_of_nil|by intros [??]]. }
  apply mh_extract_min_wp; [done|done|].
  intros h' N' n nd Ok' Hs' _ Hn _ (k & Hk & Hmin) HK HP.
  apply wp_bind. eapply wp_mono; [apply IH; [done|lia]|].
  intros l s (S1 & S2 & S3 & h2 & N2 & -> & S4 & S5). apply wp_ret.
  rewrite HP in S3. rewrite (kof_ext N' N HK) in S1.
  assert (forall m k', pq N !! m = Some k' -> kof N m = k') as Hkof.
  { intros m k' Hm. apply pq_lookup in Hm as (nd' & E1 & E2 & <-). by apply kof_lookup. }
  split_and!.
  - constructor; [done|]. apply Forall_forall. intros m Hm%S3.
    rewrite lookup_delete_is_Some in Hm. destruct Hm as [_ [k' Hk']].
    rewrite (Hkof _ _ Hk), (Hkof _ _ Hk'). by eapply Hmin.
  - constructor; [|done]. rewrite S3, lookup_delete_eq. by intros [??].
  - intros m. rewrite elem_of_cons, S3, lookup_delete_is_Some.
    destruct (decide (n = m)) as [<-|]; naive_solver.
  - exists h2, N2. split_and!; [done|done|congruence].
Qed.

Lemma mh_drain_sorted_witness :
  let h := Heap (replicate 3 None) 0 3 in
  let N := node_store [(1, 10)] in
  wp (drain 3)
    (fun l s => StronglySorted (fun a b => kof N a <= kof N b) l /\ NoDup l /\
       (forall n, n ∈ l <-> is_Some (pq N !! n)) /\
       exists h' N', s = St (Some h') N' /\ MinHeap.size h' = 0 /\ keys N' = keys N)
    (St (Some h) N).
Proof.
  intros h N. apply (mh_drain_sorted h N 3); [|simpl; lia].
  apply (create_ok 3); [lia|].
  intros n nd Hn. unfold N, node_store in Hn. simpl in Hn.
  apply lookup_insert_Some in Hn as [[? <-]|[? Hn]]; done.
Defined.

(** [mh_insert] refuses a null heap, a null node and a full heap with -1 and
    changes nothing. *)
Theorem mh_insert_errors h N p :
  p = None \/ capacity h <= MinHeap.size h ->
  mh_insert p (St (Some h) N) = Some (-1, St (Some h) N) /\
  mh_insert p (St None N) = Some (-1, St None N).
Proof.
  intros Hp. split.
  - pose proof (mh_insert_refused_wp h N p (fun r s => r = -1 /\ s = St (Some h) N) Hp) as W.
    destruct (wp_run _ _ _ (W (conj eq_refl eq_refl))) as (a & s & -> & -> & ->). done.
  - by destruct p.
Qed.

Lemma mh_insert_errors_witness :
  let h := Heap [None] 1 1 in
  mh_insert (Some 7) (St (Some h) ∅) = Some (-1, St (Some h) ∅) /\
  mh_insert (Some 7) (St None ∅) = Some (-1, St None ∅).
Proof. intros h. apply (mh_insert_errors h ∅ (Some 7)). right. reflexivity. Defined.

(** the position written by [mh_map_set] is read back by [mh_map_get]
    exactly when it is below 65535; at 65535 the 16-bit field wraps to "not in a
    heap". *)
Theorem mh_map_roundtrip m N n nd i :
  N !! n = Some nd -> 0 <= i < 2 ^ 31 ->
  wp (mh_map_set (Some n) i;; mh_map_get (Some n))
    (fun r _ => (r = i <-> i < 65535) /\ (i = 65535 -> r = -1)) (St m N).
Proof.
  intros Hn Hi. apply wp_bind. eapply wp_map_set; [done|].
  eapply wp_map_get; [apply lookup_insert_eq|]. simpl. unfold wrap. split.
  - change (2 ^ 16) with 65536. split; [|intros; div_lia].
    intros E. pose proof (Z.mod_pos_bound (i mod 65536 + 1) 65536). lia.
  - intros ->. reflexivity.
Qed.

Lemma mh_map_roundtrip_witness :
  wp (mh_map_set (Some 1) 3;; mh_map_get (Some 1))
    (fun r _ => (r = 3 <-> 3 < 65535) /\ (3 = 65535 -> r = -1))
    (St None (node_store [(1, 5)])).
Proof. apply (mh_map_roundtrip None _ 1 (Node 5 0) 3); [reflexivity|lia]. Defined.

(** on a full heap, re-inserting a queued node whose key was raised is
    refused although it needs no slot, and the heap then hands out that node
    before a node with a smaller key. *)
Theorem mh_full_update_refused :
  let N := node_store [(1, 10); (2, 20)] in
  let cs := [PQ.Put 1 10; PQ.Put 2 20; PQ.Put 1 30; PQ.Extract] in
  exists h s, mh_create true true 2 = Some h /\
    PQ.exec_all cs (St (Some h) N) =
      Some ([PQ.RInt 0; PQ.RInt 0; PQ.RInt (-1); PQ.RPtr (Some 1)], s) /\
    kof (nodes s) 1 = 30 /\ kof (nodes s) 2 = 20.
Proof. eexists _, _. split; [reflexivity|]. split; [vm_compute; reflexivity|]. by vm_compute. Qed.
