(* ===== verification/UvHeap.v ===== *)
(** * libuv heap: the binary min-heap linked by pointers

    Models [src/minheap/heap-inl.h], the heap the tests compare minheap with: a
    complete binary tree whose nodes point to their children and their parent,
    and whose last node is found from the binary digits of the number of nodes.
    The state is one heap and the nodes, by address; the comparison is the
    caller's function on nodes. *)

From S2P Require Import Prelude.

Module UvHeap.

Record heap_node := HNode { left : ptr; right : ptr; parent : ptr }.
Record heap := Heap { min : ptr; nelts : Z }.
Record hst := St { hp : heap; nodes : gmap loc heap_node }.

(** ** Memory accesses *)

Definition node_get (x : loc) : M hst heap_node := N ← gets nodes; of_option (N !! x).
Definition node_put (x : loc) (n : heap_node) : M hst unit :=
  modify (fun s => St (hp s) (<[x := n]> (nodes s))).

Definition set_left (x : loc) (p : ptr) : M hst unit :=
  n ← node_get x; node_put x (HNode p (right n) (parent n)).
Definition set_right (x : loc) (p : ptr) : M hst unit :=
  n ← node_get x; node_put x (HNode (left n) p (parent n)).
Definition set_parent (x : loc) (p : ptr) : M hst unit :=
  n ← node_get x; node_put x (HNode (left n) (right n) p).

Definition set_min (p : ptr) : M hst unit := modify (fun s => St (Heap p (nelts (hp s))) (nodes s)).
Definition set_nelts (n : Z) : M hst unit := modify (fun s => St (Heap (min (hp s)) n) (nodes s)).

(** A place that holds a pointer to a node: what [struct heap_node **] points to. *)
Inductive cell := CMin | CLeft (x : loc) | CRight (x : loc).

Definition load (c : cell) : M hst ptr :=
  match c with
  | CMin => gets (fun s => min (hp s))
  | CLeft x => n ← node_get x; mret (left n)
  | CRight x => n ← node_get x; mret (right n)
  end.

Definition store (c : cell) (p : ptr) : M hst unit :=
  match c with
  | CMin => set_min p
  | CLeft x => set_left x p
  | CRight x => set_right x p
  end.

(** ** The operations *)

Definition heap_init : M hst unit := set_min None;; set_nelts 0.

Definition heap_min : M hst ptr := gets (fun s => min (hp s)).

Definition set_parent_of (p : ptr) (x : loc) : M hst unit :=
  match p with Some c => set_parent c (Some x) | None => mret tt end.

(** [p] and [c] are the arguments [parent] and [child]. *)
Definition heap_node_swap (p c : loc) : M hst unit :=
  t ← node_get p;
  n ← node_get c;
  node_put p n;;
  node_put c t;;
  set_parent p (Some c);;
  n ← node_get c;
  sibling ← (if bool_decide (left n = Some c) then set_left c (Some p);; mret (right n)
             else set_right c (Some p);; mret (left n));
  set_parent_of sibling c;;
  n ← node_get p;
  set_parent_of (left n) p;;
  set_parent_of (right n) p;;
  n ← node_get c;
  match parent n with
  | None => set_min (Some c)
  | Some gp =>
      g ← node_get gp;
      if bool_decide (left g = Some p) then set_left gp (Some c) else set_right gp (Some c)
  end.

(** [for (k = 0; n >= 2; k += 1, n /= 2) path = (path << 1) | (n & 1);] for a
    32-bit [n]: 32 rounds are enough. *)
Fixpoint path_loop (fuel : nat) (path k n : Z) : Z * Z :=
  match fuel with
  | O => (path, k)
  | S fuel =>
      if n <? 2 then (path, k)
      else path_loop fuel (Z.lor (u32 (Z.shiftl path 1)) (Z.land n 1)) (u32 (k + 1)) (Z.div n 2)
  end.

(** [while (k > 0) { ... }] from [child], with the last two places; [k] rounds. *)
Fixpoint walk (k : nat) (path : Z) (par child : cell) : M hst (cell * cell) :=
  match k with
  | O => mret (par, child)
  | S k =>
      p ← load child;
      x ← of_option p;
      walk k (Z.shiftr path 1) child (if Z.land path 1 =? 1 then CRight x else CLeft x)
  end.

Section heap.
Variable less_than : loc -> loc -> bool.

(** [while (x->parent != NULL && less_than(x, x->parent)) heap_node_swap(...);] *)
Fixpoint sift_up (fuel : nat) (x : loc) : M hst unit :=
  match fuel with
  | O => ub
  | S fuel =>
      n ← node_get x;
      match parent n with
      | None => mret tt
      | Some p => if less_than x p then heap_node_swap p x;; sift_up fuel x else mret tt
      end
  end.

(** The smallest of [x] and its children. *)
Definition smaller (p : ptr) (smallest : loc) : loc :=
  match p with Some c => if less_than c smallest then c else smallest | None => smallest end.

Fixpoint sift_down (fuel : nat) (x : loc) : M hst unit :=
  match fuel with
  | O => ub
  | S fuel =>
      n ← node_get x;
      let smallest := smaller (right n) (smaller (left n) x) in
      if bool_decide (smallest = x) then mret tt
      else heap_node_swap x smallest;; sift_down fuel x
  end.

(** Enough rounds for a walk along the tree. *)
Definition rounds : M hst nat := gets (fun s => S (Z.to_nat (nelts (hp s)))).

Definition heap_insert (newnode : loc) : M hst unit :=
  set_left newnode None;;
  set_right newnode None;;
  set_parent newnode None;;
  n ← gets (fun s => nelts (hp s));
  let '(path, k) := path_loop 32 0 0 (u32 (1 + n)) in
  r ← walk (Z.to_nat k) path CMin CMin;
  p ← load r.1;
  set_parent newnode p;;
  store r.2 (Some newnode);;
  set_nelts (u32 (n + 1));;
  fuel ← rounds;
  sift_up fuel newnode.

Definition heap_remove (node : ptr) : M hst unit :=
  n ← gets (fun s => nelts (hp s));
  if n =? 0 then mret tt
  else
    let '(path, k) := path_loop 32 0 0 n in
    r ← walk (Z.to_nat k) path CMin CMin;
    set_nelts (u32 (n - 1));;
    child ← load r.2;
    store r.2 None;;
    if bool_decide (child = node) then
      m ← heap_min;
      if bool_decide (child = m) then set_min None else mret tt
    else
      child ← of_option child;
      node ← of_option node;
      nd ← node_get node;
      set_left child (left nd);;
      set_right child (right nd);;
      set_parent child (parent nd);;
      set_parent_of (left nd) child;;
      set_parent_of (right nd) child;;
      nd ← node_get node;
      match parent nd with
      | None => set_min (Some child)
      | Some gp =>
          g ← node_get gp;
          if bool_decide (left g = Some node) then set_left gp (Some child) else set_right gp (Some child)
      end;;
      fuel ← rounds;
      sift_down fuel child;;
      sift_up fuel child.

Definition heap_dequeue : M hst unit := m ← heap_min; heap_remove m.
End heap.
End UvHeap.
