(* ===== verification/UvHeapInv.v ===== *)
(** * libuv heap: the tree as an array

    A complete binary tree is an array: the children of position [i] are at
    [2 * i] and [2 * i + 1].  [tree] says that the nodes of
    [src/minheap/heap-inl.h] are linked as the array [l] lays them out; this file
    has the rules of the links: swapping a node with its parent, and the walk to
    the last position. *)

From S2P Require Import Prelude.
From S2P Require Import UvHeap.
Import UvHeap.

(** ** Positions *)

(** The node at a position, from 1. *)
Definition at_pos (l : list loc) (i : Z) : ptr := znth l (i - 1).

Lemma at_pos_out l i : ~ 1 <= i <= zlen l -> at_pos l i = None.
Proof.
  intros H. unfold at_pos. destruct (znth l (i - 1)) eqn:E; [|done]. apply znth_Some_range in E. lia.
Qed.

Lemma at_pos_range l i x : at_pos l i = Some x -> 1 <= i <= zlen l.
Proof. intros H%znth_Some_range. lia. Qed.

Lemma at_pos_in l i : 1 <= i <= zlen l -> exists x, at_pos l i = Some x.
Proof. intros H. apply znth_is_Some. lia. Qed.

Lemma at_pos_elem l x : x ∈ l <-> exists i, at_pos l i = Some x.
Proof.
  rewrite list_elem_of_lookup. unfold at_pos, znth. split.
  - intros (n & Hn). exists (Z.of_nat n + 1). destruct (Z.ltb_spec (Z.of_nat n + 1 - 1) 0); [lia|].
    by replace (Z.to_nat _) with n by lia.
  - intros (i & Hi). destruct (i - 1 <? 0); [done|]. eauto.
Qed.

Lemma at_pos_inj l i j x : NoDup l -> at_pos l i = Some x -> at_pos l j = Some x -> i = j.
Proof.
  intros HN Hi Hj. pose proof (at_pos_range _ _ _ Hi). pose proof (at_pos_range _ _ _ Hj).
  unfold at_pos, znth in *. destruct (Z.ltb_spec (i - 1) 0), (Z.ltb_spec (j - 1) 0); try lia.
  pose proof (NoDup_lookup _ _ _ _ HN Hi Hj). lia.
Qed.

(** [lia] for halves. *)
Ltac halves := Z.to_euclidean_division_equations; lia.

(** The children and the parent of a position. *)
Definition child_of (i j : Z) : Prop := j = 2 * i \/ j = 2 * i + 1.

Lemma child_half i j : child_of i j <-> j / 2 = i.
Proof. unfold child_of. split; [intros [-> | ->]; halves|intros <-; halves]. Qed.

(** ** Links *)

Definition links (l : list loc) (i : Z) : heap_node :=
  HNode (at_pos l (2 * i)) (at_pos l (2 * i + 1)) (at_pos l (i / 2)).

Record tree (l : list loc) (s : hst) : Prop := {
  tr_min : min (hp s) = at_pos l 1;
  tr_nelts : nelts (hp s) = zlen l;
  tr_nodup : NoDup l;
  tr_links : forall i x, at_pos l i = Some x -> nodes s !! x = Some (links l i)
}.

(** Two positions exchanged. *)
Definition exchange (l : list loc) (i j : Z) : list loc :=
  match at_pos l i, at_pos l j with
  | Some x, Some y => zset (zset l (i - 1) y) (j - 1) x
  | _, _ => l
  end.

Lemma zlen_exchange l i j : zlen (exchange l i j) = zlen l.
Proof. unfold exchange. destruct (at_pos l i), (at_pos l j); by rewrite ?zlen_zset. Qed.

Lemma at_exchange l i j k : 1 <= i <= zlen l -> 1 <= j <= zlen l ->
  at_pos (exchange l i j) k = if decide (k = j) then at_pos l i else if decide (k = i) then at_pos l j else at_pos l k.
Proof.
  intros Hi Hj. destruct (at_pos_in l i Hi) as [x Hx], (at_pos_in l j Hj) as [y Hy].
  unfold exchange. rewrite Hx, Hy. unfold at_pos.
  destruct (decide (k = j)) as [->|Hkj]; [by rewrite znth_zset_eq by (rewrite zlen_zset; lia)|].
  rewrite znth_zset_ne by lia. destruct (decide (k = i)) as [->|Hki]; [by rewrite znth_zset_eq by lia|].
  by rewrite znth_zset_ne by lia.
Qed.

Lemma NoDup_at l : (forall i j x, at_pos l i = Some x -> at_pos l j = Some x -> i = j) -> NoDup l.
Proof.
  intros H. apply NoDup_alt. intros n m x Hn Hm.
  assert (forall a, l !! a = Some x -> at_pos l (Z.of_nat a + 1) = Some x) as Ha.
  { intros a Hl. unfold at_pos, znth. destruct (Z.ltb_spec (Z.of_nat a + 1 - 1) 0); [lia|].
    by replace (Z.to_nat _) with a by lia. }
  pose proof (H _ _ _ (Ha _ Hn) (Ha _ Hm)). lia.
Qed.

Lemma exchange_nodup l i j : NoDup l -> 1 <= i <= zlen l -> 1 <= j <= zlen l -> NoDup (exchange l i j).
Proof.
  intros HN Hi Hj. apply NoDup_at. intros a b x. rewrite !at_exchange by done.
  intros Ha Hb. repeat case_decide; subst; try done; pose proof (at_pos_inj _ _ _ _ HN Ha Hb); congruence.
Qed.

Lemma exchange_elem l i j x : 1 <= i <= zlen l -> 1 <= j <= zlen l -> x ∈ exchange l i j <-> x ∈ l.
Proof.
  intros Hi Hj. rewrite !at_pos_elem. split; intros [k Hk].
  - rewrite at_exchange in Hk by done. repeat case_decide; eauto.
  - destruct (decide (k = i)) as [->|]; [exists j|destruct (decide (k = j)) as [->|]; [exists i|exists k]];
      rewrite at_exchange by done; repeat case_decide; congruence.
Qed.

(** ** Fields by position *)

Definition upd {A} (f : Z -> A) (i : Z) (a : A) : Z -> A := fun k => if decide (k = i) then a else f k.

(** The nodes of [l] have the fields [f]; the other nodes are those of [N]. *)
Record linked (l : list loc) (f : Z -> heap_node) (N : gmap loc heap_node) (s : hst) : Prop := {
  lk_at : forall i x, at_pos l i = Some x -> nodes s !! x = Some (f i);
  lk_out : forall x, x ∉ l -> nodes s !! x = N !! x
}.

Lemma tree_linked l s : tree l s -> linked l (links l) (nodes s) s.
Proof. intros []. by constructor. Qed.

Section fields.
Context (l : list loc) (N : gmap loc heap_node) (HN : NoDup l).

Lemma wp_get_at f s i x (Q : heap_node -> hst -> Prop) :
  linked l f N s -> at_pos l i = Some x -> Q (f i) s -> wp (node_get x) Q s.
Proof. intros L Hx HQ. apply wp_bind, wp_gets. rewrite (lk_at _ _ _ _ L _ _ Hx). by apply wp_ret. Qed.

Lemma wp_put_at f s i x n (Q : unit -> hst -> Prop) :
  linked l f N s -> at_pos l i = Some x ->
  (forall s', linked l (upd f i n) N s' -> hp s' = hp s -> Q tt s') -> wp (node_put x n) Q s.
Proof.
  intros [L1 L2] Hx HQ. apply wp_modify, HQ; [|done]. constructor; simpl.
  - intros j y Hy. unfold upd. case_decide as Hj; subst.
    + rewrite Hx in Hy. injection Hy as <-. apply lookup_insert_eq.
    + rewrite lookup_insert_ne; [by apply L1|]. intros ->. apply Hj. by eapply at_pos_inj.
  - intros y Hy. rewrite lookup_insert_ne; [by apply L2|]. intros ->. apply Hy, at_pos_elem. eauto.
Qed.

Definition with_left n p := HNode p (right n) (parent n).
Definition with_right n p := HNode (left n) p (parent n).
Definition with_parent n p := HNode (left n) (right n) p.

Lemma wp_left_at f s i x p (Q : unit -> hst -> Prop) :
  linked l f N s -> at_pos l i = Some x ->
  (forall s', linked l (upd f i (with_left (f i) p)) N s' -> hp s' = hp s -> Q tt s') -> wp (set_left x p) Q s.
Proof. intros L Hx HQ. apply wp_bind. eapply wp_get_at; [done..|]. by eapply wp_put_at. Qed.

Lemma wp_right_at f s i x p (Q : unit -> hst -> Prop) :
  linked l f N s -> at_pos l i = Some x ->
  (forall s', linked l (upd f i (with_right (f i) p)) N s' -> hp s' = hp s -> Q tt s') -> wp (set_right x p) Q s.
Proof. intros L Hx HQ. apply wp_bind. eapply wp_get_at; [done..|]. by eapply wp_put_at. Qed.

Lemma wp_parent_at f s i x p (Q : unit -> hst -> Prop) :
  linked l f N s -> at_pos l i = Some x ->
  (forall s', linked l (upd f i (with_parent (f i) p)) N s' -> hp s' = hp s -> Q tt s') -> wp (set_parent x p) Q s.
Proof. intros L Hx HQ. apply wp_bind. eapply wp_get_at; [done..|]. by eapply wp_put_at. Qed.

(** A position without a node has no fields to speak of. *)
Lemma linked_out f s i n : linked l f N s -> at_pos l i = None -> linked l (upd f i n) N s.
Proof. intros [L1 L2] Hi. constructor; [|done]. intros j y Hy. unfold upd. case_decide; [congruence|by apply L1]. Qed.

Lemma wp_parent_of_at f s i p x (Q : unit -> hst -> Prop) :
  linked l f N s -> at_pos l i = p ->
  (forall s', linked l (upd f i (with_parent (f i) (Some x))) N s' -> hp s' = hp s -> Q tt s') ->
  wp (set_parent_of p x) Q s.
Proof.
  intros L Hx HQ. destruct p as [c|]; cbn [set_parent_of]; [by eapply wp_parent_at|].
  apply wp_ret, HQ; [|done]. by apply linked_out.
Qed.

Lemma linked_min f s p : linked l f N s -> linked l f N (St (Heap p (nelts (hp s))) (nodes s)).
Proof. intros []. by constructor. Qed.
End fields.

Ltac upds := unfold upd; repeat first [rewrite decide_True by lia | rewrite decide_False by lia]; cbn [left right parent with_left with_right with_parent].

(** A node with the pointer to its child at position [i] set. *)
Definition hang (i : Z) (n : heap_node) (p : ptr) : heap_node :=
  if decide (i = 2 * (i / 2)) then with_left n p else with_right n p.

(** The parent of the node at position [i], or the heap, made to point to [c]:
    the last step of the swap and of the removal. *)
Lemma relink_wp l L f N s i x c (Q : unit -> hst -> Prop) :
  NoDup l -> NoDup L -> linked L f N s -> at_pos l i = Some x -> at_pos L (i / 2) = at_pos l (i / 2) ->
  (i <> 1 -> f (i / 2) = links l (i / 2)) ->
  (forall s', linked L (if decide (i = 1) then f else upd f (i / 2) (hang i (links l (i / 2)) (Some c))) N s' ->
     min (hp s') = (if decide (i = 1) then Some c else min (hp s)) -> nelts (hp s') = nelts (hp s) -> Q tt s') ->
  wp (match at_pos l (i / 2) with
      | None => set_min (Some c)
      | Some gp =>
          g ← node_get gp;
          if bool_decide (left g = Some x) then set_left gp (Some c) else set_right gp (Some c)
      end) Q s.
Proof.
  intros HNl HN K Hi HL Hf HQ. pose proof (at_pos_range _ _ _ Hi) as Ri. destruct (decide (i = 1)) as [->|H1].
  - change (1 / 2) with 0 in *. rewrite at_pos_out by lia. apply wp_modify, HQ; [by apply linked_min|done..].
  - destruct (at_pos_in l (i / 2)) as [gp Hgp]; [halves|]. rewrite Hgp in HL |- *. unfold hang in HQ.
    apply wp_bind. eapply wp_get_at; [exact K|exact HL|]. rewrite Hf by done. cbn [links left].
    rewrite <- Hf in HQ by done. destruct (decide (i = 2 * (i / 2))) as [He|He].
    + rewrite bool_decide_true by (by rewrite <- He). eapply wp_left_at; [done|exact K|exact HL|].
      intros s' K' H'. by apply HQ; [|rewrite H'..].
    + rewrite bool_decide_false by (intros E; pose proof (at_pos_inj _ _ _ _ HNl E Hi); lia).
      eapply wp_right_at; [done|exact K|exact HL|]. intros s' K' H'. by apply HQ; [|rewrite H'..].
Qed.

(** ** Swapping a node with its parent *)

Section swap.
Context (l : list loc) (HN : NoDup l) (p j : Z) (x y : loc).
Hypothesis Hc : child_of p j.
Hypothesis Hx : at_pos l p = Some x.
Hypothesis Hy : at_pos l j = Some y.

(** The array after the swap, and the fields a node ends with, by the position it
    had before. *)
Let l' : list loc := exchange l p j.
Definition swapped (k : Z) : heap_node := links l' (if decide (k = p) then j else if decide (k = j) then p else k).

Lemma at_swapped k : at_pos l' k = if decide (k = j) then Some x else if decide (k = p) then Some y else at_pos l k.
Proof. unfold l'. by rewrite at_exchange, Hx, Hy by (by eapply at_pos_range). Qed.

Lemma swapped_tree N s' f :
  linked l f N s' -> (forall k, 1 <= k <= zlen l -> f k = swapped k) ->
  min (hp s') = at_pos l' 1 -> nelts (hp s') = zlen l -> tree l' s'.
Proof.
  intros L Hf Hm Hl. pose proof (at_pos_range _ _ _ Hx) as Rp. pose proof (at_pos_range _ _ _ Hy) as Rj.
  constructor; [done|unfold l'; by rewrite zlen_exchange|by apply exchange_nodup|].
  intros k w Hk. pose proof (at_pos_range _ _ _ Hk) as Rk. unfold l' in Rk. rewrite zlen_exchange in Rk.
  assert (forall q, at_pos l q = Some w -> swapped q = links l' k -> nodes s' !! w = Some (links l' k)) as Hq.
  { intros q H1 <-. rewrite <- Hf by (by eapply at_pos_range). by eapply L. }
  rewrite at_swapped in Hk. unfold swapped in Hq. unfold child_of in Hc.
  repeat case_decide; subst; simplify_eq; [apply (Hq p)|apply (Hq j)|apply (Hq k)]; try done;
    repeat case_decide; done || lia.
Qed.

(** The sibling of [j]. *)
Let q : Z := 4 * p + 1 - j.

(** [y]'s new child, and its sibling. *)
Definition child_fields : heap_node :=
  HNode (if decide (j = 2 * p) then Some x else at_pos l (2 * p))
     (if decide (j = 2 * p) then at_pos l (2 * p + 1) else Some x) (at_pos l (p / 2)).

Lemma wp_sibling N f s (Q : ptr -> hst -> Prop) :
  linked l f N s -> f j = links l p ->
  (forall s', linked l (upd f j child_fields) N s' -> hp s' = hp s -> Q (at_pos l q) s') ->
  wp (if bool_decide (left (f j) = Some y) then set_left y (Some x);; mret (right (f j))
      else set_right y (Some x);; mret (left (f j))) Q s.
Proof.
  intros L Hj HQ. unfold child_of in Hc. unfold child_fields, q in HQ. rewrite Hj. cbn [links left right].
  destruct (decide (j = 2 * p)) as [H2|H2].
  - rewrite bool_decide_true by (by rewrite <- H2). apply wp_bind. eapply wp_left_at; [done|exact L|exact Hy|].
    intros s' L' H'. apply wp_ret. replace (2 * p + 1) with (4 * p + 1 - j) in * by lia.
    apply HQ; [|done]. unfold with_left in L'. rewrite Hj in L'. cbn [links right parent] in L'.
    by replace (2 * p + 1) with (4 * p + 1 - j) in L' by lia.
  - rewrite bool_decide_false.
    2: { intros H. pose proof (at_pos_inj _ _ _ _ HN H Hy). lia. }
    apply wp_bind. eapply wp_right_at; [done|exact L|exact Hy|].
    intros s' L' H'. apply wp_ret. replace (2 * p) with (4 * p + 1 - j) in * by lia.
    apply HQ; [|done]. unfold with_right in L'. rewrite Hj in L'. cbn [links left parent] in L'.
    by replace (2 * p) with (4 * p + 1 - j) in L' by lia.
Qed.

(** The fields before the grandparent is linked. *)
Definition below (k : Z) : heap_node :=
  if decide (k = p) then with_parent (links l j) (Some y)
  else if decide (k = j) then child_fields
  else if decide (k = q) then with_parent (links l k) (Some y)
  else if decide (k / 2 = j) then with_parent (links l k) (Some x)
  else links l k.

Lemma linked_ext N f f' s : linked l f N s -> (forall k, 1 <= k <= zlen l -> f k = f' k) -> linked l f' N s.
Proof. intros [L1 L2] H. constructor; [|done]. intros i z Hz. rewrite <- H by (by eapply at_pos_range). by apply L1. Qed.

Lemma swap_below_wp s (Q : unit -> hst -> Prop) (k : M hst unit) :
  tree l s ->
  (forall s', linked l below (nodes s) s' -> hp s' = hp s -> wp k Q s') ->
  wp (t ← node_get x;
      n ← node_get y;
      node_put x n;;
      node_put y t;;
      set_parent x (Some y);;
      n ← node_get y;
      sibling ← (if bool_decide (left n = Some y) then set_left y (Some x);; mret (right n)
                 else set_right y (Some x);; mret (left n));
      set_parent_of sibling y;;
      n ← node_get x;
      set_parent_of (left n) x;;
      set_parent_of (right n) x;; k) Q s.
Proof.
  intros T HQ. pose proof (at_pos_range _ _ _ Hx) as Rp. pose proof (at_pos_range _ _ _ Hy) as Rj.
  pose proof (tree_linked _ _ T) as L0. set (N := nodes s) in *. clearbody N. pose proof Hc as Hc'. unfold child_of in Hc'.
  assert (q <> p /\ q <> j /\ (2 * j <> q) /\ (2 * j + 1 <> q) /\ p < j /\ 1 <= q) as Hq by (unfold q; lia).
  apply wp_bind. eapply wp_get_at; [exact L0|exact Hx|]. apply wp_bind. eapply wp_get_at; [exact L0|exact Hy|].
  apply wp_bind. eapply wp_put_at; [done|exact L0|exact Hx|]. intros s1 L1 H1.
  apply wp_bind. eapply wp_put_at; [done|exact L1|exact Hy|]. intros s2 L2 H2.
  apply wp_bind. eapply wp_parent_at; [done|exact L2|exact Hx|]. intros s3 L3 H3.
  apply wp_bind. eapply wp_get_at; [exact L3|exact Hy|].
  apply wp_bind. eapply wp_sibling; [exact L3|by upds|]. intros s4 L4 H4.
  apply wp_bind. eapply wp_parent_of_at; [done|exact L4|done|]. intros s5 L5 H5.
  apply wp_bind. eapply wp_get_at; [exact L5|exact Hx|].
  set (f5 := upd _ q _) in *. assert (left (f5 p) = at_pos l (2 * j) /\ right (f5 p) = at_pos l (2 * j + 1)) as [-> ->].
  { unfold f5. split; upds; done. }
  apply wp_bind. eapply wp_parent_of_at; [done|exact L5|done|]. intros s6 L6 H6.
  apply wp_bind. eapply wp_parent_of_at; [done|exact L6|done|]. intros s7 L7 H7.
  apply HQ; [|congruence]. eapply linked_ext; [exact L7|]. intros k' Hk. unfold f5, below.
  destruct (decide (k' = p)) as [->|]; [by upds|]. destruct (decide (k' = j)) as [->|]; [by upds|].
  destruct (decide (k' = q)) as [->|]; [by upds|].
  destruct (decide (k' / 2 = j)) as [[-> | ->]%child_half|Hh]; [by upds..|].
  assert (k' <> 2 * j /\ k' <> 2 * j + 1) as Hk2 by (rewrite <- child_half in Hh; unfold child_of in Hh; lia).
  by upds.
Qed.

(** Away from the grandparent these are the fields of the new tree. *)
Lemma below_swapped k : 1 <= k <= zlen l -> k <> p / 2 -> below k = swapped k.
Proof.
  intros Hk Hh. pose proof (at_pos_range _ _ _ Hx) as Rp. unfold below, swapped, child_of in *.
  destruct (decide (k = p)) as [->|Hkp].
  { unfold links, with_parent. rewrite !at_swapped. cbn [left right].
    f_equal; repeat case_decide; try done; try lia; exfalso; halves. }
  destruct (decide (k = j)) as [->|Hkj].
  { unfold links, child_fields. rewrite !at_swapped.
    f_equal; repeat case_decide; try done; try lia; try (by f_equal; lia); exfalso; halves. }
  unfold links, with_parent, q. rewrite !at_swapped. cbn [left right].
  repeat case_decide; f_equal; try done; try lia; exfalso; halves.
Qed.

Lemma heap_node_swap_wp s (Q : unit -> hst -> Prop) :
  tree l s ->
  (forall s', tree l' s' -> (forall z, z ∉ l -> nodes s' !! z = nodes s !! z) -> Q tt s') ->
  wp (heap_node_swap x y) Q s.
Proof.
  intros T HQ. pose proof (at_pos_range _ _ _ Hx) as Rp. pose proof (at_pos_range _ _ _ Hy) as Rj.
  apply swap_below_wp; [done|]. intros s1 L1 H1. pose proof Hc as Hc'. unfold child_of in Hc'.
  apply wp_bind. eapply wp_get_at; [exact L1|exact Hy|].
  replace (parent (below j)) with (at_pos l (p / 2)) by (unfold below; by upds).
  assert (p <> 1 -> below (p / 2) = links l (p / 2)) as Hbh.
  { intros Hp. unfold below, q. assert (1 <= p / 2 < p /\ p / 2 / 2 <> j) by halves. by upds. }
  eapply relink_wp; [exact HN|exact HN|exact L1|exact Hx|done|done|]. intros s2 L2 Hm2 Hn2.
  apply HQ; [|by apply L2]. eapply swapped_tree; [exact L2| | |rewrite Hn2, H1; apply T].
  - intros k Hk. destruct (decide (p = 1)) as [Hp|Hp].
    { apply below_swapped; [done|]. rewrite Hp. change (1 / 2) with 0. lia. }
    unfold upd. case_decide as Hkh; [|by apply below_swapped]. subst k. unfold swapped, hang, with_left, with_right, links.
    rewrite !at_swapped. cbn [left right parent].
    repeat case_decide; f_equal; try done; try lia; try (by f_equal; lia); exfalso; halves.
  - rewrite Hm2, H1, at_swapped, (tr_min _ _ T). repeat case_decide; try done; lia.
Qed.
End swap.
