(* ===== verification/UvHeapOps.v ===== *)
(** * libuv heap: the walk, the insertion and the removal of a node

    For [src/minheap/heap-inl.h]: the digits of a number lead to its position,
    and what the operations do to the array of [tree], the sifting apart. *)

From S2P Require Import Prelude.
From S2P Require Import UvHeap.
From S2P Require Import UvHeapInv.
Import UvHeap.

(** ** The walk *)

(** The position reached from [p] by [k] digits of [path], the lowest first. *)
Fixpoint reach (k : nat) (path p : Z) : Z :=
  match k with
  | O => p
  | S k => reach k (Z.shiftr path 1) (2 * p + Z.land path 1)
  end.

Lemma land_1 z : Z.land z 1 = z mod 2.
Proof. exact (Z.land_ones z 1 ltac:(lia)). Qed.

Lemma digit z : Z.land z 1 = 0 \/ Z.land z 1 = 1.
Proof. rewrite land_1. halves. Qed.

Lemma push_digit path b : 0 <= path -> 0 <= b < 2 -> Z.lor (Z.shiftl path 1) b = 2 * path + b.
Proof.
  intros Hp Hb. rewrite Z.shiftl_mul_pow2 by lia. change (2 ^ 1) with 2.
  assert (Z.land (path * 2) b = 0) as H0.
  { apply Z.bits_inj'. intros n Hn. rewrite Z.land_spec, Z.bits_0. destruct (decide (n = 0)) as [->|].
    - by rewrite (Z.mul_comm path 2), Z.testbit_even_0.
    - rewrite (Z.bits_above_log2 b), andb_false_r; [done|lia|].
      assert (b = 0 \/ b = 1) as [-> | ->] by lia; simpl; lia. }
  pose proof (Z.add_lor_land (path * 2) b). lia.
Qed.

Lemma path_loop_reach fuel path k n :
  1 <= n < 2 ^ Z.of_nat fuel -> 0 <= k -> k + Z.of_nat fuel <= 32 -> 0 <= path < 2 ^ k ->
  let '(path', k') := path_loop fuel path k n in
  reach (Z.to_nat k') path' 1 = reach (Z.to_nat k) path n.
Proof.
  revert path k n. induction fuel as [|fuel IH]; intros path k n Hn Hk Hf Hp; [simpl in Hn; lia|].
  cbn [path_loop]. destruct (Z.ltb_spec n 2) as [H2|H2]; [by replace n with 1 by lia|].
  assert (0 <= path < 2 ^ 31) as Hp31.
  { split; [lia|]. apply (Z.lt_le_trans _ (2 ^ k)); [lia|]. apply Z.pow_le_mono_r; lia. }
  rewrite (wrap_small 32) by (rewrite Z.shiftl_mul_pow2 by lia; lia).
  rewrite (wrap_small 32) by lia.
  destruct (digit n) as [Hd|Hd]; rewrite push_digit by lia.
  all: specialize (IH (2 * path + Z.land n 1) (k + 1) (n / 2)).
  all: replace (2 ^ Z.of_nat (S fuel)) with (2 * 2 ^ Z.of_nat fuel) in Hn by (rewrite Nat2Z.inj_succ, Z.pow_succ_r; lia).
  all: replace (2 ^ (k + 1)) with (2 * 2 ^ k) in IH by (rewrite Z.pow_add_r; lia).
  all: specialize (IH ltac:(halves) ltac:(lia) ltac:(lia) ltac:(lia)).
  all: destruct (path_loop _ _ _ _) as [path' k']; rewrite IH, Z2Nat.inj_add, Nat.add_1_r by lia; cbn [reach].
  all: assert (Z.shiftr (2 * path + Z.land n 1) 1 = path) as -> by (rewrite Z.shiftr_div_pow2 by lia; change (2 ^ 1) with 2; rewrite Hd; halves).
  all: assert (Z.land (2 * path + Z.land n 1) 1 = Z.land n 1) as -> by (rewrite !land_1; halves).
  all: f_equal; rewrite land_1; halves.
Qed.

(** The digits of [n] lead from the root to position [n]. *)
Lemma path_leads n : 1 <= n < 2 ^ 32 ->
  let '(path, k) := path_loop 32 0 0 n in reach (Z.to_nat k) path 1 = n.
Proof. intros Hn. pose proof (path_loop_reach 32 0 0 n Hn) as H. by apply H. Qed.

Lemma reach_ge k path p : 1 <= p -> p <= reach k path p /\ (k <> O -> 2 * p <= reach k path p).
Proof.
  revert path p. induction k as [|k IH]; intros path p Hp; cbn [reach]; [lia|].
  destruct (digit path) as [Hd|Hd]; destruct (IH (Z.shiftr path 1) (2 * p + Z.land path 1)); lia.
Qed.

(** The place that holds the pointer to the node at position [i]. *)
Definition cell_of (l : list loc) (i : Z) : cell :=
  match at_pos l (i / 2) with
  | None => CMin
  | Some x => if decide (i = 2 * (i / 2)) then CLeft x else CRight x
  end.

Lemma load_cell_wp l N s i (Q : ptr -> hst -> Prop) :
  linked l (links l) N s -> min (hp s) = at_pos l 1 -> 1 <= i <= zlen l + 1 -> Q (at_pos l i) s -> wp (load (cell_of l i)) Q s.
Proof.
  intros L Hm Hi HQ. unfold cell_of. destruct (at_pos l (i / 2)) as [x|] eqn:Hx.
  - pose proof (lk_at _ _ _ _ L _ _ Hx) as Hn.
    destruct (decide (i = 2 * (i / 2))) as [He|He]; cbn [load];
      apply wp_bind, wp_bind, wp_gets; rewrite Hn; apply wp_ret, wp_ret; cbn [links left right]; [by rewrite <- He|].
    by replace (2 * (i / 2) + 1) with i by halves.
  - destruct (decide (i = 1)) as [->|Hi1].
    + cbn [load]. apply wp_gets. by rewrite Hm.
    + destruct (at_pos_in l (i / 2)) as [x Hx']; [halves|congruence].
Qed.

Lemma store_cell_wp l L f N s i y p (Q : unit -> hst -> Prop) :
  NoDup L -> linked L f N s -> at_pos l (i / 2) = Some y -> at_pos L (i / 2) = Some y ->
  (forall s', linked L (upd f (i / 2) (hang i (f (i / 2)) p)) N s' -> hp s' = hp s -> Q tt s') ->
  wp (store (cell_of l i) p) Q s.
Proof.
  intros HN K Hl HL HQ. unfold cell_of, hang in *. rewrite Hl.
  destruct (decide (i = 2 * (i / 2))); cbn [store]; [by eapply wp_left_at|by eapply wp_right_at].
Qed.

Lemma cell_step l p x b : at_pos l p = Some x -> b = 0 \/ b = 1 ->
  (if b =? 1 then CRight x else CLeft x) = cell_of l (2 * p + b).
Proof.
  intros Hx Hb. unfold cell_of. replace ((2 * p + b) / 2) with p by halves. rewrite Hx.
  destruct Hb as [-> | ->]; simpl; case_decide; done || lia.
Qed.

Lemma walk_wp l s k path p par (Q : cell * cell -> hst -> Prop) :
  tree l s -> 1 <= p -> reach k path p <= zlen l + 1 ->
  Q (if decide (k = O) then par else cell_of l (reach k path p / 2), cell_of l (reach k path p)) s ->
  wp (walk k path par (cell_of l p)) Q s.
Proof.
  intros T. revert path p par. induction k as [|k IH]; intros path p par Hp Hr HQ; cbn [walk reach] in *; [done|].
  destruct (reach_ge (S k) path p Hp) as [_ H2]. cbn [reach] in H2. specialize (H2 ltac:(done)).
  apply wp_bind. eapply load_cell_wp; [by apply tree_linked|apply T|lia|]. destruct (at_pos_in l p) as [x Hx]; [lia|].
  apply wp_bind. rewrite Hx. apply wp_ret. rewrite (cell_step l p x _ Hx (digit path)).
  apply IH; [destruct (digit path); lia|done|]. rewrite decide_False in HQ by done.
  case_decide as Hk; [subst|done]. cbn [reach] in *.
  by replace ((2 * p + Z.land path 1) / 2) with p in HQ by (destruct (digit path); halves).
Qed.

(** ** Insertion *)

Lemma at_snoc l x k : at_pos (l ++ [x]) k = if decide (k = zlen l + 1) then Some x else at_pos l k.
Proof.
  unfold at_pos, znth, zlen. destruct (Z.ltb_spec (k - 1) 0); [by rewrite decide_False by lia|].
  case_decide as Hk.
  - rewrite lookup_app_r by lia. by replace (Z.to_nat (k - 1) - length l)%nat with O by lia.
  - destruct (decide (Z.to_nat (k - 1) < length l)%nat); [by apply lookup_app_l|].
    rewrite !lookup_ge_None_2; [done|lia|rewrite length_app; simpl; lia].
Qed.

Lemma links_snoc l x : links (l ++ [x]) (zlen l + 1) = HNode None None (at_pos l ((zlen l + 1) / 2)).
Proof.
  pose proof (zlen_nonneg l). unfold links. rewrite !at_snoc. rewrite !decide_False by halves.
  by rewrite !at_pos_out by lia.
Qed.

(** The links of the other nodes change where the new one hangs. *)
Lemma links_snoc_ne l x k : 1 <= k <= zlen l ->
  links (l ++ [x]) k = if decide (k = (zlen l + 1) / 2) then hang (zlen l + 1) (links l k) (Some x) else links l k.
Proof.
  intros Hk. unfold links, hang, with_left, with_right. rewrite !at_snoc. cbn [left right parent].
  repeat case_decide; f_equal; try done; exfalso; halves.
Qed.

Lemma snoc_nodup (l : list loc) x : NoDup l -> x ∉ l -> NoDup (l ++ [x]).
Proof.
  intros HN Hx. apply NoDup_app. split_and!; [done| |apply NoDup_singleton]. by intros y Hy ->%list_elem_of_singleton.
Qed.

Lemma blank_wp l s x (Q : unit -> hst -> Prop) (K : M hst unit) :
  tree l s -> x ∉ l -> is_Some (nodes s !! x) ->
  (forall s', linked (l ++ [x]) (upd (links l) (zlen l + 1) (HNode None None None)) (nodes s) s' ->
     tree l s' -> wp K Q s') ->
  wp (set_left x None;; set_right x None;; set_parent x None;; K) Q s.
Proof.
  intros T Hx [n0 Hn0] HQ. pose proof (snoc_nodup l x (tr_nodup _ _ T) Hx) as HN. set (m := zlen l + 1) in *.
  assert (at_pos (l ++ [x]) m = Some x) as Hm by (rewrite at_snoc; by rewrite decide_True).
  assert (linked (l ++ [x]) (upd (links l) m n0) (nodes s) s) as L0.
  { constructor; [|done]. intros i y. rewrite at_snoc. fold m. unfold upd. case_decide; [by intros [= <-]|apply T]. }
  apply wp_bind. eapply wp_left_at; [done|exact L0|exact Hm|]. intros s1 L1 H1.
  apply wp_bind. eapply wp_right_at; [done|exact L1|exact Hm|]. intros s2 L2 H2.
  apply wp_bind. eapply wp_parent_at; [done|exact L2|exact Hm|]. intros s3 L3 H3. apply HQ.
  - eapply linked_ext; [exact L3|]. intros k Hk. destruct (decide (k = m)) as [->|]; by upds.
  - constructor; [rewrite H3, H2, H1; apply T|rewrite H3, H2, H1; apply T|apply T|].
    intros i y Hy. pose proof (at_pos_range _ _ _ Hy) as Ri. rewrite (lk_at _ _ _ _ L3 i y).
    + by upds.
    + rewrite at_snoc. by rewrite decide_False by lia.
Qed.

(** What the insertion does before sifting. *)
Lemma insert_links_wp l s x (Q : unit -> hst -> Prop) (K : M hst unit) :
  tree l s -> x ∉ l -> is_Some (nodes s !! x) -> zlen l + 1 < 2 ^ 32 ->
  (forall s', tree (l ++ [x]) s' -> (forall z, z ∉ l ++ [x] -> nodes s' !! z = nodes s !! z) -> wp K Q s') ->
  wp (set_left x None;;
      set_right x None;;
      set_parent x None;;
      n ← gets (fun s => nelts (hp s));
      let '(path, k) := path_loop 32 0 0 (u32 (1 + n)) in
      r ← walk (Z.to_nat k) path CMin CMin;
      p ← load r.1;
      set_parent x p;;
      store r.2 (Some x);;
      set_nelts (u32 (n + 1));;
      K) Q s.
Proof.
  intros T Hx Hn0 Hlen HQ. pose proof (zlen_nonneg l) as Hl0. pose proof (snoc_nodup l x (tr_nodup _ _ T) Hx) as HN.
  apply blank_wp with (l := l); [done..|]. intros s3 L3 T3. set (m := zlen l + 1) in *. set (f3 := upd _ m _) in L3.
  assert (forall k, at_pos (l ++ [x]) k = if decide (k = m) then Some x else at_pos l k) as Hat by apply at_snoc.
  assert (at_pos (l ++ [x]) m = Some x) as Hm by (rewrite Hat; by rewrite decide_True).
  assert (f3 m = HNode None None None) as Hfm by (unfold f3; by upds).
  assert (forall k, k <> m -> f3 k = links l k) as Hfk by (intros k' Hk'; unfold f3; by upds).
  apply wp_bind, wp_gets. rewrite (tr_nelts _ _ T3), wrap_small by lia. replace (1 + zlen l) with m by (unfold m; lia).
  pose proof (path_leads m ltac:(lia)) as Hr. destruct (path_loop 32 0 0 m) as [path k0]. set (k := Z.to_nat k0) in *.
  apply wp_bind. change CMin with (cell_of l 1) at 2. eapply walk_wp; [done|lia|lia|]. rewrite Hr. cbn [fst snd].
  assert (wp (load (if decide (k = 0%nat) then CMin else cell_of l (m / 2)))
    (fun p s' => s' = s3 /\ p = at_pos l (m / 2)) s3) as Hload.
  { destruct (decide (k = O)) as [Hk|Hk].
    - rewrite Hk in Hr. cbn [reach] in Hr. cbn [load]. apply wp_gets. split; [done|]. rewrite (tr_min _ _ T3), <- Hr.
      by rewrite !at_pos_out by lia.
    - destruct (reach_ge k path 1) as [_ H]; [lia|]. specialize (H Hk).
      eapply load_cell_wp; [by apply tree_linked|apply T3|halves|done]. }
  apply wp_bind. eapply wp_mono; [exact Hload|]. intros p s4 [-> ->].
  apply wp_bind. eapply wp_parent_at; [done|exact L3|exact Hm|]. intros s4 L4 H4. rewrite Hfm in L4.
  change (with_parent (HNode None None None) (at_pos l (m / 2))) with (HNode None None (at_pos l (m / 2))) in L4.
  unfold m in L4 at 2; rewrite <- (links_snoc l x) in L4. fold m in L4.
  assert (min (hp s4) = at_pos l 1) as Hm4 by (rewrite H4; apply T3).
  assert (forall s5 f, linked (l ++ [x]) f (nodes s) s5 -> (forall k, 1 <= k <= m -> f k = links (l ++ [x]) k) ->
    min (hp s5) = at_pos (l ++ [x]) 1 -> wp (set_nelts (u32 m);; K) Q s5) as Hend.
  { intros s5 f L5 Hf H5. apply wp_bind, wp_modify, HQ; [|apply L5]. constructor; simpl; [done| |done|].
    - rewrite wrap_small by lia. rewrite zlen_app. done.
    - intros i y Hy. pose proof (at_pos_range _ _ _ Hy) as Ry. rewrite zlen_app in Ry.
      rewrite <- Hf by (unfold zlen in Ry at 2; simpl in Ry; lia). by apply L5. }
  apply wp_bind. destruct (decide (m = 1)) as [H1m|H1m].
  - unfold cell_of. rewrite at_pos_out by (rewrite H1m; simpl; lia). cbn [store]. apply wp_modify.
    eapply Hend; [by apply linked_min| |]; simpl.
    + intros k' Hk'. replace k' with m by lia. by upds.
    + by rewrite Hat, decide_True.
  - set (h := m / 2) in *. assert (1 <= h < m) as Hh by (unfold h; halves).
    destruct (at_pos_in l h) as [y Hy]; [lia|].
    assert (at_pos (l ++ [x]) h = Some y) as Hy2 by (rewrite Hat; by rewrite decide_False by lia).
    eapply store_cell_wp; [exact HN|exact L4|exact Hy|exact Hy2|]. fold h. intros s5 L5 H5.
    eapply Hend; [exact L5| |rewrite H5, Hm4, Hat; by rewrite decide_False by lia].
    intros k' Hk'. destruct (decide (k' = m)) as [->|]; [by upds|]. rewrite (links_snoc_ne l x k') by lia. fold m h.
    destruct (decide (k' = h)) as [->|]; upds; by rewrite Hfk by lia.
Qed.

(** ** Removal *)

Section removal.
Context (l : list loc) (c : loc) (HN : NoDup (l ++ [c])).
Let m : Z := zlen l + 1.

Lemma at_last k : at_pos (l ++ [c]) k = if decide (k = m) then Some c else at_pos l k.
Proof. apply at_snoc. Qed.

(** The fields once the last node is unlinked. *)
Definition unlinked (k : Z) : heap_node := if decide (k = m) then links (l ++ [c]) m else links l k.

Lemma unlink_last_wp s k path (Q : unit -> hst -> Prop) (K : ptr -> M hst unit) :
  tree (l ++ [c]) s -> reach k path 1 = m -> m < 2 ^ 32 ->
  (forall s', linked (l ++ [c]) unlinked (nodes s) s' -> min (hp s') = at_pos l 1 -> nelts (hp s') = zlen l ->
     wp (K (Some c)) Q s') ->
  wp (r ← walk k path CMin CMin;
      set_nelts (u32 (m - 1));;
      child ← load r.2;
      store r.2 None;;
      K child) Q s.
Proof.
  intros T Hr Hlen HQ. pose proof (zlen_nonneg l) as Hl0. assert (zlen (l ++ [c]) = m) as Hzl by apply zlen_app.
  assert (at_pos (l ++ [c]) m = Some c) as Hm by (rewrite at_last; by rewrite decide_True).
  apply wp_bind. change CMin with (cell_of (l ++ [c]) 1) at 2. eapply walk_wp; [done|lia|lia|]. rewrite Hr. cbn [fst snd].
  apply wp_bind, wp_modify. rewrite wrap_small by lia. replace (m - 1) with (zlen l) by lia.
  set (s1 := St _ _). assert (linked (l ++ [c]) (links (l ++ [c])) (nodes s) s1) as L1.
  { destruct (tree_linked _ _ T) as [A1 A2]. by constructor. }
  assert (wp (load (cell_of (l ++ [c]) m)) (fun p s' => s' = s1 /\ p = Some c) s1) as Hload.
  { eapply load_cell_wp; [exact L1|apply T|lia|]. by rewrite Hm. }
  apply wp_bind. eapply wp_mono; [exact Hload|]. intros p s2 [-> ->]. apply wp_bind.
  assert (forall k, 1 <= k <= m -> k <> m / 2 -> links (l ++ [c]) k = unlinked k) as Hother.
  { intros k' A1 A2. unfold unlinked. case_decide; [by subst|]. rewrite links_snoc_ne by lia.
    fold m. by rewrite decide_False by lia. }
  destruct (decide (m = 1)) as [H1m|H1m].
  - unfold cell_of. rewrite at_pos_out by (rewrite H1m; change (1 / 2) with 0; lia).
    cbn [store]. apply wp_modify, HQ; simpl; [| |done].
    + eapply linked_ext; [destruct L1 as [A1 A2]; by constructor|]. intros k' Hk'. apply Hother; [lia|]. rewrite H1m. change (1 / 2) with 0. lia.
    + by rewrite at_pos_out by lia.
  - set (h := m / 2) in *. assert (1 <= h < m) as Hh by (unfold h; halves).
    destruct (at_pos_in l h) as [y Hy]; [lia|].
    assert (at_pos (l ++ [c]) h = Some y) as Hy2 by (rewrite at_last; by rewrite decide_False by lia).
    eapply store_cell_wp; [exact HN|exact L1|exact Hy2|exact Hy2|]. fold h. intros s5 L5 H5.
    apply HQ; [|rewrite H5; simpl; rewrite (tr_min _ _ T), at_last; by rewrite decide_False by lia|by rewrite H5].
    eapply linked_ext; [exact L5|]. intros k' Hk'. destruct (decide (k' = h)) as [->|]; [|upds; apply Hother; lia].
    upds. unfold unlinked. rewrite (links_snoc_ne l c h), (decide_False (P:=h = m)) by lia. fold m h. rewrite decide_True by done.
    unfold hang, with_left, with_right, links. pose proof (at_pos_out l m ltac:(lia)) as Hout. fold h.
    case_decide as He; cbn [left right parent]; [by rewrite <- He, Hout|].
    replace (2 * h + 1) with m by (unfold h; halves). by rewrite Hout.
Qed.

Lemma unlinked_tree N s : linked (l ++ [c]) unlinked N s -> min (hp s) = at_pos l 1 -> nelts (hp s) = zlen l -> tree l s.
Proof.
  intros L H1 H2. constructor; [done|done|by apply NoDup_app in HN as [? _]|].
  intros i x Hx. pose proof (at_pos_range _ _ _ Hx).
  replace (links l i) with (unlinked i) by (unfold unlinked; by rewrite decide_False by lia).
  apply L. rewrite at_last. by rewrite decide_False by lia.
Qed.

(** The node at position [i] replaced with the one unlinked. *)
Definition replaced (i : Z) : list loc := zset l (i - 1) c.

Lemma at_replaced i k : 1 <= i <= zlen l -> at_pos (replaced i) k = if decide (k = i) then Some c else at_pos l k.
Proof.
  intros Hi. unfold replaced, at_pos. case_decide as Hk; [subst; by rewrite znth_zset_eq by lia|].
  by rewrite znth_zset_ne by lia.
Qed.

Lemma replaced_nodup i : 1 <= i <= zlen l -> NoDup (replaced i).
Proof.
  intros Hi. apply NoDup_app in HN as (HNl & Hc & _).
  assert (forall k, at_pos l k <> Some c) as Hk.
  { intros k Hk. apply (Hc c); [apply at_pos_elem; eauto|by apply list_elem_of_singleton]. }
  apply NoDup_at. intros a b x. rewrite !at_replaced by done. repeat case_decide; subst; try done.
  - intros [= <-] Hb. by destruct (Hk b).
  - intros Ha [= <-]. by destruct (Hk a).
  - by apply at_pos_inj.
Qed.

(** A position of [l], or none. *)
Lemma pos_in_l k : exists t, at_pos (l ++ [c]) t = at_pos l k /\ t <> m /\ (t = k \/ t = 0 /\ at_pos l k = None).
Proof.
  destruct (decide (k = m)) as [->|Hk].
  - exists 0. pose proof (zlen_nonneg l). rewrite !at_pos_out; [split_and!; [done|lia|by right]|lia|rewrite zlen_app; unfold zlen at 2; simpl; lia].
  - exists k. rewrite at_last. rewrite decide_False by done. split_and!; [done..|by left].
Qed.

Lemma replaced_tree N s i f :
  1 <= i <= zlen l -> linked (l ++ [c]) f N s -> f m = links l i ->
  (forall k, 1 <= k <= zlen l -> k <> i -> f k = links (replaced i) k) ->
  min (hp s) = at_pos (replaced i) 1 -> nelts (hp s) = zlen l -> tree (replaced i) s.
Proof.
  intros Hi L Hm Hk H1 H2. constructor; [done|unfold replaced; by rewrite zlen_zset|by apply replaced_nodup|].
  intros k x Hx. pose proof (at_pos_range _ _ _ Hx) as Rk. unfold replaced in Rk. rewrite zlen_zset in Rk.
  rewrite at_replaced in Hx by done. destruct (decide (k = i)) as [->|Hki].
  - injection Hx as <-. replace (links (replaced i) i) with (f m).
    + apply L. rewrite at_last. by rewrite decide_True.
    + rewrite Hm. unfold links. rewrite !at_replaced by done. by rewrite !decide_False by halves.
  - rewrite <- Hk by done. apply L. rewrite at_last. by rewrite decide_False by lia.
Qed.

(** The fields once the node at position [i] has given its links to [c]. *)
Definition adopted (i k : Z) : heap_node :=
  if decide (k = m) then links l i else if decide (k / 2 = i) then with_parent (links l k) (Some c) else links l k.

Lemma adopt_wp N s i node (Q : unit -> hst -> Prop) (K : M hst unit) :
  linked (l ++ [c]) unlinked N s -> at_pos l i = Some node ->
  (forall s' f, linked (l ++ [c]) f N s' -> f m = links l i ->
     (forall k, 1 <= k <= zlen l -> f k = adopted i k) -> hp s' = hp s -> wp K Q s') ->
  wp (set_left c (at_pos l (2 * i));;
      set_right c (at_pos l (2 * i + 1));;
      set_parent c (at_pos l (i / 2));;
      set_parent_of (at_pos l (2 * i)) c;;
      set_parent_of (at_pos l (2 * i + 1)) c;;
      K) Q s.
Proof.
  intros L0 Hi HQ. pose proof (at_pos_range _ _ _ Hi) as Ri. pose proof (zlen_nonneg l) as Hl0.
  assert (at_pos (l ++ [c]) m = Some c) as Hm by (rewrite at_last; by rewrite decide_True).
  assert (forall k, k <> m -> unlinked k = links l k) as Hu by (intros k Hk; unfold unlinked; by rewrite decide_False).
  apply wp_bind. eapply wp_left_at; [exact HN|exact L0|exact Hm|]. intros s1 L1 H1.
  apply wp_bind. eapply wp_right_at; [exact HN|exact L1|exact Hm|]. intros s2 L2 H2.
  apply wp_bind. eapply wp_parent_at; [exact HN|exact L2|exact Hm|]. intros s3 L3 H3.
  destruct (pos_in_l (2 * i)) as (t1 & A1 & A2 & A3), (pos_in_l (2 * i + 1)) as (t2 & B1 & B2 & B3).
  apply wp_bind. eapply wp_parent_of_at; [exact HN|exact L3|exact A1|]. intros s4 L4 H4.
  apply wp_bind. eapply wp_parent_of_at; [exact HN|exact L4|exact B1|]. intros s5 L5 H5.
  eapply HQ; [exact L5|by upds| |congruence]. intros k Hk.
  assert (t1 <> t2 \/ t1 = 0) as Ht by lia. unfold adopted. rewrite decide_False by lia.
  assert (k / 2 = i <-> k = t1 \/ k = t2) as Hkt.
  { rewrite <- child_half. unfold child_of. split; [|lia]. intros Hk2. destruct (at_pos_in l k) as [w Hw]; [done|].
    destruct Hk2 as [-> | ->]; [left; destruct A3 as [|[_ A3]]|right; destruct B3 as [|[_ B3]]]; congruence. }
  destruct (decide (k / 2 = i)) as [Hd|Hd].
  - apply Hkt in Hd as [-> | ->]; upds; rewrite Hu by lia; done.
  - assert (k <> t1 /\ k <> t2) as [F1 F2] by tauto. upds. apply Hu. lia.
Qed.

(** Away from its parent these are the fields of the new tree. *)
Lemma adopted_replaced i k : 1 <= i <= zlen l -> 1 <= k <= zlen l -> k <> i -> k <> i / 2 ->
  adopted i k = links (replaced i) k.
Proof.
  intros Hi Hk Hki Hkh. unfold adopted, links, with_parent. rewrite !at_replaced by done. cbn [left right].
  rewrite (decide_False (P:=k = m)), (decide_False (P:=2 * k = i)), (decide_False (P:=2 * k + 1 = i)) by halves.
  by case_decide.
Qed.

Lemma replace_wp N s i node (Q : unit -> hst -> Prop) (K : M hst unit) :
  linked (l ++ [c]) unlinked N s -> min (hp s) = at_pos l 1 -> nelts (hp s) = zlen l -> at_pos l i = Some node ->
  (forall s', tree (replaced i) s' -> (forall z, z ∉ l ++ [c] -> nodes s' !! z = N !! z) ->
     is_Some (nodes s' !! node) -> wp K Q s') ->
  wp (nd ← node_get node;
      set_left c (left nd);;
      set_right c (right nd);;
      set_parent c (parent nd);;
      set_parent_of (left nd) c;;
      set_parent_of (right nd) c;;
      nd ← node_get node;
      match parent nd with
      | None => set_min (Some c)
      | Some gp =>
          g ← node_get gp;
          if bool_decide (left g = Some node) then set_left gp (Some c) else set_right gp (Some c)
      end;;
      K) Q s.
Proof.
  intros L0 Hmin Hnel Hi HQ. pose proof (at_pos_range _ _ _ Hi) as Ri.
  assert (NoDup l) as HNl by (by apply NoDup_app in HN as [? _]).
  assert (at_pos (l ++ [c]) i = Some node) as Hi2 by (rewrite at_last; by rewrite decide_False by lia).
  apply wp_bind. eapply wp_get_at; [exact L0|exact Hi2|]. unfold unlinked at 1 2 3 4 5. rewrite decide_False by lia.
  apply adopt_wp with (N := N) (node := node); [done..|]. intros s1 f L1 Hfm Hf H1.
  assert (i / 2 <> i /\ i <> m) as [Hii Him] by halves.
  apply wp_bind. eapply wp_get_at; [exact L1|exact Hi2|].
  rewrite Hf by done. unfold adopted at 1. rewrite !decide_False by done. apply wp_bind.
  eapply relink_wp; [exact HNl|exact HN|exact L1|exact Hi|rewrite at_last; by rewrite decide_False by halves| |].
  { intros Hi1. rewrite Hf by halves. unfold adopted. by rewrite !decide_False by halves. }
  intros s2 L2 Hm2 Hn2. apply HQ; [|by apply L2|eexists; by apply (lk_at _ _ _ _ L2 i)].
  eapply replaced_tree; [done|exact L2| | | |by rewrite Hn2, H1].
  - case_decide; [done|]. unfold upd. by rewrite decide_False by halves.
  - intros k Hk Hki. destruct (decide (i = 1)) as [Hi1|Hi1].
    { rewrite Hf by done. apply adopted_replaced; [done..|]. rewrite Hi1. change (1 / 2) with 0. lia. }
    unfold upd. case_decide as Hkh; [|by rewrite Hf, adopted_replaced by done]. subst k.
    unfold hang, with_left, with_right, links. rewrite !at_replaced by done. cbn [left right parent].
    repeat case_decide; f_equal; try done; try lia; try (by f_equal; lia); exfalso; halves.
  - rewrite Hm2, H1, Hmin, at_replaced by done. repeat case_decide; done || lia.
Qed.
End removal.
