(* ===== verification/UvHeapSpec.v ===== *)
(** * libuv heap: order and refinement to a priority queue

    The order along the tree of [src/minheap/heap-inl.h], how sifting restores
    it, what the insertion and the removal of a node leave, and the contract: a
    step relation on the set of nodes in the heap that every sequence of calls
    keeps to. *)

From S2P Require Import Prelude.
From S2P Require Import UvHeap.
From S2P Require Import UvHeapInv.
From S2P Require Import UvHeapOps.
Import UvHeap.

(** ** Order *)

(** What the caller's comparison must be: a strict weak order. *)
Record strict_weak (less : loc -> loc -> bool) : Prop := {
  sw_asym : forall x y, less x y = true -> less y x = false;
  sw_cotrans : forall x y z, less x z = true -> less x y = true \/ less y z = true
}.

Section order.
Context (less : loc -> loc -> bool) (Hless : strict_weak less).

(** [x] is not greater than [y]. *)
Definition le (x y : loc) : Prop := less y x = false.

Lemma le_refl x : le x x.
Proof. unfold le. destruct (less x x) eqn:E; [|done]. by rewrite (sw_asym _ Hless _ _ E) in E. Qed.

Lemma le_trans x y z : le x y -> le y z -> le x z.
Proof.
  unfold le. intros H1 H2. destruct (less z x) eqn:E; [|done].
  destruct (sw_cotrans _ Hless z y x E); congruence.
Qed.

Lemma less_le x y : less x y = true -> le x y.
Proof. apply Hless. Qed.

(** Between positions; out of range there is nothing to compare. *)
Definition le_at (l : list loc) (i j : Z) : Prop :=
  forall x y, at_pos l i = Some x -> at_pos l j = Some y -> le x y.

Definition ordered (l : list loc) : Prop := forall k, 2 <= k -> le_at l (k / 2) k.

(** Ordered but for the edges at [j], or for the edge above [j] only. *)
Definition over (l : list loc) (j : Z) : Prop := forall k, k / 2 = j -> 2 <= j -> le_at l (j / 2) k.
Definition bent (l : list loc) (j : Z) : Prop :=
  (forall k, 2 <= k -> k <> j -> k / 2 <> j -> le_at l (k / 2) k) /\ over l j.
Definition upbent (l : list loc) (j : Z) : Prop :=
  (forall k, 2 <= k -> k <> j -> le_at l (k / 2) k) /\ over l j.

Lemma le_at_trans l i j k : 1 <= j <= zlen l -> le_at l i j -> le_at l j k -> le_at l i k.
Proof.
  intros Hj H1 H2 x z Hx Hz. destruct (at_pos_in l j Hj) as [y Hy].
  eapply le_trans; [by apply H1|by apply H2].
Qed.

Lemma upbent_ordered l j : upbent l j -> 2 <= j -> le_at l (j / 2) j -> ordered l.
Proof. intros [H _] Hj Hle k Hk. destruct (decide (k = j)) as [->|]; [done|by apply H]. Qed.

Lemma upbent_root l : upbent l 1 -> ordered l.
Proof. intros [H _] k Hk. apply H; lia. Qed.

Lemma bent_upbent l j : bent l j -> (forall k, k / 2 = j -> le_at l j k) -> upbent l j.
Proof.
  intros [H1 H2] Hk. split; [|done]. intros k Hk2 Hkj.
  destruct (decide (k / 2 = j)) as [E|]; [|by apply H1]. rewrite E. by apply Hk.
Qed.

(** The order at the positions of an exchanged array. *)
Section exchanged.
Context (l : list loc) (p j : Z) (x y : loc).
Hypothesis Hc : child_of p j.
Hypothesis Hx : at_pos l p = Some x.
Hypothesis Hy : at_pos l j = Some y.
Let l' : list loc := exchange l p j.

Lemma le_at_same a b : a <> p -> a <> j -> b <> p -> b <> j -> le_at l a b -> le_at l' a b.
Proof.
  intros H1 H2 H3 H4 H u v. unfold l'. rewrite !(at_swapped l p j x y) by done.
  rewrite !decide_False by done. apply H.
Qed.

Lemma le_at_to a b q : b = p /\ q = j \/ b = j /\ q = p -> a <> p -> a <> j -> le_at l a q -> le_at l' a b.
Proof.
  intros Hb H1 H2 H u v. unfold l'. rewrite !(at_swapped l p j x y) by done.
  rewrite (decide_False (P:=a = j)), (decide_False (P:=a = p)) by done. intros Hu Hv. apply H; [done|].
  destruct Hb as [[-> ->]|[-> ->]]; repeat case_decide; congruence.
Qed.

Lemma le_at_from a b q : a = p /\ q = j \/ a = j /\ q = p -> b <> p -> b <> j -> le_at l q b -> le_at l' a b.
Proof.
  intros Hb H1 H2 H u v. unfold l'. rewrite !(at_swapped l p j x y) by done.
  rewrite (decide_False (P:=b = j)), (decide_False (P:=b = p)) by done. intros Hu Hv. apply H; [|done].
  destruct Hb as [[-> ->]|[-> ->]]; repeat case_decide; congruence.
Qed.

Lemma le_at_swapped : le y x -> le_at l' p j.
Proof.
  intros H u v. unfold l'. rewrite !(at_swapped l p j x y) by done. unfold child_of in Hc.
  pose proof (at_pos_range _ _ _ Hx).
  rewrite (decide_False (P:=p = j)), (decide_True (P:=p = p)), (decide_True (P:=j = j)) by lia. by intros [= <-] [= <-].
Qed.

(** One step up. *)
Lemma up_step : upbent l j -> less y x = true -> upbent l' p.
Proof.
  intros [H1 H2] Hlt. pose proof (at_pos_range _ _ _ Hx) as Rp. pose proof (at_pos_range _ _ _ Hy) as Rj.
  apply less_le in Hlt. pose proof Hc as Hpj. rewrite child_half in Hpj.
  assert (forall k, k / 2 = p -> 2 <= k -> k <> j -> le_at l j k) as Hsib.
  { intros k Hk Hk2 Hkj. apply (le_at_trans _ _ p); [done| |rewrite <- Hk; by apply H1].
    intros u v Hu Hv. by simplify_eq. }
  split.
  - intros k Hk Hkp. destruct (decide (k = j)) as [->|Hkj]; [rewrite Hpj; by apply le_at_swapped|].
    destruct (decide (k / 2 = p)) as [E|E].
    { rewrite E. apply (le_at_from p k j); [by left|done..|]. by apply Hsib. }
    destruct (decide (k / 2 = j)) as [E2|E2].
    { rewrite E2. apply (le_at_from j k p); [by right|done..|]. rewrite <- Hpj. apply H2; [done|]. unfold child_of in Hc. lia. }
    apply le_at_same; try done. by apply H1.
  - intros k Hk Hp2. assert (2 <= k) as Hk2 by halves. assert (p / 2 <> p /\ p / 2 <> j /\ k <> p /\ p <> j) as (N1 & N2 & N3 & N4).
    { unfold child_of in Hc. repeat split; halves. }
    assert (le_at l (p / 2) p) as Hpp by (apply H1; [lia|done]).
    destruct (decide (k = j)) as [->|Hkj]; [apply (le_at_to (p / 2) j p); [by right|done..]|].
    apply le_at_same; try done. apply (le_at_trans _ _ p); [done|done|]. rewrite <- Hk. by apply H1.
Qed.

(** One step down, to a child that is not greater than the others. *)
Lemma down_step : bent l p -> less y x = true -> (forall k, k / 2 = p -> le_at l j k) -> bent l' j.
Proof.
  intros [H1 H2] Hlt Hsib. pose proof (at_pos_range _ _ _ Hx) as Rp. pose proof (at_pos_range _ _ _ Hy) as Rj.
  pose proof Hc as Hpj. rewrite child_half in Hpj.
  assert (2 <= j /\ p < j) as [Hj2 Hpj2] by (unfold child_of in Hc; lia). split.
  - intros k Hk Hkj Hkj2. destruct (decide (k = p)) as [->|Hkp].
    { apply (le_at_to (p / 2) p j); [by left|halves|halves|]. by apply H2. }
    destruct (decide (k / 2 = p)) as [E|E].
    { rewrite E. apply (le_at_from p k j); [by left|done..|]. by apply Hsib. }
    apply le_at_same; try done. by apply H1.
  - intros k Hk _. rewrite Hpj. assert (2 <= k /\ k <> p /\ k <> j) as (N1 & N2 & N3) by (repeat split; halves).
    apply (le_at_from p k j); [by left|done..|]. rewrite <- Hk. apply H1; [done|done|]. rewrite Hk. lia.
Qed.
End exchanged.

(** ** Sifting *)

(** The same nodes in another order. *)
Record resifted (l : list loc) (s : hst) (l' : list loc) (s' : hst) : Prop := {
  rs_tree : tree l' s';
  rs_elem : forall z, z ∈ l' <-> z ∈ l;
  rs_len : zlen l' = zlen l;
  rs_out : forall z, z ∉ l -> nodes s' !! z = nodes s !! z
}.

Lemma resifted_refl l s : tree l s -> resifted l s l s.
Proof. intros T. by constructor. Qed.

Lemma resifted_trans l s l1 s1 l2 s2 : resifted l s l1 s1 -> resifted l1 s1 l2 s2 -> resifted l s l2 s2.
Proof.
  intros [A1 A2 A3 A4] [B1 B2 B3 B4]. constructor; [done|intros z; by rewrite B2|congruence|].
  intros z Hz. rewrite B4; [by apply A4|]. by rewrite A2.
Qed.

Lemma swap_resifted l s p j x y (Q : unit -> hst -> Prop) :
  tree l s -> child_of p j -> at_pos l p = Some x -> at_pos l j = Some y ->
  (forall s', resifted l s (exchange l p j) s' -> at_pos (exchange l p j) p = Some y ->
     at_pos (exchange l p j) j = Some x -> Q tt s') ->
  wp (heap_node_swap x y) Q s.
Proof.
  intros T Hc Hx Hy HQ. pose proof (at_pos_range _ _ _ Hx). pose proof (at_pos_range _ _ _ Hy).
  eapply heap_node_swap_wp; [apply T|exact Hc|exact Hx|exact Hy|exact T|]. intros s' T' Hout.
  apply HQ; [constructor; [done|intros z; by apply exchange_elem|apply zlen_exchange|done]|..];
    rewrite (at_swapped l p j x y) by done; unfold child_of in Hc; repeat case_decide; done || lia.
Qed.

Lemma sift_up_wp fuel l s j x (Q : unit -> hst -> Prop) :
  tree l s -> at_pos l j = Some x -> upbent l j -> (Z.to_nat j <= fuel)%nat ->
  (forall l' s', resifted l s l' s' -> ordered l' -> Q tt s') -> wp (sift_up less fuel x) Q s.
Proof.
  revert l s j Q. induction fuel as [|fuel IH]; intros l s j Q T Hx Hb Hf HQ;
    pose proof (at_pos_range _ _ _ Hx) as Rj; [lia|].
  cbn [sift_up]. apply wp_bind. eapply wp_get_at; [by apply tree_linked|exact Hx|]. cbn [links parent].
  destruct (at_pos l (j / 2)) as [y|] eqn:Hy.
  2: { apply wp_ret, (HQ l s); [by apply resifted_refl|]. destruct (decide (j = 1)) as [->|]; [by apply upbent_root|].
       destruct (at_pos_in l (j / 2)) as [y Hy']; [halves|congruence]. }
  pose proof (at_pos_range _ _ _ Hy) as Rp. assert (child_of (j / 2) j) as Hc by by apply child_half.
  destruct (less x y) eqn:Hlt.
  - apply wp_bind. eapply swap_resifted; [done|exact Hc|exact Hy|exact Hx|]. intros s1 R1 Hp _.
    eapply IH; [apply R1|exact Hp|by eapply up_step|unfold child_of in Hc; lia|].
    intros l2 s2 R2 Ho. apply (HQ l2); [|done]. by eapply resifted_trans.
  - apply wp_ret, (HQ l s); [by apply resifted_refl|]. eapply upbent_ordered; [done|unfold child_of in Hc; lia|].
    intros u v Hu Hv. by simplify_eq.
Qed.

(** The node [sift_down] swaps with: a child less than [x] and not greater than
    its sibling, or none when neither child is less. *)
Lemma smaller_child l j x : at_pos l j = Some x ->
  let smallest := smaller less (at_pos l (2 * j + 1)) (smaller less (at_pos l (2 * j)) x) in
  smallest = x /\ (forall k, k / 2 = j -> le_at l j k) \/
  exists c, child_of j c /\ at_pos l c = Some smallest /\ less smallest x = true /\
    (forall k, k / 2 = j -> le_at l c k).
Proof.
  intros Hx. cbv zeta.
  assert (forall c, (forall u v, at_pos l c = Some u -> at_pos l (2 * j) = Some v -> le u v) ->
    (forall u v, at_pos l c = Some u -> at_pos l (2 * j + 1) = Some v -> le u v) ->
    forall k, k / 2 = j -> le_at l c k) as Hboth.
  { intros c H1 H2 k [-> | ->]%child_half; intros u v Hu Hv; eauto. }
  assert (child_of j (2 * j) /\ child_of j (2 * j + 1)) as [C1 C2] by (unfold child_of; lia).
  assert (forall c u, at_pos l c = Some u -> (forall a, at_pos l (2 * j) = Some a -> le u a) ->
    (forall b, at_pos l (2 * j + 1) = Some b -> le u b) -> forall k, k / 2 = j -> le_at l c k) as Hmin.
  { intros c u Hu H1 H2. apply Hboth; intros u' v Hu' Hv; simplify_eq; eauto. }
  unfold smaller. set (first := match at_pos l (2 * j) with Some a => if less a x then a else x | None => x end).
  assert (forall a, at_pos l (2 * j) = Some a -> le first a) as Hfa.
  { intros a Ha. unfold first. rewrite Ha. destruct (less a x) eqn:E; [apply le_refl|done]. }
  assert (first = x \/ at_pos l (2 * j) = Some first /\ less first x = true) as Hf.
  { unfold first. destruct (at_pos l (2 * j)) as [a|]; [|by left]. destruct (less a x) eqn:E; auto. }
  assert ((forall b, at_pos l (2 * j + 1) = Some b -> le first b) ->
    first = x /\ (forall k, k / 2 = j -> le_at l j k) \/
    exists c, child_of j c /\ at_pos l c = Some first /\ less first x = true /\ (forall k, k / 2 = j -> le_at l c k)) as Hfirst.
  { intros Hb. destruct Hf as [E|[E1 E2]]; [left; split; [done|apply (Hmin j x); rewrite <- ?E; try done; congruence]|].
    right. exists (2 * j). split_and!; try done. by apply (Hmin _ first). }
  clearbody first. destruct (at_pos l (2 * j + 1)) as [b|] eqn:Hb; [|by apply Hfirst].
  destruct (less b first) eqn:Hlt; [|apply Hfirst; by intros b' [= <-]].
  right. exists (2 * j + 1). split_and!; [done|done| |].
  - destruct Hf as [->|[_ E2]]; [done|]. destruct (sw_cotrans _ Hless b x first Hlt) as [|H]; [done|].
    by rewrite (sw_asym _ Hless _ _ E2) in H.
  - apply (Hmin _ b); [done| |intros b' [= <-]; apply le_refl]. intros a Ha.
    apply (le_trans _ first); [by apply less_le|by apply Hfa].
Qed.

Lemma sift_down_wp fuel l s j x (Q : unit -> hst -> Prop) :
  tree l s -> at_pos l j = Some x -> bent l j -> (Z.to_nat (zlen l - j) < fuel)%nat ->
  (forall l' s' j', resifted l s l' s' -> at_pos l' j' = Some x -> upbent l' j' -> Q tt s') ->
  wp (sift_down less fuel x) Q s.
Proof.
  revert l s j Q. induction fuel as [|fuel IH]; intros l s j Q T Hx Hb Hf HQ; [lia|].
  cbn [sift_down]. apply wp_bind. eapply wp_get_at; [by apply tree_linked|exact Hx|]. cbn [links left right].
  pose proof (at_pos_range _ _ _ Hx) as Rj.
  destruct (smaller_child l j x Hx) as [[-> Hk]|(c & Hc & Hy & Hlt & Hk)].
  - rewrite bool_decide_true by done. apply wp_ret, (HQ l s j); [by apply resifted_refl|done|by apply bent_upbent].
  - set (y := smaller less (at_pos l (2 * j + 1)) (smaller less (at_pos l (2 * j)) x)) in *.
    rewrite bool_decide_false by (intros E; rewrite E in Hlt; pose proof (le_refl x) as H; unfold le in H; congruence).
    apply wp_bind. eapply swap_resifted; [done|exact Hc|exact Hx|exact Hy|]. intros s1 R1 _ Hxc.
    pose proof (at_pos_range _ _ _ Hy) as Rc.
    eapply IH; [apply R1|exact Hxc|by eapply down_step|rewrite zlen_exchange; unfold child_of in Hc; lia|].
    intros l2 s2 j2 R2 H2 Hu. apply (HQ l2 s2 j2); [|done..]. by eapply resifted_trans.
Qed.

(** ** The operations *)

(** The nodes of the heap are those of [X]. *)
Definition heaped (X : gset loc) (s : hst) : Prop :=
  exists l, tree l s /\ ordered l /\ forall z, z ∈ X <-> z ∈ l.

(** A call: the heap has the nodes of [X], and no node has gone. *)
Record becomes (X : gset loc) (s s' : hst) : Prop := {
  bc_heap : heaped X s';
  bc_nodes : forall z, is_Some (nodes s !! z) -> is_Some (nodes s' !! z)
}.

Lemma heaped_size (X : gset loc) s l : (forall z, z ∈ X <-> z ∈ l) -> tree l s -> zlen l = Z.of_nat (size X).
Proof.
  intros H T. replace X with (list_to_set l : gset loc) by (apply set_eq; intros z; by rewrite elem_of_list_to_set, H).
  rewrite size_list_to_set by apply T. done.
Qed.

Lemma tree_nodes l s (N : gmap loc heap_node) : tree l s -> (forall z, z ∉ l -> nodes s !! z = N !! z) ->
  forall z, is_Some (N !! z) -> is_Some (nodes s !! z).
Proof.
  intros T H z Hz. destruct (decide (z ∈ l)) as [Hin|Hin]; [|by rewrite H].
  apply at_pos_elem in Hin as [i Hi]. rewrite (tr_links _ _ T _ _ Hi). eauto.
Qed.

Lemma resifted_nodes l s l' s' : resifted l s l' s' -> forall z, is_Some (nodes s !! z) -> is_Some (nodes s' !! z).
Proof. intros [R1 R2 R3 R4]. apply (tree_nodes l'); [done|]. intros z Hz. apply R4. by rewrite <- R2. Qed.

Lemma node_insert_wp (X : gset loc) s x (Q : unit -> hst -> Prop) :
  heaped X s -> x ∉ X -> is_Some (nodes s !! x) -> Z.of_nat (size X) + 1 < 2 ^ 32 ->
  (forall s', becomes ({[x]} ∪ X) s s' -> Q tt s') -> wp (heap_insert less x) Q s.
Proof.
  intros (l & T & Ho & HX) Hx Hn Hsz HQ. rewrite <- (heaped_size X s l) in Hsz by done. rewrite HX in Hx.
  unfold heap_insert. eapply insert_links_wp; [done..|]. intros s1 T1 Hout. apply wp_bind, wp_gets.
  assert (at_pos (l ++ [x]) (zlen l + 1) = Some x) as Hlast by (rewrite at_snoc; by rewrite decide_True).
  eapply sift_up_wp; [exact T1|exact Hlast| |rewrite (tr_nelts _ _ T1), zlen_app; unfold zlen; simpl; lia|].
  - split.
    + intros k Hk Hkj u v. rewrite !at_snoc, (decide_False (P:=k = _)) by done. case_decide; [|by apply Ho].
      intros _ Hv. apply at_pos_range in Hv. halves.
    + intros k Hk Hj u v _. rewrite at_snoc. rewrite decide_False by halves. intros Hv. apply at_pos_range in Hv. halves.
  - intros l2 s2 R2 Ho2. pose proof (rs_elem _ _ _ _ R2) as He. apply HQ. constructor.
    + exists l2. split_and!; [apply R2|done|]. intros z. rewrite He, elem_of_union, elem_of_singleton, HX, elem_of_app, list_elem_of_singleton. tauto.
    + intros z Hz. eapply resifted_nodes; [done|]. by eapply tree_nodes.
Qed.

(** Taking the last node away keeps the order. *)
Lemma ordered_init l c : ordered (l ++ [c]) -> ordered l.
Proof.
  intros Ho k Hk u v Hu Hv. apply (Ho k Hk); rewrite at_snoc; rewrite decide_False; try done.
  - apply at_pos_range in Hu. lia.
  - apply at_pos_range in Hv. lia.
Qed.

Lemma replaced_bent l c i : 1 <= i <= zlen l -> ordered l -> bent (replaced l c i) i.
Proof.
  intros Hi Ho. split.
  - intros k Hk Hki Hk2 u v. rewrite !at_replaced, !decide_False by done. by apply Ho.
  - intros k Hk Hi2 u v. rewrite !at_replaced, !decide_False by halves.
    apply (le_at_trans _ _ i); [done|by apply Ho|]. rewrite <- Hk. apply Ho. halves.
Qed.

Lemma at_last_of (l : list loc) : l <> [] -> exists l0 c, l = l0 ++ [c].
Proof. intros H. destruct (exists_last H) as (l0 & c & ->). eauto. Qed.

Lemma replaced_elem l c i node z : NoDup (l ++ [c]) -> at_pos l i = Some node ->
  z ∈ replaced l c i <-> z ∈ l ++ [c] /\ z <> node.
Proof.
  intros HN Hi. pose proof (at_pos_range _ _ _ Hi) as Ri. apply NoDup_app in HN as (HNl & Hc & _).
  assert (c ∉ l) as Hcl by (intros H; apply (Hc c H); by apply list_elem_of_singleton).
  rewrite elem_of_app, list_elem_of_singleton, !at_pos_elem. split.
  - intros [k Hk]. rewrite at_replaced in Hk by done. case_decide.
    + injection Hk as <-. split; [by right|]. intros ->. apply Hcl, at_pos_elem. eauto.
    + split; [left; eauto|]. intros ->. by pose proof (at_pos_inj _ _ _ _ HNl Hk Hi).
  - intros [[[k Hk] | ->] Hz].
    + exists k. rewrite at_replaced by done. rewrite decide_False; [done|]. intros ->. congruence.
    + exists i. rewrite at_replaced by done. by rewrite decide_True.
Qed.

Lemma node_remove_wp (X : gset loc) s node (Q : unit -> hst -> Prop) :
  heaped X s -> node ∈ X -> Z.of_nat (size X) < 2 ^ 32 ->
  (forall s', becomes (X ∖ {[node]}) s s' -> Q tt s') -> wp (heap_remove less (Some node)) Q s.
Proof.
  intros (l & T & Ho & HX) Hin Hsz HQ. rewrite <- (heaped_size X s l) in Hsz by done. apply HX in Hin.
  destruct (at_last_of l) as (l0 & c & ->); [by intros ->; apply not_elem_of_nil in Hin|].
  pose proof (tr_nodup _ _ T) as HN. pose proof (zlen_nonneg l0) as Hl0.
  assert (zlen (l0 ++ [c]) = zlen l0 + 1) as Hzl by apply zlen_app.
  assert (at_pos (l0 ++ [c]) (zlen l0 + 1) = Some c) as Hc by (rewrite at_snoc; by rewrite decide_True).
  unfold heap_remove. apply wp_bind, wp_gets. rewrite (tr_nelts _ _ T), Hzl.
  destruct (Z.eqb_spec (zlen l0 + 1) 0) as [|_]; [lia|].
  pose proof (path_leads (zlen l0 + 1) ltac:(lia)) as Hr. destruct (path_loop 32 0 0 (zlen l0 + 1)) as [path k].
  eapply (unlink_last_wp l0 c HN); [exact T|exact Hr|lia|]. intros s1 L1 Hm1 Hn1. cbv beta.
  pose proof (unlinked_tree l0 c HN _ _ L1 Hm1 Hn1) as T1.
  assert (forall z, is_Some (nodes s !! z) -> is_Some (nodes s1 !! z)) as Hkeep1.
  { intros z Hz. destruct (decide (z ∈ l0 ++ [c])) as [Hzl'|Hzl']; [|by rewrite (lk_out _ _ _ _ L1)].
    apply at_pos_elem in Hzl' as [i Hi]. rewrite (lk_at _ _ _ _ L1 _ _ Hi). eauto. }
  assert (c ∉ l0) as Hcl.
  { apply NoDup_app in HN as (_ & H & _). intros H0. apply (H c H0). by apply list_elem_of_singleton. }
  destruct (decide (c = node)) as [->|Hcn].
  - rewrite bool_decide_true by done. apply wp_bind, wp_gets. rewrite Hm1, bool_decide_false.
    2: { intros E. apply Hcl, at_pos_elem. by exists 1. }
    apply wp_ret, HQ. constructor; [|done]. exists l0. split_and!; [done|by eapply ordered_init|].
    intros z. rewrite elem_of_difference, elem_of_singleton, HX, elem_of_app, list_elem_of_singleton.
    split; [tauto|]. intros Hz. split; [by left|]. by intros ->.
  - rewrite bool_decide_false by congruence.
    assert (exists i, at_pos l0 i = Some node) as [i Hi].
    { apply elem_of_app in Hin as [Hin|Hin%list_elem_of_singleton]; [by apply at_pos_elem|by subst]. }
    pose proof (at_pos_range _ _ _ Hi) as Ri.
    apply wp_bind, wp_ret, wp_bind, wp_ret. eapply (replace_wp l0 c HN); [exact L1|done|done|exact Hi|].
    intros s2 T2 Hout2 Hnode2. apply wp_bind, wp_gets, wp_bind.
    eapply (sift_down_wp _ (replaced l0 c i) s2 i); [exact T2|by rewrite at_replaced, decide_True| | |].
    { apply replaced_bent; [done|by eapply ordered_init]. }
    { rewrite (tr_nelts _ _ T2). lia. }
    intros l3 s3 j3 R3 H3 Hb3. pose proof (at_pos_range _ _ _ H3) as Rj3.
    eapply (sift_up_wp _ l3 s3 j3); [apply R3|exact H3|exact Hb3| |].
    { rewrite (tr_nelts _ _ T2). rewrite (rs_len _ _ _ _ R3) in Rj3. lia. }
    intros l4 s4 R4 Ho4. pose proof (resifted_trans _ _ _ _ _ _ R3 R4) as R. apply HQ. constructor.
    + exists l4. split_and!; [apply R|done|]. intros z.
      rewrite (rs_elem _ _ _ _ R), (replaced_elem l0 c i node), elem_of_difference, elem_of_singleton, HX by done. done.
    + intros z Hz. eapply resifted_nodes; [exact R|]. apply Hkeep1 in Hz.
      destruct (decide (z = node)) as [->|Hzn]; [done|]. destruct (decide (z ∈ l0 ++ [c])) as [Hzi|Hzi].
      * assert (z ∈ replaced l0 c i) as [q Hq]%at_pos_elem by by apply (replaced_elem l0 c i node).
        rewrite (tr_links _ _ T2 _ _ Hq). eauto.
      * rewrite Hout2 by done. rewrite <- (lk_out _ _ _ _ L1) by done. done.
Qed.
End order.

(** ** The contract *)
Module UvPQ.
Section queue.
Context (less : loc -> loc -> bool).

Inductive cmd :=
  | Insert (x : loc)     (** [heap_insert(heap, x, less)] *)
  | Remove (x : loc)     (** [heap_remove(heap, x, less)] *)
  | Dequeue              (** [m = heap_min(heap); heap_dequeue(heap, less)] *)
  | Min.                 (** [heap_min(heap)] *)

(** [x] is a least node of [X]: no node is less. *)
Definition least (X : gset loc) (x : loc) : Prop := x ∈ X /\ forall y, y ∈ X -> less y x = false.

(** What [heap_min] may answer. *)
Definition answers (X : gset loc) (p : ptr) : Prop :=
  match p with Some x => least X x | None => X = ∅ end.

Inductive step (X : gset loc) : cmd -> ptr -> gset loc -> Prop :=
  | step_insert x : step X (Insert x) None ({[x]} ∪ X)
  | step_remove x : step X (Remove x) None (X ∖ {[x]})
  | step_dequeue x : least X x -> step X Dequeue (Some x) (X ∖ {[x]})
  | step_dequeue_empty : X = ∅ -> step X Dequeue None X
  | step_min p : answers X p -> step X Min p X.

Inductive run : gset loc -> list cmd -> list ptr -> gset loc -> Prop :=
  | run_nil X : run X [] [] X
  | run_cons X c r X' cs rs X'' : step X c r X' -> run X' cs rs X'' -> run X (c :: cs) (r :: rs) X''.

(** Calls a client may make: it inserts a node of [D] that is not in the heap
    and removes a node that is, or any node when the heap is empty. *)
Definition cmd_ok (D X : gset loc) (c : cmd) : Prop :=
  match c with
  | Insert x => x ∈ D /\ x ∉ X
  | Remove x => x ∈ X \/ X = ∅
  | Dequeue | Min => True
  end.

Fixpoint admissible (D X : gset loc) (cs : list cmd) : Prop :=
  match cs with
  | [] => True
  | c :: cs => cmd_ok D X c /\ forall r X', step X c r X' -> admissible D X' cs
  end.

(** The calls on the heap code. *)
Definition exec (c : cmd) : M hst ptr :=
  match c with
  | Insert x => heap_insert less x;; mret None
  | Remove x => heap_remove less (Some x);; mret None
  | Dequeue => m ← heap_min; heap_dequeue less;; mret m
  | Min => heap_min
  end.

Fixpoint exec_all (cs : list cmd) : M hst (list ptr) :=
  match cs with
  | [] => mret []
  | c :: cs => r ← exec c; rs ← exec_all cs; mret (r :: rs)
  end.

(** ** The rules of the calls *)

Context (Hless : strict_weak less).

(** The root is a least node. *)
Lemma root_le l x : ordered less l -> at_pos l 1 = Some x ->
  forall k y, at_pos l k = Some y -> le less x y.
Proof.
  intros Ho Hx k. induction k as [k IH] using (well_founded_induction (Z.lt_wf 0)). intros y Hy.
  pose proof (at_pos_range _ _ _ Hy) as Rk. destruct (decide (k = 1)) as [->|Hk].
  - rewrite Hx in Hy. injection Hy as <-. by apply le_refl.
  - destruct (at_pos_in l (k / 2)) as [z Hz]; [halves|].
    apply (le_trans less Hless _ z); [apply (IH (k / 2)); [halves|done]|]. apply (Ho k); [lia|done..].
Qed.

Lemma min_answers (X : gset loc) s : heaped less X s -> answers X (min (hp s)).
Proof.
  intros (l & T & Ho & HX). rewrite (tr_min _ _ T).
  destruct (at_pos l 1) as [x|] eqn:Hx; simpl.
  - split; [apply HX, at_pos_elem; eauto|]. intros y [k Hk]%HX%at_pos_elem. by eapply root_le.
  - apply set_eq. intros z. rewrite HX, at_pos_elem. split; [|by intros ?%elem_of_empty].
    intros [k Hk]. pose proof (at_pos_range _ _ _ Hk). destruct (at_pos_in l 1); [lia|congruence].
Qed.

Lemma remove_empty_wp s p (Q : unit -> hst -> Prop) :
  heaped less ∅ s -> Q tt s -> wp (heap_remove less p) Q s.
Proof.
  intros (l & T & _ & HX) HQ. apply wp_bind, wp_gets.
  rewrite (tr_nelts _ _ T), (heaped_size ∅ s l HX T), size_empty. simpl. by apply wp_ret.
Qed.

Record sim (D X : gset loc) (s : hst) : Prop := {
  sm_heap : heaped less X s;
  sm_sub : X ⊆ D;
  sm_nodes : forall x, x ∈ D -> is_Some (nodes s !! x)
}.

Lemma sim_becomes D X X' s s' : sim D X s -> X' ⊆ D -> becomes less X' s s' -> sim D X' s'.
Proof. intros [_ _ H] Hsub [H1 H2]. constructor; [done..|]. intros x Hx. by apply H2, H. Qed.

Lemma uv_exec_wp D X s c (HD : Z.of_nat (size D) < 2 ^ 32) :
  sim D X s -> cmd_ok D X c -> wp (exec c) (fun r s' => exists X', step X c r X' /\ sim D X' s') s.
Proof.
  intros S Hc. pose proof (sm_sub _ _ _ S) as Hsub. pose proof (sm_heap _ _ _ S) as Hh.
  pose proof (subseteq_size _ _ Hsub) as Hsz. destruct c as [x|x| |]; cbn [exec cmd_ok] in *.
  - destruct Hc as [HxD HxX]. assert ({[x]} ∪ X ⊆ D) as Hsub' by set_solver.
    pose proof (subseteq_size _ _ Hsub') as Hsz'. rewrite size_union, size_singleton in Hsz' by set_solver.
    apply wp_bind. eapply node_insert_wp; [done|exact Hh|done|by apply S|lia|]. intros s' B. apply wp_ret.
    eexists. split; [constructor|by eapply sim_becomes].
  - apply wp_bind. destruct (decide (x ∈ X)) as [Hx|Hx].
    + eapply node_remove_wp; [done|exact Hh|done|lia|]. intros s' B. apply wp_ret.
      eexists. split; [constructor|]. eapply sim_becomes; [done|set_solver|done].
    + destruct Hc as [|HX0]; [done|]. subst X. apply remove_empty_wp; [done|]. apply wp_ret.
      eexists. split; [constructor|]. by replace (∅ ∖ {[x]}) with (∅ : gset loc) by set_solver.
  - pose proof (min_answers _ _ Hh) as Hm. apply wp_bind, wp_gets, wp_bind, wp_bind, wp_gets.
    destruct (min (hp s)) as [x|]; cbn [answers] in Hm.
    + eapply node_remove_wp; [done|exact Hh|apply Hm|lia|]. intros s' B. apply wp_ret.
      eexists. split; [by constructor|]. eapply sim_becomes; [done|set_solver|done].
    + subst X. apply remove_empty_wp; [done|]. apply wp_ret. eexists. by split; [constructor|].
  - apply wp_gets. eexists. by split; [constructor; apply min_answers|].
Qed.

Lemma uv_exec_all_wp D cs (HD : Z.of_nat (size D) < 2 ^ 32) X s :
  sim D X s -> admissible D X cs -> wp (exec_all cs) (fun rs s' => exists X', run X cs rs X' /\ sim D X' s') s.
Proof.
  revert X s. induction cs as [|c cs IH]; intros X s S Hc; cbn [exec_all admissible] in *.
  - apply wp_ret. eexists. by split; [constructor|].
  - destruct Hc as [Hc Hcs]. apply wp_bind. eapply wp_mono; [by eapply uv_exec_wp|]. intros r s1 (X1 & Hs & S1).
    apply wp_bind. eapply wp_mono; [by eapply IH; [|eapply Hcs]|]. intros rs s2 (X2 & Hr & S2).
    apply wp_ret. eexists. by split; [econstructor|].
Qed.

Lemma heap_init_wp D s (Q : unit -> hst -> Prop) :
  (forall x, x ∈ D -> is_Some (nodes s !! x)) -> (forall s', sim D ∅ s' -> Q tt s') -> wp heap_init Q s.
Proof.
  intros HD HQ. apply wp_bind, wp_modify, wp_modify, HQ. constructor; simpl; [|set_solver|done].
  exists []. split_and!; [constructor; [done..|apply NoDup_nil_2|]| |set_solver].
  - intros k x Hx%at_pos_range. unfold zlen in Hx. simpl in Hx. lia.
  - intros k _ u v Hu%at_pos_range. unfold zlen in Hu. simpl in Hu. lia.
Qed.
End queue.
End UvPQ.

(** ** The refinement *)

(** C11: with any strict weak order, any sequence of calls on an initialised heap
    runs without misuse of memory and answers as a priority queue on the set of
    nodes it holds: [heap_min] and [heap_dequeue] give a node no other node is
    less than, a removal takes just the node named, and the number of elements is
    the size of the set. *)
Theorem uv_heap_refines_pqueue (less : loc -> loc -> bool) (D : gset loc) cs s
  (Hless : strict_weak less) (HD : Z.of_nat (size D) < 2 ^ 32)
  (Hnodes : forall x, x ∈ D -> is_Some (nodes s !! x)) (Hcs : UvPQ.admissible less D ∅ cs) :
  wp (heap_init;; UvPQ.exec_all less cs)
    (fun rs s' => exists X, UvPQ.run less ∅ cs rs X /\ heaped less X s' /\ nelts (hp s') = Z.of_nat (size X)) s.
Proof.
  apply wp_bind. eapply UvPQ.heap_init_wp; [exact Hless|exact Hnodes|]. intros s1 S1.
  eapply wp_mono; [by eapply UvPQ.uv_exec_all_wp|]. intros rs s2 (X & Hr & S2).
  exists X. split; [done|]. pose proof (UvPQ.sm_heap _ _ _ _ S2) as (l & T & Ho & HX).
  split; [by exists l|]. by rewrite (tr_nelts _ _ T), (heaped_size X s2 l HX T).
Qed.

(** ** The refinement on concrete calls *)
Module UvDemo.

(** The nodes ordered by their address. *)
Definition less (x y : loc) : bool := Z.ltb x y.

Lemma strict : strict_weak less.
Proof. unfold less. constructor; intros *; rewrite ?Z.ltb_lt, ?Z.ltb_ge; lia. Qed.

Definition blank : heap_node := HNode None None None.
Definition start : hst := St (Heap None 0) (list_to_map ((fun x => (x, blank)) <$> [1; 2; 3; 4; 5])).

Definition calls : list UvPQ.cmd :=
  [UvPQ.Remove 1; UvPQ.Insert 4; UvPQ.Insert 2; UvPQ.Insert 5; UvPQ.Insert 1; UvPQ.Insert 3; UvPQ.Remove 2;
   UvPQ.Min; UvPQ.Dequeue; UvPQ.Dequeue; UvPQ.Dequeue; UvPQ.Dequeue; UvPQ.Dequeue].

(** The nodes come out in order. *)
Example calls_answers : option_map fst ((heap_init;; UvPQ.exec_all less calls) start) =
  Some [None; None; None; None; None; None; None; Some 1; Some 1; Some 3; Some 4; Some 5; None].
Proof. vm_compute. reflexivity. Qed.

(** One step of an [admissible] goal on a concrete list of calls. *)
Ltac admissible_step :=
  match goal with
  | |- _ /\ _ => split
  | |- True => exact I
  | |- _ ∈ _ => set_solver
  | |- _ ∉ _ => set_solver
  | |- _ ∈ _ \/ _ => set_solver
  | |- forall r X', UvPQ.step _ _ _ _ _ -> _ =>
      let H := fresh in intros ? ? H; inversion H; clear H; subst
  end.

Lemma uv_heap_refines_pqueue_witness :
  wp (heap_init;; UvPQ.exec_all less calls)
    (fun rs s' => exists X, UvPQ.run less ∅ calls rs X /\ heaped less X s' /\ nelts (hp s') = Z.of_nat (size X)) start.
Proof.
  apply (uv_heap_refines_pqueue less {[1; 2; 3; 4; 5]} calls start strict).
  - by vm_compute.
  - intros x Hx. repeat apply elem_of_union in Hx as [Hx|Hx]; apply elem_of_singleton in Hx as ->; vm_compute; eauto.
  - unfold calls. cbn [UvPQ.admissible UvPQ.cmd_ok]. repeat admissible_step.
Defined.
End UvDemo.
