(* ===== verification/Uevent.v ===== *)
(** * uevent: the epoll event loop

    Models [src/uevent/uevent.c] and [src/uevent/uevent_internal.h]: one event
    base with its event slots, its timer heap and its counters, the events
    themselves, and the operations of the public interface.

    Pointers: an event is known by its address; a [uev_t*] is an index into
    [uev_arr]; there is one base, so a [uevent_base_t*] is a boolean telling
    whether the pointer is non-null.  The field [timer_node] of the event at
    address [e] is the entry [e] of the node store of [timers]: [container_of]
    is the identity on addresses.  A freed event leaves the store, so using it
    afterwards is undefined.  Logging is left out. *)

From S2P Require Import Prelude.
From S2P Require Import MinHeap.
Import MinHeap (mst, mh, nodes, minheap_node_t).

Module Uevent.

(** ** Constants of [uevent.h] *)

Definition UEV_READ : Z := Z.shiftl 1 0.
Definition UEV_WRITE : Z := Z.shiftl 1 1.
Definition UEV_ERROR : Z := Z.shiftl 1 2.
Definition UEV_HUP : Z := Z.shiftl 1 3.
Definition UEV_TIMEOUT : Z := Z.shiftl 1 4.
Definition UEV_PERSIST : Z := Z.shiftl 1 5.
Definition UEV_FD_EVENTS : Z :=
  Z.lor (Z.lor (Z.lor UEV_READ UEV_WRITE) UEV_ERROR) UEV_HUP.

Definition UEV_ERR_OK : Z := 0.
Definition UEV_ERR_ALLOC : Z := -1.
Definition UEV_ERR_EPOLL : Z := -2.
Definition UEV_ERR_MUTEX : Z := -3.
Definition UEV_ERR_INVAL : Z := -4.
Definition UEV_ERR_PENDING_FREE : Z := -5.
Definition UEV_ERR_BUSY : Z := -6.

Definition UEV_TIMEOUT_FIRE_NOW : Z := -1.
Definition UEV_TIMEOUT_FROM_EVENT : Z := -2.

Definition EPOLL_MAX_TIMEOUT_MS : Z := 60000.

(** Constants of the system header [<sys/epoll.h>]. *)
Definition EPOLLIN : Z := 1.
Definition EPOLLOUT : Z := 4.
Definition EPOLLERR : Z := 8.
Definition EPOLLHUP : Z := 16.
Definition EPOLLET : Z := 2 ^ 31.
Definition EPOLL_CTL_ADD : Z := 1.
Definition EPOLL_CTL_DEL : Z := 2.
Definition EPOLL_CTL_MOD : Z := 3.

(** [x & mask] is non-zero. *)
Definition has (x mask : Z) : bool := negb (Z.land x mask =? 0).

(** ** Data *)

(** A callback pointer: the loop's own reader of the wake-up descriptor, or a
    function of the user, by number.  [ev->cb_wrapper] only ever points to
    [uevent_user_cb_wrapper]. *)
Inductive callback := CbWakeup | CbUser (f : Z).
Inductive wrapper := UserCbWrapper.

Record uevent_t := UEvent {
  modification_lock : bool;
  active_fd : bool;
  active_timer : bool;
  pending_free : bool;
  is_in_worker_pool : bool;
  is_static : bool;
  events : Z;
  timeout_ms : Z;
  fd : Z;
  cb : option callback;
  cb_wrapper : option wrapper;
  arg : Z;
  base : bool;
  uev : option Z
}.

Definition set_modification_lock (x : bool) (r : uevent_t) : uevent_t :=
  UEvent x (active_fd r) (active_timer r) (pending_free r) (is_in_worker_pool r) (is_static r) (events r) (timeout_ms r) (fd r) (cb r) (cb_wrapper r) (arg r) (base r) (uev r).
Definition set_active_fd (x : bool) (r : uevent_t) : uevent_t :=
  UEvent (modification_lock r) x (active_timer r) (pending_free r) (is_in_worker_pool r) (is_static r) (events r) (timeout_ms r) (fd r) (cb r) (cb_wrapper r) (arg r) (base r) (uev r).
Definition set_active_timer (x : bool) (r : uevent_t) : uevent_t :=
  UEvent (modification_lock r) (active_fd r) x (pending_free r) (is_in_worker_pool r) (is_static r) (events r) (timeout_ms r) (fd r) (cb r) (cb_wrapper r) (arg r) (base r) (uev r).
Definition set_pending_free (x : bool) (r : uevent_t) : uevent_t :=
  UEvent (modification_lock r) (active_fd r) (active_timer r) x (is_in_worker_pool r) (is_static r) (events r) (timeout_ms r) (fd r) (cb r) (cb_wrapper r) (arg r) (base r) (uev r).
Definition set_is_in_worker_pool (x : bool) (r : uevent_t) : uevent_t :=
  UEvent (modification_lock r) (active_fd r) (active_timer r) (pending_free r) x (is_static r) (events r) (timeout_ms r) (fd r) (cb r) (cb_wrapper r) (arg r) (base r) (uev r).
Definition set_is_static (x : bool) (r : uevent_t) : uevent_t :=
  UEvent (modification_lock r) (active_fd r) (active_timer r) (pending_free r) (is_in_worker_pool r) x (events r) (timeout_ms r) (fd r) (cb r) (cb_wrapper r) (arg r) (base r) (uev r).
Definition set_events (x : Z) (r : uevent_t) : uevent_t :=
  UEvent (modification_lock r) (active_fd r) (active_timer r) (pending_free r) (is_in_worker_pool r) (is_static r) x (timeout_ms r) (fd r) (cb r) (cb_wrapper r) (arg r) (base r) (uev r).
Definition set_timeout_ms (x : Z) (r : uevent_t) : uevent_t :=
  UEvent (modification_lock r) (active_fd r) (active_timer r) (pending_free r) (is_in_worker_pool r) (is_static r) (events r) x (fd r) (cb r) (cb_wrapper r) (arg r) (base r) (uev r).
Definition set_fd (x : Z) (r : uevent_t) : uevent_t :=
  UEvent (modification_lock r) (active_fd r) (active_timer r) (pending_free r) (is_in_worker_pool r) (is_static r) (events r) (timeout_ms r) x (cb r) (cb_wrapper r) (arg r) (base r) (uev r).
Definition set_cb (x : option callback) (r : uevent_t) : uevent_t :=
  UEvent (modification_lock r) (active_fd r) (active_timer r) (pending_free r) (is_in_worker_pool r) (is_static r) (events r) (timeout_ms r) (fd r) x (cb_wrapper r) (arg r) (base r) (uev r).
Definition set_cb_wrapper (x : option wrapper) (r : uevent_t) : uevent_t :=
  UEvent (modification_lock r) (active_fd r) (active_timer r) (pending_free r) (is_in_worker_pool r) (is_static r) (events r) (timeout_ms r) (fd r) (cb r) x (arg r) (base r) (uev r).
Definition set_arg (x : Z) (r : uevent_t) : uevent_t :=
  UEvent (modification_lock r) (active_fd r) (active_timer r) (pending_free r) (is_in_worker_pool r) (is_static r) (events r) (timeout_ms r) (fd r) (cb r) (cb_wrapper r) x (base r) (uev r).
Definition set_base (x : bool) (r : uevent_t) : uevent_t :=
  UEvent (modification_lock r) (active_fd r) (active_timer r) (pending_free r) (is_in_worker_pool r) (is_static r) (events r) (timeout_ms r) (fd r) (cb r) (cb_wrapper r) (arg r) x (uev r).
Definition set_uev (x : option Z) (r : uevent_t) : uevent_t :=
  UEvent (modification_lock r) (active_fd r) (active_timer r) (pending_free r) (is_in_worker_pool r) (is_static r) (events r) (timeout_ms r) (fd r) (cb r) (cb_wrapper r) (arg r) (base r) x.

(** [uevent_item_t]: a slot of [base->uev_arr]. *)
Record uev_t := Uev { ev : ptr; refcount : Z }.

(** A task of the worker pool's queue. *)
Record uevent_task_t := Task { task_uev : Z; cron_time : Z; triggered_events : Z }.

(** The worker pool; the mutexes and condition variables are left out. *)
Record uevent_worker_pool_t := Pool {
  pool_running : bool;
  active_tasks : Z;
  queue_size : Z;
  total_workers : Z;
  num_workers : Z;
  task_queue : list uevent_task_t
}.

(** What the base asks of the system when it is created, and an event. *)
Inductive resource :=
  | REvent | RBase | REpollFd | REventFd | REventsArr | RHeap | RHeapArr | RUevArr | RFreeArr
  | RMutex | RCond | RWorkerPool | RTask | RThread.

#[export] Instance resource_eq_dec : EqDecision resource.
Proof. solve_decision. Defined.

(** The system calls and the allocator, over a state [K] of the outside world:
    each may fail.  [k_epoll_ctl] takes the operation, the descriptor, the event
    mask and the slot and returns 0 or -1; [k_time_ms] is the monotonic clock in
    milliseconds; [k_alloc] says whether a resource is obtained and [k_eventfd]
    returns the new descriptor or -1; [k_write] and [k_read] act on the wake-up descriptor and return the result and [errno];
    [k_epoll_wait] returns [nfds], [errno] and the filled part of
    [base->events], as slots and event masks. *)
Class Kernel (K : Type) := {
  k_epoll_ctl : Z -> Z -> Z -> option Z -> K -> Z * K;
  k_mutex_lock : K -> Z * K;
  k_time_ms : K -> Z * K;
  k_alloc : resource -> K -> bool * K;
  k_eventfd : K -> Z * K;
  k_write : K -> Z * Z * K;
  k_read : K -> Z * Z * K;
  k_epoll_wait : Z -> K -> Z * Z * list (Z * Z) * K
}.

(** Documented behaviour of a non-blocking eventfd: a read that returns the
    counter resets it, so the next read finds nothing. *)
Class KernelOk (K : Type) `{Kernel K} := {
  k_read_drains k : 0 < (k_read k).1.1 -> (k_read (k_read k).2).1.1 <= 0
}.

Definition EINTR : Z := 4.
Definition EAGAIN : Z := 11.
Definition EWOULDBLOCK : Z := 11.

(** The event embedded in the base, at a fixed address. *)
Definition wakeup_event : loc := 0.

Section uevent.
Context {K : Type} {Kern : Kernel K}.

(** The base and everything reachable from it.  [pool] is [*base->worker_pool],
    [None] for a base without workers. *)
Record ust := USt {
  slots : list uev_t;
  free_uev_arr : list Z;
  free_uev_arr_cnt : Z;
  evs : gmap loc uevent_t;
  timers : mst;
  num_active_fd : Z;
  num_active_timers : Z;
  wakeup_fd_written : bool;
  running : bool;
  stopped : bool;
  pool : option uevent_worker_pool_t;
  kern : K
}.

Definition put_slots (x : list uev_t) (r : ust) : ust :=
  USt x (free_uev_arr r) (free_uev_arr_cnt r) (evs r) (timers r) (num_active_fd r) (num_active_timers r) (wakeup_fd_written r) (running r) (stopped r) (pool r) (kern r).
Definition put_free_uev_arr (x : list Z) (r : ust) : ust :=
  USt (slots r) x (free_uev_arr_cnt r) (evs r) (timers r) (num_active_fd r) (num_active_timers r) (wakeup_fd_written r) (running r) (stopped r) (pool r) (kern r).
Definition put_free_uev_arr_cnt (x : Z) (r : ust) : ust :=
  USt (slots r) (free_uev_arr r) x (evs r) (timers r) (num_active_fd r) (num_active_timers r) (wakeup_fd_written r) (running r) (stopped r) (pool r) (kern r).
Definition put_evs (x : gmap loc uevent_t) (r : ust) : ust :=
  USt (slots r) (free_uev_arr r) (free_uev_arr_cnt r) x (timers r) (num_active_fd r) (num_active_timers r) (wakeup_fd_written r) (running r) (stopped r) (pool r) (kern r).
Definition put_timers (x : mst) (r : ust) : ust :=
  USt (slots r) (free_uev_arr r) (free_uev_arr_cnt r) (evs r) x (num_active_fd r) (num_active_timers r) (wakeup_fd_written r) (running r) (stopped r) (pool r) (kern r).
Definition put_num_active_fd (x : Z) (r : ust) : ust :=
  USt (slots r) (free_uev_arr r) (free_uev_arr_cnt r) (evs r) (timers r) x (num_active_timers r) (wakeup_fd_written r) (running r) (stopped r) (pool r) (kern r).
Definition put_num_active_timers (x : Z) (r : ust) : ust :=
  USt (slots r) (free_uev_arr r) (free_uev_arr_cnt r) (evs r) (timers r) (num_active_fd r) x (wakeup_fd_written r) (running r) (stopped r) (pool r) (kern r).
Definition put_wakeup_fd_written (x : bool) (r : ust) : ust :=
  USt (slots r) (free_uev_arr r) (free_uev_arr_cnt r) (evs r) (timers r) (num_active_fd r) (num_active_timers r) x (running r) (stopped r) (pool r) (kern r).
Definition put_running (x : bool) (r : ust) : ust :=
  USt (slots r) (free_uev_arr r) (free_uev_arr_cnt r) (evs r) (timers r) (num_active_fd r) (num_active_timers r) (wakeup_fd_written r) x (stopped r) (pool r) (kern r).
Definition put_stopped (x : bool) (r : ust) : ust :=
  USt (slots r) (free_uev_arr r) (free_uev_arr_cnt r) (evs r) (timers r) (num_active_fd r) (num_active_timers r) (wakeup_fd_written r) (running r) x (pool r) (kern r).
Definition put_pool (x : option uevent_worker_pool_t) (r : ust) : ust :=
  USt (slots r) (free_uev_arr r) (free_uev_arr_cnt r) (evs r) (timers r) (num_active_fd r) (num_active_timers r) (wakeup_fd_written r) (running r) (stopped r) x (kern r).
Definition put_kern (x : K) (r : ust) : ust :=
  USt (slots r) (free_uev_arr r) (free_uev_arr_cnt r) (evs r) (timers r) (num_active_fd r) (num_active_timers r) (wakeup_fd_written r) (running r) (stopped r) (pool r) x.

(** What a user callback does: its number, the event, [fd], the triggered
    events and [arg]. *)
Variable user_cb : Z -> loc -> Z -> Z -> Z -> M ust unit.

(** ** Memory and system calls *)

Definition slot_get (i : Z) : M ust uev_t := l ← gets slots; of_option (znth l i).
Definition slot_put (i : Z) (u : uev_t) : M ust unit :=
  modify (fun s => put_slots (zset (slots s) i u) s).

Definition ev_get (e : loc) : M ust uevent_t := m ← gets evs; of_option (m !! e).
Definition ev_put (e : loc) (E : uevent_t) : M ust unit :=
  modify (fun s => put_evs (<[e := E]> (evs s)) s).

(** [uev->ev->...]: the event a slot points to; null is undefined. *)
Definition slot_ev (i : Z) : M ust loc := u ← slot_get i; of_option (ev u).

Definition syscall {A} (f : K -> A * K) : M ust A :=
  fun s => let r := f (kern s) in Some (r.1, put_kern r.2 s).

Definition time_ms : M ust Z := syscall k_time_ms.
Definition mutex_lock : M ust Z := syscall k_mutex_lock.

(** The calls into minheap, on the timer heap of the base. *)
Definition heap_call {A} (m : M mst A) : M ust A := zoom timers put_timers m.

Definition when (b : bool) (m : M ust unit) : M ust unit := if b then m else mret tt.

(** ** uevent_internal.h *)

Definition internal_is_persist_timer (E : uevent_t) : bool :=
  Z.land (events E) (Z.lor UEV_PERSIST UEV_TIMEOUT) =? Z.lor UEV_PERSIST UEV_TIMEOUT.

Definition internal_is_fd_event (E : uevent_t) : bool :=
  has (events E) UEV_FD_EVENTS && (0 <=? fd E).

Definition atomic_deactivate_fd (e : loc) : M ust bool :=
  E ← ev_get e; ev_put e (set_active_fd false E);; mret (active_fd E).

Definition atomic_deactivate_timer (e : loc) : M ust bool :=
  E ← ev_get e; ev_put e (set_active_timer false E);; mret (active_timer E).

Definition internal_should_auto_del_fd (E : uevent_t) (triggered : Z) : bool :=
  has triggered UEV_FD_EVENTS && negb (has (events E) UEV_PERSIST).

Definition get_min_timeout_internal (timeout : Z) : Z := if timeout <? 1 then 1 else timeout.

(** ** Wake-up descriptor *)

(** [do { res = read(fd, ...); } while (res > 0);] returns the last result and
    [errno]; two rounds are enough for an eventfd. *)
Fixpoint read_loop (fuel : nat) : M ust (Z * Z) :=
  match fuel with
  | O => ub
  | S fuel => r ← syscall k_read; if 0 <? r.1 then read_loop fuel else mret r
  end.

Definition wakeup_fd_read_cb (e : loc) : M ust unit :=
  r ← read_loop 2;
  if (r.1 <? 0) && negb (r.2 =? EAGAIN) && negb (r.2 =? EWOULDBLOCK) then mret tt
  else
    E ← ev_get e;
    if base E then modify (put_wakeup_fd_written false) else ub.

Definition wakeup_fd_reset : M ust unit :=
  w ← gets wakeup_fd_written;
  when w (wakeup_fd_read_cb wakeup_event).

Definition uevent_base_wakeup (base : bool) : M ust unit :=
  if negb base then mret tt
  else
    w ← gets wakeup_fd_written;
    if (w : bool) then mret tt
    else
      ev_get wakeup_event;;
      r ← syscall k_write;
      if (r.1 <? 0) && negb (r.2 =? EAGAIN) then mret tt
      else modify (put_wakeup_fd_written true).

(** ** Event lock *)

Definition uevent_try_lock (e : loc) : M ust bool :=
  E ← ev_get e;
  if modification_lock E then mret false
  else ev_put e (set_modification_lock true E);; mret true.

Definition uevent_unlock (e : loc) : M ust unit :=
  E ← ev_get e; ev_put e (set_modification_lock false E).

(** ** Slots *)

Definition uev_get_unused (base : bool) : M ust (option Z) :=
  if negb base then mret None
  else
    cnt ← gets free_uev_arr_cnt;
    if cnt =? 0 then mret None
    else
      modify (put_free_uev_arr_cnt (u32 (cnt - 1)));;
      l ← gets free_uev_arr;
      i ← of_option (znth l (u32 (cnt - 1)));
      mret (Some i).

Definition uev_return (base : bool) (i : Z) : M ust Z :=
  if negb base then mret (-1)
  else
    l ← gets slots;
    if (i <? 0) || (zlen l <=? i) then mret (-1)
    else
      cnt ← gets free_uev_arr_cnt;
      fr ← gets free_uev_arr;
      if (0 <=? cnt) && (cnt <? zlen fr) then
        modify (put_free_uev_arr (zset fr cnt i));;
        modify (put_free_uev_arr_cnt (u32 (cnt + 1)));;
        mret 0
      else ub.

(** ** Destruction and reference counts *)

Definition uevent_reset_static_ev (e : loc) : M ust unit :=
  E ← ev_get e;
  ev_put e (UEvent false false false false false (is_static E) 0 (timeout_ms E) (-1)
    None None 0 false None);;
  heap_call (MinHeap.node_get e);;
  heap_call (MinHeap.node_put e (MinHeap.Node 0 0)).

(** [free(ev)]. *)
Definition free_ev (e : loc) : M ust unit :=
  ev_get e;;
  modify (fun s => put_evs (delete e (evs s)) s);;
  heap_call (modify (fun m => MinHeap.St (mh m) (delete e (nodes m)))).

Definition uevent_destroy_uev_internal_unsafe (i : Z) : M ust unit :=
  u ← slot_get i;
  slot_put i (Uev None (refcount u));;
  match ev u with
  | None => mret tt
  | Some e =>
      E ← ev_get e;
      uev_return (base E) i;;
      if is_static E then uevent_reset_static_ev e
      else ev_put e (set_uev None E);; free_ev e
  end.

Definition uevent_ref (i : Z) : M ust unit :=
  u ← slot_get i;
  slot_put i (Uev (ev u) (s32 (refcount u + 1)));;
  e ← slot_ev i;
  ev_get e;; mret tt.

Definition refcount_inc_not_zero (i : Z) : M ust bool :=
  u ← slot_get i;
  if refcount u =? 0 then mret false
  else slot_put i (Uev (ev u) (s32 (refcount u + 1)));; mret true.

Definition refcount_dec (i : Z) : M ust Z :=
  u ← slot_get i;
  slot_put i (Uev (ev u) (s32 (refcount u - 1)));; mret (refcount u).

Definition uevent_try_ref (uev : option Z) : M ust (option Z) :=
  match uev with
  | None => mret None
  | Some i =>
      b ← refcount_inc_not_zero i;
      if negb b then mret None
      else
        u ← slot_get i;
        match ev u with
        | None => refcount_dec i;; mret None
        | Some e =>
            E ← ev_get e;
            if pending_free E then refcount_dec i;; mret None
            else mret (Some i)
        end
  end.

Definition uevent_unref (i : Z) : M ust Z :=
  old ← refcount_dec i;
  if old <=? 0 then ub
  else if old =? 1 then mret (old - 1)
  else e ← slot_ev i; ev_get e;; mret (old - 1).

Definition uevent_refcount_dec_and_test (i : Z) : M ust bool :=
  old ← refcount_dec i;
  if old <=? 0 then ub else mret (old =? 1).

Definition uevent_put (uev : option Z) : M ust bool :=
  match uev with
  | None => mret false
  | Some i =>
      u ← slot_get i;
      if refcount u =? 0 then mret false
      else
        b ← uevent_refcount_dec_and_test i;
        if (b : bool) then uevent_destroy_uev_internal_unsafe i;; mret true else mret false
  end.

(** [(void)uevent_put(uev)]. *)
Definition uevent_put_ (i : Z) : M ust unit := uevent_put (Some i);; mret tt.

(** ** Creating events *)

Definition zero_event : uevent_t :=
  UEvent false false false false false false 0 0 0 None None 0 false None.

(** [calloc(1, sizeof(uevent_t))]: a zeroed event at an unused address. *)
Definition uevent_alloc_ev (e : ptr) : M ust ptr :=
  match e with
  | Some e => mret (Some e)
  | None =>
      ok ← syscall (k_alloc REvent);
      if negb ok then mret None
      else
        used ← gets (fun s => dom (evs s) ∪ dom (nodes (timers s)));
        let e := fresh used in
        ev_put e zero_event;;
        heap_call (MinHeap.node_put e (MinHeap.Node 0 0));;
        mret (Some e)
  end.

Definition uevent_init_ev (e : loc) (fd' events' : Z) (cb' : option callback) (arg' : Z) : M ust unit :=
  E ← ev_get e;
  ev_put e (UEvent false false false false (is_in_worker_pool E) (is_static E) events'
    (timeout_ms E) fd' cb' (Some UserCbWrapper) arg' true (uev E));;
  nd ← heap_call (MinHeap.node_get e);
  heap_call (MinHeap.node_put e (MinHeap.Node 0 (MinHeap.idx nd))).

(** The label [fail_event]. *)
Definition fail_event (e : loc) : M ust (option Z) :=
  E ← ev_get e;
  (if is_static E then mret tt else free_ev e);; mret None.

Definition uevent_create_or_assign_event (e0 : ptr) (base' : bool) (fd' events' : Z)
    (cb' : option callback) (arg' : Z) : M ust (option Z) :=
  if negb base' then mret None
  else
    refused ← match e0 with
              | None => mret false
              | Some e => E ← ev_get e; mret (negb (is_static E) || base E)
              end;
    if (refused : bool) then mret None
    else
      e1 ← uevent_alloc_ev e0;
      match e1 with
      | None => mret None
      | Some e =>
          uevent_init_ev e fd' events' cb' arg';;
          rc ← mutex_lock;
          if negb (rc =? 0) then fail_event e
          else
            uev' ← uev_get_unused base';
            match uev' with
            | None => fail_event e
            | Some i =>
                slot_put i (Uev (Some e) 1);;
                E ← ev_get e;
                ev_put e (set_uev (Some i) E);;
                mret (Some i)
            end
      end.

(** ** Event masks *)

Definition convert_to_epoll_events (event : Z) : Z :=
  let x := 0 in
  let x := if has event UEV_READ then Z.lor x EPOLLIN else x in
  let x := if has event UEV_WRITE then Z.lor x EPOLLOUT else x in
  let x := if has event UEV_ERROR then Z.lor x EPOLLERR else x in
  if has event UEV_HUP then Z.lor x EPOLLHUP else x.

Definition convert_from_epoll_events (epoll_events : Z) : Z :=
  let x := 0 in
  let x := if has epoll_events EPOLLIN then Z.lor x UEV_READ else x in
  let x := if has epoll_events EPOLLOUT then Z.lor x UEV_WRITE else x in
  let x := if has epoll_events EPOLLERR then Z.lor x UEV_ERROR else x in
  if has epoll_events EPOLLHUP then Z.lor x UEV_HUP else x.

(** ** Adding *)

Definition insert_fd_to_epoll (i : Z) : M ust Z :=
  e ← slot_ev i;
  E ← ev_get e;
  if negb (base E) then ub
  else
    let was_active := active_fd E in
    let op := if was_active then EPOLL_CTL_MOD else EPOLL_CTL_ADD in
    ret ← syscall (k_epoll_ctl op (fd E)
            (Z.lor (convert_to_epoll_events (events E)) EPOLLET) (Some i));
    if ret =? 0 then
      when (negb was_active)
        (ev_put e (set_active_fd true E);;
         when (negb (bool_decide (e = wakeup_event)))
           (modify (fun s => put_num_active_fd (s32 (num_active_fd s + 1)) s);;
            uevent_ref i));;
      mret UEV_ERR_OK
    else mret UEV_ERR_EPOLL.

Definition insert_timer_to_heap (i cur_time_ms timeout : Z) (no_lock : bool) : M ust unit :=
  e ← slot_ev i;
  E ← ev_get e;
  if negb (base E) then mret tt
  else
    rc ← (if no_lock then mret 0 else mutex_lock);
    if negb (rc =? 0) then mret tt
    else
      let timeout := if 0 <=? timeout then timeout else 0 in
      let new_key := u64 (cur_time_ms + u32 timeout) in
      nd ← heap_call (MinHeap.node_get e);
      heap_call (MinHeap.node_put e (MinHeap.Node new_key (MinHeap.idx nd)));;
      heap_call (MinHeap.mh_insert (Some e));;
      when (negb (active_timer E))
        (modify (fun s => put_num_active_timers (s32 (num_active_timers s + 1)) s);;
         ev_put e (set_active_timer true E);;
         uevent_ref i);;
      written ← gets wakeup_fd_written;
      wakeup ← (if (written : bool) then mret false
                else min ← heap_call MinHeap.mh_get_min; mret (bool_decide (min = Some e)));
      when wakeup (uevent_base_wakeup true).

Definition uevent_add_internal_unsafe (e : loc) (cur_time_ms timeout : Z) (no_lock : bool) : M ust Z :=
  E ← ev_get e;
  if pending_free E then mret UEV_ERR_PENDING_FREE
  else
    ret ← (if internal_is_fd_event E then i ← of_option (uev E); insert_fd_to_epoll i
           else mret UEV_ERR_OK);
    if negb (ret =? UEV_ERR_OK) then mret ret
    else
      when (has (events E) UEV_TIMEOUT || (timeout <? 0))
        (i ← of_option (uev E); insert_timer_to_heap i cur_time_ms timeout no_lock);;
      mret ret.

Definition uevent_add (uev' : option Z) (timeout : Z) : M ust Z :=
  match uev' with
  | None => mret UEV_ERR_INVAL
  | Some i =>
      r ← uevent_try_ref (Some i);
      match r with
      | None => mret UEV_ERR_PENDING_FREE
      | Some _ =>
          e ← slot_ev i;
          locked ← uevent_try_lock e;
          if negb locked then uevent_put_ i;; mret UEV_ERR_BUSY
          else
            E ← ev_get e;
            let timeout := if timeout =? -2 then timeout_ms E else timeout in
            now ← time_ms;
            ret ← uevent_add_internal_unsafe e now timeout false;
            uevent_unlock e;;
            uevent_put_ i;;
            mret ret
      end
  end.

Definition uevent_add_with_current_timeout (uev' : option Z) : M ust unit :=
  uevent_add uev' UEV_TIMEOUT_FROM_EVENT;; mret tt.

Definition uevent_active (uev' : option Z) : M ust unit :=
  uevent_add uev' UEV_TIMEOUT_FIRE_NOW;; mret tt.

(** ** Removing *)

Definition remove_event_from_epoll (i : Z) : M ust unit :=
  e ← slot_ev i;
  E ← ev_get e;
  if negb (base E) then mret tt
  else
    was ← atomic_deactivate_fd e;
    if negb was then mret tt
    else
      when (internal_is_fd_event E)
        (syscall (k_epoll_ctl EPOLL_CTL_DEL (fd E) 0 None);; mret tt);;
      when (negb (bool_decide (e = wakeup_event)))
        (modify (fun s => put_num_active_fd (s32 (num_active_fd s - 1)) s));;
      uevent_put_ i.

Definition remove_event_from_heap (i : Z) (no_lock : bool) : M ust unit :=
  e ← slot_ev i;
  E ← ev_get e;
  if negb (base E) then mret tt
  else
    was ← atomic_deactivate_timer e;
    if negb was then mret tt
    else
      rc ← (if no_lock then mret 0 else mutex_lock);
      if negb (rc =? 0) then
        E' ← ev_get e; ev_put e (set_active_timer true E')
      else
        heap_call (MinHeap.mh_delete_node (Some e));;
        modify (fun s => put_num_active_timers (s32 (num_active_timers s - 1)) s);;
        uevent_put_ i.

Definition uevent_del (uev' : option Z) : M ust Z :=
  match uev' with
  | None => mret UEV_ERR_INVAL
  | Some i =>
      r ← uevent_try_ref (Some i);
      match r with
      | None => mret UEV_ERR_PENDING_FREE
      | Some _ =>
          e ← slot_ev i;
          ev_get e;;
          remove_event_from_epoll i;;
          remove_event_from_heap i false;;
          uevent_put_ i;;
          mret UEV_ERR_OK
      end
  end.

Definition uevent_free (uev' : option Z) : M ust unit :=
  match uev' with
  | None => mret tt
  | Some i =>
      u ← slot_get i;
      if refcount u <? 1 then mret tt
      else
        match ev u with
        | None => mret tt
        | Some e =>
            E ← ev_get e;
            if pending_free E then mret tt
            else
              uevent_del (Some i);;
              E ← ev_get e;
              ev_put e (set_pending_free true E);;
              if pending_free E then mret tt else uevent_put_ i
        end
  end.

(** ** Queries *)

Definition uevent_set_timeout (uev' : option Z) (t : Z) : M ust unit :=
  r ← uevent_try_ref uev';
  match r with
  | None => mret tt
  | Some i =>
      e ← slot_ev i;
      E ← ev_get e;
      ev_put e (set_timeout_ms t E);;
      uevent_put_ i
  end.

Definition uevent_is_alive (uev' : option Z) : M ust bool :=
  r ← uevent_try_ref uev';
  match r with None => mret false | Some i => uevent_put_ i;; mret true end.

Definition uevent_initialized (uev' : option Z) : M ust bool :=
  match uev' with
  | None => mret false
  | Some i =>
      r ← uevent_try_ref (Some i);
      match r with
      | None => mret false
      | Some _ => e ← slot_ev i; E ← ev_get e; uevent_put_ i;; mret (base E)
      end
  end.

Definition uevent_pending (uev' : option Z) (mask : Z) : M ust bool :=
  r ← uevent_try_ref uev';
  match r with
  | None => mret false
  | Some i =>
      e ← slot_ev i;
      E ← ev_get e;
      let res := has mask UEV_TIMEOUT && active_timer E in
      let res := if negb res && has mask UEV_FD_EVENTS && active_fd E then true else res in
      uevent_put_ i;;
      mret res
  end.

Definition uevent_base_has_events : M ust bool :=
  nev ← gets num_active_fd;
  ntm ← gets num_active_timers;
  mret ((0 <? nev) || (0 <? ntm)).

(** ** Dispatching callbacks *)

Definition call_callback (c : callback) (e : loc) (fd' trig arg' : Z) : M ust unit :=
  match c with
  | CbWakeup => wakeup_fd_read_cb e
  | CbUser f => user_cb f e fd' trig arg'
  end.

Definition uevent_user_cb_wrapper (e : loc) (fd' trig : Z) (cb' : option callback) (arg' : Z) : M ust unit :=
  locked ← uevent_try_lock e;
  if negb locked then mret tt
  else
    E ← ev_get e;
    if negb (base E) then uevent_unlock e
    else if bool_decide (e = wakeup_event) then
      match cb' with Some c => call_callback c e fd' trig arg' | None => mret tt end;;
      uevent_unlock e
    else
      match cb' with Some c => call_callback c e fd' trig arg' | None => mret tt end;;
      uevent_unlock e.

(** [uevent_worker_pool_insert] of [uevent_worker.c]. *)
Definition uevent_worker_pool_insert (i trig cron : Z) : M ust unit :=
  u ← slot_get i;
  match ev u with
  | None => mret tt
  | Some e =>
      E ← ev_get e;
      if is_in_worker_pool E then mret tt
      else
        ok ← syscall (k_alloc RTask);
        if negb ok then mret tt
        else
          uevent_ref i;;
          E ← ev_get e;
          ev_put e (set_is_in_worker_pool true E);;
          p ← gets pool;
          match p with
          | None => mret tt
          | Some p =>
              modify (put_pool (Some (Pool (pool_running p) (active_tasks p)
                (s32 (queue_size p + 1)) (total_workers p) (num_workers p)
                (task_queue p ++ [Task i cron trig]))))
          end
  end.

Definition dispatch_event_callback (i trig cron : Z) : M ust unit :=
  r ← uevent_try_ref (Some i);
  match r with
  | None => mret tt
  | Some _ =>
      e ← slot_ev i;
      E ← ev_get e;
      p ← gets pool;
      run ← gets running;
      if base E && bool_decide (is_Some p) then
        if negb run then uevent_put_ i
        else uevent_worker_pool_insert i trig cron;; uevent_put_ i
      else
        match cb_wrapper E with
        | None => ub
        | Some UserCbWrapper => uevent_user_cb_wrapper e (fd E) trig (cb E) (arg E)
        end;;
        uevent_put_ i
  end.

Definition uevent_handle_ev_cb (e : ptr) (trig cron : Z) : M ust unit :=
  match e with
  | None => mret tt
  | Some e =>
      if trig =? 0 then mret tt
      else
        E ← ev_get e;
        if pending_free E then mret tt
        else
          match uev E with
          | None => mret tt
          | Some i =>
              when (has trig UEV_TIMEOUT) (time_ms;; mret tt);;
              when (bool_decide (is_Some (cb E))) (dispatch_event_callback i trig cron)
          end
  end.

Definition call_cb_if_exists (e : loc) (cron : Z) : M ust unit :=
  E ← ev_get e;
  when (bool_decide (is_Some (cb E))) (uevent_handle_ev_cb (Some e) UEV_TIMEOUT cron).

(** ** Timers *)

Definition cron_persist_event_if_needed_internal_unsafe (i cron : Z) : M ust unit :=
  u ← slot_get i;
  match ev u with
  | None => mret tt
  | Some e =>
      E ← ev_get e;
      run ← gets running;
      if pending_free E || negb run then mret tt
      else if negb (internal_is_persist_timer E) then mret tt
      else insert_timer_to_heap i cron (get_min_timeout_internal (timeout_ms E)) true
  end.

(** The loop of [uevent_handle_timers]; [prev] is never assigned in the code and
    stays null, so the test [prev == min] is always false. *)
Fixpoint timers_loop (max : nat) (now : Z) : M ust unit :=
  match max with
  | O => mret tt
  | S max =>
      min ← heap_call MinHeap.mh_get_min;
      match min with
      | None => mret tt
      | Some m =>
          k ← heap_call (MinHeap.node_key (Some m));
          if now <? k then mret tt
          else
            expired ← heap_call MinHeap.mh_extract_min;
            match expired with
            | None => mret tt
            | Some e =>
                cron ← heap_call (MinHeap.node_key (Some e));
                E ← ev_get e;
                match uev E with
                | None => timers_loop max now
                | Some i =>
                    ev_put e (set_active_timer false E);;
                    modify (fun s => put_num_active_timers (s32 (num_active_timers s - 1)) s);;
                    gone ← uevent_put (Some i);
                    if (gone : bool) then timers_loop max now
                    else
                      cron_persist_event_if_needed_internal_unsafe i cron;;
                      call_cb_if_exists e cron;;
                      timers_loop max now
                end
            end
      end
  end.

Definition uevent_handle_timers : M ust unit :=
  run ← gets running;
  if negb run then mret tt
  else
    mutex_lock;;
    now ← time_ms;
    timers_loop 500 now.

Definition calculate_epoll_timeout : M ust Z :=
  wakeup_fd_reset;;
  n ← gets num_active_timers;
  if n =? 0 then mret EPOLL_MAX_TIMEOUT_MS
  else
    rc ← mutex_lock;
    if negb (rc =? 0) then mret 100
    else
      min ← heap_call MinHeap.mh_get_min;
      match min with
      | None => mret EPOLL_MAX_TIMEOUT_MS
      | Some e =>
          now ← time_ms;
          ev_get e;;
          k ← heap_call (MinHeap.node_key (Some e));
          if k <=? now then mret 0
          else
            let diff := u64 (k - now) in
            if diff <? EPOLL_MAX_TIMEOUT_MS then mret (s32 diff)
            else mret EPOLL_MAX_TIMEOUT_MS
      end.

(** ** The loop *)

(** The loop of [uevent_handle_epoll] over the slots and masks epoll returned. *)
Fixpoint handle_epoll_loop (l : list (Z * Z)) : M ust unit :=
  match l with
  | [] => mret tt
  | (i, mask) :: l =>
      let trig := convert_from_epoll_events mask in
      e ← slot_ev i;
      E ← ev_get e;
      (if negb (active_fd E) then mret tt
       else
         uevent_handle_ev_cb (Some e) trig 0;;
         E ← ev_get e;
         when (internal_should_auto_del_fd E trig) (uevent_del (Some i);; mret tt));;
      handle_epoll_loop l
  end.

Definition uevent_handle_epoll (l : list (Z * Z)) : M ust unit :=
  run ← gets running;
  if negb run then mret tt else handle_epoll_loop l.

Definition epoll_wait_and_dispatch (epoll_timeout : Z) : M ust Z :=
  time_ms;;
  r ← syscall (fun k => let '(n, err, l, k') := k_epoll_wait epoll_timeout k in ((n, err, l), k'));
  time_ms;;
  let '(nfds, errno, l) := r in
  if nfds =? -1 then mret (if errno =? EINTR then 0 else -1)
  else
    uevent_handle_timers;;
    when (0 <? nfds) (uevent_handle_epoll (take (Z.to_nat nfds) l));;
    mret 0.

Definition mark_base_stopped : M ust unit := mutex_lock;; modify (put_stopped true).

(** One turn of the loop of [uevent_base_dispatch]: [Some r] ends the loop with
    the status [r], [None] goes on. *)
Definition dispatch_turn : M ust (option Z) :=
  run ← gets running;
  if negb run then mret (Some UEV_ERR_OK)
  else
    some ← uevent_base_has_events;
    if negb some then modify (put_running false);; mret (Some UEV_ERR_OK)
    else
      t ← calculate_epoll_timeout;
      rc ← epoll_wait_and_dispatch t;
      if negb (rc =? 0) then mret (Some UEV_ERR_EPOLL) else mret None.

Fixpoint loopbreak_loop (fuel : nat) : M ust unit :=
  match fuel with
  | O => ub
  | S fuel =>
      min ← heap_call MinHeap.mh_get_min;
      match min with
      | None => mret tt
      | Some _ =>
          expired ← heap_call MinHeap.mh_extract_min;
          match expired with
          | None => mret tt
          | Some e =>
              E ← ev_get e;
              ev_put e (set_active_timer false E);;
              modify (fun s => put_num_active_timers (s32 (num_active_timers s - 1)) s);;
              match uev E with Some i => uevent_put_ i | None => mret tt end;;
              loopbreak_loop fuel
          end
      end
  end.

Definition uevent_base_loopbreak (base' : bool) : M ust unit :=
  if negb base' then mret tt
  else
    modify (put_running false);;
    mutex_lock;;
    n ← gets (fun s => size (nodes (timers s)));
    loopbreak_loop (S n);;
    uevent_base_wakeup true.

(** ** Creating the base *)

(** The static event [base->wakeup_event] before it is assigned. *)
Definition wakeup_template : uevent_t :=
  UEvent false false false false false true 0 0 0 None None 0 false None.

(** A base whose components are being made: what the system has given and has
    not been given back, which of the base's pointers and descriptors are set,
    and the outside world.  Giving back what is not held, a double [free], is
    undefined.  Destroying a mutex or a condition variable of the zeroed base
    releases nothing, whether or not it was initialised. *)
Record making := Making {
  held : list resource;
  mk_epoll_fd : bool;
  mk_wakeup_fd : Z;
  mk_events : bool;
  mk_timer_heap : bool;
  mk_uev_arr : bool;
  mk_free_uev_arr : bool;
  mk_worker_pool : option uevent_worker_pool_t;
  mk_kern : K
}.

Definition hold (h : list resource) (b : making) : making :=
  Making h (mk_epoll_fd b) (mk_wakeup_fd b) (mk_events b) (mk_timer_heap b) (mk_uev_arr b) (mk_free_uev_arr b) (mk_worker_pool b) (mk_kern b).
Definition set_mk_epoll_fd (x : bool) (b : making) : making :=
  Making (held b) x (mk_wakeup_fd b) (mk_events b) (mk_timer_heap b) (mk_uev_arr b) (mk_free_uev_arr b) (mk_worker_pool b) (mk_kern b).
Definition set_mk_wakeup_fd (x : Z) (b : making) : making :=
  Making (held b) (mk_epoll_fd b) x (mk_events b) (mk_timer_heap b) (mk_uev_arr b) (mk_free_uev_arr b) (mk_worker_pool b) (mk_kern b).
Definition set_mk_events (x : bool) (b : making) : making :=
  Making (held b) (mk_epoll_fd b) (mk_wakeup_fd b) x (mk_timer_heap b) (mk_uev_arr b) (mk_free_uev_arr b) (mk_worker_pool b) (mk_kern b).
Definition set_mk_timer_heap (x : bool) (b : making) : making :=
  Making (held b) (mk_epoll_fd b) (mk_wakeup_fd b) (mk_events b) x (mk_uev_arr b) (mk_free_uev_arr b) (mk_worker_pool b) (mk_kern b).
Definition set_mk_uev_arr (x : bool) (b : making) : making :=
  Making (held b) (mk_epoll_fd b) (mk_wakeup_fd b) (mk_events b) (mk_timer_heap b) x (mk_free_uev_arr b) (mk_worker_pool b) (mk_kern b).
Definition set_mk_free_uev_arr (x : bool) (b : making) : making :=
  Making (held b) (mk_epoll_fd b) (mk_wakeup_fd b) (mk_events b) (mk_timer_heap b) (mk_uev_arr b) x (mk_worker_pool b) (mk_kern b).
Definition set_mk_worker_pool (x : option uevent_worker_pool_t) (b : making) : making :=
  Making (held b) (mk_epoll_fd b) (mk_wakeup_fd b) (mk_events b) (mk_timer_heap b) (mk_uev_arr b) (mk_free_uev_arr b) x (mk_kern b).
Definition set_mk_kern (x : K) (b : making) : making :=
  Making (held b) (mk_epoll_fd b) (mk_wakeup_fd b) (mk_events b) (mk_timer_heap b) (mk_uev_arr b) (mk_free_uev_arr b) (mk_worker_pool b) x.

Definition obtain (r : resource) : M making bool := fun b =>
  let a := k_alloc r (mk_kern b) in
  Some (a.1, set_mk_kern a.2 (if a.1 then hold (r :: held b) b else b)).

Fixpoint without (r : resource) (l : list resource) : option (list resource) :=
  match l with
  | [] => None
  | x :: l => if decide (x = r) then Some l else cons x <$> without r l
  end.

Definition release (r : resource) : M making unit := fun b =>
  match without r (held b) with
  | Some h => Some (tt, hold h b)
  | None => None
  end.

Definition release_if (c : bool) (r : resource) : M making unit := if c then release r else mret tt.

(** [uevent_worker_pool_create] of [uevent_worker.c]; one resource stands for the
    memory, the mutexes and the threads of the pool. *)
Definition uevent_worker_pool_create (num_workers : Z) : M making (option uevent_worker_pool_t) :=
  if num_workers <=? 0 then mret None
  else
    ok ← obtain RWorkerPool;
    mret (if (ok : bool) then Some (Pool true 0 0 num_workers num_workers []) else None).

(** [mh_create] and [mh_free]: the heap and its array. *)
Definition create_heap : M making bool :=
  ok ← obtain RHeap;
  if negb ok then mret false
  else
    ok ← obtain RHeapArr;
    if negb ok then release RHeap;; mret false else mret true.
Definition free_heap : M making unit := release RHeapArr;; release RHeap.

Definition uev_slots_init : M making Z :=
  ok ← obtain RUevArr;
  modify (set_mk_uev_arr ok);;
  if negb ok then mret (-1)
  else
    ok ← obtain RFreeArr;
    modify (set_mk_free_uev_arr ok);;
    if negb ok then release RUevArr;; mret (-1) else mret 0.

Definition uev_slots_deinit : M making unit :=
  f ← gets mk_free_uev_arr;
  release_if f RFreeArr;;
  modify (set_mk_free_uev_arr false);;
  u ← gets mk_uev_arr;
  release_if u RUevArr;;
  modify (set_mk_uev_arr false).

Definition prepare_base_components (num_workers : Z) : M making Z :=
  ok ← obtain REpollFd;
  modify (set_mk_epoll_fd ok);;
  if negb ok then mret (-1)
  else
    efd ← (fun b => let r := k_eventfd (mk_kern b) in Some (r.1, set_mk_kern r.2 b));
    modify (set_mk_wakeup_fd efd);;
    if efd =? -1 then mret (-1)
    else
      modify (fun b => hold (REventFd :: held b) b);;
      ok ← obtain REventsArr;
      modify (set_mk_events ok);;
      if negb ok then mret (-1)
      else
        ok ← create_heap;
        modify (set_mk_timer_heap ok);;
        if negb ok then mret (-1)
        else
          rc ← uev_slots_init;
          if negb (rc =? 0) then mret (-1)
          else
            ok ← obtain RMutex;
            if negb ok then mret (-1)
            else
              ok ← obtain RCond;
              if negb ok then mret (-1)
              else if 0 <? num_workers then
                w ← uevent_worker_pool_create num_workers;
                modify (set_mk_worker_pool w);;
                match w with None => mret (-1) | Some _ => mret 0 end
              else mret 0.

Definition cleanup_base_components : M making unit :=
  w ← gets mk_worker_pool;
  release_if (bool_decide (is_Some w)) RWorkerPool;;
  modify (set_mk_worker_pool None);;
  modify (fun b => hold (filter (fun r => r <> RCond) (held b)) b);;
  modify (fun b => hold (filter (fun r => r <> RMutex) (held b)) b);;
  uev_slots_deinit;;
  t ← gets mk_timer_heap;
  (if (t : bool) then free_heap else mret tt);;
  e ← gets mk_events;
  release_if e REventsArr;;
  fd ← gets mk_wakeup_fd;
  release_if (negb (fd =? -1)) REventFd;;
  ep ← gets mk_epoll_fd;
  release_if ep REpollFd.

(** The base once its components are there: [init_base_defaults],
    [init_base_atomics] and the arrays. *)
Definition bare_base (max_events : Z) (workers : option uevent_worker_pool_t) (k : K) : ust :=
  USt (replicate (Z.to_nat max_events) (Uev None 0)) (seqZ 0 max_events) max_events
    {[wakeup_event := wakeup_template]}
    (MinHeap.St (MinHeap.mh_create true true max_events) {[wakeup_event := MinHeap.Node 0 0]})
    0 0 false false true workers k.

(** The wake-up event is created and added; [false] when it is refused. *)
Definition start_wakeup_event (efd : Z) : M ust bool :=
  uev' ← uevent_create_or_assign_event (Some wakeup_event) true efd
           (Z.lor UEV_READ UEV_PERSIST) (Some CbWakeup) 0;
  match uev' with
  | None => mret false
  | Some i => uevent_add (Some i) 0;; mret true
  end.

(** The same, while the base is being made. *)
Definition start_base (max_events : Z) : M making (bool * ust) := fun b =>
  match start_wakeup_event (mk_wakeup_fd b) (bare_base max_events (mk_worker_pool b) (mk_kern b)) with
  | Some (ok, s) => Some ((ok, s), set_mk_kern (kern s) b)
  | None => None
  end.

(** The new base, or null, and what is held afterwards. *)
Definition make_base (max_events num_workers : Z) : M making (option ust) :=
  if (max_events <=? 0) || (num_workers <? 0) then mret None
  else
    ok ← obtain RBase;
    if negb ok then mret None
    else
      rc ← prepare_base_components num_workers;
      if negb (rc =? 0) then cleanup_base_components;; release RBase;; mret None
      else
        r ← start_base max_events;
        if negb r.1 then cleanup_base_components;; release RBase;; mret None
        else mret (Some r.2).

Definition nothing_made (k : K) : making := Making [] false (-1) false false false false None k.

(** The new base, or null, and the outside world; [None] is undefined
    behaviour. *)
Definition uevent_base_new_with_workers (max_events num_workers : Z) (k : K) : option (option ust * K) :=
  match make_base max_events num_workers (nothing_made k) with
  | Some (o, b) => Some (o, mk_kern b)
  | None => None
  end.

Definition UEVENT_DEFAULT_WORKERS_NUM : Z := 6.

Definition uevent_base_new (max_events : Z) (k : K) : option (option ust * K) :=
  uevent_base_new_with_workers max_events UEVENT_DEFAULT_WORKERS_NUM k.

End uevent.

End Uevent.
