(* ===== verification/UeventInv.v ===== *)
(** * uevent: the reference-counting invariant

    [INV g iw s]: the slots, the events, the timer heap and the counters of the
    base [s] agree, where [g i] is the number of references to slot [i] held by
    calls in progress or by the user, and [iw] is the slot of the wake-up event.
    The count of every slot is the sum of its owners. *)

From S2P Require Import Prelude.
From S2P Require Import MinHeap.
From S2P Require Import MinHeapInv.
From S2P Require Import MinHeapOps.
From S2P Require Import MinHeapSpec.
From S2P Require Import Uevent.
Import MinHeap (mst, mh, nodes, capacity, minheap_t, minheap_node_t).
Import Uevent.

Definition b2z (b : bool) : Z := if b then 1 else 0.

Lemma b2z_range b : 0 <= b2z b <= 1.
Proof. destruct b; simpl; lia. Qed.

(** ** References *)

(** References held outside the base, per slot. *)
Definition gadd (g : Z -> Z) (i : Z) : Z -> Z := fun j => if decide (j = i) then g j + 1 else g j.
Definition gsub (g : Z -> Z) (i : Z) : Z -> Z := fun j => if decide (j = i) then g j - 1 else g j.

Lemma gadd_eq g i : gadd g i i = g i + 1.
Proof. unfold gadd. by rewrite decide_True. Qed.
Lemma gadd_ne g i j : j <> i -> gadd g i j = g j.
Proof. intros. unfold gadd. by rewrite decide_False. Qed.
Lemma gsub_eq g i : gsub g i i = g i - 1.
Proof. unfold gsub. by rewrite decide_True. Qed.
Lemma gsub_ne g i j : j <> i -> gsub g i j = g j.
Proof. intros. unfold gsub. by rewrite decide_False. Qed.
Lemma gsub_gadd g i j : gsub (gadd g i) i j = g j.
Proof. unfold gadd, gsub. case_decide; lia. Qed.

(** At most [n] references are held on each slot. *)
Definition few (g : Z -> Z) (n : Z) : Prop := forall i, 0 <= g i <= n.

Lemma few_gadd g i n m : few g n -> n + 1 <= m -> few (gadd g i) m.
Proof. intros F L j. specialize (F j). unfold gadd. case_decide; lia. Qed.

Lemma few_le g n m : few g n -> n <= m -> few g m.
Proof. intros F L j. specialize (F j). lia. Qed.

(** References the event itself accounts for: its creation, its registration
    with epoll and its place in the timer heap. *)
Definition own (e : loc) (E : uevent_t) : Z :=
  b2z (negb (pending_free E)) +
  b2z (active_fd E && negb (bool_decide (e = wakeup_event))) +
  b2z (active_timer E).

Lemma own_range e E : 0 <= own e E <= 3.
Proof.
  unfold own. pose proof (b2z_range (negb (pending_free E))).
  pose proof (b2z_range (active_fd E && negb (bool_decide (e = wakeup_event)))).
  pose proof (b2z_range (active_timer E)). lia.
Qed.

(** Tasks queued for slot [i]. *)
Definition tasks_of (i : Z) (p : option uevent_worker_pool_t) : Z :=
  match p with
  | None => 0
  | Some p => zlen (filter (fun t => task_uev t = i) (task_queue p))
  end.

Lemma tasks_nonneg i p : 0 <= tasks_of i p.
Proof. destruct p; unfold tasks_of; [apply zlen_nonneg|done]. Qed.

Lemma tasks_snoc i p p' t :
  task_queue p' = task_queue p ++ [t] ->
  tasks_of i (Some p') = tasks_of i (Some p) + b2z (bool_decide (task_uev t = i)).
Proof.
  intros Hq. unfold tasks_of, zlen. rewrite Hq, filter_app, length_app. unfold filter at 2. simpl.
  case_decide; case_bool_decide; try done; simpl; lia.
Qed.

Lemma tasks_cons i p p' t :
  task_queue p = t :: task_queue p' ->
  tasks_of i (Some p) = tasks_of i (Some p') + b2z (bool_decide (task_uev t = i)).
Proof.
  intros Hq. unfold tasks_of, zlen. rewrite Hq. rewrite filter_cons.
  case_decide; case_bool_decide; try done; simpl; lia.
Qed.

Arguments tasks_of : simpl never.

(** Events registered with epoll, the wake-up event aside. *)
Definition fd_active (p : loc * uevent_t) : Prop := active_fd p.2 = true /\ p.1 <> wakeup_event.

#[export] Instance fd_active_dec p : Decision (fd_active p).
Proof. unfold fd_active. apply _. Defined.

Definition nfd_of (m : gmap loc uevent_t) : Z := Z.of_nat (size (filter fd_active m)).

Definition fd_count (e : loc) (E : uevent_t) : Z :=
  b2z (active_fd E && negb (bool_decide (e = wakeup_event))).

Lemma fd_count_decide e E : fd_count e E = if decide (fd_active (e, E)) then 1 else 0.
Proof.
  unfold fd_count. destruct (decide (fd_active (e, E))) as [[H1 H2]|H]; simpl in *.
  - rewrite H1, bool_decide_false by done. done.
  - unfold fd_active in H. simpl in H. destruct (active_fd E); [|done]. simpl.
    case_bool_decide; [done|]. tauto.
Qed.

Lemma nfd_of_insert m e E : nfd_of (<[e := E]> m) = nfd_of (delete e m) + fd_count e E.
Proof.
  unfold nfd_of. rewrite fd_count_decide. rewrite <- insert_delete_eq.
  destruct (decide (fd_active (e, E))) as [H|H].
  - rewrite map_filter_insert_True by done. rewrite map_size_insert_None; [lia|].
    apply map_lookup_filter_None_2. left. apply lookup_delete_eq.
  - rewrite map_filter_insert_False by done. rewrite delete_delete_eq. lia.
Qed.

Lemma nfd_of_lookup m e E : m !! e = Some E -> nfd_of m = nfd_of (delete e m) + fd_count e E.
Proof. intros H. by rewrite <- nfd_of_insert, insert_id. Qed.

Lemma nfd_of_nonneg m : 0 <= nfd_of m.
Proof. unfold nfd_of. lia. Qed.

Section inv.
Context {K : Type} {Kern : Kernel K}.
Implicit Types (s : @ust K) (g : Z -> Z) (E : uevent_t) (e : loc) (i : Z).

(** What a slot that refers to the event [e] satisfies. *)
Definition slot_used g s i u e : Prop :=
  exists E, evs s !! e = Some E /\ uev E = Some i /\ base E = true /\
    cb_wrapper E = Some UserCbWrapper /\
    refcount u = own e E + tasks_of i (pool s) + g i /\ 0 < refcount u /\
    tasks_of i (pool s) <= 1 /\ (is_in_worker_pool E = false -> tasks_of i (pool s) = 0).

Definition slot_free g s i u : Prop :=
  refcount u = 0 /\ g i = 0 /\ tasks_of i (pool s) = 0.

Definition free_list s : list Z := take (Z.to_nat (free_uev_arr_cnt s)) (free_uev_arr s).

(** The counter of the pool's queue is right and its tasks refer to slots. *)
Definition pool_wf (n : Z) (p : option uevent_worker_pool_t) : Prop :=
  forall q, p = Some q -> queue_size q = zlen (task_queue q) /\
    Forall (fun t => 0 <= task_uev t < n) (task_queue q).

Record INV g iw s : Prop := {
  i_heap : exists h, mh (timers s) = Some h /\ heap_ok h (nodes (timers s)) /\
    capacity h = zlen (slots s);
  i_small : zlen (slots s) < 2 ^ 16;
  i_flen : zlen (free_uev_arr s) = zlen (slots s);
  i_cnt : 0 <= free_uev_arr_cnt s <= zlen (slots s);
  i_nodup : NoDup (free_list s);
  i_free : forall i, i ∈ free_list s <-> exists u, znth (slots s) i = Some u /\ ev u = None;
  i_used : forall i u e, znth (slots s) i = Some u -> ev u = Some e -> slot_used g s i u e;
  i_unused : forall i u, znth (slots s) i = Some u -> ev u = None -> slot_free g s i u;
  i_back : forall e E i, evs s !! e = Some E -> uev E = Some i ->
    exists u, znth (slots s) i = Some u /\ ev u = Some e;
  i_idle : forall e E, evs s !! e = Some E -> uev E = None ->
    active_fd E = false /\ active_timer E = false;
  i_timer : forall e, is_Some (pq (nodes (timers s)) !! e) <->
    exists E, evs s !! e = Some E /\ active_timer E = true;
  i_nodes : forall e, is_Some (evs s !! e) -> is_Some (nodes (timers s) !! e);
  i_ntm : num_active_timers s = Z.of_nat (size (pq (nodes (timers s))));
  i_nfd : num_active_fd s = nfd_of (evs s);
  i_wake : exists W, evs s !! wakeup_event = Some W /\ uev W = Some iw /\
    active_timer W = false /\ pending_free W = false /\ has (events W) UEV_TIMEOUT = false /\
    has (events W) UEV_PERSIST = true;
  i_pool : pool_wf (zlen (slots s)) (pool s)
}.

(** The invariant depends on [g] only through its values. *)
#[export] Instance INV_proper : Proper (pointwise_relation Z eq ==> eq ==> eq ==> iff) INV.
Proof.
  assert (forall g g' iw s, (forall i, g i = g' i) -> INV g iw s -> INV g' iw s) as H.
  { intros g g' iw s E []. constructor; try done.
    - intros i u e H1 H2. destruct (i_used0 i u e H1 H2) as (E' & H). exists E'.
      by rewrite <- E.
    - intros i u H1 H2. destruct (i_unused0 i u H1 H2) as (? & ? & ?). split_and!; try done.
      by rewrite <- E. }
  intros g g' E iw ? <- s ? <-. split; apply H; [done|]. intros i. by rewrite E.
Qed.

(** The invariant does not see the clock, the flags and the outside world. *)
Lemma INV_frame g iw s s' :
  INV g iw s -> slots s' = slots s -> free_uev_arr s' = free_uev_arr s ->
  free_uev_arr_cnt s' = free_uev_arr_cnt s -> evs s' = evs s -> timers s' = timers s ->
  num_active_fd s' = num_active_fd s -> num_active_timers s' = num_active_timers s ->
  pool s' = pool s -> INV g iw s'.
Proof.
  intros [] E1 E2 E3 E4 E5 E6 E7 E8.
  constructor; unfold free_list, slot_used, slot_free in *; rewrite ?E1, ?E2, ?E3, ?E4, ?E5, ?E6, ?E7, ?E8; done.
Qed.

(** Slots of live events, and the event of a slot. *)
Lemma INV_slot_event g iw s i u e :
  INV g iw s -> znth (slots s) i = Some u -> ev u = Some e ->
  exists E, evs s !! e = Some E /\ uev E = Some i /\ base E = true /\
    cb_wrapper E = Some UserCbWrapper /\
    refcount u = own e E + tasks_of i (pool s) + g i /\ 0 < refcount u /\
    tasks_of i (pool s) <= 1 /\ (is_in_worker_pool E = false -> tasks_of i (pool s) = 0).
Proof. intros I. apply (i_used _ _ _ I). Qed.

Lemma INV_slot_total g iw s i :
  INV g iw s -> 0 <= i < zlen (slots s) -> exists u, znth (slots s) i = Some u.
Proof. intros. by apply znth_is_Some. Qed.

(** A held reference keeps its slot in use. *)
Lemma INV_held g iw s i u :
  INV g iw s -> 0 < g i -> znth (slots s) i = Some u -> exists e, ev u = Some e.
Proof.
  intros I Hg Hu. destruct (ev u) as [e|] eqn:Ee; [eauto|].
  destruct (i_unused _ _ _ I i u Hu Ee) as (_ & E & _). lia.
Qed.

(** Distinct live events other than the wake-up event are fewer than the slots. *)
Lemma INV_count g iw s (l : list loc) :
  INV g iw s -> NoDup l ->
  (forall e, e ∈ l -> e <> wakeup_event /\ exists E i, evs s !! e = Some E /\ uev E = Some i) ->
  zlen l < zlen (slots s).
Proof.
  intros I Hl He. set (f e := default 0 (E ← evs s !! e; uev E)).
  destruct (i_wake _ _ _ I) as (W & HW & HiW & _).
  assert (forall e E i, evs s !! e = Some E -> uev E = Some i -> f e = i) as Hf.
  { intros e E i H1 H2. unfold f. rewrite H1. simpl. by rewrite H2. }
  assert (NoDup (iw :: (f <$> l))) as HN.
  { constructor.
    - intros (e & -> & H)%list_elem_of_fmap. destruct (He e H) as (Hne & E & i & H1 & H2).
      rewrite (Hf _ _ _ H1 H2) in *.
      destruct (i_back _ _ _ I _ _ _ HW HiW) as (u & U1 & U2).
      destruct (i_back _ _ _ I _ _ _ H1 H2) as (u' & U1' & U2'). congruence.
    - apply NoDup_fmap_2_strong; [|done]. intros e1 e2 H1 H2 Heq.
      destruct (He e1 H1) as (_ & E1 & i1 & A1 & A2), (He e2 H2) as (_ & E2 & i2 & B1 & B2).
      rewrite (Hf _ _ _ A1 A2), (Hf _ _ _ B1 B2) in Heq. subst i2.
      destruct (i_back _ _ _ I _ _ _ A1 A2) as (u & U1 & U2).
      destruct (i_back _ _ _ I _ _ _ B1 B2) as (u' & U1' & U2'). congruence. }
  assert (forall e E i, evs s !! e = Some E -> uev E = Some i -> i ∈ seqZ 0 (zlen (slots s))) as Hr.
  { intros e E i H1 H2. destruct (i_back _ _ _ I _ _ _ H1 H2) as (u & U1 & _).
    apply elem_of_seqZ. apply znth_Some_range in U1. lia. }
  assert (iw :: (f <$> l) ⊆+ seqZ 0 (zlen (slots s))) as Hsub.
  { apply NoDup_submseteq; [done|]. intros x [->|(e & -> & H)%list_elem_of_fmap]%elem_of_cons.
    - by eapply Hr.
    - destruct (He e H) as (_ & E & i & H1 & H2). rewrite (Hf _ _ _ H1 H2). by eapply Hr. }
  apply submseteq_length in Hsub. rewrite length_cons, length_fmap, length_seqZ in Hsub.
  unfold zlen in *. lia.
Qed.

(** The timer heap always has room for one more timer. *)
Lemma INV_timers_room g iw s :
  INV g iw s -> Z.of_nat (size (pq (nodes (timers s)))) < zlen (slots s).
Proof.
  intros I. rewrite <- size_dom. unfold size, set_size. simpl.
  apply (INV_count g iw s (elements (dom (pq (nodes (timers s))))) I); [apply NoDup_elements|].
  intros e He%elem_of_elements%elem_of_dom%(i_timer _ _ _ I). destruct He as (E & H1 & H2).
  destruct (i_wake _ _ _ I) as (W & W1 & W2 & W3 & _). split; [congruence|].
  destruct (uev E) as [i|] eqn:Eu; [eauto|].
  destruct (i_idle _ _ _ I e E H1 Eu). congruence.
Qed.

Lemma INV_fd_room g iw s : INV g iw s -> nfd_of (evs s) < zlen (slots s).
Proof.
  intros I. unfold nfd_of. rewrite <- size_dom. unfold size, set_size. simpl.
  apply (INV_count g iw s (elements (dom (filter fd_active (evs s)))) I); [apply NoDup_elements|].
  intros e [E [H1 [H2 H3]]%map_lookup_filter_Some]%elem_of_elements%elem_of_dom.
  simpl in *. split; [done|]. destruct (uev E) as [i|] eqn:Eu; [eauto|].
  destruct (i_idle _ _ _ I e E H1 Eu). congruence.
Qed.

(** The refcount fits its type. *)
Lemma INV_refcount g iw s i u :
  INV g iw s -> few g (2 ^ 20) -> znth (slots s) i = Some u -> 0 <= refcount u < 2 ^ 21.
Proof.
  intros I F Hu. destruct (ev u) as [e|] eqn:Ee.
  - destruct (i_used _ _ _ I i u e Hu Ee) as (E & _ & _ & _ & _ & R & P & T & _).
    pose proof (own_range e E). specialize (F i). lia.
  - destruct (i_unused _ _ _ I i u Hu Ee) as (R & _). lia.
Qed.

(** ** Elementary transitions *)

(** The timer heap after a change that concerns at most the event [e]: the heap
    is sound, no other timer comes or goes, and [e] is a timer iff [act]. *)
Definition heap_step s (tm : mst) (e : loc) (act : bool) : Prop :=
  exists h', mh tm = Some h' /\ heap_ok h' (nodes tm) /\ capacity h' = zlen (slots s) /\
    dom (nodes (timers s)) ⊆ dom (nodes tm) /\
    (forall x, x <> e -> is_Some (pq (nodes tm) !! x) <-> is_Some (pq (nodes (timers s)) !! x)) /\
    (is_Some (pq (nodes tm) !! e) <-> act = true).

Lemma heap_step_refl g iw s e E :
  INV g iw s -> evs s !! e = Some E -> heap_step s (timers s) e (active_timer E).
Proof.
  intros I He. destruct (i_heap _ _ _ I) as (h & H1 & H2 & H3). exists h.
  split_and!; try done. rewrite (i_timer _ _ _ I). naive_solver.
Qed.

(** Fields of an event that a call may change while the slot stays in use. *)
Definition same_identity (E E' : uevent_t) : Prop :=
  uev E' = uev E /\ base E' = base E /\ cb_wrapper E' = cb_wrapper E /\ events E' = events E.

(** What the pool's queue may do in a call that concerns slot [i]. *)
Definition pool_step (n : Z) (p p' : option uevent_worker_pool_t) i E' : Prop :=
  pool_wf n p' /\
  (forall j, j <> i -> tasks_of j p' = tasks_of j p) /\ tasks_of i p' <= 1 /\
  (is_in_worker_pool E' = false -> tasks_of i p' = 0).

Lemma pool_step_refl g iw s i u e E E' :
  INV g iw s -> znth (slots s) i = Some u -> ev u = Some e -> evs s !! e = Some E ->
  is_in_worker_pool E' = is_in_worker_pool E -> pool_step (zlen (slots s)) (pool s) (pool s) i E'.
Proof.
  intros I Hu Hue He Hw.
  destruct (i_used _ _ _ I i u e Hu Hue) as (E0 & F1 & _ & _ & _ & _ & _ & F7 & F8).
  unfold pool_step. rewrite Hw. pose proof (i_pool _ _ _ I). naive_solver.
Qed.

(** The whole effect of a call on the event [e] of the slot [i]. *)
Lemma INV_event g g' iw s s' i u e E E' r' :
  INV g iw s -> znth (slots s) i = Some u -> ev u = Some e -> evs s !! e = Some E ->
  same_identity E E' ->
  heap_step s (timers s') e (active_timer E') ->
  pool_step (zlen (slots s)) (pool s) (pool s') i E' ->
  r' = own e E' + tasks_of i (pool s') + g' i -> 0 < r' ->
  (forall j, j <> i -> g' j = g j) ->
  (e = wakeup_event -> active_timer E' = false /\ pending_free E' = false) ->
  slots s' = zset (slots s) i (Uev (Some e) r') ->
  evs s' = <[e := E']> (evs s) ->
  free_uev_arr s' = free_uev_arr s -> free_uev_arr_cnt s' = free_uev_arr_cnt s ->
  num_active_fd s' = num_active_fd s + fd_count e E' - fd_count e E ->
  num_active_timers s' = Z.of_nat (size (pq (nodes (timers s')))) ->
  INV g' iw s'.
Proof.
  intros I Hu Hue He (D1 & D2 & D3 & D4) (h' & P1 & P2 & P3 & P4 & P5 & P6) (T0 & T1 & T2 & T3) Hr Hr0 Hg Hw
    S1 S2 S3 S4 S5 S6.
  pose proof (znth_Some_range _ _ _ Hu) as Hi.
  destruct (i_used _ _ _ I i u e Hu Hue) as (E0 & F1 & F2 & F3 & F4 & F5 & F6 & F7 & F8).
  rewrite He in F1. injection F1 as <-.
  assert (forall j, znth (slots s') j = if decide (j = i) then Some (Uev (Some e) r') else znth (slots s) j) as Hz.
  { intros j. rewrite S1. case_decide; subst; [by apply znth_zset_eq|by rewrite znth_zset_ne]. }
  assert (forall x, evs s' !! x = if decide (x = e) then Some E' else evs s !! x) as Hx.
  { intros x. rewrite S2. case_decide; subst; [by rewrite lookup_insert_eq|by rewrite lookup_insert_ne]. }
  assert (forall j u' e', znth (slots s) j = Some u' -> ev u' = Some e' -> j <> i -> e' <> e) as Hinj.
  { intros j u' e' A1 A2 A3 ->. destruct (i_used _ _ _ I j u' e A1 A2) as (E1 & B1 & B2 & _). congruence. }
  constructor; unfold free_list in *; rewrite ?S1, ?S3, ?S4, ?zlen_zset; try apply I.
  - exists h'. split_and!; done.
  - intros j. rewrite <- S1. rewrite (i_free _ _ _ I j). rewrite Hz. case_decide; subst; [|done].
    split; [|naive_solver]. intros (u' & A1 & A2). congruence.
  - intros j u' e'. rewrite <- S1, Hz. unfold slot_used. case_decide as Hj; subst.
    + intros [= <-] [= <-]. exists E'. rewrite Hx, decide_True by done. simpl.
      rewrite D1, D2, D3. split_and!; done.
    + intros A1 A2. destruct (i_used _ _ _ I j u' e' A1 A2) as (E1 & B1 & B2).
      exists E1. rewrite Hx, decide_False by (by eapply Hinj). rewrite Hg, T1 by done. done.
  - intros j u'. rewrite <- S1, Hz. unfold slot_free. case_decide as Hj; subst.
    + by intros [= <-].
    + intros A1 A2. rewrite Hg, T1 by done. by apply (i_unused _ _ _ I).
  - intros e' E1 j. rewrite <- S1, Hx, Hz. case_decide; subst.
    + intros [= <-] A. rewrite D1, F2 in A. injection A as <-. rewrite decide_True by done. eauto.
    + intros A1 A2. destruct (i_back _ _ _ I _ _ _ A1 A2) as (u' & B1 & B2).
      rewrite decide_False; [eauto|]. intros ->. congruence.
  - intros e' E1. rewrite Hx. case_decide; subst; [|apply I].
    intros [= <-] A. rewrite D1, F2 in A. done.
  - intros x. destruct (decide (x = e)) as [->|Hne].
    + rewrite P6. rewrite Hx, decide_True by done. naive_solver.
    + rewrite P5 by done. rewrite (i_timer _ _ _ I). rewrite Hx, decide_False by done. done.
  - intros x Hxx. assert (is_Some (evs s !! x)) as Hs.
    { rewrite Hx in Hxx. case_decide; subst; eauto. }
    apply (i_nodes _ _ _ I) in Hs. rewrite <- !elem_of_dom in *. set_solver.
  - done.
  - rewrite S5, S2, (i_nfd _ _ _ I), nfd_of_insert, (nfd_of_lookup _ _ _ He). lia.
  - destruct (i_wake _ _ _ I) as (W & W1 & W2 & W3 & W4 & W5 & W6). rewrite Hx. case_decide as Hwe.
    + exists E'. subst e. rewrite He in W1. injection W1 as ->. rewrite D1, D4. naive_solver.
    + exists W. done.
  - done.
Qed.

End inv.
