(* ===== verification/UeventSteps.v ===== *)
(** * uevent: taking and releasing slots, and the elementary rules

    Continues [UeventInv]: how [INV] changes when a slot is released or taken,
    what a call guarantees about the slots on which references are held
    ([keep]), and the rules for the memory accesses and the system calls of
    [src/uevent/uevent.c]. *)

From S2P Require Import Prelude.
From S2P Require Import MinHeap.
From S2P Require Import MinHeapInv.
From S2P Require Import MinHeapOps.
From S2P Require Import MinHeapSpec.
From S2P Require Import Uevent.
From S2P Require Import UeventInv.
Import MinHeap (mst, mh, nodes, capacity, minheap_t, minheap_node_t).
Import Uevent.

(** ** Counting events *)

Lemma nfd_of_outside m m' e :
  (forall x, x <> e -> m' !! x = m !! x) ->
  (forall E, m !! e = Some E -> fd_count e E = 0) ->
  (forall E, m' !! e = Some E -> fd_count e E = 0) -> nfd_of m' = nfd_of m.
Proof.
  intros Hx H0 H1.
  assert (forall m, (forall E, m !! e = Some E -> fd_count e E = 0) -> nfd_of m = nfd_of (delete e m)) as Hd.
  { intros n Hn. destruct (n !! e) as [E|] eqn:He.
    - rewrite (nfd_of_lookup _ _ _ He), (Hn E) by done. lia.
    - by rewrite delete_id. }
  rewrite (Hd m), (Hd m') by done. f_equal. apply map_eq. intros x.
  destruct (decide (x = e)) as [->|]; [by rewrite !lookup_delete_eq|].
  rewrite !lookup_delete_ne; auto.
Qed.

(** ** The stack of free slots *)

Lemma take_snoc_zset {A} (l : list A) c x :
  0 <= c < zlen l -> take (Z.to_nat (c + 1)) (zset l c x) = take (Z.to_nat c) l ++ [x].
Proof.
  unfold zlen, zset. intros Hc. destruct (Z.ltb_spec c 0); [lia|].
  replace (Z.to_nat (c + 1)) with (S (Z.to_nat c)) by lia.
  rewrite (take_S_r _ _ x).
  - by rewrite take_insert_ge.
  - apply list_lookup_insert_eq. lia.
Qed.

Lemma take_snoc_znth {A} (l : list A) c x :
  0 < c -> znth l (c - 1) = Some x -> take (Z.to_nat c) l = take (Z.to_nat (c - 1)) l ++ [x].
Proof.
  unfold znth. intros Hc. destruct (Z.ltb_spec (c - 1) 0); [done|]. intros Hx.
  replace (Z.to_nat c) with (S (Z.to_nat (c - 1))) by lia. by apply take_S_r.
Qed.

Lemma znth_zset {A} (l : list A) i j x :
  0 <= i < zlen l -> znth (zset l i x) j = if decide (j = i) then Some x else znth l j.
Proof. intros. case_decide; subst; [by apply znth_zset_eq|by apply znth_zset_ne]. Qed.

Section steps.
Context {K : Type} {Kern : Kernel K}.
Implicit Types (s : @ust K) (g : Z -> Z) (E : uevent_t) (e : loc) (i : Z).

Lemma own_zero e E : own e E = 0 ->
  pending_free E = true /\ fd_count e E = 0 /\ active_timer E = false.
Proof.
  unfold own, fd_count. destruct (pending_free E), (active_timer E),
    (active_fd E && negb (bool_decide (e = wakeup_event))); simpl; lia || done.
Qed.

(** Two slots never share an event. *)
Lemma INV_inj g iw s i j u u' e :
  INV g iw s -> znth (slots s) i = Some u -> ev u = Some e ->
  znth (slots s) j = Some u' -> ev u' = Some e -> i = j.
Proof.
  intros I A1 A2 B1 B2. destruct (i_used _ _ _ I _ _ _ A1 A2) as (E & C1 & C2 & _).
  destruct (i_used _ _ _ I _ _ _ B1 B2) as (E' & D1 & D2 & _). congruence.
Qed.

(** Room on the stack of free slots while some slot is in use. *)
Lemma INV_free_room g iw s i u e :
  INV g iw s -> znth (slots s) i = Some u -> ev u = Some e ->
  free_uev_arr_cnt s < zlen (slots s) /\ i ∉ free_list s.
Proof.
  intros I Hu He. assert (i ∉ free_list s) as Hni.
  { rewrite (i_free _ _ _ I i). intros (u' & A1 & A2). congruence. }
  split; [|done]. pose proof (i_cnt _ _ _ I). pose proof (i_flen _ _ _ I) as Hl.
  assert (i :: free_list s ⊆+ seqZ 0 (zlen (slots s))) as Hsub.
  { apply NoDup_submseteq; [constructor; [done|apply I]|].
    intros x Hx. apply elem_of_seqZ. apply elem_of_cons in Hx as [->|Hx].
    - apply znth_Some_range in Hu. lia.
    - apply (i_free _ _ _ I) in Hx as (u' & A1 & _). apply znth_Some_range in A1. lia. }
  apply submseteq_length in Hsub. rewrite length_cons, length_seqZ in Hsub.
  unfold free_list in Hsub. rewrite length_take in Hsub. unfold zlen in *. lia.
Qed.

(** *** The queue of the worker pool *)

Lemma NoDup_tasks (q : list uevent_task_t) :
  (forall i, zlen (filter (fun t => task_uev t = i) q) <= 1) -> NoDup (task_uev <$> q).
Proof.
  induction q as [|t q IH]; intros H; [constructor|]. rewrite fmap_cons. constructor.
  - intros (t' & Ht & Hin)%list_elem_of_fmap. specialize (H (task_uev t)).
    rewrite filter_cons_True in H by done. unfold zlen in H. rewrite length_cons in H.
    assert (t' ∈ filter (fun t0 => task_uev t0 = task_uev t) q) as Hf by by apply list_elem_of_filter.
    destruct (filter _ q); [by apply not_elem_of_nil in Hf|]. simpl in H. lia.
  - apply IH. intros i. specialize (H i). rewrite filter_cons in H. unfold zlen in *.
    case_decide; simpl in H; lia.
Qed.

(** An event waits at most once in the queue, so the queue is no longer than the
    array of slots. *)
Lemma INV_queue g iw s q :
  INV g iw s -> pool s = Some q ->
  queue_size q = zlen (task_queue q) /\ zlen (task_queue q) <= zlen (slots s) /\
  NoDup (task_uev <$> task_queue q).
Proof.
  intros I Hq. destruct (i_pool _ _ _ I q Hq) as [Hsz Hall].
  assert (NoDup (task_uev <$> task_queue q)) as HN.
  { apply NoDup_tasks. intros i.
    change (zlen _) with (tasks_of i (Some q)). rewrite <- Hq.
    destruct (decide (0 <= i < zlen (slots s))) as [Hi|Hi].
    - destruct (znth_is_Some _ _ Hi) as [u Hu]. destruct (ev u) as [e|] eqn:He.
      + destruct (i_used _ _ _ I _ _ _ Hu He) as (E & _ & _ & _ & _ & _ & _ & ? & _). done.
      + destruct (i_unused _ _ _ I _ _ Hu He) as (_ & _ & ?). lia.
    - rewrite Hq. unfold tasks_of, zlen. destruct (filter _ _) as [|t l] eqn:Hf; [done|].
      assert (t ∈ filter (fun t => task_uev t = i) (task_queue q)) as Ht by (rewrite Hf; set_solver).
      apply list_elem_of_filter in Ht as [<- Ht]. rewrite Forall_forall in Hall.
      by destruct Hi; apply Hall. }
  split_and!; [done| |done].
  assert (task_uev <$> task_queue q ⊆+ seqZ 0 (zlen (slots s))) as Hsub.
  { apply NoDup_submseteq; [done|]. intros i (t & -> & Ht)%list_elem_of_fmap.
    apply elem_of_seqZ. rewrite Forall_forall in Hall. apply Hall in Ht. lia. }
  apply submseteq_length in Hsub. rewrite length_fmap, length_seqZ in Hsub. unfold zlen in *. lia.
Qed.

(** *** Releasing a slot *)

Lemma INV_release g g' iw s s' i u e E :
  INV g iw s -> znth (slots s) i = Some u -> ev u = Some e -> evs s !! e = Some E ->
  own e E + tasks_of i (pool s) + g' i = 0 -> 0 <= g' i ->
  (forall j, j <> i -> g' j = g j) ->
  slots s' = zset (slots s) i (Uev None 0) ->
  free_uev_arr s' = zset (free_uev_arr s) (free_uev_arr_cnt s) i ->
  free_uev_arr_cnt s' = free_uev_arr_cnt s + 1 ->
  (forall x, x <> e -> evs s' !! x = evs s !! x) ->
  (forall R, evs s' !! e = Some R -> uev R = None /\ active_fd R = false /\ active_timer R = false) ->
  mh (timers s') = mh (timers s) ->
  (forall x, x <> e -> nodes (timers s') !! x = nodes (timers s) !! x) ->
  (is_Some (evs s' !! e) -> is_Some (nodes (timers s') !! e)) ->
  pq (nodes (timers s')) !! e = None ->
  num_active_fd s' = num_active_fd s -> num_active_timers s' = num_active_timers s ->
  pool s' = pool s -> INV g' iw s'.
Proof.
  intros I Hu Hue He H0 Hg0 Hg S1 S2 S3 S4 S5 S6 S7 S8 S9 S10 S11 S12.
  pose proof (own_range e E). pose proof (tasks_nonneg i (pool s)).
  assert (own e E = 0) as (P1 & P2 & P3)%own_zero by lia.
  assert (tasks_of i (pool s) = 0) as Ht by lia.
  destruct (INV_free_room _ _ _ _ _ _ I Hu Hue) as [Hroom Hni].
  pose proof (znth_Some_range _ _ _ Hu) as Hi.
  pose proof (i_cnt _ _ _ I) as Hc. pose proof (i_flen _ _ _ I) as Hl.
  assert (pq (nodes (timers s)) !! e = None) as Hpe.
  { apply eq_None_not_Some. rewrite (i_timer _ _ _ I). intros (E' & A1 & A2). congruence. }
  destruct (i_heap _ _ _ I) as (h & G1 & G2 & G3).
  destruct (heap_ok_outside h (nodes (timers s)) (nodes (timers s')) e) as [Ok Hpq]; try done.
  assert (free_list s' = free_list s ++ [i]) as Hfl.
  { unfold free_list. rewrite S2, S3. apply take_snoc_zset. lia. }
  assert (forall j, znth (slots s') j = if decide (j = i) then Some (Uev None 0) else znth (slots s) j) as Hz.
  { intros j. rewrite S1. by apply znth_zset. }
  constructor; rewrite ?S1, ?S2, ?S3, ?zlen_zset, ?Hpq, ?S10, ?S11, ?S12; try apply I; try lia.
  - exists h. split_and!; congruence || done.
  - rewrite Hfl. apply NoDup_app. split_and!; [apply I| |apply NoDup_singleton].
    intros x Hx ->%list_elem_of_singleton. done.
  - intros j. rewrite <- S1, Hfl, elem_of_app, list_elem_of_singleton, Hz. case_decide; subst.
    + split; [|tauto]. intros _. eexists. split; [done|]. done.
    + rewrite (i_free _ _ _ I j). tauto.
  - intros j u' e'. rewrite <- S1, Hz. unfold slot_used. rewrite S12. case_decide as Hj; subst.
    + by intros [= <-].
    + intros A1 A2. destruct (i_used _ _ _ I j u' e' A1 A2) as (E1 & B1 & B2).
      exists E1. rewrite S4, Hg by (try done; intros ->; apply Hj; by eapply (INV_inj g)). done.
  - intros j u'. rewrite <- S1, Hz. unfold slot_free. rewrite S12. case_decide as Hj; subst.
    + intros [= <-] _. simpl. lia.
    + rewrite Hg by done. apply (i_unused _ _ _ I).
  - intros e' E1 j A1 A2. rewrite <- S1, Hz. destruct (decide (e' = e)) as [->|Hne].
    + apply S5 in A1 as (B & _). congruence.
    + rewrite S4 in A1 by done. destruct (i_back _ _ _ I _ _ _ A1 A2) as (u' & B1 & B2).
      rewrite decide_False; [eauto|]. intros ->. congruence.
  - intros e' E1 A1 A2. destruct (decide (e' = e)) as [->|Hne]; [naive_solver|].
    rewrite S4 in A1 by done. by eapply (i_idle _ _ _ I).
  - intros x. rewrite (i_timer _ _ _ I). destruct (decide (x = e)) as [->|Hne]; [|by rewrite S4].
    split; intros (E' & A1 & A2); [congruence|]. apply S5 in A1 as (_ & _ & ?). congruence.
  - intros x Hx. destruct (decide (x = e)) as [->|Hne]; [by apply S8|].
    rewrite S7 by done. rewrite S4 in Hx by done. by apply (i_nodes _ _ _ I).
  - rewrite (i_nfd _ _ _ I). symmetry. apply (nfd_of_outside _ _ e); [done| |].
    + intros E' A. congruence.
    + intros E' A. apply S5 in A as (_ & A & _). unfold fd_count. by rewrite A.
  - destruct (i_wake _ _ _ I) as (W & W1 & W2 & W3 & W4 & W5 & W6). exists W. rewrite S4; [done|].
    intros <-. congruence.
Qed.

(** *** Taking a slot *)

Lemma INV_take g iw s s' i e E :
  INV g iw s -> 0 < free_uev_arr_cnt s ->
  znth (free_uev_arr s) (free_uev_arr_cnt s - 1) = Some i ->
  (forall E0, evs s !! e = Some E0 -> uev E0 = None) -> e <> wakeup_event ->
  uev E = Some i -> base E = true -> cb_wrapper E = Some UserCbWrapper ->
  pending_free E = false -> active_fd E = false -> active_timer E = false ->
  slots s' = zset (slots s) i (Uev (Some e) 1) ->
  free_uev_arr s' = free_uev_arr s -> free_uev_arr_cnt s' = free_uev_arr_cnt s - 1 ->
  evs s' = <[e := E]> (evs s) ->
  mh (timers s') = mh (timers s) ->
  (exists k, nodes (timers s') = <[e := MinHeap.Node k 0]> (nodes (timers s))) ->
  num_active_fd s' = num_active_fd s -> num_active_timers s' = num_active_timers s ->
  pool s' = pool s ->
  INV g iw s' /\ exists u, znth (slots s) i = Some u /\ ev u = None.
Proof.
  intros I Hcnt Hi He Hne D1 D2 D3 D4 D5 D6 S1 S2 S3 S4 S5 (k & S6) S7 S8 S9.
  assert (free_list s = free_list s' ++ [i]) as Hfl.
  { unfold free_list. rewrite S2, S3. by apply take_snoc_znth. }
  assert (exists u, znth (slots s) i = Some u /\ ev u = None) as (u & Hu & Hue).
  { apply (i_free _ _ _ I). rewrite Hfl. set_solver. }
  split; [|by eauto].
  pose proof (znth_Some_range _ _ _ Hu) as Hir.
  destruct (i_unused _ _ _ I i u Hu Hue) as (_ & Hgi & Hti).
  pose proof (i_cnt _ _ _ I) as Hc. pose proof (i_flen _ _ _ I) as Hl.
  assert (pq (nodes (timers s)) !! e = None) as Hpe.
  { apply eq_None_not_Some. rewrite (i_timer _ _ _ I). intros (E' & A1 & A2).
    destruct (i_idle _ _ _ I e E' A1 (He _ A1)). congruence. }
  destruct (i_heap _ _ _ I) as (h & G1 & G2 & G3).
  destruct (heap_ok_rekey _ _ e k G2 Hpe) as [Ok Hpq]. rewrite <- S6 in Ok, Hpq.
  assert (forall j, znth (slots s') j = if decide (j = i) then Some (Uev (Some e) 1) else znth (slots s) j) as Hz.
  { intros j. rewrite S1. by apply znth_zset. }
  assert (forall x, evs s' !! x = if decide (x = e) then Some E else evs s !! x) as Hx.
  { intros x. rewrite S4. case_decide; subst; [by rewrite lookup_insert_eq|by rewrite lookup_insert_ne]. }
  pose proof (i_nodup _ _ _ I) as Hnd. rewrite Hfl in Hnd.
  apply NoDup_app in Hnd as (Hnd1 & Hnd2 & _).
  constructor; rewrite ?S1, ?S2, ?S3, ?zlen_zset, ?Hpq, ?S7, ?S8, ?S9; try apply I; try lia; try done.
  - exists h. split_and!; congruence || done.
  - intros j. rewrite <- S1, Hz. case_decide; subst.
    + split; [|naive_solver]. intros Hin. apply Hnd2 in Hin. set_solver.
    + rewrite <- (i_free _ _ _ I j), Hfl, elem_of_app, list_elem_of_singleton. tauto.
  - intros j u' e'. rewrite <- S1, Hz. unfold slot_used. rewrite S9. case_decide as Hj; subst.
    + intros [= <-] [= <-]. exists E. rewrite Hx, decide_True by done. simpl.
      unfold own. rewrite D4, D5, D6, Hgi, Hti. simpl. split_and!; done || lia.
    + intros A1 A2. destruct (i_used _ _ _ I j u' e' A1 A2) as (E1 & B1 & B2).
      exists E1. rewrite Hx, decide_False; [done|]. intros ->. apply He in B1.
      naive_solver.
  - intros j u'. rewrite <- S1, Hz. unfold slot_free. rewrite S9. case_decide as Hj; subst.
    + by intros [= <-].
    + apply (i_unused _ _ _ I).
  - intros e' E1 j. rewrite <- S1, Hx, Hz. case_decide; subst.
    + intros [= <-] A. rewrite D1 in A. injection A as <-. rewrite decide_True by done. eauto.
    + intros A1 A2. destruct (i_back _ _ _ I _ _ _ A1 A2) as (u' & B1 & B2).
      rewrite decide_False; [eauto|]. intros ->. congruence.
  - intros e' E1. rewrite Hx. case_decide; subst; [|apply I]. intros [= <-]. done.
  - intros x. rewrite Hx, (i_timer _ _ _ I). case_decide; subst; [|done].
    split; intros (E' & A1 & A2); [|congruence].
    destruct (i_idle _ _ _ I e E' A1 (He _ A1)). congruence.
  - intros x. rewrite Hx, S6. case_decide; subst; [by rewrite lookup_insert_eq|].
    rewrite lookup_insert_ne by done. apply I.
  - rewrite (i_nfd _ _ _ I). symmetry. apply (nfd_of_outside _ _ e).
    + intros x Hne'. by rewrite Hx, decide_False.
    + intros E' A. destruct (i_idle _ _ _ I e E' A (He _ A)) as [B _]. unfold fd_count. by rewrite B.
    + intros E'. rewrite Hx, decide_True by done. intros [= <-]. unfold fd_count. by rewrite D5.
  - destruct (i_wake _ _ _ I) as (W & W1 & W2). exists W. rewrite Hx, decide_False by congruence. done.
Qed.
End steps.
