(* ===== verification/UeventOps.v ===== *)
(** * uevent: what each operation does to the invariant

    For every operation of [src/uevent/uevent.c], a rule that from [INV] shows
    the absence of undefined behaviour and the invariant afterwards, with the
    references the caller gained or gave up. *)

From S2P Require Import Prelude.
From S2P Require Import MinHeap.
From S2P Require Import MinHeapInv.
From S2P Require Import MinHeapOps.
From S2P Require Import MinHeapSpec.
From S2P Require Import Uevent.
From S2P Require Import UeventInv.
From S2P Require Import UeventSteps.
Import MinHeap (mst, mh, nodes, capacity, minheap_t, minheap_node_t).
Import Uevent.

Section ops.
Context {K : Type} {Kern : Kernel K}.
Implicit Types (s : @ust K) (g : Z -> Z) (E : uevent_t) (e : loc) (i : Z).

(** ** Memory accesses and system calls *)

Lemma wp_slot_get s i u (Q : uev_t -> ust -> Prop) :
  znth (slots s) i = Some u -> Q u s -> wp (slot_get i) Q s.
Proof. intros Hu HQ. apply wp_bind, wp_gets. rewrite Hu. by apply wp_ret. Qed.

Lemma wp_ev_get s e E (Q : uevent_t -> ust -> Prop) :
  evs s !! e = Some E -> Q E s -> wp (ev_get e) Q s.
Proof. intros He HQ. apply wp_bind, wp_gets. rewrite He. by apply wp_ret. Qed.

Lemma wp_slot_ev s i u e (Q : loc -> ust -> Prop) :
  znth (slots s) i = Some u -> ev u = Some e -> Q e s -> wp (slot_ev i) Q s.
Proof.
  intros Hu He HQ. apply wp_bind. eapply wp_slot_get; [done|]. rewrite He. by apply wp_ret.
Qed.

Lemma wp_slot_put s i u (Q : unit -> ust -> Prop) :
  Q tt (put_slots (zset (slots s) i u) s) -> wp (slot_put i u) Q s.
Proof. done. Qed.

Lemma wp_ev_put s e E (Q : unit -> ust -> Prop) :
  Q tt (put_evs (<[e := E]> (evs s)) s) -> wp (ev_put e E) Q s.
Proof. done. Qed.

Lemma wp_syscall {A} (f : K -> A * K) s (Q : A -> ust -> Prop) :
  (forall a k, Q a (put_kern k s)) -> wp (syscall f) Q s.
Proof. intros HQ. apply HQ. Qed.

Lemma wp_syscall_at {A} (f : K -> A * K) s (Q : A -> ust -> Prop) :
  Q (f (kern s)).1 (put_kern (f (kern s)).2 s) -> wp (syscall f) Q s.
Proof. done. Qed.

Lemma wp_heap {A} (m : M mst A) s (Q : A -> ust -> Prop) :
  wp m (fun a t => Q a (put_timers t s)) (timers s) -> wp (heap_call m) Q s.
Proof. apply wp_zoom. Qed.

Lemma wp_heap_node_get s e nd (Q : minheap_node_t -> ust -> Prop) :
  nodes (timers s) !! e = Some nd -> Q nd s -> wp (heap_call (MinHeap.node_get e)) Q s.
Proof.
  intros He HQ. apply wp_heap. destruct s as [? ? ? ? []]. simpl in *. by eapply wp_node_get.
Qed.

Lemma wp_heap_node_put s e nd (Q : unit -> ust -> Prop) :
  Q tt (put_timers (MinHeap.St (mh (timers s)) (<[e := nd]> (nodes (timers s)))) s) ->
  wp (heap_call (MinHeap.node_put e nd)) Q s.
Proof. done. Qed.

Lemma wp_heap_node_key s e nd (Q : Z -> ust -> Prop) :
  nodes (timers s) !! e = Some nd -> Q (MinHeap.key nd) s ->
  wp (heap_call (MinHeap.node_key (Some e))) Q s.
Proof.
  intros He HQ. apply wp_heap. destruct s as [? ? ? ? []]. simpl in *. by eapply wp_node_key.
Qed.

(** ** Slots in use *)

(** Slot [i] refers to the event [e], whose contents are [E]. *)
Definition slot_at s i e E : Prop :=
  exists u, znth (slots s) i = Some u /\ ev u = Some e /\ evs s !! e = Some E.

(** A call keeps the number of slots and the events of the slots on which
    references are held. *)
Definition keep g s s' : Prop :=
  zlen (slots s') = zlen (slots s) /\
  forall i u e, 0 < g i -> znth (slots s) i = Some u -> ev u = Some e ->
    exists u', znth (slots s') i = Some u' /\ ev u' = Some e.

Lemma keep_refl g s : keep g s s.
Proof. split; eauto. Qed.

Lemma keep_trans g g' s s' s'' :
  keep g s s' -> keep g' s' s'' -> (forall i, 0 < g i -> 0 < g' i) -> keep g s s''.
Proof.
  intros [L1 H1] [L2 H2] Hg. split; [congruence|]. intros i u e Hi Hu He.
  destruct (H1 i u e Hi Hu He) as (u' & Hu' & He'). eauto.
Qed.

Lemma keep_weaken g g' s s' :
  keep g' s s' -> (forall i, 0 < g i -> 0 < g' i) -> keep g s s'.
Proof. intros [L H] Hg. split; eauto. Qed.

Lemma keep_same g s s' : slots s' = slots s -> keep g s s'.
Proof. intros E. split; rewrite E; eauto. Qed.

Lemma keep_zset g s s' i u e r :
  znth (slots s) i = Some u -> ev u = Some e ->
  slots s' = zset (slots s) i (Uev (Some e) r) -> keep g s s'.
Proof.
  intros Hu He E. pose proof (znth_Some_range _ _ _ Hu). split; rewrite E, ?zlen_zset; [done|].
  intros j u' e' _ Hu' He'. rewrite znth_zset by done. case_decide; subst; [|eauto].
  eexists. split; [done|]. simpl. congruence.
Qed.

Lemma keep_zset_out g s s' i u :
  0 <= i < zlen (slots s) -> g i <= 0 -> slots s' = zset (slots s) i u -> keep g s s'.
Proof.
  intros Hi Hg E. split; rewrite E, ?zlen_zset; [done|].
  intros j u' e' Hj Hu' He'. rewrite znth_zset by done. case_decide; subst; [lia|eauto].
Qed.

Lemma slot_at_facts g iw s i e E :
  INV g iw s -> slot_at s i e E ->
  uev E = Some i /\ base E = true /\ cb_wrapper E = Some UserCbWrapper /\
  (i <> iw -> e <> wakeup_event) /\ 0 <= i < zlen (slots s).
Proof.
  intros I (u & Hu & He & HE).
  destruct (i_used _ _ _ I _ _ _ Hu He) as (E' & F1 & F2 & F3 & F4 & _).
  rewrite HE in F1. injection F1 as <-. split_and!; try done.
  - intros Hi ->. destruct (i_wake _ _ _ I) as (W & W1 & W2 & _). congruence.
  - apply znth_Some_range in Hu. lia.
  - apply znth_Some_range in Hu. lia.
Qed.

Lemma slot_at_held g iw s i :
  INV g iw s -> 0 < g i -> 0 <= i < zlen (slots s) -> exists e E, slot_at s i e E.
Proof.
  intros I Hg Hi. destruct (znth_is_Some _ _ Hi) as [u Hu].
  destruct (INV_held _ _ _ _ _ I Hg Hu) as [e He].
  destruct (i_used _ _ _ I _ _ _ Hu He) as (E & F1 & _). exists e, E, u. done.
Qed.

Lemma slot_at_of_ev g iw s i e E :
  INV g iw s -> evs s !! e = Some E -> uev E = Some i -> slot_at s i e E.
Proof.
  intros I He Hi. destruct (i_back _ _ _ I _ _ _ He Hi) as (u & H1 & H2). exists u. done.
Qed.

Lemma keep_slot_at g g' iw s s' i e E :
  keep g s s' -> INV g' iw s' -> slot_at s i e E -> 0 < g i -> exists E', slot_at s' i e E'.
Proof.
  intros [_ H] I (u & Hu & He & _) Hg. destruct (H i u e Hg Hu He) as (u' & Hu' & He').
  destruct (i_used _ _ _ I _ _ _ Hu' He') as (E1 & F1 & _). exists E1, u'. done.
Qed.

Lemma slot_at_inj s i e e' E E' : slot_at s i e E -> slot_at s i e' E' -> E = E'.
Proof. intros (u & A1 & A2 & A3) (u' & B1 & B2 & B3). congruence. Qed.

(** The rules of a slot in use, in one step each. *)
Lemma wp_slot_ev_at s i e E (Q : loc -> ust -> Prop) :
  slot_at s i e E -> Q e s -> wp (slot_ev i) Q s.
Proof. intros (u & Hu & He & _). by eapply wp_slot_ev. Qed.

Lemma wp_ev_get_at s i e E (Q : uevent_t -> ust -> Prop) :
  slot_at s i e E -> Q E s -> wp (ev_get e) Q s.
Proof. intros (u & Hu & He & HE). by apply wp_ev_get. Qed.

(** The slot refers to an event that is not being freed. *)
Definition live s i : Prop := exists e E, slot_at s i e E /\ pending_free E = false.

(** Writing an event without touching what the invariant counts. *)
Lemma INV_touch g iw s i e E E' :
  INV g iw s -> slot_at s i e E -> same_identity E E' ->
  active_fd E' = active_fd E -> active_timer E' = active_timer E ->
  pending_free E' = pending_free E -> is_in_worker_pool E' = is_in_worker_pool E ->
  INV g iw (put_evs (<[e := E']> (evs s)) s).
Proof.
  intros I (u & Hu & Hue & He) Hid H1 H2 H3 H4.
  destruct (i_used _ _ _ I i u e Hu Hue) as (E0 & F1 & F2 & F3 & F4 & F5 & F6 & F7 & F8).
  rewrite He in F1. injection F1 as <-.
  eapply (INV_event g g iw s _ i u e E E' (refcount u)); simpl; try done.
  - rewrite H2. by eapply heap_step_refl.
  - by eapply pool_step_refl.
  - unfold own. rewrite H1, H2, H3. done.
  - intros ->. rewrite H2, H3.
    destruct (i_wake _ _ _ I) as (W & W1 & W2 & W3 & W4 & W5 & W6). by simplify_eq.
  - symmetry. apply zset_id. rewrite Hu. destruct u. simpl in *. by subst.
  - unfold fd_count. rewrite H1. lia.
  - apply I.
Qed.

Lemma slot_at_insert s i e E E' s' :
  slot_at s i e E -> slots s' = slots s -> evs s' = <[e := E']> (evs s) -> slot_at s' i e E'.
Proof.
  intros (u & Hu & Hue & He) H1 H2. exists u. rewrite H1, H2. by rewrite lookup_insert_eq.
Qed.

(** *** Events that stay alive *)

(** The slot refers to the event at [e], which is not being freed. *)
Definition live_at s i e : Prop := exists E, slot_at s i e E /\ pending_free E = false.

(** The event of the slot [i], if it was alive, still is. *)
Definition spared s s' i : Prop := forall e, live_at s i e -> live_at s' i e.

Lemma spared_refl s i : spared s s i.
Proof. by intros e. Qed.

Lemma spared_trans s s' s'' i : spared s s' i -> spared s' s'' i -> spared s s'' i.
Proof. intros H1 H2 e H. by apply H2, H1. Qed.

(** A step that keeps every slot's event, and of each event whether it is being
    freed. *)
Lemma spared_keep s s' i :
  (forall g', keep g' s s') ->
  (forall x X, evs s !! x = Some X -> pending_free X = false ->
     exists X', evs s' !! x = Some X' /\ pending_free X' = false) -> spared s s' i.
Proof.
  intros Hk He e (E & (u & Hu & Hue & H1) & H2). destruct (Hk (fun _ => 1)) as [_ Hs].
  destruct (Hs i u e ltac:(lia) Hu Hue) as (u' & Hu' & Hue'). destruct (He _ _ H1 H2) as (X' & A1 & A2).
  exists X'. split; [|done]. by exists u'.
Qed.

Lemma spared_same s s' i : (forall g', keep g' s s') -> evs s' = evs s -> spared s s' i.
Proof. intros Hk He. apply spared_keep; [done|]. rewrite He. eauto. Qed.

Lemma spared_one s s' i e E E' :
  (forall g', keep g' s s') -> evs s !! e = Some E -> evs s' !! e = Some E' ->
  (pending_free E = false -> pending_free E' = false) ->
  (forall x, x <> e -> evs s' !! x = evs s !! x) -> spared s s' i.
Proof.
  intros Hk He He' Hp Ho. apply spared_keep; [done|]. intros x X HX Hf.
  destruct (decide (x = e)) as [->|Hx]; [simplify_eq; eauto|]. rewrite Ho by done. eauto.
Qed.

(** ** References *)

(** Changing only the number of references held. *)
Lemma INV_refs g g' iw s i u e E r :
  INV g iw s -> znth (slots s) i = Some u -> ev u = Some e -> evs s !! e = Some E ->
  (forall j, j <> i -> g' j = g j) -> r = refcount u + g' i - g i -> 0 < r ->
  INV g' iw (put_slots (zset (slots s) i (Uev (Some e) r)) s).
Proof.
  intros I Hu Hue He Hg -> Hr.
  destruct (i_used _ _ _ I i u e Hu Hue) as (E0 & F1 & F2 & F3 & F4 & F5 & F6 & F7 & F8).
  rewrite He in F1. injection F1 as <-.
  eapply (INV_event g g' iw s _ i u e E E (refcount u + g' i - g i)); simpl; try done.
  - by eapply heap_step_refl.
  - by eapply pool_step_refl.
  - lia.
  - intros ->. destruct (i_wake _ _ _ I) as (W & W1 & W2 & W3 & W4 & W5 & W6). by simplify_eq.
  - by rewrite insert_id.
  - lia.
  - apply I.
Qed.

Lemma refcount_small g iw s i u :
  INV g iw s -> few g (2 ^ 20) -> znth (slots s) i = Some u ->
  s32 (refcount u + 1) = refcount u + 1 /\ s32 (refcount u - 1) = refcount u - 1.
Proof.
  intros I F Hu. pose proof (INV_refcount _ _ _ _ _ I F Hu).
  split; apply swrap_small; lia.
Qed.

Lemma put_slots_id s : put_slots (slots s) s = s.
Proof. by destruct s. Qed.

Lemma put_slots_put l l' s : put_slots l (put_slots l' s) = put_slots l s.
Proof. by destruct s. Qed.

(** [uevent_try_ref] gives a reference to a live event that is not being freed,
    and leaves the base as it was otherwise. *)
Lemma uevent_try_ref_wp g iw s i (Q : option Z -> ust -> Prop) :
  INV g iw s -> few g (2 ^ 20) -> 0 <= i < zlen (slots s) ->
  (~ live s i -> Q None s) ->
  (forall s' e E, INV (gadd g i) iw s' -> (forall g', keep g' s s') -> slot_at s' i e E ->
     slot_at s i e E -> pending_free E = false -> pool s' = pool s -> running s' = running s ->
     timers s' = timers s -> evs s' = evs s -> Q (Some i) s') ->
  wp (uevent_try_ref (Some i)) Q s.
Proof.
  intros I F Hi H0 H1. destruct (znth_is_Some _ _ Hi) as [u Hu].
  pose proof (refcount_small _ _ _ _ _ I F Hu) as [Hp _].
  unfold uevent_try_ref, refcount_inc_not_zero. apply wp_bind, wp_bind.
  eapply wp_slot_get; [done|]. destruct (Z.eqb_spec (refcount u) 0) as [H0r|Hr].
  { apply H0. intros (e & E & (u' & A1 & A2 & _) & _). simplify_eq.
    destruct (i_used _ _ _ I i u e Hu A2) as (E0 & _ & _ & _ & _ & _ & ? & _). lia. }
  apply wp_bind, wp_slot_put, wp_ret. rewrite Hp. cbn.
  apply wp_bind. eapply wp_slot_get; [by apply znth_zset_eq|]. simpl.
  destruct (ev u) as [e|] eqn:Hue.
  2: { destruct (i_unused _ _ _ I i u Hu Hue) as (? & _). lia. }
  destruct (i_used _ _ _ I i u e Hu Hue) as (E & F1 & F2 & F3 & F4 & F5 & F6 & F7 & F8).
  apply wp_bind. eapply wp_ev_get; [done|]. destruct (pending_free E) eqn:Hpf.
  - unfold refcount_dec. apply wp_bind, wp_bind.
    eapply wp_slot_get; [by apply znth_zset_eq|]. apply wp_bind, wp_slot_put, wp_ret, wp_ret.
    simpl. replace (refcount u + 1 - 1) with (refcount u) by lia.
    rewrite swrap_small by (pose proof (INV_refcount _ _ _ _ _ I F Hu); lia).
    rewrite put_slots_put, zset_zset, zset_id, put_slots_id.
    + apply H0. intros (e' & E' & (u' & A1 & A2 & A3) & A4). simplify_eq. congruence.
    + rewrite Hu. f_equal. destruct u. simpl in *. by subst.
  - apply wp_ret. apply (H1 _ e E); simpl; try done.
    + eapply INV_refs; try done.
      * intros j Hj. by apply gadd_ne.
      * rewrite gadd_eq. lia.
      * lia.
    + intros g'. by eapply keep_zset.
    + eexists. split; [by apply znth_zset_eq|]. done.
    + exists u. done.
Qed.

(** [uevent_put] gives up a held reference; at zero the event is destroyed. *)
Lemma uev_return_wp g iw s i u e (Q : Z -> ust -> Prop) s1 :
  INV g iw s -> znth (slots s) i = Some u -> ev u = Some e ->
  zlen (slots s1) = zlen (slots s) -> free_uev_arr s1 = free_uev_arr s ->
  free_uev_arr_cnt s1 = free_uev_arr_cnt s ->
  Q 0 (put_free_uev_arr_cnt (free_uev_arr_cnt s + 1)
        (put_free_uev_arr (zset (free_uev_arr s) (free_uev_arr_cnt s) i) s1)) ->
  wp (uev_return true i) Q s1.
Proof.
  intros I Hu He L1 L2 L3 HQ. destruct (INV_free_room _ _ _ _ _ _ I Hu He) as [Hroom _].
  pose proof (znth_Some_range _ _ _ Hu). pose proof (i_cnt _ _ _ I).
  pose proof (i_flen _ _ _ I). pose proof (i_small _ _ _ I).
  apply wp_bind, wp_gets.
  replace ((i <? 0) || (zlen (slots s1) <=? i)) with false by lia.
  apply wp_bind, wp_gets, wp_bind, wp_gets. rewrite L2, L3.
  replace ((0 <=? _) && (_ <? _)) with true by lia.
  apply wp_bind, wp_modify, wp_bind, wp_modify, wp_ret.
  by rewrite wrap_small by lia.
Qed.

Lemma is_Some_insert_nodes (N : gmap loc minheap_node_t) e nd : is_Some (<[e := nd]> N !! e).
Proof. rewrite lookup_insert_eq. eauto. Qed.

Lemma uevent_destroy_wp g g' iw s s0 i u e E (Q : unit -> ust -> Prop) :
  INV g iw s -> znth (slots s) i = Some u -> ev u = Some e -> evs s !! e = Some E ->
  own e E + tasks_of i (pool s) + g' i = 0 -> 0 <= g' i ->
  (forall j, j <> i -> g' j = g j) ->
  s0 = put_slots (zset (slots s) i (Uev (Some e) 0)) s ->
  (forall s', INV g' iw s' -> slots s' = zset (slots s) i (Uev None 0) -> pool s' = pool s ->
     running s' = running s -> pq (nodes (timers s')) = pq (nodes (timers s)) ->
     (forall x, x <> e -> evs s' !! x = evs s !! x) -> Q tt s') ->
  wp (uevent_destroy_uev_internal_unsafe i) Q s0.
Proof.
  intros I Hu Hue He H0 Hg0 Hg -> HQ. pose proof (znth_Some_range _ _ _ Hu) as Hi.
  pose proof (own_range e E). pose proof (tasks_nonneg i (pool s)).
  assert (own e E = 0) as (P1 & P2 & P3)%own_zero by lia.
  destruct (i_nodes _ _ _ I e) as [nd Hnd]; [eauto|].
  assert (pq (nodes (timers s)) !! e = None) as Hpe.
  { apply eq_None_not_Some. rewrite (i_timer _ _ _ I). intros (E' & A1 & A2). congruence. }
  assert (E' : exists b, base E = b /\ b = true).
  { destruct (i_used _ _ _ I i u e Hu Hue) as (E0 & F1 & _ & F3 & _). naive_solver. }
  destruct E' as (b & Hb & ->).
  unfold uevent_destroy_uev_internal_unsafe. apply wp_bind.
  eapply wp_slot_get; [by apply znth_zset_eq|]. apply wp_bind, wp_slot_put. cbn [ev refcount].
  apply wp_bind. eapply wp_ev_get; [done|]. rewrite Hb. apply wp_bind.
  eapply (uev_return_wp _ _ _ _ _ _ _ _ I Hu Hue); simpl; rewrite ?zlen_zset; try done.
  destruct (is_static E).
  - unfold uevent_reset_static_ev. apply wp_bind. eapply wp_ev_get; [done|].
    apply wp_bind, wp_ev_put, wp_bind. eapply wp_heap_node_get; [done|].
    apply wp_heap_node_put.
    assert (pq (<[e := MinHeap.Node 0 0]> (nodes (timers s))) !! e = None) as Hp'.
    { rewrite pq_remove. apply lookup_delete_eq. }
    apply HQ; simpl; rewrite ?zset_zset; try done.
    + eapply (INV_release g g' iw s _ i u e E); simpl; rewrite ?zset_zset; try done.
      * intros x Hx. by rewrite lookup_insert_ne.
      * intros R. rewrite lookup_insert_eq. by intros [= <-].
      * intros x Hx. by rewrite lookup_insert_ne.
      * intros _. apply is_Some_insert_nodes.
    + apply (pq_outside _ _ e); [done..|]. intros m Hm. by rewrite lookup_insert_ne.
    + intros x Hx. by rewrite lookup_insert_ne.
  - apply wp_bind, wp_ev_put. unfold free_ev. apply wp_bind.
    eapply wp_ev_get; [apply lookup_insert_eq|]. apply wp_bind, wp_modify, wp_heap, wp_modify.
    assert (pq (delete e (nodes (timers s))) !! e = None) as Hp'.
    { apply pq_None. intros nd'. by rewrite lookup_delete_eq. }
    apply HQ; simpl; rewrite ?zset_zset; try done.
    + eapply (INV_release g g' iw s _ i u e E); simpl; rewrite ?zset_zset; try done.
      * intros x Hx. by rewrite lookup_delete_ne, lookup_insert_ne.
      * intros R. by rewrite lookup_delete_eq.
      * intros x Hx. by rewrite lookup_delete_ne.
      * rewrite lookup_delete_eq. by intros [].
    + apply (pq_outside _ _ e); [done..|]. intros m Hm. by rewrite lookup_delete_ne.
    + intros x Hx. by rewrite lookup_delete_ne, lookup_insert_ne.
Qed.

Lemma uevent_put_wp g iw s i (Q : bool -> ust -> Prop) :
  INV g iw s -> few g (2 ^ 20) -> 0 < g i -> 0 <= i < zlen (slots s) ->
  (forall s', INV (gsub g i) iw s' -> (forall g', keep g' s s') -> pool s' = pool s ->
     running s' = running s -> evs s' = evs s -> timers s' = timers s ->
     (forall e E, slot_at s i e E -> slot_at s' i e E) -> Q false s') ->
  (forall s', INV (gsub g i) iw s' -> keep (gsub g i) s s' -> pool s' = pool s ->
     running s' = running s -> g i = 1 ->
     (forall e E, slot_at s i e E -> pending_free E = true) ->
     (forall e E, ~ slot_at s' i e E) -> pq (nodes (timers s')) = pq (nodes (timers s)) ->
     (forall j, spared s s' j) -> Q true s') ->
  wp (uevent_put (Some i)) Q s.
Proof.
  intros I F Hgi Hi HQ HQ'. destruct (znth_is_Some _ _ Hi) as [u Hu].
  destruct (INV_held _ _ _ _ _ I Hgi Hu) as [e Hue].
  pose proof (refcount_small _ _ _ _ _ I F Hu) as [_ Hm].
  destruct (i_used _ _ _ I i u e Hu Hue) as (E & F1 & F2 & F3 & F4 & F5 & F6 & F7 & F8).
  unfold uevent_put. apply wp_bind. eapply wp_slot_get; [done|].
  destruct (Z.eqb_spec (refcount u) 0) as [|_]; [lia|].
  unfold uevent_refcount_dec_and_test, refcount_dec. apply wp_bind, wp_bind, wp_bind.
  eapply wp_slot_get; [done|]. apply wp_bind, wp_slot_put, wp_ret. rewrite Hue, Hm.
  destruct (Z.leb_spec (refcount u) 0); [lia|]. apply wp_ret.
  destruct (Z.eqb_spec (refcount u) 1) as [Hr1|Hr1].
  - apply wp_bind.
    eapply (uevent_destroy_wp g (gsub g i) iw s _ i u e E); try done.
    + rewrite gsub_eq. lia.
    + rewrite gsub_eq. lia.
    + intros j Hj. by apply gsub_ne.
    + by rewrite Hr1.
    + intros s' I' E' Hp Hrn Hpq Hev. apply wp_ret.
      pose proof (own_range e E). pose proof (tasks_nonneg i (pool s)).
      assert (pending_free E = true) as Hpf.
      { assert (own e E = 0) as (P1 & _)%own_zero by lia. done. }
      apply HQ'; [done| |done|done|lia| | |done|].
      * eapply keep_zset_out; [done| |done]. rewrite gsub_eq. specialize (F i). lia.
      * intros e' E1 (u' & A1 & A2 & A3).
        assert (own e E = 0) as (P1 & _)%own_zero by lia. by simplify_eq.
      * intros e' E1 (u' & A1 & A2 & A3). rewrite E', znth_zset_eq in A1 by done. by simplify_eq.
      * intros j e' (E1 & (u' & A1 & A2 & A3) & A4). assert (j <> i) as Hj by (intros ->; simplify_eq; congruence).
        exists E1. split; [|done]. exists u'. split_and!; [by rewrite E', znth_zset_ne|done|].
        rewrite Hev; [done|]. intros ->. by eapply Hj, (INV_inj g).
  - apply wp_ret.
    assert (INV (gsub g i) iw (put_slots (zset (slots s) i (Uev (Some e) (refcount u - 1))) s)) as I'.
    { eapply INV_refs; try done.
      - intros j Hj. by apply gsub_ne.
      - rewrite gsub_eq. lia.
      - lia. }
    apply HQ; try done.
    + intros g'. by eapply keep_zset.
    + intros e' E' (u' & A1 & A2 & A3). simplify_eq.
      eexists. split; [by apply znth_zset_eq|]. done.
Qed.

(** Giving back the reference taken by [uevent_try_ref]. *)
Lemma uevent_put__wp g iw s i (Q : unit -> ust -> Prop) :
  INV (gadd g i) iw s -> few g (2 ^ 20 - 1) -> 0 <= i < zlen (slots s) ->
  (forall s', INV g iw s' -> keep g s s' -> pool s' = pool s -> running s' = running s ->
     (forall e E, slot_at s i e E -> pending_free E = false \/ 0 < g i ->
        slot_at s' i e E /\ timers s' = timers s /\ (forall g', keep g' s s') /\ evs s' = evs s) ->
     (forall e E, slot_at s i e E -> slot_at s' i e E \/ forall e' E', ~ slot_at s' i e' E') ->
     pq (nodes (timers s')) = pq (nodes (timers s)) /\ (forall j, spared s s' j) -> Q tt s') ->
  wp (uevent_put_ i) Q s.
Proof.
  intros I F Hi HQ.
  assert (forall s', keep (gsub (gadd g i) i) s s' -> keep g s s') as Hkeep.
  { intros s' Hk. eapply keep_weaken; [done|]. intros j. by rewrite gsub_gadd. }
  assert (forall s', INV (gsub (gadd g i) i) iw s' -> INV g iw s') as Hinv.
  { intros s' I'. eapply INV_proper; [|done..|exact I']. intros j. symmetry. apply gsub_gadd. }
  apply wp_bind. apply (uevent_put_wp (gadd g i) iw); try done.
  - eapply few_gadd; [done|]. lia.
  - rewrite gadd_eq. specialize (F i). lia.
  - intros s' I' K' H1 H2 H3 H4 H5. apply wp_ret, HQ; auto. split; [by rewrite H4|].
    intros j. by apply spared_same.
  - intros s' I' K' H1 H2 H3 H4 H5 H6 H7. rewrite gadd_eq in H3. apply wp_ret, HQ; auto.
    intros e E He [Hp|Hp]; [apply H4 in He; congruence|lia].
Qed.

Lemma uevent_try_lock_wp g iw s i e E (Q : bool -> ust -> Prop) :
  INV g iw s -> slot_at s i e E ->
  (modification_lock E = true -> Q false s) ->
  (forall s', s' = put_evs (<[e := set_modification_lock true E]> (evs s)) s ->
     modification_lock E = false -> INV g iw s' -> Q true s') ->
  wp (uevent_try_lock e) Q s.
Proof.
  intros I Hs H0 H1. apply wp_bind. eapply wp_ev_get_at; [done|].
  destruct (modification_lock E) eqn:Hl; [by apply wp_ret, H0|].
  apply wp_bind, wp_ev_put, wp_ret, H1; [done..|]. by eapply INV_touch.
Qed.

Lemma uevent_unlock_wp g iw s i e E (Q : unit -> ust -> Prop) :
  INV g iw s -> slot_at s i e E ->
  (forall s', s' = put_evs (<[e := set_modification_lock false E]> (evs s)) s ->
     INV g iw s' -> Q tt s') ->
  wp (uevent_unlock e) Q s.
Proof.
  intros I Hs H1. apply wp_bind. eapply wp_ev_get_at; [done|].
  apply wp_ev_put, H1; [done|]. by eapply INV_touch.
Qed.
End ops.
