(* ===== verification/UeventAdd.v ===== *)
(** * uevent: the timer heap, the wake-up descriptor and scheduling

    The rules for the calls of [src/uevent/uevent.c] into minheap, for the
    wake-up descriptor, and for [insert_fd_to_epoll] and
    [insert_timer_to_heap]. *)

From S2P Require Import Prelude.
From S2P Require Import MinHeap.
From S2P Require Import MinHeapInv.
From S2P Require Import MinHeapOps.
From S2P Require Import MinHeapSpec.
From S2P Require Import Uevent.
From S2P Require Import UeventInv.
From S2P Require Import UeventSteps.
From S2P Require Import UeventOps.
Import MinHeap (mst, mh, nodes, capacity, minheap_t, minheap_node_t).
Import Uevent.

Section api.
Context {K : Type} {Kern : Kernel K}.
Implicit Types (s : @ust K) (g : Z -> Z) (E : uevent_t) (e : loc) (i : Z).

(** ** The timer heap *)

Lemma pq_size_heap g iw s h :
  INV g iw s -> mh (timers s) = Some h -> MinHeap.size h = Z.of_nat (size (pq (nodes (timers s)))).
Proof.
  intros I Hh. destruct (i_heap _ _ _ I) as (h' & H1 & H2 & _). rewrite Hh in H1.
  injection H1 as <-. symmetry. by apply pq_size.
Qed.

Lemma timers_eta (t : mst) h : mh t = Some h -> t = MinHeap.St (Some h) (nodes t).
Proof. destruct t. simpl. by intros ->. Qed.

Lemma active_node g iw s e E nd :
  INV g iw s -> evs s !! e = Some E -> nodes (timers s) !! e = Some nd ->
  active_timer E = true <-> MinHeap.idx nd <> 0.
Proof.
  intros I He Hn. transitivity (is_Some (pq (nodes (timers s)) !! e)).
  - rewrite (i_timer _ _ _ I). naive_solver.
  - split.
    + intros [k Hk]. apply pq_lookup in Hk as (nd' & A1 & A2 & _). congruence.
    + intros Hi. exists (MinHeap.key nd). apply pq_lookup. eauto.
Qed.

(** The step of the heap for a call that changed the priority queue to [q]. *)
Lemma heap_step_intro s tm e act h h' q :
  mh (timers s) = Some h -> capacity h = zlen (slots s) ->
  mh tm = Some h' -> heap_ok h' (nodes tm) -> capacity h' = capacity h ->
  dom (nodes tm) = dom (nodes (timers s)) -> pq (nodes tm) = q ->
  (forall x, x <> e -> q !! x = pq (nodes (timers s)) !! x) ->
  (is_Some (q !! e) <-> act = true) -> heap_step s tm e act.
Proof.
  intros H1 H2 H3 H4 H5 H6 <- H7 H8. exists h'. rewrite H6. split_and!; try done; try congruence.
  intros x Hx. by rewrite H7.
Qed.

Lemma heap_insert_wp g iw s e E nd k (Q : Z -> mst -> Prop) :
  INV g iw s -> evs s !! e = Some E -> nodes (timers s) !! e = Some nd ->
  (forall r tm, heap_step s tm e true -> pq (nodes tm) = <[e := k]> (pq (nodes (timers s))) -> Q r tm) ->
  wp (MinHeap.mh_insert (Some e)) Q
    (MinHeap.St (mh (timers s)) (<[e := MinHeap.Node k (MinHeap.idx nd)]> (nodes (timers s)))).
Proof.
  intros I He Hn HQ. destruct (i_heap _ _ _ I) as (h & H1 & H2 & H3).
  pose proof (pq_size_heap _ _ _ _ I H1). pose proof (INV_timers_room _ _ _ I).
  pose proof (i_small _ _ _ I). rewrite H1. set (N := nodes (timers s)) in *.
  assert (forall h' N' q, heap_ok h' N' -> capacity h' = capacity h ->
    dom N' = dom N -> pq N' = q -> q = <[e := k]> (pq N) ->
    heap_step s (MinHeap.St (Some h') N') e true) as Hst.
  { intros h' N' q A1 A2 A3 A4 ->. eapply (heap_step_intro _ _ _ _ h h'); try done.
    - intros x Hx. by rewrite lookup_insert_ne.
    - rewrite lookup_insert_eq. naive_solver. }
  destruct (decide (MinHeap.idx nd = 0)) as [Hi|Hi].
  - rewrite Hi. destruct (heap_ok_rekey h N e k H2) as [Ok Hpq]; [by eapply pq_unmarked|].
    apply (mh_insert_new_wp h _ e (MinHeap.Node k 0)); try done; try lia.
    + apply lookup_insert_eq.
    + intros h' N' A1 A2 A3 A4 A5. rewrite Hpq in A5. simpl in A5. apply HQ; [|done].
      eapply Hst; try done. rewrite (keys_dom _ _ A4), dom_insert_lookup_L; eauto.
  - apply (mh_insert_update_wp h N e nd); try done; try lia.
    intros h' N' A1 A2 A3 A4 A5. apply HQ; [|done]. eapply Hst; try done.
    rewrite <- (dom_keys N'), A4, dom_insert_L, dom_keys. apply subseteq_union_1_L.
    apply singleton_subseteq_l, elem_of_dom. eauto.
Qed.

Lemma heap_delete_wp g iw s e E (Q : unit -> mst -> Prop) :
  INV g iw s -> evs s !! e = Some E -> active_timer E = true ->
  (forall tm, heap_step s tm e false -> pq (nodes tm) = delete e (pq (nodes (timers s))) -> Q tt tm) ->
  wp (MinHeap.mh_delete_node (Some e)) Q (timers s).
Proof.
  intros I He Ha HQ. destruct (i_heap _ _ _ I) as (h & H1 & H2 & H3).
  destruct (i_nodes _ _ _ I e) as [nd Hn]; [eauto|]. rewrite (timers_eta _ _ H1).
  eapply mh_delete_in_wp; [done..|by eapply (active_node g)|].
  intros h' N' A1 A2 A3 A4 A5. apply HQ; [|done].
  eapply (heap_step_intro _ _ _ _ h h'); try done.
  - by apply keys_dom.
  - intros x Hx. simpl. by rewrite lookup_delete_ne.
  - simpl. rewrite lookup_delete_eq. split; [by intros []|done].
Qed.

Lemma heap_min_wp g iw s (Q : ptr -> mst -> Prop) :
  INV g iw s -> (pq (nodes (timers s)) = ∅ -> Q None (timers s)) ->
  (forall e nd, nodes (timers s) !! e = Some nd -> is_min (pq (nodes (timers s))) e ->
     pq (nodes (timers s)) !! e = Some (MinHeap.key nd) -> Q (Some e) (timers s)) ->
  wp MinHeap.mh_get_min Q (timers s).
Proof.
  intros I H0 H1. destruct (i_heap _ _ _ I) as (h & G1 & G2 & G3).
  pose proof (pq_size_heap _ _ _ _ I G1). rewrite (timers_eta _ _ G1) in H0, H1 |- *.
  simpl in *. apply mh_get_min_wp; [done| |].
  - intros Hz. apply H0. apply map_size_empty_inv. simpl in *. lia.
  - intros n nd _ A1 A2 A3. apply (H1 n nd A1 A3). apply pq_lookup. exists nd. split_and!; lia || done.
Qed.

Lemma heap_extract_wp g iw s (Q : ptr -> mst -> Prop) :
  INV g iw s -> pq (nodes (timers s)) <> ∅ ->
  (forall e nd tm, nodes (timers s) !! e = Some nd -> is_min (pq (nodes (timers s))) e ->
     pq (nodes (timers s)) !! e = Some (MinHeap.key nd) ->
     heap_step s tm e false -> pq (nodes tm) = delete e (pq (nodes (timers s))) ->
     keys (nodes tm) = keys (nodes (timers s)) -> Q (Some e) tm) ->
  wp MinHeap.mh_extract_min Q (timers s).
Proof.
  intros I H0 H1. destruct (i_heap _ _ _ I) as (h & G1 & G2 & G3).
  pose proof (pq_size_heap _ _ _ _ I G1). rewrite (timers_eta _ _ G1).
  apply mh_extract_min_wp; [done| |].
  - assert (size (pq (nodes (timers s))) <> 0%nat) by (by intros ?%map_size_empty_inv). lia.
  - intros h' N' n nd A1 A2 A3 A4 A5 A6 A7 A8.
    assert (pq (nodes (timers s)) !! n = Some (MinHeap.key nd)).
    { apply pq_lookup. exists nd. split_and!; lia || done. }
    apply (H1 n nd); try done.
    eapply (heap_step_intro _ _ _ _ h h'); try done.
    + by apply keys_dom.
    + intros x Hx. simpl. by rewrite lookup_delete_ne.
    + simpl. rewrite lookup_delete_eq. split; [by intros []|done].
Qed.

(** ** Adding *)

(** What a step on the slot [i] preserves, for the caller's further use. *)
Record stays g iw s s' i e E E' : Prop := {
  st_inv : INV g iw s';
  st_keep : forall g', keep g' s s';
  st_slot : slot_at s' i e E';
  st_pending : pending_free E' = pending_free E;
  st_lock : modification_lock E' = modification_lock E;
  st_events : events E' = events E;
  st_timeout : timeout_ms E' = timeout_ms E;
  st_pool : pool s' = pool s;
  st_running : running s' = running s;
  st_others : forall x, x <> e -> evs s' !! x = evs s !! x
}.

Lemma INV_kern g iw s k : INV g iw s -> INV g iw (put_kern k s).
Proof. intros I. by eapply INV_frame. Qed.

Lemma stays_kern g iw s i e E k : INV g iw s -> slot_at s i e E -> stays g iw s (put_kern k s) i e E E.
Proof.
  intros I H. constructor; try done.
  - by apply INV_kern.
  - intros g'. by apply keep_same.
Qed.

(** The call of [epoll_ctl] that registers the event: its result and the world
    after it. *)
Definition register E i (k : K) : Z * K :=
  k_epoll_ctl (if active_fd E then EPOLL_CTL_MOD else EPOLL_CTL_ADD) (fd E)
    (Z.lor (convert_to_epoll_events (events E)) EPOLLET) (Some i) k.

Lemma insert_fd_to_epoll_wp g iw s i e E (Q : Z -> ust -> Prop) :
  INV g iw s -> few g (2 ^ 20) -> slot_at s i e E ->
  (forall s' E', stays g iw s s' i e E E' -> active_fd E' = true ->
     active_timer E' = active_timer E -> timers s' = timers s ->
     (register E i (kern s)).1 = 0 -> kern s' = (register E i (kern s)).2 -> Q UEV_ERR_OK s') ->
  (forall s', stays g iw s s' i e E E -> timers s' = timers s -> (register E i (kern s)).1 <> 0 -> Q UEV_ERR_EPOLL s') ->
  wp (insert_fd_to_epoll i) Q s.
Proof.
  intros I F Hs HQ HQ'. pose proof (slot_at_facts _ _ _ _ _ _ I Hs) as (F1 & F2 & F3 & F4 & F5).
  pose proof Hs as (u & Hu & Hue & He).
  unfold insert_fd_to_epoll. apply wp_bind. eapply wp_slot_ev_at; [done|].
  apply wp_bind. eapply wp_ev_get_at; [done|]. rewrite F2. cbn [negb].
  apply wp_bind, (wp_syscall_at (register E i)).
  set (k := (register E i (kern s)).2) in *. pose proof (stays_kern g iw s i e E k I Hs) as Hk.
  destruct (Z.eqb_spec (register E i (kern s)).1 0) as [Hz|Hz]; [|by apply wp_ret, HQ'].
  apply wp_bind. destruct (active_fd E) eqn:Ha; [by apply wp_ret, wp_ret, HQ with E|].
  cbn [negb when]. apply wp_bind, wp_ev_put.
  pose proof (refcount_small _ _ _ _ _ I F Hu) as [Hr _].
  pose proof (INV_fd_room _ _ _ I). pose proof (nfd_of_nonneg (evs s)).
  pose proof (i_small _ _ _ I).
  assert (forall s', slots s' = zset (slots s) i (Uev (Some e) (refcount u + fd_count e (set_active_fd true E))) ->
    evs s' = <[e := set_active_fd true E]> (evs s) -> timers s' = timers s -> pool s' = pool s ->
    free_uev_arr s' = free_uev_arr s -> free_uev_arr_cnt s' = free_uev_arr_cnt s ->
    running s' = running s -> num_active_timers s' = num_active_timers s ->
    num_active_fd s' = num_active_fd s + fd_count e (set_active_fd true E) -> kern s' = k ->
    Q UEV_ERR_OK s') as HQ0.
  { intros s' S1 S2 S3 S4 S5 S6 S7 S8 S9 S10.
    destruct (i_used _ _ _ I i u e Hu Hue) as (E0 & G1 & G2 & G3 & G4 & G5 & G6 & G7 & G8).
    rewrite He in G1. injection G1 as <-.
    pose proof (b2z_range (true && negb (bool_decide (e = wakeup_event)))) as Hb.
    assert (slot_at s' i e (set_active_fd true E)) as Hs'.
    { eexists. rewrite S1, S2. split; [by apply znth_zset_eq|]. by rewrite lookup_insert_eq. }
    eapply HQ; [constructor; try done| | |done|done|done]; simpl; try done.
    - eapply (INV_event g g iw s s' i u e E (set_active_fd true E)
        (refcount u + fd_count e (set_active_fd true E))); rewrite ?S3, ?S4; try done.
      + simpl. by eapply heap_step_refl.
      + by eapply pool_step_refl.
      + rewrite G5. unfold own, fd_count, set_active_fd. simpl. rewrite Ha. simpl. lia.
      + pose proof (b2z_range (active_fd (set_active_fd true E) && negb (bool_decide (e = wakeup_event)))). unfold fd_count. lia.
      + intros ->. destruct (i_wake _ _ _ I) as (W & W1 & W2 & W3 & W4 & W5 & W6). by simplify_eq.
      + rewrite S9. unfold fd_count. rewrite Ha. simpl. lia.
      + rewrite S8. apply I.
    - intros g'. by eapply keep_zset.
    - intros x Hx. rewrite S2. by apply lookup_insert_ne. }
  destruct (bool_decide_reflect (e = wakeup_event)) as [Hw|Hw]; cbn [negb when].
  - apply wp_ret, wp_ret. apply HQ0; simpl; try done.
    + unfold fd_count, set_active_fd. simpl. rewrite bool_decide_true by done. simpl.
      rewrite Z.add_0_r. symmetry. apply zset_id. rewrite Hu. destruct u. simpl in *. by subst.
    + unfold fd_count, set_active_fd. simpl. rewrite bool_decide_true by done. simpl. lia.
  - apply wp_bind, wp_modify. unfold uevent_ref. apply wp_bind.
    eapply wp_slot_get; [done|]. apply wp_bind, wp_slot_put. rewrite Hue, Hr.
    apply wp_bind. eapply wp_slot_ev; [by apply znth_zset_eq|done|].
    apply wp_bind. eapply wp_ev_get; [apply lookup_insert_eq|]. apply wp_ret, wp_ret.
    assert (fd_count e (set_active_fd true E) = 1) as Hc.
    { unfold fd_count, set_active_fd. simpl. by rewrite bool_decide_false. }
    apply HQ0; simpl; rewrite ?Hc; try done.
    rewrite (i_nfd _ _ _ I). apply swrap_small; lia.
Qed.

(** A step that touches only the outside world and the wake-up flag. *)
Definition quiet s s' : Prop :=
  exists k b, s' = put_kern k (put_wakeup_fd_written b s).

Lemma quiet_refl s : quiet s s.
Proof. exists (kern s), (wakeup_fd_written s). by destruct s. Qed.

Lemma INV_quiet g iw s s' : INV g iw s -> quiet s s' -> INV g iw s'.
Proof. intros I (k & b & ->). by eapply INV_frame. Qed.

Lemma stays_quiet g iw s s' s'' i e E E' :
  stays g iw s s' i e E E' -> quiet s' s'' -> stays g iw s s'' i e E E'.
Proof.
  intros [] Hq. pose proof (INV_quiet _ _ _ _ st_inv0 Hq). destruct Hq as (k & b & ->).
  by constructor.
Qed.

Lemma read_loop_wp (P : @ust K -> Prop) s (Q : Z * Z -> ust -> Prop) :
  KernelOk K -> (forall r k, Q r (put_kern k s)) -> wp (read_loop 2) Q s.
Proof.
  intros Ok HQ. pose proof (k_read_drains (kern s)) as Hd.
  simpl. apply wp_bind. unfold syscall at 1, wp at 1.
  destruct (k_read (kern s)) as [[r1 n1] k1] eqn:Hr1. simpl in *.
  destruct (Z.ltb_spec 0 r1) as [Hp|Hp]; [|apply HQ].
  specialize (Hd Hp). apply wp_bind. unfold syscall, wp at 1. simpl.
  destruct (k_read k1) as [[r2 n2] k2] eqn:Hr2. simpl in *.
  destruct (Z.ltb_spec 0 r2) as [Hp2|Hp2]; [lia|].
  apply wp_ret. replace (put_kern k2 (put_kern k1 s)) with (put_kern k2 s) by done. apply HQ.
Qed.

Lemma wakeup_fd_read_cb_wp s e E (Q : unit -> ust -> Prop) :
  KernelOk K -> evs s !! e = Some E -> base E = true ->
  (forall s', quiet s s' -> Q tt s') -> wp (wakeup_fd_read_cb e) Q s.
Proof.
  intros Ok He Hb HQ. apply wp_bind, (read_loop_wp (fun _ => True)); [done|]. intros r k.
  destruct (_ && _).
  - apply wp_ret, HQ. exists k, (wakeup_fd_written s). by destruct s.
  - apply wp_bind. eapply wp_ev_get; [done|]. rewrite Hb. apply wp_modify, HQ.
    exists k, false. by destruct s.
Qed.

Lemma wake_base g iw s : INV g iw s -> exists W, evs s !! wakeup_event = Some W /\ base W = true.
Proof.
  intros I. destruct (i_wake _ _ _ I) as (W & W1 & W2 & _). exists W. split; [done|].
  by destruct (slot_at_facts _ _ _ _ _ _ I (slot_at_of_ev _ _ _ _ _ _ I W1 W2)) as (_ & ? & _).
Qed.

Lemma wakeup_fd_reset_wp g iw s (Q : unit -> ust -> Prop) :
  KernelOk K -> INV g iw s -> (forall s', quiet s s' -> Q tt s') -> wp wakeup_fd_reset Q s.
Proof.
  intros Ok I HQ. apply wp_bind, wp_gets. destruct (wakeup_fd_written s); simpl.
  - destruct (wake_base _ _ _ I) as (W & W1 & W2). by eapply wakeup_fd_read_cb_wp.
  - apply wp_ret, HQ, quiet_refl.
Qed.

Lemma uevent_base_wakeup_wp g iw s (Q : unit -> ust -> Prop) :
  INV g iw s -> (forall s', quiet s s' -> Q tt s') -> wp (uevent_base_wakeup true) Q s.
Proof.
  intros I HQ. apply wp_bind, wp_gets.
  destruct (wakeup_fd_written s) eqn:Hw; simpl; [apply wp_ret, HQ, quiet_refl|].
  destruct (wake_base _ _ _ I) as (W & W1 & W2).
  apply wp_bind. eapply wp_ev_get; [done|]. apply wp_bind, wp_syscall. intros r k.
  destruct (_ && _).
  - apply wp_ret, HQ. exists k, (wakeup_fd_written s). by destruct s.
  - apply wp_modify, HQ. exists k, true. by destruct s.
Qed.

(** The deadline a call to [insert_timer_to_heap] sets. *)
Definition deadline (cur_time_ms timeout : Z) : Z :=
  u64 (cur_time_ms + u32 (if 0 <=? timeout then timeout else 0)).

Lemma stays_timer g iw s s' i u e E :
  INV g iw s -> znth (slots s) i = Some u -> ev u = Some e -> evs s !! e = Some E ->
  e <> wakeup_event ->
  heap_step s (timers s') e true ->
  num_active_timers s' = Z.of_nat (size (pq (nodes (timers s')))) ->
  slots s' = zset (slots s) i (Uev (Some e) (refcount u + 1 - b2z (active_timer E))) ->
  evs s' = <[e := set_active_timer true E]> (evs s) ->
  free_uev_arr s' = free_uev_arr s -> free_uev_arr_cnt s' = free_uev_arr_cnt s ->
  num_active_fd s' = num_active_fd s -> pool s' = pool s -> running s' = running s ->
  stays g iw s s' i e E (set_active_timer true E).
Proof.
  intros I Hu Hue He Hw Hh S1 S2 S3 S4 S5 S6 S7 S8.
  destruct (i_used _ _ _ I i u e Hu Hue) as (E0 & G1 & G2 & G3 & G4 & G5 & G6 & G7 & G8).
  rewrite He in G1. injection G1 as <-.
  constructor; try done.
  - eapply (INV_event g g iw s _ i u e E (set_active_timer true E)
      (refcount u + 1 - b2z (active_timer E))); rewrite ?S7; simpl; try done.
    + by eapply pool_step_refl.
    + rewrite G5. unfold own. simpl. lia.
    + pose proof (b2z_range (active_timer E)). lia.
    + rewrite S6. unfold fd_count. simpl. lia.
  - intros g'. by eapply keep_zset.
  - eexists. rewrite S2, S3. split; [by apply znth_zset_eq; eapply znth_Some_range|].
    by rewrite lookup_insert_eq.
  - intros x Hx. rewrite S3. by apply lookup_insert_ne.
Qed.

Lemma size_insert_active g iw s e E k :
  INV g iw s -> evs s !! e = Some E ->
  Z.of_nat (size (<[e := k]> (pq (nodes (timers s))))) =
    Z.of_nat (size (pq (nodes (timers s)))) + 1 - b2z (active_timer E).
Proof.
  intros I He. destruct (active_timer E) eqn:Ha; simpl.
  - rewrite map_size_insert_Some; [lia|]. rewrite (i_timer _ _ _ I). eauto.
  - rewrite map_size_insert_None; [lia|]. apply eq_None_not_Some. rewrite (i_timer _ _ _ I).
    intros (E' & A1 & A2). congruence.
Qed.

Lemma insert_timer_to_heap_wp g iw s i e E now timeout no_lock (Q : unit -> ust -> Prop) :
  INV g iw s -> few g (2 ^ 20) -> slot_at s i e E -> i <> iw ->
  (forall s', stays g iw s s' i e E (set_active_timer true E) ->
     pq (nodes (timers s')) = <[e := deadline now timeout]> (pq (nodes (timers s))) ->
     no_lock = true \/ (k_mutex_lock (kern s)).1 = 0 -> Q tt s') ->
  (forall s', no_lock = false -> stays g iw s s' i e E E -> timers s' = timers s ->
     (k_mutex_lock (kern s)).1 <> 0 -> Q tt s') ->
  wp (insert_timer_to_heap i now timeout no_lock) Q s.
Proof.
  intros I F Hs Hiw HQ HQ'. pose proof (slot_at_facts _ _ _ _ _ _ I Hs) as (F1 & F2 & F3 & F4 & F5).
  specialize (F4 Hiw). pose proof Hs as (u & Hu & Hue & He).
  pose proof (refcount_small _ _ _ _ _ I F Hu) as [Hr _].
  pose proof (INV_timers_room _ _ _ I) as Hroom. pose proof (i_small _ _ _ I) as Hsm.
  unfold insert_timer_to_heap. apply wp_bind. eapply wp_slot_ev_at; [done|].
  apply wp_bind. eapply wp_ev_get_at; [done|]. rewrite F2. cbn [negb]. apply wp_bind.
  assert (no_lock = true \/ (k_mutex_lock (kern s)).1 = 0 -> forall k, wp
     (nd ← heap_call (MinHeap.node_get e);
      heap_call (MinHeap.node_put e (MinHeap.Node (deadline now timeout) (MinHeap.idx nd)));;
      heap_call (MinHeap.mh_insert (Some e));;
      when (negb (active_timer E))
        (modify (fun s => put_num_active_timers (s32 (num_active_timers s + 1)) s);;
         ev_put e (set_active_timer true E);; uevent_ref i);;
      written ← gets wakeup_fd_written;
      wakeup ← (if (written : bool) then mret false
                else min ← heap_call MinHeap.mh_get_min; mret (bool_decide (min = Some e)));
      when wakeup (uevent_base_wakeup true)) Q (put_kern k s)) as Hmain.
  2: { destruct no_lock.
       - apply wp_ret. simpl. replace s with (put_kern (kern s) s) by (by destruct s). apply Hmain. by left.
       - unfold mutex_lock. apply wp_syscall_at.
         destruct (Z.eqb_spec (k_mutex_lock (kern s)).1 0) as [Hl|Hl]; cbn [negb]; [apply Hmain; by right|].
         apply wp_ret, HQ'; [done| |done|done]. by apply stays_kern. }
  intros Hl k. pose proof (INV_kern g iw s k I) as Ik.
  destruct (i_nodes _ _ _ I e) as [nd Hnd]; [eauto|].
  apply wp_bind. eapply wp_heap_node_get; [done|]. apply wp_bind, wp_heap_node_put.
  apply wp_bind, wp_heap. eapply (heap_insert_wp g iw s e E nd); [done..|].
  intros _ tm Hst Hpq. simpl.
  assert (forall s1, stays g iw s s1 i e E (set_active_timer true E) ->
    pq (nodes (timers s1)) = <[e := deadline now timeout]> (pq (nodes (timers s))) ->
    wp (written ← gets wakeup_fd_written;
      wakeup ← (if (written : bool) then mret false
                else min ← heap_call MinHeap.mh_get_min; mret (bool_decide (min = Some e)));
      when wakeup (uevent_base_wakeup true)) Q s1) as Htail.
  { intros s1 St1 Hp1. pose proof (st_inv _ _ _ _ _ _ _ _ St1) as I1.
    apply wp_bind, wp_gets, wp_bind.
    assert (forall b, wp (when b (uevent_base_wakeup true)) Q s1) as Hw.
    { intros []; simpl; [|by apply wp_ret, HQ].
      eapply uevent_base_wakeup_wp; [done|]. intros s2 Hq. apply HQ; [| |done].
      - by eapply stays_quiet.
      - by destruct Hq as (? & ? & ->). }
    destruct (wakeup_fd_written s1); [by apply wp_ret|].
    apply wp_bind, wp_heap. eapply heap_min_wp; [done| |]; intros; apply wp_ret;
      (replace (put_timers (timers s1) s1) with s1 by (by destruct s1)); apply Hw. }
  apply wp_bind. destruct (active_timer E) eqn:Ha; cbn [negb when].
  - apply wp_ret, Htail; [|done]. eapply stays_timer; simpl; try done.
    + rewrite Hpq, (size_insert_active _ _ _ _ _ _ I He), (i_ntm _ _ _ I), Ha. simpl. lia.
    + symmetry. apply zset_id. rewrite Hu, Ha. destruct u. simpl in *. subst. do 2 f_equal. lia.
    + symmetry. apply insert_id. rewrite He. f_equal. destruct E. simpl in *. by subst.
  - apply wp_bind, wp_modify, wp_bind, wp_ev_put. unfold uevent_ref. apply wp_bind.
    eapply wp_slot_get; [done|]. apply wp_bind, wp_slot_put. rewrite Hue, Hr.
    apply wp_bind. eapply wp_slot_ev; [by apply znth_zset_eq|done|].
    apply wp_bind. eapply wp_ev_get; [apply lookup_insert_eq|]. apply wp_ret.
    apply Htail; [|done]. eapply stays_timer; simpl; try done.
    + rewrite Hpq, (size_insert_active _ _ _ _ _ _ I He), (i_ntm _ _ _ I), Ha. simpl.
      rewrite swrap_small; lia.
    + rewrite Ha. simpl. do 2 f_equal. lia.
Qed.
End api.
