(* ===== verification/UeventMoves.v ===== *)
(** * uevent: what the operations do to the outside world

    A relation on the outside world that every system call respects, the waiting
    one apart, relates it before and after the operations of
    [src/uevent/uevent.c]: the clock does not go back, a record of the callbacks
    stays as it was.  The rules of the other files leave the outside world open;
    [wp_moves] adds the relation to them. *)

From S2P Require Import Prelude.
From S2P Require Import MinHeap.
From S2P Require Import MinHeapInv.
From S2P Require Import MinHeapOps.
From S2P Require Import Uevent.
From S2P Require Import UeventInv.
From S2P Require Import UeventSteps.
From S2P Require Import UeventOps.
From S2P Require Import UeventAdd.
Import MinHeap (mst, mh, nodes, capacity, minheap_t, minheap_node_t).
Import Uevent.

Section moves.
Context {K : Type} {Kern : Kernel K}.
Implicit Types (s : @ust K) (g : Z -> Z) (E : uevent_t) (e : loc) (i : Z).

(** What the system calls other than [epoll_wait] do to the outside world. *)
Class Steady (R : K -> K -> Prop) : Prop := {
  steady_order :: PreOrder R;
  steady_ctl op fd' mask (o : option Z) k : R k (k_epoll_ctl op fd' mask o k).2;
  steady_lock k : R k (k_mutex_lock k).2;
  steady_time k : R k (k_time_ms k).2;
  steady_alloc r k : R k (k_alloc r k).2;
  steady_eventfd k : R k (k_eventfd k).2;
  steady_write k : R k (k_write k).2;
  steady_read k : R k (k_read k).2
}.

Definition moves (R : K -> K -> Prop) {A} (m : M (@ust K) A) : Prop :=
  forall s a s', m s = Some (a, s') -> R (kern s) (kern s').

Lemma wp_moves (R : K -> K -> Prop) {A} (m : M ust A) (Q : A -> ust -> Prop) s :
  moves R m -> wp m (fun a s' => R (kern s) (kern s') -> Q a s') s -> wp m Q s.
Proof. intros Hm. unfold wp. destruct (m s) as [[a s']|] eqn:E; eauto. Qed.

Section closure.
Context (R : K -> K -> Prop) {HR : PreOrder R}.

Lemma moves_ret {A} (a : A) : moves R (mret a).
Proof. by intros s b s' [= <- <-]. Qed.

Lemma moves_ub {A} : moves R (ub : M _ A).
Proof. by intros s b s'. Qed.

Lemma moves_gets {A} (f : ust -> A) : moves R (gets f).
Proof. by intros s b s' [= <- <-]. Qed.

Lemma moves_of_option {A} (o : option A) : moves R (of_option o).
Proof. destruct o; [apply moves_ret|apply moves_ub]. Qed.

Lemma moves_modify f : (forall s, kern (f s) = kern s) -> moves R (modify f).
Proof. intros H s b s' [= <- <-]. by rewrite H. Qed.

Lemma moves_bind {A B} (m : M ust A) (k : A -> M ust B) :
  moves R m -> (forall a, moves R (k a)) -> moves R (m ≫= k).
Proof.
  intros Hm Hk s b s' H. unfold mbind, M_bind in H. destruct (m s) as [[a s1]|] eqn:E; [|done].
  apply Hm in E. apply Hk in H. by etrans.
Qed.

Lemma moves_syscall {A} (f : K -> A * K) : (forall k, R k (f k).2) -> moves R (syscall f).
Proof. intros Hf s a s' [= <- <-]. apply Hf. Qed.

Lemma moves_heap {A} (m : M mst A) : moves R (heap_call m).
Proof.
  intros s a s' H. unfold heap_call, zoom in H. destruct (m (timers s)) as [[b t]|]; [|done].
  by injection H as <- <-.
Qed.
End closure.
End moves.

Create HintDb moves.
#[export] Hint Resolve moves_ret moves_ub moves_gets moves_of_option moves_heap : moves.
#[export] Hint Extern 0 (PreOrder _) => apply _ : moves.
#[export] Hint Extern 0 (Steady _) => apply _ : moves.

(** Through the text of a computation, one step at a time. *)
Ltac moves_step :=
  lazymatch goal with
  | |- moves _ (mbind _ _) => apply moves_bind; [apply _| |intros ?]
  | |- moves _ (modify _) => apply moves_modify; [apply _|done]
  | |- moves _ (if ?b then _ else _) => destruct b
  | |- moves _ (match ?x with _ => _ end) => destruct x
  | |- moves _ (when ?b _) => unfold when
  | |- moves _ (syscall _) => apply moves_syscall; intros;
      first [apply steady_ctl | apply steady_lock | apply steady_time | apply steady_alloc
            | apply steady_eventfd | apply steady_write | apply steady_read]
  | |- moves _ _ => solve [eauto with moves]
  end.
Ltac moves_tac := repeat moves_step.

(** The computations that make no system call. *)
Section silent.
Context {K : Type} {Kern : Kernel K} (R : K -> K -> Prop) {HR : PreOrder R}.
Implicit Types (s : @ust K) (E : uevent_t) (e : loc) (i : Z).

Lemma moves_slot_get i : moves R (slot_get i).
Proof. unfold slot_get. moves_tac. Qed.
Lemma moves_slot_put i u : moves R (slot_put i u).
Proof. unfold slot_put. moves_tac. Qed.
Lemma moves_ev_get e : moves R (ev_get e).
Proof. unfold ev_get. moves_tac. Qed.
Lemma moves_ev_put e E : moves R (ev_put e E).
Proof. unfold ev_put. moves_tac. Qed.
#[local] Hint Resolve moves_slot_get moves_slot_put moves_ev_get moves_ev_put : moves.

Lemma moves_slot_ev i : moves R (slot_ev i).
Proof. unfold slot_ev. moves_tac. Qed.
#[local] Hint Resolve moves_slot_ev : moves.

Lemma moves_put i : moves R (uevent_put (Some i)).
Proof.
  unfold uevent_put, uevent_refcount_dec_and_test, refcount_dec,
    uevent_destroy_uev_internal_unsafe, uev_return, uevent_reset_static_ev, free_ev.
  moves_tac.
Qed.

Lemma moves_try_ref i : moves R (uevent_try_ref (Some i)).
Proof. unfold uevent_try_ref, refcount_inc_not_zero, refcount_dec. moves_tac. Qed.

End silent.

#[export] Hint Resolve moves_slot_get moves_slot_put moves_ev_get moves_ev_put moves_slot_ev moves_put moves_try_ref : moves.

Section operations.
Context {K : Type} {Kern : Kernel K} (R : K -> K -> Prop) {HR : Steady R}.
Implicit Types (s : @ust K) (E : uevent_t) (e : loc) (i : Z).

Lemma moves_time_ms : moves R time_ms.
Proof. unfold time_ms. moves_tac. Qed.

Lemma moves_persist i cron : moves R (cron_persist_event_if_needed_internal_unsafe i cron).
Proof.
  unfold cron_persist_event_if_needed_internal_unsafe, insert_timer_to_heap, mutex_lock, uevent_ref,
    uevent_base_wakeup. moves_tac.
Qed.

Lemma moves_read_loop n : moves R (read_loop n).
Proof. induction n as [|n IH]; cbn [read_loop]; moves_tac. Qed.
#[local] Hint Resolve moves_read_loop moves_time_ms moves_persist : moves.

Lemma moves_read_cb e : moves R (wakeup_fd_read_cb e).
Proof. unfold wakeup_fd_read_cb. moves_tac. Qed.
#[local] Hint Resolve moves_read_cb : moves.

Lemma moves_wakeup_fd_reset : moves R wakeup_fd_reset.
Proof. unfold wakeup_fd_reset. moves_tac. Qed.

Lemma moves_del i : moves R (uevent_del (Some i)).
Proof.
  unfold uevent_del, remove_event_from_epoll, remove_event_from_heap, atomic_deactivate_fd,
    atomic_deactivate_timer, mutex_lock, uevent_put_. moves_tac.
Qed.

(** The handling of timers, when the user functions respect the relation. *)
Lemma moves_call_cb user_cb e cron :
  (forall f e' fd' trig arg', moves R (user_cb f e' fd' trig arg')) -> moves R (call_cb_if_exists user_cb e cron).
Proof.
  intros Hu. assert (forall c e' fd' trig arg', moves R (call_callback user_cb c e' fd' trig arg')) as Hc.
  { intros [|f] e' fd' trig arg'; simpl; eauto with moves. }
  unfold call_cb_if_exists, uevent_handle_ev_cb, dispatch_event_callback, uevent_user_cb_wrapper,
    uevent_try_lock, uevent_unlock, uevent_worker_pool_insert, uevent_put_, uevent_ref.
  moves_tac.
Qed.

Lemma moves_timers_loop user_cb max now :
  (forall f e' fd' trig arg', moves R (user_cb f e' fd' trig arg')) -> moves R (timers_loop user_cb max now).
Proof.
  intros Hu. induction max as [|max IH]; cbn [timers_loop]; [moves_tac|].
  pose proof (fun e cron => moves_call_cb user_cb e cron Hu). moves_tac.
Qed.
End operations.

#[export] Hint Resolve moves_time_ms moves_persist moves_wakeup_fd_reset moves_read_cb moves_del : moves.

(** ** The timeout given to epoll *)

Section timeout.
Context {K : Type} {Kern : Kernel K} {Kok : KernelOk K} (R : K -> K -> Prop) {HR : Steady R}.
Implicit Types (s : @ust K).

(** How the timeout [t] was chosen: a minute without timers; 100 ms when the
    mutex cannot be taken; else the time to the earliest deadline [d], between
    0 and a minute, by the clock as it was read last. *)
Definition timeout_for s s' (t : Z) : Prop :=
  let T := pq (nodes (timers s)) in
  T = ∅ /\ t = 60000 \/
  T <> ∅ /\ t = 100 /\ (exists k, (k_mutex_lock k).1 <> 0) \/
  exists k e d, R (kern s) k /\ kern s' = (k_time_ms k).2 /\ is_min T e /\ T !! e = Some d /\
    t = Z.min 60000 (Z.max 0 (d - (k_time_ms k).1)).

Lemma epoll_timeout_wp g iw s (Q : Z -> ust -> Prop) :
  INV g iw s -> (forall k, 0 <= (k_time_ms k).1) ->
  (forall e k, pq (nodes (timers s)) !! e = Some k -> k < 2 ^ 64) ->
  (forall t s', quiet s s' -> timeout_for s s' t -> R (kern s) (kern s') -> Q t s') ->
  wp calculate_epoll_timeout Q s.
Proof.
  intros I Hn Hkeys HQ. unfold calculate_epoll_timeout.
  apply wp_bind, (wp_moves R); [eauto with moves|]. eapply wakeup_fd_reset_wp; [done..|].
  intros s1 Hq1 M1. pose proof (INV_quiet _ _ _ _ I Hq1) as I1.
  assert (timers s1 = timers s) as Ht1 by (by destruct Hq1 as (? & ? & ->)).
  assert (forall k, quiet s (put_kern k s1)) as Hk by (intros k; destruct Hq1 as (? & b & ->); by exists k, b).
  apply wp_bind, wp_gets. rewrite (i_ntm _ _ _ I1), Ht1.
  destruct (Z.eqb_spec (Z.of_nat (size (pq (nodes (timers s))))) 0) as [Hz|Hz].
  { apply wp_ret, HQ; [by destruct Hq1 as (k & b & ->); exists k, b|left; split; [|done]|done].
    apply map_size_empty_inv. lia. }
  assert (pq (nodes (timers s)) <> ∅) as Hne by (intros H0; by rewrite H0 in Hz).
  apply wp_bind. unfold mutex_lock, syscall, wp at 1. pose proof (steady_lock (R:=R) (kern s1)) as M2.
  destruct (Z.eqb_spec (k_mutex_lock (kern s1)).1 0) as [Hl|Hl]; cbn [negb].
  2: { apply wp_ret, HQ; [apply Hk|right; left; split_and!; [done|done|by eexists]|by etrans]. }
  assert (R (kern s) (k_mutex_lock (kern s1)).2) as M12 by by etrans.
  set (k1 := (k_mutex_lock _).2) in *. clearbody k1.
  assert (put_timers (timers (put_kern k1 s1)) (put_kern k1 s1) = put_kern k1 s1) as Hid by (by destruct s1).
  apply wp_bind, wp_heap. eapply heap_min_wp; [by apply INV_frame with s1| |]; rewrite Hid; simpl; rewrite Ht1; [done|].
  intros e nd Hnd Hmin Hke. apply wp_bind. unfold time_ms, syscall, wp at 1. cbn [kern put_kern].
  pose proof (Hn k1) as Hn1. pose proof (steady_time (R:=R) k1) as M3.
  destruct (proj1 (i_timer _ _ _ I1 e)) as (E & He & _); [rewrite Ht1; eauto|].
  apply wp_bind. eapply wp_ev_get; [done|]. apply wp_bind.
  eapply wp_heap_node_key; [simpl; by rewrite Ht1|]. specialize (Hkeys _ _ Hke). unfold EPOLL_MAX_TIMEOUT_MS.
  assert (forall t, t = Z.min 60000 (Z.max 0 (MinHeap.key nd - (k_time_ms k1).1)) ->
    Q t (put_kern (k_time_ms k1).2 (put_kern k1 s1))) as Hend.
  { intros t ->. apply HQ; [exact (Hk _)|right; right|by etrans; [|exact M3]].
    by exists k1, e, (MinHeap.key nd). }
  set (now := (k_time_ms k1).1) in *.
  destruct (Z.leb_spec (MinHeap.key nd) now); [apply wp_ret, Hend; lia|].
  rewrite wrap_small by lia.
  destruct (Z.ltb_spec (MinHeap.key nd - now) 60000); apply wp_ret, Hend; rewrite ?swrap_small; lia.
Qed.
End timeout.
