(* ===== verification/UeventApi.v ===== *)
(** * uevent: the rules of the public interface

    For every operation of the interface of [src/uevent/uevent.c], from [INV]:
    no undefined behaviour, the invariant afterwards, and what the operation
    did to the event. *)

From S2P Require Import Prelude.
From S2P Require Import MinHeap.
From S2P Require Import MinHeapInv.
From S2P Require Import MinHeapOps.
From S2P Require Import Uevent.
From S2P Require Import UeventInv.
From S2P Require Import UeventSteps.
From S2P Require Import UeventOps.
From S2P Require Import UeventAdd.
From S2P Require Import UeventMoves.
Import MinHeap (mst, mh, nodes, capacity, minheap_t, minheap_node_t).
Import Uevent.

Section api.
Context {K : Type} {Kern : Kernel K}.
Implicit Types (s : @ust K) (g : Z -> Z) (E : uevent_t) (e : loc) (i : Z).

(** What every call of the interface guarantees to its caller. *)
Record calls g iw s s' : Prop := {
  cl_inv : INV g iw s';
  cl_keep : keep g s s';
  cl_running : running s' = running s
}.

Lemma stays_trans g iw s s' s'' i e E E' E'' :
  stays g iw s s' i e E E' -> stays g iw s' s'' i e E' E'' -> stays g iw s s'' i e E E''.
Proof.
  intros [] []. constructor; try done; try congruence.
  - intros g'. eapply keep_trans; [apply st_keep|apply st_keep0|done].
  - intros x Hx. by rewrite st_others0, st_others.
Qed.

Lemma stays_refl g iw s i e E : INV g iw s -> slot_at s i e E -> stays g iw s s i e E E.
Proof. intros I Hs. constructor; try done. intros. apply keep_refl. Qed.

(** ** uevent_add *)

(** The timeout [uevent_add] uses. *)
Definition add_timeout E (t : Z) : Z := if t =? -2 then timeout_ms E else t.

Definition wants_timer E (t : Z) : bool := has (events E) UEV_TIMEOUT || (t <? 0).

(** Registering the descriptor, when the event has one: the result of [epoll_ctl]
    and the world after it. *)
Definition registered E i (k : K) : Z * K :=
  if internal_is_fd_event E then register E i k else (UEV_ERR_OK, k).

(** The effect of a successful [uevent_add] on the event and on the timers, [rc]
    being the answer of the mutex of the base: the descriptor is registered, and
    the timer is set to its deadline if the event wants one and the mutex could be
    taken. *)
Definition added s s' e E E' (now t rc : Z) : Prop :=
  active_fd E' = active_fd E || internal_is_fd_event E /\
  if wants_timer E t && (rc =? 0)
  then active_timer E' = true /\
       pq (nodes (timers s')) = <[e := deadline now t]> (pq (nodes (timers s)))
  else active_timer E' = active_timer E /\ timers s' = timers s.

Lemma uevent_add_internal_wp g iw s i e E now t (Q : Z -> ust -> Prop) :
  INV g iw s -> few g (2 ^ 20) -> slot_at s i e E -> (i = iw -> 0 <= t) ->
  pending_free E = false ->
  (forall s', stays g iw s s' i e E E -> internal_is_fd_event E = true ->
     timers s' = timers s -> (registered E i (kern s)).1 <> 0 -> Q UEV_ERR_EPOLL s') ->
  (forall s' E', stays g iw s s' i e E E' -> (registered E i (kern s)).1 = 0 ->
     added s s' e E E' now t (k_mutex_lock (registered E i (kern s)).2).1 -> Q UEV_ERR_OK s') ->
  wp (uevent_add_internal_unsafe e now t false) Q s.
Proof.
  intros I F Hs Hiw Hp HQ HQ'.
  pose proof (slot_at_facts _ _ _ _ _ _ I Hs) as (F1 & F2 & F3 & F4 & F5).
  assert (forall s1 E1, stays g iw s s1 i e E E1 -> timers s1 = timers s ->
    active_timer E1 = active_timer E -> active_fd E1 = active_fd E || internal_is_fd_event E ->
    (registered E i (kern s)).1 = 0 -> kern s1 = (registered E i (kern s)).2 ->
    wp (when (wants_timer E t) (i ← of_option (uev E); insert_timer_to_heap i now t false);;
        mret UEV_ERR_OK) Q s1) as Htimer.
  { intros s1 E1 St Ht Ha Hf Hr Hk. apply wp_bind.
    destruct (wants_timer E t) eqn:Hw; cbn [when].
    2: { apply wp_ret, wp_ret, (HQ' _ E1); [done..|]. split; [done|]. by rewrite Hw. }
    apply wp_bind. eapply wp_of_option; [done|].
    eapply (insert_timer_to_heap_wp g iw s1 i e E1); [apply St|done|apply St| | |].
    - intros Hi. specialize (Hiw Hi).
      destruct (i_wake _ _ _ I) as (W & W1 & W2 & W3 & W4 & W5 & W6).
      destruct (slot_at_of_ev _ _ _ _ _ _ I W1 W2) as (u & U1 & U2 & U3).
      destruct Hs as (u' & V1 & V2 & V3). unfold wants_timer in Hw.
      assert (E = W) as -> by (subst; simplify_eq; congruence).
      rewrite W5 in Hw. simpl in Hw. lia.
    - intros s2 St2 Hpq [?|Hl]; [done|]. apply wp_ret, (HQ' _ (set_active_timer true E1)); [|done|].
      + by eapply stays_trans.
      + split; [done|]. rewrite Hw, Hpq, Ht, <- Hk, Hl. done.
    - intros s2 _ St2 Hpq Hl%Z.eqb_neq. apply wp_ret, (HQ' _ E1); [|done|].
      + by eapply stays_trans.
      + split; [done|]. rewrite Hw, Hpq, Ht, <- Hk, Hl. done. }
  unfold uevent_add_internal_unsafe. apply wp_bind. eapply wp_ev_get_at; [done|].
  rewrite Hp. apply wp_bind. unfold registered in *. destruct (internal_is_fd_event E) eqn:Hfd.
  - apply wp_bind. eapply wp_of_option; [done|].
    eapply insert_fd_to_epoll_wp; [done..| |].
    + intros s1 E1 St Hf Ha Ht Hr Hk. apply (Htimer _ E1); try done. by rewrite orb_true_r.
    + intros s1 St Ht Hr. apply wp_ret, HQ; done.
  - apply wp_ret. apply (Htimer s E); try done; [|by rewrite orb_false_r].
    by apply stays_refl.
Qed.

(** What [uevent_add] returns, and the state it leaves.  The clock is read first,
    then the descriptor is registered, then the mutex of the base is taken. *)
Inductive add_post s s' i (t : Z) : Z -> Prop :=
  | AddDead : ~ live s i -> s' = s -> add_post s s' i t UEV_ERR_PENDING_FREE
  | AddBusy e E : slot_at s i e E -> pending_free E = false -> modification_lock E = true ->
      slot_at s' i e E -> timers s' = timers s -> add_post s s' i t UEV_ERR_BUSY
  | AddEpoll e E : slot_at s i e E -> pending_free E = false -> modification_lock E = false ->
      internal_is_fd_event E = true -> (registered E i (k_time_ms (kern s)).2).1 <> 0 ->
      slot_at s' i e E -> timers s' = timers s -> add_post s s' i t UEV_ERR_EPOLL
  | AddOk e E E' : slot_at s i e E -> pending_free E = false -> modification_lock E = false ->
      (registered E i (k_time_ms (kern s)).2).1 = 0 ->
      slot_at s' i e E' -> pending_free E' = false -> modification_lock E' = false ->
      added s s' e E E' (k_time_ms (kern s)).1 (add_timeout E t)
        (k_mutex_lock (registered E i (k_time_ms (kern s)).2).2).1 -> add_post s s' i t UEV_ERR_OK.

Lemma few_up g n : few g (2 ^ 20 - 1) -> few (gadd g n) (2 ^ 20).
Proof. intros F. eapply few_gadd; [done|]. lia. Qed.

Lemma gadd_pos g i : (forall j, 0 <= g j) -> forall j, 0 < g j -> 0 < gadd g i j.
Proof. intros Hg j Hj. unfold gadd. case_decide; lia. Qed.

Lemma keep_gadd g i s s' : few g (2 ^ 20 - 1) -> keep (gadd g i) s s' -> keep g s s'.
Proof.
  intros F Hk. eapply keep_weaken; [done|]. apply gadd_pos. intros j. apply F.
Qed.

Lemma keep_len g s s' : keep g s s' -> zlen (slots s') = zlen (slots s).
Proof. by intros []. Qed.

Lemma unlock_lock E : modification_lock E = false ->
  set_modification_lock false (set_modification_lock true E) = E.
Proof. destruct E. simpl. by intros ->. Qed.

Lemma uevent_add_wp g iw s i t (Q : Z -> ust -> Prop) :
  INV g iw s -> few g (2 ^ 20 - 1) -> 0 <= i < zlen (slots s) -> (i = iw -> 0 <= t) ->
  (forall r s', calls g iw s s' -> pool s' = pool s -> add_post s s' i t r -> Q r s') ->
  wp (uevent_add (Some i) t) Q s.
Proof.
  intros I F Hi Hiw HQ. pose proof (few_up _ i F) as F'.
  unfold uevent_add. apply wp_bind, (wp_moves eq); [eauto with moves|].
  apply (uevent_try_ref_wp g iw); try done.
  { eapply few_le; [done|]. lia. }
  { intros Hd _. apply wp_ret, HQ; [|done|by constructor]. constructor; try done. apply keep_refl. }
  intros s1 e E I1 K1 Hs1 Hs Hp P1 R1 T1 V1 W1.
  pose proof (keep_len _ _ _ (K1 g)) as L1.
  apply wp_bind. eapply wp_slot_ev_at; [done|]. apply wp_bind.
  eapply uevent_try_lock_wp; [done..| |].
  { intros Hl. apply wp_bind. eapply (uevent_put__wp g iw); [done..|by rewrite L1|].
    intros s2 I2 K2 P2 R2 H2 _ _. destruct (H2 e E Hs1 (or_introl Hp)) as (Hs2 & T2 & _).
    apply wp_ret, HQ; [constructor; [done| |congruence]|congruence|].
    - eapply (keep_trans _ g); [apply K1|exact K2|done].
    - eapply AddBusy; try done. congruence. }
  intros s2 -> Hl I2. cbn [negb].
  set (E2 := set_modification_lock true E) in *.
  assert (slot_at (put_evs (<[e:=E2]> (evs s1)) s1) i e E2) as Hs2
    by (by eapply (slot_at_insert s1)).
  apply wp_bind. eapply wp_ev_get_at; [done|]. apply wp_bind. unfold time_ms. apply wp_syscall_at.
  cbn [kern put_evs]. rewrite <- W1. set (k := (k_time_ms (kern s)).2). set (now := (k_time_ms (kern s)).1).
  apply wp_bind.
  change (timeout_ms E2) with (timeout_ms E). fold (add_timeout E t).
  eapply (uevent_add_internal_wp (gadd g i) iw _ i e E2); try done.
  { by apply INV_kern. }
  { intros Hii. specialize (Hiw Hii). unfold add_timeout. destruct (Z.eqb_spec t (-2)); lia. }
  - intros s3 [I3 K3 Hs3 Hp3 Hl3 He3 Ht3 P3 R3 _] Hfd T3 G3. apply wp_bind. eapply uevent_unlock_wp; [done..|].
    intros s4 -> I4. unfold E2 in *. rewrite unlock_lock in * by done.
    assert (slot_at (put_evs (<[e:=E]> (evs s3)) s3) i e E) as Hs4
      by (by eapply (slot_at_insert s3)).
    apply wp_bind. eapply (uevent_put__wp g iw); try done.
    { simpl. rewrite (keep_len _ _ _ (K3 g)). simpl. by rewrite L1. }
    intros s5 I5 K5 P5 R5 H5 _ _. destruct (H5 e E Hs4 (or_introl Hp)) as (Hs5 & T5 & _).
    apply wp_ret, HQ; [constructor; [done| |]| |].
    + eapply (keep_trans _ g); [apply K1| |done].
      by apply (keep_trans _ g _ s3); [exact (K3 g)|exact K5|].
    + simpl in *. congruence.
    + simpl in *. congruence.
    + eapply AddEpoll; try done. simpl in *. congruence.
  - intros s3 E3 [I3 K3 Hs3 Hp3 Hl3 He3 Ht3 P3 R3 _] G3 Had. apply wp_bind. eapply uevent_unlock_wp; [done..|].
    intros s4 -> I4.
    assert (slot_at (put_evs (<[e:=set_modification_lock false E3]> (evs s3)) s3) i e
      (set_modification_lock false E3)) as Hs4
      by (by eapply (slot_at_insert s3)).
    apply wp_bind. eapply (uevent_put__wp g iw); try done.
    { simpl. rewrite (keep_len _ _ _ (K3 g)). simpl. by rewrite L1. }
    assert (pending_free (set_modification_lock false E3) = false) as Hp4 by (simpl in *; congruence).
    intros s5 I5 K5 P5 R5 H5 _ _. destruct (H5 e _ Hs4 (or_introl Hp4)) as (Hs5 & T5 & _).
    apply wp_ret, HQ; [constructor; [done| |]| |].
    + eapply (keep_trans _ g); [apply K1| |done].
      by apply (keep_trans _ g _ s3); [exact (K3 g)|exact K5|].
    + simpl in *. congruence.
    + simpl in *. congruence.
    + eapply (AddOk _ _ _ _ e E _); try done. unfold added in *. simpl in *.
      rewrite T5, <- T1. done.
Qed.
End api.
