(* ===== verification/UeventDel.v ===== *)
(** * uevent: removing, freeing and querying events

    The rules for [uevent_del], [uevent_free], the queries and
    [uevent_create_or_assign_event] of [src/uevent/uevent.c]. *)

From S2P Require Import Prelude.
From S2P Require Import MinHeap.
From S2P Require Import MinHeapInv.
From S2P Require Import MinHeapOps.
From S2P Require Import Uevent.
From S2P Require Import UeventInv.
From S2P Require Import UeventSteps.
From S2P Require Import UeventOps.
From S2P Require Import UeventAdd.
From S2P Require Import UeventMoves.
From S2P Require Import UeventApi.
Import MinHeap (mst, mh, nodes, capacity, minheap_t, minheap_node_t).
Import Uevent.

Section del.
Context {K : Type} {Kern : Kernel K}.
Implicit Types (s : @ust K) (g : Z -> Z) (E : uevent_t) (e : loc) (i : Z).

(** An event gives one of its own references to the caller. *)
Lemma INV_handover g iw s s' i u e E E' :
  INV g iw s -> znth (slots s) i = Some u -> ev u = Some e -> evs s !! e = Some E ->
  i <> iw -> same_identity E E' -> is_in_worker_pool E' = is_in_worker_pool E ->
  heap_step s (timers s') e (active_timer E') -> own e E' = own e E - 1 ->
  slots s' = slots s -> evs s' = <[e := E']> (evs s) ->
  free_uev_arr s' = free_uev_arr s -> free_uev_arr_cnt s' = free_uev_arr_cnt s ->
  num_active_fd s' = num_active_fd s + fd_count e E' - fd_count e E ->
  num_active_timers s' = Z.of_nat (size (pq (nodes (timers s')))) ->
  pool s' = pool s ->
  INV (gadd g i) iw s'.
Proof.
  intros I Hu Hue He Hi Hid Hpool Hst Hown S1 S2 S3 S4 S5 S6 S7.
  destruct (i_used _ _ _ I i u e Hu Hue) as (E0 & F1 & F2 & F3 & F4 & F5 & F6 & F7 & F8).
  rewrite He in F1. injection F1 as <-.
  eapply (INV_event g (gadd g i) iw s s' i u e E E' (refcount u)); try done.
  - rewrite S7. by eapply pool_step_refl.
  - rewrite gadd_eq, S7. lia.
  - intros j Hj. by apply gadd_ne.
  - intros ->. destruct (i_wake _ _ _ I) as (W & W1 & W2 & _). congruence.
  - rewrite S1. symmetry. apply zset_id. rewrite Hu. destruct u. simpl in *. by subst.
Qed.

(** The world after the descriptor of the event was taken out of epoll. *)
Definition deregistered E (k : K) : K :=
  if active_fd E && internal_is_fd_event E then (k_epoll_ctl EPOLL_CTL_DEL (fd E) 0 None k).2 else k.

Lemma remove_event_from_epoll_wp g iw s i e E (Q : unit -> ust -> Prop) :
  INV g iw s -> few g (2 ^ 20 - 1) -> slot_at s i e E -> i <> iw ->
  pending_free E = false \/ 0 < g i ->
  (forall s', stays g iw s s' i e E (set_active_fd false E) -> timers s' = timers s ->
     kern s' = deregistered E (kern s) -> Q tt s') ->
  wp (remove_event_from_epoll i) Q s.
Proof.
  intros I F Hs Hi Hlive HQ. pose proof (slot_at_facts _ _ _ _ _ _ I Hs) as (F1 & F2 & F3 & F4 & F5).
  specialize (F4 Hi). pose proof Hs as (u & Hu & Hue & He).
  unfold remove_event_from_epoll. apply wp_bind. eapply wp_slot_ev_at; [done|].
  apply wp_bind. eapply wp_ev_get_at; [done|]. rewrite F2. cbn [negb]. apply wp_bind.
  unfold atomic_deactivate_fd. apply wp_bind. eapply wp_ev_get_at; [done|].
  unfold deregistered in HQ.
  apply wp_bind, wp_ev_put, wp_ret. destruct (active_fd E) eqn:Ha; cbn [negb andb] in *.
  2: { apply wp_ret, HQ; [|done..]. replace (set_active_fd false E) with E by (destruct E; simpl in *; by subst).
       rewrite insert_id by done. replace (put_evs (evs s) s) with s by (by destruct s).
       by apply stays_refl. }
  set (kd := if internal_is_fd_event E then _ else _) in HQ.
  assert (wp (when (negb (bool_decide (e = wakeup_event)))
        (modify (fun s => put_num_active_fd (s32 (num_active_fd s - 1)) s));; uevent_put_ i) Q
     (put_kern kd (put_evs (<[e := set_active_fd false E]> (evs s)) s))) as Hmain.
  2: { apply wp_bind. unfold kd in Hmain. destruct (internal_is_fd_event E); cbn [when].
       - apply wp_bind, wp_syscall_at, wp_ret, Hmain.
       - apply wp_ret, Hmain. }
  rewrite bool_decide_false by done. cbn [negb when].
  apply wp_bind, wp_modify.
  pose proof (INV_fd_room _ _ _ I). pose proof (i_small _ _ _ I).
  pose proof (nfd_of_nonneg (delete e (evs s))) as Hnn.
  assert (fd_count e E = 1) as Hc by (unfold fd_count; rewrite Ha, bool_decide_false; done).
  pose proof (nfd_of_lookup _ _ _ He) as Hnl.
  apply (wp_moves eq); [unfold uevent_put_; moves_tac|].
  eapply (uevent_put__wp g iw); try done.
  - eapply (INV_handover g iw s _ i u e E (set_active_fd false E)); simpl; try done.
    + by eapply heap_step_refl.
    + unfold own. simpl. rewrite Ha, bool_decide_false by done. simpl. lia.
    + rewrite (i_nfd _ _ _ I), swrap_small by lia. unfold fd_count at 1. simpl. lia.
    + apply I.
  - intros s' I' K' P' R' H' _ _ W'.
    destruct (H' e (set_active_fd false E)) as (Hs' & T' & K'' & V''); [|done|].
    { by eapply (slot_at_insert s). }
    apply HQ; [|done|done]. constructor; try done. intros x Hx. rewrite V''. by apply lookup_insert_ne.
Qed.

(** The effect of [remove_event_from_heap], [rc] being the answer of the mutex: the
    timer is gone, if the event had one and the mutex could be taken. *)
Definition untimed s s' e E E' (rc : Z) : Prop :=
  if active_timer E && (rc =? 0)
  then E' = set_active_timer false E /\ pq (nodes (timers s')) = delete e (pq (nodes (timers s)))
  else E' = E /\ timers s' = timers s.

Lemma remove_event_from_heap_wp g iw s i e E (Q : unit -> ust -> Prop) :
  INV g iw s -> few g (2 ^ 20 - 1) -> slot_at s i e E -> i <> iw ->
  pending_free E = false \/ 0 < g i ->
  (forall s' E', stays g iw s s' i e E E' -> active_fd E' = active_fd E ->
     untimed s s' e E E' (k_mutex_lock (kern s)).1 ->
     kern s' = (if active_timer E then (k_mutex_lock (kern s)).2 else kern s) -> Q tt s') ->
  wp (remove_event_from_heap i false) Q s.
Proof.
  intros I F Hs Hi Hlive HQ. pose proof (slot_at_facts _ _ _ _ _ _ I Hs) as (F1 & F2 & F3 & F4 & F5).
  specialize (F4 Hi). pose proof Hs as (u & Hu & Hue & He).
  unfold remove_event_from_heap. apply wp_bind. eapply wp_slot_ev_at; [done|].
  apply wp_bind. eapply wp_ev_get_at; [done|]. rewrite F2. cbn [negb]. apply wp_bind.
  unfold atomic_deactivate_timer. apply wp_bind. eapply wp_ev_get_at; [done|].
  unfold untimed in HQ.
  apply wp_bind, wp_ev_put, wp_ret. destruct (active_timer E) eqn:Ha; cbn [negb andb] in *.
  2: { apply wp_ret, (HQ _ E); [|done..].
       - replace (set_active_timer false E) with E by (destruct E; simpl in *; by subst).
         rewrite insert_id by done. replace (put_evs (evs s) s) with s by (by destruct s).
         by apply stays_refl. }
  apply wp_bind. unfold mutex_lock. apply wp_syscall_at. cbn [kern put_evs].
  set (k := (k_mutex_lock (kern s)).2) in *.
  destruct ((k_mutex_lock (kern s)).1 =? 0) eqn:Hl; cbn [negb].
  2: { apply wp_bind. eapply wp_ev_get; [apply lookup_insert_eq|]. apply wp_ev_put, (HQ _ E); [|done..].
    simpl. replace (set_active_timer true _) with E by (destruct E; simpl in *; by subst).
    rewrite insert_insert_eq, insert_id by done.
    replace (put_evs (evs s) _) with (put_kern k s) by (by destruct s). by apply stays_kern. }
  - apply wp_bind, wp_heap. eapply (heap_delete_wp g iw s e E); [done..|]. intros tm Hst Hpq.
    apply wp_bind, wp_modify. simpl.
    pose proof (INV_timers_room _ _ _ I). pose proof (i_small _ _ _ I).
    assert (Z.of_nat (size (delete e (pq (nodes (timers s))))) =
      Z.of_nat (size (pq (nodes (timers s)))) - 1) as Hsz.
    { rewrite map_size_delete. assert (is_Some (pq (nodes (timers s)) !! e)) as [x Hx].
      { rewrite (i_timer _ _ _ I). eauto. }
      rewrite Hx. assert (size (pq (nodes (timers s))) <> 0%nat); [|lia].
      intros Hz%map_size_empty_inv. by rewrite Hz in Hx. }
    apply (wp_moves eq); [unfold uevent_put_; moves_tac|].
    eapply (uevent_put__wp g iw); try done.
    + eapply (INV_handover g iw s _ i u e E (set_active_timer false E)); simpl; try done.
      * unfold own. simpl. rewrite Ha. simpl. lia.
      * unfold fd_count. simpl. lia.
      * rewrite (i_ntm _ _ _ I), Hpq, swrap_small; lia.
    + intros s' I' K' P' R' H' _ _ W'.
      destruct (H' e (set_active_timer false E)) as (Hs' & T' & K'' & V''); [|done|].
      { by eapply (slot_at_insert s). }
      apply (HQ _ (set_active_timer false E)); [|done| |done].
      * constructor; try done. intros x Hx. rewrite V''. by apply lookup_insert_ne.
      * rewrite T'. done.
Qed.

(** ** uevent_del *)

(** What [uevent_del] returns, and the state and the outside world it leaves: the
    descriptor of a live event is taken out of epoll, then the mutex of the base
    is taken if there is a timer, and the timer is removed. *)
Inductive del_post s s' i : Z -> Prop :=
  | DelDead : ~ live s i -> s' = s -> del_post s s' i UEV_ERR_PENDING_FREE
  | DelOk e E E' : slot_at s i e E -> pending_free E = false ->
      slot_at s' i e E' -> pending_free E' = false -> modification_lock E' = modification_lock E ->
      active_fd E' = false ->
      (if active_timer E && ((k_mutex_lock (deregistered E (kern s))).1 =? 0)
       then active_timer E' = false /\ pq (nodes (timers s')) = delete e (pq (nodes (timers s)))
       else active_timer E' = active_timer E /\ timers s' = timers s) ->
      kern s' = (if active_timer E then (k_mutex_lock (deregistered E (kern s))).2 else deregistered E (kern s)) ->
      E' = set_active_timer (active_timer E') (set_active_fd false E) ->
      evs s' = <[e := E']> (evs s) ->
      del_post s s' i UEV_ERR_OK.

Lemma uevent_del_wp g iw s i (Q : Z -> ust -> Prop) :
  INV g iw s -> few g (2 ^ 20 - 2) -> 0 <= i < zlen (slots s) -> i <> iw ->
  (forall r s', calls g iw s s' -> (forall g', keep g' s s') -> pool s' = pool s ->
     del_post s s' i r -> Q r s') ->
  wp (uevent_del (Some i)) Q s.
Proof.
  intros I F Hi Hiw HQ. assert (few g (2 ^ 20 - 1)) as F0 by (eapply few_le; [done|lia]).
  assert (few (gadd g i) (2 ^ 20 - 1)) as F' by (apply (few_gadd _ _ (2 ^ 20 - 2)); [done|lia]).
  unfold uevent_del. apply wp_bind, (wp_moves eq); [eauto with moves|].
  apply (uevent_try_ref_wp g iw); try done.
  { eapply few_le; [done|]. lia. }
  { intros Hd _. apply wp_ret, HQ; [|intros; apply keep_refl|done|by constructor].
    constructor; try done. apply keep_refl. }
  intros s1 e E I1 K1 Hs1 Hs Hp P1 R1 T1 V1 W1. pose proof (keep_len _ _ _ (K1 g)) as L1.
  apply wp_bind. eapply wp_slot_ev_at; [done|]. apply wp_bind. eapply wp_ev_get_at; [done|].
  apply wp_bind. eapply remove_event_from_epoll_wp; [done..|by left|]. intros s2 St2 T2 W2.
  apply wp_bind. eapply (remove_event_from_heap_wp (gadd g i) iw s2 i e (set_active_fd false E));
    [apply St2|done|apply St2|done|by left|].
  intros s3 E3 St3 A3 U3 W3. pose proof (stays_trans _ _ _ _ _ _ _ _ _ _ St2 St3) as [I3 K3 Hs3 Hp3 Hl3 He3 Ht3 P3 R3 O3].
  rewrite Hp in Hp3. apply wp_bind, (wp_moves eq); [unfold uevent_put_; moves_tac|].
  eapply (uevent_put__wp g iw); [done..| |].
  { rewrite (keep_len _ _ _ (K3 g)), L1. done. }
  intros s4 I4 K4 P4 R4 H4 _ _ W4. rewrite <- W1 in W2. rewrite W2 in U3, W3. destruct (H4 e E3 Hs3 (or_introl Hp3)) as (Hs4 & T4 & K5 & V5).
  assert (forall g', keep g' s s4) as K6.
  { intros g'. apply (keep_trans _ g' _ s1); [apply K1| |done].
    by apply (keep_trans _ g' _ s3); [apply K3|apply K5|]. }
  apply wp_ret, HQ.
  - constructor; [done|done|congruence].
  - done.
  - congruence.
  - unfold untimed in U3. simpl in U3. eapply (DelOk _ _ _ e E E3); try done.
    + rewrite T4, <- T1, <- T2. destruct (_ && _); destruct U3 as [-> U3]; by split.
    + by rewrite <- W4, W3.
    + destruct (_ && _) eqn:Hc; destruct U3 as [-> _]; destruct E; simpl in *; [done|].
      by f_equal.
    + rewrite V5. apply map_eq. intros x. destruct Hs3 as (? & _ & _ & He3').
      destruct (decide (x = e)) as [->|Hx]; [by rewrite He3', lookup_insert_eq|].
      by rewrite O3, V1, lookup_insert_ne.
Qed.

(** ** uevent_free *)

Lemma uevent_free_wp g iw s i (Q : unit -> ust -> Prop) :
  INV g iw s -> few g (2 ^ 20 - 2) -> 0 <= i < zlen (slots s) -> i <> iw ->
  (forall s', calls g iw s s' -> pool s' = pool s -> ~ live s' i ->
     (forall e E, slot_at s i e E -> pending_free E = true -> s' = s) ->
     (forall e E e' E', slot_at s i e E -> pending_free E = false -> slot_at s' i e' E' ->
        active_fd E' = false /\ (active_timer E = false -> active_timer E' = false)) -> Q tt s') ->
  wp (uevent_free (Some i)) Q s.
Proof.
  intros I F Hi Hiw HQ. assert (few g (2 ^ 20 - 1)) as F0 by (eapply few_le; [done|lia]).
  destruct (znth_is_Some _ _ Hi) as [u Hu].
  assert (~ live s i -> Q tt s) as Hdead.
  { intros Hd. apply HQ; try done.
    - constructor; try done. apply keep_refl.
    - intros e E e' E' H1 H2. destruct Hd. by exists e, E. }
  unfold uevent_free. apply wp_bind. eapply wp_slot_get; [done|].
  destruct (ev u) as [e|] eqn:Hue.
  2: { assert (~ live s i) as Hd by (intros (e & E & (u' & A1 & A2 & _) & _); by simplify_eq).
       destruct (refcount u <? 1); by apply wp_ret, Hdead. }
  destruct (i_used _ _ _ I i u e Hu Hue) as (E & F1 & F2 & F3 & F4 & F5 & F6 & F7 & F8).
  assert (slot_at s i e E) as Hs by (by exists u).
  destruct (Z.ltb_spec (refcount u) 1) as [|_]; [lia|].
  apply wp_bind. eapply wp_ev_get; [done|]. destruct (pending_free E) eqn:Hp.
  { apply wp_ret, Hdead. intros (e' & E' & (u' & A1 & A2 & A3) & A4). simplify_eq. congruence. }
  apply wp_bind. eapply uevent_del_wp; [done..|]. intros r s1 [I1 K1 R1] _ P1 Hpost.
  inversion Hpost as [Hd| e0 E0 E1 G1 G2 G3 G4 G5 G6 G7 _ _ _ Hr].
  { destruct Hd. by exists e, E. }
  assert (e0 = e) as -> by (destruct G1 as (? & ? & ? & ?), Hs as (? & ? & ? & ?); simplify_eq; done).
  pose proof G3 as (u1 & Hu1 & Hue1 & He1).
  pose proof (keep_len _ _ _ K1) as L1.
  apply wp_bind. eapply wp_ev_get; [done|]. apply wp_bind, wp_ev_put. rewrite G4.
  eapply (uevent_put__wp g iw); try done.
  - eapply (INV_handover g iw s1 _ i u1 e E1 (set_pending_free true E1)); simpl; try done.
    + by eapply heap_step_refl.
    + unfold own. simpl. rewrite G4. simpl. lia.
    + unfold fd_count. simpl. lia.
    + apply I1.
  - simpl. by rewrite L1.
  - intros s2 I2 K2 P2 R2 _ H2 _. simpl in *.
    destruct (H2 e (set_pending_free true E1)) as [Hs2|Hs2]; [by eapply (slot_at_insert s1)| |].
    + apply HQ.
      * constructor; [done| |congruence]. by apply (keep_trans _ g _ s1).
      * congruence.
      * intros (e' & E' & G8 & G9). assert (E' = set_pending_free true E1) as -> by by eapply slot_at_inj.
        done.
      * intros e' E' G8 G9. assert (E' = E) as -> by by eapply slot_at_inj. congruence.
      * intros e' E' e2 E2 G9 _ G8. assert (E2 = set_pending_free true E1) as -> by by eapply slot_at_inj.
        assert (E' = E0) as -> by by eapply slot_at_inj. split; [done|]. simpl. intros Ht.
        rewrite Ht in G7. by destruct G7 as [-> _].
    + apply HQ.
      * constructor; [done| |congruence]. by apply (keep_trans _ g _ s1).
      * congruence.
      * intros (e' & E' & G8 & G9). by eapply Hs2.
      * intros e' E' G8 G9. assert (E' = E) as -> by by eapply slot_at_inj. congruence.
      * intros e' E' e2 E2 _ _ G8. by destruct (Hs2 _ _ G8).
Qed.

(** ** Queries *)

Lemma calls_refl g iw s : INV g iw s -> calls g iw s s.
Proof. intros I. constructor; try done. apply keep_refl. Qed.

(** The end of a call that took a reference to a live event and left it live. *)
Lemma release_wp g iw s s1 i e E (Q : unit -> ust -> Prop) :
  few g (2 ^ 20 - 1) -> (forall g', keep g' s s1) -> running s1 = running s -> pool s1 = pool s ->
  INV (gadd g i) iw s1 -> slot_at s1 i e E -> pending_free E = false -> 0 <= i < zlen (slots s) ->
  (forall s', calls g iw s s' -> pool s' = pool s -> slot_at s' i e E ->
     timers s' = timers s1 -> Q tt s') ->
  wp (uevent_put_ i) Q s1.
Proof.
  intros F K1 R1 P1 I1 Hs1 Hp Hi HQ. pose proof (keep_len _ _ _ (K1 g)) as L1.
  eapply (uevent_put__wp g iw); [done..|by rewrite L1|].
  intros s' I' K' P' R' H' _ _. destruct (H' e E Hs1 (or_introl Hp)) as (Hs' & T' & _).
  apply HQ; [|congruence|done|done]. constructor; [done| |congruence].
  by eapply (keep_trans _ g); [apply K1|done|].
Qed.

Lemma uevent_is_alive_wp g iw s i (Q : bool -> ust -> Prop) :
  INV g iw s -> few g (2 ^ 20 - 1) -> 0 <= i < zlen (slots s) ->
  (forall b s', calls g iw s s' -> pool s' = pool s -> b = true <-> live s i -> Q b s') ->
  wp (uevent_is_alive (Some i)) Q s.
Proof.
  intros I F Hi HQ. unfold uevent_is_alive. apply wp_bind.
  apply (uevent_try_ref_wp g iw); [done|eapply few_le; [done|lia]|done| |].
  { intros Hd. apply wp_ret, HQ; [by apply calls_refl|done|]. done. }
  intros s1 e E I1 K1 Hs1 Hs Hp P1 R1 T1 V1. apply wp_bind. eapply (release_wp g iw s); try done.
  intros s' C' P' _ _. apply wp_ret, HQ; [done..|]. split; [|done]. intros _. by exists e, E.
Qed.

Lemma uevent_initialized_wp g iw s i (Q : bool -> ust -> Prop) :
  INV g iw s -> few g (2 ^ 20 - 1) -> 0 <= i < zlen (slots s) ->
  (forall b s', calls g iw s s' -> pool s' = pool s -> b = true <-> live s i -> Q b s') ->
  wp (uevent_initialized (Some i)) Q s.
Proof.
  intros I F Hi HQ. unfold uevent_initialized. apply wp_bind.
  apply (uevent_try_ref_wp g iw); [done|eapply few_le; [done|lia]|done| |].
  { intros Hd. apply wp_ret, HQ; [by apply calls_refl|done|]. done. }
  intros s1 e E I1 K1 Hs1 Hs Hp P1 R1 T1 V1. apply wp_bind. eapply wp_slot_ev_at; [done|].
  apply wp_bind. eapply wp_ev_get_at; [done|]. apply wp_bind. eapply (release_wp g iw s); try done.
  destruct (slot_at_facts _ _ _ _ _ _ I Hs) as (_ & Hb & _). rewrite Hb.
  intros s' C' P' _ _. apply wp_ret, HQ; [done..|]. split; [|done]. intros _. by exists e, E.
Qed.

(** What [uevent_pending] answers for a live event. *)
Definition pending_in E (mask : Z) : bool :=
  has mask UEV_TIMEOUT && active_timer E || has mask UEV_FD_EVENTS && active_fd E.

Lemma uevent_pending_wp g iw s i mask (Q : bool -> ust -> Prop) :
  INV g iw s -> few g (2 ^ 20 - 1) -> 0 <= i < zlen (slots s) ->
  (forall b s', calls g iw s s' -> pool s' = pool s ->
     b = true <-> (exists e E, slot_at s i e E /\ pending_free E = false /\ pending_in E mask = true) ->
     Q b s') ->
  wp (uevent_pending (Some i) mask) Q s.
Proof.
  intros I F Hi HQ. unfold uevent_pending. apply wp_bind.
  apply (uevent_try_ref_wp g iw); [done|eapply few_le; [done|lia]|done| |].
  { intros Hd. apply wp_ret, HQ; [by apply calls_refl|done|]. split; [done|].
    intros (e & E & H1 & H2 & _). destruct Hd. by exists e, E. }
  intros s1 e E I1 K1 Hs1 Hs Hp P1 R1 T1 V1. apply wp_bind. eapply wp_slot_ev_at; [done|].
  apply wp_bind. eapply wp_ev_get_at; [done|]. apply wp_bind. eapply (release_wp g iw s); try done.
  intros s' C' P' _ _. apply wp_ret, HQ; [done..|].
  replace (if negb _ && has mask UEV_FD_EVENTS && active_fd E then true else _) with (pending_in E mask)
    by (unfold pending_in; by destruct (_ && active_timer E), (has mask UEV_FD_EVENTS), (active_fd E)).
  split; [intros Hb; by exists e, E|]. intros (e' & E' & H1 & H2 & H3).
  by rewrite (slot_at_inj _ _ _ _ _ _ Hs H1).
Qed.

Lemma uevent_set_timeout_wp g iw s i t (Q : unit -> ust -> Prop) :
  INV g iw s -> few g (2 ^ 20 - 1) -> 0 <= i < zlen (slots s) ->
  (forall s', calls g iw s s' -> pool s' = pool s ->
     (forall e E, slot_at s i e E -> pending_free E = false -> slot_at s' i e (set_timeout_ms t E)) ->
     Q tt s') ->
  wp (uevent_set_timeout (Some i) t) Q s.
Proof.
  intros I F Hi HQ. unfold uevent_set_timeout. apply wp_bind.
  apply (uevent_try_ref_wp g iw); [done|eapply few_le; [done|lia]|done| |].
  { intros Hd. apply wp_ret, HQ; [by apply calls_refl|done|]. intros e E H1 H2. destruct Hd. by exists e, E. }
  intros s1 e E I1 K1 Hs1 Hs Hp P1 R1 T1 V1. apply wp_bind. eapply wp_slot_ev_at; [done|].
  apply wp_bind. eapply wp_ev_get_at; [done|]. apply wp_bind, wp_ev_put.
  eapply (release_wp g iw s _ i e (set_timeout_ms t E)); simpl; try done.
  - by eapply INV_touch.
  - by eapply (slot_at_insert s1).
  - intros s' C' P' Hs' _. apply HQ; [done..|]. intros e' E' H1 H2.
    rewrite <- (slot_at_inj _ _ _ _ _ _ Hs H1).
    destruct Hs as (? & ? & ? & ?), H1 as (? & ? & ? & ?). by simplify_eq.
Qed.
End del.
