(* ===== verification/UeventMake.v ===== *)
(** * uevent: creating events and the base

    The rules for [uevent_create_or_assign_event] and for
    [uevent_base_new_with_workers] of [src/uevent/uevent.c]. *)

From S2P Require Import Prelude.
From S2P Require Import MinHeap.
From S2P Require Import MinHeapInv.
From S2P Require Import MinHeapOps.
From S2P Require Import Uevent.
From S2P Require Import UeventInv.
From S2P Require Import UeventSteps.
From S2P Require Import UeventOps.
From S2P Require Import UeventAdd.
From S2P Require Import UeventApi.
From S2P Require Import UeventDel.
Import MinHeap (mst, mh, nodes, capacity, minheap_t, minheap_node_t).
Import Uevent.

Section make.
Context {K : Type} {Kern : Kernel K}.
Implicit Types (s : @ust K) (g : Z -> Z) (E : uevent_t) (e : loc) (i : Z).

Definition idle E : Prop := uev E = None /\ active_fd E = false /\ active_timer E = false.

(** Events that have no slot come, change and go freely. *)
Lemma INV_idle g iw s s' e :
  INV g iw s -> (forall E0, evs s !! e = Some E0 -> uev E0 = None) ->
  (forall x, x <> e -> evs s' !! x = evs s !! x) ->
  (forall E, evs s' !! e = Some E -> idle E) ->
  mh (timers s') = mh (timers s) ->
  (forall x, x <> e -> nodes (timers s') !! x = nodes (timers s) !! x) ->
  (is_Some (evs s' !! e) -> is_Some (nodes (timers s') !! e)) ->
  pq (nodes (timers s')) !! e = None ->
  slots s' = slots s -> free_uev_arr s' = free_uev_arr s ->
  free_uev_arr_cnt s' = free_uev_arr_cnt s -> num_active_fd s' = num_active_fd s ->
  num_active_timers s' = num_active_timers s -> pool s' = pool s -> INV g iw s'.
Proof.
  intros I Hold Hx Hnew Hm Hn Hin Hpe S1 S2 S3 S4 S5 S6.
  assert (pq (nodes (timers s)) !! e = None) as Hpe0.
  { apply eq_None_not_Some. rewrite (i_timer _ _ _ I). intros (E' & A1 & A2).
    destruct (i_idle _ _ _ I e E' A1 (Hold _ A1)). congruence. }
  destruct (i_heap _ _ _ I) as (h & G1 & G2 & G3).
  destruct (heap_ok_outside h (nodes (timers s)) (nodes (timers s')) e) as [Ok Hpq]; try done.
  assert (forall i u e', znth (slots s) i = Some u -> ev u = Some e' -> e' <> e) as Hne.
  { intros i u e' A1 A2 ->. destruct (i_used _ _ _ I _ _ _ A1 A2) as (E & B1 & B2 & _).
    apply Hold in B1. congruence. }
  constructor; unfold free_list in *; rewrite ?S1, ?S2, ?S3, ?S4, ?S5, ?S6, ?Hpq; try apply I.
  - exists h. split_and!; congruence.
  - intros i u e' A1 A2. destruct (i_used _ _ _ I _ _ _ A1 A2) as (E & B1 & B2).
    exists E. rewrite Hx, S6 by by eapply Hne. done.
  - intros i u A1 A2. unfold slot_free. rewrite S6. by apply (i_unused _ _ _ I).
  - intros e' E i A1 A2. destruct (decide (e' = e)) as [->|].
    + apply Hnew in A1 as (B & _). congruence.
    + rewrite Hx in A1 by done. by eapply (i_back _ _ _ I).
  - intros e' E A1 A2. destruct (decide (e' = e)) as [->|].
    + by apply Hnew in A1 as (_ & ?).
    + rewrite Hx in A1 by done. by eapply (i_idle _ _ _ I).
  - intros x. rewrite (i_timer _ _ _ I). destruct (decide (x = e)) as [->|]; [|by rewrite Hx].
    split; intros (E' & A1 & A2).
    + destruct (i_idle _ _ _ I e E' A1 (Hold _ A1)). congruence.
    + apply Hnew in A1 as (_ & _ & ?). congruence.
  - intros x. destruct (decide (x = e)) as [->|]; [done|]. rewrite Hx, Hn by done. apply I.
  - rewrite (i_nfd _ _ _ I). symmetry. apply (nfd_of_outside _ _ e); [done| |].
    + intros E' A. destruct (i_idle _ _ _ I e E' A (Hold _ A)) as [B _]. unfold fd_count. by rewrite B.
    + intros E' A. apply Hnew in A as (_ & A & _). unfold fd_count. by rewrite A.
  - destruct (i_wake _ _ _ I) as (W & W1 & W2 & W3). exists W. rewrite Hx; [done|].
    intros <-. apply Hold in W1. congruence.
Qed.

(** The event [uevent_create_or_assign_event] builds in the slot [i]. *)
Definition made E0 i (fd' events' : Z) (cb' : option callback) (arg' : Z) : uevent_t :=
  UEvent false false false false (is_in_worker_pool E0) (is_static E0) events'
    (timeout_ms E0) fd' cb' (Some UserCbWrapper) arg' true (Some i).

(** [s1] is [s] with the idle event [e] in place, contents [E0]. *)
Record placed s s1 e E0 : Prop := {
  pl_old : forall E, evs s !! e = Some E -> uev E = None;
  pl_new : evs s1 !! e = Some E0;
  pl_idle : idle E0;
  pl_ne : e <> wakeup_event;
  pl_evs : forall x, x <> e -> evs s1 !! x = evs s !! x;
  pl_node : exists nd, nodes (timers s1) !! e = Some nd /\ MinHeap.idx nd = 0;
  pl_nodes : forall x, x <> e -> nodes (timers s1) !! x = nodes (timers s) !! x;
  pl_mh : mh (timers s1) = mh (timers s);
  pl_slots : slots s1 = slots s;
  pl_free : free_uev_arr s1 = free_uev_arr s;
  pl_cnt : free_uev_arr_cnt s1 = free_uev_arr_cnt s;
  pl_nfd : num_active_fd s1 = num_active_fd s;
  pl_ntm : num_active_timers s1 = num_active_timers s;
  pl_pool : pool s1 = pool s;
  pl_running : running s1 = running s
}.

Lemma placed_INV g iw s s1 e E0 : INV g iw s -> placed s s1 e E0 -> INV g iw s1.
Proof.
  intros I [? ? ? ? ? (nd & N1 & N2)]. eapply (INV_idle g iw s s1 e); try done.
  - intros E H. congruence.
  - apply pq_None. intros nd' H. congruence.
Qed.

(** The label [fail_event]: a dynamic event is freed. *)
Lemma fail_event_wp g iw s e E (Q : option Z -> ust -> Prop) :
  INV g iw s -> evs s !! e = Some E -> idle E ->
  (is_static E = true -> Q None s) ->
  (forall s', is_static E = false -> INV g iw s' -> evs s' = delete e (evs s) ->
     nodes (timers s') = delete e (nodes (timers s)) -> slots s' = slots s ->
     pool s' = pool s -> running s' = running s -> Q None s') ->
  wp (fail_event e) Q s.
Proof.
  intros I He (H1 & H2 & H3) HQ HQ'. apply wp_bind. eapply wp_ev_get; [done|].
  apply wp_bind. destruct (is_static E); [by apply wp_ret, wp_ret, HQ|].
  apply wp_bind. eapply wp_ev_get; [done|]. apply wp_bind, wp_modify, wp_heap, wp_modify, wp_ret.
  apply HQ'; try done. eapply (INV_idle g iw s _ e); simpl; try done.
  - intros E' HE. congruence.
  - intros x Hx. by rewrite lookup_delete_ne.
  - intros E'. by rewrite lookup_delete_eq.
  - intros x Hx. by rewrite lookup_delete_ne.
  - rewrite lookup_delete_eq. by intros [].
  - apply pq_None. intros nd'. by rewrite lookup_delete_eq.
Qed.

Definition inited E0 (fd' events' : Z) (cb' : option callback) (arg' : Z) : uevent_t :=
  UEvent false false false false (is_in_worker_pool E0) (is_static E0) events'
    (timeout_ms E0) fd' cb' (Some UserCbWrapper) arg' true (uev E0).

Lemma uevent_init_ev_wp s s1 e E0 fd' events' cb' arg' (Q : unit -> ust -> Prop) :
  placed s s1 e E0 ->
  (forall s2, placed s s2 e (inited E0 fd' events' cb' arg') ->
     evs s2 = <[e := inited E0 fd' events' cb' arg']> (evs s1) ->
     dom (nodes (timers s2)) = dom (nodes (timers s1)) -> Q tt s2) ->
  wp (uevent_init_ev e fd' events' cb' arg') Q s1.
Proof.
  intros [? ? (D1 & D2 & D3) ? ? (nd & N1 & N2)] HQ.
  apply wp_bind. eapply wp_ev_get; [done|]. apply wp_bind, wp_ev_put, wp_bind.
  eapply wp_heap_node_get; [done|]. apply wp_heap_node_put, HQ; [|done|].
  - constructor; simpl; try done.
    + by rewrite lookup_insert_eq.
    + intros x Hx. by rewrite lookup_insert_ne; auto.
    + eexists. rewrite lookup_insert_eq. done.
    + intros x Hx. by rewrite lookup_insert_ne; auto.
  - simpl. rewrite dom_insert_lookup_L; eauto.
Qed.

Lemma uev_get_unused_wp g iw s (Q : option Z -> ust -> Prop) :
  INV g iw s -> (free_uev_arr_cnt s = 0 -> Q None s) ->
  (forall i, 0 < free_uev_arr_cnt s -> znth (free_uev_arr s) (free_uev_arr_cnt s - 1) = Some i ->
     Q (Some i) (put_free_uev_arr_cnt (free_uev_arr_cnt s - 1) s)) ->
  wp (uev_get_unused true) Q s.
Proof.
  intros I H0 HQ. pose proof (i_cnt _ _ _ I). pose proof (i_flen _ _ _ I). pose proof (i_small _ _ _ I).
  apply wp_bind, wp_gets. destruct (Z.eqb_spec (free_uev_arr_cnt s) 0); [by apply wp_ret, H0|].
  apply wp_bind, wp_modify. rewrite wrap_small by lia. apply wp_bind, wp_gets. simpl.
  destruct (znth_is_Some (free_uev_arr s) (free_uev_arr_cnt s - 1)) as [i Hi]; [lia|].
  apply wp_bind. eapply wp_of_option; [done|]. apply wp_ret, HQ; [lia|done].
Qed.

(** The second half of the call: everything after the allocation. *)
Lemma create_tail_wp g iw s s1 e E0 fd' events' (cb' : option callback) arg'
    (Q : option Z -> ust -> Prop) :
  INV g iw s -> placed s s1 e E0 ->
  (forall s', calls g iw s s' -> pool s' = pool s ->
     (is_static E0 = false -> evs s' = delete e (evs s1) /\
        dom (nodes (timers s')) = dom (nodes (timers s1)) ∖ {[e]}) -> Q None s') ->
  (forall i s', calls g iw s s' -> pool s' = pool s -> (forall e' E', ~ slot_at s i e' E') ->
     slot_at s' i e (made E0 i fd' events' cb' arg') ->
     pq (nodes (timers s')) = pq (nodes (timers s)) -> Q (Some i) s') ->
  wp (uevent_init_ev e fd' events' cb' arg';;
      rc ← mutex_lock;
      if negb (rc =? 0) then fail_event e
      else
        uev' ← uev_get_unused true;
        match uev' with
        | None => fail_event e
        | Some i =>
            slot_put i (Uev (Some e) 1);;
            E ← ev_get e;
            ev_put e (set_uev (Some i) E);;
            mret (Some i)
        end) Q s1.
Proof.
  intros I Pl HQ HQ'. apply wp_bind. eapply uevent_init_ev_wp; [done|].
  intros s2 Pl2 Ev2 Nd2. set (E2 := inited E0 fd' events' cb' arg') in *.
  pose proof (placed_INV _ _ _ _ _ _ I Pl2) as I2.
  assert (forall k, wp (fail_event e) Q (put_kern k s2)) as Hfail.
  { intros k. eapply (fail_event_wp g iw _ e E2); [by apply INV_kern|apply Pl2|apply Pl2| |].
    - intros Hst. apply HQ; [|apply Pl2|].
      + constructor; [by apply INV_kern|apply keep_same, Pl2|apply Pl2].
      + intros Hst'. simpl in Hst. congruence.
    - intros s3 Hst I3 V3 N3 S3 P3 R3. simpl in *. apply HQ.
      + constructor; [done|apply keep_same; rewrite S3; apply Pl2|rewrite R3; apply Pl2].
      + rewrite P3. apply Pl2.
      + intros _. rewrite V3, N3, Ev2, dom_delete_L, Nd2. split; [|done].
        apply delete_insert_eq. }
  apply wp_bind. unfold mutex_lock. apply wp_syscall. intros rc k.
  destruct (negb (rc =? 0)); [apply Hfail|].
  apply wp_bind. eapply (uev_get_unused_wp g iw); [by apply INV_kern|by intros _|].
  intros i Hcnt Hi. simpl in *. apply wp_bind, wp_slot_put, wp_bind.
  eapply wp_ev_get; [apply Pl2|]. apply wp_bind, wp_ev_put, wp_ret.
  destruct (pl_node _ _ _ _ Pl2) as (nd & N1 & N2).
  set (s3 := put_evs _ _).
  destruct (INV_take g iw s2 s3 i e (made E0 i fd' events' cb' arg')) as (I3 & u & Hu & Hue);
    simpl; try done.
  - intros E HE. rewrite (pl_new _ _ _ _ Pl2) in HE. injection HE as <-. apply (pl_idle _ _ _ _ Pl2).
  - apply Pl2.
  - exists (MinHeap.key nd). rewrite insert_id; [done|]. rewrite N1. f_equal. destruct nd.
    simpl in *. by subst.
  - assert (znth (slots s) i = Some u) as Hu0 by (by rewrite <- (pl_slots _ _ _ _ Pl2)).
    apply HQ'.
    + constructor; [done| |apply Pl2].
      pose proof (znth_Some_range _ _ _ Hu0) as Hr.
      split; simpl; rewrite (pl_slots _ _ _ _ Pl2), ?zlen_zset; [done|].
      intros j u' e' Hj Hu' He'. rewrite znth_zset by done. case_decide; [|eauto]. congruence.
    + apply Pl2.
    + intros e' E' (u' & A1 & A2 & A3). congruence.
    + eexists. simpl. rewrite znth_zset_eq by (by eapply znth_Some_range). split; [done|].
      split; [done|]. apply lookup_insert_eq.
    + simpl. destruct (i_heap _ _ _ I) as (h & G1 & G2 & G3).
      eapply (heap_ok_outside h _ _ e G2); [| |apply Pl2].
      * apply eq_None_not_Some. rewrite (i_timer _ _ _ I). intros (E' & A1 & A2).
        destruct (i_idle _ _ _ I e E' A1 (pl_old _ _ _ _ Pl2 _ A1)). congruence.
      * apply pq_None. intros nd' H. congruence.
Qed.

(** The event a successful call uses: the caller's static event, or a new one. *)
Definition source_event s (e0 : ptr) e E0 : Prop :=
  match e0 with
  | Some e' => e = e' /\ evs s !! e = Some E0 /\ is_static E0 = true /\ base E0 = false
  | None => evs s !! e = None /\ E0 = zero_event
  end.

Lemma fresh_event s : exists e, e = fresh (dom (evs s) ∪ dom (nodes (timers s))) /\
  evs s !! e = None /\ nodes (timers s) !! e = None.
Proof.
  set (X := dom (evs s) ∪ dom (nodes (timers s))). exists (fresh X). pose proof (is_fresh X) as Hf.
  split; [done|]. unfold X at 2 in Hf. rewrite not_elem_of_union, !not_elem_of_dom in Hf. done.
Qed.

Lemma uevent_create_wp g iw s (e0 : ptr) fd' events' (cb' : option callback) arg' (Q : option Z -> ust -> Prop) :
  INV g iw s -> (forall e, e0 = Some e -> is_Some (evs s !! e)) ->
  (forall s', calls g iw s s' -> pool s' = pool s -> (e0 = None -> evs s' = evs s) -> Q None s') ->
  (forall i e E0 s', calls g iw s s' -> pool s' = pool s -> (forall e' E', ~ slot_at s i e' E') ->
     source_event s e0 e E0 -> slot_at s' i e (made E0 i fd' events' cb' arg') ->
     pq (nodes (timers s')) = pq (nodes (timers s)) -> Q (Some i) s') ->
  wp (uevent_create_or_assign_event e0 true fd' events' cb' arg') Q s.
Proof.
  intros I He0 HQ HQ'. unfold uevent_create_or_assign_event. cbn [negb]. apply wp_bind.
  destruct e0 as [e|]; simpl.
  - destruct (He0 e) as [E He]; [done|]. apply wp_bind. eapply wp_ev_get; [done|]. apply wp_ret.
    destruct (is_static E) eqn:Hst, (base E) eqn:Hb; simpl;
      try (by apply wp_ret, HQ; [apply calls_refl|..]).
    apply wp_bind, wp_ret.
    assert (uev E = None) as Hu.
    { destruct (uev E) as [i|] eqn:Hu; [|done].
      destruct (slot_at_facts _ _ _ _ _ _ I (slot_at_of_ev _ _ _ _ _ _ I He Hu)) as (_ & ? & _). congruence. }
    destruct (i_idle _ _ _ I e E He Hu) as [Hfd Htm].
    destruct (i_nodes _ _ _ I e) as [nd Hnd]; [eauto|].
    eapply (create_tail_wp g iw s s e E); [done| | |].
    + constructor; try done.
      * intros E' HE. congruence.
      * intros ->. destruct (i_wake _ _ _ I) as (W & W1 & W2 & _). congruence.
      * exists nd. split; [done|]. destruct (decide (MinHeap.idx nd = 0)) as [|Hi]; [done|].
        apply (active_node _ _ _ _ _ _ I He Hnd) in Hi. congruence.
    + intros s' C P _. by apply HQ.
    + intros i s' C P Hn Hs Hq. by eapply HQ'.
  - apply wp_ret. apply wp_bind, wp_bind, wp_syscall. intros ok k.
    destruct (negb ok).
    { apply wp_ret, wp_ret, HQ; [|done|done]. constructor; [by apply INV_kern|by apply keep_same|done]. }
    apply wp_bind, wp_gets. cbn zeta. simpl.
    destruct (fresh_event s) as (e & <- & Hfe & Hfn).
    apply wp_bind, wp_ev_put, wp_bind, wp_heap_node_put, wp_ret.
    eapply (create_tail_wp g iw s _ e zero_event); [done| | |].
    + constructor; simpl; try done.
      * intros E' HE. congruence.
      * by rewrite lookup_insert_eq.
      * intros ->. destruct (i_wake _ _ _ I) as (W & W1 & _). congruence.
      * intros x Hx. by rewrite lookup_insert_ne.
      * eexists. by rewrite lookup_insert_eq.
      * intros x Hx. by rewrite lookup_insert_ne.
    + intros s' C P Hf. apply HQ; [done|done|]. intros _. destruct (Hf eq_refl) as [-> _]. simpl.
      rewrite delete_insert_eq. by apply delete_id.
    + intros i s' C P Hn Hs Hq. by eapply HQ'.
Qed.


(** ** The base *)

(** The base after the wake-up event took the last slot. *)
Definition base_with_wakeup (n efd : Z) (workers : option uevent_worker_pool_t) (k : K) : ust :=
  USt (zset (replicate (Z.to_nat n) (Uev None 0)) (n - 1) (Uev (Some wakeup_event) 1))
    (seqZ 0 n) (n - 1)
    {[wakeup_event := made wakeup_template (n - 1) efd (Z.lor UEV_READ UEV_PERSIST) (Some CbWakeup) 0]}
    (MinHeap.St (MinHeap.mh_create true true n) {[wakeup_event := MinHeap.Node 0 0]})
    0 0 false false true workers k.

Lemma zlen_seqZ n : 0 <= n -> zlen (seqZ 0 n) = n.
Proof. intros. unfold zlen. rewrite length_seqZ. lia. Qed.

Lemma znth_seqZ n i : 0 <= i < n -> znth (seqZ 0 n) i = Some i.
Proof.
  intros Hi. unfold znth. destruct (Z.ltb_spec i 0); [lia|].
  apply lookup_seqZ. lia.
Qed.

Lemma base_slots n u i x :
  0 < n -> znth (zset (replicate (Z.to_nat n) (Uev None 0)) (n - 1) u) i = Some x ->
  i = n - 1 /\ x = u \/ 0 <= i < n - 1 /\ x = Uev None 0.
Proof.
  intros Hn H. pose proof (znth_Some_range _ _ _ H) as Hi.
  rewrite zlen_zset, zlen_replicate in Hi by lia.
  rewrite znth_zset in H by (rewrite zlen_replicate; lia). case_decide; [naive_solver|].
  rewrite znth_replicate in H by lia. right. split; [lia|congruence].
Qed.

Lemma base_INV n efd workers k :
  0 < n < 2 ^ 16 -> (forall i, tasks_of i workers = 0) -> pool_wf n workers ->
  INV (fun _ => 0) (n - 1) (base_with_wakeup n efd workers k).
Proof.
  intros Hn Ht Hwf.
  assert (unmarked {[wakeup_event := MinHeap.Node 0 0]}) as Hum.
  { intros x nd [<- <-]%lookup_singleton_Some. done. }
  assert (pq {[wakeup_event := MinHeap.Node 0 0]} = ∅) as Hpq by done.
  assert (MinHeap.mh_create true true n = Some (MinHeap.Heap (replicate (Z.to_nat n) None) 0 n)) as Hc.
  { unfold MinHeap.mh_create. destruct (Z.eqb_spec n 0); [lia|done]. }
  constructor; unfold free_list, base_with_wakeup; simpl; rewrite ?zlen_zset, ?zlen_replicate, ?zlen_seqZ by lia;
    try lia.
  - rewrite Hc. eexists. split; [done|]. split; [apply create_ok; [lia|done]|done].
  - eapply sublist_NoDup; [apply NoDup_seqZ|apply sublist_take].
  - intros i. assert (i ∈ take (Z.to_nat (n - 1)) (seqZ 0 n) <-> 0 <= i < n - 1) as ->.
    { replace n with ((n - 1) + 1) at 2 by lia. rewrite seqZ_app by lia.
      rewrite take_app_length' by (rewrite length_seqZ; lia). rewrite elem_of_seqZ. lia. }
    split.
    + intros Hi. exists (Uev None 0). rewrite znth_zset_ne by lia. split; [|done].
      apply znth_replicate. lia.
    + intros (u & Hu & He). apply base_slots in Hu as [[-> ->]|[? _]]; done || lia.
  - intros i u e Hu He. apply base_slots in Hu as [[-> ->]|[_ ->]]; [|done|lia].
    injection He as <-. unfold slot_used. simpl. eexists. rewrite lookup_singleton_eq.
    split; [done|]. simpl.
    rewrite Ht. done.
  - intros i u Hu He. apply base_slots in Hu as [[-> ->]|[_ ->]]; [done| |lia].
    unfold slot_free. simpl. by rewrite Ht.
  - intros e E i [<- <-]%lookup_singleton_Some. simpl. intros [= <-].
    eexists. rewrite znth_zset_eq by (rewrite zlen_replicate; lia). done.
  - by intros e E [<- <-]%lookup_singleton_Some.
  - intros e. rewrite Hpq, lookup_empty. split; [by intros []|].
    by intros (E & [<- <-]%lookup_singleton_Some & ?).
  - intros e [E [<- <-]%lookup_singleton_Some]. eauto.
  - by rewrite Hpq, map_size_empty.
  - unfold nfd_of. by rewrite map_filter_singleton_False by (by intros [? _]).
  - exists (made wakeup_template (n - 1) efd (Z.lor UEV_READ UEV_PERSIST) (Some CbWakeup) 0).
    by rewrite lookup_singleton_eq.
  - done.
Qed.

Lemma create_wakeup_wp n efd workers k (Q : option Z -> ust -> Prop) :
  0 < n < 2 ^ 16 -> (forall s, Q None s) ->
  (forall k', Q (Some (n - 1)) (base_with_wakeup n efd workers k')) ->
  wp (uevent_create_or_assign_event (Some wakeup_event) true efd (Z.lor UEV_READ UEV_PERSIST)
        (Some CbWakeup) 0) Q (bare_base n workers k).
Proof.
  intros Hn HQ HQ'. unfold uevent_create_or_assign_event. cbn [negb]. apply wp_bind, wp_bind.
  eapply wp_ev_get; [apply lookup_singleton_eq|]. apply wp_ret. cbn [is_static base wakeup_template negb orb].
  apply wp_bind, wp_ret, wp_bind. unfold uevent_init_ev.
  apply wp_bind. eapply wp_ev_get; [apply lookup_singleton_eq|]. apply wp_bind, wp_ev_put, wp_bind.
  eapply wp_heap_node_get; [apply lookup_singleton_eq|]. apply wp_heap_node_put.
  apply wp_bind. unfold mutex_lock. apply wp_syscall. intros rc k'.
  destruct (negb (rc =? 0)).
  { apply wp_bind. eapply wp_ev_get; [apply lookup_insert_eq|]. simpl. apply wp_bind, wp_ret, wp_ret, HQ. }
  unfold uev_get_unused. apply wp_bind, wp_bind, wp_gets. simpl.
  destruct (Z.eqb_spec n 0) as [|_]; [lia|]. apply wp_bind, wp_modify. rewrite wrap_small by lia.
  apply wp_bind, wp_gets, wp_bind. simpl. rewrite znth_seqZ by lia. apply wp_ret, wp_ret.
  apply wp_bind, wp_slot_put, wp_bind. eapply wp_ev_get; [apply lookup_insert_eq|].
  apply wp_bind, wp_ev_put, wp_ret.
  specialize (HQ' k'). unfold base_with_wakeup in HQ'.
  rewrite <- (insert_singleton_eq _ _ wakeup_template),
    <- (insert_insert_eq _ _ _ (inited wakeup_template efd (Z.lor UEV_READ UEV_PERSIST) (Some CbWakeup) 0)) in HQ'.
  rewrite <- (insert_singleton_eq wakeup_event (MinHeap.Node 0 0) (MinHeap.Node 0 0)) in HQ'.
  exact HQ'.
Qed.

Lemma add_wakeup_wp n efd workers k (Q : Z -> ust -> Prop) :
  0 < n < 2 ^ 16 -> (forall i, tasks_of i workers = 0) -> pool_wf n workers ->
  (forall r s, INV (fun _ => 0) (n - 1) s -> running s = false -> zlen (slots s) = n ->
     pool s = workers -> pq (nodes (timers s)) = ∅ -> Q r s) ->
  wp (uevent_add (Some (n - 1)) 0) Q (base_with_wakeup n efd workers k).
Proof.
  intros Hn Ht Hwf HQ. pose proof (base_INV n efd workers k Hn Ht Hwf) as I.
  set (s := base_with_wakeup n efd workers k) in *.
  assert (zlen (slots s) = n) as Hlen by (simpl; rewrite zlen_zset, zlen_replicate; lia).
  eapply (uevent_add_wp (fun _ => 0) (n - 1) s); [done|intros i; lia|lia|lia|].
  intros r s' [I' K' R'] P' Hpost.
  apply HQ; [done|done|by rewrite (keep_len _ _ _ K')|done|].
  assert (pq (nodes (timers s)) = ∅) as H0 by done.
  destruct Hpost as [_ ->| e E _ _ _ _ ->| e E _ _ _ _ _ _ ->| e E E' H1 _ _ _ _ _ _ [_ H2]]; try done.
  assert (E = made wakeup_template (n - 1) efd (Z.lor UEV_READ UEV_PERSIST) (Some CbWakeup) 0) as ->.
  { destruct (i_wake _ _ _ I) as (W & W1 & W2 & _).
    rewrite (slot_at_inj _ _ _ _ _ _ H1 (slot_at_of_ev _ _ _ _ _ _ I W1 W2)).
    unfold s in W1. cbn [evs base_with_wakeup] in W1.
    apply lookup_singleton_Some in W1 as [_ <-]. done. }
  change (wants_timer _ _) with false in H2. destruct H2 as [_ ->]. done.
Qed.

Lemma start_wakeup_wp n efd workers k :
  0 < n < 2 ^ 16 -> (forall i, tasks_of i workers = 0) -> pool_wf n workers ->
  wp (start_wakeup_event efd) (fun b s => b = true -> INV (fun _ => 0) (n - 1) s /\
      zlen (slots s) = n /\ running s = false /\ pool s = workers /\
      pq (nodes (timers s)) = ∅) (bare_base n workers k).
Proof.
  intros Hn Ht Hwf. apply wp_bind. apply create_wakeup_wp; [lia|by intros s|].
  intros k'. apply wp_bind, add_wakeup_wp; [lia|done|done|]. intros r s I R L P E. by apply wp_ret.
Qed.

(** The pool a base is created with. *)
Definition fresh_pool (workers : Z) : option uevent_worker_pool_t :=
  if 0 <? workers then Some (Pool true 0 0 workers workers []) else None.

Lemma fresh_pool_tasks workers i : tasks_of i (fresh_pool workers) = 0.
Proof. unfold fresh_pool. by destruct (0 <? workers). Qed.

Lemma fresh_pool_wf n workers : pool_wf n (fresh_pool workers).
Proof. unfold fresh_pool. destruct (0 <? workers); [|done]. intros q [= <-]. by split. Qed.

(** *** The components *)

Lemma wp_obtain r (b : @making K) (Q : bool -> making -> Prop) :
  (forall k, k = (k_alloc r (mk_kern b)).2 -> (k_alloc r (mk_kern b)).1 = true -> Q true (set_mk_kern k (hold (r :: held b) b))) ->
  (forall k, (k_alloc r (mk_kern b)).1 = false -> Q false (set_mk_kern k b)) ->
  wp (obtain r) Q b.
Proof.
  intros H1 H2. unfold obtain, wp. destruct (k_alloc r (mk_kern b)) as [[] k]; cbn [fst snd] in *; [by apply H1|by apply H2].
Qed.

(** Everything a base is made of. *)
Definition all_parts (workers : Z) : list resource :=
  (if 0 <? workers then [RWorkerPool] else []) ++
  [RCond; RMutex; RFreeArr; RUevArr; RHeapArr; RHeap; REventsArr; REventFd; REpollFd; RBase].

(** The base whose components are all there. *)
Definition complete (workers efd : Z) (k : K) : making :=
  Making (all_parts workers) true efd true true true true (fresh_pool workers) k.

(** The memory for the slots was granted, that for the list of free slots not. *)
Definition free_slots_refused : Prop :=
  exists k : K, (k_alloc RUevArr k).1 = true /\ (k_alloc RFreeArr (k_alloc RUevArr k).2).1 = false.

(** What the code does after a failure. *)
Definition give_back : M (@making K) (option (@ust K)) := cleanup_base_components;; release RBase;; mret None.

(** After a failure everything can be given back. *)
Definition cleaned (b : @making K) : Prop := exists b', give_back b = Some (None, b') /\ held b' = [].

Lemma wp_eventfd (b : @making K) (Q : Z -> making -> Prop) :
  (forall efd k, Q efd (set_mk_kern k b)) ->
  wp (fun b => let r := k_eventfd (mk_kern b) in Some (r.1, set_mk_kern r.2 b)) Q b.
Proof. intros HQ. apply HQ. Qed.

Lemma slots_init_wp b (Q : Z -> making -> Prop) :
  (forall k, Q 0 (set_mk_kern k (set_mk_free_uev_arr true (set_mk_uev_arr true (hold (RFreeArr :: RUevArr :: held b) b))))) ->
  (forall k, Q (-1) (set_mk_kern k (set_mk_uev_arr false b))) ->
  (free_slots_refused -> forall k, Q (-1) (set_mk_kern k (set_mk_free_uev_arr false (set_mk_uev_arr true b)))) ->
  wp uev_slots_init Q b.
Proof.
  intros H1 H2 H3. unfold uev_slots_init.
  apply wp_bind, wp_obtain; [intros k -> Hu|intros k Hu]; apply wp_bind, wp_modify; cbn [negb].
  - apply wp_bind, wp_obtain; [intros k -> Hf|intros k Hf]; apply wp_bind, wp_modify; cbn [negb].
    + apply wp_ret, (H1 _).
    + apply wp_bind. unfold release, wp. cbn. destruct b. apply (H3 ltac:(by eexists) k).
  - apply wp_ret, (H2 _).
Qed.

Lemma create_heap_wp b (Q : bool -> making -> Prop) :
  (forall k, Q true (set_mk_kern k (hold (RHeapArr :: RHeap :: held b) b))) ->
  (forall k, Q false (set_mk_kern k b)) -> wp create_heap Q b.
Proof.
  intros H1 H2. unfold create_heap.
  apply wp_bind, wp_obtain; [intros k -> Hu|intros k Hu]; cbn [negb].
  - apply wp_bind, wp_obtain; [intros k -> Hf|intros k Hf]; cbn [negb].
    + apply wp_ret, (H1 _).
    + apply wp_bind. unfold release, wp. cbn. destruct b. apply (H2 k).
  - apply wp_ret, (H2 _).
Qed.

(** What [prepare_base_components] leaves. *)
Definition prepared (workers rc : Z) (b : @making K) : Prop :=
  (exists efd k', rc = 0 /\ efd <> -1 /\ b = complete workers efd k') \/
  rc = -1 /\ (cleaned b \/ free_slots_refused /\ give_back b = None).

Lemma prepared_failed workers b : cleaned b -> prepared workers (-1) b.
Proof. unfold prepared. auto. Qed.

Ltac made_cleaned := apply wp_ret, prepared_failed; eexists; split; [reflexivity|reflexivity].

(** A base with its descriptors and the parts told. *)
Definition partly (efd : Z) (e t a m c w : bool) (workers : Z) (k : K) : @making K :=
  Making ((if w then [RWorkerPool] else []) ++ (if c then [RCond] else []) ++ (if m then [RMutex] else []) ++
          (if a then [RFreeArr; RUevArr] else []) ++ (if t then [RHeapArr; RHeap] else []) ++
          (if e then [REventsArr] else []) ++ [REventFd; REpollFd; RBase])
    true efd e t a a (if w then Some (Pool true 0 0 workers workers []) else None) k.

Lemma partly_cleaned efd (e t a m c w : bool) workers k :
  efd <> -1 -> cleaned (partly efd e t a m c w workers k).
Proof.
  intros He%Z.eqb_neq. unfold cleaned.
  destruct e, t, a, m, c, w; eexists; (split; [cbv -[Z.eqb negb]; rewrite He; reflexivity|reflexivity]).
Qed.

Lemma refused_given_back efd k :
  give_back (set_mk_kern k (set_mk_free_uev_arr false (set_mk_uev_arr true (partly efd true true false false false false 0 k)))) = None.
Proof. reflexivity. Qed.

Ltac obtained := apply wp_bind, wp_obtain; [intros ? _ _|intros ? _]; cbn [negb].
Ltac obtained_in := apply wp_bind, wp_obtain; [intros ? _ _|intros ? _]; apply wp_bind, wp_modify; cbn [negb].
Ltac failed H e t a m c := apply wp_ret, prepared_failed, (partly_cleaned _ e t a m c false 0 _ H).

Lemma prepare_base_wp workers k :
  wp (prepare_base_components workers) (prepared workers) (hold [RBase] (nothing_made k)).
Proof.
  unfold prepare_base_components. obtained_in; [|made_cleaned].
  apply wp_bind, wp_eventfd. intros efd ?. apply wp_bind, wp_modify.
  destruct (Z.eqb_spec efd (-1)) as [->|He]; [made_cleaned|]. apply wp_bind, wp_modify.
  obtained_in; [|failed He false false false false false].
  apply wp_bind, create_heap_wp; intros ?; apply wp_bind, wp_modify; cbn [negb];
    [|failed He true false false false false].
  apply wp_bind, slots_init_wp; [intros ?|intros ?; failed He true true false false false|intros Hf ?; apply wp_ret; right; auto using refused_given_back].
  change (negb (0 =? 0)) with false. cbn [negb].
  obtained; [|failed He true true true false false].
  obtained; [|failed He true true true true false].
  unfold uevent_worker_pool_create.
  destruct (Z.ltb_spec 0 workers) as [Hw|Hw].
  - destruct (Z.leb_spec workers 0); [lia|]. apply wp_bind. obtained; apply wp_ret, wp_bind, wp_modify;
      [|failed He true true true true true].
    apply wp_ret. left. eexists efd, _. unfold complete, all_parts, fresh_pool.
    rewrite (proj2 (Z.ltb_lt _ _) Hw). done.
  - apply wp_ret. left. eexists efd, _. unfold complete, all_parts, fresh_pool.
    rewrite (proj2 (Z.ltb_ge _ _) Hw). done.
Qed.

(** What a new base leaves behind, or its failure. *)
Definition base_made (n workers : Z) (o : option (@ust K)) (b : @making K) : Prop :=
  match o with
  | Some s => (0 < n /\ 0 <= workers /\ INV (fun _ => 0) (n - 1) s /\ zlen (slots s) = n /\
      running s = false /\ pool s = fresh_pool workers /\ pq (nodes (timers s)) = ∅) /\ held b = all_parts workers
  | None => held b = []
  end.

Lemma complete_cleaned workers efd k : efd <> -1 -> cleaned (complete workers efd k).
Proof.
  intros He. pose proof (partly_cleaned efd true true true true true (0 <? workers) workers k He) as H.
  unfold partly in H. unfold complete, all_parts, fresh_pool. by destruct (0 <? workers).
Qed.

(** [x] is what [make_base] may answer. *)
Definition outcome (n workers : Z) (x : option (option (@ust K) * @making K)) : Prop :=
  match x with
  | Some (o, b) => base_made n workers o b
  | None => free_slots_refused
  end.

Lemma bind_outcome {A} (m : M (@making K) A) (g : A -> M making (option (@ust K))) b n workers :
  wp m (fun a b' => outcome n workers (g a b')) b -> outcome n workers ((m ≫= g) b).
Proof. unfold wp, mbind, M_bind. by destruct (m b) as [[a b']|]. Qed.

Lemma give_back_outcome n workers b :
  cleaned b \/ free_slots_refused /\ give_back b = None -> outcome n workers (give_back b).
Proof. by intros [(b' & -> & H)|[? ->]]. Qed.

Lemma uevent_base_new_ok n workers k :
  n < 2 ^ 16 -> outcome n workers (make_base n workers (nothing_made k)).
Proof.
  intros Hn. unfold make_base.
  destruct ((n <=? 0) || (workers <? 0)) eqn:E; [done|].
  apply bind_outcome, wp_obtain; [intros k1 _ _|by intros k1 _]. cbn [negb].
  apply bind_outcome. eapply wp_mono; [apply (prepare_base_wp workers k1)|].
  intros rc b [(efd & k2 & -> & He & ->)|[-> Hc]]; [|by apply give_back_outcome].
  change (negb (0 =? 0)) with false. cbn [negb]. apply bind_outcome.
  pose proof (start_wakeup_wp n efd (fresh_pool workers) k2) as H. unfold wp in H.
  unfold start_base, wp. cbn [mk_wakeup_fd mk_worker_pool mk_kern complete].
  destruct (start_wakeup_event _ _) as [[ok s]|]; [|apply H; [lia|apply fresh_pool_tasks|apply fresh_pool_wf]].
  cbn [fst snd]. destruct ok; cbn [negb].
  - destruct H as (I & L & R & P & T); [lia|apply fresh_pool_tasks|apply fresh_pool_wf|done|].
    split; [|done]. split_and!; done || lia.
  - apply give_back_outcome. left. apply (complete_cleaned workers efd (kern s) He).
Qed.

End make.
