(* ===== verification/UeventLoop.v ===== *)
(** * uevent: dispatching callbacks and the event loop

    The rules for [dispatch_event_callback], [uevent_handle_timers],
    [uevent_handle_epoll], [calculate_epoll_timeout] and
    [uevent_base_loopbreak] of [src/uevent/uevent.c], under what a user callback
    must respect: the invariant, and the references held around it. *)

From S2P Require Import Prelude.
From S2P Require Import MinHeap.
From S2P Require Import MinHeapInv.
From S2P Require Import MinHeapOps.
From S2P Require Import Uevent.
From S2P Require Import UeventInv.
From S2P Require Import UeventSteps.
From S2P Require Import UeventOps.
From S2P Require Import UeventAdd.
From S2P Require Import UeventApi.
From S2P Require Import UeventDel.
Import MinHeap (mst, mh, nodes, capacity, minheap_t, minheap_node_t).
Import Uevent.

Section loop.
Context {K : Type} {Kern : Kernel K}.
Implicit Types (s : @ust K) (g : Z -> Z) (E : uevent_t) (e : loc) (i : Z).

(** What holds after a call that may run user code. *)
Record runs g iw s s' : Prop := {
  rn_inv : INV g iw s';
  rn_keep : keep g s s';
  rn_pool : is_Some (pool s') <-> is_Some (pool s)
}.

Lemma runs_refl g iw s : INV g iw s -> runs g iw s s.
Proof. intros I. constructor; [done|apply keep_refl|done]. Qed.

Lemma runs_trans g iw s s' s'' : runs g iw s s' -> runs g iw s' s'' -> runs g iw s s''.
Proof.
  intros [A1 A2 A3] [B1 B2 B3]. constructor; [done|by eapply keep_trans|]. by rewrite B3.
Qed.

Lemma runs_len g iw s s' : runs g iw s s' -> zlen (slots s') = zlen (slots s).
Proof. intros [_ [L _] _]. done. Qed.

(** At most [bound] references are held on a slot while a callback runs. *)
Definition bound : Z := 2 ^ 19.

(** The contract of the user callbacks: called on an event of which a reference
    is held, with its lock taken, a callback has no undefined behaviour and
    leaves the invariant, the held slots and the worker pool in place. *)
Definition callback_ok (user_cb : Z -> loc -> Z -> Z -> Z -> M (@ust K) unit) iw : Prop :=
  forall f e fd' trig arg' g s i E,
    INV g iw s -> few g (bound + 2) -> 0 < g i -> slot_at s i e E -> modification_lock E = true ->
    wp (user_cb f e fd' trig arg') (fun _ s' => runs g iw s s' /\ pool s' = pool s) s.

(** Called in the same way by a loop without workers, a callback frees no event of
    the slot [i]. *)
Definition callback_spares (user_cb : Z -> loc -> Z -> Z -> Z -> M (@ust K) unit) iw (i : Z) : Prop :=
  forall f e fd' trig arg' g s j E,
    INV g iw s -> few g (bound + 2) -> 0 < g j -> slot_at s j e E -> modification_lock E = true ->
    pool s = None -> wp (user_cb f e fd' trig arg') (fun _ s' => spared s s' i) s.

Section callbacks.
Variable user_cb : Z -> loc -> Z -> Z -> Z -> M (@ust K) unit.
Variable iw : Z.
Hypothesis Hcb : callback_ok user_cb iw.
Hypothesis Kok : KernelOk K.

(** Where user code runs, the callbacks spare the event of the slot [i]. *)
Definition spares s i : Prop := pool s = None -> callback_spares user_cb iw i.

Lemma spares_runs g s s' i : runs g iw s s' -> spares s i -> spares s' i.
Proof.
  intros [_ _ P] H Hp. apply H. apply eq_None_not_Some. intros Hs. apply P in Hs. rewrite Hp in Hs. by destruct Hs.
Qed.

Lemma spared_quiet s s' i : quiet s s' -> spared s s' i.
Proof. intros (k & b & ->). by intros e. Qed.

Lemma runs_quiet g s s' : INV g iw s -> quiet s s' -> runs g iw s s'.
Proof.
  intros I Hq. pose proof (INV_quiet _ _ _ _ I Hq). destruct Hq as (k & b & ->).
  constructor; [done|by apply keep_same|done].
Qed.

Lemma call_callback_wp c g s i e E fd' trig arg' (Q : unit -> ust -> Prop) :
  INV g iw s -> few g (bound + 2) -> 0 < g i -> slot_at s i e E -> modification_lock E = true ->
  (forall s', runs g iw s s' -> pool s' = pool s ->
     (pool s = None -> forall j, callback_spares user_cb iw j -> spared s s' j) -> Q tt s') ->
  wp (call_callback user_cb c e fd' trig arg') Q s.
Proof.
  intros I F Hg Hs Hl HQ. destruct c as [|f]; simpl.
  - destruct (slot_at_facts _ _ _ _ _ _ I Hs) as (_ & Hb & _). destruct Hs as (u & _ & _ & He).
    eapply wakeup_fd_read_cb_wp; [done..|]. intros s' Hq. apply HQ; [by apply runs_quiet| |].
    + by destruct Hq as (? & ? & ->).
    + intros _ j _. by apply spared_quiet.
  - pose proof (Hcb f e fd' trig arg' g s i E I F Hg Hs Hl) as H.
    unfold wp in *. destruct (user_cb f e fd' trig arg' s) as [[[] s']|] eqn:Hr; [|done].
    destruct H as [R P]. apply HQ; [done..|]. intros Hp j Hj.
    specialize (Hj f e fd' trig arg' g s i E I F Hg Hs Hl Hp). unfold wp in Hj. by rewrite Hr in Hj.
Qed.

Lemma keep_slot_at_same g s s' i e E :
  keep g s s' -> INV g iw s' -> slot_at s i e E -> 0 < g i -> exists E', slot_at s' i e E'.
Proof. intros. by eapply keep_slot_at. Qed.

Lemma uevent_user_cb_wrapper_wp g s i e E fd' trig cb' arg' (Q : unit -> ust -> Prop) :
  INV g iw s -> few g (bound + 2) -> 0 < g i -> slot_at s i e E ->
  (forall s', runs g iw s s' -> pool s' = pool s ->
     (pool s = None -> forall j, callback_spares user_cb iw j -> spared s s' j) -> Q tt s') ->
  wp (uevent_user_cb_wrapper user_cb e fd' trig cb' arg') Q s.
Proof.
  intros I F Hg Hs HQ. unfold uevent_user_cb_wrapper. apply wp_bind.
  eapply uevent_try_lock_wp; [done..|intros _; apply wp_ret, HQ; [by apply runs_refl|done|intros; apply spared_refl]|].
  intros s1 -> Hl I1. cbn [negb]. set (E1 := set_modification_lock true E) in *.
  assert (slot_at (put_evs (<[e:=E1]> (evs s)) s) i e E1) as Hs1 by (by eapply (slot_at_insert s)).
  apply wp_bind. eapply wp_ev_get_at; [done|].
  destruct (slot_at_facts _ _ _ _ _ _ I1 Hs1) as (_ & -> & _). cbn [negb].
  assert (runs g iw s (put_evs (<[e:=E1]> (evs s)) s)) as R1.
  { constructor; [done|by apply keep_same|done]. }
  assert (forall j, spared s (put_evs (<[e:=E1]> (evs s)) s) j) as V1.
  { intros j. destruct Hs as (u & Hu & Hue & He). apply (spared_one _ _ _ e E E1); try done.
    - intros. by apply keep_same.
    - apply lookup_insert_eq.
    - intros x Hx. simpl. by rewrite lookup_insert_ne. }
  assert (wp (match cb' with Some c => call_callback user_cb c e fd' trig arg' | None => mret tt end;;
      uevent_unlock e) Q (put_evs (<[e:=E1]> (evs s)) s)) as Hgo.
  { assert (forall s2, runs g iw s s2 -> pool s2 = pool s ->
      (pool s = None -> forall j, callback_spares user_cb iw j -> spared s s2 j) ->
      (exists E2, slot_at s2 i e E2) -> wp (uevent_unlock e) Q s2) as Hend.
    { intros s2 R2 P2 V2 (E2 & Hs2). eapply uevent_unlock_wp; [apply R2|done|]. intros s3 -> I3.
      apply HQ; [|done|].
      - eapply runs_trans; [done|]. constructor; [done|by apply keep_same|done].
      - intros Hp j Hj. eapply spared_trans; [by apply V2|]. destruct Hs2 as (u2 & _ & _ & He2).
        apply (spared_one _ _ _ e E2 (set_modification_lock false E2)); try done.
        + intros. by apply keep_same.
        + apply lookup_insert_eq.
        + intros x Hx. simpl. by rewrite lookup_insert_ne. }
    apply wp_bind. destruct cb' as [c|]; [|apply wp_ret, Hend; eauto].
    eapply call_callback_wp; [done..|]. intros s2 R2 P2 V2. apply Hend; [by eapply runs_trans|done| |].
    - intros Hp j Hj. eapply spared_trans; [apply V1|by apply V2].
    - eapply keep_slot_at; [apply R2|apply R2|done|done]. }
  by destruct (bool_decide _).
Qed.

(** ** The queue of the worker pool *)

(** A step of the loop itself keeps every slot's event, held or not. *)
Record steps g iw s s' : Prop := {
  sp_runs : runs g iw s s';
  sp_keep : forall g', keep g' s s';
  sp_spares : forall j, spared s s' j
}.

Lemma steps_refl g s : INV g iw s -> steps g iw s s.
Proof. intros I. constructor; [by apply runs_refl|intros; apply keep_refl|intros; apply spared_refl]. Qed.

Lemma steps_trans g s s' s'' : steps g iw s s' -> steps g iw s' s'' -> steps g iw s s''.
Proof.
  intros [A1 A2 A3] [B1 B2 B3]. constructor; [by eapply runs_trans| |].
  - intros g'. by apply (keep_trans _ g' _ s').
  - intros j. by eapply spared_trans.
Qed.

Lemma steps_kern g s k : INV g iw s -> steps g iw s (put_kern k s).
Proof.
  intros I. constructor; [by constructor; [apply INV_kern|apply keep_same|]|intros; by apply keep_same|by intros j e].
Qed.

(** The task [t] was queued, or dropped: its event is in the pool already, or
    there is no memory for it. *)
Definition queueing s s' e E q t E' : Prop :=
  running s' = running s /\ evs s' = <[e := E']> (evs s) /\
  (pool s' = Some q /\ E' = E /\ (is_in_worker_pool E = true \/ exists k, (k_alloc RTask k).1 = false) \/
   is_in_worker_pool E = false /\ E' = set_is_in_worker_pool true E /\ exists q',
     pool s' = Some q' /\ task_queue q' = task_queue q ++ [t] /\ total_workers q' = total_workers q).

Lemma uevent_worker_pool_insert_wp g s i e E trig cron q (Q : unit -> ust -> Prop) :
  INV g iw s -> few g (2 ^ 20) -> slot_at s i e E -> pool s = Some q ->
  (forall s' E', steps g iw s s' -> slot_at s' i e E' -> pending_free E' = pending_free E ->
     queueing s s' e E q (Task i cron trig) E' -> Q tt s') ->
  wp (uevent_worker_pool_insert i trig cron) Q s.
Proof.
  clear Hcb. intros I F Hs Hq HQ. pose proof Hs as (u & Hu & Hue & He).
  destruct (i_used _ _ _ I i u e Hu Hue) as (E0 & F1 & F2 & F3 & F4 & F5 & F6 & F7 & F8).
  rewrite He in F1. injection F1 as <-. pose proof (znth_Some_range _ _ _ Hu) as Hi.
  pose proof (refcount_small _ _ _ _ _ I F Hu) as [Hr _].
  unfold uevent_worker_pool_insert. apply wp_bind. eapply wp_slot_get; [done|]. rewrite Hue.
  apply wp_bind. eapply wp_ev_get; [done|].
  assert (evs s = <[e := E]> (evs s)) as Hid by by rewrite insert_id.
  destruct (is_in_worker_pool E) eqn:Hw.
  { apply wp_ret, (HQ _ E); [by apply steps_refl|done..|]. split_and!; [done..|]. left. split_and!; auto. }
  apply wp_bind. unfold syscall, wp at 1. destruct (k_alloc RTask (kern s)) as [ok k] eqn:Hal. cbn [fst snd].
  destruct ok; cbn [negb].
  2: { apply wp_ret, (HQ _ E); [by apply steps_kern|done..|]. split_and!; [done..|]. left.
       split_and!; [done..|]. right. exists (kern s). by rewrite Hal. }
  apply wp_bind. unfold uevent_ref. apply wp_bind. eapply wp_slot_get; [done|].
  apply wp_bind, wp_slot_put. rewrite Hue, Hr. apply wp_bind.
  eapply wp_slot_ev; [by apply znth_zset_eq|done|]. apply wp_bind. eapply wp_ev_get; [done|].
  apply wp_ret, wp_bind. eapply wp_ev_get; [done|]. apply wp_bind, wp_ev_put, wp_bind, wp_gets.
  simpl. rewrite Hq. apply wp_modify.
  set (q' := Pool _ _ _ _ _ _).
  assert (forall j, tasks_of j (Some q') = tasks_of j (Some q) + b2z (bool_decide (i = j))) as Ht.
  { intros j. by apply (tasks_snoc _ _ _ (Task i cron trig)). }
  rewrite Hq in F5, F7, F8. specialize (F8 eq_refl).
  assert (tasks_of i (Some q') = 1) as Ht1.
  { rewrite Ht, F8, bool_decide_true; done. }
  apply (HQ _ (set_is_in_worker_pool true E)); simpl; try done.
  3: { split_and!; [done..|]. right. split_and!; [done..|]. by exists q'. }
  2: { eexists. simpl. split; [by apply znth_zset_eq|]. by rewrite lookup_insert_eq. }
  assert (forall g' s', slots s' = zset (slots s) i (Uev (Some e) (refcount u + 1)) -> keep g' s s') as Hk.
  { intros g' s' S1. by eapply keep_zset. }
  constructor; [constructor|..]; [|by apply Hk| |intros; by apply Hk|].
  - eapply (INV_event g g iw s _ i u e E (set_is_in_worker_pool true E) (refcount u + 1)); simpl; try done.
    + by eapply heap_step_refl.
    + rewrite Hq. destruct (INV_queue _ _ _ _ I Hq) as (Q1 & Q2 & _). pose proof (i_small _ _ _ I).
      destruct (i_pool _ _ _ I q Hq) as [_ Q3]. split_and!; [|intros j Hj|lia|done].
      * intros q0 [= <-]. unfold q'. simpl. rewrite swrap_small by (pose proof (zlen_nonneg (task_queue q)); lia).
        split; [unfold zlen in *; rewrite length_app; simpl; lia|].
        apply Forall_app. split; [done|]. constructor; [done|constructor].
      * rewrite Ht, bool_decide_false by done. simpl. lia.
    + rewrite F5, F8, Ht1. unfold own. simpl. lia.
    + lia.
    + intros ->. destruct (i_wake _ _ _ I) as (W & W1 & W2 & W3 & W4 & _). by simplify_eq.
    + unfold fd_count. simpl. lia.
    + apply I.
  - simpl. rewrite Hq. split; eauto.
  - intros j. apply (spared_one _ _ _ e E (set_is_in_worker_pool true E)); try done.
    + intros g'. by apply Hk.
    + apply lookup_insert_eq.
    + intros x Hx. simpl. by rewrite lookup_insert_ne.
Qed.

(** ** Dispatching *)

(** With a worker pool the loop runs no user code; without, the events the callbacks
    spare stay alive. *)
Record dispatched g s s' : Prop := {
  dp_runs : runs g iw s s';
  dp_pool : is_Some (pool s) -> forall g', keep g' s s';
  dp_spares : forall j, spares s j -> spared s s' j
}.

Lemma dispatched_refl g s : INV g iw s -> dispatched g s s.
Proof. intros I. constructor; [by apply runs_refl|intros _ g'; apply keep_refl|intros; apply spared_refl]. Qed.

Lemma dispatched_trans g s s' s'' : dispatched g s s' -> dispatched g s' s'' -> dispatched g s s''.
Proof.
  intros [A1 A2 A3] [B1 B2 B3]. constructor; [by eapply runs_trans| |].
  - intros Hp g'. apply (keep_trans _ g' _ s'); [by apply A2| |done]. apply B2. by apply (rn_pool _ _ _ _ A1).
  - intros j Hj. eapply spared_trans; [by apply A3|]. apply B3. by eapply spares_runs.
Qed.

Lemma dispatched_steps g s s' : steps g iw s s' -> dispatched g s s'.
Proof. intros [A1 A2]. by constructor. Qed.

Lemma dispatched_quiet g s s' : INV g iw s -> quiet s s' -> dispatched g s s'.
Proof.
  intros I Hq. constructor; [by apply runs_quiet| |intros; by apply spared_quiet].
  intros _ g'. destruct Hq as (k & b & ->). by apply keep_same.
Qed.

Lemma bound_small g : few g bound -> few g (2 ^ 20 - 2).
Proof. intros F. eapply few_le; [done|]. unfold bound. lia. Qed.

Lemma dispatch_event_callback_wp g s i trig cron (Q : unit -> ust -> Prop) :
  INV g iw s -> few g (bound + 1) -> 0 <= i < zlen (slots s) ->
  (forall s', dispatched g s s' -> Q tt s') ->
  wp (dispatch_event_callback user_cb i trig cron) Q s.
Proof.
  intros I F Hi HQ. assert (few g (2 ^ 20 - 1)) as F1 by (eapply few_le; [done|unfold bound; lia]).
  assert (few g (2 ^ 20)) as F2 by (eapply few_le; [done|unfold bound; lia]).
  unfold dispatch_event_callback. apply wp_bind. apply (uevent_try_ref_wp g iw); [done..| |].
  { intros _. by apply wp_ret, HQ, dispatched_refl. }
  intros s1 e E I1 K1 Hs1 Hs Hp P1 R1 T1 V1. pose proof (keep_len _ _ _ (K1 g)) as L1.
  assert (0 < gadd g i i) as Hg by (rewrite gadd_eq; specialize (F i); lia).
  assert (forall s2, runs (gadd g i) iw s1 s2 ->
    (is_Some (pool s) -> (forall g', keep g' s1 s2) /\ exists E2, slot_at s2 i e E2 /\ pending_free E2 = false) ->
    (forall j, spares s j -> spared s1 s2 j) ->
    wp (uevent_put_ i) Q s2) as Hend.
  { intros s2 [I2 K2 P2] Hpool Hspr. pose proof (keep_len _ _ _ K2) as L2.
    eapply (uevent_put__wp g iw); [done..|rewrite L2, L1; done|].
    intros s3 I3 K3 P3 R3 H3 _ [_ V3]. apply HQ. constructor; [constructor|..].
    - done.
    - apply (keep_trans _ g _ s1); [apply K1| |done]. eapply keep_trans; [|exact K3|done].
      by eapply keep_gadd.
    - by rewrite P3, P2, P1.
    - intros Hsp g'. destruct (Hpool Hsp) as (Hk & E2 & Hs2 & Hp2).
      destruct (H3 e E2 Hs2 (or_introl Hp2)) as (_ & _ & Hk3 & _).
      apply (keep_trans _ g' _ s1); [apply K1| |done].
      by apply (keep_trans _ g' _ s2); [apply Hk|apply Hk3|].
    - intros j Hj. eapply spared_trans; [by apply (spared_same s s1)|].
      eapply spared_trans; [by apply Hspr|apply V3]. }
  apply wp_bind. eapply wp_slot_ev_at; [done|]. apply wp_bind. eapply wp_ev_get_at; [done|].
  apply wp_bind, wp_gets, wp_bind, wp_gets.
  destruct (slot_at_facts _ _ _ _ _ _ I1 Hs1) as (_ & Hb & Hw & _). rewrite Hb, Hw. cbn [andb].
  destruct (bool_decide_reflect (is_Some (pool s1))) as [Hsp|Hsp].
  - destruct (running s1); cbn [negb].
    + apply wp_bind. destruct Hsp as [q Hq].
      eapply uevent_worker_pool_insert_wp; [done| |done..|]; [by apply few_up|].
      intros s2 E2 St Hs2 Hp2 _. apply Hend; [apply St| |intros; apply St]. intros _. split; [apply St|].
      exists E2. split; [done|congruence].
    + apply Hend; [by apply runs_refl| |intros; apply spared_refl].
      intros _. split; [intros; apply keep_refl|]. by exists E.
  - apply wp_bind. eapply uevent_user_cb_wrapper_wp; [done| |done..|].
    + apply (few_gadd _ _ (bound + 1)); [done|lia].
    + intros s2 R2 _ V2. apply Hend; [done| |].
      * intros Hsp'. by rewrite <- P1 in Hsp'.
      * assert (pool s1 = None) as Hn by by apply eq_None_not_Some.
        intros j Hj. apply V2; [done|]. apply Hj. congruence.
Qed.

Lemma uevent_handle_ev_cb_wp g s e trig cron (Q : unit -> ust -> Prop) :
  INV g iw s -> few g (bound + 1) -> is_Some (evs s !! e) ->
  (forall s', dispatched g s s' -> Q tt s') ->
  wp (uevent_handle_ev_cb user_cb (Some e) trig cron) Q s.
Proof.
  intros I F [E He] HQ. unfold uevent_handle_ev_cb.
  destruct (trig =? 0); [by apply wp_ret, HQ, dispatched_refl|].
  apply wp_bind. eapply wp_ev_get; [done|].
  destruct (pending_free E); [by apply wp_ret, HQ, dispatched_refl|].
  destruct (uev E) as [i|] eqn:Hu; [|by apply wp_ret, HQ, dispatched_refl].
  destruct (slot_at_facts _ _ _ _ _ _ I (slot_at_of_ev _ _ _ _ _ _ I He Hu)) as (_ & _ & _ & _ & Hi).
  assert (forall k, wp (when (bool_decide (is_Some (cb E))) (dispatch_event_callback user_cb i trig cron))
    Q (put_kern k s)) as Hgo.
  { intros k. pose proof (dispatched_steps _ _ _ (steps_kern g s k I)) as Hk.
    destruct (bool_decide _); cbn [when]; [|by apply wp_ret, HQ].
    eapply dispatch_event_callback_wp; [by apply INV_kern|done|done|].
    intros s' D. apply HQ. by eapply dispatched_trans. }
  apply wp_bind. destruct (has trig UEV_TIMEOUT); cbn [when].
  - apply wp_bind, wp_syscall. intros t k. apply wp_ret, Hgo.
  - apply wp_ret. replace s with (put_kern (kern s) s) by (by destruct s). apply Hgo.
Qed.

Lemma call_cb_if_exists_wp g s e cron (Q : unit -> ust -> Prop) :
  INV g iw s -> few g (bound + 1) -> is_Some (evs s !! e) ->
  (forall s', dispatched g s s' -> Q tt s') ->
  wp (call_cb_if_exists user_cb e cron) Q s.
Proof.
  intros I F [E He] HQ. unfold call_cb_if_exists. apply wp_bind. eapply wp_ev_get; [done|].
  destruct (bool_decide _); cbn [when]; [|by apply wp_ret, HQ, dispatched_refl].
  eapply uevent_handle_ev_cb_wp; eauto.
Qed.

(** ** Timers *)

Lemma INV_expired g s e E tm :
  INV g iw s -> evs s !! e = Some E -> active_timer E = true -> heap_step s tm e false ->
  pq (nodes tm) = delete e (pq (nodes (timers s))) ->
  exists i, uev E = Some i /\ i <> iw /\ 0 <= i < zlen (slots s) /\
    s32 (num_active_timers s - 1) = num_active_timers s - 1 /\
    INV (gadd g i) iw (put_num_active_timers (num_active_timers s - 1)
      (put_evs (<[e := set_active_timer false E]> (evs s)) (put_timers tm s))).
Proof.
  intros I He Ha Hst Hpq.
  destruct (uev E) as [i|] eqn:Hu; [|destruct (i_idle _ _ _ I e E He Hu); congruence].
  pose proof (slot_at_of_ev _ _ _ _ _ _ I He Hu) as Hs.
  destruct (slot_at_facts _ _ _ _ _ _ I Hs) as (_ & _ & _ & _ & Hi).
  assert (i <> iw) as Hiw.
  { intros ->. destruct (i_wake _ _ _ I) as (W & W1 & W2 & W3 & _).
    destruct (slot_at_of_ev _ _ _ _ _ _ I W1 W2) as (w & A1 & A2 & A3), Hs as (u & B1 & B2 & B3).
    simplify_eq. congruence. }
  pose proof (INV_timers_room _ _ _ I). pose proof (i_small _ _ _ I).
  assert (Z.of_nat (size (delete e (pq (nodes (timers s))))) =
    Z.of_nat (size (pq (nodes (timers s)))) - 1) as Hsz.
  { rewrite map_size_delete. assert (is_Some (pq (nodes (timers s)) !! e)) as [x Hx].
    { rewrite (i_timer _ _ _ I). eauto. }
    rewrite Hx. assert (size (pq (nodes (timers s))) <> 0%nat); [|lia].
    intros Hz%map_size_empty_inv. by rewrite Hz in Hx. }
  exists i. split_and!; try done; try lia.
  - rewrite (i_ntm _ _ _ I). apply swrap_small; lia.
  - destruct Hs as (u & Hu' & Hue & _).
    eapply (INV_handover g iw s _ i u e E (set_active_timer false E)); simpl; try done.
    + unfold own. simpl. rewrite Ha. simpl. lia.
    + unfold fd_count. simpl. lia.
    + rewrite Hpq, (i_ntm _ _ _ I). lia.
Qed.

Lemma cron_persist_wp g s i e E cron (Q : unit -> ust -> Prop) :
  INV g iw s -> few g (2 ^ 20) -> slot_at s i e E -> i <> iw ->
  (forall s' E', steps g iw s s' -> slot_at s' i e E' -> Q tt s') ->
  wp (cron_persist_event_if_needed_internal_unsafe i cron) Q s.
Proof.
  intros I F Hs Hi HQ. pose proof Hs as (u & Hu & Hue & He).
  unfold cron_persist_event_if_needed_internal_unsafe. apply wp_bind.
  eapply wp_slot_get; [done|]. rewrite Hue. apply wp_bind. eapply wp_ev_get; [done|].
  apply wp_bind, wp_gets.
  destruct (_ || _); [by apply wp_ret, (HQ _ E); [apply steps_refl|]|].
  destruct (negb _); [by apply wp_ret, (HQ _ E); [apply steps_refl|]|].
  eapply insert_timer_to_heap_wp; [done..| |by intros].
  intros s' [I' K' S' _ _ _ _ P' R' O'] _ _. eapply HQ; [|done].
  constructor; [constructor; [done|done|by rewrite P']|done|].
  intros j. destruct S' as (u' & _ & _ & He'). by eapply spared_one.
Qed.

(** What a part of a turn of the loop does. *)
Record turned g s s' : Prop := {
  tn_runs : runs g iw s s';
  tn_spares : forall j, spares s j -> spared s s' j
}.

Lemma turned_refl g s : INV g iw s -> turned g s s.
Proof. intros I. constructor; [by apply runs_refl|intros; apply spared_refl]. Qed.

Lemma turned_trans g s s' s'' : turned g s s' -> turned g s' s'' -> turned g s s''.
Proof.
  intros [A1 A3] [B1 B3]. constructor; [by eapply runs_trans|].
  intros j Hj. eapply spared_trans; [by apply A3|]. apply B3. by eapply spares_runs.
Qed.

Lemma turned_dispatched g s s' : dispatched g s s' -> turned g s s'.
Proof. intros [A1 _ A3]. by constructor. Qed.

Lemma turned_steps g s s' : steps g iw s s' -> turned g s s'.
Proof. intros H. by apply turned_dispatched, dispatched_steps. Qed.

Lemma turned_same g s s' :
  INV g iw s' -> slots s' = slots s -> evs s' = evs s -> pool s' = pool s -> turned g s s'.
Proof.
  intros I S1 S2 S3. constructor; [constructor; [done|by apply keep_same|by rewrite S3]|].
  intros j _. apply spared_same; [intros; by apply keep_same|done].
Qed.

Lemma timers_loop_wp max g s now (Q : unit -> ust -> Prop) :
  INV g iw s -> few g bound -> (forall s', turned g s s' -> Q tt s') ->
  wp (timers_loop user_cb max now) Q s.
Proof.
  revert s Q. induction max as [|max IH]; intros s Q I F HQ; [by apply HQ, turned_refl|].
  pose proof (bound_small _ F) as F2.
  assert (few g (2 ^ 20 - 1)) as F1 by (eapply few_le; [exact F2|lia]).
  cbn [timers_loop]. apply wp_bind, wp_heap.
  assert (put_timers (timers s) s = s) as Hid by (by destruct s).
  eapply heap_min_wp; [done|rewrite Hid; intros _; by apply wp_ret, HQ, turned_refl|].
  intros m nd Hnd Hmin Hk. rewrite Hid. apply wp_bind. eapply wp_heap_node_key; [done|].
  destruct (now <? MinHeap.key nd); [by apply wp_ret, HQ, turned_refl|].
  apply wp_bind, wp_heap. eapply heap_extract_wp; [done|by intros H0; rewrite H0 in Hk|].
  intros e nd' tm Hnd' Hmin' Hk' Hst Hpq Hkeys.
  destruct (proj1 (i_timer _ _ _ I e)) as (E & He & Ha); [eauto|].
  destruct (INV_expired g s e E tm I He Ha Hst Hpq) as (i & Hu & Hiw & Hi & Hs32 & I1).
  apply wp_bind. assert (exists nd2, nodes tm !! e = Some nd2) as [nd2 Hnd2].
  { destruct Hst as (_ & _ & _ & _ & Hd & _). apply elem_of_dom, Hd, elem_of_dom. eauto. }
  eapply wp_heap_node_key; [done|]. set (cron := MinHeap.key nd2). clearbody cron.
  apply wp_bind. eapply wp_ev_get; [done|]. rewrite Hu.
  apply wp_bind, wp_ev_put, wp_bind, wp_modify. simpl. rewrite Hs32.
  set (s1 := put_num_active_timers _ _) in *.
  assert (slots s1 = slots s) as Hsl by done. assert (pool s1 = pool s) as Hpl by done.
  assert (forall j, spared s s1 j) as V1.
  { intros j. apply (spared_one _ _ _ e E (set_active_timer false E)); try done.
    - intros. by apply keep_same.
    - apply lookup_insert_eq.
    - intros x Hx. simpl. by rewrite lookup_insert_ne. }
  assert (slot_at s1 i e (set_active_timer false E)) as Hs1.
  { eapply (slot_at_insert s); [|done..]. by eapply slot_at_of_ev. }
  clearbody s1. apply wp_bind.
  assert (few (gadd g i) (2 ^ 20)) as F3 by (by apply few_up).
  assert (forall s2, INV (gsub (gadd g i) i) iw s2 -> INV g iw s2) as Hback.
  { intros s2 I2. eapply INV_proper; [|done..|exact I2]. intros j. symmetry. apply gsub_gadd. }
  eapply (uevent_put_wp (gadd g i) iw); [done|done|rewrite gadd_eq; specialize (F i); lia|by rewrite Hsl| |].
  - intros s2 I2 K2 P2 R2 E2 T2 S2. apply Hback in I2. specialize (S2 _ _ Hs1).
    assert (turned g s s2) as D2.
    { constructor; [constructor; [done| |by rewrite P2, Hpl]|].
      - apply (keep_trans _ g _ s1); [by apply keep_same|apply K2|done].
      - intros j _. eapply spared_trans; [apply V1|by apply spared_same]. }
    apply wp_bind. eapply cron_persist_wp; [done| |done..|]; [eapply few_le; [exact F2|lia]|].
    intros s3 E3 St3 Hs3. apply wp_bind.
    eapply call_cb_if_exists_wp; [apply St3|eapply few_le; [exact F|unfold bound; lia]| |].
    { destruct Hs3 as (? & _ & _ & ?). eauto. }
    intros s4 D4. apply IH; [apply D4|done|]. intros s5 D5. apply HQ.
    eapply turned_trans; [|exact D5]. eapply turned_trans; [|apply turned_dispatched, D4].
    eapply turned_trans; [exact D2|]. by apply turned_steps.
  - intros s2 I2 K2 P2 R2 _ _ _ _ V2. apply Hback in I2. apply IH; [done|done|].
    intros s3 D3. apply HQ. eapply turned_trans; [|exact D3].
    constructor; [constructor; [done| |by rewrite P2, Hpl]|].
    + apply (keep_trans _ g _ s1); [by apply keep_same| |done].
      eapply keep_weaken; [exact K2|]. intros j. by rewrite gsub_gadd.
    + intros j _. eapply spared_trans; [apply V1|apply V2].
Qed.

Lemma uevent_handle_timers_wp g s (Q : unit -> ust -> Prop) :
  INV g iw s -> few g bound -> (forall s', turned g s s' -> Q tt s') ->
  wp (uevent_handle_timers user_cb) Q s.
Proof.
  intros I F HQ. apply wp_bind, wp_gets. destruct (running s); cbn [negb]; [|by apply wp_ret, HQ, turned_refl].
  apply wp_bind. unfold mutex_lock. apply wp_syscall. intros r k. apply wp_bind. unfold time_ms.
  apply wp_syscall. intros now k'. apply (timers_loop_wp _ g); [by apply INV_kern, INV_kern|done|].
  intros s' R. apply HQ. eapply turned_trans; [|exact R].
  apply turned_same; [by apply INV_kern, INV_kern|done..].
Qed.

(** ** The epoll timeout *)

Lemma calculate_epoll_timeout_wp g s (Q : Z -> ust -> Prop) :
  INV g iw s ->
  (forall t s', quiet s s' -> 0 <= t <= EPOLL_MAX_TIMEOUT_MS -> Q t s') ->
  wp calculate_epoll_timeout Q s.
Proof.
  intros I HQ. unfold calculate_epoll_timeout. apply wp_bind. eapply wakeup_fd_reset_wp; [done..|].
  intros s1 Hq1. pose proof (INV_quiet _ _ _ _ I Hq1) as I1.
  assert (forall k, quiet s (put_kern k s1)) as Hk.
  { intros k. destruct Hq1 as (k' & b & ->). by exists k, b. }
  apply wp_bind, wp_gets. destruct (_ =? 0); [apply wp_ret, HQ; unfold EPOLL_MAX_TIMEOUT_MS; done || lia|].
  apply wp_bind. unfold mutex_lock. apply wp_syscall. intros rc k.
  destruct (negb _); [apply wp_ret, HQ; [done|unfold EPOLL_MAX_TIMEOUT_MS; lia]|].
  assert (forall k, put_timers (timers (put_kern k s1)) (put_kern k s1) = put_kern k s1) as Hid by (by destruct s1).
  apply wp_bind, wp_heap. eapply heap_min_wp; [by apply INV_kern| |]; rewrite Hid.
  { intros _. apply wp_ret, HQ; [done|unfold EPOLL_MAX_TIMEOUT_MS; lia]. }
  intros e nd Hnd Hmin Hk'. apply wp_bind. unfold time_ms. apply wp_syscall. intros now k2.
  destruct (proj1 (i_timer _ _ _ I1 e)) as (E & He & _); [eauto|].
  apply wp_bind. eapply wp_ev_get; [done|]. apply wp_bind. eapply wp_heap_node_key; [done|].
  destruct (Z.leb_spec (MinHeap.key nd) now); [apply wp_ret, HQ; [exact (Hk k2)|unfold EPOLL_MAX_TIMEOUT_MS; lia]|].
  pose proof (wrap_range 64 (MinHeap.key nd - now) ltac:(lia)) as Hr.
  destruct (Z.ltb_spec (u64 (MinHeap.key nd - now)) EPOLL_MAX_TIMEOUT_MS); unfold EPOLL_MAX_TIMEOUT_MS in *.
  - apply wp_ret, HQ; [exact (Hk k2)|]. rewrite swrap_small; lia.
  - apply wp_ret, HQ; [exact (Hk k2)|lia].
Qed.

(** ** Descriptor events *)

(** The loop may use the event of the slot: it is the wake-up event, or the
    application holds a reference to it, or it is alive and the callbacks the loop
    runs do not free it. *)
Definition usable g s i : Prop :=
  0 <= i < zlen (slots s) /\ (i = iw \/ 0 < g i \/ live s i /\ spares s i).

Lemma usable_turned g s s' i : turned g s s' -> usable g s i -> usable g s' i.
Proof.
  intros [R V] [Hi H]. split; [by rewrite (runs_len _ _ _ _ R)|].
  destruct H as [?|[?|[[e He] Hs]]]; [by left|by right; left|]. right; right.
  split; [|by eapply spares_runs]. exists e. by apply V.
Qed.

(** The slots epoll reported. *)
Definition reported g s (l : list (Z * Z)) : Prop := forall i m, (i, m) ∈ l -> usable g s i.

Lemma wake_slot g s : INV g iw s -> exists W, slot_at s iw wakeup_event W /\
  pending_free W = false /\ has (events W) UEV_PERSIST = true.
Proof.
  intros I. destruct (i_wake _ _ _ I) as (W & W1 & W2 & W3 & W4 & W5 & W6).
  exists W. split; [by eapply slot_at_of_ev|done].
Qed.

Lemma reported_slot g s i : INV g iw s -> usable g s i -> exists e E, slot_at s i e E.
Proof.
  intros I [Hi [->|[Hg|[(e & E & H & _) _]]]]; [|by eapply slot_at_held|eauto].
  destruct (wake_slot _ _ I) as (W & HW & _). eauto.
Qed.

(** After a part of a turn the slot still has its event. *)
Lemma usable_slot g s s' i e E : INV g iw s -> turned g s s' -> usable g s i -> slot_at s i e E ->
  exists E', slot_at s' i e E'.
Proof.
  intros I [R V] [Hi H] Hs. destruct H as [->|[Hg|[(e' & E' & Hs' & Hp) Hsp]]].
  - destruct (wake_slot _ _ I) as (W & HW & _), (wake_slot _ _ (rn_inv _ _ _ _ R)) as (W1 & HW1 & _).
    assert (e = wakeup_event) as -> by (destruct HW as (? & A1 & A2 & _), Hs as (? & B1 & B2 & _); congruence).
    eauto.
  - eapply keep_slot_at; [apply R|apply R|done|done].
  - assert (e' = e) as -> by (destruct Hs' as (? & A1 & A2 & _), Hs as (? & B1 & B2 & _); congruence).
    destruct (V i Hsp e) as (E1 & ? & _); [by exists E'|eauto].
Qed.

Lemma spared_del s s' i r j : (forall g', keep g' s s') -> del_post s s' i r -> spared s s' j.
Proof.
  intros K' Hpost. destruct Hpost as [_ ->|e E E' (? & _ & _ & He) Hp _ Hp' _ _ _ _ _ Hev]; [apply spared_refl|].
  apply (spared_one _ _ _ e E E'); try done; rewrite Hev; [apply lookup_insert_eq|].
  intros y Hy. by rewrite lookup_insert_ne.
Qed.

Lemma handle_epoll_loop_wp l g s (Q : unit -> ust -> Prop) :
  INV g iw s -> few g bound -> reported g s l -> (forall s', turned g s s' -> Q tt s') ->
  wp (handle_epoll_loop user_cb l) Q s.
Proof.
  revert s Q. induction l as [|[i m] l IH]; intros s Q I F Hl HQ; [by apply HQ, turned_refl|].
  pose proof (Hl i m ltac:(set_solver)) as Hg.
  assert (forall s', turned g s s' -> wp (handle_epoll_loop user_cb l) Q s') as Hrest.
  { intros s' R. apply IH; [apply R|done| |].
    - intros j m' Hj. eapply usable_turned; [done|]. apply (Hl j m'). set_solver.
    - intros s'' R'. apply HQ. by eapply turned_trans. }
  destruct (reported_slot _ _ _ I Hg) as (e & E & Hs).
  cbn [handle_epoll_loop]. apply wp_bind. eapply wp_slot_ev_at; [done|].
  apply wp_bind. eapply wp_ev_get_at; [done|]. apply wp_bind.
  destruct (active_fd E); cbn [negb]; [|by apply wp_ret, Hrest, turned_refl].
  apply wp_bind. eapply uevent_handle_ev_cb_wp; [done|eapply few_le; [exact F|lia]| |].
  { destruct Hs as (? & _ & _ & ?). eauto. }
  intros s1 D1%turned_dispatched. pose proof (tn_runs _ _ _ D1) as R1.
  destruct (usable_slot _ _ _ _ _ _ I D1 Hg Hs) as [E1' Hs1].
  pose proof Hs1 as (u1 & Hu1 & Hue1 & He1).
  apply wp_bind. eapply wp_ev_get; [done|].
  destruct (internal_should_auto_del_fd E1' (convert_from_epoll_events m)) eqn:Had; cbn [when];
    [|by apply wp_ret, Hrest].
  assert (i <> iw) as Hiw.
  { intros ->. destruct (wake_slot _ _ (rn_inv _ _ _ _ R1)) as (W1 & HW1 & _ & Hpers).
    destruct (wake_slot _ _ I) as (W & HW & _).
    assert (E1' = W1) as ->.
    { destruct HW as (? & A1 & A2 & _), Hs as (? & B1 & B2 & _), HW1 as (? & _ & _ & C).
      assert (e = wakeup_event) as -> by congruence. congruence. }
    unfold internal_should_auto_del_fd in Had. rewrite Hpers, andb_false_r in Had. done. }
  apply wp_bind. pose proof (bound_small _ F) as F2.
  eapply uevent_del_wp; [apply R1|done|rewrite (runs_len _ _ _ _ R1); apply Hg|done|].
  intros r s2 [I2 K2 _] K' P2 Hpost. apply wp_ret, Hrest. eapply turned_trans; [exact D1|].
  constructor; [constructor; [done|done|by rewrite P2]|]. intros j _. by eapply spared_del.
Qed.

Lemma uevent_handle_epoll_wp l g s (Q : unit -> ust -> Prop) :
  INV g iw s -> few g bound -> reported g s l -> (forall s', turned g s s' -> Q tt s') ->
  wp (uevent_handle_epoll user_cb l) Q s.
Proof.
  intros I F Hl HQ. apply wp_bind, wp_gets. destruct (running s); cbn [negb].
  - by eapply handle_epoll_loop_wp.
  - by apply wp_ret, HQ, turned_refl.
Qed.

(** ** The loop *)

(** What epoll may report. *)
Definition epoll_ok g s : Prop :=
  forall t (k : K) i m, (i, m) ∈ (k_epoll_wait t k).1.2 -> usable g s i.

Lemma epoll_ok_turned g s s' : turned g s s' -> epoll_ok g s -> epoll_ok g s'.
Proof. intros T H t k i m Hin. eapply usable_turned; [done|]. by eapply H. Qed.

Lemma epoll_wait_and_dispatch_wp g s t (Q : Z -> ust -> Prop) :
  INV g iw s -> few g bound -> epoll_ok g s ->
  (forall r s', runs g iw s s' -> r = 0 \/ r = -1 -> Q r s') ->
  wp (epoll_wait_and_dispatch user_cb t) Q s.
Proof.
  intros I F Hep HQ. unfold epoll_wait_and_dispatch, time_ms.
  apply wp_bind, wp_syscall. intros t1 k1. apply wp_bind.
  unfold syscall at 1, wp at 1. cbn [fst snd].
  specialize (Hep t (kern (put_kern k1 s))).
  destruct (k_epoll_wait t (kern (put_kern k1 s))) as [[[n err] l] k2]. cbn [fst snd] in *.
  apply wp_bind, wp_syscall. intros t3 k3.
  assert (turned g s (put_kern k3 (put_kern k2 (put_kern k1 s)))) as T0
    by (apply turned_same; [by repeat apply INV_kern|done..]).
  pose proof (tn_runs _ _ _ T0) as R0.
  set (s0 := put_kern k3 _) in *. clearbody s0.
  destruct (n =? -1).
  { apply wp_ret, HQ; [done|]. destruct (err =? EINTR); auto. }
  apply wp_bind. eapply uevent_handle_timers_wp; [apply R0|done|]. intros s1 T1.
  assert (turned g s s1) as T01 by (by eapply turned_trans). pose proof (tn_runs _ _ _ T01) as R01.
  apply wp_bind. destruct (0 <? n); cbn [when]; [|apply wp_ret, wp_ret, HQ; auto].
  eapply uevent_handle_epoll_wp; [apply R01|done| |].
  - intros i m Hin. apply elem_of_take in Hin as (j & Hin & _).
    eapply usable_turned; [exact T01|]. apply (Hep i m). by eapply list_elem_of_lookup_2.
  - intros s2 T2. apply wp_ret, HQ; [|auto]. eapply runs_trans; [exact R01|apply T2].
Qed.

Lemma dispatch_turn_wp g s (Q : option Z -> ust -> Prop) :
  INV g iw s -> few g bound -> epoll_ok g s ->
  (forall r s', runs g iw s s' ->
     match r with None => True | Some r => r = UEV_ERR_OK \/ r = UEV_ERR_EPOLL end -> Q r s') ->
  wp (dispatch_turn user_cb) Q s.
Proof.
  intros I F Hep HQ. unfold dispatch_turn. apply wp_bind, wp_gets.
  destruct (running s); cbn [negb]; [|by apply wp_ret, HQ; [apply runs_refl|left]].
  unfold uevent_base_has_events. apply wp_bind, wp_bind, wp_gets, wp_bind, wp_gets, wp_ret.
  destruct (negb _).
  { apply wp_bind, wp_modify, wp_ret, HQ; [|by left].
    constructor; [by eapply INV_frame|by apply keep_same|done]. }
  apply wp_bind. eapply calculate_epoll_timeout_wp; [done|]. intros t s1 Hq Ht.
  pose proof (runs_quiet g _ _ I Hq) as R1.
  apply wp_bind. eapply (epoll_wait_and_dispatch_wp g); [apply R1|done| |].
  { eapply epoll_ok_turned; [|exact Hep]. constructor; [done|]. intros; by apply spared_quiet. }
  intros r s2 R2 Hr. assert (runs g iw s s2) as R by (by eapply runs_trans).
  destruct (negb (r =? 0)); apply wp_ret, HQ; auto.
Qed.
End callbacks.
End loop.
