(* ===== verification/UeventRecord.v ===== *)
(** * uevent: a record of the callbacks

    The user's functions leave a record of their calls.  The rules of this file
    say which call [uevent_handle_ev_cb] of [src/uevent/uevent.c] makes for an
    event without workers, and that it leaves the base as it was. *)

From S2P Require Import Prelude.
From S2P Require Import MinHeap.
From S2P Require Import MinHeapInv.
From S2P Require Import MinHeapOps.
From S2P Require Import Uevent.
From S2P Require Import UeventInv.
From S2P Require Import UeventSteps.
From S2P Require Import UeventOps.
From S2P Require Import UeventAdd.
From S2P Require Import UeventApi.
From S2P Require Import UeventDel.
From S2P Require Import UeventMoves.
From S2P Require Import UeventLoop.
Import MinHeap (mst, mh, nodes, capacity, minheap_t, minheap_node_t).
Import Uevent.

(** ** A record of the callbacks *)

(** A call of the user's function [f]. *)
Record call := Call { c_fun : Z; c_ev : loc; c_fd : Z; c_trig : Z; c_arg : Z }.

Section record.
Context {K : Type} {Kern : Kernel K}.

(** The outside world with the calls made so far. *)
Definition observed : Type := K * list call.

Definition beside {A} (f : K -> A * K) (w : observed) : A * observed :=
  ((f w.1).1, ((f w.1).2, w.2)).

#[export] Instance observed_kernel : Kernel observed := {
  k_epoll_ctl op fd' mask i := beside (k_epoll_ctl op fd' mask i);
  k_mutex_lock := beside k_mutex_lock;
  k_time_ms := beside k_time_ms;
  k_alloc r := beside (k_alloc r);
  k_eventfd := beside k_eventfd;
  k_write := beside k_write;
  k_read := beside k_read;
  k_epoll_wait t := beside (k_epoll_wait t)
}.

#[export] Instance observed_ok `{!KernelOk K} : KernelOk observed.
Proof. constructor. intros [k l] H. by apply (k_read_drains k). Qed.

Implicit Types (s : @ust observed) (g : Z -> Z) (E : uevent_t) (e : loc) (i : Z).

Definition log s : list call := (kern s).2.

(** The user's functions: each leaves a record of its call. *)
Definition record : Z -> loc -> Z -> Z -> Z -> M (@ust observed) unit :=
  fun f e fd' trig arg' =>
    modify (fun s => put_kern ((kern s).1, log s ++ [Call f e fd' trig arg']) s).

Lemma wp_syscall_eq {A} (f : observed -> A * observed) s (Q : A -> ust -> Prop) :
  Q (f (kern s)).1 (put_kern (f (kern s)).2 s) -> wp (syscall f) Q s.
Proof. done. Qed.

(** Computations that call no user function. *)
Definition mute (w w' : observed) : Prop := w'.2 = w.2.

#[export] Instance mute_steady : Steady mute.
Proof.
  constructor; [split; [done|intros a b c H1 H2; unfold mute in *; congruence]|..]; intros; done.
Qed.
Lemma wp_mute {A} (m : M (@ust observed) A) (Q : A -> ust -> Prop) s :
  moves mute m -> wp m (fun a s' => log s' = log s -> Q a s') s -> wp m Q s.
Proof. apply (wp_moves mute). Qed.
End record.

Section calls.
Context {K : Type} {Kern : Kernel K}.
Implicit Types (s : @ust (@observed K)) (E : uevent_t) (e : loc) (i : Z).
Variable g : Z -> Z.
Variable iw : Z.
Hypothesis F : few g bound.

(** ** Calling back *)

(** The call the callback of [e] makes for the events [trig]: none for the
    callback of the wake-up descriptor, nor without a callback. *)
Definition cb_calls trig e E : list call :=
  match cb E with Some (CbUser f) => [Call f e (fd E) trig (arg E)] | _ => [] end.

(** The calls made when [trig] is dispatched to [e]: none when nothing was
    triggered, the event is being freed or another thread holds its lock. *)
Definition heard trig e E : list call :=
  if (trig =? 0) || pending_free E || modification_lock E then [] else cb_calls trig e E.

(** The calls [cs] were made and the base is as before. *)
Record called (g' : Z -> Z) s s' (cs : list call) : Prop := {
  cd_inv : INV g' iw s';
  cd_keep : forall g', keep g' s s';
  cd_evs : evs s' = evs s;
  cd_timers : timers s' = timers s;
  cd_pool : pool s' = pool s;
  cd_running : running s' = running s;
  cd_log : log s' = log s ++ cs
}.

(** Only the wake-up callback reads its descriptor empty. *)
Definition drains E : Prop := cb E = Some CbWakeup -> KernelOk K.

Lemma called_none g' s : INV g' iw s -> called g' s s [].
Proof. intros I. constructor; try done; [intros; apply keep_refl|by rewrite app_nil_r]. Qed.

Lemma called_kern g' s s' k cs : k.2 = log s -> called g' (put_kern k s) s' cs -> called g' s s' cs.
Proof. intros Hk [H1 H2 H3 H4 H5 H6 H7]. constructor; try done. by rewrite H7; unfold log at 1; simpl; rewrite Hk. Qed.

Lemma called_slot g' s s' cs i e E : called g' s s' cs -> slot_at s i e E -> slot_at s' i e E.
Proof.
  intros C (u & Hu & Hue & He). destruct (cd_keep _ _ _ _ C (fun _ => 1)) as [_ H].
  destruct (H i u e ltac:(lia) Hu Hue) as (u' & Hu' & Hue'). exists u'. by rewrite (cd_evs _ _ _ _ C).
Qed.

Lemma callback_recorded_wp g' s i e E trig (Q : unit -> ust -> Prop) :
  INV g' iw s -> slot_at s i e E -> drains E -> (forall s', called g' s s' (cb_calls trig e E) -> Q tt s') ->
  wp (match cb E with Some c => call_callback record c e (fd E) trig (arg E) | None => mret tt end) Q s.
Proof.
  intros I Hs Hd HQ. unfold cb_calls, drains in *. destruct (cb E) as [[|f]|].
  - destruct (slot_at_facts _ _ _ _ _ _ I Hs) as (_ & Hb & _). pose proof Hs as (u & _ & _ & He).
    specialize (Hd eq_refl). apply wp_mute; [eauto with moves|]. eapply wakeup_fd_read_cb_wp; [apply _|done..|].
    intros s' Hq L. pose proof (INV_quiet _ _ _ _ I Hq) as I'. destruct Hq as (k & b & ->).
    apply HQ. constructor; try done; [intros; by apply keep_same|by rewrite app_nil_r].
  - apply wp_modify, HQ. constructor; try done; [by apply INV_kern|intros; by apply keep_same].
  - apply wp_ret, HQ. by apply called_none.
Qed.

(** The callback under the lock of its event. *)
Lemma wrapper_recorded_wp g' s i e E trig (Q : unit -> ust -> Prop) :
  INV g' iw s -> slot_at s i e E -> drains E ->
  (forall s', called g' s s' (if modification_lock E then [] else cb_calls trig e E) -> Q tt s') ->
  wp (uevent_user_cb_wrapper record e (fd E) trig (cb E) (arg E)) Q s.
Proof.
  intros I Hs Hd HQ. unfold uevent_user_cb_wrapper. apply wp_bind.
  eapply uevent_try_lock_wp; [done..| |].
  { intros Hl. apply wp_ret, HQ. rewrite Hl. by apply called_none. }
  intros s1 -> Hl I1. rewrite Hl in HQ. cbn [negb].
  set (E1 := set_modification_lock true E) in *. set (s1 := put_evs _ s) in *.
  assert (slot_at s1 i e E1) as Hs1 by (by eapply (slot_at_insert s)).
  apply wp_bind. eapply wp_ev_get_at; [done|].
  destruct (slot_at_facts _ _ _ _ _ _ I1 Hs1) as (_ & -> & _). cbn [negb].
  assert (wp (match cb E with Some c => call_callback record c e (fd E) trig (arg E) | None => mret tt end;;
    uevent_unlock e) Q s1) as Hgo; [|by destruct (bool_decide _)].
  apply wp_bind. eapply (callback_recorded_wp g' s1 i e E1); [done..|]. intros s2 C2.
  pose proof (called_slot _ _ _ _ _ _ _ C2 Hs1) as Hs2. destruct C2 as [I2 K2 V2 T2 P2 R2 L2].
  eapply (uevent_unlock_wp g' iw s2 i e E1); [done..|]. intros s3 -> I3.
  apply HQ. constructor; try done. simpl. rewrite V2. simpl. rewrite insert_insert_eq.
  destruct Hs as (u & _ & _ & He). rewrite insert_id; [done|]. rewrite He. destruct E. simpl in *. by subst.
Qed.

Lemma dispatch_recorded_wp s i e E trig cron (Q : unit -> ust -> Prop) :
  INV g iw s -> slot_at s i e E -> drains E -> pending_free E = false -> pool s = None ->
  (forall s', called g s s' (if modification_lock E then [] else cb_calls trig e E) -> Q tt s') ->
  wp (dispatch_event_callback record i trig cron) Q s.
Proof.
  intros I Hs Hd Hp Hpool HQ. assert (few g (2 ^ 20 - 1)) as F1 by (eapply few_le; [exact F|unfold bound; lia]).
  destruct (slot_at_facts _ _ _ _ _ _ I Hs) as (_ & Hb & Hw & _ & Hi).
  unfold dispatch_event_callback. apply wp_bind, wp_mute; [eauto with moves|].
  apply (uevent_try_ref_wp g iw); [done|eapply few_le; [exact F1|lia]|done| |].
  { intros []. by exists e, E. }
  intros s1 e1 E1 I1 K1 Hs1 Hs' Hp' P1 R1 T1 V1 L1.
  destruct Hs as (u & Hu & Hue & He), Hs' as (u' & Hu' & Hue' & He'). simplify_eq.
  apply wp_bind. eapply wp_slot_ev_at; [done|]. apply wp_bind. eapply wp_ev_get_at; [done|].
  apply wp_bind, wp_gets, wp_bind, wp_gets. rewrite P1, Hpool, Hb, Hw. cbn [andb].
  rewrite bool_decide_false by (by intros []). apply wp_bind.
  eapply wrapper_recorded_wp; [done..|]. intros s2 C2. apply wp_mute; [unfold uevent_put_; moves_tac|].
  pose proof (called_slot _ _ _ _ _ _ _ C2 Hs1) as Hs2. pose proof C2 as [I2 K2 V2 T2 P2 R2 L2].
  eapply (uevent_put__wp g iw); [done..| |].
  { by rewrite (keep_len _ _ _ (K2 g)), (keep_len _ _ _ (K1 g)). }
  intros s3 I3 K3 P3 R3 H3 _ _ L3. destruct (H3 _ _ Hs2 (or_introl Hp)) as (_ & T3 & K3' & V3).
  apply HQ. constructor; [done| |congruence..].
  intros g'. apply (keep_trans _ g' _ s1); [apply K1| |done]. by apply (keep_trans _ g' _ s2); [apply K2|apply K3'|].
Qed.

(** Without workers, [uevent_handle_ev_cb] makes the calls of [heard]. *)
Lemma handle_ev_recorded_wp s i e E trig cron (Q : unit -> ust -> Prop) :
  INV g iw s -> slot_at s i e E -> drains E -> pool s = None ->
  (forall s', called g s s' (heard trig e E) -> Q tt s') ->
  wp (uevent_handle_ev_cb record (Some e) trig cron) Q s.
Proof.
  intros I Hs Hd Hpool HQ. destruct (slot_at_facts _ _ _ _ _ _ I Hs) as (Hu & _).
  pose proof (called_none _ _ I) as H0. unfold uevent_handle_ev_cb, heard in *.
  destruct (trig =? 0); [by apply wp_ret, HQ|].
  apply wp_bind. eapply wp_ev_get_at; [done|]. rewrite Hu. cbn [orb] in HQ.
  destruct (pending_free E) eqn:Hp; [by apply wp_ret, HQ|]. cbn [orb] in HQ.
  assert (forall k, k.2 = log s ->
    wp (when (bool_decide (is_Some (cb E))) (dispatch_event_callback record i trig cron)) Q (put_kern k s)) as Hgo.
  { intros k Hk. pose proof (INV_kern _ _ _ k I) as Ik. destruct (cb E) as [c|] eqn:Hcb.
    - rewrite bool_decide_true by done. cbn [when]. eapply dispatch_recorded_wp; [done|exact Hs|done..|].
      intros s' C. by apply HQ, (called_kern _ _ _ k).
    - rewrite bool_decide_false by (by intros []). cbn [when]. apply wp_ret, HQ, (called_kern _ _ _ k); [done|].
      unfold cb_calls. rewrite Hcb. destruct (modification_lock E); by apply called_none. }
  apply wp_bind. destruct (has trig UEV_TIMEOUT); cbn [when].
  - apply wp_bind, wp_mute; [eauto with moves|]. apply wp_syscall. intros t k Hk. by apply wp_ret, Hgo.
  - apply wp_ret. replace s with (put_kern (kern s) s) by (by destruct s). by apply Hgo.
Qed.
End calls.
