(* ===== verification/UeventWorker.v ===== *)
(** * uevent: the worker pool, the dispatch loop and the end of a base

    Models [src/uevent/uevent_worker.c] and, from [src/uevent/uevent.c],
    [uevent_base_dispatch] and [uevent_deinit].  A worker thread is the sequence
    of its turns: each pops a task, runs it and finalizes it.  A wait for
    another thread that nothing would end has no result ([None]). *)

From S2P Require Import Prelude.
From S2P Require Import MinHeap.
From S2P Require Import Uevent.
Import MinHeap (mst, mh, nodes).
Import Uevent.

Module UeventWorker.

Definition UEV_EXTRA_WORKER_TASKS : Z := 100.
Definition UEV_MAX_WORKER_MULTIPLIER : Z := 8.

Definition set_pool_running (x : bool) (p : uevent_worker_pool_t) : uevent_worker_pool_t :=
  Pool x (active_tasks p) (queue_size p) (total_workers p) (num_workers p) (task_queue p).
Definition set_active_tasks (x : Z) (p : uevent_worker_pool_t) : uevent_worker_pool_t :=
  Pool (pool_running p) x (queue_size p) (total_workers p) (num_workers p) (task_queue p).
Definition set_total_workers (x : Z) (p : uevent_worker_pool_t) : uevent_worker_pool_t :=
  Pool (pool_running p) (active_tasks p) (queue_size p) x (num_workers p) (task_queue p).
Definition set_queue (sz : Z) (q : list uevent_task_t) (p : uevent_worker_pool_t) : uevent_worker_pool_t :=
  Pool (pool_running p) (active_tasks p) sz (total_workers p) (num_workers p) q.

(** The outcome of [wait_and_pop_task]: it sleeps, returns null, or a task. *)
Inductive popped := Sleeps | NoTask | GotTask (t : uevent_task_t).

Section worker.
Context {K : Type} {Kern : Kernel K}.
Variable user_cb : Z -> loc -> Z -> Z -> Z -> M (@ust K) unit.

(** [enable_extra_workers], and whether [syslog2_get_pri()] has [LOG_DEBUG]. *)
Variable extra debug : bool.

Definition the_pool : M (@ust K) uevent_worker_pool_t := p ← gets pool; of_option p.
Definition change_pool (f : uevent_worker_pool_t -> uevent_worker_pool_t) : M (@ust K) unit :=
  p ← the_pool; modify (put_pool (Some (f p))).

(** The compare-and-swap loop succeeds at its first round when no other thread
    interferes. *)
Definition try_spawn_extra_worker : M (@ust K) unit :=
  if negb extra then mret tt
  else
    p ← the_pool;
    let max_workers := s32 (u32 (num_workers p * UEV_MAX_WORKER_MULTIPLIER)) in
    if max_workers <=? total_workers p then mret tt
    else
      change_pool (set_total_workers (s32 (total_workers p + 1)));;
      ok ← syscall (k_alloc RThread);
      if (ok : bool) then mret tt
      else change_pool (fun p => set_total_workers (s32 (total_workers p - 1)) p).

Definition wait_and_pop_task : M (@ust K) popped :=
  p ← the_pool;
  if (queue_size p =? 0) && pool_running p then mret Sleeps
  else if queue_size p <? 1 then mret NoTask
  else
    when (negb debug && (total_workers p <? queue_size p)) try_spawn_extra_worker;;
    p ← the_pool;
    match task_queue p with
    | [] => ub
    | t :: q =>
        change_pool (fun p => set_active_tasks (s32 (active_tasks p + 1))
                               (set_queue (s32 (queue_size p - 1)) q p));;
        mret (GotTask t)
    end.

Definition process_worker_task (t : uevent_task_t) : M (@ust K) unit :=
  let i := task_uev t in
  r ← uevent_try_ref (Some i);
  match r with
  | None => mret tt
  | Some _ =>
      u ← slot_get i;
      match ev u with
      | None => uevent_put_ i
      | Some e =>
          E ← ev_get e;
          if negb (bool_decide (is_Some (cb E))) || pending_free E then uevent_put_ i
          else
            start ← time_ms;
            let queue_delay := s64 (s64 start - s64 (cron_time t)) in
            when (negb (cron_time t =? 0))
              (u ← slot_get i;
               when (negb debug && (10000 <? queue_delay)) try_spawn_extra_worker);;
            match cb_wrapper E with
            | None => ub
            | Some UserCbWrapper =>
                uevent_user_cb_wrapper user_cb e (fd E) (triggered_events t) (cb E) (arg E)
            end;;
            uevent_put_ i
      end
  end.

(** The event of a task leaves the pool. *)
Definition release_task (t : uevent_task_t) : M (@ust K) unit :=
  u ← slot_get (task_uev t);
  match ev u with
  | None => mret tt
  | Some e =>
      E ← ev_get e;
      ev_put e (set_is_in_worker_pool false E);;
      uevent_put_ (task_uev t)
  end.

Definition finalize_worker_task (t : uevent_task_t) : M (@ust K) unit :=
  release_task t;;
  change_pool (fun p => set_active_tasks (s32 (active_tasks p - 1)) p).

(** One turn of [uevent_worker_thread]. *)
Definition worker_turn : M (@ust K) popped :=
  r ← wait_and_pop_task;
  match r with
  | GotTask t => process_worker_task t;; finalize_worker_task t;; mret r
  | _ => mret r
  end.

(** The turns of [uevent_extra_worker_thread]; it returns how many tasks it ran,
    and whether it sleeps or has ended. *)
Fixpoint extra_worker_turns (tasks_left : nat) (ran : Z) : M (@ust K) (Z * bool) :=
  p ← the_pool;
  match tasks_left with
  | O => mret (ran, true)
  | S tasks_left =>
      if negb (pool_running p) then mret (ran, true)
      else
        r ← worker_turn;
        match r with
        | Sleeps => mret (ran, false)
        | NoTask => mret (ran, true)
        | GotTask _ => extra_worker_turns tasks_left (ran + 1)
        end
  end.

Definition uevent_extra_worker_thread : M (@ust K) (Z * bool) :=
  r ← extra_worker_turns (Z.to_nat UEV_EXTRA_WORKER_TASKS) 0;
  when (r.2 : bool) (change_pool (fun p => set_total_workers (s32 (total_workers p - 1)) p));;
  mret r.

Definition uevent_worker_pool_is_idle : M (@ust K) bool :=
  p ← gets pool;
  match p with
  | None => mret true
  | Some p => mret ((queue_size p <? 1) && (active_tasks p =? 0))
  end.

(** Nothing else runs in this model: a pool that is not idle stays so. *)
Definition uevent_worker_pool_wait_for_idle : M (@ust K) unit :=
  idle ← uevent_worker_pool_is_idle;
  if (idle : bool) then mret tt else ub.

(** The loop over the queue of [uevent_worker_pool_stop] and of
    [uevent_worker_pool_destroy]; only the first counts [queue_size] down. *)
Fixpoint drain_queue (fuel : nat) (count : bool) : M (@ust K) unit :=
  match fuel with
  | O => ub
  | S fuel =>
      p ← the_pool;
      match task_queue p with
      | [] => mret tt
      | t :: q =>
          change_pool (set_queue (if count then s32 (queue_size p - 1) else queue_size p) q);;
          release_task t;;
          drain_queue fuel count
      end
  end.

Definition uevent_worker_pool_stop : M (@ust K) unit :=
  p ← gets pool;
  match p with
  | None => mret tt
  | Some p =>
      change_pool (set_pool_running false);;
      drain_queue (S (length (task_queue p))) true
  end.

Definition uevent_worker_pool_destroy : M (@ust K) unit :=
  p ← gets pool;
  match p with
  | None => mret tt
  | Some p =>
      change_pool (set_pool_running false);;
      drain_queue (S (length (task_queue p))) false;;
      modify (put_pool None)
  end.

(** ** The dispatch loop *)

Fixpoint dispatch_loop (fuel : nat) : M (@ust K) Z :=
  match fuel with
  | O => ub
  | S fuel =>
      r ← dispatch_turn user_cb;
      match r with
      | Some rc => mret rc
      | None => dispatch_loop fuel
      end
  end.

Definition uevent_base_dispatch (fuel : nat) (base' : bool) : M (@ust K) Z :=
  if negb base' then mret UEV_ERR_INVAL
  else
    modify (put_running true);;
    modify (put_stopped false);;
    rc ← dispatch_loop fuel;
    if rc =? UEV_ERR_EPOLL then mark_base_stopped;; mret UEV_ERR_EPOLL
    else
      uevent_worker_pool_wait_for_idle;;
      mark_base_stopped;;
      mret UEV_ERR_OK.

(** ** The end of a base *)

Definition uevent_base_wait_stopped (base' : bool) : M (@ust K) unit :=
  if negb base' then mret tt
  else st ← gets stopped; if (st : bool) then mret tt else ub.

(** The loop of [uevent_deinit] over the slots [i], [i + 1], ... *)
Fixpoint free_slots (count : nat) (i : Z) : M (@ust K) unit :=
  match count with
  | O => mret tt
  | S count =>
      u ← slot_get i;
      (if refcount u =? 0 then mret tt else uevent_free (Some i));;
      free_slots count (i + 1)
  end.

(** [uevent_deinit], up to the release of its own memory; the result says
    whether the wake-up descriptor is closed. *)
Definition uevent_deinit (base' : bool) : M (@ust K) bool :=
  if negb base' then mret false
  else
    uevent_base_loopbreak true;;
    uevent_base_wait_stopped true;;
    p ← gets pool;
    when (bool_decide (is_Some p))
      (uevent_worker_pool_stop;;
       uevent_worker_pool_wait_for_idle;;
       uevent_worker_pool_destroy);;
    mutex_lock;;
    n ← gets (fun s => length (slots s));
    free_slots n 0;;
    W ← ev_get wakeup_event;
    if negb (fd W =? -1) then ev_put wakeup_event (set_fd (-1) W);; mret true
    else mret false.

End worker.

End UeventWorker.
