(* ===== verification/UeventWorkerInv.v ===== *)
(** * uevent: the rules of the worker pool and of loopbreak

    For the operations of [src/uevent/uevent_worker.c] and
    [uevent_base_loopbreak]: no undefined behaviour, and the invariant of the
    reference counts. *)

From S2P Require Import Prelude.
From S2P Require Import MinHeap.
From S2P Require Import MinHeapInv.
From S2P Require Import MinHeapOps.
From S2P Require Import Uevent.
From S2P Require Import UeventInv.
From S2P Require Import UeventSteps.
From S2P Require Import UeventOps.
From S2P Require Import UeventAdd.
From S2P Require Import UeventApi.
From S2P Require Import UeventDel.
From S2P Require Import UeventLoop.
From S2P Require Import UeventWorker.
Import MinHeap (mst, mh, nodes, capacity, minheap_t, minheap_node_t).
Import Uevent UeventWorker.

Section workerinv.
Context {K : Type} {Kern : Kernel K}.
Implicit Types (s : @ust K) (g : Z -> Z) (E : uevent_t) (e : loc) (i : Z).

(** ** uevent_base_loopbreak *)

Lemma size_pq N : (size (pq N) <= size N)%nat.
Proof.
  rewrite <- !size_dom. apply subseteq_size. intros x [k Hk]%elem_of_dom.
  apply pq_lookup in Hk as (nd & H & _). apply elem_of_dom. eauto.
Qed.

Lemma loopbreak_loop_wp iw fuel g s (Q : unit -> ust -> Prop) :
  INV g iw s -> few g bound -> (size (pq (nodes (timers s))) < fuel)%nat ->
  (forall s', calls g iw s s' -> pool s' = pool s -> pq (nodes (timers s')) = ∅ -> Q tt s') ->
  wp (loopbreak_loop fuel) Q s.
Proof.
  revert s Q. induction fuel as [|fuel IH]; intros s Q I F Hf HQ; [lia|].
  pose proof (bound_small _ F) as F2.
  assert (few g (2 ^ 20 - 1)) as F1 by (eapply few_le; [exact F2|lia]).
  cbn [loopbreak_loop]. apply wp_bind, wp_heap.
  assert (put_timers (timers s) s = s) as Hid by (by destruct s).
  eapply heap_min_wp; [done|rewrite Hid; intros Hq; apply wp_ret, HQ; [by apply calls_refl|done..]|].
  intros m nd Hnd Hmin Hk. rewrite Hid.
  apply wp_bind, wp_heap. eapply heap_extract_wp; [done|by intros H0; rewrite H0 in Hk|].
  intros e nd' tm Hnd' Hmin' Hk' Hst Hpq _.
  destruct (proj1 (i_timer _ _ _ I e)) as (E & He & Ha); [eauto|].
  destruct (INV_expired iw g s e E tm I He Ha Hst Hpq) as (i & Hu & Hiw & Hi & Hs32 & I1).
  apply wp_bind. eapply wp_ev_get; [done|].
  apply wp_bind, wp_ev_put, wp_bind, wp_modify. simpl. rewrite Hs32, Hu.
  set (s1 := put_num_active_timers _ _) in *.
  assert (slots s1 = slots s /\ pool s1 = pool s /\ running s1 = running s /\ timers s1 = tm)
    as (Hsl & Hpl & Hrn & Htm) by done.
  clearbody s1. apply wp_bind. eapply (uevent_put__wp g iw); [done|done|by rewrite Hsl|].
  intros s2 I2 K2 P2 R2 _ _ [Q2 _]. rewrite Htm, Hpq in Q2. apply IH; [done|done| |].
  - rewrite Q2, map_size_delete, Hk'. simpl in *.
    assert (size (pq (nodes (timers s))) <> 0%nat); [|lia].
    intros Hz%map_size_empty_inv. by rewrite Hz in Hk'.
  - intros s3 [I3 K3 R3] P3 Q3. apply HQ; [constructor|congruence|done].
    + done.
    + apply (keep_trans _ g _ s1); [by apply keep_same| |done]. by apply (keep_trans _ g _ s2).
    + congruence.
Qed.

Lemma uevent_base_loopbreak_wp iw g s (Q : unit -> ust -> Prop) :
  INV g iw s -> few g bound ->
  (forall s', runs g iw s s' -> running s' = false -> pq (nodes (timers s')) = ∅ -> Q tt s') ->
  wp (uevent_base_loopbreak true) Q s.
Proof.
  intros I F HQ. unfold uevent_base_loopbreak. cbn [negb].
  apply wp_bind, wp_modify, wp_bind. unfold mutex_lock. apply wp_syscall. intros rc k.
  apply wp_bind, wp_gets, wp_bind.
  set (s1 := put_kern k _). assert (INV g iw s1) as I1 by (by eapply INV_frame).
  assert (slots s1 = slots s /\ pool s1 = pool s /\ running s1 = false) as (Hsl & Hpl & Hrn) by done.
  clearbody s1. eapply loopbreak_loop_wp; [done|done| |].
  { pose proof (size_pq (nodes (timers s1))). lia. }
  intros s2 [I2 K2 R2] P2 Q2. eapply uevent_base_wakeup_wp; [done|]. intros s3 Hq.
  assert (runs g iw s2 s3) as R23 by (by eapply runs_quiet).
  apply HQ; [|destruct Hq as (? & ? & ->); simpl; congruence|by destruct Hq as (? & ? & ->)].
  eapply runs_trans; [|exact R23]. constructor; [done| |by rewrite P2, Hpl].
  apply (keep_trans _ g _ s1); [by apply keep_same|done|done].
Qed.

(** ** The pool *)

Lemma wp_the_pool s p (Q : uevent_worker_pool_t -> ust -> Prop) :
  pool s = Some p -> Q p s -> wp the_pool Q s.
Proof. intros Hp HQ. apply wp_bind, wp_gets. rewrite Hp. by apply wp_ret. Qed.

Lemma wp_change_pool s p f (Q : unit -> ust -> Prop) :
  pool s = Some p -> Q tt (put_pool (Some (f p)) s) -> wp (change_pool f) Q s.
Proof. intros Hp HQ. apply wp_bind. eapply wp_the_pool; [done|]. by apply wp_modify. Qed.

(** Changing the counters of the pool, not its queue. *)
Lemma INV_pool_counters g iw s p p' :
  INV g iw s -> pool s = Some p -> task_queue p' = task_queue p -> queue_size p' = queue_size p ->
  INV g iw (put_pool (Some p') s).
Proof.
  intros I Hp H1 H2.
  assert (forall i, tasks_of i (Some p') = tasks_of i (pool s)) as Ht.
  { intros i. rewrite Hp. unfold tasks_of. by rewrite H1. }
  destruct I. constructor; try done.
  - intros i u e A1 A2. destruct (i_used i u e A1 A2) as (E & B). exists E. simpl. by rewrite Ht.
  - intros i u A1 A2. destruct (i_unused i u A1 A2) as (B1 & B2 & B3). unfold slot_free. simpl.
    by rewrite Ht.
  - intros q [= <-]. rewrite H1, H2. by apply i_pool.
Qed.

(** The state after [p] became the pool; the rest is as before. *)
Definition pool_only s s' (p : uevent_worker_pool_t) : Prop :=
  exists k, s' = put_pool (Some p) (put_kern k s).

Lemma pool_only_INV g iw s s' p p' :
  INV g iw s -> pool s = Some p -> pool_only s s' p' -> task_queue p' = task_queue p ->
  queue_size p' = queue_size p -> INV g iw s'.
Proof.
  intros I Hp (k & ->) H1 H2. eapply INV_pool_counters; [by apply INV_kern|done..].
Qed.

(** No number of configured workers allows for more workers than this. *)
Definition most_workers : Z := 2 ^ 31 - 8.

Lemma most_workers_bound n : s32 (u32 (n * UEV_MAX_WORKER_MULTIPLIER)) <= most_workers.
Proof.
  unfold most_workers, UEV_MAX_WORKER_MULTIPLIER, swrap, wrap.
  change (2 ^ 32) with 4294967296. change (2 ^ (32 - 1)) with 2147483648. change (2 ^ 31) with 2147483648.
  Z.to_euclidean_division_equations. lia.
Qed.

(** Extra workers never push the total beyond eight per configured worker. *)
Lemma try_spawn_wp extra s p (Q : unit -> ust -> Prop) :
  pool s = Some p -> - 2 ^ 31 < total_workers p < 2 ^ 31 - 1 ->
  (forall s' n, pool_only s s' (set_total_workers n p) ->
     n = total_workers p \/ n = total_workers p + 1 /\
       n <= s32 (u32 (num_workers p * UEV_MAX_WORKER_MULTIPLIER)) -> Q tt s') ->
  wp (try_spawn_extra_worker extra) Q s.
Proof.
  intros Hp Hn HQ.
  assert (pool_only s s (set_total_workers (total_workers p) p)) as Hid.
  { exists (kern s). destruct s, p. simpl in *. by rewrite Hp. }
  unfold try_spawn_extra_worker. destruct extra; cbn [negb]; [|by apply wp_ret, (HQ _ _ Hid); left].
  apply wp_bind. eapply wp_the_pool; [done|]. cbn zeta.
  destruct (Z.leb_spec (s32 (u32 (num_workers p * UEV_MAX_WORKER_MULTIPLIER))) (total_workers p));
    [by apply wp_ret, (HQ _ _ Hid); left|].
  apply wp_bind. eapply wp_change_pool; [done|]. apply wp_bind, wp_syscall. intros ok k.
  rewrite swrap_small by lia. destruct ok.
  - apply wp_ret, (HQ _ (total_workers p + 1)); [by exists k|right; lia].
  - eapply wp_change_pool; [done|]. apply (HQ _ (total_workers p)); [|by left].
    exists k. cbn. unfold put_pool, put_kern. simpl. do 2 f_equal. unfold set_total_workers. simpl.
    rewrite swrap_small; [|lia|lia]. f_equal. lia.
Qed.

(** Taking a task from the queue hands its reference to the worker. *)
Lemma INV_pop g iw s p p' t :
  INV g iw s -> pool s = Some p -> task_queue p = t :: task_queue p' ->
  queue_size p' = queue_size p - 1 ->
  INV (gadd g (task_uev t)) iw (put_pool (Some p') s) /\
  0 <= task_uev t < zlen (slots s) /\ tasks_of (task_uev t) (Some p') = 0.
Proof.
  intros I Hp Hq Hsz. set (i := task_uev t).
  destruct (i_pool _ _ _ I p Hp) as [Hz Hall]. rewrite Hq in Hall.
  apply Forall_cons in Hall as [Hi Hall].
  assert (forall j, tasks_of j (pool s) = tasks_of j (Some p') + b2z (bool_decide (i = j))) as Ht.
  { intros j. rewrite Hp. by apply tasks_cons. }
  destruct (znth_is_Some _ _ Hi) as [u Hu]. fold i in Hu.
  pose proof (tasks_nonneg i (Some p')) as Hnn.
  assert (tasks_of i (pool s) = tasks_of i (Some p') + 1) as Hti.
  { rewrite Ht, bool_decide_true; done. }
  destruct (ev u) as [e|] eqn:Hue.
  2: { destruct (i_unused _ _ _ I i u Hu Hue) as (_ & _ & ?). lia. }
  destruct (i_used _ _ _ I i u e Hu Hue) as (E & F1 & F2 & F3 & F4 & F5 & F6 & F7 & F8).
  split; [|split; [done|lia]].
  eapply (INV_event g (gadd g i) iw s _ i u e E E (refcount u)); simpl; try done.
  - by eapply heap_step_refl.
  - split_and!; [|intros j Hj|lia|intros Hw; specialize (F8 Hw); lia].
    + intros q [= <-]. split; [rewrite Hsz, Hz, Hq; unfold zlen; simpl; lia|done].
    + rewrite Ht, bool_decide_false by done. simpl. lia.
  - rewrite gadd_eq. lia.
  - intros j Hj. by apply gadd_ne.
  - intros ->. destruct (i_wake _ _ _ I) as (W & W1 & W2 & W3 & W4 & _). by simplify_eq.
  - symmetry. apply zset_id. rewrite Hu. destruct u. simpl in *. by subst.
  - by rewrite insert_id.
  - lia.
  - apply I.
Qed.

(** Releasing a task gives its reference back. *)
Lemma release_task_wp g iw s t (Q : unit -> ust -> Prop) :
  INV (gadd g (task_uev t)) iw s -> few g (2 ^ 20 - 1) -> 0 <= task_uev t < zlen (slots s) ->
  tasks_of (task_uev t) (pool s) = 0 ->
  (forall s', calls g iw s s' -> pool s' = pool s ->
     (forall e E, slot_at s (task_uev t) e E -> pending_free E = false ->
        evs s' = <[e := set_is_in_worker_pool false E]> (evs s) /\ forall g', keep g' s s') -> Q tt s') ->
  wp (release_task t) Q s.
Proof.
  intros I F Hi Ht HQ. set (i := task_uev t) in *.
  assert (0 < gadd g i i) as Hg by (rewrite gadd_eq; specialize (F i); lia).
  destruct (slot_at_held _ _ _ _ I Hg Hi) as (e & E & Hs). pose proof Hs as (u & Hu & Hue & He).
  destruct (i_used _ _ _ I i u e Hu Hue) as (E0 & F1 & F2 & F3 & F4 & F5 & F6 & F7 & F8).
  rewrite He in F1. injection F1 as <-.
  unfold release_task. apply wp_bind. eapply wp_slot_get; [done|]. rewrite Hue.
  apply wp_bind. eapply wp_ev_get; [done|]. apply wp_bind, wp_ev_put.
  eapply (uevent_put__wp g iw); try done.
  - eapply (INV_event _ _ iw s _ i u e E (set_is_in_worker_pool false E) (refcount u)); simpl; try done.
    + by eapply heap_step_refl.
    + split_and!; [apply I|done|lia|done].
    + intros ->. destruct (i_wake _ _ _ I) as (W & W1 & W2 & W3 & W4 & _). by simplify_eq.
    + symmetry. apply zset_id. rewrite Hu. destruct u. simpl in *. by subst.
    + unfold fd_count. simpl. lia.
    + apply I.
  - intros s' I' K' P' R' H' _ _. apply HQ; [by constructor|done|]. intros e' E' Hs' Hp.
    assert (e' = e /\ E' = E) as [-> ->] by (destruct Hs' as (? & ? & ? & ?); by simplify_eq).
    destruct (H' e (set_is_in_worker_pool false E)) as (_ & _ & K2 & ->); [by eapply (slot_at_insert s)|by left|done].
Qed.

(** What a turn of a worker may do to the pool. *)
Lemma wait_and_pop_task_wp g iw s p debug extra (Q : popped -> ust -> Prop) :
  INV g iw s -> pool s = Some p -> - 2 ^ 31 < total_workers p < 2 ^ 31 - 1 ->
  (queue_size p = 0 -> Q (if pool_running p then Sleeps else NoTask) s) ->
  (forall t q s', task_queue p = t :: q ->
     INV (gadd g (task_uev t)) iw s' -> slots s' = slots s -> evs s' = evs s -> running s' = running s ->
     (exists p', pool s' = Some p' /\ task_queue p' = q /\
        total_workers p <= total_workers p' <= total_workers p + 1 /\
        total_workers p' <= Z.max (total_workers p) most_workers) ->
     0 <= task_uev t < zlen (slots s) -> tasks_of (task_uev t) (pool s') = 0 -> Q (GotTask t) s') ->
  wp (wait_and_pop_task extra debug) Q s.
Proof.
  intros I Hp Hn H0 HQ. destruct (INV_queue _ _ _ _ I Hp) as (Hz & Hlen & _).
  pose proof (zlen_nonneg (task_queue p)). pose proof (i_small _ _ _ I).
  unfold wait_and_pop_task. apply wp_bind. eapply wp_the_pool; [done|].
  destruct (Z.eqb_spec (queue_size p) 0) as [Hq0|Hq0].
  { specialize (H0 Hq0). destruct (pool_running p); cbn [andb]; [by apply wp_ret|].
    by replace (queue_size p <? 1) with true by lia. }
  cbn [andb]. replace (queue_size p <? 1) with false by lia.
  assert (forall s1 n, pool_only s s1 (set_total_workers n p) ->
    total_workers p <= n <= total_workers p + 1 -> n <= Z.max (total_workers p) most_workers -> wp
     (p ← the_pool;
      match task_queue p with
      | [] => ub
      | t :: q =>
          change_pool (fun p => set_active_tasks (s32 (active_tasks p + 1))
                               (set_queue (s32 (queue_size p - 1)) q p));;
          mret (GotTask t)
      end) Q s1) as Hgo.
  { intros s1 n Hs1 Hn1 Hn2. assert (INV g iw s1) as I1 by by eapply pool_only_INV.
    destruct Hs1 as (k & ->). apply wp_bind. eapply wp_the_pool; [done|]. simpl.
    destruct (task_queue p) as [|t q] eqn:Hq; [by rewrite Hz in Hq0|].
    apply wp_bind. eapply wp_change_pool; [done|]. apply wp_ret. simpl.
    set (p' := set_active_tasks _ _). set (s1 := put_pool (Some (set_total_workers n p)) (put_kern k s)) in *.
    destruct (INV_pop g iw s1 (set_total_workers n p) p' t) as (I2 & Hi & Ht); try done.
    { simpl. rewrite swrap_small; [done|lia|]. rewrite Hz in *. lia. }
    apply (HQ t q); try done; eauto. }
  apply wp_bind. destruct (negb debug && (total_workers p <? queue_size p)); cbn [when].
  - eapply try_spawn_wp; [done|done|]. intros s' n Hs' Hn'.
    pose proof (most_workers_bound (num_workers p)). eapply Hgo; [done|lia..].
  - apply wp_ret, (Hgo _ (total_workers p)); [|lia..]. exists (kern s). destruct s, p. simpl in *. by rewrite Hp.
Qed.

Section turn.
Variable user_cb : Z -> loc -> Z -> Z -> Z -> M (@ust K) unit.
Variables extra debug : bool.
Variable iw : Z.
Hypothesis Hcb : callback_ok user_cb iw.
Hypothesis Kok : KernelOk K.

(** The queue is as it was. *)
Definition same_queue s s' : Prop :=
  exists p p', pool s = Some p /\ pool s' = Some p' /\ task_queue p' = task_queue p.

Lemma same_queue_tasks s s' i : same_queue s s' -> tasks_of i (pool s') = tasks_of i (pool s).
Proof. intros (p & p' & -> & -> & H). unfold tasks_of. by rewrite H. Qed.

Lemma same_queue_eq s s' p : pool s = Some p -> pool s' = pool s -> same_queue s s'.
Proof. intros Hp E. exists p, p. split_and!; congruence. Qed.

Lemma same_queue_trans s s' s'' : same_queue s s' -> same_queue s' s'' -> same_queue s s''.
Proof. intros (p & p' & A1 & A2 & A3) (q & q' & B1 & B2 & B3). exists p, q'. split_and!; congruence. Qed.

Lemma process_worker_task_wp g s p t (Q : unit -> ust -> Prop) :
  INV g iw s -> few g (bound + 1) -> 0 <= task_uev t < zlen (slots s) ->
  pool s = Some p -> - 2 ^ 31 < total_workers p < 2 ^ 31 - 1 ->
  (forall s', runs g iw s s' -> same_queue s s' -> Q tt s') ->
  wp (process_worker_task user_cb extra debug t) Q s.
Proof.
  intros I F Hi Hp Htot HQ. set (i := task_uev t) in *.
  assert (few g (2 ^ 20 - 1)) as F1 by (eapply few_le; [exact F|unfold bound; lia]).
  assert (few g (2 ^ 20)) as F2 by (eapply few_le; [exact F|unfold bound; lia]).
  assert (0 < gadd g i i) as Hg by (rewrite gadd_eq; specialize (F i); lia).
  unfold process_worker_task. cbn zeta. fold i. apply wp_bind.
  apply (uevent_try_ref_wp g iw); [done..| |].
  { intros _. apply wp_ret, HQ; [by apply runs_refl|by eapply same_queue_eq]. }
  intros s1 e E I1 K1 Hs1 Hs Hpf P1 R1 T1 V1. pose proof (keep_len _ _ _ (K1 g)) as L1.
  assert (forall s2, runs (gadd g i) iw s1 s2 -> same_queue s1 s2 -> wp (uevent_put_ i) Q s2) as Hend.
  { intros s2 [I2 K2 P2] Q2. eapply (uevent_put__wp g iw); [done..|by rewrite (keep_len _ _ _ K2), L1|].
    intros s3 I3 K3 P3 R3 _ _ _. destruct Q2 as (q & q' & B1 & B2 & B3). apply HQ.
    - constructor; [done| |by rewrite P3, P2, P1]. apply (keep_trans _ g _ s1); [apply K1| |done].
      eapply keep_trans; [by eapply keep_gadd|exact K3|done].
    - exists q, q'. split_and!; congruence. }
  pose proof Hs1 as (u & Hu & Hue & He). apply wp_bind. eapply wp_slot_get; [done|]. rewrite Hue.
  apply wp_bind. eapply wp_ev_get; [done|].
  destruct (_ || _).
  { apply Hend; [by apply runs_refl|]. exists p, p. by rewrite P1. }
  apply wp_bind. unfold time_ms. apply wp_syscall. intros start k. cbn zeta.
  destruct (slot_at_facts _ _ _ _ _ _ I1 Hs1) as (_ & _ & Hw & _). rewrite Hw.
  assert (forall s2, runs (gadd g i) iw s1 s2 -> same_queue s1 s2 -> slot_at s2 i e E ->
    wp (uevent_user_cb_wrapper user_cb e (fd E) (triggered_events t) (cb E) (arg E);; uevent_put_ i) Q s2) as Hgo.
  { intros s2 R2 Q2 Hs2. apply wp_bind.
    eapply uevent_user_cb_wrapper_wp; [done|done|apply R2|apply (few_gadd _ _ (bound + 1)); [done|lia]|done|done|].
    intros s3 R3 P3 _. apply Hend; [by eapply runs_trans|]. destruct Q2 as (q & q' & B1 & B2 & B3).
    exists q, q'. split_and!; congruence. }
  assert (pool s1 = Some p) as Hp1 by congruence.
  assert (forall k, runs (gadd g i) iw s1 (put_kern k s1)) as Rk by (intros; by apply (steps_kern iw)).
  apply wp_bind. destruct (negb (cron_time t =? 0)); cbn [when].
  2: { apply wp_ret, Hgo; [apply Rk|by exists p, p|done]. }
  apply wp_bind. eapply wp_slot_get; [done|].
  destruct (negb debug && _); cbn [when].
  2: { apply wp_ret, Hgo; [apply Rk|by exists p, p|done]. }
  eapply (try_spawn_wp extra _ p); [done|done|]. intros s2 n Hs2 _.
  assert (INV (gadd g i) iw s2) as I2 by (eapply pool_only_INV; [by apply INV_kern|done|done|done|done]).
  destruct Hs2 as (k2 & ->). apply Hgo; [|by eexists p, _|done].
  constructor; [done|by apply keep_same|]. simpl. rewrite Hp1. split; eauto.
Qed.

Lemma finalize_worker_task_wp g s p t (Q : unit -> ust -> Prop) :
  INV (gadd g (task_uev t)) iw s -> few g (2 ^ 20 - 1) -> 0 <= task_uev t < zlen (slots s) ->
  tasks_of (task_uev t) (pool s) = 0 -> pool s = Some p ->
  (forall s', runs g iw s s' -> same_queue s s' -> Q tt s') ->
  wp (finalize_worker_task t) Q s.
Proof.
  intros I F Hi Ht Hp HQ. apply wp_bind. eapply release_task_wp; [done..|].
  intros s1 [I1 K1 R1] P1 _. rewrite Hp in P1. eapply wp_change_pool; [done|].
  apply HQ; [constructor|].
  - by eapply INV_pool_counters.
  - exact K1.
  - simpl. rewrite Hp. split; eauto.
  - eexists p, _. done.
Qed.

(** A turn of a worker: the invariant holds again, with the reference of the
    task given back. *)
Lemma worker_turn_wp g s p (Q : popped -> ust -> Prop) :
  INV g iw s -> few g bound -> pool s = Some p -> - 2 ^ 31 < total_workers p < 2 ^ 31 - 2 ->
  (forall r s', runs g iw s s' ->
     match r with
     | Sleeps | NoTask => s' = s /\ queue_size p = 0
     | GotTask t => exists q p', task_queue p = t :: q /\ pool s' = Some p' /\ task_queue p' = q
     end -> Q r s') ->
  wp (worker_turn user_cb extra debug) Q s.
Proof.
  intros I F Hp Htot HQ. pose proof (bound_small _ F) as F2.
  unfold worker_turn. apply wp_bind. eapply wait_and_pop_task_wp; [done|done|lia| |].
  { intros H0. destruct (pool_running p); apply wp_ret, HQ; done || by apply runs_refl. }
  intros t q s1 Hq I1 Hsl _ _ (p1 & Hp1 & Hq1 & Htot1 & _) Hi Ht.
  assert (zlen (slots s1) = zlen (slots s)) as L1 by (by rewrite Hsl).
  apply wp_bind. eapply process_worker_task_wp;
    [done|apply (few_gadd _ _ bound); [done|lia]|by rewrite L1|done|lia|].
  intros s2 R2 Q2. pose proof (runs_len _ _ _ _ R2) as L2.
  destruct Q2 as (q1 & q2 & B1 & B2 & B3).
  apply wp_bind. eapply (finalize_worker_task_wp g _ q2); [apply R2| |by rewrite L2, L1| |done|].
  { eapply few_le; [exact F2|lia]. }
  { rewrite <- Ht. apply same_queue_tasks. by exists q1, q2. }
  intros s3 R3 (q3 & q4 & C1 & C2 & C3). apply wp_ret, HQ.
  - constructor; [apply R3| |].
    + apply (keep_trans _ g _ s1); [by apply keep_same| |done].
      apply (keep_trans _ g _ s2); [|apply R3|done]. eapply keep_weaken; [apply R2|].
      apply gadd_pos. intros j. apply F.
    + rewrite C2, Hp. split; eauto.
  - exists q, q4. split_and!; congruence.
Qed.

(** Emptying the queue gives back every reference it holds. *)
Lemma drain_queue_wp fuel g s p count (Q : unit -> ust -> Prop) :
  INV g iw s -> few g (2 ^ 20 - 1) -> pool s = Some p -> (length (task_queue p) < fuel)%nat ->
  count = true ->
  (forall s' p', runs g iw s s' -> running s' = running s -> pool s' = Some p' ->
     task_queue p' = [] -> queue_size p' = 0 -> pool_running p' = pool_running p ->
     active_tasks p' = active_tasks p -> Q tt s') ->
  wp (drain_queue fuel count) Q s.
Proof.
  intros I F Hp Hf -> HQ. revert s p Q I Hp Hf HQ.
  induction fuel as [|fuel IH]; intros s p Q I Hp Hf HQ; [lia|].
  destruct (INV_queue _ _ _ _ I Hp) as (Hz & Hlen & _). pose proof (i_small _ _ _ I).
  cbn [drain_queue]. apply wp_bind. eapply wp_the_pool; [done|].
  destruct (task_queue p) as [|t q] eqn:Hq.
  { by apply wp_ret, (HQ s p); [apply runs_refl|..]. }
  apply wp_bind. eapply wp_change_pool; [done|]. set (p' := set_queue _ _ _).
  destruct (INV_pop g iw s p p' t I Hp) as (I1 & Hi & Ht); [done| |].
  { simpl. pose proof (zlen_nonneg q). rewrite Hz in *. unfold zlen in *. simpl in *. rewrite swrap_small; lia. }
  apply wp_bind. eapply (release_task_wp g iw); [done..|].
  intros s2 [I2 K2 R2] P2 _. eapply (IH s2 p'); [done|done|simpl in *; lia|].
  intros s3 p3 R3 Rn3 P3 H1 H2 H3 H4. eapply (HQ s3 p3); try done.
  - eapply runs_trans; [|exact R3]. constructor; [done|exact K2|]. rewrite P2, Hp. simpl. split; eauto.
  - rewrite Rn3, R2. done.
Qed.
End turn.
End workerinv.
