(* ===== verification/UeventSpec.v ===== *)
(** * uevent: the properties of the event loop

    The theorems about [src/uevent/uevent.c] and [src/uevent/uevent_worker.c]
    that a user of the library relies on. *)

From S2P Require Import Prelude.
From S2P Require Import MinHeap.
From S2P Require Import MinHeapInv.
From S2P Require Import MinHeapOps.
From S2P Require Import Uevent.
From S2P Require Import UeventInv.
From S2P Require Import UeventSteps.
From S2P Require Import UeventOps.
From S2P Require Import UeventAdd.
From S2P Require Import UeventApi.
From S2P Require Import UeventDel.
From S2P Require Import UeventMake.
From S2P Require Import UeventMoves.
From S2P Require Import UeventLoop.
From S2P Require Import UeventWorker.
From S2P Require Import UeventWorkerInv.
Import MinHeap (mst, mh, nodes, capacity, minheap_t, minheap_node_t).
Import Uevent UeventWorker.

(** ** A concrete outside world

    The clock shows a fixed time; nothing fails, except the mutex when the world
    says so; epoll reports the slots 2 and 3 as readable. *)
Module World.

Record world := W { clock : Z; mutex_fails : bool }.

#[export] Instance kernel : Kernel world := {
  k_epoll_ctl _ _ _ _ w := (0, w);
  k_mutex_lock w := ((if mutex_fails w then 22 else 0), w);
  k_time_ms w := (clock w, w);
  k_alloc _ w := (true, w);
  k_eventfd w := (7, w);
  k_write w := (8, 0, w);
  k_read w := (-1, EAGAIN, w);
  k_epoll_wait _ w := (2, 0, [(2, EPOLLIN); (3, EPOLLIN)], w)
}.

#[export] Instance kernel_ok : KernelOk world.
Proof. constructor. done. Qed.

Definition calm : world := W 1000 false.

(** A base of [n] slots, with the number of workers given. *)
Definition base_of (n workers : Z) (w : world) : option ust :=
  match uevent_base_new_with_workers n workers w with
  | Some (Some s, _) => Some s
  | _ => None
  end.

(** The result of a computation on a new base. *)
Definition on_base {A} (n workers : Z) (w : world) (m : M ust A) : option (A * ust) :=
  s ← base_of n workers w; m s.

(** A callback that does nothing. *)
Definition idle_cb : Z -> loc -> Z -> Z -> Z -> M (@ust world) unit := fun _ _ _ _ _ => mret tt.

(** A world without state: the clock stands at 1000. *)
Definition still_kernel : Kernel unit := {|
  k_epoll_ctl _ _ _ _ w := (0, w);
  k_mutex_lock w := (0, w);
  k_time_ms w := (1000, w);
  k_alloc _ w := (true, w);
  k_eventfd w := (7, w);
  k_write w := (8, 0, w);
  k_read w := (-1, EAGAIN, w);
  k_epoll_wait _ w := (0, 0, [], w)
|}.

Lemma still_kernel_ok : @KernelOk unit still_kernel.
Proof. constructor. done. Qed.

Lemma idle_cb_ok iw : callback_ok idle_cb iw.
Proof. intros f e fd' trig arg' g s i E I F Hg Hs Hl. apply wp_ret. split; [by apply runs_refl|done]. Qed.

End World.

(** ** Sequences of calls *)

Section calls.
Context {K : Type} {Kern : Kernel K}.

(** The calls of the public interface on the slots of a base. *)
Inductive call :=
  | CAdd (i t : Z) | CActive (i : Z) | CAddCurrent (i : Z) | CDel (i : Z) | CFree (i : Z)
  | CSetTimeout (i t : Z) | CPending (i mask : Z) | CIsAlive (i : Z) | CInitialized (i : Z)
  | CTryRef (i : Z) | CPut (i : Z)
  | CCreate (fd' events' : Z) (f : option callback) (arg' : Z) | CLoopbreak.

Definition call_slot (c : call) : option Z :=
  match c with
  | CAdd i _ | CActive i | CAddCurrent i | CDel i | CFree i | CSetTimeout i _ | CPending i _
  | CIsAlive i | CInitialized i | CTryRef i | CPut i => Some i
  | CCreate _ _ _ _ | CLoopbreak => None
  end.

(** The handles are slots of the base other than the wake-up event's, stale ones
    included; only a held reference may be put, and a slot is not referenced
    more than [bound] times. *)
Definition allowed (n iw : Z) (g : Z -> Z) (c : call) : bool :=
  match call_slot c with
  | Some i => (0 <=? i) && (i <? n) && negb (i =? iw)
  | None => true
  end &&
  match c with
  | CPut i => 0 <? g i
  | CTryRef i => g i <? bound
  | _ => true
  end.

(** The call, and the references held after it. *)
Definition exec_call (g : Z -> Z) (c : call) : M (@ust K) (Z -> Z) :=
  match c with
  | CAdd i t => uevent_add (Some i) t;; mret g
  | CActive i => uevent_active (Some i);; mret g
  | CAddCurrent i => uevent_add_with_current_timeout (Some i);; mret g
  | CDel i => uevent_del (Some i);; mret g
  | CFree i => uevent_free (Some i);; mret g
  | CSetTimeout i t => uevent_set_timeout (Some i) t;; mret g
  | CPending i mask => uevent_pending (Some i) mask;; mret g
  | CIsAlive i => uevent_is_alive (Some i);; mret g
  | CInitialized i => uevent_initialized (Some i);; mret g
  | CTryRef i => r ← uevent_try_ref (Some i); mret (if r is Some _ then gadd g i else g)
  | CPut i => uevent_put (Some i);; mret (gsub g i)
  | CCreate fd' events' f arg' => uevent_create_or_assign_event None true fd' events' f arg';; mret g
  | CLoopbreak => uevent_base_loopbreak true;; mret g
  end.

(** A program: the calls in order, those the rules forbid left out. *)
Fixpoint run_calls (n iw : Z) (g : Z -> Z) (l : list call) : M (@ust K) (Z -> Z) :=
  match l with
  | [] => mret g
  | c :: l =>
      if allowed n iw g c then g' ← exec_call g c; run_calls n iw g' l
      else run_calls n iw g l
  end.

Definition ready_for (n iw : Z) (g : Z -> Z) (s : @ust K) : Prop :=
  INV g iw s /\ few g bound /\ zlen (slots s) = n.

Lemma few_gsub g i n : few g n -> 0 < g i -> few (gsub g i) n.
Proof. intros F Hi j. specialize (F j). unfold gsub. case_decide; subst; lia. Qed.

Lemma few_gadd_lt g i n : few g n -> g i < n -> few (gadd g i) n.
Proof. intros F Hi j. specialize (F j). unfold gadd. case_decide; subst; lia. Qed.

Lemma exec_call_wp n iw g c (s : @ust K) :
  ready_for n iw g s -> allowed n iw g c = true ->
  wp (exec_call g c) (fun g' s' => ready_for n iw g' s') s.
Proof.
  intros (I & F & Hn) Ha. pose proof (bound_small _ F) as F2.
  assert (few g (2 ^ 20 - 1)) as F1 by (eapply few_le; [exact F2|lia]).
  assert (few g (2 ^ 20)) as F0 by (eapply few_le; [exact F2|lia]).
  unfold allowed in Ha. apply andb_prop in Ha as [Hslot Href].
  assert (forall s', calls g iw s s' -> ready_for n iw g s') as Hdone.
  { intros s' [I' K' _]. split_and!; [done..|]. by rewrite (keep_len _ _ _ K'). }
  assert (forall i, call_slot c = Some i -> 0 <= i < zlen (slots s) /\ i <> iw) as Hi.
  { intros i Hc. rewrite Hc in Hslot. lia. }
  destruct c; simpl in Href; unfold exec_call, uevent_active, uevent_add_with_current_timeout;
    (apply wp_bind || idtac); try (destruct (Hi _ eq_refl) as [Hr Hw]).
  - eapply uevent_add_wp; [done..|]. intros r s' C _ _. apply wp_ret. auto.
  - apply wp_bind. eapply uevent_add_wp; [done..|]. intros r s' C _ _. apply wp_ret, wp_ret. auto.
  - apply wp_bind. eapply uevent_add_wp; [done..|]. intros r s' C _ _. apply wp_ret, wp_ret. auto.
  - eapply uevent_del_wp; [done..|]. intros r s' C _ _ _. apply wp_ret. auto.
  - eapply uevent_free_wp; [done..|]. intros s' C _ _ _ _. apply wp_ret. auto.
  - eapply uevent_set_timeout_wp; [done..|]. intros s' C _ _. apply wp_ret. auto.
  - eapply uevent_pending_wp; [done..|]. intros b s' C _ _. apply wp_ret. auto.
  - eapply uevent_is_alive_wp; [done..|]. intros b s' C _ _. apply wp_ret. auto.
  - eapply uevent_initialized_wp; [done..|]. intros b s' C _ _. apply wp_ret. auto.
  - eapply uevent_try_ref_wp; [done..|by intros _; apply wp_ret|].
    intros s' e E I' K' _ _ _ _ _ _ _. apply wp_ret. split_and!; [done| |by rewrite (keep_len _ _ _ (K' g))].
    apply few_gadd_lt; [done|]. lia.
  - eapply uevent_put_wp; [done|done|lia|done| |].
    + intros s' I' K' _ _ _ _ _. apply wp_ret. split_and!; [done| |by rewrite (keep_len _ _ _ (K' g))].
      apply few_gsub; [done|lia].
    + intros s' I' K' _ _ _ _ _ _ _. apply wp_ret. split_and!; [done| |by rewrite (keep_len _ _ _ K')].
      apply few_gsub; [done|lia].
  - eapply uevent_create_wp; [done|done| |].
    + intros s' C _ _. apply wp_ret. auto.
    + intros i e E0 s' C _ _ _ _ _. apply wp_ret. auto.
  - eapply uevent_base_loopbreak_wp; [done..|]. intros s' R _ _. apply wp_ret.
    split_and!; [apply R|done|by rewrite (runs_len _ _ _ _ R)].
Qed.

Lemma run_calls_wp n iw l g (s : @ust K) :
  ready_for n iw g s -> wp (run_calls n iw g l) (fun g' s' => ready_for n iw g' s') s.
Proof.
  revert g s. induction l as [|c l IH]; intros g s Hs; [by apply wp_ret|].
  cbn [run_calls]. destruct (allowed n iw g c) eqn:Ha; [|by apply IH].
  apply wp_bind. eapply wp_mono; [by apply exec_call_wp|]. intros g' s' Hs'. by apply IH.
Qed.
End calls.

(** ** A base with a descriptor event and a persistent timer, for the examples *)
Module Demo.

Section demo.
Context {K : Type} {Kern : Kernel K}.

Definition program : list call :=
  [CCreate 5 UEV_READ (Some (CbUser 1)) 0; CAdd 2 0;
   CCreate (-1) (Z.lor UEV_TIMEOUT UEV_PERSIST) (Some (CbUser 2)) 0; CSetTimeout 1 50; CAddCurrent 1; CTryRef 2].

Definition s0 (workers : Z) (w : K) : ust := base_with_wakeup 4 7 (fresh_pool workers) w.

Definition run (workers : Z) (w : K) : option ((Z -> Z) * ust) :=
  run_calls 4 3 (fun _ => 0) program (s0 workers w).

Definition refs workers w : Z -> Z := match run workers w with Some r => r.1 | None => fun _ => 0 end.
Definition state workers w : @ust K := match run workers w with Some r => r.2 | None => s0 workers w end.

Lemma s0_ready workers w : ready_for 4 3 (fun _ => 0) (s0 workers w).
Proof.
  split_and!; [|intros i; unfold bound; lia|done].
  apply (base_INV 4 7); [lia|apply fresh_pool_tasks|apply fresh_pool_wf].
Qed.

Lemma state_ready workers w : ready_for 4 3 (refs workers w) (state workers w).
Proof.
  destruct (wp_run _ _ _ (run_calls_wp 4 3 program _ _ (s0_ready workers w))) as (g & s & Hr & Hs).
  unfold refs, state, run. by rewrite Hr.
Qed.

Lemma state_inv workers w : INV (refs workers w) 3 (state workers w).
Proof. apply state_ready. Qed.

Lemma state_few workers w : few (refs workers w) bound.
Proof. apply state_ready. Qed.

Lemma state_len workers w : zlen (slots (state workers w)) = 4.
Proof. apply state_ready. Qed.
End demo.
End Demo.

#[local] Instance anything_steady {K : Type} {Kern : Kernel K} : Steady (fun _ _ => True).
Proof. constructor; [split|..]; done. Qed.

(** ** The properties *)

Section properties.
Context {K : Type} {Kern : Kernel K}.

(** C1: whatever sequence of calls a program makes on a new base, with live,
    freed or reused handles, no call has undefined behaviour (no dangling event,
    no reference count below zero, no slot freed twice, no overflow), the
    reference-counting invariant holds at the end, and the timer heap still has
    room for every event. *)
Theorem uevent_calls_safe (n workers : Z) (k k' : K) s l :
  n < 2 ^ 16 -> uevent_base_new_with_workers n workers k = Some (Some s, k') ->
  exists g' s', run_calls n (n - 1) (fun _ => 0) l s = Some (g', s') /\ INV g' (n - 1) s' /\
    Z.of_nat (size (pq (nodes (timers s')))) < n.
Proof.
  intros Hn Hnew. pose proof (uevent_base_new_ok n workers k Hn) as H.
  unfold uevent_base_new_with_workers in Hnew.
  destruct (make_base n workers (nothing_made k)) as [[o b]|]; [|done]. injection Hnew as -> _.
  destruct H as [(_ & _ & I & L & _) _].
  destruct (wp_run _ _ _ (run_calls_wp n (n - 1) l (fun _ => 0) s
    ltac:(split_and!; [done|intros i; unfold bound; lia|done]))) as (g' & s' & Hr & I' & _ & L').
  exists g', s'. split_and!; [done..|]. rewrite <- L'. by eapply INV_timers_room.
Qed.




(** C28: after [uevent_free] the handle is dead; when nobody holds a reference,
    no worker has the event queued and its timer is out of the heap, the slot is
    empty again with a reference count of zero. *)
Theorem uevent_free_spec g iw s i e E :
  INV g iw s -> few g bound -> i <> iw -> slot_at s i e E -> pending_free E = false ->
  exists s', uevent_free (K:=K) (Some i) s = Some (tt, s') /\ calls g iw s s' /\ ~ live s' i /\
    (g i = 0 -> tasks_of i (pool s) = 0 -> active_timer E = false ->
     exists u, znth (slots s') i = Some u /\ ev u = None /\ refcount u = 0).
Proof.
  intros I F Hiw Hs Hp. destruct (slot_at_facts _ _ _ _ _ _ I Hs) as (_ & _ & _ & _ & Hi).
  destruct (wp_run (uevent_free (Some i)) (fun _ s' => calls g iw s s' /\ ~ live s' i /\
    (g i = 0 -> tasks_of i (pool s) = 0 -> active_timer E = false ->
     exists u, znth (slots s') i = Some u /\ ev u = None /\ refcount u = 0)) s) as ([] & s' & H1 & H2);
    [|by exists s'].
  eapply uevent_free_wp; [done|by apply bound_small|done..|].
  intros s' [I' K' R'] P' Hdead _ Hact. split_and!; [done..|].
  intros Hg Ht Htm. pose proof (keep_len _ _ _ K') as L.
  destruct (znth_is_Some (slots s') i) as [u Hu]; [by rewrite L|]. exists u. split; [done|].
  destruct (ev u) as [e'|] eqn:Hue; [|by destruct (i_unused _ _ _ I' i u Hu Hue) as (? & _)].
  destruct (i_used _ _ _ I' i u e' Hu Hue) as (E' & F1 & _ & _ & _ & F5 & F6 & _).
  assert (slot_at s' i e' E') as Hs' by by exists u.
  destruct (Hact _ _ _ _ Hs Hp Hs') as [A1 A2]. specialize (A2 Htm).
  assert (pending_free E' = true) as A3.
  { destruct (pending_free E') eqn:A3; [done|]. destruct Hdead. by exists e', E'. }
  rewrite P', Ht, Hg in F5. unfold own in F5. rewrite A1, A2, A3 in F5. simpl in F5. lia.
Qed.

(** C3: one turn of [uevent_base_dispatch], with any callbacks that keep to the
    interface, has no undefined behaviour and keeps the invariant; it goes on, ends
    normally or reports an epoll failure.  Every slot epoll reports must be the
    wake-up event's, or one the application holds a reference to, or hold an event
    that is alive and, in a base without workers, is not freed by the callbacks
    the loop runs; [UeventLimits.handle_epoll_free_in_callback] shows the use after
    free of a callback that frees an event of the batch. *)
Theorem uevent_turn_safe user_cb iw g s :
  callback_ok user_cb iw -> KernelOk K -> INV g iw s -> few g bound ->
  epoll_ok user_cb iw g s ->
  exists r s', dispatch_turn (K:=K) user_cb s = Some (r, s') /\ runs g iw s s' /\
    match r with None => True | Some r => r = UEV_ERR_OK \/ r = UEV_ERR_EPOLL end.
Proof.
  intros Hcb Kok I F Hep. apply (wp_run _ (fun r s' => runs g iw s s' /\
    match r with None => True | Some r => r = UEV_ERR_OK \/ r = UEV_ERR_EPOLL end)).
  eapply dispatch_turn_wp; done.
Qed.

(** C30: one turn of a worker thread: the first task of the queue, if any, is
    taken and run, its reference is given back, the invariant holds again, and
    no event is used after it was freed. *)
Theorem uevent_worker_turn_safe user_cb extra debug iw g s p :
  callback_ok user_cb iw -> KernelOk K -> INV g iw s -> few g bound -> pool s = Some p ->
  - 2 ^ 31 < total_workers p < 2 ^ 31 - 2 ->
  exists r s', worker_turn (K:=K) user_cb extra debug s = Some (r, s') /\ runs g iw s s' /\
    match r with
    | Sleeps | NoTask => s' = s /\ queue_size p = 0
    | GotTask t => exists q p', task_queue p = t :: q /\ pool s' = Some p' /\ task_queue p' = q
    end.
Proof.
  intros Hcb Kok I F Hp Ht. apply (wp_run _ (fun r s' => runs g iw s s' /\
    match r with
    | Sleeps | NoTask => s' = s /\ queue_size p = 0
    | GotTask t => exists q p', task_queue p = t :: q /\ pool s' = Some p' /\ task_queue p' = q
    end)).
  eapply worker_turn_wp; done.
Qed.

(** an event is in the queue of the worker pool at most once, however often
    it fires, so the queue is never longer than the array of slots and its
    counter is exact. *)
Theorem worker_queue_bounded g iw (s : @ust K) p :
  INV g iw s -> pool s = Some p ->
  queue_size p = zlen (task_queue p) /\ zlen (task_queue p) <= zlen (slots s) /\
  NoDup (task_uev <$> task_queue p).
Proof. apply INV_queue. Qed.

(** C31: [uevent_base_loopbreak] stops the loop and empties the timer heap,
    releasing the reference of every timer, and terminates. *)
Theorem uevent_loopbreak_spec g iw s :
  INV g iw s -> few g bound ->
  exists s', uevent_base_loopbreak (K:=K) true s = Some (tt, s') /\ runs g iw s s' /\
    running s' = false /\ pq (nodes (timers s')) = ∅.
Proof.
  intros I F. destruct (wp_run (uevent_base_loopbreak true) (fun _ s' => runs g iw s s' /\
    running s' = false /\ pq (nodes (timers s')) = ∅) s) as ([] & s' & H); [|by exists s'].
  eapply uevent_base_loopbreak_wp; done.
Qed.

(** stopping the worker pool empties its queue and gives back the reference
    of every task it drops. *)
Theorem uevent_worker_pool_stop_spec g iw s p :
  INV g iw s -> few g bound -> pool s = Some p ->
  exists s' p', uevent_worker_pool_stop (K:=K) s = Some (tt, s') /\ runs g iw s s' /\
    pool s' = Some p' /\ task_queue p' = [] /\ queue_size p' = 0 /\ pool_running p' = false.
Proof.
  intros I F Hp.
  destruct (wp_run uevent_worker_pool_stop (fun _ s' => exists p', runs g iw s s' /\
    pool s' = Some p' /\ task_queue p' = [] /\ queue_size p' = 0 /\ pool_running p' = false) s)
    as ([] & s' & H1 & p' & H2); [|by exists s', p'].
  apply wp_bind, wp_gets. rewrite Hp. apply wp_bind. eapply wp_change_pool; [done|].
  set (s1 := put_pool _ s). assert (INV g iw s1) as I1 by by eapply INV_pool_counters.
  eapply (drain_queue_wp iw _ g s1 (set_pool_running false p)); [done| |done|simpl; lia|done|].
  { eapply few_le; [by apply bound_small|lia]. }
  intros s' p' R' _ P' H1 H2 H3 _. exists p'. split_and!; try done.
  eapply runs_trans; [|exact R']. constructor; [done|by apply keep_same|]. simpl. rewrite Hp. split; eauto.
Qed.

(** C32: with 64-bit keys, the clock at [now] and a mutex that can be taken, the
    timeout given to epoll is exactly the time to the earliest deadline, zero
    when it has passed, and one minute when it is further away or there is no
    timer: the loop neither oversleeps a timer nor spins. *)
Theorem epoll_timeout_exact g iw s now :
  KernelOk K -> INV g iw s ->
  (forall k, (k_time_ms k).1 = now) -> (forall k, (k_mutex_lock k).1 = 0) -> 0 <= now ->
  (forall e k, pq (nodes (timers s)) !! e = Some k -> k < 2 ^ 64) ->
  exists t s', calculate_epoll_timeout (K:=K) s = Some (t, s') /\ quiet s s' /\
    (pq (nodes (timers s)) = ∅ /\ t = 60000 \/
     exists e k, is_min (pq (nodes (timers s))) e /\ pq (nodes (timers s)) !! e = Some k /\
       t = Z.min 60000 (Z.max 0 (k - now))).
Proof.
  intros Kok I Hnow Hmut Hn Hkeys.
  apply (wp_run _ (fun t s' => quiet s s' /\ (pq (nodes (timers s)) = ∅ /\ t = 60000 \/
     exists e k, is_min (pq (nodes (timers s))) e /\ pq (nodes (timers s)) !! e = Some k /\
       t = Z.min 60000 (Z.max 0 (k - now))))).
  eapply (epoll_timeout_wp (fun _ _ => True)); [done|by intros k; rewrite Hnow|done|].
  intros t s' Hq Ht _. split; [done|].
  destruct Ht as [Ht|[(_ & _ & k & Hk)|(k & e & d & _ & _ & Hmin & Hd & ->)]]; [by left|by rewrite Hmut in Hk|].
  right. exists e, d. by rewrite Hnow.
Qed.
End properties.

(** ** Event masks *)

Lemma has_low x m : Z.land 15 m = m -> has (Z.land x 15) m = has x m.
Proof. intros Hm. unfold has. by rewrite <- Z.land_assoc, Hm. Qed.

(** converting a mask of the library to epoll's and back keeps exactly the
    four descriptor events, whatever other bits (timer, persistence) it has. *)
Theorem epoll_events_roundtrip x :
  convert_from_epoll_events (convert_to_epoll_events x) = Z.land x UEV_FD_EVENTS.
Proof.
  change UEV_FD_EVENTS with 15. unfold convert_to_epoll_events.
  rewrite <- (has_low x UEV_READ), <- (has_low x UEV_WRITE), <- (has_low x UEV_ERROR),
    <- (has_low x UEV_HUP) by done.
  assert (0 <= Z.land x 15 < 16) as Hr.
  { change 15 with (Z.ones 4). rewrite Z.land_ones by lia. by apply Z.mod_pos_bound. }
  set (r := Z.land x 15) in *. clearbody r.
  assert (r ∈ seqZ 0 16) as Hin by (apply elem_of_seqZ; lia). vm_compute in Hin.
  repeat (apply elem_of_cons in Hin as [->|Hin]; [reflexivity|]). by apply not_elem_of_nil in Hin.
Qed.

(** ** The hypotheses hold: the properties at concrete states *)
Module Witnesses.
Import World Demo.

#[local] Opaque run refs state.

Lemma uevent_calls_safe_witness : exists s k',
  uevent_base_new_with_workers 4 0 calm = Some (Some s, k') /\
  exists g' s', run_calls 4 (4 - 1) (fun _ => 0) program s = Some (g', s') /\ INV g' (4 - 1) s' /\
    Z.of_nat (size (pq (nodes (timers s')))) < 4.
Proof.
  eexists _, _. split; [vm_compute; reflexivity|].
  eapply (uevent_calls_safe 4 0 calm); [lia|vm_compute; reflexivity].
Defined.




(** The event of slot 1 in the example. *)
Definition event_at_1 : loc := match znth (slots (state 0 calm)) 1 with Some (Uev (Some e) _) => e | _ => 0 end.
Definition contents_at_1 : uevent_t := default zero_event (evs (state 0 calm) !! event_at_1).

Lemma uevent_free_spec_witness : exists s', uevent_free (Some 1) (state 0 calm) = Some (tt, s') /\
  calls (refs 0 calm) 3 (state 0 calm) s' /\ ~ live s' 1 /\
  (refs 0 calm 1 = 0 -> tasks_of 1 (pool (state 0 calm)) = 0 -> active_timer contents_at_1 = false ->
   exists u, znth (slots s') 1 = Some u /\ ev u = None /\ refcount u = 0).
Proof.
  apply (uevent_free_spec (refs 0 calm) 3 (state 0 calm) 1 event_at_1 contents_at_1);
    [apply state_inv|apply state_few|lia| |vm_compute; reflexivity].
  eexists. vm_compute. split_and!; reflexivity.
Defined.

(** The same base, running. *)
Definition started : @ust world := put_running true (state 0 calm).

Lemma put_running_inv g iw (s : @ust world) b : INV g iw s -> INV g iw (put_running b s).
Proof. intros I. by eapply INV_frame. Qed.

Lemma put_running_slots (s : @ust world) b : slots (put_running b s) = slots s.
Proof. done. Qed.

Lemma started_len : zlen (slots started) = 4.
Proof. unfold started. rewrite put_running_slots. apply state_len. Qed.

Lemma uevent_turn_safe_witness : exists r s',
  dispatch_turn idle_cb started = Some (r, s') /\ runs (refs 0 calm) 3 started s' /\
  match r with None => True | Some r => r = UEV_ERR_OK \/ r = UEV_ERR_EPOLL end.
Proof.
  apply (uevent_turn_safe idle_cb 3 (refs 0 calm) started);
    [apply idle_cb_ok|apply kernel_ok|apply put_running_inv, state_inv|apply state_few|].
  intros t k i m Hin. change ((i, m) ∈ [(2, EPOLLIN); (3, EPOLLIN)]) in Hin.
  apply elem_of_cons in Hin as [[= -> ->]|Hin].
  - split; [rewrite started_len; lia|]. right; right. split.
    + eexists _, _. split; [eexists; vm_compute; split_and!; reflexivity|reflexivity].
    + intros _ f e fd' trig arg' g s j E _ _ _ _ _ _. apply wp_ret, spared_refl.
  - apply list_elem_of_singleton in Hin as [= -> ->]. split; [rewrite started_len; lia|by left].
Defined.

(** With workers, the timer of slot 1 waiting in the queue. *)
Definition queued : @ust world :=
  match uevent_worker_pool_insert 1 UEV_TIMEOUT 7 (state 2 calm) with Some (_, s) => s | None => state 2 calm end.

Lemma queued_inv : INV (refs 2 calm) 3 queued.
Proof.
  assert (slot_at (state 2 calm) 1 event_at_1 contents_at_1) as Hs
    by (eexists; vm_compute; split_and!; reflexivity).
  destruct (wp_run (uevent_worker_pool_insert 1 UEV_TIMEOUT 7) (fun _ s => INV (refs 2 calm) 3 s) (state 2 calm))
    as ([] & s & H1 & H2).
  - eapply (uevent_worker_pool_insert_wp 3);
      [apply state_inv| |exact Hs|vm_compute; reflexivity|].
    + eapply few_le; [apply state_few|vm_compute; discriminate].
    + intros s' E' St _ _ _. apply St.
  - unfold queued. by rewrite H1.
Qed.

Definition pool_of (s : @ust world) : uevent_worker_pool_t := default (Pool false 0 0 0 0 []) (pool s).

Lemma uevent_worker_turn_safe_witness : exists r s',
  worker_turn idle_cb true false queued = Some (r, s') /\ runs (refs 2 calm) 3 queued s' /\
  match r with
  | Sleeps | NoTask => s' = queued /\ queue_size (pool_of queued) = 0
  | GotTask t => exists q p', task_queue (pool_of queued) = t :: q /\ pool s' = Some p' /\ task_queue p' = q
  end.
Proof.
  apply (uevent_worker_turn_safe idle_cb true false 3 (refs 2 calm) queued (pool_of queued));
    [apply idle_cb_ok|apply kernel_ok|apply queued_inv|apply state_few|vm_compute; reflexivity|].
  vm_compute. split; reflexivity.
Defined.

Lemma worker_queue_bounded_witness :
  queue_size (pool_of queued) = zlen (task_queue (pool_of queued)) /\
  zlen (task_queue (pool_of queued)) <= zlen (slots queued) /\
  NoDup (task_uev <$> task_queue (pool_of queued)).
Proof. apply (worker_queue_bounded (refs 2 calm) 3 queued); [apply queued_inv|vm_compute; reflexivity]. Defined.

Lemma uevent_loopbreak_spec_witness : exists s',
  uevent_base_loopbreak true (state 0 calm) = Some (tt, s') /\ runs (refs 0 calm) 3 (state 0 calm) s' /\
  running s' = false /\ pq (nodes (timers s')) = ∅.
Proof. apply (uevent_loopbreak_spec (refs 0 calm) 3 (state 0 calm)); [apply state_inv|apply state_few]. Defined.

Lemma uevent_worker_pool_stop_spec_witness : exists s' p',
  uevent_worker_pool_stop queued = Some (tt, s') /\ runs (refs 2 calm) 3 queued s' /\
  pool s' = Some p' /\ task_queue p' = [] /\ queue_size p' = 0 /\ pool_running p' = false.
Proof.
  apply (uevent_worker_pool_stop_spec (refs 2 calm) 3 queued (pool_of queued));
    [apply queued_inv|apply state_few|vm_compute; reflexivity].
Defined.

#[local] Existing Instance still_kernel.

Lemma epoll_timeout_exact_witness :
  let s := @state unit still_kernel 0 tt in
  exists t s', calculate_epoll_timeout s = Some (t, s') /\ quiet s s' /\
  (pq (nodes (timers s)) = ∅ /\ t = 60000 \/
   exists e k, is_min (pq (nodes (timers s))) e /\
     pq (nodes (timers s)) !! e = Some k /\ t = Z.min 60000 (Z.max 0 (k - 1000))).
Proof.
  cbv zeta. apply (epoll_timeout_exact (@refs unit still_kernel 0 tt) 3 (@state unit still_kernel 0 tt) 1000);
    [apply still_kernel_ok|apply state_inv|by intros []|by intros []|lia|].
  assert (map_Forall (fun _ k => k < 2 ^ 64) (pq (nodes (timers (@state unit still_kernel 0 tt))))) as H
    by (apply (bool_decide_unpack _); vm_compute; exact I).
  intros e k Hk. exact (H e k Hk).
Defined.
End Witnesses.
