(* ===== verification/Schedule.v ===== *)
(** * Schedules of timers

    The specification of a timer wheel without its heap: from the deadlines of
    the armed timers, which timers fire by the time [now], in which order, and
    what remains armed.  [UeventTimers] shows that [uevent_handle_timers] of
    [src/uevent/uevent.c] runs such a schedule. *)

From Stdlib Require Import Sorted.
From S2P Require Import Prelude.

Definition is_first (T : gmap loc Z) (e : loc) (d : Z) : Prop :=
  T !! e = Some d /\ forall x k, T !! x = Some k -> d <= k.

Section schedule.

(** The period of a timer; [None] for one that fires once. *)
Variable period : loc -> option Z.
Variable now : Z.
Implicit Types (T : gmap loc Z) (e : loc) (k : Z) (l : list (loc * Z)).

(** After it fired at the deadline [k] a periodic timer is armed again, one
    period later: what it was late is not added. *)
Definition rearm e k T : gmap loc Z :=
  match period e with Some t => <[e := k + t]> (delete e T) | None => delete e T end.

(** [schedule n T l T']: with the timers [T] armed, [l] fires, at most [n]
    timers of it, the earliest deadline first, and [T'] remains. *)
Inductive schedule : nat -> gmap loc Z -> list (loc * Z) -> gmap loc Z -> Prop :=
  | schedule_limit T : schedule 0 T [] T
  | schedule_idle n T : (forall e k, T !! e = Some k -> now < k) -> schedule n T [] T
  | schedule_fire n T e k l T' :
      T !! e = Some k -> k <= now -> (forall x k', T !! x = Some k' -> k <= k') ->
      schedule n (rearm e k T) l T' -> schedule (S n) T ((e, k) :: l) T'.

Lemma schedule_length n T l T' : schedule n T l T' -> (length l <= n)%nat.
Proof. induction 1; simpl; lia. Qed.

Lemma schedule_due n T l T' : schedule n T l T' -> Forall (fun k => k <= now) l.*2.
Proof. induction 1; [constructor..|]. by constructor. Qed.

(** Below the limit everything that was due has fired. *)
Lemma schedule_complete n T l T' :
  schedule n T l T' -> (length l < n)%nat -> forall e k, T' !! e = Some k -> now < k.
Proof.
  induction 1 as [|n T Hi|n T e k l T' He Hk Hm Hs IH]; simpl; [lia|done|].
  intros Hl. apply IH. lia.
Qed.

Lemma rearm_lookup e k T x k' :
  rearm e k T !! x = Some k' -> T !! x = Some k' \/ x = e /\ exists t, period e = Some t /\ k' = k + t.
Proof.
  unfold rearm. destruct (period e) as [t|] eqn:Ht.
  - destruct (decide (x = e)) as [->|Hne].
    + rewrite lookup_insert_eq. intros [= <-]. right. eauto.
    + rewrite lookup_insert_ne, lookup_delete_ne by done. by left.
  - intros [_ H]%lookup_delete_Some. by left.
Qed.

Lemma rearm_eq e k T :
  rearm e k T !! e = match period e with Some t => Some (k + t) | None => None end.
Proof. unfold rearm. destruct (period e); [apply lookup_insert_eq|apply lookup_delete_eq]. Qed.

Lemma rearm_ne e k T x : x <> e -> rearm e k T !! x = T !! x.
Proof.
  intros. unfold rearm. destruct (period e); [rewrite lookup_insert_ne by done|]; by rewrite lookup_delete_ne.
Qed.

(** An armed timer fires or waits on. *)
Lemma schedule_waits n T l T' e k :
  schedule n T l T' -> T !! e = Some k -> (e, k) ∈ l \/ T' !! e = Some k.
Proof.
  induction 1 as [| |n T x k' l T' He Hk Hm Hs IH]; intros Hx; [by right..|].
  destruct (decide (x = e)) as [->|Hne].
  - simplify_eq. left. set_solver.
  - destruct IH as [IH|IH]; [by rewrite rearm_ne|left; set_solver|by right].
Qed.

(** Timers that fire once: each is either fired, once, or armed as before. *)
Lemma schedule_once n T l T' :
  schedule n T l T' -> (forall e k, T !! e = Some k -> period e = None) ->
  l ++ map_to_list T' ≡ₚ map_to_list T /\ forall e k, T' !! e = Some k -> T !! e = Some k.
Proof.
  induction 1 as [| |n T x k l T' He Hk Hm Hs IH]; intros Hp; [by split..|].
  assert (rearm x k T = delete x T) as Hd by (unfold rearm; by rewrite (Hp x k)).
  rewrite Hd in IH. destruct IH as [IH1 IH2].
  { intros e k' [_ H]%lookup_delete_Some. by eapply Hp. }
  split.
  - rewrite <- (map_to_list_delete T x k) by done. simpl. by constructor.
  - intros e k' [_ H]%IH2%lookup_delete_Some. done.
Qed.

(** ** Order *)

Hypothesis periods : forall e t, period e = Some t -> 0 < t.

Lemma schedule_above n T l T' b :
  schedule n T l T' -> (forall e k, T !! e = Some k -> b <= k) ->
  Forall (fun k => b <= k) l.*2 /\ forall e k, T' !! e = Some k -> b <= k.
Proof.
  induction 1 as [| |n T e k l T' He Hk Hm Hs IH]; intros Hb; [by split..|].
  destruct IH as [IH1 IH2].
  { intros x k' [Hx|(-> & t & Ht%periods & ->)]%rearm_lookup; [by eapply Hb|]. apply Hb in He. lia. }
  split; [|done]. constructor; [by eapply Hb|done].
Qed.

Lemma schedule_fire_above n T e k l T' :
  (forall x k', T !! x = Some k' -> k <= k') -> schedule n (rearm e k T) l T' ->
  Forall (fun k' => k <= k') l.*2 /\ forall x k', T' !! x = Some k' -> k <= k'.
Proof.
  intros Hm Hs. eapply schedule_above; [exact Hs|].
  intros x k' [Hx|(_ & t & Ht%periods & ->)]%rearm_lookup; [by eapply Hm|lia].
Qed.

(** The timers fire in the order of their deadlines. *)
Lemma schedule_sorted n T l T' : schedule n T l T' -> StronglySorted Z.le l.*2.
Proof.
  induction 1 as [| |n T e k l T' He Hk Hm Hs IH]; [constructor..|].
  constructor; [done|]. by eapply schedule_fire_above.
Qed.

(** Nothing that remains was due before what fired, even at the limit. *)
Lemma schedule_earliest n T l T' e k :
  schedule n T l T' -> T' !! e = Some k -> Forall (fun k' => k' <= k) l.*2.
Proof.
  induction 1 as [| |n T e' k' l T' He Hk Hm Hs IH]; intros Hr; [constructor..|].
  constructor; [|by apply IH]. destruct (schedule_fire_above _ _ _ _ _ _ Hm Hs) as [_ H]. by eapply H.
Qed.

(** ** Each timer on its own *)

Definition firings e l : list Z := (filter (fun p => p.1 = e) l).*2.

(** What one timer did: an unarmed one did not fire; a periodic one fired at
    [m] successive deadlines and waits for the next; any other fired once and is
    gone, or still waits. *)
Definition fired_as (t : option Z) (before : option Z) (fired : list Z) (after : option Z) : Prop :=
  match before, t with
  | None, _ => fired = [] /\ after = None
  | Some k, Some t => exists m : nat,
      fired = (fun j : nat => k + Z.of_nat j * t) <$> seq 0 m /\ after = Some (k + Z.of_nat m * t)
  | Some k, None => fired = [] /\ after = Some k \/ fired = [k] /\ after = None
  end.

Lemma fired_as_none t before : fired_as t before [] before.
Proof.
  destruct before as [k|]; [|done]. destruct t as [t|]; [|by left]. exists 0%nat. simpl.
  split; [done|]. f_equal. lia.
Qed.

Lemma fired_as_fire t k fired after :
  fired_as t (match t with Some t => Some (k + t) | None => None end) fired after ->
  fired_as t (Some k) (k :: fired) after.
Proof.
  destruct t as [t|]; simpl.
  - intros (m & -> & ->). exists (S m). split.
    + simpl. f_equal; [lia|]. rewrite <- fmap_S_seq, <- list_fmap_compose.
      apply list_fmap_ext. intros _ j _. unfold compose. lia.
    + f_equal. lia.
  - intros [-> ->]. by right.
Qed.

Lemma schedule_fired n T l T' e :
  schedule n T l T' -> fired_as (period e) (T !! e) (firings e l) (T' !! e).
Proof.
  induction 1 as [| |n T x k l T' He Hk Hm Hs IH]; [apply fired_as_none..|].
  unfold firings. destruct (decide (x = e)) as [->|Hne].
  - rewrite filter_cons_True by done. rewrite He. apply fired_as_fire. rewrite rearm_eq in IH. exact IH.
  - rewrite filter_cons_False by done. rewrite rearm_ne in IH by done. exact IH.
Qed.

(** ** Progress *)

(** How many firings up to the deadline [D] the armed timers can still have. *)
Definition pending (D : Z) T : Z := map_fold (fun _ k a => Z.max 0 (D - k + 1) + a) 0 T.

Lemma pending_delete D T e k :
  T !! e = Some k -> pending D T = Z.max 0 (D - k + 1) + pending D (delete e T).
Proof. intros He. unfold pending. apply (map_fold_delete_L (fun _ k a => Z.max 0 (D - k + 1) + a)); [intros; lia|done]. Qed.

Lemma pending_nonneg D T : 0 <= pending D T.
Proof. unfold pending. apply (map_fold_weak_ind (fun r _ => 0 <= r)); [lia|]. intros. lia. Qed.

Lemma pending_rearm D T e k :
  T !! e = Some k -> pending D (rearm e k T) <= pending D T /\ (k <= D -> pending D (rearm e k T) < pending D T).
Proof.
  intros He. rewrite (pending_delete D T e k He). unfold rearm.
  destruct (period e) as [t|] eqn:Ht; [|lia]. apply periods in Ht.
  rewrite (pending_delete D _ e (k + t)) by apply lookup_insert_eq.
  rewrite delete_insert_eq, delete_delete_eq. lia.
Qed.

Lemma schedule_pending D n T l T' : schedule n T l T' -> pending D T' <= pending D T.
Proof.
  induction 1 as [| |n T e k l T' He Hk Hm Hs IH]; [done..|].
  destruct (pending_rearm D T e k He). lia.
Qed.

(** When the earliest timer is due it fires, and there is less to do. *)
Lemma schedule_progress D n T l T' e k :
  schedule (S n) T l T' -> T !! e = Some k -> k <= now -> k <= D -> pending D T' < pending D T.
Proof.
  intros Hs He Hk HD. inversion Hs as [|? ? Hi|? ? x k' l1 ? Hx Hk' Hm Hs1]; subst.
  - apply Hi in He. lia.
  - apply (schedule_pending D) in Hs1. specialize (Hm _ _ He).
    destruct (pending_rearm D T x k' Hx) as [_ H]. specialize (H ltac:(lia)). lia.
Qed.

End schedule.

(** Some timer is the first. *)
Lemma earliest (T : gmap loc Z) : T <> ∅ -> exists e d, is_first T e d.
Proof.
  unfold is_first. induction T as [|e d T He Hf IH] using map_first_key_ind; [done|]. intros _.
  destruct (decide (T = ∅)) as [->|Hne].
  - exists e, d. rewrite insert_empty, lookup_singleton_eq. split; [done|].
    intros x k [<- <-]%lookup_singleton_Some. done.
  - destruct (IH Hne) as (x & k & Hx & Hm). destruct (Z.le_ge_cases d k).
    + exists e, d. rewrite lookup_insert_eq. split; [done|].
      intros y j [[<- <-]|[_ Hy]]%lookup_insert_Some; [done|]. apply Hm in Hy. lia.
    + exists x, k. rewrite lookup_insert_ne by congruence. split; [done|].
      intros y j [[<- <-]|[_ Hy]]%lookup_insert_Some; [done|]. by eapply Hm.
Qed.

(** A schedule depends on the periods only through their values. *)
Lemma schedule_ext period period' now n T l T' :
  (forall e, period e = period' e) -> schedule period now n T l T' -> schedule period' now n T l T'.
Proof.
  intros Hp. induction 1 as [T|n T Hi|n T e k l T' He Hk Hm Hs IH]; [by constructor..|].
  apply schedule_fire; [done..|]. unfold rearm in *. by rewrite <- Hp.
Qed.
