(* ===== verification/UeventTimers.v ===== *)
(** * uevent: which timers fire

    [uevent_handle_timers] of [src/uevent/uevent.c] without workers, with user
    callbacks that are recorded: it runs the schedule of the armed timers up to
    the time it reads from the clock. *)

From Stdlib Require Import Sorted.
From S2P Require Import Prelude.
From S2P Require Import MinHeap.
From S2P Require Import MinHeapInv.
From S2P Require Import MinHeapOps.
From S2P Require Import Uevent.
From S2P Require Import UeventInv.
From S2P Require Import UeventSteps.
From S2P Require Import UeventOps.
From S2P Require Import UeventAdd.
From S2P Require Import UeventApi.
From S2P Require Import UeventDel.
From S2P Require Import UeventMoves.
From S2P Require Import UeventLoop.
From S2P Require Import UeventSpec.
From S2P Require Import UeventRecord.
From S2P Require Import Schedule.
Import MinHeap (mst, mh, nodes, capacity, minheap_t, minheap_node_t).
Import Uevent.

Section timers.
Context {K : Type} {Kern : Kernel K}.
Implicit Types (s : @ust (@observed K)) (E : uevent_t) (e : loc) (i : Z).
Variable g : Z -> Z.
Variable iw : Z.
Hypothesis F : few g bound.

(** ** Calling back *)

(** The call a timer makes when it fires. *)
Definition call_of e E : call :=
  Call (match cb E with Some (CbUser f) => f | _ => 0 end) e (fd E) UEV_TIMEOUT (arg E).

(** An event whose callback runs when its timer fires: not being freed, not
    locked by another thread. *)
Record callable E : Prop := {
  ca_alive : pending_free E = false;
  ca_unlocked : modification_lock E = false;
  ca_cb : exists f, cb E = Some (CbUser f)
}.

Lemma callable_heard e E : callable E -> heard UEV_TIMEOUT e E = [call_of e E].
Proof. intros [Hp Hl [f Hf]]. unfold heard, cb_calls, call_of. by rewrite Hp, Hl, Hf. Qed.

Lemma call_back_wp s i e E cron (Q : unit -> ust -> Prop) :
  INV g iw s -> slot_at s i e E -> callable E -> pool s = None ->
  (forall s', called iw g s s' [call_of e E] -> Q tt s') ->
  wp (call_cb_if_exists record e cron) Q s.
Proof.
  intros I Hs Hc Hpool HQ. pose proof (ca_cb _ Hc) as [f Hcb].
  unfold call_cb_if_exists. apply wp_bind. eapply wp_ev_get_at; [done|].
  rewrite Hcb, bool_decide_true by done. cbn [when].
  eapply (handle_ev_recorded_wp g iw F); [done|exact Hs|by unfold drains; rewrite Hcb|done|].
  by rewrite callable_heard.
Qed.

(** ** Firing one timer *)

(** The events, whether or not their timers are armed. *)
Definition settled (m : gmap loc uevent_t) : gmap loc uevent_t := set_active_timer false <$> m.

Definition event_in (m : gmap loc uevent_t) e : uevent_t := default zero_event (m !! e).

(** The period of a persistent timer. *)
Definition period_of (m : gmap loc uevent_t) e : option Z :=
  let E := event_in m e in
  if internal_is_persist_timer E then Some (get_min_timeout_internal (timeout_ms E)) else None.

Lemma event_in_eq m e E : m !! e = Some E -> event_in m e = E.
Proof. intros H. unfold event_in. by rewrite H. Qed.

Lemma settled_event m e : set_active_timer false (event_in m e) = event_in (settled m) e.
Proof. unfold event_in, settled. rewrite lookup_fmap. by destruct (m !! e). Qed.

Lemma settled_period m m' e : settled m = settled m' -> period_of m e = period_of m' e.
Proof.
  intros H. assert (forall n, period_of n e = period_of (settled n) e) as Hn.
  { intros n. unfold period_of. by rewrite <- settled_event. }
  by rewrite Hn, H, <- Hn.
Qed.

Lemma settled_call m m' e : settled m = settled m' -> call_of e (event_in m e) = call_of e (event_in m' e).
Proof.
  intros H. assert (forall n, call_of e (event_in n e) = call_of e (event_in (settled n) e)) as Hn.
  { intros n. by rewrite <- settled_event. }
  by rewrite Hn, H, <- Hn.
Qed.

Lemma settled_insert m e E E' :
  m !! e = Some E -> set_active_timer false E' = set_active_timer false E -> settled (<[e := E']> m) = settled m.
Proof.
  intros He H. unfold settled. rewrite fmap_insert, H. apply insert_id. by rewrite lookup_fmap, He.
Qed.

Lemma period_pos m e t : period_of m e = Some t -> 0 < t.
Proof.
  unfold period_of, get_min_timeout_internal. destruct (internal_is_persist_timer _); [|done].
  intros [= <-]. destruct (Z.ltb_spec (timeout_ms (event_in m e)) 1); lia.
Qed.

Lemma period_range m e t : period_of m e = Some t -> timeout_ms (event_in m e) < 2 ^ 31 -> 0 < t < 2 ^ 31.
Proof.
  unfold period_of, get_min_timeout_internal. destruct (internal_is_persist_timer _); [|done].
  intros [= <-] H. destruct (Z.ltb_spec (timeout_ms (event_in m e)) 1); lia.
Qed.

Lemma deadline_exact k t : 0 <= k < 2 ^ 63 -> 0 < t < 2 ^ 31 -> deadline k t = k + t.
Proof.
  intros Hk Ht. unfold deadline. destruct (Z.leb_spec 0 t); [|lia].
  rewrite (wrap_small 32) by lia. apply wrap_small. lia.
Qed.

(** A timer that may fire: its event is callable and its timeout an [int]. *)
Definition sound_timer E : Prop := callable E /\ timeout_ms E < 2 ^ 31.

Lemma sound_settled E E' :
  set_active_timer false E' = set_active_timer false E -> sound_timer E -> sound_timer E'.
Proof.
  intros H [[H1 H2 H3] H4]. destruct E, E'. simpl in *. injection H as -> -> -> -> -> -> -> -> -> -> -> -> ->.
  split; [by constructor|done].
Qed.

(** What firing the timer of [e] at [k] leaves: [E] is as before up to its
    place in the heap, where it is one period later. *)
Record fired s s' e E k : Prop := {
  fr_inv : INV g iw s';
  fr_settled : settled (evs s') = settled (evs s);
  fr_timers : pq (nodes (timers s')) =
    match period_of (evs s) e with
    | Some t => <[e := k + t]> (pq (nodes (timers s)))
    | None => pq (nodes (timers s))
    end;
  fr_pool : pool s' = pool s;
  fr_running : running s' = running s;
  fr_log : log s' = log s ++ [call_of e E]
}.

Lemma fire_wp s i e E k (Q : unit -> ust -> Prop) :
  INV g iw s -> slot_at s i e E -> i <> iw -> sound_timer E -> 0 <= k < 2 ^ 63 ->
  pool s = None -> running s = true -> (forall s', fired s s' e E k -> Q tt s') ->
  wp (cron_persist_event_if_needed_internal_unsafe i k;; call_cb_if_exists record e k) Q s.
Proof.
  intros I Hs Hi [Hc Ht] Hk Hpool Hrun HQ. pose proof Hs as (u & Hu & Hue & He).
  assert (event_in (evs s) e = E) as HE by by apply event_in_eq.
  apply wp_bind, wp_mute; [eauto with moves|].
  unfold cron_persist_event_if_needed_internal_unsafe. apply wp_bind.
  eapply wp_slot_get; [done|]. rewrite Hue. apply wp_bind. eapply wp_ev_get; [done|].
  apply wp_bind, wp_gets. rewrite (ca_alive _ Hc), Hrun. cbn [orb negb].
  destruct (internal_is_persist_timer E) eqn:Hper; cbn [negb].
  - eapply insert_timer_to_heap_wp; [done|eapply few_le; [exact F|unfold bound; lia]|done..| |by intros].
    intros s1 [I1 K1 Hs1 _ _ _ _ P1 R1 O1] Hpq _ L1. set (E1 := set_active_timer true E) in *.
    assert (sound_timer E1) as [Hc1 _] by by apply (sound_settled E).
    eapply call_back_wp; [done..|congruence|]. intros s2 [I2 K2 V2 T2 P2 R2 L2].
    assert (period_of (evs s) e = Some (get_min_timeout_internal (timeout_ms E))) as Hp.
    { unfold period_of. by rewrite HE, Hper. }
    apply HQ. constructor; try congruence.
    + rewrite V2. destruct Hs1 as (u1 & _ & _ & He1). apply map_eq. intros x. unfold settled.
      rewrite !lookup_fmap. destruct (decide (x = e)) as [->|Hx]; [by rewrite He1, He|by rewrite O1].
    + rewrite T2, Hpq, Hp. rewrite deadline_exact; [done|done|]. apply (period_range (evs s) e); congruence.
    + by rewrite L2, L1.
  - apply wp_ret. intros _. eapply call_back_wp; [done..|]. intros s2 [I2 K2 V2 T2 P2 R2 L2].
    apply HQ. constructor; try congruence. rewrite T2. unfold period_of. by rewrite HE, Hper.
Qed.

(** ** The loop *)

(** The timers of the heap may fire, on a running base without workers. *)
Record ready s : Prop := {
  rd_pool : pool s = None;
  rd_running : running s = true;
  rd_timers : forall e k, pq (nodes (timers s)) !! e = Some k ->
    0 <= k < 2 ^ 64 /\ exists E, evs s !! e = Some E /\ sound_timer E
}.

Definition calls_of (m : gmap loc uevent_t) (l : list (loc * Z)) : list call :=
  (fun p => call_of p.1 (event_in m p.1)) <$> l.

(** The timers of [l] fired: [T] was armed before. *)
Record fired_all (T : gmap loc Z) now n s s' l : Prop := {
  fa_inv : INV g iw s';
  fa_ready : ready s';
  fa_settled : settled (evs s') = settled (evs s);
  fa_schedule : schedule (period_of (evs s)) now n T l (pq (nodes (timers s')));
  fa_log : log s' = log s ++ calls_of (evs s) l
}.

Lemma ready_fired s s1 s' e E k :
  ready s -> settled (evs s1) = settled (evs s) -> 
  pq (nodes (timers s1)) = delete e (pq (nodes (timers s))) -> pool s1 = pool s -> running s1 = running s ->
  pq (nodes (timers s)) !! e = Some k -> k < 2 ^ 63 -> fired s1 s' e E k ->
  ready s' /\ settled (evs s') = settled (evs s) /\
  pq (nodes (timers s')) = rearm (period_of (evs s)) e k (pq (nodes (timers s))).
Proof.
  intros [Hp Hr Ht] S1 Q1 P1 R1 He Hk63 [I' S' Q' P' R' L'].
  assert (pq (nodes (timers s')) = rearm (period_of (evs s)) e k (pq (nodes (timers s)))) as Hq.
  { rewrite Q', Q1, (settled_period _ (evs s)) by done. unfold rearm. by destruct (period_of _ _). }
  assert (settled (evs s') = settled (evs s)) as HS by congruence.
  assert (forall x X, evs s !! x = Some X -> sound_timer X -> exists X', evs s' !! x = Some X' /\ sound_timer X') as Hx.
  { intros x X H1 H2. assert (settled (evs s') !! x = Some (set_active_timer false X)) as H3.
    { rewrite HS. unfold settled. by rewrite lookup_fmap, H1. }
    unfold settled in H3. apply lookup_fmap_Some in H3 as (X' & H3 & H4). exists X'. split; [done|].
    by eapply sound_settled. }
  split_and!; [|done..]. constructor; [congruence..|]. intros x k'. rewrite Hq.
  destruct (Ht e k He) as (Hk & X & HX1 & HX2).
  intros [Hin|(-> & t & Hper & ->)]%rearm_lookup.
  - destruct (Ht _ _ Hin) as (Hk' & Y & HY1 & HY2). split; [done|]. by eapply Hx.
  - split; [|by eapply Hx]. apply period_range in Hper; [lia|]. rewrite (event_in_eq _ _ X) by done. apply HX2.
Qed.

(** After the earliest timer [e] is taken from the heap: the reference of the
    heap is given up, the event stays. *)
Record taken s s2 i e E tm : Prop := {
  tk_inv : INV g iw s2;
  tk_slot : slot_at s2 i e (set_active_timer false E);
  tk_evs : evs s2 = <[e := set_active_timer false E]> (evs s);
  tk_timers : timers s2 = tm;
  tk_pool : pool s2 = pool s;
  tk_running : running s2 = running s;
  tk_log : log s2 = log s
}.

Lemma taken_wp s i e E tm (Q : bool -> ust -> Prop) :
  INV g iw s -> slot_at s i e E -> pending_free E = false ->
  INV (gadd g i) iw (put_num_active_timers (num_active_timers s - 1)
    (put_evs (<[e := set_active_timer false E]> (evs s)) (put_timers tm s))) ->
  (forall s2, taken s s2 i e E tm -> Q false s2) ->
  wp (uevent_put (Some i)) Q (put_num_active_timers (num_active_timers s - 1)
    (put_evs (<[e := set_active_timer false E]> (evs s)) (put_timers tm s))).
Proof.
  intros I Hs Hp I1 HQ. set (s1 := put_num_active_timers _ _) in *.
  assert (slot_at s1 i e (set_active_timer false E)) as Hs1 by (by eapply (slot_at_insert s)).
  destruct (slot_at_facts _ _ _ _ _ _ I1 Hs1) as (_ & _ & _ & _ & Hi).
  apply wp_mute; [eauto with moves|].
  apply (uevent_put_wp (gadd g i) iw); [done| |rewrite gadd_eq; specialize (F i); lia|done|..].
  { apply few_up. eapply few_le; [exact F|unfold bound; lia]. }
  - intros s2 I2 K2 P2 R2 E2 T2 S2 L2. apply HQ. constructor; try done.
    + eapply INV_proper; [|done..|exact I2]. intros j. symmetry. apply gsub_gadd.
    + by apply S2.
  - intros s2 _ _ _ _ _ Hgone _ _ _ _. apply Hgone in Hs1. simpl in Hs1. congruence.
Qed.

(** The loop runs the schedule of the timers. *)
Lemma timers_loop_schedule max s now (Q : unit -> ust -> Prop) :
  INV g iw s -> ready s -> now < 2 ^ 63 ->
  (forall l s', fired_all (pq (nodes (timers s))) now max s s' l -> Q tt s') ->
  wp (timers_loop record max now) Q s.
Proof.
  intros I Hr Hn. revert s Q I Hr. induction max as [|max IH]; intros s Q I Hr HQ.
  { apply wp_ret, (HQ []). constructor; try done; [constructor|by rewrite app_nil_r]. }
  assert (forall T, (forall e k, pq (nodes (timers s)) !! e = Some k -> now < k) -> T = pq (nodes (timers s)) -> Q tt s) as Hidle.
  { intros T Hlate ->. apply (HQ []). constructor; try done; [by apply schedule_idle|by rewrite app_nil_r]. }
  assert (few g (2 ^ 20 - 2)) as F2 by (by apply bound_small).
  cbn [timers_loop]. apply wp_bind, wp_heap.
  assert (put_timers (timers s) s = s) as Hid by (by destruct s).
  eapply heap_min_wp; [done|rewrite Hid; intros H0; apply wp_ret; by eapply Hidle; [rewrite H0|]|].
  intros m nd Hnd (k0 & Hk0 & Hmin) Hk. rewrite Hid. apply wp_bind. eapply wp_heap_node_key; [done|].
  destruct (Z.ltb_spec now (MinHeap.key nd)) as [Hlt|Hdue].
  { apply wp_ret. eapply Hidle; [|done]. intros x k' Hx. apply Hmin in Hx. simplify_eq. lia. }
  apply wp_bind, wp_heap. eapply heap_extract_wp; [done|by intros H0; rewrite H0 in Hk|].
  intros e nd' tm Hnd' (k1 & Hk1 & Hmin') Hk' Hst Hpq Hkeys.
  assert (k1 = MinHeap.key nd' /\ k0 = MinHeap.key nd) as [-> ->] by (split; congruence).
  set (k := MinHeap.key nd') in *.
  assert (k <= now) as Hdue' by (specialize (Hmin' _ _ Hk); lia).
  apply wp_bind. assert (exists nd2, nodes tm !! e = Some nd2 /\ MinHeap.key nd2 = k) as (nd2 & Hnd2 & Hk2).
  { assert (keys (nodes tm) !! e = Some k) as H by (by rewrite Hkeys; unfold keys; rewrite lookup_fmap, Hnd').
    unfold keys in H. by apply lookup_fmap_Some in H as (nd2 & <- & H); exists nd2. }
  eapply wp_heap_node_key; [done|]. rewrite Hk2.
  destruct (rd_timers _ Hr _ _ Hk') as (Hk0' & E & He & Hc).
  destruct (proj1 (i_timer _ _ _ I e)) as (E' & He' & Ha); [eauto|]. rewrite He in He'. injection He' as <-.
  destruct (INV_expired iw g s e E tm I He Ha Hst Hpq) as (i & Hu & Hiw & Hi & Hs32 & I1).
  apply wp_bind. eapply wp_ev_get; [done|]. rewrite Hu.
  apply wp_bind, wp_ev_put, wp_bind, wp_modify. simpl. rewrite Hs32. apply wp_bind.
  eapply taken_wp; [done|by eapply slot_at_of_ev|apply Hc|done|].
  intros s2 [I2 Hs2 V2 T2 P2 R2 L2]. cbv iota. apply wp_seq_assoc, wp_bind.
  assert (settled (evs s2) = settled (evs s)) as S2.
  { rewrite V2. by apply (settled_insert _ _ E). }
  eapply fire_wp; [done|exact Hs2|done|by apply (sound_settled E)|lia| | |].
  { rewrite P2. apply Hr. }
  { rewrite R2. apply Hr. }
  intros s3 Hf. destruct (ready_fired s s2 s3 e _ k Hr S2 ltac:(by rewrite T2) P2 R2 Hk' ltac:(lia) Hf) as (Hr3 & S3 & Q3).
  destruct Hf as [I3 _ _ _ _ L3]. apply IH; [done..|]. intros l s4 [I4 R4 S4 H4 L4].
  apply (HQ ((e, k) :: l)). constructor; [done|done|congruence| |].
  - apply schedule_fire; [done..|]. rewrite <- Q3. eapply schedule_ext; [|exact H4].
    intros x. by apply settled_period.
  - rewrite L4, L3, L2, <- app_assoc. f_equal. simpl. f_equal; [by rewrite (event_in_eq _ _ E)|].
    apply list_fmap_ext. intros _ p _. by apply settled_call.
Qed.


Lemma handle_timers_schedule s now (Q : unit -> ust -> Prop) :
  INV g iw s -> ready s -> now = (k_time_ms (k_mutex_lock (kern s).1).2).1 -> now < 2 ^ 63 ->
  (forall l s', fired_all (pq (nodes (timers s))) now 500 s s' l -> Q tt s') ->
  wp (uevent_handle_timers record) Q s.
Proof.
  intros I Hr Hnow Hn HQ. apply wp_bind, wp_gets. rewrite (rd_running _ Hr). cbn [negb].
  apply wp_bind, wp_syscall_eq, wp_bind, wp_syscall_eq.
  change (k_time_ms (kern (put_kern (k_mutex_lock (kern s)).2 s))).1
    with (k_time_ms (k_mutex_lock (kern s).1).2).1.
  rewrite <- Hnow. apply timers_loop_schedule; [by apply INV_kern, INV_kern| |done|].
  - destruct Hr. by constructor.
  - intros l s' [H1 H2 H3 H4 H5]. apply (HQ l). by constructor.
Qed.

(** C4: on a running base without workers, whose timers may fire,
    [uevent_handle_timers] reads the time [now] and calls back the due timers in
    the order of their deadlines, none before its time and none ahead of one
    that was due earlier: a persistent timer at each of its deadlines, exactly
    one period apart however late the loop is, and then waits for the next;
    any other timer once, and it is disarmed; a timer that is not armed never.
    At most 500 calls are made, and when fewer were needed every timer that
    was due has fired.  The events and the invariant are as before. *)
Theorem uevent_timers_exact s now :
  INV g iw s -> ready s -> now = (k_time_ms (k_mutex_lock (kern s).1).2).1 -> now < 2 ^ 63 ->
  let T := pq (nodes (timers s)) in
  exists l s', uevent_handle_timers record s = Some (tt, s') /\ let T' := pq (nodes (timers s')) in
    INV g iw s' /\ settled (evs s') = settled (evs s) /\
    log s' = log s ++ calls_of (evs s) l /\
    StronglySorted Z.le l.*2 /\ Forall (fun k => k <= now) l.*2 /\
    (forall e k, T' !! e = Some k -> Forall (fun k' => k' <= k) l.*2) /\
    (forall e, fired_as (period_of (evs s) e) (T !! e) (firings e l) (T' !! e)) /\
    Z.of_nat (length l) <= 500 /\
    (Z.of_nat (length l) < 500 -> forall e k, T' !! e = Some k -> now < k).
Proof.
  intros I Hr Hnow Hn T.
  assert (wp (uevent_handle_timers record) (fun _ s' => exists l, fired_all T now 500 s s' l) s) as H
    by (apply (handle_timers_schedule s now); eauto).
  apply wp_run in H as ([] & s' & Hrun & l & [H1 _ H2 H3 H6]). exists l, s'. split; [done|].
  pose proof (period_pos (evs s)) as Hpos.
  split_and!; try done.
  - by eapply schedule_sorted.
  - by eapply schedule_due.
  - intros e k. by eapply schedule_earliest.
  - intros e. by eapply schedule_fired.
  - apply schedule_length in H3. lia.
  - intros Hl. eapply schedule_complete; [done|lia].
Qed.

End timers.

Section checked.
Context {K : Type}.
Implicit Types (s : @ust (@observed K)).

(** [ready], by computation. *)
Definition sound_at s (e : loc) (k : Z) : bool :=
  (0 <=? k) && (k <? 2 ^ 64) &&
  match evs s !! e with
  | Some E => negb (pending_free E) && negb (modification_lock E) && (timeout_ms E <? 2 ^ 31) &&
      match cb E with Some (CbUser _) => true | _ => false end
  | None => false
  end.

Lemma ready_checked s :
  pool s = None -> running s = true ->
  bool_decide (map_Forall (fun e k => sound_at s e k = true) (pq (nodes (timers s)))) = true -> ready s.
Proof.
  intros Hp Hr H%bool_decide_eq_true. constructor; [done..|]. intros e k Hk. specialize (H e k Hk).
  cbv beta in H. unfold sound_at in H. apply andb_prop in H as [H1 H2]. split; [lia|].
  destruct (evs s !! e) as [E|]; [|done]. exists E. split; [done|].
  destruct (cb E) as [[|f]|] eqn:Hcb; rewrite ?andb_false_r in H2; try done.
  apply andb_prop in H2 as [H2 _]. apply andb_prop in H2 as [[H2 H3]%andb_prop H4].
  split; [constructor|]; [by destruct (pending_free E)|by destruct (modification_lock E)|by exists f|lia].
Qed.

End checked.

(** ** The hypotheses hold: a timer every 50 ms, 200 ms later *)
Module TimersDemo.
Import World Demo.

#[local] Opaque run refs state.

Abbreviation seen := (@observed world).

Definition late : @ust seen :=
  put_kern (W 1200 false, []) (put_running true (@state seen observed_kernel 0 (calm, []))).

Definition held : Z -> Z := @refs seen observed_kernel 0 (calm, []).

Lemma INV_restarted g iw (s : @ust seen) b k : INV g iw s -> INV g iw (put_kern k (put_running b s)).
Proof. intros I. by eapply INV_frame. Qed.

Lemma late_inv : INV held 3 late.
Proof. unfold late, held. apply INV_restarted, state_inv. Qed.

Lemma late_ready : ready late.
Proof. apply ready_checked; vm_compute; reflexivity. Qed.

Lemma uevent_timers_exact_witness :
  let T := pq (nodes (timers late)) in
  exists l s', uevent_handle_timers record late = Some (tt, s') /\ let T' := pq (nodes (timers s')) in
    INV held 3 s' /\ settled (evs s') = settled (evs late) /\
    log s' = log late ++ calls_of (evs late) l /\
    StronglySorted Z.le l.*2 /\ Forall (fun k => k <= 1200) l.*2 /\
    (forall e k, T' !! e = Some k -> Forall (fun k' => k' <= k) l.*2) /\
    (forall e, fired_as (period_of (evs late) e) (T !! e) (firings e l) (T' !! e)) /\
    Z.of_nat (length l) <= 500 /\
    (Z.of_nat (length l) < 500 -> forall e k, T' !! e = Some k -> 1200 < k).
Proof.
  apply (uevent_timers_exact held 3 (state_few 0 (calm, [])) late 1200 late_inv late_ready);
    [vm_compute; reflexivity|lia].
Defined.

(** The times and arguments of the calls, and what remains. *)
Example late_run :
  (s ← uevent_handle_timers record late; Some (c_fun <$> log s.2, (map_to_list (pq (nodes (timers s.2)))).*2))
    = Some ([2; 2; 2; 2], [1250]).
Proof. vm_compute. reflexivity. Qed.
End TimersDemo.
