(* ===== verification/UeventEpoll.v ===== *)
(** * uevent: which descriptor events are called back

    [uevent_handle_epoll] of [src/uevent/uevent.c] without workers, with user
    callbacks that are recorded: the calls made for the slots and masks epoll
    reported, in their order, and which events it takes out of epoll. *)

From S2P Require Import Prelude.
From S2P Require Import MinHeap.
From S2P Require Import MinHeapInv.
From S2P Require Import MinHeapOps.
From S2P Require Import Uevent.
From S2P Require Import UeventInv.
From S2P Require Import UeventSteps.
From S2P Require Import UeventOps.
From S2P Require Import UeventAdd.
From S2P Require Import UeventApi.
From S2P Require Import UeventDel.
From S2P Require Import UeventMoves.
From S2P Require Import UeventLoop.
From S2P Require Import UeventSpec.
From S2P Require Import UeventRecord.
From S2P Require Import UeventTimers.
Import MinHeap (mst, mh, nodes, capacity, minheap_t, minheap_node_t).
Import Uevent.

(** ** What a report means *)

(** After a report of [mask], the event is taken out of epoll: a one-shot event
    to which one of the four descriptor events happened. *)
Definition leaves E (mask : Z) : bool :=
  active_fd E && internal_should_auto_del_fd E (convert_from_epoll_events mask) && negb (pending_free E).

(** The effect of a report on the events, the timers apart. *)
Definition report (m : gmap loc uevent_t) (p : loc * Z) : gmap loc uevent_t :=
  let E := event_in m p.1 in if leaves E p.2 then <[p.1 := set_active_fd false E]> m else m.

(** The calls of a report: none once the event has been taken out of epoll. *)
Definition answer (m : gmap loc uevent_t) (p : loc * Z) : list call :=
  let E := event_in m p.1 in
  if active_fd E then heard (convert_from_epoll_events p.2) p.1 E else [].

(** The calls of a sequence of reports. *)
Fixpoint hears (m : gmap loc uevent_t) (l : list (loc * Z)) : list call :=
  match l with
  | [] => []
  | p :: l => answer m p ++ hears (report m p) l
  end.

(** For one event: the masks that reach it of those reported, all of them or
    the first ones up to the one that takes it out of epoll. *)
Fixpoint delivered E (masks : list Z) : list Z :=
  match masks with
  | [] => []
  | x :: masks => if active_fd E then x :: (if leaves E x then [] else delivered E masks) else []
  end.

(** The masks reported for [e]. *)
Definition masks_of (e : loc) (l : list (loc * Z)) : list Z := (filter (fun p => p.1 = e) l).*2.

Lemma masks_cons e p l : masks_of e (p :: l) = (if decide (p.1 = e) then [p.2] else []) ++ masks_of e l.
Proof. unfold masks_of. rewrite filter_cons. by case_decide. Qed.

Lemma delivered_off E l : active_fd E = false -> delivered E l = [].
Proof. intros H. destruct l; simpl; [done|by rewrite H]. Qed.

Lemma report_event m p e :
  event_in (report m p) e =
    if decide (p.1 = e) then (if leaves (event_in m e) p.2 then set_active_fd false (event_in m e) else event_in m e)
    else event_in m e.
Proof.
  unfold report. case_decide as He; [subst|]; destruct (leaves _ _); try done; unfold event_in at 1.
  - by rewrite lookup_insert_eq.
  - by rewrite lookup_insert_ne.
Qed.

Lemma answer_cases m p : answer m p = [] \/ exists c, answer m p = [c] /\ c_ev c = p.1.
Proof.
  unfold answer, heard, cb_calls. destruct (active_fd _); [|by left]. destruct (_ || _); [by left|].
  destruct (cb _) as [[|f]|]; eauto.
Qed.

Lemma filter_answer m p e :
  filter (fun c => c_ev c = e) (answer m p) = if decide (p.1 = e) then answer m p else [].
Proof.
  destruct (answer_cases m p) as [->|(c & -> & <-)]; [by case_decide|]. exact (filter_singleton (fun c => c_ev c = e) c []).
Qed.

(** The calls of one event. *)
Lemma hears_event l m e :
  filter (fun c => c_ev c = e) (hears m l) =
    mjoin ((fun x => heard (convert_from_epoll_events x) e (event_in m e)) <$> delivered (event_in m e) (masks_of e l)).
Proof.
  revert m. induction l as [|p l IH]; intros m; [done|].
  cbn [hears]. rewrite filter_app, filter_answer, IH, report_event, masks_cons. unfold answer.
  case_decide as He; [subst|done]. cbn [app delivered].
  set (E := event_in m p.1). destruct (active_fd E) eqn:Ha.
  - rewrite fmap_cons. cbn [mjoin list_join]. f_equal. destruct (leaves E p.2); [|done].
    by rewrite delivered_off.
  - unfold leaves. rewrite Ha. cbn [andb]. by rewrite delivered_off.
Qed.

(** ** The timers apart *)

Lemma event_settled m e : event_in (settled m) e = set_active_timer false (event_in m e).
Proof. symmetry. apply settled_event. Qed.

Lemma answer_settled m p : answer (settled m) p = answer m p.
Proof. unfold answer. by rewrite event_settled. Qed.

Lemma report_settled m p : report (settled m) p = settled (report m p).
Proof.
  unfold report. rewrite event_settled. change (leaves (set_active_timer false ?E)) with (leaves E).
  destruct (leaves _ _); [|done]. unfold settled. rewrite fmap_insert. f_equal.
Qed.

Lemma reports_settled l m : foldl report (settled m) l = settled (foldl report m l).
Proof. revert m. induction l as [|p l IH]; intros m; [done|]. simpl. by rewrite report_settled, IH. Qed.

Lemma hears_settled l m : hears (settled m) l = hears m l.
Proof. revert m. induction l as [|p l IH]; intros m; [done|]. simpl. by rewrite answer_settled, report_settled, IH. Qed.

Lemma hears_app l1 l2 m : hears m (l1 ++ l2) = hears m l1 ++ hears (foldl report m l1) l2.
Proof. revert m. induction l1 as [|p l1 IH]; intros m; [done|]. simpl. by rewrite IH, app_assoc. Qed.

Lemma listening_settled m e : active_fd (event_in (settled m) e) = active_fd (event_in m e).
Proof. by rewrite event_settled. Qed.

Lemma report_down m p e : active_fd (event_in m e) = false -> active_fd (event_in (report m p) e) = false.
Proof. intros H. rewrite report_event. case_decide; [|done]. by destruct (leaves _ _). Qed.

Lemma reports_down l m e : active_fd (event_in m e) = false -> active_fd (event_in (foldl report m l) e) = false.
Proof. revert m. induction l as [|p l IH]; intros m H; [done|]. by apply IH, report_down. Qed.

Section epoll.
Context {K : Type} {Kern : Kernel K} {Kok : KernelOk K}.
Implicit Types (s : @ust (@observed K)) (E : uevent_t) (e : loc) (i : Z).
Variable g : Z -> Z.
Variable iw : Z.
Hypothesis F : few g bound.

(** ** One report *)

(** The reports [l] were answered. *)
Record told s s' (l : list (loc * Z)) : Prop := {
  td_inv : INV g iw s';
  td_keep : forall g', keep g' s s';
  td_settled : settled (evs s') = settled (foldl report (evs s) l);
  td_timers : forall e, pq (nodes (timers s')) !! e = pq (nodes (timers s)) !! e \/
    pq (nodes (timers s')) !! e = None /\
    active_fd (event_in (evs s) e) = true /\ active_fd (event_in (evs s') e) = false;
  td_pool : pool s' = pool s;
  td_running : running s' = running s;
  td_log : log s' = log s ++ hears (evs s) l
}.

Lemma told_none s : INV g iw s -> told s s [].
Proof. intros I. constructor; try done; [intros; apply keep_refl|by left|by rewrite app_nil_r]. Qed.

Lemma told_down s s' l e : told s s' l -> active_fd (event_in (evs s) e) = false -> active_fd (event_in (evs s') e) = false.
Proof.
  intros D H. rewrite <- listening_settled, (td_settled _ _ _ D), listening_settled. by apply reports_down.
Qed.

Lemma told_trans s s1 s2 l1 l2 : told s s1 l1 -> told s1 s2 l2 -> told s s2 (l1 ++ l2).
Proof.
  intros D1 D2. pose proof D1 as [I1 K1 S1 T1 P1 R1 L1]. pose proof D2 as [I2 K2 S2 T2 P2 R2 L2].
  constructor; try congruence.
  - intros g'. by apply (keep_trans _ g' _ s1).
  - by rewrite S2, foldl_app, <- reports_settled, S1, reports_settled.
  - intros e. pose proof (told_down _ _ _ e D2) as Hd.
    destruct (T1 e) as [H1|(H1 & A1 & B1)], (T2 e) as [H2|(H2 & A2 & B2)]; rewrite ?H2, ?H1; auto.
    right. split_and!; try done. destruct (active_fd (event_in (evs s) e)) eqn:Hs; [done|].
    rewrite (told_down _ _ _ e D1 Hs) in A2. done.
  - rewrite L2, L1, hears_app, <- app_assoc. do 2 f_equal.
    by rewrite <- hears_settled, S1, hears_settled.
Qed.

(** A slot and mask of epoll, and the event of the slot. *)
Definition refers s (p q : Z * Z) : Prop :=
  p.2 = q.2 /\ exists u, znth (slots s) p.1 = Some u /\ ev u = Some q.1.

Lemma refers_keep s s' p q : (forall g', keep g' s s') -> refers s p q -> refers s' p q.
Proof.
  intros HK [H1 (u & H2 & H3)]. split; [done|]. destruct (HK (fun _ => 1)) as [_ H]. by apply (H _ u); try lia.
Qed.

Lemma refers_slot s p q : INV g iw s -> refers s p q -> slot_at s p.1 q.1 (event_in (evs s) q.1).
Proof.
  intros I [_ (u & Hu & He)]. destruct (i_used _ _ _ I _ _ _ Hu He) as (E & HE & _).
  exists u. by rewrite (event_in_eq _ _ E).
Qed.

(** The wake-up event is persistent. *)
Lemma wake_stays s i e E trig : INV g iw s -> slot_at s i e E -> internal_should_auto_del_fd E trig = true -> i <> iw.
Proof.
  intros I Hs Hl ->. destruct (wake_slot _ _ _ I) as (W & HW & _ & Hp).
  destruct HW as (? & A1 & A2 & A3), Hs as (? & B1 & B2 & B3). simplify_eq.
  unfold internal_should_auto_del_fd in Hl. by rewrite Hp, andb_false_r in Hl.
Qed.

(** The removal of a one-shot event after its callback; an event that is being
    freed stays as it is. *)
Lemma leave_wp s i e E mask (Q : Z -> ust -> Prop) :
  INV g iw s -> slot_at s i e E -> active_fd E = true ->
  internal_should_auto_del_fd E (convert_from_epoll_events mask) = true ->
  (forall r s', INV g iw s' -> (forall g', keep g' s s') -> settled (evs s') = settled (report (evs s) (e, mask)) ->
     (forall x, pq (nodes (timers s')) !! x = pq (nodes (timers s)) !! x \/
        pq (nodes (timers s')) !! x = None /\ x = e /\ active_fd (event_in (evs s') x) = false) ->
     pool s' = pool s -> running s' = running s -> log s' = log s -> Q r s') ->
  wp (uevent_del (Some i)) Q s.
Proof.
  intros I Hs Ha Hl HQ. destruct (slot_at_facts _ _ _ _ _ _ I Hs) as (_ & _ & _ & _ & Hi).
  pose proof Hs as (u & _ & _ & He). assert (event_in (evs s) e = E) as HE by by apply event_in_eq.
  apply wp_mute; [eauto with moves|].
  eapply uevent_del_wp; [done|by apply bound_small|done|by eapply wake_stays|].
  intros r s' [I' _ R'] K' P' Hpost L'. unfold report in HQ. cbn [fst snd] in HQ. rewrite HE in HQ.
  unfold leaves in HQ. rewrite Ha, Hl in HQ.
  destruct Hpost as [Hd ->| e0 E0 E' G1 G2 G3 G4 G5 G6 G7 _ G8 G9].
  { destruct (pending_free E) eqn:Hp; [|destruct Hd; by exists e, E].
    apply HQ; try done. by left. }
  assert (e0 = e /\ E0 = E) as [-> ->].
  { destruct Hs as (? & A1 & A2 & A3), G1 as (? & B1 & B2 & B3). by simplify_eq. }
  rewrite G2 in HQ. apply HQ; try done.
  - rewrite G9, G8. unfold settled. cbn [andb negb]. by rewrite !fmap_insert.
  - intros x. destruct (_ && _) in G7; destruct G7 as [_ ->]; [|by left]. destruct (decide (x = e)) as [->|Hx].
    + right. rewrite lookup_delete_eq, G9. unfold event_in. by rewrite lookup_insert_eq.
    + left. by rewrite lookup_delete_ne.
Qed.

Lemma report_wp s p q l (Q : unit -> ust -> Prop) :
  INV g iw s -> refers s p q -> pool s = None ->
  (forall s', told s s' [q] -> wp (handle_epoll_loop record l) Q s') ->
  wp (handle_epoll_loop record (p :: l)) Q s.
Proof.
  intros I Hr Hpool HQ. pose proof (refers_slot _ _ _ I Hr) as Hs. destruct Hr as [Hm _].
  destruct p as [i mask], q as [e mask']. cbn [fst snd] in *. subst mask'.
  set (E := event_in (evs s) e) in *. set (trig := convert_from_epoll_events mask) in *.
  cbn [handle_epoll_loop]. apply wp_bind. eapply wp_slot_ev_at; [done|].
  apply wp_bind. eapply wp_ev_get_at; [done|]. apply wp_bind.
  destruct (active_fd E) eqn:Ha; cbn [negb].
  2: { apply wp_ret, HQ. destruct (told_none _ I) as [H1 H2 _ H4 H5 H6 _].
    constructor; try done; cbn [foldl hears]; unfold report, leaves, answer; cbn [fst snd]; fold E; rewrite Ha;
      [done|by rewrite app_nil_r]. }
  apply wp_bind. eapply (handle_ev_recorded_wp g iw F); [done|exact Hs|by intros _|done|].
  intros s1 C1. pose proof (called_slot _ _ _ _ _ _ _ _ C1 Hs) as Hs1. destruct C1 as [I1 K1 V1 T1 P1 R1 L1].
  assert (hears (evs s) [(e, mask)] = heard trig e E) as HA.
  { cbn [hears]. unfold answer. cbn [fst snd]. fold E. by rewrite Ha, app_nil_r. }
  apply wp_bind. eapply wp_ev_get_at; [done|]. fold trig. destruct (internal_should_auto_del_fd E trig) eqn:Hd; cbn [when].
  - apply wp_bind. eapply (leave_wp s1 i e E mask); [done..|].
    intros r s2 I2 K2 S2 T2 P2 R2 L2. apply wp_ret, HQ. constructor; try congruence.
    + intros g'. by apply (keep_trans _ g' _ s1).
    + by rewrite S2, V1.
    + intros x. destruct (T2 x) as [->|(-> & -> & H)]; rewrite ?T1; [by left|by right].
    + by rewrite L2, L1, HA.
  - apply wp_ret, HQ. constructor; try congruence.
    + done.
    + rewrite V1. cbn [foldl]. unfold report, leaves. cbn [fst snd]. fold E trig. by rewrite Hd, andb_false_r.
    + intros x. rewrite T1. by left.
    + by rewrite L1, HA.
Qed.

(** ** The loop *)

Lemma handle_epoll_told l r s (Q : unit -> ust -> Prop) :
  INV g iw s -> Forall2 (refers s) l r -> pool s = None -> (forall s', told s s' r -> Q tt s') ->
  wp (handle_epoll_loop record l) Q s.
Proof.
  intros I Hl Hp. revert s Q I Hp Hl. revert r. induction l as [|p l IH]; intros r s Q I Hp Hl HQ.
  - apply Forall2_nil_inv_l in Hl as ->. by apply wp_ret, HQ, told_none.
  - apply Forall2_cons_inv_l in Hl as (q & r' & Hr & Hl & ->). eapply report_wp; [done..|].
    intros s1 D1. pose proof D1 as [I1 K1 _ _ P1 _ _]. apply (IH r'); [done|congruence| |].
    + eapply Forall2_impl; [done|]. intros p' q' ?. by eapply refers_keep.
    + intros s2 D2. apply HQ. by apply (told_trans s s1 s2 [q]).
Qed.

(** C7: on a running base without workers, for the slots and masks [l] that epoll
    reported (the events [r] and their masks), [uevent_handle_epoll] makes
    exactly the calls of [hears], in the order of the reports.  For each event
    these are the calls for the masks delivered to it, each with the mask
    converted to the library's: a persistent event gets every mask reported, a
    one-shot event those up to the first with a descriptor event, which takes it
    out of epoll, callback or not; an event that is not registered, that is
    being freed or whose lock another thread holds gets no call.  The events are
    otherwise as before, and no timer changes but the one of an event that was
    taken out of epoll, which may be disarmed. *)
Theorem uevent_epoll_exact s l r :
  INV g iw s -> Forall2 (refers s) l r -> pool s = None -> running s = true ->
  exists s', uevent_handle_epoll record l s = Some (tt, s') /\
    INV g iw s' /\ running s' = true /\ pool s' = None /\
    log s' = log s ++ hears (evs s) r /\
    (forall e, filter (fun c => c_ev c = e) (hears (evs s) r) =
       mjoin ((fun x => heard (convert_from_epoll_events x) e (event_in (evs s) e)) <$>
         delivered (event_in (evs s) e) (masks_of e r))) /\
    settled (evs s') = settled (foldl report (evs s) r) /\
    (forall e, pq (nodes (timers s')) !! e = pq (nodes (timers s)) !! e \/
       pq (nodes (timers s')) !! e = None /\
       active_fd (event_in (evs s) e) = true /\ active_fd (event_in (evs s') e) = false).
Proof.
  intros I Hl Hp Hr.
  assert (wp (uevent_handle_epoll record l) (fun _ s' => told s s' r) s) as H.
  { apply wp_bind, wp_gets. rewrite Hr. cbn [negb]. by eapply handle_epoll_told. }
  apply wp_run in H as ([] & s' & Hrun & [H1 H2 H3 H4 H5 H6 H7]). exists s'.
  split_and!; try done; try congruence. intros e. apply hears_event.
Qed.
End epoll.

(** ** The hypotheses hold: a one-shot event reported twice, and the wake-up event *)
Module EpollDemo.
Import World Demo TimersDemo.

#[local] Opaque run refs state.

Definition reader : loc := match znth (slots late) 2 with Some (Uev (Some e) _) => e | _ => 0 end.

Definition reported_slots : list (Z * Z) := [(2, EPOLLIN); (3, EPOLLIN); (2, Z.lor EPOLLIN EPOLLHUP)].
Definition reported_events : list (loc * Z) :=
  [(reader, EPOLLIN); (wakeup_event, EPOLLIN); (reader, Z.lor EPOLLIN EPOLLHUP)].

Lemma reports_refer : Forall2 (refers late) reported_slots reported_events.
Proof.
  repeat constructor; eexists; (split; [vm_compute; reflexivity|vm_compute; reflexivity]).
Qed.

Lemma uevent_epoll_exact_witness : exists s',
  uevent_handle_epoll record reported_slots late = Some (tt, s') /\
    INV held 3 s' /\ running s' = true /\ pool s' = None /\
    log s' = log late ++ hears (evs late) reported_events /\
    (forall e, filter (fun c => c_ev c = e) (hears (evs late) reported_events) =
       mjoin ((fun x => heard (convert_from_epoll_events x) e (event_in (evs late) e)) <$>
         delivered (event_in (evs late) e) (masks_of e reported_events))) /\
    settled (evs s') = settled (foldl report (evs late) reported_events) /\
    (forall e, pq (nodes (timers s')) !! e = pq (nodes (timers late)) !! e \/
       pq (nodes (timers s')) !! e = None /\
       active_fd (event_in (evs late) e) = true /\ active_fd (event_in (evs s') e) = false).
Proof.
  apply (uevent_epoll_exact held 3 (state_few 0 (calm, [])) late reported_slots reported_events late_inv reports_refer);
    vm_compute; reflexivity.
Defined.

(** One call, for the first report of the one-shot event. *)
Example epoll_run :
  (s ← uevent_handle_epoll record reported_slots late; Some ((fun c => (c_fun c, c_fd c, c_trig c)) <$> log s.2))
    = Some [(1, 5, UEV_READ)].
Proof. vm_compute. reflexivity. Qed.
End EpollDemo.
