(* ===== verification/UeventPool.v ===== *)
(** * uevent: the steps of the worker pool, with recorded callbacks

    What firing an event into the pool of [src/uevent/uevent_worker.c] does, and
    what each step of a worker's turn does: taking a task, processing it and
    letting go of its event. *)

From S2P Require Import Prelude.
From S2P Require Import MinHeap.
From S2P Require Import MinHeapInv.
From S2P Require Import MinHeapOps.
From S2P Require Import Uevent.
From S2P Require Import UeventInv.
From S2P Require Import UeventSteps.
From S2P Require Import UeventOps.
From S2P Require Import UeventAdd.
From S2P Require Import UeventApi.
From S2P Require Import UeventDel.
From S2P Require Import UeventMoves.
From S2P Require Import UeventLoop.
From S2P Require Import UeventWorker.
From S2P Require Import UeventWorkerInv.
From S2P Require Import UeventSpec.
From S2P Require Import UeventRecord.
From S2P Require Import UeventTimers.
Import MinHeap (mst, mh, nodes, capacity, minheap_t, minheap_node_t).
Import Uevent UeventWorker.

Section rules.
Context {K : Type} {Kern : Kernel K} {Kok : KernelOk K}.
Implicit Types (s : @ust (@observed K)) (E : uevent_t) (e : loc) (i : Z) (t : uevent_task_t).
Variables extra debug : bool.
Variable g : Z -> Z.
Variable iw : Z.
Hypothesis F : few g bound.

Lemma moves_pop (R : @observed K -> @observed K -> Prop) {HR : Steady R} :
  moves R (wait_and_pop_task extra debug).
Proof. unfold wait_and_pop_task, try_spawn_extra_worker, change_pool, the_pool. moves_tac. Qed.

Lemma moves_release (R : @observed K -> @observed K -> Prop) {HR : Steady R} t : moves R (release_task t).
Proof.
  unfold release_task, slot_get, ev_get, ev_put, uevent_put_. moves_tac.
Qed.

Lemma moves_insert (R : @observed K -> @observed K -> Prop) {HR : Steady R} i trig cron :
  moves R (uevent_worker_pool_insert i trig cron).
Proof.
  unfold uevent_worker_pool_insert, uevent_ref, slot_ev, slot_get, slot_put, ev_get, ev_put. moves_tac.
Qed.
#[local] Hint Resolve moves_pop moves_release moves_insert : moves.

(** ** Firing into the pool *)

(** The event may be queued: something was triggered, it is not being freed and
    has a callback. *)
Definition wanted E trig : bool := negb (trig =? 0) && negb (pending_free E) && bool_decide (is_Some (cb E)).

(** What firing [e] into the pool [q] does. *)
Record offered s s' e E q t : Prop := {
  of_inv : INV g iw s';
  of_keep : forall g', keep g' s s';
  of_running : running s' = running s;
  of_log : log s' = log s;
  of_cases : 
    pool s' = Some q /\ evs s' = evs s /\
      (wanted E (triggered_events t) = false \/ is_in_worker_pool E = true \/ exists k : K, (k_alloc RTask k).1 = false) \/
    wanted E (triggered_events t) = true /\ is_in_worker_pool E = false /\
      evs s' = <[e := set_is_in_worker_pool true E]> (evs s) /\
      exists q', pool s' = Some q' /\ task_queue q' = task_queue q ++ [t] /\ total_workers q' = total_workers q
}.

Lemma offered_none s e E q t :
  INV g iw s -> pool s = Some q -> wanted E (triggered_events t) = false -> offered s s e E q t.
Proof. intros I Hq Hw. constructor; try done; [intros; apply keep_refl|left]. split_and!; auto. Qed.

Lemma offered_kern s s' k e E q t : k.2 = log s -> offered (put_kern k s) s' e E q t -> offered s s' e E q t.
Proof. intros Hk [H1 H2 H3 H4 H5]. constructor; try done. by rewrite H4. Qed.

Lemma insert_offered_wp s i e E trig cron q (Q : unit -> ust -> Prop) :
  INV g iw s -> slot_at s i e E -> pending_free E = false -> trig <> 0 -> is_Some (cb E) ->
  pool s = Some q -> running s = true ->
  (forall s', offered s s' e E q (Task i cron trig) -> Q tt s') ->
  wp (dispatch_event_callback record i trig cron) Q s.
Proof.
  intros I Hs Hp Ht Hc Hq Hr HQ. assert (few g (2 ^ 20 - 1)) as F1 by (eapply few_le; [exact F|unfold bound; lia]).
  assert (wanted E trig = true) as Hw.
  { unfold wanted. rewrite Hp, bool_decide_true by done. by apply Z.eqb_neq in Ht as ->. }
  destruct (slot_at_facts _ _ _ _ _ _ I Hs) as (_ & Hb & _ & _ & Hi).
  unfold dispatch_event_callback. apply wp_bind, wp_mute; [eauto with moves|].
  apply (uevent_try_ref_wp g iw); [done|eapply few_le; [exact F1|lia]|done| |].
  { intros []. by exists e, E. }
  intros s1 e1 E1 I1 K1 Hs1 Hs' Hp' P1 R1 T1 V1 L1.
  destruct Hs as (u & Hu & Hue & He), Hs' as (u' & Hu' & Hue' & He'). simplify_eq.
  apply wp_bind. eapply wp_slot_ev_at; [done|]. apply wp_bind. eapply wp_ev_get_at; [done|].
  apply wp_bind, wp_gets, wp_bind, wp_gets. rewrite P1, Hq, R1, Hr, Hb. cbn [andb negb].
  rewrite bool_decide_true by done.
  apply wp_bind, wp_mute; [eauto with moves|].
  eapply (uevent_worker_pool_insert_wp iw); [done|by apply few_up|done|by rewrite P1|].
  intros s2 E2 St Hs2 Hp2 (R2 & V2 & Hcase) L2. apply wp_mute; [unfold uevent_put_; moves_tac|].
  pose proof St as [[I2 _ _] K2 _].
  eapply (uevent_put__wp g iw); [done..| |].
  { by rewrite (keep_len _ _ _ (K2 g)), (keep_len _ _ _ (K1 g)). }
  intros s3 I3 K3 P3 R3 H3 _ _ L3. destruct (H3 _ _ Hs2) as (_ & T3 & K3' & V3); [left; congruence|].
  apply HQ. constructor; [done| |congruence|congruence|].
  - intros g'. apply (keep_trans _ g' _ s1); [apply K1| |done]. by apply (keep_trans _ g' _ s2); [apply K2|apply K3'|].
  - rewrite P3, V3, V2, V1. destruct Hcase as [(A1 & -> & A2)|(A1 & -> & A2)].
    + left. split_and!; [congruence|by rewrite insert_id|]. destruct A2 as [A2|[k A2]]; [auto|by right; right; exists k.1].
    + by right.
Qed.

(** Firing an event into the pool. *)
Lemma pool_fire_wp s i e E trig cron q (Q : unit -> ust -> Prop) :
  INV g iw s -> slot_at s i e E -> pool s = Some q -> running s = true ->
  (forall s', offered s s' e E q (Task i cron trig) -> Q tt s') ->
  wp (uevent_handle_ev_cb record (Some e) trig cron) Q s.
Proof.
  intros I Hs Hq Hr HQ. destruct (slot_at_facts _ _ _ _ _ _ I Hs) as (Hu & _).
  assert (forall s1, offered s s1 e E q (Task i cron trig) -> wp (mret tt) Q s1) as Hret by (intros; by apply wp_ret, HQ).
  unfold uevent_handle_ev_cb. destruct (Z.eqb_spec trig 0) as [->|Ht]; [by apply Hret, offered_none|].
  apply wp_bind. eapply wp_ev_get_at; [done|]. rewrite Hu.
  destruct (pending_free E) eqn:Hp.
  { apply Hret, offered_none; [done..|]. unfold wanted. by rewrite Hp, andb_false_r. }
  assert (forall k, k.2 = log s ->
    wp (when (bool_decide (is_Some (cb E))) (dispatch_event_callback record i trig cron)) Q (put_kern k s)) as Hgo.
  { intros k Hk. pose proof (INV_kern _ _ _ k I) as Ik. destruct (bool_decide_reflect (is_Some (cb E))) as [Hc|Hc]; cbn [when].
    - eapply insert_offered_wp; [done|exact Hs|done..|]. intros s' O. by apply HQ, (offered_kern _ _ k).
    - apply wp_ret, HQ, (offered_kern _ _ k); [done|]. apply offered_none; [done..|].
      unfold wanted. by rewrite (bool_decide_false _ Hc), andb_false_r. }
  apply wp_bind. destruct (has trig UEV_TIMEOUT); cbn [when].
  - apply wp_bind, wp_mute; [eauto with moves|]. apply wp_syscall. intros now k Hk. by apply wp_ret, Hgo.
  - apply wp_ret. replace s with (put_kern (kern s) s) by (by destruct s). by apply Hgo.
Qed.
(** ** The steps of a worker *)

(** The queue is as it was; there are more workers at most. *)
Definition grown s s' : Prop :=
  exists q q', pool s = Some q /\ pool s' = Some q' /\ task_queue q' = task_queue q /\
    total_workers q <= total_workers q' <= Z.max (total_workers q) most_workers.

Lemma grown_eq s s' q : pool s = Some q -> pool s' = pool s -> grown s s'.
Proof. intros Hq E. exists q, q. split_and!; try congruence; lia. Qed.

(** The calls [cs] were made by a worker. *)
Record worked (g' : Z -> Z) s s' (cs : list call) : Prop := {
  wd_inv : INV g' iw s';
  wd_keep : forall g', keep g' s s';
  wd_evs : evs s' = evs s;
  wd_running : running s' = running s;
  wd_pool : grown s s';
  wd_log : log s' = log s ++ cs
}.

Lemma worked_called g' s s' cs q : pool s = Some q -> called iw g' s s' cs -> worked g' s s' cs.
Proof. intros Hq [H1 H2 H3 H4 H5 H6 H7]. constructor; try done. by eapply grown_eq. Qed.

Lemma worked_slot g' s s' cs i e E : worked g' s s' cs -> slot_at s i e E -> slot_at s' i e E.
Proof.
  intros W (u & Hu & Hue & He). destruct (wd_keep _ _ _ _ W (fun _ => 1)) as [_ H].
  destruct (H i u e ltac:(lia) Hu Hue) as (u' & Hu' & Hue'). exists u'. by rewrite (wd_evs _ _ _ _ W).
Qed.

Lemma worked_trans g1 g2 s s1 s2 c1 c2 : worked g1 s s1 c1 -> worked g2 s1 s2 c2 -> worked g2 s s2 (c1 ++ c2).
Proof.
  intros [I1 K1 V1 R1 P1 L1] [I2 K2 V2 R2 P2 L2]. constructor; [done| |congruence|congruence| |].
  - intros g'. by apply (keep_trans _ g' _ s1).
  - destruct P1 as (q & q1 & A1 & A2 & A3 & A4), P2 as (q1' & q2 & B1 & B2 & B3 & B4). simplify_eq.
    exists q, q2. split_and!; try congruence; lia.
  - by rewrite L2, L1, app_assoc.
Qed.

(** An extra worker may be started. *)
Lemma spawn_recorded_wp g' (b : bool) s q (Q : unit -> ust -> Prop) :
  INV g' iw s -> pool s = Some q -> 0 <= total_workers q <= most_workers ->
  (forall s', worked g' s s' [] -> Q tt s') ->
  wp (when b (try_spawn_extra_worker extra)) Q s.
Proof.
  intros I Hq Hn HQ. destruct b; cbn [when]; [|by eapply wp_ret, HQ, worked_called, called_none].
  apply wp_mute; [unfold try_spawn_extra_worker, change_pool, the_pool; moves_tac|].
  eapply try_spawn_wp; [done|unfold most_workers in *; lia|]. intros s' n Hs' Hcap L.
  assert (INV g' iw s') as I' by by eapply pool_only_INV. destruct Hs' as (k & ->).
  apply HQ. constructor; try done; [intros; by apply keep_same| |by rewrite app_nil_r].
  pose proof (most_workers_bound (num_workers q)). exists q, (set_total_workers n q).
  split_and!; try done; simpl; lia.
Qed.

(** The calls of a task. *)
Definition speaks t e E : list call :=
  if pending_free E || modification_lock E then [] else cb_calls (triggered_events t) e E.

Lemma process_recorded_wp s t e E q (Q : unit -> ust -> Prop) :
  INV g iw s -> slot_at s (task_uev t) e E -> pending_free E = false -> pool s = Some q ->
  0 <= total_workers q <= most_workers -> (forall s', worked g s s' (speaks t e E) -> Q tt s') ->
  wp (process_worker_task record extra debug t) Q s.
Proof.
  intros I Hs Hp Hq Hn HQ. set (i := task_uev t) in *.
  assert (few g (2 ^ 20 - 1)) as F1 by (eapply few_le; [exact F|unfold bound; lia]).
  destruct (slot_at_facts _ _ _ _ _ _ I Hs) as (_ & Hb & Hw & _ & Hi).
  unfold process_worker_task. cbn zeta. fold i. apply wp_bind, wp_mute; [eauto with moves|].
  apply (uevent_try_ref_wp g iw); [done|eapply few_le; [exact F1|lia]|done| |].
  { intros []. by exists e, E. }
  intros s1 e1 E1 I1 K1 Hs1 Hs' Hp' P1 R1 T1 V1 L1.
  destruct Hs as (u & Hu & Hue & He), Hs' as (u' & Hu' & Hue' & He'). simplify_eq.
  assert (called iw (gadd g i) s s1 []) as C1 by (constructor; try done; by rewrite app_nil_r).
  assert (forall s2, worked (gadd g i) s s2 (speaks t e E) -> wp (uevent_put_ i) Q s2) as Hend.
  { intros s2 W2. pose proof (worked_slot _ _ _ _ i e E W2 ltac:(by exists u)) as Hs2.
    pose proof W2 as [I2 K2 V2 R2 P2 L2]. apply wp_mute; [unfold uevent_put_; moves_tac|].
    eapply (uevent_put__wp g iw); [done..|by rewrite (keep_len _ _ _ (K2 g))|].
    intros s3 I3 K3 P3 R3 H3 _ _ L3. destruct (H3 _ _ Hs2 (or_introl Hp)) as (_ & T3 & K3' & V3).
    apply HQ. constructor; [done| |congruence|congruence| |congruence].
    - intros g'. by apply (keep_trans _ g' _ s2); [apply K2|apply K3'|].
    - destruct P2 as (q1 & q2 & A1 & A2 & A3). exists q1, q2. by rewrite P3. }
  apply (worked_called _ _ _ _ q) in C1; [|done]. pose proof Hs1 as (u1 & Hu1 & Hue1 & He1).
  apply wp_bind. eapply wp_slot_get; [done|]. rewrite Hue1. apply wp_bind. eapply wp_ev_get; [done|].
  unfold speaks in Hend. rewrite Hp in *. rewrite orb_false_r. cbn [orb] in Hend.
  destruct (bool_decide_reflect (is_Some (cb E))) as [Hc|Hc]; cbn [negb].
  2: { apply Hend. unfold cb_calls. apply eq_None_not_Some in Hc as ->. by destruct (modification_lock E). }
  apply wp_bind, wp_mute; [eauto with moves|]. apply wp_syscall. intros start k Lk. cbn zeta. rewrite Hw.
  assert (worked (gadd g i) s (put_kern k s1) []) as Ck.
  { destruct C1 as [H1 H2 H3 H4 H5 H6]. constructor; try done; [by apply INV_kern|]. rewrite Lk. exact H6. }
  set (s1' := put_kern k s1) in *.
  assert (forall s2, worked (gadd g i) s s2 [] ->
    wp (uevent_user_cb_wrapper record e (fd E) (triggered_events t) (cb E) (arg E);; uevent_put_ i) Q s2) as Hgo.
  { intros s2 W2. pose proof (worked_slot _ _ _ _ i e E W2 ltac:(by exists u)) as Hs2.
    destruct (wd_pool _ _ _ _ W2) as (_ & q2 & _ & Hq2 & _).
    apply wp_bind. eapply (wrapper_recorded_wp iw); [apply W2|done|by intros _|].
    intros s3 C3. apply Hend. apply (worked_trans (gadd g i) _ _ s2 _ [] _ W2). by eapply worked_called. }
  apply wp_bind. destruct (negb (cron_time t =? 0)); cbn [when]; [|by apply wp_ret, Hgo].
  apply wp_bind. eapply wp_slot_get; [done|].
  eapply (spawn_recorded_wp (gadd g i) _ s1' q); [apply Ck|by etrans; [exact P1|]|done|]. intros s2 W2.
  apply Hgo. by apply (worked_trans (gadd g i) _ _ s1' _ [] []).
Qed.
(** The events became [m] and the queue [ts]; no call was made. *)
Record shifted (g' : Z -> Z) s s' (m : gmap loc uevent_t) (ts : list uevent_task_t) : Prop := {
  sh_inv : INV g' iw s';
  sh_keep : forall g', keep g' s s';
  sh_evs : evs s' = m;
  sh_running : running s' = running s;
  sh_log : log s' = log s;
  sh_pool : exists q', pool s' = Some q' /\ task_queue q' = ts /\ 0 <= total_workers q' <= most_workers
}.

Lemma pop_recorded_wp s q (Q : popped -> ust -> Prop) :
  INV g iw s -> pool s = Some q -> 0 <= total_workers q <= most_workers ->
  (task_queue q = [] -> Q (if pool_running q then Sleeps else NoTask) s) ->
  (forall t ts s', task_queue q = t :: ts -> shifted (gadd g (task_uev t)) s s' (evs s) ts -> Q (GotTask t) s') ->
  wp (wait_and_pop_task extra debug) Q s.
Proof.
  intros I Hq Hn H0 HQ. apply wp_mute; [eauto with moves|].
  eapply wait_and_pop_task_wp; [done|done|unfold most_workers in *; lia| |].
  - intros Hz _. apply H0. destruct (INV_queue _ _ _ _ I Hq) as (Hl & _). rewrite Hl in Hz.
    by destruct (task_queue q).
  - intros t ts s' Hts I' S' V' R' (q' & P' & T' & N1 & N2) _ _ L'. eapply HQ; [done|].
    constructor; try done; [intros; by apply keep_same|]. exists q'. split_and!; done || lia.
Qed.

Lemma finish_recorded_wp s t e E q (Q : unit -> ust -> Prop) :
  INV (gadd g (task_uev t)) iw s -> slot_at s (task_uev t) e E -> pending_free E = false ->
  tasks_of (task_uev t) (pool s) = 0 -> pool s = Some q -> 0 <= total_workers q <= most_workers ->
  (forall s', shifted g s s' (<[e := set_is_in_worker_pool false E]> (evs s)) (task_queue q) -> Q tt s') ->
  wp (finalize_worker_task t) Q s.
Proof.
  intros I Hs Hp Ht Hq Hn HQ. destruct (slot_at_facts _ _ _ _ _ _ I Hs) as (_ & _ & _ & _ & Hi).
  unfold finalize_worker_task. apply wp_bind, wp_mute; [eauto with moves|].
  eapply (release_task_wp g iw); [done| |done|done|].
  { eapply few_le; [exact F|unfold bound; lia]. }
  intros s1 [I1 K1 R1] P1 H1 L1. destruct (H1 _ _ Hs Hp) as [V1 K1'].
  eapply wp_change_pool; [by rewrite P1|]. apply HQ. constructor; try done.
  - eapply INV_pool_counters; [done|by rewrite P1|done..].
  - by eexists.
Qed.
End rules.
