(* ===== verification/UeventWork.v ===== *)
(** * uevent: the worker pool as a queue

    The event loop fires events into the queue of
    [src/uevent/uevent_worker.c] while several workers, each between the steps
    of its turn, take tasks from it, run and finalize them.  Whatever the
    interleaving, this is a queue without an event twice: [work_step].  The
    user's functions are recorded. *)

From S2P Require Import Prelude.
From S2P Require Import MinHeap.
From S2P Require Import MinHeapInv.
From S2P Require Import MinHeapOps.
From S2P Require Import Uevent.
From S2P Require Import UeventInv.
From S2P Require Import UeventSteps.
From S2P Require Import UeventOps.
From S2P Require Import UeventAdd.
From S2P Require Import UeventApi.
From S2P Require Import UeventDel.
From S2P Require Import UeventMoves.
From S2P Require Import UeventLoop.
From S2P Require Import UeventWorker.
From S2P Require Import UeventWorkerInv.
From S2P Require Import UeventSpec.
From S2P Require Import UeventRecord.
From S2P Require Import UeventTimers.
From S2P Require Import UeventPool.
Import MinHeap (mst, mh, nodes, capacity, minheap_t, minheap_node_t).
Import Uevent UeventWorker.

(** ** The loop and the workers, step by step *)

(** A step of the event loop, or of the worker [w]. *)
Inductive pool_cmd :=
  | Fire (e : loc) (trig cron : Z)
  | Pop (w : Z)
  | Process (w : Z)
  | Finish (w : Z).

(** The task each worker holds, and whether it has been processed. *)
Abbreviation hands_t := (gmap Z (uevent_task_t * bool)).

Section system.
Context {K : Type} {Kern : Kernel K}.
Variable user_cb : Z -> loc -> Z -> Z -> Z -> M (@ust K) unit.
Variables extra debug : bool.

Definition pool_exec (c : pool_cmd) (hands : hands_t) : M (@ust K) hands_t :=
  match c with
  | Fire e trig cron => uevent_handle_ev_cb user_cb (Some e) trig cron;; mret hands
  | Pop w =>
      match hands !! w with
      | None =>
          r ← wait_and_pop_task extra debug;
          match r with GotTask t => mret (<[w := (t, false)]> hands) | _ => mret hands end
      | Some _ => mret hands
      end
  | Process w =>
      match hands !! w with
      | Some (t, false) => process_worker_task user_cb extra debug t;; mret (<[w := (t, true)]> hands)
      | _ => mret hands
      end
  | Finish w =>
      match hands !! w with
      | Some (t, true) => finalize_worker_task t;; mret (delete w hands)
      | _ => mret hands
      end
  end.

Fixpoint pool_run (l : list pool_cmd) (hands : hands_t) : M (@ust K) hands_t :=
  match l with
  | [] => mret hands
  | c :: l => hands ← pool_exec c hands; pool_run l hands
  end.

(** A turn of a worker is its three steps in a row. *)
Lemma pool_run_turn w hands s : hands !! w = None ->
  pool_run [Pop w; Process w; Finish w] hands s =
  match worker_turn user_cb extra debug s with Some (_, s') => Some (hands, s') | None => None end.
Proof.
  intros Hw. unfold pool_run, worker_turn, mbind, M_bind. cbn [pool_exec]. rewrite Hw. unfold mbind, M_bind.
  destruct (wait_and_pop_task extra debug s) as [[r s1]|]; [|done].
  destruct r as [| |t]; unfold mret, M_ret; cbn [pool_exec]; rewrite ?Hw; try done.
  rewrite lookup_insert_eq. destruct (process_worker_task _ _ _ t s1) as [[[] s2]|]; [|done].
  rewrite insert_insert_eq, lookup_insert_eq.
  destruct (finalize_worker_task t s2) as [[[] s3]|]; [|done]. by rewrite delete_insert_id.
Qed.
End system.

(** ** The queue they implement *)

(** The tasks the workers hold. *)
Definition held (h : hands_t) : list uevent_task_t := (map_to_list h).*2.*1.

(** The tasks waiting and taken, and what has happened: the tasks accepted,
    started and processed so far, in this order. *)
Record work := Work {
  waiting : list uevent_task_t;
  taken : hands_t;
  accepted : list uevent_task_t;
  started : list uevent_task_t;
  processed : list uevent_task_t
}.

Definition in_pool (w : work) : list uevent_task_t := waiting w ++ held (taken w).

(** A step, for the events [m]: an event that is wanted and not in the pool is
    queued if there is memory for its task; a free worker takes the first task,
    processes it, and lets go of it. *)
Definition work_step (m : gmap loc uevent_t) (mem : bool) (c : pool_cmd) (w : work) : work :=
  match c with
  | Fire e trig cron =>
      match uev (event_in m e) with
      | Some i =>
          if wanted (event_in m e) trig && negb (bool_decide (i ∈ task_uev <$> in_pool w)) && mem
          then Work (waiting w ++ [Task i cron trig]) (taken w) (accepted w ++ [Task i cron trig]) (started w) (processed w)
          else w
      | None => w
      end
  | Pop k =>
      match taken w !! k, waiting w with
      | None, t :: ts => Work ts (<[k := (t, false)]> (taken w)) (accepted w) (started w ++ [t]) (processed w)
      | _, _ => w
      end
  | Process k =>
      match taken w !! k with
      | Some (t, false) => Work (waiting w) (<[k := (t, true)]> (taken w)) (accepted w) (started w) (processed w ++ [t])
      | _ => w
      end
  | Finish k =>
      match taken w !! k with
      | Some (_, true) => Work (waiting w) (delete k (taken w)) (accepted w) (started w) (processed w)
      | _ => w
      end
  end.

Fixpoint work_run (m : gmap loc uevent_t) (l : list (bool * pool_cmd)) (w : work) : work :=
  match l with
  | [] => w
  | (mem, c) :: l => work_run m l (work_step m mem c w)
  end.

Lemma held_insert h k t b : h !! k = None -> held (<[k := (t, b)]> h) ≡ₚ t :: held h.
Proof. intros Hk. unfold held. by rewrite (map_to_list_insert _ _ _ Hk). Qed.

Lemma held_delete h k t b : h !! k = Some (t, b) -> held h ≡ₚ t :: held (delete k h).
Proof.
  intros Hk. rewrite <- (insert_delete_id h k (t, b) Hk) at 1. apply held_insert. apply lookup_delete_eq.
Qed.

Lemma held_update h k t b b' : h !! k = Some (t, b) -> held (<[k := (t, b')]> h) ≡ₚ held h.
Proof.
  intros Hk. rewrite (held_delete _ _ _ _ Hk), (held_delete (<[k := (t, b')]> h) k t b') by apply lookup_insert_eq.
  by rewrite delete_insert_eq.
Qed.

(** How often the slot [i] is in a list of tasks. *)
Definition times (i : Z) (l : list uevent_task_t) : Z := zlen (filter (fun t => task_uev t = i) l).

Lemma times_app i l1 l2 : times i (l1 ++ l2) = times i l1 + times i l2.
Proof. unfold times, zlen. rewrite filter_app, length_app. lia. Qed.

Lemma times_cons i t l : times i (t :: l) = b2z (bool_decide (task_uev t = i)) + times i l.
Proof. unfold times, zlen. rewrite filter_cons. case_decide; case_bool_decide; simpl; done || lia. Qed.

#[export] Instance times_perm i : Proper ((≡ₚ) ==> eq) (times i).
Proof. intros l l' H. unfold times, zlen. by rewrite H. Qed.

Lemma times_nonneg i l : 0 <= times i l.
Proof. apply zlen_nonneg. Qed.

Lemma times_pos i l : 0 < times i l <-> i ∈ task_uev <$> l.
Proof.
  induction l as [|t l IH]; [split; [done|by intros ?%not_elem_of_nil]|].
  rewrite times_cons, fmap_cons, elem_of_cons, <- IH. pose proof (times_nonneg i l).
  case_bool_decide; simpl; [|naive_solver lia]. split; [by left|lia].
Qed.

(** *** Nothing is lost, doubled or reordered *)

(** The tasks taken and not yet processed. *)
Definition unprocessed (h : hands_t) : list uevent_task_t := held (filter (fun p => p.2.2 = false) h).

Lemma unprocessed_take h k t : h !! k = None -> unprocessed (<[k := (t, false)]> h) ≡ₚ t :: unprocessed h.
Proof.
  intros Hk. unfold unprocessed. rewrite map_filter_insert_True by done. apply held_insert.
  apply map_lookup_filter_None. by left.
Qed.

Lemma unprocessed_done h k t : h !! k = Some (t, false) -> unprocessed h ≡ₚ t :: unprocessed (<[k := (t, true)]> h).
Proof.
  intros Hk. unfold unprocessed. rewrite map_filter_insert_False, map_filter_delete by done.
  apply (held_delete _ k t false). by apply map_lookup_filter_Some.
Qed.

Lemma unprocessed_drop h k t : h !! k = Some (t, true) -> unprocessed (delete k h) = unprocessed h.
Proof.
  intros Hk. unfold unprocessed. rewrite map_filter_delete, delete_id; [done|].
  apply map_lookup_filter_None. right. intros [t' b]. rewrite Hk. by intros [= <- <-].
Qed.

(** The tasks accepted are those started, in this order, and those waiting; a
    task that was started has been processed once or is held unprocessed; no
    event is in the pool twice. *)
Record fifo (w : work) : Prop := {
  ff_order : accepted w = started w ++ waiting w;
  ff_once : started w ≡ₚ processed w ++ unprocessed (taken w);
  ff_alone : NoDup (task_uev <$> in_pool w)
}.

Lemma alone_perm l l' : l ≡ₚ l' -> NoDup (task_uev <$> l') -> NoDup (task_uev <$> l).
Proof. intros H. by rewrite H. Qed.

Lemma work_step_fifo m mem c w : fifo w -> fifo (work_step m mem c w).
Proof.
  intros Hw. pose proof Hw as [H1 H2 H3]. destruct c as [e trig cron|k|k|k]; cbn [work_step].
  - destruct (uev _) as [i|]; [|done]. destruct (wanted _ _); [cbn [andb]|done].
    case_bool_decide as Hi; [done|]. destruct mem; [cbn [negb andb]|done].
    constructor; unfold in_pool; cbn [accepted started waiting taken processed]; [by rewrite H1, app_assoc|done|].
    apply (alone_perm _ (Task i cron trig :: in_pool w)); [|by constructor].
    rewrite <- app_assoc. symmetry. apply Permutation_middle.
  - destruct (taken w !! k) as [|] eqn:Hk; [done|]. destruct (waiting w) as [|t ts] eqn:Hq; [done|].
    constructor; unfold in_pool; cbn [accepted started waiting taken processed].
    + by rewrite H1, <- app_assoc.
    + rewrite unprocessed_take, H2 by done. rewrite <- app_assoc. f_equiv. apply Permutation_app_comm.
    + eapply alone_perm; [|exact H3]. unfold in_pool. rewrite Hq, held_insert by done. symmetry. apply Permutation_middle.
  - destruct (taken w !! k) as [[t []]|] eqn:Hk; [done| |done].
    constructor; unfold in_pool; cbn [accepted started waiting taken processed]; [done| |].
    + rewrite H2, (unprocessed_done _ _ _ Hk), <- app_assoc. done.
    + eapply alone_perm; [|exact H3]. by rewrite (held_update _ _ _ _ _ Hk).
  - destruct (taken w !! k) as [[t []]|] eqn:Hk; [|done..].
    constructor; unfold in_pool; cbn [accepted started waiting taken processed]; [done|by rewrite (unprocessed_drop _ _ t)|].
    assert (NoDup (task_uev <$> t :: waiting w ++ held (delete k (taken w)))) as HN; [|by apply NoDup_cons in HN as [_ HN]].
    eapply alone_perm; [|exact H3]. unfold in_pool. rewrite (held_delete _ _ _ _ Hk). by rewrite Permutation_middle.
Qed.

Lemma work_run_fifo m l w : fifo w -> fifo (work_run m l w).
Proof. revert w. induction l as [|[mem c] l IH]; intros w H; [done|]. by apply IH, work_step_fifo. Qed.

(** ** The refinement *)

Section refinement.
Context {K : Type} {Kern : Kernel K} {Kok : KernelOk K}.
Implicit Types (s : @ust (@observed K)) (E : uevent_t) (e : loc) (i : Z) (t : uevent_task_t).
Variables extra debug : bool.
Variable g : Z -> Z.
Variable iw : Z.
Hypothesis F : few g (bound - 1).
Variable s0 : @ust (@observed K).

(** The events, whether or not they are in the pool. *)
Definition aside (m : gmap loc uevent_t) : gmap loc uevent_t := set_is_in_worker_pool false <$> m.

(** The event of a slot at the start. *)
Definition occupant s i : loc := match znth (slots s) i with Some (Uev (Some e) _) => e | _ => 0 end.

(** The calls that processing a task makes. *)
Definition speech s t : list call := let e := occupant s (task_uev t) in speaks t e (event_in (evs s) e).

(** The flags follow the tasks in the pool. *)
Definition flags s (l : list uevent_task_t) : Prop :=
  forall i e E, slot_at s i e E -> times i l = b2z (is_in_worker_pool E).

Record works s (w : work) : Prop := {
  wk_inv : INV (fun j => g j + times j (held (taken w))) iw s;
  wk_keep : forall g', keep g' s0 s;
  wk_aside : aside (evs s) = aside (evs s0);
  wk_pool : exists q, pool s = Some q /\ task_queue q = waiting w /\ 0 <= total_workers q <= most_workers;
  wk_running : running s = true;
  wk_flag : flags s (in_pool w);
  wk_alive : forall t, t ∈ in_pool w -> live s (task_uev t);
  wk_log : log s = log s0 ++ mjoin (speech s0 <$> processed w)
}.

Lemma aside_at m m' e E : aside m = aside m' -> m !! e = Some E ->
  exists E', m' !! e = Some E' /\ set_is_in_worker_pool false E' = set_is_in_worker_pool false E.
Proof.
  intros H He. assert (aside m' !! e = Some (set_is_in_worker_pool false E)) as H'.
  { rewrite <- H. unfold aside. by rewrite lookup_fmap, He. }
  unfold aside in H'. by apply lookup_fmap_Some in H' as (E' & <- & H'); exists E'.
Qed.

Lemma aside_insert m e E E' : m !! e = Some E -> set_is_in_worker_pool false E' = set_is_in_worker_pool false E ->
  aside (<[e := E']> m) = aside m.
Proof.
  intros He H. unfold aside. rewrite fmap_insert, H. apply insert_id. by rewrite lookup_fmap, He.
Qed.

(** A slot in use has the event it had, and the same contents up to the flag. *)
Lemma aside_slot g1 g2 s s' i e E :
  INV g1 iw s -> INV g2 iw s' -> aside (evs s') = aside (evs s) -> slot_at s' i e E ->
  exists E0, slot_at s i e E0 /\ set_is_in_worker_pool false E0 = set_is_in_worker_pool false E.
Proof.
  intros I I' HA Hs. destruct (slot_at_facts _ _ _ _ _ _ I' Hs) as (Hu & _). destruct Hs as (_ & _ & _ & He).
  destruct (aside_at _ _ _ _ HA He) as (E0 & He0 & HE). exists E0. split; [|done].
  eapply slot_at_of_ev; [done..|]. assert (uev (set_is_in_worker_pool false E0) = Some i) as H0 by by rewrite HE.
  done.
Qed.

Lemma keep_live g1 g2 s s' i :
  INV g1 iw s -> INV g2 iw s' -> (forall g', keep g' s s') -> aside (evs s') = aside (evs s) -> live s i -> live s' i.
Proof.
  intros I I' HK HA (e & E & Hs & Hp). destruct (keep_slot_at (fun _ => 1) g2 iw s s' i e E) as [E' Hs']; [done|done|done|lia|].
  exists e, E'. split; [done|]. destruct (aside_slot _ _ _ _ _ _ _ I I' HA Hs') as (E0 & Hs0 & HE).
  rewrite (slot_at_inj _ _ _ _ _ _ Hs0 Hs) in HE.
  assert (pending_free (set_is_in_worker_pool false E') = false) as H0 by by rewrite <- HE. done.
Qed.

Lemma occupant_at s i e E : slot_at s i e E -> occupant s i = e /\ event_in (evs s) e = E.
Proof.
  intros ([[e'|] r] & Hu & Hue & He); simpl in *; [|done]. unfold occupant. rewrite Hu.
  split; [congruence|by apply event_in_eq].
Qed.

Lemma flags_same g1 g2 s s' l l' :
  INV g1 iw s -> INV g2 iw s' -> evs s' = evs s -> l' ≡ₚ l -> flags s l -> flags s' l'.
Proof.
  intros I I' HV Hl H i e E Hs. rewrite Hl.
  destruct (slot_at_facts _ _ _ _ _ _ I' Hs) as (Hu & _). destruct Hs as (_ & _ & _ & He). rewrite HV in He.
  apply (H i e). by eapply slot_at_of_ev.
Qed.

Lemma flags_set g1 g2 s s' l l' i e E b :
  INV g1 iw s -> INV g2 iw s' -> slot_at s i e E -> evs s' = <[e := set_is_in_worker_pool b E]> (evs s) ->
  (forall j, j <> i -> times j l' = times j l) -> times i l' = b2z b -> flags s l -> flags s' l'.
Proof.
  intros I I' Hs HV Hj Hi H j e' E' Hs'. destruct (slot_at_facts _ _ _ _ _ _ I' Hs') as (Hu' & _).
  destruct (slot_at_facts _ _ _ _ _ _ I Hs) as (Hu & _).
  destruct Hs' as (_ & _ & _ & He'). rewrite HV in He'. destruct (decide (e' = e)) as [->|Hne].
  - rewrite lookup_insert_eq in He'. injection He' as <-. simpl in Hu'. rewrite Hu in Hu'. by injection Hu' as <-.
  - rewrite lookup_insert_ne in He' by done. assert (slot_at s j e' E') as Hs2 by by eapply slot_at_of_ev.
    rewrite Hj; [by eapply H|]. intros ->. destruct Hs as (? & ? & ? & _), Hs2 as (? & ? & ? & _). congruence.
Qed.

Lemma works_few s w : works s w -> few (fun j => g j + times j (held (taken w))) bound.
Proof.
  intros W j. specialize (F j). pose proof (times_nonneg j (held (taken w))).
  pose proof (times_nonneg j (waiting w)).
  destruct (decide (times j (held (taken w)) = 0)) as [->|Hn]; [lia|].
  assert (j ∈ task_uev <$> held (taken w)) as (t & -> & Ht)%list_elem_of_fmap by (apply times_pos; lia).
  destruct (wk_alive _ _ W t) as (e & E & Hs & _); [apply elem_of_app; by right|].
  pose proof (wk_flag _ _ W _ _ _ Hs) as Hf. unfold in_pool in Hf. rewrite times_app in Hf.
  destruct (is_in_worker_pool E); simpl in Hf; lia.
Qed.

Lemma works_insert s w s' i e E b l :
  works s w -> slot_at s i e E -> evs s' = <[e := set_is_in_worker_pool b E]> (evs s) ->
  INV l iw s' -> (forall g', keep g' s s') ->
  (forall g', keep g' s0 s') /\ aside (evs s') = aside (evs s0) /\ forall t, t ∈ in_pool w -> live s' (task_uev t).
Proof.
  intros W Hs HV I' HK. assert (aside (evs s') = aside (evs s)) as HA.
  { rewrite HV. destruct Hs as (u & _ & _ & He). by apply (aside_insert _ _ E). }
  split_and!.
  - intros g'. by apply (keep_trans _ g' _ s); [apply W|apply HK|].
  - by rewrite HA, (wk_aside _ _ W).
  - intros t Ht. eapply (keep_live _ _ s); [apply W|done..|by apply W].
Qed.

Lemma works_same s w s' l :
  works s w -> evs s' = evs s -> INV l iw s' -> (forall g', keep g' s s') ->
  (forall g', keep g' s0 s') /\ aside (evs s') = aside (evs s0) /\
  (forall t, t ∈ in_pool w -> live s' (task_uev t)) /\
  (forall l', l' ≡ₚ in_pool w -> flags s' l').
Proof.
  intros W HV I' HK. split_and!.
  - intros g'. by apply (keep_trans _ g' _ s); [apply W|apply HK|].
  - by rewrite HV, (wk_aside _ _ W).
  - intros t Ht. eapply (keep_live _ _ s); [apply W|done|done|by rewrite HV|by apply W].
  - intros l' Hl. eapply flags_same; [apply W|done|done|done|apply W].
Qed.

Lemma busy_flag s w i e E : works s w -> slot_at s i e E ->
  bool_decide (i ∈ task_uev <$> in_pool w) = is_in_worker_pool E.
Proof.
  intros W Hs. pose proof (wk_flag _ _ W _ _ _ Hs) as Hf. pose proof (times_pos i (in_pool w)) as Hp.
  case_bool_decide as Hi; destruct (is_in_worker_pool E); try done; simpl in Hf.
  - apply Hp in Hi. lia.
  - destruct Hi. apply Hp. lia.
Qed.

(** *** Firing *)

Lemma fire_step s w e trig cron (Q : unit -> ust -> Prop) :
  works s w -> is_Some (evs s0 !! e) ->
  (forall s' mem, (mem = false -> exists k : K, (k_alloc RTask k).1 = false) ->
     works s' (work_step (evs s0) mem (Fire e trig cron) w) -> Q tt s') ->
  wp (uevent_handle_ev_cb record (Some e) trig cron) Q s.
Proof.
  intros W [E0 He0] HQ. pose proof (wk_inv _ _ W) as I. cbn [work_step] in HQ. rewrite (event_in_eq _ _ _ He0) in HQ.
  destruct (aside_at _ _ _ _ (eq_sym (wk_aside _ _ W)) He0) as (E & He & HE).
  assert (uev E0 = uev E /\ wanted E0 trig = wanted E trig) as [Hu Hw].
  { split; [change (uev (set_is_in_worker_pool false E0) = uev E)|
      change (wanted (set_is_in_worker_pool false E0) trig = wanted E trig)]; by rewrite <- HE. }
  rewrite Hu, Hw in HQ. destruct (uev E) as [i|] eqn:Hui.
  2: { assert (wp (mret tt) Q s) as Hret by (by apply wp_ret, (HQ _ true)).
       unfold uevent_handle_ev_cb. destruct (trig =? 0); [done|].
       apply wp_bind. eapply wp_ev_get; [done|]. rewrite Hui. by destruct (pending_free E). }
  assert (slot_at s i e E) as Hs by by eapply slot_at_of_ev.
  rewrite (busy_flag _ _ _ _ _ W Hs) in HQ. destruct (wk_pool _ _ W) as (q & Hq & Htq & Hn).
  eapply pool_fire_wp; [by apply (works_few s)|done|exact Hs|done|apply W|].
  intros s' [I' K' R' L' C']. destruct C' as [(P' & V' & Hno)|(Hwt & Hin & V' & q' & P' & T' & N')].
  - destruct (works_same _ _ _ _ W V' I' K') as (A1 & A2 & A3 & A4).
    assert (works s' w) as W'.
    { constructor; try done; [by exists q|rewrite R'; apply W|by apply A4|rewrite L'; apply W]. }
    cbn [triggered_events] in Hno. destruct Hno as [Hno|[Hno|[k Hno]]].
    + apply (HQ _ true); [done|]. by rewrite Hno.
    + apply (HQ _ true); [done|]. by rewrite Hno, andb_false_r.
    + apply (HQ _ false); [by exists k|]. by rewrite andb_false_r.
  - destruct (works_insert _ _ _ _ _ _ _ _ W Hs V' I' K') as (A1 & A2 & A3).
    apply (HQ _ true); [done|]. cbn [triggered_events] in Hwt. rewrite Hwt, Hin. cbn [negb andb].
    assert (waiting w ++ [Task i cron trig] ++ held (taken w) ≡ₚ Task i cron trig :: in_pool w) as HP
      by (symmetry; apply Permutation_middle).
    constructor; unfold in_pool; cbn [waiting taken processed]; try done.
    + exists q'. rewrite T', Htq, N'. done.
    + rewrite R'. apply W.
    + rewrite <- app_assoc. eapply (flags_set _ _ s); [exact I|exact I'|exact Hs|exact V'| | |apply W].
      * intros j Hj. rewrite HP, times_cons. cbn [task_uev]. rewrite bool_decide_false by done. done.
      * rewrite HP, times_cons. cbn [task_uev]. rewrite bool_decide_true by done.
        rewrite (wk_flag _ _ W _ _ _ Hs), Hin. done.
    + intros t. rewrite <- app_assoc, HP. intros [->|Ht]%elem_of_cons; [|by apply A3].
      eapply (keep_live _ _ s); [exact I|exact I'|done|by rewrite A2, (wk_aside _ _ W)|].
      exists e, E. split; [done|]. unfold wanted in Hwt. by destruct (pending_free E); rewrite ?andb_false_r in Hwt.
    + rewrite L'. apply W.
Qed.

(** *** The workers *)

(** The references while one more task is held. *)
Lemma refs_held h h' t j : held h' ≡ₚ t :: held h ->
  gadd (fun j => g j + times j (held h)) (task_uev t) j = g j + times j (held h').
Proof.
  intros H. rewrite H, times_cons. unfold gadd.
  destruct (decide (j = task_uev t)) as [->|Hj]; [rewrite bool_decide_true|rewrite bool_decide_false]; simpl; done || lia.
Qed.

Lemma works_held s w k t b : works s w -> taken w !! k = Some (t, b) -> live s (task_uev t) /\
  held (taken w) ≡ₚ t :: held (delete k (taken w)).
Proof.
  intros W Hk. assert (held (taken w) ≡ₚ t :: held (delete k (taken w))) as Hh by by eapply held_delete.
  split; [|done]. apply (wk_alive _ _ W), elem_of_app. right. rewrite Hh. apply elem_of_cons. by left.
Qed.

Lemma pop_step s w k (Q : popped -> ust -> Prop) :
  works s w -> taken w !! k = None ->
  (forall r s', works s' (work_step (evs s0) true (Pop k) w) ->
     match r with
     | GotTask t => taken (work_step (evs s0) true (Pop k) w) = <[k := (t, false)]> (taken w)
     | _ => taken (work_step (evs s0) true (Pop k) w) = taken w
     end -> Q r s') ->
  wp (wait_and_pop_task extra debug) Q s.
Proof.
  intros W Hk HQ. destruct (wk_pool _ _ W) as (q & Hq & Htq & Hn). cbn [work_step] in HQ. rewrite Hk in HQ.
  eapply (pop_recorded_wp extra debug _ iw); [apply W|done|done| |].
  { rewrite Htq. intros Hw. rewrite Hw in HQ. apply HQ; [done|]. by destruct (pool_running q). }
  intros t ts s' Hts [I' K' V' R' L' P']. rewrite Htq in Hts. rewrite Hts in HQ.
  pose proof (held_insert _ k t false Hk) as Hh.
  destruct (works_same _ _ _ _ W V' I' K') as (A1 & A2 & A3 & A4).
  assert (ts ++ held (<[k := (t, false)]> (taken w)) ≡ₚ in_pool w) as HP.
  { rewrite Hh. unfold in_pool. rewrite Hts. symmetry. apply Permutation_middle. }
  apply HQ; [|done]. constructor; unfold in_pool; cbn [waiting taken processed]; try done.
  - eapply INV_proper; [|done..|exact I']. intros j. symmetry. by apply refs_held.
  - rewrite R'. apply W.
  - by apply A4.
  - intros t' Ht'. apply A3. by rewrite <- HP.
  - rewrite L'. apply W.
Qed.

Lemma process_step s w k t (Q : unit -> ust -> Prop) :
  INV g iw s0 -> works s w -> taken w !! k = Some (t, false) ->
  (forall s', works s' (work_step (evs s0) true (Process k) w) -> Q tt s') ->
  wp (process_worker_task record extra debug t) Q s.
Proof.
  intros I0 W Hk HQ. destruct (wk_pool _ _ W) as (q & Hq & Htq & Hn).
  destruct (works_held _ _ _ _ _ W Hk) as [(e & E & Hs & Hp) _].
  cbn [work_step] in HQ. rewrite Hk in HQ.
  eapply process_recorded_wp; [by apply (works_few s)|apply W|done..|].
  intros s' [I' K' V' R' (q1 & q2 & B1 & B2 & B3 & B4) L'].
  destruct (works_same _ _ _ _ W V' I' K') as (A1 & A2 & A3 & A4).
  pose proof (held_update _ _ _ _ true Hk) as Hh.
  assert (waiting w ++ held (<[k := (t, true)]> (taken w)) ≡ₚ in_pool w) as HP by (by rewrite Hh).
  apply HQ. constructor; unfold in_pool; cbn [waiting taken processed]; try done.
  - eapply INV_proper; [|done..|exact I']. intros j. by rewrite Hh.
  - exists q2. split_and!; try congruence. all: simplify_eq; lia.
  - rewrite R'. apply W.
  - by apply A4.
  - intros t' Ht'. apply A3. by rewrite <- HP.
  - rewrite L', (wk_log _ _ W), fmap_app, join_app, <- app_assoc. do 2 f_equal. cbn. rewrite app_nil_r.
    destruct (aside_slot _ _ _ _ _ _ _ I0 (wk_inv _ _ W) (wk_aside _ _ W) Hs) as (E0 & Hs0 & HE).
    unfold speech. destruct (occupant_at _ _ _ _ Hs0) as [-> ->].
    change (speaks t e E) with (speaks t e (set_is_in_worker_pool false E)). by rewrite <- HE.
Qed.

Lemma finish_step s w k t (Q : unit -> ust -> Prop) :
  works s w -> taken w !! k = Some (t, true) ->
  (forall s', works s' (work_step (evs s0) true (Finish k) w) -> Q tt s') ->
  wp (finalize_worker_task t) Q s.
Proof.
  intros W Hk HQ. destruct (wk_pool _ _ W) as (q & Hq & Htq & Hn).
  destruct (works_held _ _ _ _ _ W Hk) as [(e & E & Hs & Hp) Hh]. cbn [work_step] in HQ. rewrite Hk in HQ.
  pose proof (wk_flag _ _ W _ _ _ Hs) as Hf. unfold in_pool in Hf. rewrite times_app, Hh, times_cons, bool_decide_true in Hf by done.
  pose proof (times_nonneg (task_uev t) (waiting w)). pose proof (times_nonneg (task_uev t) (held (delete k (taken w)))).
  assert (times (task_uev t) (waiting w) = 0 /\ times (task_uev t) (held (delete k (taken w))) = 0) as [Hz1 Hz2].
  { destruct (is_in_worker_pool E); simpl in Hf; lia. }
  set (G := fun j => g j + times j (held (delete k (taken w)))).
  assert (INV (gadd G (task_uev t)) iw s) as I.
  { eapply INV_proper; [|done..|apply W]. intros j. by apply refs_held. }
  eapply (finish_recorded_wp G iw); [|exact I|done|done|by rewrite Hq; unfold tasks_of; rewrite Htq|done|done|].
  { intros j. pose proof (works_few _ _ W j) as Hj. cbv beta in Hj. rewrite Hh, times_cons in Hj. unfold G.
    pose proof (times_nonneg j (held (delete k (taken w)))). specialize (F j).
    destruct (bool_decide (task_uev t = j)); simpl in Hj; lia. }
  intros s' [I' K' V' R' L' P']. destruct (works_insert _ _ _ _ _ _ _ _ W Hs V' I' K') as (A1 & A2 & A3).
  apply HQ. constructor; unfold in_pool; cbn [waiting taken processed]; try done.
  - by rewrite <- Htq.
  - rewrite R'. apply W.
  - eapply (flags_set _ _ s); [exact I|exact I'|exact Hs|exact V'| | |apply W].
    + intros j Hj. unfold in_pool. rewrite !times_app, Hh, times_cons, bool_decide_false by done. done.
    + rewrite times_app. simpl. lia.
  - intros t' Ht'. apply A3. unfold in_pool. rewrite Hh. set_solver.
  - rewrite L'. apply W.
Qed.

(** *** Any interleaving *)

(** The events fired exist. *)
Definition known (l : list pool_cmd) : Prop :=
  forall e trig cron, Fire e trig cron ∈ l -> is_Some (evs s0 !! e).

Lemma exec_works c s w (Q : hands_t -> ust -> Prop) :
  INV g iw s0 -> works s w -> known [c] ->
  (forall s' mem, (mem = false -> exists k : K, (k_alloc RTask k).1 = false) ->
     works s' (work_step (evs s0) mem c w) -> Q (taken (work_step (evs s0) mem c w)) s') ->
  wp (pool_exec record extra debug c (taken w)) Q s.
Proof.
  intros I0 W Hl HQ. destruct c as [e trig cron|k|k|k]; cbn [pool_exec].
  - apply wp_bind. eapply fire_step; [done|apply (Hl e trig cron); by apply list_elem_of_singleton|].
    intros s' mem Hm W'. apply wp_ret. specialize (HQ s' mem Hm W'). cbn [work_step] in HQ.
    destruct (uev _); [|done]. by destruct (_ && mem).
  - destruct (taken w !! k) as [p|] eqn:Hk.
    + apply wp_ret. assert (work_step (evs s0) true (Pop k) w = w) as Hw by (cbn [work_step]; by rewrite Hk).
      specialize (HQ s true ltac:(done)). rewrite Hw in HQ. by apply HQ.
    + apply wp_bind. eapply pop_step; [done..|]. intros r s' W' Hr. specialize (HQ s' true ltac:(done) W').
      destruct r; apply wp_ret; by rewrite <- Hr.
  - assert ((forall t, taken w !! k <> Some (t, false)) -> wp (mret (taken w)) Q s) as Hno.
    { intros Hk. assert (work_step (evs s0) true (Process k) w = w) as Hw.
      { cbn [work_step]. destruct (taken w !! k) as [[t []]|] eqn:E; [done|by destruct (Hk t)|done]. }
      apply wp_ret. specialize (HQ s true ltac:(done)). rewrite Hw in HQ. by apply HQ. }
    destruct (taken w !! k) as [[t []]|] eqn:Hk; [by apply Hno| |by apply Hno].
    apply wp_bind. eapply process_step; [done..|]. intros s' W'. apply wp_ret. specialize (HQ s' true ltac:(done) W').
    cbn [work_step] in HQ. by rewrite Hk in HQ.
  - assert ((forall t, taken w !! k <> Some (t, true)) -> wp (mret (taken w)) Q s) as Hno.
    { intros Hk. assert (work_step (evs s0) true (Finish k) w = w) as Hw.
      { cbn [work_step]. destruct (taken w !! k) as [[t []]|] eqn:E; [by destruct (Hk t)|done..]. }
      apply wp_ret. specialize (HQ s true ltac:(done)). rewrite Hw in HQ. by apply HQ. }
    destruct (taken w !! k) as [[t []]|] eqn:Hk; [|by apply Hno..].
    apply wp_bind. eapply finish_step; [done..|]. intros s' W'. apply wp_ret. specialize (HQ s' true ltac:(done) W').
    cbn [work_step] in HQ. by rewrite Hk in HQ.
Qed.

Lemma run_works l s w (Q : hands_t -> ust -> Prop) :
  INV g iw s0 -> works s w -> known l ->
  (forall s' mems, length mems = length l ->
     Forall (fun mem => mem = false -> exists k : K, (k_alloc RTask k).1 = false) mems ->
     works s' (work_run (evs s0) (zip mems l) w) -> Q (taken (work_run (evs s0) (zip mems l) w)) s') ->
  wp (pool_run record extra debug l (taken w)) Q s.
Proof.
  intros I0. revert s w Q. induction l as [|c l IH]; intros s w Q W Hl HQ.
  - apply wp_ret, (HQ s []); [done|constructor|done].
  - cbn [pool_run]. apply wp_bind. eapply exec_works; [done|done| |].
    { intros e trig cron Hin%list_elem_of_singleton. apply (Hl e trig cron), elem_of_cons. by left. }
    intros s1 mem Hm W1. eapply IH; [done| |].
    { intros e trig cron Hin. apply (Hl e trig cron), elem_of_cons. by right. }
    intros s2 mems Hlen Hms W2. apply (HQ s2 (mem :: mems)); [simpl; lia|by constructor|done].
Qed.

(** No event is in the pool. *)
Definition quiet_pool : Prop := forall e E, evs s0 !! e = Some E -> is_in_worker_pool E = false.

Definition nothing_yet : work := Work [] ∅ [] [] [].

Lemma works_start q :
  INV g iw s0 -> pool s0 = Some q -> task_queue q = [] -> 0 <= total_workers q <= most_workers ->
  running s0 = true -> quiet_pool -> works s0 nothing_yet.
Proof.
  intros I0 Hq Ht Hn Hr Hidle. assert (forall i, times i (in_pool nothing_yet) = 0) as Hz by done.
  constructor; try done.
  - eapply INV_proper; [|done..|exact I0]. intros j. pose proof (Hz j) as H0.
    change (times j (in_pool nothing_yet)) with (times j (held (taken nothing_yet))) in H0. lia.
  - intros. apply keep_refl.
  - by exists q.
  - intros i e E (u & _ & _ & He). rewrite Hz, (Hidle _ _ He). done.
  - intros t Ht'%not_elem_of_nil. done.
  - by rewrite app_nil_r.
Qed.

Lemma nothing_fifo : fifo nothing_yet.
Proof. constructor; [done..|constructor]. Qed.
End refinement.

Section properties.
Context {K : Type} {Kern : Kernel K} {Kok : KernelOk K}.
Implicit Types (s : @ust (@observed K)).
Variables extra debug : bool.
Variable g : Z -> Z.
Variable iw : Z.

(** The refinement, for a run from an idle pool. *)
Lemma run_from_idle s q l :
  INV g iw s -> few g (bound - 1) -> pool s = Some q -> task_queue q = [] ->
  0 <= total_workers q <= most_workers -> running s = true -> quiet_pool s -> known s l ->
  exists s' mems, let w := work_run (evs s) (zip mems l) nothing_yet in
    pool_run record extra debug l ∅ s = Some (taken w, s') /\ length mems = length l /\
    Forall (fun mem => mem = false -> exists k : K, (k_alloc RTask k).1 = false) mems /\ works g iw s s' w.
Proof.
  intros I F Hq Ht Hn Hr Hidle Hl.
  destruct (wp_run (pool_run record extra debug l ∅) (fun h s' => exists mems, let w := work_run (evs s) (zip mems l) nothing_yet in
    h = taken w /\ length mems = length l /\
    Forall (fun mem => mem = false -> exists k : K, (k_alloc RTask k).1 = false) mems /\ works g iw s s' w) s)
    as (h & s' & Hrun & mems & -> & Hlen & Hms & W); [|by exists s', mems].
  apply (run_works extra debug g iw F s l s nothing_yet); [done|by eapply works_start|done|].
  intros s' mems H1 H2 W. by exists mems.
Qed.

(** C8: from a running base whose pool is idle, every interleaving of events that
    fire and of the steps of any number of workers has no undefined behaviour
    and does what the queue of [work_step] does: an event that fires is queued
    if it is wanted, not in the pool already and memory for its task is found;
    workers take the tasks from the front; the tasks held, the calls made and the
    references held on the events are those of the queue, and an event's flag
    says that it is in the pool.  Nothing else of the events changes. *)
Theorem worker_pool_refines s q l :
  INV g iw s -> few g (bound - 1) -> pool s = Some q -> task_queue q = [] ->
  0 <= total_workers q <= most_workers -> running s = true -> quiet_pool s -> known s l ->
  exists s' mems, let w := work_run (evs s) (zip mems l) nothing_yet in
    pool_run record extra debug l ∅ s = Some (taken w, s') /\ length mems = length l /\
    Forall (fun mem => mem = false -> exists k : K, (k_alloc RTask k).1 = false) mems /\
    INV (fun i => g i + times i (held (taken w))) iw s' /\ running s' = true /\
    (exists q', pool s' = Some q' /\ task_queue q' = waiting w /\ queue_size q' = zlen (waiting w)) /\
    log s' = log s ++ mjoin (speech s <$> processed w) /\
    aside (evs s') = aside (evs s) /\
    (forall i e E, slot_at s' i e E -> is_in_worker_pool E = bool_decide (i ∈ task_uev <$> in_pool w)).
Proof.
  intros I F Hq Ht Hn Hr Hidle Hl.
  destruct (run_from_idle s q l) as (s' & mems & Hrun & Hlen & Hms & W); [done..|].
  exists s', mems. cbv zeta. set (w := work_run _ _ _) in *. destruct (wk_pool _ _ _ _ _ W) as (q' & P' & T' & _).
  pose proof W as [I' _ A' _ R' _ _ L']. split_and!; try done.
  - exists q'. split_and!; [done..|]. rewrite <- T'. by destruct (INV_queue _ _ _ _ I' P').
  - intros i e E Hs. symmetry. by eapply (busy_flag g iw s s').
Qed.

(** The tasks of the events fired. *)
Definition fires s (l : list pool_cmd) : list uevent_task_t :=
  omap (fun c => match c with
                 | Fire e trig cron => (fun i => Task i cron trig) <$> uev (event_in (evs s) e)
                 | _ => None
                 end) l.

Lemma step_fires s mem c w : exists l', accepted (work_step (evs s) mem c w) = accepted w ++ l' /\ l' `sublist_of` fires s [c].
Proof.
  assert (forall w', accepted w' = accepted w -> exists l', accepted w' = accepted w ++ l' /\ l' `sublist_of` fires s [c]) as Hno.
  { intros w' ->. exists []. split; [by rewrite app_nil_r|apply sublist_nil_l]. }
  destruct c as [e trig cron|k|k|k]; cbn [work_step].
  - destruct (uev _) as [i|] eqn:Hu; [|by apply Hno]. destruct (_ && mem); [|by apply Hno].
    exists [Task i cron trig]. split; [done|]. unfold fires. cbn. by rewrite Hu.
  - destruct (taken w !! k); [by apply Hno|]. destruct (waiting w); by apply Hno.
  - destruct (taken w !! k) as [[t []]|]; by apply Hno.
  - destruct (taken w !! k) as [[t []]|]; by apply Hno.
Qed.

Lemma accepted_fires s mems l w :
  exists l', accepted (work_run (evs s) (zip mems l) w) = accepted w ++ l' /\ l' `sublist_of` fires s l.
Proof.
  revert mems w. induction l as [|c l IH]; intros mems w; [exists []; destruct mems; by rewrite app_nil_r|].
  destruct mems as [|mem mems]; [exists []; split; [by rewrite app_nil_r|apply sublist_nil_l]|].
  cbn [zip zip_with work_run]. destruct (IH mems (work_step (evs s) mem c w)) as (l2 & H2 & S2).
  destruct (step_fires s mem c w) as (l1 & H1 & S1). exists (l1 ++ l2).
  split; [by rewrite H2, H1, app_assoc|]. change (fires s (c :: l)) with (fires s ([c] ++ l)).
  unfold fires in *. rewrite omap_app. by apply sublist_app.
Qed.

Lemma work_run_app m l1 l2 w : work_run m (l1 ++ l2) w = work_run m l2 (work_run m l1 w).
Proof. revert w. induction l1 as [|[mem c] l1 IH]; intros w; [done|]. apply IH. Qed.

(** Memory was refused once, or the whole run had memory. *)
Lemma memory_always (l : list pool_cmd) mems : length mems = length l ->
  Forall (fun mem => mem = false -> exists k : K, (k_alloc RTask k).1 = false) mems ->
  (exists k : K, (k_alloc RTask k).1 = false) \/ mems = replicate (length l) true.
Proof.
  intros <-. induction mems as [|mem mems IH]; [by right|]. intros [Hm Hms]%Forall_cons.
  destruct mem; [|by left; apply Hm]. destruct (IH Hms) as [?|Heq]; [by left|right]. simpl. by rewrite <- Heq.
Qed.

(** The queue with memory at every step: a wanted event that fires is in the pool
    already or its task is accepted, after those of the events fired before and
    before those of the events fired later. *)
Lemma fire_accepted s l1 e trig cron l2 i :
  uev (event_in (evs s) e) = Some i -> wanted (event_in (evs s) e) trig = true ->
  let run l := work_run (evs s) (zip (replicate (length l) true) l) nothing_yet in
  i ∈ task_uev <$> in_pool (run l1) \/
  exists before after, accepted (run (l1 ++ Fire e trig cron :: l2)) = before ++ Task i cron trig :: after /\
    before `sublist_of` fires s l1 /\ after `sublist_of` fires s l2.
Proof.
  intros Hu Hw run. destruct (decide (i ∈ task_uev <$> in_pool (run l1))) as [|Hi]; [by left|right].
  assert (run (l1 ++ Fire e trig cron :: l2) =
    work_run (evs s) (zip (replicate (length l2) true) l2) (work_step (evs s) true (Fire e trig cron) (run l1))) as ->.
  { unfold run. rewrite length_app, replicate_add. cbn [length replicate].
    rewrite zip_with_app by (by rewrite length_replicate). by rewrite work_run_app. }
  destruct (accepted_fires s (replicate (length l2) true) l2 (work_step (evs s) true (Fire e trig cron) (run l1)))
    as (after & Ha & Hafter). destruct (accepted_fires s (replicate (length l1) true) l1 nothing_yet) as (before & Hb & Hbefore).
  exists before, after. rewrite Ha. cbn [work_step]. rewrite Hu, Hw, bool_decide_false by done. cbn [negb andb accepted].
  change (accepted (run l1)) with (accepted (work_run (evs s) (zip (replicate (length l1) true) l1) nothing_yet)).
  rewrite Hb. by rewrite <- app_assoc.
Qed.

(** C9: in such a run the tasks are those of some of the events that fired, in the
    order they fired; workers start them in this order, first in, first out, and
    what is left waits in the queue; a task that was started has made its calls
    exactly once or is held by a worker that has not processed it yet; and no
    event is in the queue or with a worker twice, so that no two workers ever run
    the callback of one event at the same time.  None is lost: when an event that
    is wanted fires, either it is in the queue or with a worker at that moment, or
    its task is among those started or waiting, at the place of its firing, unless
    the system is one that refuses memory for a task. *)
Theorem worker_pool_fifo s q l :
  INV g iw s -> few g (bound - 1) -> pool s = Some q -> task_queue q = [] ->
  0 <= total_workers q <= most_workers -> running s = true -> quiet_pool s -> known s l ->
  exists hands s' q' first served,
    pool_run record extra debug l ∅ s = Some (hands, s') /\ pool s' = Some q' /\
    first ++ task_queue q' `sublist_of` fires s l /\
    first ≡ₚ served ++ unprocessed hands /\
    log s' = log s ++ mjoin (speech s <$> served) /\
    NoDup (task_uev <$> task_queue q' ++ held hands) /\
    ((forall k : K, (k_alloc RTask k).1 = true) ->
     forall l1 e trig cron l2 i, l = l1 ++ Fire e trig cron :: l2 ->
       uev (event_in (evs s) e) = Some i -> wanted (event_in (evs s) e) trig = true ->
       (exists h1 s1 q1, pool_run record extra debug l1 ∅ s = Some (h1, s1) /\ pool s1 = Some q1 /\
          i ∈ task_uev <$> task_queue q1 ++ held h1) \/
       (exists before after, first ++ task_queue q' = before ++ Task i cron trig :: after /\
          before `sublist_of` fires s l1 /\ after `sublist_of` fires s l2)).
Proof.
  intros I F Hq Ht Hn Hr Hidle Hl.
  destruct (run_from_idle s q l) as (s' & mems & Hrun & Hlen & Hms & W); [done..|].
  destruct (work_run_fifo (evs s) (zip mems l) nothing_yet nothing_fifo) as [H1 H2 H3].
  destruct (accepted_fires s mems l nothing_yet) as (l' & A1 & A2). cbn [accepted nothing_yet app] in A1.
  set (w := work_run _ _ _) in *. destruct (wk_pool _ _ _ _ _ W) as (q' & P' & T' & _).
  exists (taken w), s', q', (started w), (processed w). rewrite T'. split_and!; try done.
  - by rewrite <- H1, A1.
  - apply W.
  - intros Hmem l1 e trig cron l2 i -> Hu Hw.
    assert (forall m (l : list pool_cmd), length m = length l ->
      Forall (fun mem => mem = false -> exists k : K, (k_alloc RTask k).1 = false) m -> m = replicate (length l) true) as Hall.
    { intros m l Hml Hm. destruct (memory_always l m Hml Hm) as [[k Hk]|]; [by rewrite Hmem in Hk|done]. }
    destruct (run_from_idle s q l1) as (s1 & mems1 & Hrun1 & Hlen1 & Hms1 & W1); [done..| |].
    { intros e' trig' cron' Hin. apply (Hl e' trig' cron'), elem_of_app. by left. }
    destruct (fire_accepted s l1 e trig cron l2 i Hu Hw) as [Hin|(before & after & Hacc & Hb & Hafter)].
    + left. rewrite (Hall _ _ Hlen1 Hms1) in Hrun1, W1. destruct (wk_pool _ _ _ _ _ W1) as (q1 & P1 & T1 & _).
      eexists _, s1, q1. rewrite T1. by split_and!.
    + right. exists before, after. rewrite <- H1. unfold w. by rewrite (Hall _ _ Hlen Hms).
Qed.
End properties.

(** ** The hypotheses hold: two events, two workers *)
Module WorkDemo.
Import World Demo.

#[local] Opaque run refs state.

Definition pooled : @ust (@observed world) := put_running true (@state _ observed_kernel 2 (calm, [])).
Definition held_refs : Z -> Z := @refs _ observed_kernel 2 (calm, []).
Definition idle_pool : uevent_worker_pool_t := default (Pool false 0 0 0 0 []) (pool pooled).

Lemma INV_started g iw (s : @ust (@observed world)) b : INV g iw s -> INV g iw (put_running b s).
Proof. intros I. by eapply INV_frame. Qed.

Lemma pooled_inv : INV held_refs 3 pooled.
Proof. unfold pooled, held_refs. apply INV_started, state_inv. Qed.

Lemma held_refs_eq : held_refs = gadd (fun _ => 0) 2.
Proof. vm_compute. reflexivity. Qed.

Lemma held_refs_few : few held_refs (bound - 1).
Proof. rewrite held_refs_eq. intros i. unfold gadd, bound. case_decide; lia. Qed.

Definition event_of (i : Z) : loc := occupant pooled i.

Definition story : list pool_cmd :=
  [Fire (event_of 2) UEV_READ 0; Fire (event_of 1) UEV_TIMEOUT 1000; Pop 1; Fire (event_of 2) UEV_HUP 0; Pop 2;
   Process 2; Process 1; Finish 1; Fire (event_of 2) UEV_READ 0; Finish 2].

Lemma pooled_quiet : quiet_pool pooled.
Proof.
  assert (map_Forall (fun _ E => is_in_worker_pool E = false) (evs pooled)) as H
    by (apply (bool_decide_unpack _); vm_compute; exact I).
  intros e E He. exact (H e E He).
Qed.

Lemma story_known : known pooled story.
Proof.
  assert (Forall (fun c => match c with Fire e _ _ => bool_decide (is_Some (evs pooled !! e)) | _ => true end = true) story) as H
    by (apply (bool_decide_unpack _); vm_compute; exact I).
  intros e trig cron Hin. rewrite Forall_forall in H. specialize (H _ Hin). cbv beta iota in H.
  by apply bool_decide_eq_true in H.
Qed.

#[local] Opaque pooled held_refs work_run.

Lemma worker_pool_refines_witness :
  exists s' mems, let w := work_run (evs pooled) (zip mems story) nothing_yet in
    pool_run record true false story ∅ pooled = Some (taken w, s') /\ length mems = length story /\
    Forall (fun mem => mem = false -> exists k : world, (k_alloc RTask k).1 = false) mems /\
    INV (fun i => held_refs i + times i (held (taken w))) 3 s' /\ running s' = true /\
    (exists q', pool s' = Some q' /\ task_queue q' = waiting w /\ queue_size q' = zlen (waiting w)) /\
    log s' = log pooled ++ mjoin (speech pooled <$> processed w) /\
    aside (evs s') = aside (evs pooled) /\
    (forall i e E, slot_at s' i e E -> is_in_worker_pool E = bool_decide (i ∈ task_uev <$> in_pool w)).
Proof.
  apply (worker_pool_refines true false held_refs 3 pooled idle_pool story pooled_inv held_refs_few);
    [vm_compute; reflexivity|vm_compute; reflexivity|vm_compute; split; discriminate|vm_compute; reflexivity
    |exact pooled_quiet|exact story_known].
Defined.

Lemma worker_pool_fifo_witness :
  exists hands s' q' first served,
    pool_run record true false story ∅ pooled = Some (hands, s') /\ pool s' = Some q' /\
    first ++ task_queue q' `sublist_of` fires pooled story /\
    first ≡ₚ served ++ unprocessed hands /\
    log s' = log pooled ++ mjoin (speech pooled <$> served) /\
    NoDup (task_uev <$> task_queue q' ++ held hands) /\
    ((forall k : world, (k_alloc RTask k).1 = true) ->
     forall l1 e trig cron l2 i, story = l1 ++ Fire e trig cron :: l2 ->
       uev (event_in (evs pooled) e) = Some i -> wanted (event_in (evs pooled) e) trig = true ->
       (exists h1 s1 q1, pool_run record true false l1 ∅ pooled = Some (h1, s1) /\ pool s1 = Some q1 /\
          i ∈ task_uev <$> task_queue q1 ++ held h1) \/
       (exists before after, first ++ task_queue q' = before ++ Task i cron trig :: after /\
          before `sublist_of` fires pooled l1 /\ after `sublist_of` fires pooled l2)).
Proof.
  apply (worker_pool_fifo true false held_refs 3 pooled idle_pool story pooled_inv held_refs_few);
    [vm_compute; reflexivity|vm_compute; reflexivity|vm_compute; split; discriminate|vm_compute; reflexivity
    |exact pooled_quiet|exact story_known].
Defined.

Definition ran (l : list pool_cmd) : option (list (Z * Z) * Z * Z) :=
  '(h, s') ← pool_run record true false l ∅ pooled;
  q ← pool s';
  Some ((fun c => (c_fun c, c_trig c)) <$> log s', queue_size q, Z.of_nat (size h)).

(** The workers serve both events, the second one first; the report made while
    the first is with a worker is dropped, the one made afterwards is queued. *)
Example story_run : ran story = Some ([(2, UEV_TIMEOUT); (1, UEV_READ)], 1, 0).
Proof. vm_compute. reflexivity. Qed.

(** An edge that arrives after the callback has read its descriptor and before
    the worker lets go of the event leaves no trace: nothing is queued. *)
Example lost_edge :
  ran [Fire (event_of 2) UEV_READ 0; Pop 1; Process 1; Fire (event_of 2) UEV_READ 0; Finish 1] =
    Some ([(1, UEV_READ)], 0, 0).
Proof. vm_compute. reflexivity. Qed.
End WorkDemo.
