(* ===== verification/UeventTick.v ===== *)
(** * uevent: no timer is forgotten

    The turns of [uevent_base_dispatch] of [src/uevent/uevent.c] on a base
    without workers whose descriptors are idle, over a clock that does not go
    back: [calculate_epoll_timeout], the wait and [uevent_handle_timers]
    together.  Every turn makes progress, so every armed timer fires, and a base
    that has only timers that fire once runs them all and ends. *)

From Stdlib Require Import Sorted.
From stdpp Require Import sorting.
From S2P Require Import Prelude.
From S2P Require Import MinHeap.
From S2P Require Import MinHeapInv.
From S2P Require Import MinHeapOps.
From S2P Require Import Uevent.
From S2P Require Import UeventInv.
From S2P Require Import UeventSteps.
From S2P Require Import UeventOps.
From S2P Require Import UeventAdd.
From S2P Require Import UeventMoves.
From S2P Require Import UeventLoop.
From S2P Require Import UeventWorker.
From S2P Require Import UeventSpec.
From S2P Require Import Schedule.
From S2P Require Import UeventRecord.
From S2P Require Import UeventTimers.
Import MinHeap (mst, mh, nodes, capacity, minheap_t, minheap_node_t).
Import Uevent UeventWorker.

(** ** Time *)

(** The monotonic clock: 63 bits of milliseconds, read during a call, and no
    call turns it back. *)
Class Clock (K : Type) {Kern : Kernel K} := {
  clock : K -> Z;
  clock_range k : 0 <= clock k < 2 ^ 63;
  clock_reads k : clock k <= (k_time_ms k).1 <= clock (k_time_ms k).2;
  clock_steady :: Steady (fun k k' => clock k <= clock k')
}.

(** No descriptor is ready: nothing but its timeout ends [epoll_wait], after at
    least that time (the clock stands still at its last value). *)
Class Idle (K : Type) {Kern : Kernel K} {C : Clock K} : Prop := {
  idle_wait t k : 0 <= t -> (k_epoll_wait t k).1.1.1 = 0 /\
    Z.min (clock k + t) (2 ^ 63 - 1) <= clock (k_epoll_wait t k).2
}.

Section tick.
Context {K : Type} {Kern : Kernel K} {Kok : KernelOk K} {C : Clock K} {Idl : Idle K}.
Implicit Types (s : @ust (@observed K)) (e : loc) (w : @observed K).

Definition time s : Z := clock (kern s).1.

Definition not_before w w' : Prop := clock w.1 <= clock w'.1.

#[export] Instance not_before_steady : Steady not_before.
Proof.
  destruct clock_steady as [[Hr Ht] H1 H2 H3 H4 H5 H6 H7].
  constructor; [split; [intros w; apply Hr|intros w1 w2 w3; apply Ht]|..]; unfold not_before; intros; simpl; auto.
Qed.

(** Time passes and nothing is recorded. *)
Definition onward w w' : Prop := not_before w w' /\ mute w w'.

#[export] Instance onward_steady : Steady onward.
Proof.
  destruct not_before_steady as [[Hr Ht] H1 H2 H3 H4 H5 H6 H7].
  destruct (@mute_steady K Kern) as [[Hr' Ht'] J1 J2 J3 J4 J5 J6 J7].
  constructor; [split|..]; [|intros a b c [A1 A2] [B1 B2]; split; [by eapply Ht|by eapply Ht']|..];
    intros; split; auto.
Qed.

Lemma record_not_before f e fd' trig arg' : moves not_before (record f e fd' trig arg').
Proof. intros s a s' [= <- <-]. unfold not_before. simpl. lia. Qed.

Lemma time_nonneg w : 0 <= (k_time_ms w).1.
Proof. simpl. pose proof (clock_range w.1). pose proof (clock_reads w.1). lia. Qed.

(** ** One turn *)

Variable g : Z -> Z.
Variable iw : Z.
Hypothesis F : few g bound.

(** A turn from [s] to [s'] that read the time [now] and fired [l]: either the
    earliest timer was due or time has passed. *)
Record turned s s' l now : Prop := {
  tn_fired : fired_all g iw (pq (nodes (timers s))) now 500 s s' l;
  tn_since : time s <= now;
  tn_until : now <= time s';
  tn_progress : forall e d, is_min (pq (nodes (timers s))) e -> pq (nodes (timers s)) !! e = Some d ->
    d < 2 ^ 63 -> d <= now \/ time s + 100 <= now
}.

Lemma fired_all_quiet T now n s s1 s' l :
  quiet s s1 -> log s1 = log s -> fired_all g iw T now n s1 s' l -> fired_all g iw T now n s s' l.
Proof.
  intros (k & b & ->) Hl [H1 H2 H3 H4 H5]. constructor; try done. by rewrite H5, Hl.
Qed.

Lemma ready_quiet s s1 : quiet s s1 -> ready s -> ready s1.
Proof. intros (k & b & ->) []. by constructor. Qed.

Lemma ready_kern s k : ready s -> ready (put_kern k s).
Proof. intros []. by constructor. Qed.

Lemma fired_all_kern T now n s k s' l :
  k.2 = log s -> fired_all g iw T now n (put_kern k s) s' l -> fired_all g iw T now n s s' l.
Proof. intros Hk [H1 H2 H3 H4 H5]. constructor; try done. rewrite H5. unfold log at 1. simpl. by rewrite Hk. Qed.

Lemma handle_timers_tick s (Q : unit -> ust -> Prop) :
  INV g iw s -> ready s ->
  (forall s' l now, fired_all g iw (pq (nodes (timers s))) now 500 s s' l -> time s <= now <= time s' -> Q tt s') ->
  wp (uevent_handle_timers record) Q s.
Proof.
  intros I Hr HQ. apply wp_bind, wp_gets. rewrite (rd_running _ Hr). cbn [negb].
  apply wp_bind, wp_syscall_eq, wp_bind, wp_syscall_eq. cbn [kern put_kern].
  pose proof (steady_lock (R:=not_before) (kern s)) as H1. set (w1 := (k_mutex_lock (kern s)).2) in *.
  assert (w1.2 = log s) as L1 by done. clearbody w1. unfold not_before in H1.
  pose proof (clock_reads w1.1) as H2. change (k_time_ms w1.1).1 with (k_time_ms w1).1 in H2.
  set (w2 := (k_time_ms w1).2) in *. change (clock (k_time_ms w1.1).2) with (clock w2.1) in H2.
  assert (w2.2 = log s) as L2 by done. clearbody w2. set (now := (k_time_ms w1).1) in *. clearbody now.
  pose proof (clock_range w2.1). apply (wp_moves not_before).
  { apply moves_timers_loop; [apply _|]. apply record_not_before. }
  eapply (timers_loop_schedule g iw F); [by apply INV_kern, INV_kern|by apply ready_kern, ready_kern|lia|].
  intros l s' Hf Hm. unfold not_before in Hm. cbn [kern put_kern] in Hm.
  apply (HQ s' l now); [|unfold time; lia].
  apply fired_all_kern in Hf; [|change (w2.2 = w1.2); congruence].
  by apply fired_all_kern in Hf.
Qed.

Lemma wp_epoll_wait t s (Q : Z * Z * list (Z * Z) -> ust -> Prop) :
  0 <= t ->
  (forall err l w, mute (kern s) w -> Z.min (time s + t) (2 ^ 63 - 1) <= clock w.1 -> Q (0, err, l) (put_kern w s)) ->
  wp (syscall (fun k => let '(n, err, l, k') := k_epoll_wait t k in ((n, err, l), k'))) Q s.
Proof.
  intros Ht HQ. destruct (idle_wait t (kern s).1 Ht) as [Hn Hw].
  unfold wp, syscall. simpl. unfold beside.
  destruct (k_epoll_wait t (kern s).1) as [[[n err] l] k]. simpl in *. subst n. by apply HQ.
Qed.

(** Reading the clock. *)
Lemma wp_tick s (Q : Z -> ust -> Prop) :
  (forall now s', quiet s s' -> log s' = log s -> time s <= time s' -> Q now s') -> wp time_ms Q s.
Proof.
  intros HQ. apply (wp_moves onward); [eauto with moves|]. apply wp_syscall_eq. intros [N1 M1].
  apply HQ; [|done|done]. eexists _, (wakeup_fd_written s). by destruct s.
Qed.

(** The wait, and the timers after it. *)
Lemma wait_and_fire_wp t s (Q : Z -> ust -> Prop) :
  INV g iw s -> ready s -> 0 <= t ->
  (forall s' l now, fired_all g iw (pq (nodes (timers s))) now 500 s s' l -> now <= time s' ->
     time s <= now -> Z.min (time s + t) (2 ^ 63 - 1) <= now -> Q 0 s') ->
  wp (epoll_wait_and_dispatch record t) Q s.
Proof.
  intros I Hr Ht HQ. unfold epoll_wait_and_dispatch.
  apply wp_bind, wp_tick. intros _ s1 Q1 L1 T1.
  apply wp_bind, wp_epoll_wait; [done|]. intros err l0 w2 M2 W2. set (s2 := put_kern w2 s1).
  assert (quiet s1 s2) as Q2 by (by exists w2, (wakeup_fd_written s1); destruct s1).
  assert (log s2 = log s1 /\ Z.min (time s1 + t) (2 ^ 63 - 1) <= time s2) as [L2 T2] by done. clearbody s2.
  apply wp_bind, wp_tick. intros _ s3 Q3 L3 T3. change (0 =? -1) with false. cbv iota.
  pose proof (INV_quiet _ _ _ _ (INV_quiet _ _ _ _ (INV_quiet _ _ _ _ I Q1) Q2) Q3) as I3.
  pose proof (ready_quiet _ _ Q3 (ready_quiet _ _ Q2 (ready_quiet _ _ Q1 Hr))) as Hr3.
  assert (timers s3 = timers s) as Ht3.
  { destruct Q1 as (? & ? & ->), Q2 as (? & ? & ->), Q3 as (? & ? & ->). done. }
  apply wp_bind, handle_timers_tick; [done..|]. rewrite Ht3. intros s' l now Hf [H1 H2].
  pose proof (clock_range (kern s1).1) as Hc1. pose proof (clock_range (kern s2).1) as Hc2. unfold time in *.
  apply wp_bind, wp_ret, wp_ret, (HQ s' l now); [|lia..].
  by apply (fired_all_quiet _ _ _ _ _ _ _ Q3 L3), (fired_all_quiet _ _ _ _ _ _ _ Q2 L2),
    (fired_all_quiet _ _ _ _ _ _ _ Q1 L1) in Hf.
Qed.

Lemma turned_wp s (Q : option Z -> ust -> Prop) :
  INV g iw s -> ready s -> pq (nodes (timers s)) <> ∅ ->
  (forall s' l now, turned s s' l now -> Q None s') -> wp (dispatch_turn record) Q s.
Proof.
  intros I Hr Hne HQ. unfold dispatch_turn. apply wp_bind, wp_gets. rewrite (rd_running _ Hr). cbn [negb].
  unfold uevent_base_has_events. apply wp_bind, wp_bind, wp_gets, wp_bind, wp_gets, wp_ret.
  rewrite (i_ntm _ _ _ I). assert (size (pq (nodes (timers s))) <> 0%nat) by by intros ?%map_size_empty_inv.
  replace ((0 <? num_active_fd s) || (0 <? Z.of_nat (size (pq (nodes (timers s)))))) with true by lia. cbn [negb].
  apply wp_bind. eapply (epoll_timeout_wp onward); [done|apply time_nonneg|by intros e k Hk; apply Hr in Hk as [? _]; lia|].
  intros t s1 Q1 Ht [N1 M1]. change (log s1 = log s) in M1. change (time s <= time s1) in N1.
  assert (timers s1 = timers s) as Ht1 by (by destruct Q1 as (? & ? & ->)).
  assert (0 <= t) as Ht0 by (destruct Ht as [[_ ->]|[(_ & -> & _)|(k & e & d & _ & _ & _ & _ & ->)]]; lia).
  apply wp_bind, wait_and_fire_wp; [by eapply INV_quiet|by eapply ready_quiet|done|]. rewrite Ht1.
  intros s' l now Hf H1 H2 H3. cbn [Z.eqb negb]. apply wp_ret, (HQ s' l now).
  constructor; [by eapply fired_all_quiet|lia|done|]. intros e d [k0 [He Hm]] He' Hd.
  pose proof (clock_range (kern s1).1). unfold time in *. pose proof (clock_range (kern s').1).
  destruct Ht as [[? _]|[(_ & -> & _)|(k & e' & d' & _ & Hk & [k1 [Hk1 Hm1]] & Hd' & ->)]]; [done|lia|].
  specialize (Hm1 _ _ He'). specialize (Hm _ _ Hd').
  assert ((k_time_ms k).1 <= clock (kern s1).1) by (rewrite Hk; apply (clock_reads k.1)).
  simplify_eq. lia.
Qed.

(** ** Many turns *)

(** [n] turns of the loop, none of which ends it. *)
Inductive turns : nat -> ust -> ust -> Prop :=
  | turns_none s : turns 0 s s
  | turns_more n s s1 s' : dispatch_turn record s = Some (None, s1) -> turns n s1 s' -> turns (S n) s s'.

Lemma one_turn s :
  INV g iw s -> ready s -> pq (nodes (timers s)) <> ∅ ->
  exists s' l now, dispatch_turn record s = Some (None, s') /\ turned s s' l now.
Proof.
  intros I Hr Hne. destruct (wp_run (dispatch_turn record) (fun r s' => r = None /\ exists l now, turned s s' l now) s)
    as (r & s' & H & -> & l & now & Ht); [|by exists s', l, now].
  apply turned_wp; eauto.
Qed.

(** What is left until the deadline [D]: firings, and time. *)
Definition distance (D : Z) s : Z := pending D (pq (nodes (timers s))) + Z.max 0 (D - time s).

Lemma turned_nearer D s s' l now e d :
  turned s s' l now -> pq (nodes (timers s)) !! e = Some d -> d <= D -> D < 2 ^ 63 ->
  0 <= distance D s' < distance D s.
Proof.
  intros [[_ _ _ Hs _] H1 H2 Hp] He Hd HD. pose proof (period_pos (evs s)) as Hpos.
  destruct (earliest (pq (nodes (timers s)))) as (x & k & Hmin); [by intros H0; rewrite H0 in He|].
  assert (k <= d) as Hkd by by eapply Hmin.
  pose proof (proj1 Hmin) as Hx.
  pose proof (schedule_pending (period_of (evs s)) now Hpos D _ _ _ _ Hs).
  pose proof (pending_nonneg D (pq (nodes (timers s')))). unfold distance.
  destruct (decide (k <= now)) as [Hk|Hk].
  - pose proof (schedule_progress (period_of (evs s)) now Hpos D 499 _ _ _ x k Hs Hx Hk ltac:(lia)). lia.
  - destruct (Hp x k ltac:(by exists k) Hx ltac:(lia)) as [?|?]; lia.
Qed.

(** After some turns from [s] the list [l] has fired, nothing of it early. *)
Record went_on s s' l : Prop := {
  wo_inv : INV g iw s';
  wo_ready : ready s';
  wo_settled : settled (evs s') = settled (evs s);
  wo_log : log s' = log s ++ calls_of (evs s) l;
  wo_time : time s <= time s';
  wo_due : Forall (fun k => k <= time s') l.*2
}.

Lemma went_on_refl s : INV g iw s -> ready s -> went_on s s [].
Proof. intros I Hr. constructor; try done. by rewrite app_nil_r. Qed.

Lemma went_on_turn s s' l now : turned s s' l now -> went_on s s' l.
Proof.
  intros [[I1 R1 S1 Hs L1] T1 T2 _]. constructor; try done; [lia|].
  eapply Forall_impl; [by eapply schedule_due|]. intros k Hk. simpl in Hk. lia.
Qed.

Lemma went_on_trans s s1 s2 l1 l2 : went_on s s1 l1 -> went_on s1 s2 l2 -> went_on s s2 (l1 ++ l2).
Proof.
  intros [A1 A2 A3 A4 A5 A6] [B1 B2 B3 B4 B5 B6]. constructor; [done|done|congruence| |lia|].
  - rewrite B4, A4, <- app_assoc. f_equal. unfold calls_of. rewrite fmap_app. f_equal.
    apply list_fmap_ext. intros _ p _. by apply settled_call.
  - rewrite fmap_app. apply Forall_app. split; [|done]. eapply Forall_impl; [exact A6|]. intros k Hk. simpl in Hk. lia.
Qed.

Lemma armed_timer_fires_in m s e d :
  distance d s <= Z.of_nat m -> INV g iw s -> ready s ->
  pq (nodes (timers s)) !! e = Some d -> d < 2 ^ 63 ->
  exists n s' l, turns n s s' /\ went_on s s' l /\ (e, d) ∈ l.
Proof.
  revert s. induction m as [|m IH]; intros s Hm I Hr He Hd;
    (destruct (one_turn s I Hr) as (s1 & l & now & Hrun & Ht); [by intros H0; rewrite H0 in He|]);
    pose proof (turned_nearer d s s1 l now e d Ht He ltac:(lia) Hd) as Hnear; [lia|].
  pose proof (went_on_turn _ _ _ _ Ht) as W1.
  destruct (schedule_waits _ _ _ _ _ _ e d (fa_schedule _ _ _ _ _ _ _ _ (tn_fired _ _ _ _ Ht)) He) as [Hin|Hw].
  - exists 1%nat, s1, l. split; [|done]. eapply turns_more; [done|constructor].
  - destruct (IH s1 ltac:(lia) (wo_inv _ _ _ W1) (wo_ready _ _ _ W1) Hw Hd) as (n & s' & l' & Hts & W2 & Hin).
    exists (S n), s', (l ++ l'). split_and!; [by eapply turns_more|by eapply went_on_trans|apply elem_of_app; by right].
Qed.

(** ** To the last timer *)

Lemma nfd_settled m : nfd_of (settled m) = nfd_of m.
Proof. unfold nfd_of, settled. rewrite map_filter_fmap, map_size_fmap. done. Qed.

Lemma went_on_nfd s s' l : INV g iw s -> went_on s s' l -> num_active_fd s' = num_active_fd s.
Proof.
  intros I W. rewrite (i_nfd _ _ _ I), (i_nfd _ _ _ (wo_inv _ _ _ W)), <- nfd_settled, (wo_settled _ _ _ W).
  apply nfd_settled.
Qed.

(** Every timer fires once, before the clock stands still. *)
Definition once s : Prop :=
  forall e k, pq (nodes (timers s)) !! e = Some k -> period_of (evs s) e = None /\ k < 2 ^ 63.

Lemma turned_once s s' l now :
  turned s s' l now -> once s ->
  once s' /\ l ++ map_to_list (pq (nodes (timers s'))) ≡ₚ map_to_list (pq (nodes (timers s))).
Proof.
  intros Ht Ho. pose proof Ht as [[_ _ S1 Hs _] _ _ _].
  destruct (schedule_once _ _ _ _ _ _ Hs) as [Hp Hin]; [intros e k Hk; by eapply Ho|].
  split; [|done]. intros e k Hk. rewrite (settled_period _ (evs s)) by done. by apply Ho, Hin.
Qed.

Lemma no_timers_left s : 
  ready s -> INV g iw s -> num_active_fd s = 0 -> pq (nodes (timers s)) = ∅ ->
  dispatch_turn record s = Some (Some UEV_ERR_OK, put_running false s).
Proof.
  intros Hr I Hfd Hq. unfold dispatch_turn, mbind, M_bind, gets. rewrite (rd_running _ Hr). simpl.
  unfold mbind, M_bind, gets, mret, M_ret, modify. rewrite Hfd, (i_ntm _ _ _ I), Hq. done.
Qed.

Lemma loop_ends m s :
  distance (2 ^ 63 - 1) s <= Z.of_nat m -> INV g iw s -> ready s -> once s -> num_active_fd s = 0 ->
  exists fuel s' l, dispatch_loop record fuel s = Some (UEV_ERR_OK, put_running false s') /\ went_on s s' l /\
    pq (nodes (timers s')) = ∅ /\ l ≡ₚ map_to_list (pq (nodes (timers s))) /\ StronglySorted Z.le l.*2.
Proof.
  revert s. induction m as [|m IH]; intros s Hm I Hr Ho Hfd;
    destruct (decide (pq (nodes (timers s)) = ∅)) as [Hq|Hq].
  1, 3: exists 1%nat, s, []; split_and!; [|by apply went_on_refl|done|by rewrite Hq, map_to_list_empty|constructor];
    cbn [dispatch_loop]; by rewrite (bind_run _ _ _ _ _ (no_timers_left s Hr I Hfd Hq)).
  all: destruct (earliest _ Hq) as (e & d & He & _); destruct (one_turn s I Hr Hq) as (s1 & l & now & Hrun & Ht);
    pose proof (Ho e d He) as [_ Hd];
    pose proof (turned_nearer (2 ^ 63 - 1) s s1 l now e d Ht He ltac:(lia) ltac:(lia)) as Hnear.
  1: lia.
  pose proof (went_on_turn _ _ _ _ Ht) as W1. destruct (turned_once _ _ _ _ Ht Ho) as [Ho1 Hp1].
  destruct (IH s1) as (fuel & s' & l' & Hl & W2 & Hq' & Hp & Hsort); [lia|apply W1|apply W1|done| |].
  { by rewrite (went_on_nfd s s1 l). }
  exists (S fuel), s', (l ++ l'). split_and!; [|by eapply went_on_trans|done| |].
  - cbn [dispatch_loop]. by rewrite (bind_run _ _ _ _ _ Hrun).
  - by rewrite Hp.
  - rewrite fmap_app. apply StronglySorted_app. pose proof (fa_schedule _ _ _ _ _ _ _ _ (tn_fired _ _ _ _ Ht)) as Hs.
    split_and!; [|by eapply (schedule_sorted _ _ (period_pos _))|done].
    intros k k' Hk Hk'. apply list_elem_of_fmap in Hk' as ([x k1] & -> & Hx). rewrite Hp, elem_of_map_to_list in Hx.
    pose proof (schedule_earliest _ _ (period_pos _) _ _ _ _ _ _ Hs Hx) as H.
    rewrite Forall_forall in H. by apply H.
Qed.

(** C5: while the loop runs on a base without workers whose descriptors are
    idle, every armed timer whose deadline the clock can reach fires: after some
    turns, none of which ends the loop, the user's function has been called for
    it, at its deadline or later, and no timer was called before its deadline. *)
Theorem armed_timers_fire s e d :
  INV g iw s -> ready s -> pq (nodes (timers s)) !! e = Some d -> d < 2 ^ 63 ->
  exists n s' l, turns n s s' /\ INV g iw s' /\ log s' = log s ++ calls_of (evs s) l /\
    (e, d) ∈ l /\ Forall (fun k => k <= time s') l.*2.
Proof.
  intros I Hr He Hd.
  destruct (armed_timer_fires_in (Z.to_nat (distance d s)) s e d ltac:(lia) I Hr He Hd) as (n & s' & l & Ht & W & Hin).
  exists n, s', l. split_and!; [done|apply W..|done|apply W].
Qed.

(** C6: on a base without workers whose descriptors are not registered,
    [uevent_base_dispatch] with timers that fire once ends with the status OK:
    every armed timer has fired exactly once, in the order of the deadlines over
    all the turns, none is left, and the base is stopped. *)
Theorem dispatch_runs_all_timers s :
  INV g iw s -> ready (put_running true s) -> once s -> num_active_fd s = 0 ->
  exists fuel s' l, uevent_base_dispatch record fuel true s = Some (UEV_ERR_OK, s') /\ INV g iw s' /\
    running s' = false /\ stopped s' = true /\ pq (nodes (timers s')) = ∅ /\
    log s' = log s ++ calls_of (evs s) l /\ l ≡ₚ map_to_list (pq (nodes (timers s))) /\
    StronglySorted Z.le l.*2.
Proof.
  intros I Hr Ho Hfd. set (s0 := put_stopped false (put_running true s)).
  assert (INV g iw s0) as I0 by by eapply INV_frame. assert (ready s0) as Hr0 by (destruct Hr; by constructor).
  destruct (loop_ends (Z.to_nat (distance (2 ^ 63 - 1) s0)) s0) as (fuel & s1 & l & Hl & W & Hq & Hp & Hs);
    [lia|done..|].
  set (s2 := put_kern (k_mutex_lock (kern s1)).2 (put_running false s1)).
  exists fuel, (put_stopped true s2), l. split_and!; try done.
  - unfold uevent_base_dispatch. cbn [negb]. rewrite (bind_run _ _ _ tt (put_running true s)) by done.
    rewrite (bind_run _ _ _ tt s0) by done. rewrite (bind_run _ _ _ _ _ Hl). change (UEV_ERR_OK =? UEV_ERR_EPOLL) with false.
    cbv iota. rewrite (bind_run _ _ _ tt (put_running false s1)); [done|].
    unfold uevent_worker_pool_wait_for_idle, uevent_worker_pool_is_idle, mbind, M_bind, gets.
    simpl. by rewrite (rd_pool _ (wo_ready _ _ _ W)).
  - eapply INV_frame; [apply W|done..].
  - exact (wo_log _ _ _ W).
Qed.

End tick.

(** ** The hypotheses hold: a clock that stands at a time, and waits that take
    exactly their timeout *)
Module TickDemo.
Import Demo.

(** The time, in milliseconds; each reading finds it one later. *)
Definition tock (z : Z) : Z := Z.max 0 (Z.min z (2 ^ 63 - 1)).

#[export] Instance ticking : Kernel Z := {
  k_epoll_ctl _ _ _ _ z := (0, z);
  k_mutex_lock z := (0, z);
  k_time_ms z := (tock (z + 1), z + 1);
  k_alloc _ z := (true, z);
  k_eventfd z := (7, z);
  k_write z := (8, 0, z);
  k_read z := (-1, EAGAIN, z);
  k_epoll_wait t z := (0, 0, [], Z.max 0 z + t)
}.

#[export] Instance ticking_ok : KernelOk Z.
Proof. constructor. done. Qed.

Lemma tock_le a b : a <= b -> tock a <= tock b.
Proof. unfold tock. lia. Qed.

#[export] Instance ticking_clock : Clock Z.
Proof.
  refine {| clock := tock |}.
  - intros k. unfold tock. lia.
  - intros k. simpl. split; [apply tock_le; lia|done].
  - constructor; [split; [intros a; lia|intros a b c; lia]|..]; intros; simpl; try lia. apply tock_le. lia.
Defined.

#[export] Instance ticking_idle : Idle Z.
Proof. constructor. intros t k Ht. split; [done|]. simpl. unfold tock. lia. Qed.

Abbreviation seen := (@observed Z).

(** Two timers, due in 30 and in 10 ms. *)
Definition two_timers : list UeventSpec.call :=
  [CCreate (-1) UEV_TIMEOUT (Some (CbUser 1)) 7; CAdd 2 30;
   CCreate (-1) UEV_TIMEOUT (Some (CbUser 2)) 8; CAdd 1 10].

Definition start : @ust seen := @s0 seen 0 (1000, []).

Definition after (p : list UeventSpec.call) : option ((Z -> Z) * @ust seen) :=
  run_calls 4 3 (fun _ => 0) p start.
Definition refs_of (p : list UeventSpec.call) : Z -> Z := match after p with Some r => r.1 | None => fun _ => 0 end.
Definition base_after (p : list UeventSpec.call) : @ust seen :=
  match after p with Some r => r.2 | None => start end.

Lemma after_ready p : ready_for 4 3 (refs_of p) (base_after p).
Proof.
  assert (ready_for 4 3 (fun _ => 0) start) as H0 by apply s0_ready.
  destruct (wp_run _ _ _ (run_calls_wp 4 3 p _ _ H0)) as (g & s & Hr & Hs).
  unfold refs_of, base_after. change (after p = Some (g, s)) in Hr. by rewrite Hr.
Qed.

Lemma INV_running g iw (s : @ust seen) : INV g iw s -> INV g iw (put_running true s).
Proof. intros I. by eapply INV_frame. Qed.

Definition two : @ust seen := base_after two_timers.

(** A periodic timer of 50 ms among descriptors, as in [Demo]. *)
Definition periodic : @ust seen := put_running true (base_after program).

Lemma after_inv p : INV (refs_of p) 3 (base_after p).
Proof. apply after_ready. Qed.

Lemma after_few p : few (refs_of p) bound.
Proof. apply after_ready. Qed.

#[local] Opaque after.

Lemma two_ready : ready (put_running true two).
Proof. apply ready_checked; vm_compute; reflexivity. Qed.

Lemma two_once : once two.
Proof.
  assert (map_Forall (fun e k => period_of (evs two) e = None /\ k < 2 ^ 63) (pq (nodes (timers two)))) as H
    by (apply (bool_decide_unpack _); vm_compute; exact I).
  intros e k Hk. exact (H e k Hk).
Qed.

Lemma dispatch_runs_all_timers_witness : exists fuel s' l,
  uevent_base_dispatch record fuel true two = Some (UEV_ERR_OK, s') /\ INV (refs_of two_timers) 3 s' /\
  running s' = false /\ stopped s' = true /\ pq (nodes (timers s')) = ∅ /\
  log s' = log two ++ calls_of (evs two) l /\ l ≡ₚ map_to_list (pq (nodes (timers two))) /\
  StronglySorted Z.le l.*2.
Proof.
  apply (dispatch_runs_all_timers (refs_of two_timers) 3 (after_few two_timers) two (after_inv two_timers)
    two_ready two_once). vm_compute. reflexivity.
Defined.

(** The order of the calls in that run. *)
Example two_run :
  (r ← uevent_base_dispatch record 4 true two; Some (r.1, c_fun <$> log r.2)) = Some (UEV_ERR_OK, [2; 1]).
Proof. vm_compute. reflexivity. Qed.

Lemma periodic_inv : INV (refs_of program) 3 periodic.
Proof. apply INV_running, after_inv. Qed.

Lemma periodic_ready : ready periodic.
Proof. apply ready_checked; vm_compute; reflexivity. Qed.

(** Its event and its deadline. *)
Definition timer_of (s : @ust seen) : loc * Z := match map_to_list (pq (nodes (timers s))) with p :: _ => p | [] => (0, 0) end.

Lemma armed_timers_fire_witness : exists n s' l,
  turns n periodic s' /\ INV (refs_of program) 3 s' /\ log s' = log periodic ++ calls_of (evs periodic) l /\
  timer_of periodic ∈ l /\ Forall (fun k => k <= time s') l.*2.
Proof.
  apply (armed_timers_fire (refs_of program) 3 (after_few program) periodic (timer_of periodic).1 (timer_of periodic).2
    periodic_inv periodic_ready); vm_compute; reflexivity.
Defined.
End TickDemo.
