(* ===== verification/UeventLimits.v ===== *)
(** * uevent: where the code stops short of its contract

    Concrete runs of [src/uevent/uevent.c] on which it has undefined behaviour,
    loses a resource or reports success for work it did not do. *)

From S2P Require Import Prelude.
From S2P Require Import MinHeap.
From S2P Require Import Uevent.
From S2P Require Import UeventInv.
From S2P Require Import UeventOps.
From S2P Require Import UeventWorker.
From S2P Require Import UeventSpec.
Import Uevent UeventWorker World.

(** Two descriptor events in the slots 2 and 1 of a running base without
    workers. *)
Definition two_events : M (@ust world) unit :=
  uevent_create_or_assign_event None true 5 (Z.lor UEV_READ UEV_PERSIST) (Some (CbUser 1)) 0;;
  uevent_add (Some 2) 0;;
  uevent_create_or_assign_event None true 6 (Z.lor UEV_READ UEV_PERSIST) (Some (CbUser 2)) 0;;
  uevent_add (Some 1) 0;;
  modify (put_running true).

(** A callback that frees the event of slot [i] when callback 1 fires. *)
Definition freeing_cb (i : Z) : Z -> loc -> Z -> Z -> Z -> M (@ust world) unit :=
  fun f _ _ _ _ => if f =? 1 then uevent_free (Some i) else mret tt.

Definition ran {A} (o : option A) : bool := bool_decide (is_Some o).

(** without workers, a callback that frees its own descriptor event makes
    the loop read the freed event, and one that frees another event of the same
    epoll batch makes it dereference a null pointer; freeing an event that is
    not in the batch is safe. *)
Theorem handle_epoll_free_in_callback :
  ran (on_base 4 0 calm (two_events;; uevent_handle_epoll (freeing_cb 2) [(2, EPOLLIN)])) = false /\
  ran (on_base 4 0 calm (two_events;; uevent_handle_epoll (freeing_cb 1) [(2, EPOLLIN); (1, EPOLLIN)])) = false /\
  ran (on_base 4 0 calm (two_events;; uevent_handle_epoll (freeing_cb 1) [(2, EPOLLIN)])) = true.
Proof. vm_compute. done. Qed.

(** [uevent_deinit] of a fresh base does not close the wake-up descriptor:
    the release of the wake-up event resets the field that holds it before the
    test. *)
Theorem uevent_deinit_leaks_wakeup_fd :
  fst <$> on_base 4 0 calm (uevent_deinit true) = Some false.
Proof. vm_compute. done. Qed.

(** A static event at the address 100 of the application. *)
Definition static_event : M (@ust world) unit :=
  ev_put 100 (UEvent false false false false false true 0 0 0 None None 0 false None);;
  heap_call (MinHeap.node_put 100 (MinHeap.Node 0 0)).

Definition assign_static : M (@ust world) (option Z) :=
  uevent_create_or_assign_event (Some 100) true 5 UEV_READ (Some (CbUser 1)) 0.

(** a static event whose assignment fails for lack of a slot stays marked as
    initialized: a second attempt is refused though a slot is free again, while
    the same attempt without the first failure succeeds. *)
Theorem failed_assign_is_final :
  fst <$> on_base 2 0 calm
    (static_event;;
     uevent_create_or_assign_event None true 6 UEV_READ None 0;;
     r1 ← assign_static;
     uevent_free (Some 0);;
     r2 ← assign_static;
     mret (r1, r2)) = Some (None, None) /\
  fst <$> on_base 2 0 calm
    (static_event;;
     uevent_create_or_assign_event None true 6 UEV_READ None 0;;
     uevent_free (Some 0);;
     assign_static) = Some (Some 0).
Proof. vm_compute. done. Qed.

Definition set_mutex_fails (b : bool) (s : @ust world) : @ust world :=
  put_kern (W (clock (kern s)) b) s.

(** when the mutex of the base cannot be taken, [uevent_add] on a timer
    returns OK without having scheduled anything; [UEV_ERR_MUTEX] is never
    returned. *)
Theorem uevent_add_reports_unscheduled_timer :
  fst <$> on_base 2 0 calm
    (uevent_create_or_assign_event None true (-1) UEV_TIMEOUT (Some (CbUser 1)) 0;;
     modify (set_mutex_fails true);;
     r ← uevent_add (Some 0) 10;
     p ← uevent_pending (Some 0) UEV_TIMEOUT;
     mret (r, p)) = Some (UEV_ERR_OK, false).
Proof. vm_compute. done. Qed.

Definition readding_cb : Z -> loc -> Z -> Z -> Z -> M (@ust world) unit :=
  fun _ _ _ _ _ => uevent_add (Some 0) 10;; mret tt.

(** an event cannot reschedule itself from inside its own callback: the lock
    taken around the callback makes [uevent_add] return BUSY, and the one-shot
    timer is lost. *)
Theorem readd_in_callback_is_lost :
  fst <$> on_base 2 0 calm
    (uevent_create_or_assign_event None true (-1) UEV_TIMEOUT (Some (CbUser 1)) 0;;
     uevent_add (Some 0) 0;;
     modify (put_running true);;
     uevent_handle_timers readding_cb;;
     uevent_pending (Some 0) UEV_TIMEOUT) = Some false.
Proof. vm_compute. done. Qed.

(** A world in which the list of free slots is refused, and one in which the worker
    pool is. *)
Definition refusing (r : resource) : Kernel unit := {|
  k_epoll_ctl _ _ _ _ w := (0, w);
  k_mutex_lock w := (0, w);
  k_time_ms w := (1000, w);
  k_alloc r' w := (negb (bool_decide (r' = r)), w);
  k_eventfd w := (7, w);
  k_write w := (8, 0, w);
  k_read w := (-1, EAGAIN, w);
  k_epoll_wait _ w := (0, 0, [], w)
|}.

(** when the list of free slots is refused, the array of slots is freed and its
    pointer kept, so that the failure path of [uevent_base_new_with_workers] frees
    it again; after any other refusal everything is given back. *)
Theorem base_new_frees_slots_twice :
  @uevent_base_new_with_workers unit (refusing RFreeArr) 4 2 tt = None /\
  forallb (fun r => match @make_base unit (refusing r) 4 2 (nothing_made tt) with
                    | Some (None, b) => bool_decide (held b = [])
                    | _ => false
                    end)
    [RBase; REpollFd; REventsArr; RHeap; RHeapArr; RUevArr; RMutex; RCond; RWorkerPool] = true.
Proof. vm_compute. done. Qed.
