(* ===== verification/KList.v ===== *)
(** * list: circular doubly linked lists

    Models the [list_head] part of [src/list/list.h].  The state is the store of
    nodes by address; a list is the cycle through its head.  [ring m h l] says
    that the nodes of [l], in this order, are the list whose head is [h]. *)

From S2P Require Import Prelude.

Module KList.

Record list_head := LH { next : loc; prev : loc }.

Abbreviation store := (gmap loc list_head).

Definition get (x : loc) : M store list_head := m ← gets (fun m => m); of_option (m !! x).
Definition set_next (x y : loc) : M store unit :=
  n ← get x; modify (fun m => <[x := LH y (prev n)]> m).
Definition set_prev (x y : loc) : M store unit :=
  n ← get x; modify (fun m => <[x := LH (next n) y]> m).

Definition INIT_LIST_HEAD (list : loc) : M store unit := set_next list list;; set_prev list list.

Definition __list_add (new prev next : loc) : M store unit :=
  set_prev next new;;
  set_next new next;;
  set_prev new prev;;
  set_next prev new.

Definition list_add (new head : loc) : M store unit :=
  h ← get head; __list_add new head (next h).

Definition list_add_tail (new head : loc) : M store unit :=
  h ← get head; __list_add new (prev h) head.

Definition __list_del (prev next : loc) : M store unit := set_prev next prev;; set_next prev next.

Definition list_del (entry : loc) : M store unit :=
  e ← get entry; __list_del (prev e) (next e).

Definition list_first_entry (head : loc) : M store loc := h ← get head; mret (next h).
Definition list_last_entry (head : loc) : M store loc := h ← get head; mret (prev h).

Definition list_empty (head : loc) : M store bool := h ← get head; mret (next h =? head).

(** The loop of [list_size] from the node [pos]. *)
Fixpoint list_size_loop (fuel : nat) (head pos count : loc) : M store Z :=
  match fuel with
  | O => ub
  | S fuel =>
      if pos =? head then mret count
      else c ← cint (count + 1); n ← get pos; list_size_loop fuel head (next n) c
  end.

Definition list_size (fuel : nat) (head : loc) : M store Z :=
  h ← get head; list_size_loop fuel head (next h) 0.

Definition list_is_empty (head : loc) : M store bool := list_empty head.
Definition list_count (fuel : nat) (head : loc) : M store Z := list_size fuel head.

Definition __list_splice (list prev' next' : loc) : M store unit :=
  l ← get list;
  let first := next l in
  let last := prev l in
  set_prev first prev';;
  set_next prev' first;;
  set_next last next';;
  set_prev next' last.

Definition list_splice (list head : loc) : M store unit :=
  e ← list_empty list;
  if (e : bool) then mret tt
  else h ← get head; __list_splice list head (next h).

Definition list_splice_init (list head : loc) : M store unit :=
  e ← list_empty list;
  if (e : bool) then mret tt
  else h ← get head; __list_splice list head (next h);; INIT_LIST_HEAD list.

End KList.
Import KList.

(** ** Links *)

Definition link (m : store) (a b : loc) : Prop :=
  (exists n, m !! a = Some n /\ next n = b) /\ (exists n, m !! b = Some n /\ prev n = a).

Fixpoint links (m : store) (c : list loc) : Prop :=
  match c with
  | a :: (b :: _) as t => link m a b /\ links m t
  | _ => True
  end.

(** The list with head [h] and nodes [l]. *)
Definition ring (m : store) (h : loc) (l : list loc) : Prop :=
  links m (h :: l ++ [h]) /\ NoDup (h :: l).

Lemma links_cons m a b t : links m (a :: b :: t) <-> link m a b /\ links m (b :: t).
Proof. done. Qed.

Lemma links_app m c a d : links m (c ++ a :: d) <-> links m (c ++ [a]) /\ links m (a :: d).
Proof.
  induction c as [|x c IH]; [by simpl; destruct d; intuition|].
  destruct c as [|y c]; [simpl; destruct d; simpl; intuition|].
  rewrite <- !app_comm_cons, !links_cons. rewrite app_comm_cons, IH. simpl. tauto.
Qed.

(** The writes that redirect [a]'s next pointer or [b]'s previous one do not
    touch the links between other nodes. *)
Definition same_next (m m' : store) (a : loc) : Prop :=
  forall n, m !! a = Some n -> exists n', m' !! a = Some n' /\ next n' = next n.
Definition same_prev (m m' : store) (b : loc) : Prop :=
  forall n, m !! b = Some n -> exists n', m' !! b = Some n' /\ prev n' = prev n.

Lemma link_same m m' a b : link m a b -> same_next m m' a -> same_prev m m' b -> link m' a b.
Proof.
  intros [(n & A1 & A2) (n' & B1 & B2)] Ha Hb.
  destruct (Ha _ A1) as (x & C1 & C2), (Hb _ B1) as (y & D1 & D2).
  split; eexists; split; try done; congruence.
Qed.

Lemma links_same m m' c :
  links m c -> (forall a, a ∈ removelast c -> same_next m m' a) ->
  (forall b, b ∈ tail c -> same_prev m m' b) -> links m' c.
Proof.
  induction c as [|a [|b c] IH]; intros H Hn Hp; [done..|].
  rewrite links_cons in *. destruct H as [H1 H2]. split.
  - eapply link_same; [done|apply Hn|apply Hp]; simpl; set_solver.
  - apply IH; [done| |].
    + intros x Hx. apply Hn. change (removelast (a :: b :: c)) with (a :: removelast (b :: c)). set_solver.
    + intros x Hx. apply Hp. simpl in *. set_solver.
Qed.

Lemma ring_link_head m h l : ring m h l -> exists n, m !! h = Some n /\ next n = List.hd h l /\ prev n = List.last l h.
Proof.
  intros [H _]. assert (link m h (List.hd h l)) as [(n & A1 & A2) _].
  { destruct l; simpl in *; tauto. }
  assert (link m (List.last l h) h) as [_ (n' & B1 & B2)].
  { destruct l as [|x l] using rev_ind; [simpl in *; tauto|]. rewrite List.last_last.
    rewrite <- app_assoc in H. rewrite app_comm_cons in H. apply links_app in H as [_ H].
    simpl in H. tauto. }
  exists n. split_and!; try done. congruence.
Qed.

(** ** The primitive writes *)

Lemma wp_get m x n (Q : list_head -> store -> Prop) : m !! x = Some n -> Q n m -> wp (get x) Q m.
Proof. intros Hx HQ. apply wp_bind, wp_gets. rewrite Hx. by apply wp_ret. Qed.

Lemma wp_set_next m x y n (Q : unit -> store -> Prop) :
  m !! x = Some n -> Q tt (<[x := LH y (prev n)]> m) -> wp (set_next x y) Q m.
Proof. intros Hx HQ. apply wp_bind. by eapply wp_get. Qed.

Lemma wp_set_prev m x y n (Q : unit -> store -> Prop) :
  m !! x = Some n -> Q tt (<[x := LH (next n) y]> m) -> wp (set_prev x y) Q m.
Proof. intros Hx HQ. apply wp_bind. by eapply wp_get. Qed.

(** [m'] differs from [m] in the next pointers of [N] and the previous pointers
    of [P] only. *)
Record differ (m m' : store) (N P : list loc) : Prop := {
  df_next : forall a, a ∉ N -> same_next m m' a;
  df_prev : forall b, b ∉ P -> same_prev m m' b;
  df_dom : dom m' = dom m;
  df_other : forall x, x ∉ N -> x ∉ P -> m' !! x = m !! x
}.

Lemma differ_refl m N P : differ m m N P.
Proof. constructor; try done; intros ? _ n Hn; by exists n. Qed.

Lemma differ_next m m' N P x y n :
  differ m m' N P -> x ∈ N -> m' !! x = Some n -> differ m (<[x := LH y (prev n)]> m') N P.
Proof.
  intros [A B C D] Hx Hn. constructor.
  - intros a Ha k Hk. destruct (A a Ha k Hk) as (k' & E1 & E2). exists k'.
    rewrite lookup_insert_ne; [done|]. by intros ->.
  - intros b Hb k Hk. destruct (B b Hb k Hk) as (k' & E1 & E2). destruct (decide (b = x)) as [->|].
    + eexists. rewrite lookup_insert_eq. split; [done|]. simpl. congruence.
    + exists k'. by rewrite lookup_insert_ne.
  - rewrite dom_insert_lookup_L; eauto.
  - intros z Hz1 Hz2. rewrite lookup_insert_ne; [auto|]. by intros ->.
Qed.

Lemma differ_prev m m' N P x y n :
  differ m m' N P -> x ∈ P -> m' !! x = Some n -> differ m (<[x := LH (next n) y]> m') N P.
Proof.
  intros [A B C D] Hx Hn. constructor.
  - intros a Ha k Hk. destruct (A a Ha k Hk) as (k' & E1 & E2). destruct (decide (a = x)) as [->|].
    + eexists. rewrite lookup_insert_eq. split; [done|]. simpl. congruence.
    + exists k'. by rewrite lookup_insert_ne.
  - intros b Hb k Hk. destruct (B b Hb k Hk) as (k' & E1 & E2). exists k'.
    rewrite lookup_insert_ne; [done|]. by intros ->.
  - rewrite dom_insert_lookup_L; eauto.
  - intros z Hz1 Hz2. rewrite lookup_insert_ne; [auto|]. by intros ->.
Qed.

Lemma differ_lookup m m' N P x n : differ m m' N P -> m !! x = Some n -> exists n', m' !! x = Some n'.
Proof.
  intros D H. apply elem_of_dom. rewrite (df_dom _ _ _ _ D). apply elem_of_dom. eauto.
Qed.

(** What a write does to the pointers read later. *)
Definition nxt (m : store) (x y : loc) : Prop := exists n, m !! x = Some n /\ next n = y.
Definition prv (m : store) (x y : loc) : Prop := exists n, m !! x = Some n /\ prev n = y.

Lemma nxt_next m x y n z w : (* a write of [x]'s next *)
  m !! x = Some n -> nxt (<[x := LH y (prev n)]> m) z w <-> (z = x /\ w = y \/ z <> x /\ nxt m z w).
Proof.
  intros Hn. unfold nxt. destruct (decide (z = x)) as [->|].
  - rewrite lookup_insert_eq. naive_solver.
  - rewrite lookup_insert_ne by done. naive_solver.
Qed.

Lemma nxt_prev m x y n z w : m !! x = Some n -> nxt (<[x := LH (next n) y]> m) z w <-> nxt m z w.
Proof.
  intros Hn. unfold nxt. destruct (decide (z = x)) as [->|].
  - rewrite lookup_insert_eq. naive_solver.
  - by rewrite lookup_insert_ne.
Qed.

Lemma prv_prev m x y n z w :
  m !! x = Some n -> prv (<[x := LH (next n) y]> m) z w <-> (z = x /\ w = y \/ z <> x /\ prv m z w).
Proof.
  intros Hn. unfold prv. destruct (decide (z = x)) as [->|].
  - rewrite lookup_insert_eq. naive_solver.
  - rewrite lookup_insert_ne by done. naive_solver.
Qed.

Lemma prv_next m x y n z w : m !! x = Some n -> prv (<[x := LH y (prev n)]> m) z w <-> prv m z w.
Proof.
  intros Hn. unfold prv. destruct (decide (z = x)) as [->|].
  - rewrite lookup_insert_eq. naive_solver.
  - by rewrite lookup_insert_ne.
Qed.

Lemma link_alt m a b : link m a b <-> nxt m a b /\ prv m b a.
Proof. done. Qed.

(** Runs a write of the list code, remembering what it changed. *)
Ltac list_write D :=
  lazymatch goal with
  | |- wp (set_next ?x _) _ ?m => idtac
  | |- wp (mbind _ (set_next ?x _)) _ ?m => apply wp_bind
  | |- wp (mbind _ (set_prev ?x _)) _ ?m => apply wp_bind
  | |- _ => idtac
  end;
  lazymatch goal with
  | |- wp (set_next ?x ?y) _ ?m =>
      let n := fresh "n" in let H := fresh "Hn" in
      assert (exists n, m !! x = Some n) as [n H] by (eapply differ_lookup; eauto);
      eapply wp_set_next; [exact H|];
      apply (differ_next _ _ _ _ x y n) in D; [|set_solver|exact H];
      pose proof (fun z w => nxt_next m x y n z w H);
      pose proof (fun z w => prv_next m x y n z w H)
  | |- wp (set_prev ?x ?y) _ ?m =>
      let n := fresh "n" in let H := fresh "Hn" in
      assert (exists n, m !! x = Some n) as [n H] by (eapply differ_lookup; eauto);
      eapply wp_set_prev; [exact H|];
      apply (differ_prev _ _ _ _ x y n) in D; [|set_solver|exact H];
      pose proof (fun z w => nxt_prev m x y n z w H);
      pose proof (fun z w => prv_prev m x y n z w H)
  end.

Lemma list_add_between m new p q np nq nn (Q : unit -> store -> Prop) :
  m !! p = Some np -> m !! q = Some nq -> m !! new = Some nn -> new <> p -> new <> q ->
  (forall m', differ m m' [p; new] [q; new] -> link m' p new -> link m' new q -> Q tt m') ->
  wp (__list_add new p q) Q m.
Proof.
  intros Hp Hq Hnew Np Nq HQ. pose proof (differ_refl m [p; new] [q; new]) as D.
  unfold __list_add. list_write D. list_write D. list_write D. list_write D.
  apply HQ; [done| |]; apply link_alt; split; naive_solver.
Qed.

Lemma list_del_between m p q np nq (Q : unit -> store -> Prop) :
  m !! p = Some np -> m !! q = Some nq ->
  (forall m', differ m m' [p] [q] -> link m' p q -> Q tt m') ->
  wp (__list_del p q) Q m.
Proof.
  intros Hp Hq HQ. pose proof (differ_refl m [p] [q]) as D.
  unfold __list_del. list_write D. list_write D.
  apply HQ; [done|]. apply link_alt; split; naive_solver.
Qed.

(** ** Inserting into and removing from a cycle *)

(** The nodes of a cycle, opened at its head, with the head at both ends. *)
Definition opened (c : list loc) : Prop := NoDup (removelast c) /\ NoDup (tail c).

Lemma removelast_app_cons (A : Type) (l : list A) x d : removelast (l ++ x :: d) = l ++ removelast (x :: d).
Proof. by apply removelast_app. Qed.

Lemma in_tail_app (pre : list loc) p x : x ∈ tail (pre ++ [p]) -> exists pre', pre = pre' ++ tail pre /\ (x ∈ tail pre \/ pre <> [] /\ x = p).
Proof. destruct pre as [|a pre]; simpl; [set_solver|]. intros H. exists [a]. set_solver. Qed.

Lemma links_around m m' pre p q post N P :
  links m (pre ++ [p]) -> links m (q :: post) -> differ m m' N P ->
  (forall a, a ∈ pre -> a ∉ N) -> (forall b, b ∈ tail (pre ++ [p]) -> b ∉ P) ->
  (forall a, a ∈ removelast (q :: post) -> a ∉ N) -> (forall b, b ∈ post -> b ∉ P) ->
  links m' (pre ++ [p]) /\ links m' (q :: post).
Proof.
  intros L1 L2 D H1 H2 H3 H4. split.
  - eapply links_same; [done| |].
    + intros a Ha. rewrite removelast_last in Ha. by apply (df_next _ _ _ _ D), H1.
    + intros b Hb. by apply (df_prev _ _ _ _ D), H2.
  - eapply links_same; [done| |].
    + intros a Ha. by apply (df_next _ _ _ _ D), H3.
    + intros b Hb. by apply (df_prev _ _ _ _ D), H4.
Qed.

Lemma tail_app_cons (pre : list loc) p x t : x ∈ tail (pre ++ [p]) ->
  NoDup (tail (pre ++ p :: t)) -> x ∉ t.
Proof.
  destruct pre as [|a pre]; simpl; [by intros ?%not_elem_of_nil|]. intros Hx Hn.
  replace (pre ++ p :: t) with ((pre ++ [p]) ++ t) in Hn by by rewrite <- app_assoc.
  apply NoDup_app in Hn as (_ & H & _). by apply H.
Qed.

Lemma opened_left pre p t : opened (pre ++ p :: t) -> forall a, a ∈ pre -> a ∉ removelast (p :: t).
Proof. intros [H _]. rewrite removelast_app_cons in H. apply NoDup_app in H. tauto. Qed.

Lemma links_insert m m' pre p q post new :
  links m (pre ++ p :: q :: post) -> opened (pre ++ p :: q :: post) -> new ∉ pre ++ p :: q :: post ->
  differ m m' [p; new] [q; new] -> link m' p new -> link m' new q ->
  links m' (pre ++ p :: new :: q :: post).
Proof.
  intros L O Hnew D L1 L2. apply links_app in L as [La [_ Lb]]. pose proof O as [O1 O2].
  pose proof (opened_left _ _ _ O) as Hl. change (removelast (p :: q :: post)) with (p :: removelast (q :: post)) in Hl.
  destruct (links_around m m' pre p q post [p; new] [q; new]) as [Ma Mb]; try done.
  - intros a Ha. specialize (Hl a Ha). set_solver.
  - intros b Hb. pose proof (tail_app_cons _ _ _ _ Hb O2). destruct (in_tail_app _ _ _ Hb) as (? & _ & Hb').
    assert (b <> new); [|set_solver]. intros ->. apply Hnew. destruct Hb' as [Hb'|[_ ->]]; [|set_solver].
    destruct pre; simpl in *; set_solver.
  - intros a Ha. rewrite removelast_app_cons in O1.
    change (removelast (p :: q :: post)) with (p :: removelast (q :: post)) in O1.
    apply NoDup_app in O1 as (_ & _ & [O1 _]%NoDup_cons).
    assert (a <> new); [|set_solver]. intros ->. apply Hnew.
    assert (new ∈ q :: post); [|set_solver]. destruct post as [|x post] using rev_ind; [simpl in Ha; set_solver|].
    rewrite app_comm_cons, removelast_last in Ha. set_solver.
  - intros b Hb. assert (b <> new) by (intros ->; set_solver).
    destruct pre as [|a pre]; simpl in O2.
    + apply NoDup_cons in O2 as [O2 _]. set_solver.
    + apply NoDup_app in O2 as (_ & _ & [_ [O2 _]%NoDup_cons]%NoDup_cons). set_solver.
  - apply links_app. split; [done|]. by rewrite !links_cons.
Qed.

Lemma links_delete m m' pre p e q post :
  links m (pre ++ p :: e :: q :: post) -> opened (pre ++ p :: e :: q :: post) ->
  differ m m' [p] [q] -> link m' p q -> links m' (pre ++ p :: q :: post).
Proof.
  intros L O D L1. apply links_app in L as [La [_ [_ Lb]]]. pose proof O as [O1 O2].
  pose proof (opened_left _ _ _ O) as Hl.
  change (removelast (p :: e :: q :: post)) with (p :: e :: removelast (q :: post)) in Hl.
  destruct (links_around m m' pre p q post [p] [q]) as [Ma Mb]; try done.
  - intros a Ha. specialize (Hl a Ha). set_solver.
  - intros b Hb. pose proof (tail_app_cons _ _ _ _ Hb O2). set_solver.
  - intros a Ha. rewrite removelast_app_cons in O1.
    change (removelast (p :: e :: q :: post)) with (p :: e :: removelast (q :: post)) in O1.
    apply NoDup_app in O1 as (_ & _ & [O1 _]%NoDup_cons). set_solver.
  - intros b Hb. destruct pre as [|a pre]; simpl in O2.
    + apply NoDup_cons in O2 as [_ [O2 _]%NoDup_cons]. set_solver.
    + apply NoDup_app in O2 as (_ & _ & [_ [_ [O2 _]%NoDup_cons]%NoDup_cons]%NoDup_cons). set_solver.
  - apply links_app. split; [done|]. by rewrite links_cons.
Qed.

(** ** The operations on lists *)

Lemma opened_ring h l : NoDup (h :: l) -> opened (h :: l ++ [h]).
Proof.
  intros H. unfold opened. rewrite app_comm_cons, removelast_last. split; [done|]. simpl.
  apply NoDup_cons in H as [H1 H2]. apply NoDup_app. split_and!; [done|set_solver|apply NoDup_singleton].
Qed.

Lemma ring_get m h l x : ring m h l -> x ∈ h :: l -> exists n, m !! x = Some n.
Proof.
  intros [L _] Hx. apply elem_of_cons in Hx as [->|Hx].
  - destruct l; simpl in L; destruct L as [[(n & H & _) _] _]; eauto.
  - apply list_elem_of_split in Hx as (l1 & l2 & ->).
    rewrite <- app_assoc in L. rewrite app_comm_cons in L. apply links_app in L as [_ L].
    destruct l2; simpl in L; destruct L as [[(n & H & _) _] _]; eauto.
Qed.

(** A list depends on its own nodes only. *)
Lemma ring_eq m m' h l : ring m h l -> (forall x, x ∈ h :: l -> m' !! x = m !! x) -> ring m' h l.
Proof.
  intros [L N] O. split; [|done].
  eapply links_same; [done| |]; intros a Ha k Hk; exists k; rewrite O; try done.
  - rewrite app_comm_cons, removelast_last in Ha. done.
  - simpl in Ha. set_solver.
Qed.

(** What an operation on a list leaves alone. *)
Definition others (m m' : store) (X : list loc) : Prop :=
  dom m' = dom m /\ forall x, x ∉ X -> m' !! x = m !! x.

Lemma list_add_wp m new h l (Q : unit -> store -> Prop) :
  ring m h l -> is_Some (m !! new) -> new ∉ h :: l ->
  (forall m', ring m' h (new :: l) -> others m m' (h :: new :: l) -> Q tt m') ->
  wp (list_add new h) Q m.
Proof.
  intros R [nn Hnn] Hnew HQ. destruct (ring_link_head _ _ _ R) as (n & Hn & Hnx & _).
  apply wp_bind. eapply wp_get; [done|]. rewrite Hnx. pose proof R as [L N].
  assert (exists q post, List.hd h l = q /\ l ++ [h] = q :: post /\ q ∈ h :: l) as (q & post & -> & Hl & Hq).
  { destruct l as [|x l]; simpl; [by exists h, []; set_solver|]. exists x, (l ++ [h]). set_solver. }
  destruct (ring_get _ _ _ q R Hq) as [nq Hnq].
  eapply (list_add_between m new h q); [done..|set_solver|set_solver|].
  intros m' D L1 L2. apply HQ.
  - split; [|apply NoDup_cons in N; rewrite !NoDup_cons; set_solver]. simpl.
    rewrite Hl. apply (links_insert m m' [] h q post new); [by rewrite <- Hl| | |done..].
    + rewrite app_nil_l, <- Hl. by apply opened_ring.
    + rewrite app_nil_l, <- Hl. set_solver.
  - split; [apply D|]. intros x Hx. apply (df_other _ _ _ _ D); set_solver.
Qed.

Lemma list_add_tail_wp m new h l (Q : unit -> store -> Prop) :
  ring m h l -> is_Some (m !! new) -> new ∉ h :: l ->
  (forall m', ring m' h (l ++ [new]) -> others m m' (h :: new :: l) -> Q tt m') ->
  wp (list_add_tail new h) Q m.
Proof.
  intros R [nn Hnn] Hnew HQ. destruct (ring_link_head _ _ _ R) as (n & Hn & _ & Hpv).
  apply wp_bind. eapply wp_get; [done|]. rewrite Hpv. pose proof R as [L N].
  assert (exists pre p, List.last l h = p /\ h :: l = pre ++ [p]) as (pre & p & -> & Hl).
  { destruct l as [|x l] using rev_ind; [by exists [], h|]. rewrite List.last_last. by exists (h :: l), x. }
  destruct (ring_get _ _ _ p R) as [np Hnp]; [rewrite Hl; set_solver|].
  assert (h :: l ++ [h] = pre ++ [p; h]) as Hc by by rewrite app_comm_cons, Hl, <- app_assoc.
  eapply (list_add_between m new p h); [done..|rewrite Hl in Hnew; set_solver|set_solver|].
  intros m' D L1 L2. apply HQ.
  - split.
    + rewrite <- app_assoc, app_comm_cons, Hl, <- app_assoc. simpl.
      apply (links_insert m m' pre p h [] new); [by rewrite <- Hc| | |done..].
      * rewrite <- Hc. by apply opened_ring.
      * rewrite <- Hc. set_solver.
    + apply NoDup_cons in N as [N1 N2]. apply NoDup_cons. split; [set_solver|].
      apply NoDup_app. split_and!; [done|set_solver|apply NoDup_singleton].
  - split; [apply D|]. intros x Hx. apply (df_other _ _ _ _ D); rewrite <- ?Hl in *; [|set_solver].
    assert (p ∈ h :: l) by (rewrite Hl; set_solver). set_solver.
Qed.

Lemma list_del_wp m e h l1 l2 (Q : unit -> store -> Prop) :
  ring m h (l1 ++ e :: l2) ->
  (forall m', ring m' h (l1 ++ l2) -> others m m' (h :: l1 ++ l2) -> Q tt m') ->
  wp (list_del e) Q m.
Proof.
  intros R HQ. pose proof R as [L N].
  assert (exists pre p, List.last l1 h = p /\ h :: l1 = pre ++ [p]) as (pre & p & _ & Hl1).
  { destruct l1 as [|x l] using rev_ind; [by exists [], h|]. rewrite List.last_last. by exists (h :: l), x. }
  assert (exists q post, l2 ++ [h] = q :: post) as (q & post & Hl2).
  { destruct l2; simpl; eauto. }
  assert (h :: (l1 ++ e :: l2) ++ [h] = pre ++ p :: e :: q :: post) as Hc.
  { rewrite <- app_assoc, app_comm_cons, Hl1, <- app_assoc. simpl. by rewrite Hl2. }
  rewrite Hc in L. pose proof L as [_ [[(np & Hp & Hp1) (ne & He & He2)] [[(ne' & He' & He1) (nq & Hq & Hq2)] _]]]%links_app.
  rewrite He in He'. injection He' as <-.
  apply wp_bind. eapply wp_get; [done|]. rewrite He1, He2.
  eapply (list_del_between m p q); [done..|]. intros m' D L1.
  assert (h :: (l1 ++ l2) ++ [h] = pre ++ p :: q :: post) as Hc'.
  { rewrite <- app_assoc, app_comm_cons, Hl1, <- app_assoc. simpl. by rewrite Hl2. }
  assert (p ∈ h :: l1) as Hp' by (rewrite Hl1; set_solver).
  assert (q ∈ l2 ++ [h]) as Hq' by (rewrite Hl2; set_solver).
  apply HQ.
  - split.
    + rewrite Hc'. eapply links_delete; [done| |done..]. rewrite <- Hc. by apply opened_ring.
    + apply NoDup_cons in N as [N1 N2]. apply NoDup_app in N2 as (N2 & N3 & [N4 N5]%NoDup_cons).
      apply NoDup_cons. split; [set_solver|]. apply NoDup_app. set_solver.
  - split; [apply D|]. intros x Hx. apply (df_other _ _ _ _ D); set_solver.
Qed.

Lemma list_empty_wp m h l (Q : bool -> store -> Prop) :
  ring m h l -> Q (bool_decide (l = [])) m -> wp (list_empty h) Q m.
Proof.
  intros R HQ. destruct (ring_link_head _ _ _ R) as (n & Hn & Hnx & _).
  apply wp_bind. eapply wp_get; [done|]. apply wp_ret. rewrite Hnx.
  replace (List.hd h l =? h) with (bool_decide (l = [])); [done|].
  destruct R as [_ N]. destruct l as [|x l]; simpl; [by rewrite Z.eqb_refl|].
  apply NoDup_cons in N as [N _]. symmetry. apply Z.eqb_neq. set_solver.
Qed.

Lemma list_first_entry_wp m h l (Q : loc -> store -> Prop) :
  ring m h l -> Q (List.hd h l) m -> wp (list_first_entry h) Q m.
Proof.
  intros R HQ. destruct (ring_link_head _ _ _ R) as (n & Hn & Hnx & _).
  apply wp_bind. eapply wp_get; [done|]. apply wp_ret. by rewrite Hnx.
Qed.

Lemma list_last_entry_wp m h l (Q : loc -> store -> Prop) :
  ring m h l -> Q (List.last l h) m -> wp (list_last_entry h) Q m.
Proof.
  intros R HQ. destruct (ring_link_head _ _ _ R) as (n & Hn & _ & Hpv).
  apply wp_bind. eapply wp_get; [done|]. apply wp_ret. by rewrite Hpv.
Qed.

Lemma INIT_LIST_HEAD_wp m h (Q : unit -> store -> Prop) :
  is_Some (m !! h) -> (forall m', ring m' h [] -> others m m' [h] -> Q tt m') ->
  wp (INIT_LIST_HEAD h) Q m.
Proof.
  intros [n Hn] HQ. pose proof (differ_refl m [h] [h]) as D. unfold INIT_LIST_HEAD.
  list_write D. list_write D. apply HQ.
  - split; [|apply NoDup_singleton]. split; [|done]. apply link_alt. split; naive_solver.
  - split; [apply D|]. intros x Hx. by apply (df_other _ _ _ _ D).
Qed.

Lemma ring_next m h l1 x l2 : ring m h (l1 ++ x :: l2) -> exists n, m !! x = Some n /\ next n = List.hd h l2.
Proof.
  intros [L _]. rewrite <- app_assoc, app_comm_cons in L. apply links_app in L as [_ L].
  destruct l2; simpl in L; destruct L as [[H _] _]; exact H.
Qed.

(** What follows the first part of a list. *)
Lemma ring_after m h l1 l2 :
  ring m h (l1 ++ l2) -> exists n, m !! List.last l1 h = Some n /\ next n = List.hd h l2.
Proof.
  destruct l1 as [|x l1 _] using rev_ind; intros R.
  - destruct (ring_link_head _ _ _ R) as (n & ? & ? & _). eauto.
  - rewrite List.last_last, <- app_assoc in *. by apply (ring_next _ _ l1).
Qed.

Lemma list_size_loop_wp m h l1 l2 count fuel (Q : Z -> store -> Prop) :
  ring m h (l1 ++ l2) -> 0 <= count -> count + zlen l2 <= int_max -> (length l2 < fuel)%nat ->
  Q (count + zlen l2) m -> wp (list_size_loop fuel h (List.hd h l2) count) Q m.
Proof.
  intros R. revert l1 count fuel R. induction l2 as [|x l2 IH]; intros l1 count fuel R Hc Hmax Hf HQ;
    (destruct fuel as [|fuel]; [simpl in Hf; lia|]); cbn [list_size_loop List.hd].
  - rewrite Z.eqb_refl. apply wp_ret. unfold zlen in HQ. simpl in HQ. by rewrite Z.add_0_r in HQ.
  - pose proof R as [L N]. destruct (Z.eqb_spec x h) as [->|Hx].
    { exfalso. apply NoDup_cons in N as [N _]. set_solver. }
    unfold zlen in *. simpl length in *.
    apply wp_bind, wp_cint; [unfold int_min, int_max in *; lia|].
    destruct (ring_next _ _ _ _ _ R) as (n & Hn & Hnx).
    apply wp_bind. eapply wp_get; [done|]. rewrite Hnx.
    apply (IH (l1 ++ [x])); [by rewrite <- app_assoc|lia|lia|lia|].
    replace (count + 1 + Z.of_nat (length l2)) with (count + Z.of_nat (S (length l2))) by lia. done.
Qed.

Lemma list_size_wp m h l fuel (Q : Z -> store -> Prop) :
  ring m h l -> zlen l <= int_max -> (length l < fuel)%nat -> Q (zlen l) m -> wp (list_size fuel h) Q m.
Proof.
  intros R Hl Hf HQ. destruct (ring_link_head _ _ _ R) as (n & Hn & Hnx & _).
  apply wp_bind. eapply wp_get; [done|]. rewrite Hnx.
  apply (list_size_loop_wp m h [] l); [done|lia|lia|done|]. by rewrite Z.add_0_l.
Qed.

(** ** Splicing *)

Lemma list_splice_between m hl first last p q nl np nq nf nla (Q : unit -> store -> Prop) :
  m !! hl = Some nl -> next nl = first -> prev nl = last ->
  m !! p = Some np -> m !! q = Some nq -> m !! first = Some nf -> m !! last = Some nla ->
  first <> q -> last <> p ->
  (forall m', differ m m' [p; last] [q; first] -> link m' p first -> link m' last q -> Q tt m') ->
  wp (__list_splice hl p q) Q m.
Proof.
  intros Hl Hf Hla Hp Hq Hnf Hnl N1 N2 HQ. pose proof (differ_refl m [p; last] [q; first]) as D.
  unfold __list_splice. apply wp_bind. eapply wp_get; [done|]. rewrite Hf, Hla.
  list_write D. list_write D. list_write D. list_write D.
  apply HQ; [done| |]; apply link_alt; split; naive_solver.
Qed.

Lemma removelast_hd (A : Type) (l : list A) d : l <> [] -> l = removelast l ++ [List.last l d].
Proof. intros. by apply app_removelast_last. Qed.

(** The nodes strictly inside a list keep their links. *)
Lemma links_inside m m' l N P :
  links m l -> differ m m' N P -> (forall a, a ∈ removelast l -> a ∉ N) ->
  (forall b, b ∈ tail l -> b ∉ P) -> links m' l.
Proof.
  intros L D H1 H2. eapply links_same; [done| |]; intros a Ha; [apply (df_next _ _ _ _ D)|apply (df_prev _ _ _ _ D)]; auto.
Qed.

Lemma links_app_l m c d : links m (c ++ d) -> links m c.
Proof.
  induction c as [|a [|b c] IH]; intros H; [done..|]. rewrite <- !app_comm_cons, links_cons in H.
  rewrite links_cons. split; [tauto|]. apply IH. rewrite <- app_comm_cons. tauto.
Qed.

Lemma links_of_ring m h l : links m (h :: l ++ [h]) -> links m l.
Proof.
  destruct l as [|x l]; [done|]. rewrite <- app_comm_cons, links_cons. intros [_ H].
  rewrite app_comm_cons in H. by eapply links_app_l.
Qed.

Lemma links_join m c d x y : links m (c ++ [x]) -> link m x y -> links m (y :: d) -> links m (c ++ x :: y :: d).
Proof. intros H1 H2 H3. apply links_app. split; [done|]. by rewrite links_cons. Qed.

Lemma not_in_removelast (l : list loc) x d : NoDup l -> l <> [] -> x ∈ removelast l -> x <> List.last l d.
Proof.
  intros N Hl Hx ->. rewrite (removelast_hd _ l d) in N by done. apply NoDup_app in N as (_ & N & _).
  apply (N _ Hx). set_solver.
Qed.

Lemma in_removelast (l : list loc) x : x ∈ removelast l -> x ∈ l.
Proof.
  destruct l as [|y l] using rev_ind; [done|]. rewrite removelast_last. set_solver.
Qed.

Lemma list_splice_ring m m' hl l h t first last q post :
  ring m hl l -> ring m h t -> NoDup (hl :: h :: l ++ t) ->
  l = first :: tail l -> l = removelast l ++ [last] -> t ++ [h] = q :: post ->
  differ m m' [h; last] [q; first] -> link m' h first -> link m' last q ->
  ring m' h (l ++ t).
Proof.
  intros [L1 _] [L2 _] N Hf Hla Hq D K1 K2.
  assert (NoDup l) as Nl by (apply NoDup_cons in N as [_ [_ N]%NoDup_cons]; by apply NoDup_app in N as [? _]).
  assert (NoDup (h :: t)) as Nt by
    (apply NoDup_cons in N as [_ [Nh N]%NoDup_cons]; apply NoDup_app in N as (_ & _ & N); apply NoDup_cons; set_solver).
  assert (forall x, x ∈ l -> x <> h /\ x ∉ t) as Nlt.
  { intros x Hx. apply NoDup_cons in N as [_ [Nh N]%NoDup_cons]. apply NoDup_app in N as (_ & N & _). set_solver. }
  assert (first ∈ l) as Hfl by (rewrite Hf; set_solver).
  assert (last ∈ l) as Hll by (rewrite Hla; set_solver).
  assert (q ∈ h :: t) as Hqt by (assert (q ∈ t ++ [h]) by (rewrite Hq; set_solver); set_solver).
  split; [|apply NoDup_cons in N as [_ N]; done].
  assert (links m' l) as Ml.
  { apply (links_inside m m' l [h; last] [q; first]); [|done| |].
    - by eapply links_of_ring.
    - intros a Ha [->| [->| []%elem_of_nil]%elem_of_cons]%elem_of_cons; [apply in_removelast, Nlt in Ha; tauto|].
      apply (not_in_removelast l last 0 Nl) in Ha; [|by intros ->]. apply Ha. rewrite Hla at 1. by rewrite List.last_last.
    - intros b Hb [->| [->| []%elem_of_nil]%elem_of_cons]%elem_of_cons.
      + assert (q ∈ l) as X by (rewrite Hf; set_solver). apply Nlt in X. set_solver.
      + rewrite Hf in Nl. by apply NoDup_cons in Nl as [Nl _]. }
  assert (links m' (q :: post)) as Mt.
  { apply (links_inside m m' (q :: post) [h; last] [q; first]); [|done| |].
    - rewrite Hq in L2. by apply links_cons in L2 as [_ L2].
    - rewrite <- Hq, removelast_last. intros a Ha. apply NoDup_cons in Nt as [Nt _].
      assert (last ∉ t) by (by apply Nlt). set_solver.
    - intros b Hb. simpl in Hb. assert (b ∈ t ++ [h]) as Hb' by (rewrite Hq; set_solver).
      assert (b <> first) by (intros ->; specialize (Nlt first Hfl); set_solver).
      assert (b <> q); [|set_solver]. intros ->.
      assert (NoDup (t ++ [h])) as X.
      { apply NoDup_cons in Nt as [X1 X2]. apply NoDup_app. split_and!; [done|set_solver|apply NoDup_singleton]. }
      rewrite Hq in X. by apply NoDup_cons in X as [X _]. }
  assert (links m' (h :: l)) as Mh by (rewrite Hf in *; rewrite links_cons; done).
  rewrite <- app_assoc, Hq. clear -Hla Mh Mt K2. revert Hla. generalize (removelast l). intros l0 ->.
  rewrite <- app_assoc, app_comm_cons. by apply links_join.
Qed.

Lemma __list_splice_wp m hl l h t (Q : unit -> store -> Prop) :
  ring m hl l -> ring m h t -> NoDup (hl :: h :: l ++ t) -> l <> [] ->
  (forall m', ring m' h (l ++ t) -> m' !! hl = m !! hl -> others m m' (h :: l ++ t) -> Q tt m') ->
  wp (n ← get h; __list_splice hl h (next n)) Q m.
Proof.
  intros R1 R2 N E HQ.
  destruct (ring_link_head _ _ _ R1) as (nl & Hnl & Hnx & Hpv).
  destruct (ring_link_head _ _ _ R2) as (n & Hn & Hhx & _).
  apply wp_bind. eapply wp_get; [done|]. rewrite Hhx.
  assert (exists q post, List.hd h t = q /\ t ++ [h] = q :: post /\ q ∈ h :: t) as (q & post & -> & Hq & Hqt).
  { destruct t as [|x t]; simpl; [by exists h, []; set_solver|]. exists x, (t ++ [h]). set_solver. }
  pose proof (removelast_hd _ l hl E) as Hla.
  assert (l = List.hd hl l :: tail l) as Hf by by destruct l.
  assert (List.hd hl l ∈ l) as Hfl by (rewrite Hf at 2; set_solver).
  assert (List.last l hl ∈ l) as Hll by (rewrite Hla at 2; set_solver).
  destruct (ring_get _ _ _ (List.hd hl l) R1) as [nf Hnf]; [set_solver|].
  destruct (ring_get _ _ _ (List.last l hl) R1) as [nla Hnla]; [set_solver|].
  destruct (ring_get _ _ _ q R2 Hqt) as [nq Hnq].
  apply NoDup_cons in N as N'. destruct N' as [Nhl [Nh N3]%NoDup_cons]. apply NoDup_app in N3 as (_ & N3 & _).
  eapply (list_splice_between m hl _ _ h q); [done..| | |].
  - intros X. rewrite <- X in Hqt. specialize (N3 _ Hfl). set_solver.
  - set_solver.
  - intros m' D K1 K2. assert (hl <> q) by (intros ->; set_solver). apply HQ.
    + by eapply (list_splice_ring m m' hl l h t (List.hd hl l) (List.last l hl)).
    + clear -D Nhl Hll Hfl H. revert D Hll Hfl. generalize (List.last l hl), (List.hd hl l). intros la fi D ??.
      apply (df_other _ _ _ _ D); set_solver.
    + split; [apply D|]. clear -D Hll Hfl Hqt. revert D Hll Hfl. generalize (List.last l hl), (List.hd hl l). intros la fi D ?? x Hx.
      apply (df_other _ _ _ _ D); set_solver.
Qed.

Lemma list_splice_wp m hl l h t (Q : unit -> store -> Prop) :
  ring m hl l -> ring m h t -> NoDup (hl :: h :: l ++ t) ->
  (forall m', ring m' h (l ++ t) -> m' !! hl = m !! hl -> others m m' (h :: l ++ t) -> Q tt m') ->
  wp (list_splice hl h) Q m.
Proof.
  intros R1 R2 N HQ. apply wp_bind. eapply list_empty_wp; [done|].
  case_bool_decide as E; [subst l; apply wp_ret, HQ; done|].
  by eapply __list_splice_wp.
Qed.

Lemma list_splice_init_wp m hl l h t (Q : unit -> store -> Prop) :
  ring m hl l -> ring m h t -> NoDup (hl :: h :: l ++ t) ->
  (forall m', ring m' h (l ++ t) -> ring m' hl [] -> others m m' (hl :: h :: l ++ t) -> Q tt m') ->
  wp (list_splice_init hl h) Q m.
Proof.
  intros R1 R2 N HQ. apply wp_bind. eapply list_empty_wp; [done|].
  case_bool_decide as E; [subst l; apply wp_ret, HQ; done|].
  apply wp_seq_bind. eapply (__list_splice_wp m hl l h t); [done..|]. intros m1 A B [C1 C2].
  destruct (ring_get m hl l hl R1) as [nl Hnl]; [set_solver|].
  apply NoDup_cons in N as [N _].
  apply INIT_LIST_HEAD_wp; [rewrite B; eauto|]. intros m2 R [E1 E2]. apply HQ; [|done|].
  - destruct A as [A1 A2]. split; [|done].
    eapply links_same; [exact A1| |]; intros a Ha k Hk; exists k; rewrite E2; try done;
      [rewrite app_comm_cons, removelast_last in Ha; set_solver|simpl in Ha; set_solver].
  - split; [congruence|]. intros x Hx. rewrite E2, C2; [done|set_solver..].
Qed.
