(* ===== verification/KListSpec.v ===== *)
(** * list: what the list operations promise

    An abstract state maps the head of each list to the sequence of its nodes.
    Every sequence of operations on the pointer structure of [src/list/list.h]
    answers as the operations on sequences do, and leaves every list of the
    program well formed. *)

From S2P Require Import Prelude KList.
Import KList.

Abbreviation lists := (gmap loc (list loc)).

(** The store holds exactly the lists of [A], which share no node. *)
Record rep (m : store) (A : lists) : Prop := {
  rep_ring : forall h l, A !! h = Some l -> ring m h l;
  rep_disj : forall h1 h2 l1 l2, A !! h1 = Some l1 -> A !! h2 = Some l2 -> h1 <> h2 ->
    forall x, x ∈ h1 :: l1 -> x ∉ h2 :: l2
}.

Inductive command :=
  | Init (h : loc)
  | Add (new h : loc)
  | AddTail (new h : loc)
  | Del (e : loc)
  | SpliceInit (list h : loc)
  | IsEmpty (h : loc)
  | Count (h : loc)
  | First (h : loc)
  | Last (h : loc).

(** The calls, with enough turns for the loop of [list_size]. *)
Definition exec (fuel : nat) (c : command) : M store Z :=
  match c with
  | Init h => INIT_LIST_HEAD h;; mret 0
  | Add new h => list_add new h;; mret 0
  | AddTail new h => list_add_tail new h;; mret 0
  | Del e => list_del e;; mret 0
  | SpliceInit l h => list_splice_init l h;; mret 0
  | IsEmpty h => b ← list_is_empty h; mret (if b : bool then 1 else 0)
  | Count h => list_count fuel h
  | First h => list_first_entry h
  | Last h => list_last_entry h
  end.

Definition fresh (A : lists) (x : loc) : bool :=
  bool_decide (map_Forall (fun h l => x ∉ h :: l) A).

(** What a command does to the sequences; [None] where its precondition does
    not hold: the node must be allocated and in no list, the list must exist. *)
Definition spec (nodes : gset loc) (c : command) (A : lists) : option (Z * lists) :=
  match c with
  | Init h => if fresh A h && bool_decide (h ∈ nodes) then Some (0, <[h := []]> A) else None
  | Add new h => l ← A !! h; if fresh A new && bool_decide (new ∈ nodes) then Some (0, <[h := new :: l]> A) else None
  | AddTail new h => l ← A !! h; if fresh A new && bool_decide (new ∈ nodes) then Some (0, <[h := l ++ [new]]> A) else None
  | Del e => if bool_decide (A !! e = None) && negb (fresh A e) then Some (0, filter (fun x => x <> e) <$> A) else None
  | SpliceInit s h =>
      l ← A !! s; t ← A !! h;
      if bool_decide (s <> h) then Some (0, <[s := []]> (<[h := l ++ t]> A)) else None
  | IsEmpty h => l ← A !! h; Some (if bool_decide (l = []) then 1 else 0, A)
  | Count h => l ← A !! h; Some (zlen l, A)
  | First h => l ← A !! h; Some (List.hd h l, A)
  | Last h => l ← A !! h; Some (List.last l h, A)
  end.

Fixpoint exec_all (fuel : nat) (cs : list command) : M store (list Z) :=
  match cs with
  | [] => mret []
  | c :: cs => a ← exec fuel c; rest ← exec_all fuel cs; mret (a :: rest)
  end.

Fixpoint spec_all (nodes : gset loc) (cs : list command) (A : lists) : option (list Z * lists) :=
  match cs with
  | [] => Some ([], A)
  | c :: cs => r ← spec nodes c A; r' ← spec_all nodes cs (snd r); Some (fst r :: fst r', snd r')
  end.

(** ** The lists a command does not name *)

Lemma ring_frame m m' h l X :
  ring m h l -> others m m' X -> (forall x, x ∈ h :: l -> x ∉ X) -> ring m' h l.
Proof. intros R [_ O] HX. eapply ring_eq; [done|]. intros x Hx. apply O, HX, Hx. Qed.

Lemma fresh_spec A x : fresh A x = true <-> forall h l, A !! h = Some l -> x ∉ h :: l.
Proof. unfold fresh. rewrite bool_decide_eq_true. done. Qed.

Lemma not_fresh_spec A x : fresh A x = false -> A !! x = None -> exists h l, A !! h = Some l /\ x ∈ l.
Proof.
  unfold fresh. rewrite bool_decide_eq_false. intros H Hx.
  apply map_not_Forall in H as (h & l & H1 & H2); [|tc_solve]. exists h, l. split; [done|].
  destruct (decide (x ∈ h :: l)) as [[->|E]%elem_of_cons|]; [congruence|done|done].
Qed.

(** Replaces one list, by nodes of its own or of no list. *)
Lemma rep_insert m m' A h l' X :
  rep m A -> ring m' h l' -> others m m' X ->
  (forall h2 l2, A !! h2 = Some l2 -> h2 <> h -> forall x, x ∈ h2 :: l2 -> x ∉ X) ->
  (forall x, x ∈ h :: l' -> x ∈ X) ->
  rep m' (<[h := l']> A).
Proof.
  intros [R D] Rh O HX HX'. constructor.
  - intros h1 l1 [[<- <-]|[Hne H1]]%lookup_insert_Some; [done|].
    eapply ring_frame; [eauto|done|eauto].
  - intros h1 h2 l1 l2 [[<- <-]|[N1 H1]]%lookup_insert_Some [[<- <-]|[N2 H2]]%lookup_insert_Some Hne x Hx Hx2;
      [done| | |].
    + by eapply HX; [exact H2|done|exact Hx2|apply HX'].
    + by eapply HX; [exact H1|done|exact Hx|apply HX'].
    + by eapply D; [exact H1|exact H2|done|exact Hx|exact Hx2].
Qed.

Lemma filter_notin (e : loc) (l : list loc) : e ∉ l -> filter (fun x => x <> e) l = l.
Proof.
  induction l as [|x l IH]; intros H; [done|]. rewrite filter_cons. apply not_elem_of_cons in H as [H1 H2].
  rewrite decide_True by done. by rewrite IH.
Qed.

Lemma filter_out (e : loc) (l1 l2 : list loc) : NoDup (l1 ++ e :: l2) -> filter (fun x => x <> e) (l1 ++ e :: l2) = l1 ++ l2.
Proof.
  intros (N1 & N2 & [N3 N4]%NoDup_cons)%NoDup_app. rewrite filter_app, filter_cons, decide_False by tauto.
  rewrite !filter_notin; [done|done|]. intros H. apply (N2 _ H). set_solver.
Qed.

Lemma del_lists m A h l1 e l2 :
  rep m A -> A !! h = Some (l1 ++ e :: l2) ->
  filter (fun x => x <> e) <$> A = <[h := l1 ++ l2]> A.
Proof.
  intros [R D] Hh. apply map_eq. intros k. rewrite lookup_fmap. destruct (decide (k = h)) as [->|Hk].
  - rewrite Hh, lookup_insert_eq. simpl. f_equal. apply filter_out.
    apply R in Hh as [_ [_ N]%NoDup_cons]. done.
  - rewrite lookup_insert_ne by done. destruct (A !! k) as [l|] eqn:E; [|done]. simpl. f_equal.
    apply filter_notin. intros H. eapply (D h k); [exact Hh|exact E|done| |].
    + instantiate (1 := e). set_solver.
    + set_solver.
Qed.

Lemma rep_elem m A h l x : rep m A -> A !! h = Some l -> x ∈ h :: l -> x ∈ dom m.
Proof.
  intros [R _] H Hx. apply elem_of_dom. destruct (ring_get _ _ _ x (R _ _ H) Hx) as [n ->]. by eexists.
Qed.

Lemma rep_length m A h l : rep m A -> A !! h = Some l -> (length l < size (dom m))%nat.
Proof.
  intros R H. pose proof (rep_ring _ _ R _ _ H) as [_ N].
  assert (size (list_to_set (h :: l) : gset loc) <= size (dom m))%nat as S.
  { apply subseteq_size. intros x Hx%elem_of_list_to_set. by eapply rep_elem. }
  rewrite size_list_to_set in S by done. simpl in S. lia.
Qed.

Lemma rep_disjoint m A h l (X : list loc) :
  rep m A -> A !! h = Some l -> (forall x, x ∈ X -> x ∈ h :: l \/ fresh A x = true) ->
  forall h2 l2, A !! h2 = Some l2 -> h2 <> h -> forall x, x ∈ h2 :: l2 -> x ∉ X.
Proof.
  intros [_ D] H HX h2 l2 H2 Hne x Hx Hx'. destruct (HX x Hx') as [H3|H3].
  - by apply (D h h2 l l2) with x.
  - rewrite fresh_spec in H3. by eapply H3.
Qed.

Lemma rep_splice m m' A s l h t :
  rep m A -> A !! s = Some l -> A !! h = Some t -> s <> h -> NoDup (s :: h :: l ++ t) ->
  ring m' h (l ++ t) -> ring m' s [] -> others m m' (s :: h :: l ++ t) ->
  rep m' (<[s := []]> (<[h := l ++ t]> A)).
Proof.
  intros R Hs Hh Hne N R1 R2 O.
  assert (rep m (delete s A)) as Rd.
  { destruct R as [Ra Rb]. constructor; [intros ?? [_ ?]%lookup_delete_Some; eauto|].
    intros ???? [_ ?]%lookup_delete_Some [_ ?]%lookup_delete_Some. eauto. }
  assert (rep m' (<[h := l ++ t]> (delete s A))) as R3.
  { eapply rep_insert; [done..| |set_solver]. intros h2 l2 [Hk H2]%lookup_delete_Some H2h x Hx Hx'.
    destruct (decide (x ∈ s :: l)).
    - by apply (rep_disj _ _ R s h2 l l2) with x.
    - apply (rep_disj _ _ R h h2 t l2) with x; [done..|set_solver|done]. }
  replace (<[s := []]> (<[h := l ++ t]> A)) with (<[s := []]> (<[h := l ++ t]> (delete s A))).
  - eapply (rep_insert m' m'); [done|done|split; [done|]; intros; reflexivity| |done].
    intros h2 l2 H2 H2s x Hx ->%list_elem_of_singleton.
    apply lookup_insert_Some in H2 as [[<- <-]|[Hk [_ H2]%lookup_delete_Some]].
    + apply NoDup_cons in N as [N _]. done.
    + by apply (rep_disj _ _ R s h2 l l2) with s; [..|set_solver|].
  - apply map_eq. intros k. destruct (decide (k = s)) as [->|]; [by rewrite !lookup_insert_eq|].
    rewrite !(lookup_insert_ne _ s) by done. destruct (decide (k = h)) as [->|]; [by rewrite !lookup_insert_eq|].
    by rewrite !(lookup_insert_ne _ h), lookup_delete_ne.
Qed.

Ltac lists_case H :=
  repeat match type of H with
  | (if ?b then _ else _) = Some _ => let E := fresh "E" in destruct b eqn:E; [|discriminate]
  | (?o ≫= _) = Some _ => let l := fresh "l" in let E := fresh "E" in
      destruct o as [l|] eqn:E; [|discriminate]; cbn [mbind option_bind] in H
  end; injection H as <- <-.

Lemma exec_spec m A c a A' fuel :
  rep m A -> Z.of_nat fuel <= int_max -> (size (dom m) <= fuel)%nat ->
  spec (dom m) c A = Some (a, A') ->
  wp (exec fuel c) (fun r m' => r = a /\ rep m' A' /\ dom m' = dom m) m.
Proof.
  intros R Hfuel Hsize H. destruct c as [h|x h|x h|e|s h|h|h|h|h]; cbn [spec exec] in *; lists_case H.
  - apply andb_prop in E as [E1 E2]. apply bool_decide_eq_true, elem_of_dom in E2.
    apply wp_bind, INIT_LIST_HEAD_wp; [done|]. intros m' R' O. apply wp_ret. split_and!; [done| |apply O].
    eapply rep_insert; [done..| |done]. intros h2 l2 H2 _ x Hx ->%list_elem_of_singleton.
    rewrite fresh_spec in E1. by eapply E1.
  - apply andb_prop in E0 as [E1 E2]. apply bool_decide_eq_true, elem_of_dom in E2.
    pose proof (proj1 (fresh_spec _ _) E1) as F.
    apply wp_bind, (list_add_wp m x h l); [by apply R|done|by eapply F|].
    intros m' R' O. apply wp_ret. split_and!; [done| |apply O].
    eapply rep_insert; [done|done|done| |done].
    eapply rep_disjoint; [done|done|]. intros y. rewrite !elem_of_cons. naive_solver.
  - apply andb_prop in E0 as [E1 E2]. apply bool_decide_eq_true, elem_of_dom in E2.
    pose proof (proj1 (fresh_spec _ _) E1) as F.
    apply wp_bind, (list_add_tail_wp m x h l); [by apply R|done|by eapply F|].
    intros m' R' O. apply wp_ret. split_and!; [done| |apply O].
    eapply rep_insert; [done|done|done| |set_solver].
    eapply rep_disjoint; [done|done|]. intros y. rewrite !elem_of_cons. naive_solver.
  - apply andb_prop in E as [E1 E2]. apply bool_decide_eq_true in E1. apply negb_true_iff in E2.
    destruct (not_fresh_spec _ _ E2 E1) as (h & l & Hl & He).
    apply list_elem_of_split in He as (l1 & l2 & ->).
    apply wp_bind, (list_del_wp m e h l1 l2); [by apply R|]. intros m' R' O. apply wp_ret.
    rewrite (del_lists _ _ _ _ _ _ R Hl). split_and!; [done| |apply O].
    eapply rep_insert; [done|done|done| |done]. eapply rep_disjoint; [done|done|]. set_solver.
  - apply bool_decide_eq_true in E1.
    assert (NoDup (s :: h :: l ++ l0)) as N.
    { pose proof (rep_ring _ _ R _ _ E) as [_ [N1 N2]%NoDup_cons].
      pose proof (rep_ring _ _ R _ _ E0) as [_ [N3 N4]%NoDup_cons].
      pose proof (rep_disj _ _ R _ _ _ _ E E0 E1) as D1.
      rewrite !NoDup_cons, NoDup_app. set_solver. }
    apply wp_bind, (list_splice_init_wp m s l h l0); [by apply R|by apply R|done|].
    intros m' R1 R2 O. apply wp_ret. split_and!; [done| |apply O].
    by eapply rep_splice.
  - apply wp_bind, (list_empty_wp m h l); [by apply R|]. apply wp_ret. by case_bool_decide.
  - pose proof (rep_length _ _ _ _ R E). apply (list_size_wp m h l); [by apply R|unfold zlen; lia|lia|done].
  - apply (list_first_entry_wp m h l); [by apply R|done].
  - apply (list_last_entry_wp m h l); [by apply R|done].
Qed.

Lemma exec_all_spec m A cs answers A' fuel :
  rep m A -> Z.of_nat fuel <= int_max -> (size (dom m) <= fuel)%nat ->
  spec_all (dom m) cs A = Some (answers, A') ->
  wp (exec_all fuel cs) (fun r m' => r = answers /\ rep m' A' /\ dom m' = dom m) m.
Proof.
  intros R Hf Hs. revert m A answers R Hs.
  induction cs as [|c cs IH]; intros m A answers R Hs H; cbn [spec_all exec_all] in *; [by injection H as <- <-|].
  destruct (spec (dom m) c A) as [[a A1]|] eqn:E; [|discriminate]. cbn [mbind option_bind fst snd] in H.
  destruct (spec_all (dom m) cs A1) as [[r A2]|] eqn:E'; [|discriminate]. injection H as <- <-.
  apply wp_bind. eapply wp_mono; [by eapply exec_spec|]. intros a' m1 (-> & R1 & D1).
  apply wp_bind. eapply wp_mono; [eapply IH; [done|by rewrite D1|by rewrite D1]|].
  intros r' m2 (-> & R2 & D2). apply wp_ret. split_and!; [done..|congruence].
Qed.

(** C12: the pointer lists of list.h refine sequences of nodes: for every
    sequence of [INIT_LIST_HEAD], [list_add], [list_add_tail], [list_del],
    [list_splice_init], [list_is_empty], [list_count], [list_first_entry] and
    [list_last_entry] calls whose nodes are allocated and not in two lists at
    once, the calls dereference no dangling pointer, the loops end, every
    answer is the one of the operation on sequences, and the store then holds
    exactly the resulting lists. *)
Theorem list_refines_sequences m A cs answers A' fuel :
  rep m A -> Z.of_nat fuel <= int_max -> (size (dom m) <= fuel)%nat ->
  spec_all (dom m) cs A = Some (answers, A') ->
  exists m', exec_all fuel cs m = Some (answers, m') /\ rep m' A' /\ dom m' = dom m.
Proof.
  intros R Hf Hs H. destruct (wp_run _ _ _ (exec_all_spec _ _ _ _ _ _ R Hf Hs H)) as (r & m' & E & -> & R' & D).
  by exists m'.
Qed.

(** Six nodes, not yet initialised. *)
Definition six_nodes : store :=
  list_to_map ((fun x => (x, LH 0 0)) <$> [1; 2; 3; 4; 5; 6]).
Definition demo_commands : list command :=
  [Init 1; Init 2; Add 3 1; AddTail 4 1; Add 5 2; AddTail 6 2; Count 1; SpliceInit 2 1; Del 6;
   Count 1; IsEmpty 2; First 1; Last 1].

Lemma list_refines_sequences_witness :
  exists m', exec_all 6 demo_commands six_nodes
    = Some ([0; 0; 0; 0; 0; 0; 2; 0; 0; 3; 1; 5; 4], m')
    /\ rep m' (<[2 := []]> {[1 := [5; 3; 4]]}) /\ dom m' = dom six_nodes.
Proof.
  apply (list_refines_sequences six_nodes ∅ demo_commands).
  - constructor; intros *; by rewrite lookup_empty.
  - vm_compute. discriminate.
  - vm_compute. lia.
  - vm_compute. reflexivity.
Defined.
