(* ===== verification/UDeque.v ===== *)
(** * udeque: the deque of [src/udeque/udeque.c]

    A deque is a [list_head], at the address of the deque, and its [size]; each
    entry is a [list_head] and a data pointer, at the address of the entry.
    [malloc] is an argument of the operations that call it: [None] is a failed
    allocation.  [free] removes the block, so that a later access is undefined. *)

From S2P Require Import Prelude KList KListSpec.
Import KList.

Module UDeque.

Record memory := Mem {
  links_of : store;         (* the [list] member of every block *)
  sizes : gmap loc Z;       (* the [size] member of every [deq_t] *)
  datas : gmap loc Z        (* the [data] member of every [deq_entry_t] *)
}.

Definition on_links {A} (c : M store A) : M memory A :=
  zoom links_of (fun l m => Mem l (sizes m) (datas m)) c.
Definition get_size (deq : loc) : M memory Z := m ← gets sizes; of_option (m !! deq).
Definition set_size (deq : loc) (z : Z) : M memory unit :=
  _ ← get_size deq; modify (fun m => Mem (links_of m) (<[deq := z]> (sizes m)) (datas m)).
Definition get_data (e : loc) : M memory Z := m ← gets datas; of_option (m !! e).
Definition set_data (e d : loc) : M memory unit :=
  _ ← get_data e; modify (fun m => Mem (links_of m) (sizes m) (<[e := d]> (datas m))).

(** The contents of a new block are never read before they are written. *)
Definition malloc_deq (p : loc) : M memory unit :=
  modify (fun m => Mem (<[p := LH 0 0]> (links_of m)) (<[p := 0]> (sizes m)) (datas m)).
Definition malloc_entry (p : loc) : M memory unit :=
  modify (fun m => Mem (<[p := LH 0 0]> (links_of m)) (sizes m) (<[p := 0]> (datas m))).
Definition free_deq (p : loc) : M memory unit :=
  _ ← get_size p; modify (fun m => Mem (delete p (links_of m)) (delete p (sizes m)) (datas m)).
Definition free_entry (p : loc) : M memory unit :=
  _ ← get_data p; modify (fun m => Mem (delete p (links_of m)) (sizes m) (delete p (datas m))).

Definition deque_create (alloc : option loc) : M memory (option loc) :=
  match alloc with
  | None => mret None
  | Some deq =>
      malloc_deq deq;;
      on_links (INIT_LIST_HEAD deq);;
      set_size deq 0;;
      mret (Some deq)
  end.

Definition _deq_push (alloc : option loc) (deq : loc) (push_tail : bool) (data : Z) : M memory unit :=
  match alloc with
  | None => mret tt
  | Some item =>
      malloc_entry item;;
      set_data item data;;
      on_links (if push_tail then list_add_tail item deq else list_add item deq);;
      n ← get_size deq; n' ← cint (n + 1); set_size deq n'
  end.

Definition deq_push_tail (alloc : option loc) (deq : loc) (data : Z) : M memory unit :=
  _deq_push alloc deq true data.
Definition deq_push_head (alloc : option loc) (deq : loc) (data : Z) : M memory unit :=
  _deq_push alloc deq false data.

Definition deq_isempty (deq : loc) : M memory bool := n ← get_size deq; mret (n =? 0).

Definition _deq_pop (deq : loc) (from_tail : bool) : M memory (option loc) :=
  e ← deq_isempty deq;
  if (e : bool) then mret None
  else
    item ← on_links (if from_tail then list_last_entry deq else list_first_entry deq);
    on_links (list_del item);;
    n ← get_size deq; n' ← cint (n - 1); set_size deq n';;
    mret (Some item).

Definition deq_pop_tail (deq : loc) : M memory (option loc) := _deq_pop deq true.
Definition deq_pop_head (deq : loc) : M memory (option loc) := _deq_pop deq false.

Definition _deq_get (deq : loc) (from_tail : bool) : M memory (option loc) :=
  e ← deq_isempty deq;
  if (e : bool) then mret None
  else if from_tail then item ← on_links (list_last_entry deq); mret (Some item)
  else item ← on_links (list_first_entry deq); mret (Some item).

Definition deq_get_head (deq : loc) : M memory (option loc) := _deq_get deq false.
Definition deq_get_tail (deq : loc) : M memory (option loc) := _deq_get deq true.

(** The loop of [list_for_each_entry_safe] that frees the entries. *)
Fixpoint free_loop (fuel : nat) (head cur tmp : loc) : M memory unit :=
  match fuel with
  | O => ub
  | S fuel =>
      if cur =? head then mret tt
      else
        free_entry cur;;
        n ← on_links (get tmp); free_loop fuel head tmp (next n)
  end.

Definition deq_free (fuel : nat) (deq : loc) : M memory unit :=
  cur ← on_links (list_first_entry deq);
  n ← on_links (get cur);
  free_loop fuel deq cur (next n);;
  free_deq deq.

End UDeque.
Import UDeque.

(** ** The representation *)

(** A block the allocator may return. *)
Definition unused (m : memory) (p : loc) : Prop :=
  links_of m !! p = None /\ sizes m !! p = None /\ datas m !! p = None.

(** In the memory [m], grown from [m0], the deque [h] holds the entries [es],
    each with its data; the entries [own] were popped and are the caller's;
    nothing else changed. *)
Record deque (m0 m : memory) (h : loc) (es own : list (loc * Z)) : Prop := {
  dq_ring : ring (links_of m) h es.*1;
  dq_nodup : NoDup (h :: (es ++ own).*1);
  dq_size : sizes m !! h = Some (zlen es) /\ datas m !! h = None;
  dq_data : forall e d, (e, d) ∈ es ++ own -> datas m !! e = Some d /\ sizes m !! e = None;
  dq_old : forall x, x ∉ h :: (es ++ own).*1 ->
    links_of m !! x = links_of m0 !! x /\ sizes m !! x = sizes m0 !! x /\ datas m !! x = datas m0 !! x;
  dq_new : forall x, x ∈ h :: (es ++ own).*1 -> unused m0 x
}.

Lemma wp_on_links {A} (c : M store A) (Q : A -> memory -> Prop) m :
  wp c (fun a l => Q a (Mem l (sizes m) (datas m))) (links_of m) -> wp (on_links c) Q m.
Proof. intros H. by apply wp_zoom. Qed.

Lemma wp_get_size h z (Q : Z -> memory -> Prop) m : sizes m !! h = Some z -> Q z m -> wp (get_size h) Q m.
Proof. intros H HQ. apply wp_bind, wp_gets. rewrite H. by apply wp_ret. Qed.

Lemma wp_set_size h z z' (Q : unit -> memory -> Prop) m :
  sizes m !! h = Some z' -> Q tt (Mem (links_of m) (<[h := z]> (sizes m)) (datas m)) -> wp (set_size h z) Q m.
Proof. intros H HQ. by eapply wp_bind, wp_get_size. Qed.

Lemma wp_get_data e d (Q : Z -> memory -> Prop) m : datas m !! e = Some d -> Q d m -> wp (get_data e) Q m.
Proof. intros H HQ. apply wp_bind, wp_gets. rewrite H. by apply wp_ret. Qed.

Lemma wp_set_data e d d' (Q : unit -> memory -> Prop) m :
  datas m !! e = Some d' -> Q tt (Mem (links_of m) (sizes m) (<[e := d]> (datas m))) -> wp (set_data e d) Q m.
Proof. intros H HQ. by eapply wp_bind, wp_get_data. Qed.

Lemma dq_unused m0 m h es own p : deque m0 m h es own -> unused m p -> p ∉ h :: (es ++ own).*1.
Proof.
  intros D (H1 & H2 & H3) [->|Hp]%elem_of_cons; [destruct (dq_size _ _ _ _ _ D); congruence|].
  apply list_elem_of_fmap in Hp as ([e d] & -> & He). destruct (dq_data _ _ _ _ _ D e d He). simpl in *. congruence.
Qed.

Lemma deque_create_wp m p (Q : option loc -> memory -> Prop) :
  unused m p -> (forall m', deque m m' p [] [] -> Q (Some p) m') -> wp (deque_create (Some p)) Q m.
Proof.
  intros (U1 & U2 & U3) HQ. unfold deque_create, malloc_deq. apply wp_bind, wp_modify, wp_bind, wp_on_links.
  apply INIT_LIST_HEAD_wp; [cbn; rewrite lookup_insert_eq; eauto|]. intros l R [_ O]. cbn in *.
  apply wp_bind. eapply wp_set_size; [cbn; by rewrite lookup_insert_eq|]. apply wp_ret, HQ. cbn.
  constructor; cbn; [done|apply NoDup_singleton|by rewrite lookup_insert_eq|by intros ?? ?%not_elem_of_nil| |].
  - intros x Hx. rewrite O by done. assert (x <> p) by set_solver. by rewrite !lookup_insert_ne.
  - by intros x ->%list_elem_of_singleton.
Qed.

(** What a push changes, at either end. *)
Lemma dq_push m0 m h es own p d es' l :
  deque m0 m h es own -> unused m p -> es' ≡ₚ (p, d) :: es -> ring l h es'.*1 ->
  others (<[p := LH 0 0]> (links_of m)) l (h :: p :: es.*1) ->
  deque m0 (Mem l (<[h := zlen es + 1]> (sizes m)) (<[p := d]> (datas m))) h es' own.
Proof.
  intros D U P R [_ O]. pose proof (dq_unused _ _ _ _ _ _ D U) as Hp. pose proof U as (U1 & U2 & U3).
  assert (p <> h) by set_solver. assert (p ∉ (es ++ own).*1) by set_solver. clear Hp.
  assert (forall x, x ∈ h :: (es' ++ own).*1 <-> x = p \/ x ∈ h :: (es ++ own).*1) as E.
  { intros x. rewrite P. cbn. rewrite !elem_of_cons. tauto. }
  constructor; cbn; [done| | | | |].
  - rewrite P. cbn. pose proof (dq_nodup _ _ _ _ _ D) as N. rewrite !NoDup_cons in *. set_solver.
  - rewrite lookup_insert_eq, lookup_insert_ne by done. split; [|apply (dq_size _ _ _ _ _ D)].
    f_equal. unfold zlen. rewrite P. cbn. lia.
  - intros e z. rewrite P. cbn. intros [[= -> ->]|He]%elem_of_cons.
    + by rewrite lookup_insert_eq, lookup_insert_ne.
    + assert (e ∈ (es ++ own).*1) by (apply list_elem_of_fmap; by exists (e, z)).
      pose proof (dq_nodup _ _ _ _ _ D) as [N _]%NoDup_cons.
      rewrite !lookup_insert_ne by (intros ->; done). by apply (dq_data _ _ _ _ _ D).
  - intros x Hx. rewrite E in Hx. apply Decidable.not_or in Hx as [Hx1 Hx2].
    destruct (dq_old _ _ _ _ _ D x Hx2) as (A & B & C).
    rewrite O; [|rewrite fmap_app in Hx2; set_solver]. rewrite !lookup_insert_ne by set_solver. done.
  - intros x [->|Hx]%E; [|by apply (dq_new _ _ _ _ _ D)].
    destruct (dq_old _ _ _ _ _ D p) as (A & B & C); [set_solver|]. unfold unused. rewrite <- A, <- B, <- C. done.
Qed.

Lemma deq_push_wp m0 m h es own p d (t : bool) (Q : unit -> memory -> Prop) :
  deque m0 m h es own -> unused m p -> zlen es < int_max ->
  (forall m', deque m0 m' h (if t then es ++ [(p, d)] else (p, d) :: es) own -> Q tt m') ->
  wp (_deq_push (Some p) h t d) Q m.
Proof.
  intros D U Hn HQ. pose proof (dq_unused _ _ _ _ _ _ D U) as Hp. pose proof U as (U1 & U2 & U3).
  unfold _deq_push, malloc_entry. apply wp_bind, wp_modify, wp_bind. eapply wp_set_data; [cbn; by rewrite lookup_insert_eq|].
  cbn. rewrite insert_insert_eq. apply wp_bind, wp_on_links. cbn.
  assert (ring (<[p := LH 0 0]> (links_of m)) h es.*1) as R.
  { eapply ring_eq; [by apply (dq_ring _ _ _ _ _ D)|]. intros x Hx. apply lookup_insert_ne.
    rewrite fmap_app in Hp. set_solver. }
  assert (p ∉ h :: es.*1) by (rewrite fmap_app in Hp; set_solver).
  assert (forall l es', es' ≡ₚ (p, d) :: es -> ring l h es'.*1 -> others (<[p := LH 0 0]> (links_of m)) l (h :: p :: es.*1) ->
    (forall m', deque m0 m' h es' own -> Q tt m') ->
    wp (n ← get_size h; n' ← cint (n + 1); set_size h n') Q (Mem l (sizes m) (<[p := d]> (datas m)))) as Hfin.
  { intros l es' P R' O HQ'. destruct (dq_size _ _ _ _ _ D) as [Hs _]. pose proof (zlen_nonneg es).
    apply wp_bind. eapply wp_get_size; [done|]. apply wp_bind, wp_cint; [unfold int_min; lia|].
    eapply wp_set_size; [done|]. apply HQ'. cbn. by eapply dq_push. }
  destruct t.
  - apply (list_add_tail_wp _ p h es.*1); [done|rewrite lookup_insert_eq; eauto|done|].
    intros l R' O. apply (Hfin l (es ++ [(p, d)])); [by rewrite <- Permutation_cons_append|by rewrite fmap_app|done|done].
  - apply (list_add_wp _ p h es.*1); [done|rewrite lookup_insert_eq; eauto|done|].
    intros l R' O. by apply (Hfin l ((p, d) :: es)).
Qed.

(** What taking an entry out changes. *)
Lemma dq_take m0 m h es own es1 e d es2 l :
  deque m0 m h es own -> es = es1 ++ (e, d) :: es2 -> ring l h (es1 ++ es2).*1 ->
  others (links_of m) l (h :: (es1 ++ es2).*1) ->
  deque m0 (Mem l (<[h := zlen es - 1]> (sizes m)) (datas m)) h (es1 ++ es2) ((e, d) :: own).
Proof.
  intros D -> R [_ O].
  assert ((es1 ++ es2) ++ (e, d) :: own ≡ₚ (es1 ++ (e, d) :: es2) ++ own) as P by solve_Permutation.
  pose proof (dq_nodup _ _ _ _ _ D) as N. rewrite <- P in N.
  constructor; cbn; [done|done| | | |].
  - rewrite lookup_insert_eq. split; [|apply (dq_size _ _ _ _ _ D)]. f_equal. unfold zlen.
    rewrite !length_app. cbn. lia.
  - intros x z Hx. rewrite P in Hx. rewrite lookup_insert_ne; [by apply (dq_data _ _ _ _ _ D)|].
    intros ->. apply NoDup_cons in N as [N _]. apply N. rewrite P. apply list_elem_of_fmap. by exists (x, z).
  - intros x Hx. rewrite O; [|rewrite !fmap_app in *; set_solver]. rewrite P in Hx.
    rewrite lookup_insert_ne by set_solver. by apply (dq_old _ _ _ _ _ D).
  - intros x Hx. rewrite P in Hx. by apply (dq_new _ _ _ _ _ D).
Qed.

(** The entry a pop or a get selects. *)
Definition end_of (from_tail : bool) (es : list (loc * Z)) : option (loc * Z) :=
  if from_tail then last es else head es.
Definition without_end (from_tail : bool) (es : list (loc * Z)) : list (loc * Z) :=
  if from_tail then removelast es else tail es.

Lemma end_split t es x : end_of t es = Some x -> exists es1 es2, es = es1 ++ x :: es2 /\ without_end t es = es1 ++ es2.
Proof.
  destruct t; cbn.
  - intros (l & ->)%last_Some. exists l, []. by rewrite removelast_last, app_nil_r.
  - destruct es as [|y es]; [done|]. intros [= ->]. by exists [], es.
Qed.

Lemma deq_isempty_wp m0 m h es own (Q : bool -> memory -> Prop) :
  deque m0 m h es own -> Q (bool_decide (es = [])) m -> wp (deq_isempty h) Q m.
Proof.
  intros D HQ. destruct (dq_size _ _ _ _ _ D) as [Hs _]. apply wp_bind. eapply wp_get_size; [done|]. apply wp_ret.
  replace (zlen es =? 0) with (bool_decide (es = [])); [done|]. destruct es; [done|].
  case_bool_decide; [done|]. symmetry. apply Z.eqb_neq. unfold zlen. cbn. lia.
Qed.

Lemma end_entry_wp m0 m h es own t x (Q : loc -> memory -> Prop) :
  deque m0 m h es own -> end_of t es = Some x -> Q x.1 m ->
  wp (on_links (if t then list_last_entry h else list_first_entry h)) Q m.
Proof.
  intros D Hx HQ. pose proof (dq_ring _ _ _ _ _ D) as R. apply wp_on_links. destruct m as [l z dt], t; cbn in *.
  - apply (list_last_entry_wp _ _ _ _ R). apply last_Some in Hx as (es' & ->). rewrite fmap_app. cbn.
    by rewrite List.last_last.
  - apply (list_first_entry_wp _ _ _ _ R). destruct es; [done|]. by injection Hx as ->.
Qed.

Lemma deq_pop_wp m0 m h es own t (Q : option loc -> memory -> Prop) :
  deque m0 m h es own -> zlen es <= int_max ->
  match end_of t es with
  | None => Q None m
  | Some x => forall m', deque m0 m' h (without_end t es) (x :: own) -> Q (Some x.1) m'
  end -> wp (_deq_pop h t) Q m.
Proof.
  intros D Hm HQ. apply wp_bind. eapply deq_isempty_wp; [done|]. case_bool_decide as E.
  { subst es. replace (end_of t []) with (@None (loc * Z)) in HQ by by destruct t. by apply wp_ret. }
  destruct (end_of t es) as [[e d]|] eqn:Ee.
  2: { exfalso. destruct t; cbn in Ee; [by apply last_None in Ee|by destruct es]. }
  apply wp_bind. eapply end_entry_wp; [done..|]. cbn.
  destruct (end_split _ _ _ Ee) as (es1 & es2 & -> & E2). rewrite E2 in HQ.
  pose proof (dq_ring _ _ _ _ _ D) as R. rewrite fmap_app in R. cbn in R.
  apply wp_bind, wp_on_links. apply (list_del_wp _ e h _ _ _ R). intros l R' O. rewrite <- fmap_app in R', O.
  destruct (dq_size _ _ _ _ _ D) as [Hs _]. pose proof (zlen_nonneg (es1 ++ (e, d) :: es2)).
  apply wp_bind. eapply wp_get_size; [done|]. apply wp_bind, wp_cint; [unfold int_min, int_max in *; lia|].
  apply wp_bind. eapply wp_set_size; [done|]. apply wp_ret, HQ. eapply (dq_take m0 m); [done|reflexivity|done|done].
Qed.

Lemma deq_get_wp m0 m h es own t (Q : option loc -> memory -> Prop) :
  deque m0 m h es own -> Q (fst <$> end_of t es) m -> wp (_deq_get h t) Q m.
Proof.
  intros D HQ. apply wp_bind. eapply deq_isempty_wp; [done|]. case_bool_decide as E.
  { subst es. apply wp_ret. by destruct t. }
  destruct (end_of t es) as [x|] eqn:Ee.
  2: { exfalso. destruct t; cbn in Ee; [by apply last_None in Ee|by destruct es]. }
  pose proof (end_entry_wp _ _ _ _ _ t x (fun a m => wp (mret (Some a)) Q m) D Ee HQ) as W.
  destruct t; apply wp_bind; exact W.
Qed.

(** ** Freeing *)

Lemma wp_free_entry e d (Q : unit -> memory -> Prop) m :
  datas m !! e = Some d -> Q tt (Mem (delete e (links_of m)) (sizes m) (delete e (datas m))) ->
  wp (free_entry e) Q m.
Proof. intros H HQ. by eapply wp_bind, wp_get_data. Qed.

(** The loop frees the entries it has not reached, [r], and reads only those
    and the head. *)
Lemma free_loop_wp l h r l1 tmp fuel m (Q : unit -> memory -> Prop) :
  ring l h (l1 ++ r) -> (forall x, x ∈ h :: r -> links_of m !! x = l !! x) ->
  (forall x, x ∈ r -> is_Some (datas m !! x)) -> (length r < fuel)%nat ->
  (r = [] \/ tmp = List.hd h (tail r)) ->
  (forall m', sizes m' = sizes m ->
     (forall x, links_of m' !! x = if decide (x ∈ r) then None else links_of m !! x) ->
     (forall x, datas m' !! x = if decide (x ∈ r) then None else datas m !! x) -> Q tt m') ->
  wp (free_loop fuel h (List.hd h r) tmp) Q m.
Proof.
  revert l1 tmp fuel m. induction r as [|e r IH]; intros l1 tmp fuel m R Hl Hd Hf Ht HQ;
    (destruct fuel as [|fuel]; [cbn in Hf; lia|]); cbn [free_loop List.hd].
  { rewrite Z.eqb_refl. by apply wp_ret, HQ. }
  pose proof R as [_ N]. destruct Ht as [|Ht]; [done|]. cbn in Ht. subst tmp.
  assert (NoDup (h :: e :: r)) as N'.
  { apply NoDup_cons in N as [N1 N2]. apply NoDup_app in N2 as (_ & _ & N2). apply NoDup_cons. set_solver. }
  assert (e <> h /\ e ∉ r) as [He Her] by (rewrite !NoDup_cons in N'; set_solver).
  destruct (Z.eqb_spec e h) as [|_]; [done|]. destruct (Hd e) as [d Hde]; [set_solver|].
  apply wp_bind. eapply wp_free_entry; [done|]. apply wp_bind, wp_on_links. cbn.
  assert (exists n, links_of m !! List.hd h r = Some n /\ (r = [] \/ next n = List.hd h (tail r))) as (n & Hn & Hnx).
  { destruct r as [|y r]; cbn.
    - rewrite Hl by set_solver. destruct (ring_link_head _ _ _ R) as (n & -> & _). eauto.
    - rewrite Hl by set_solver. replace (l1 ++ e :: y :: r) with ((l1 ++ [e]) ++ y :: r) in R by by rewrite <- app_assoc.
      destruct (ring_next _ _ _ _ _ R) as (n & -> & Hnx). eauto. }
  assert (List.hd h r <> e) as Hhd by (destruct r; cbn; set_solver).
  eapply wp_get; [by rewrite lookup_delete_ne|].
  apply (IH (l1 ++ [e])); cbn.
  - by rewrite <- app_assoc.
  - intros x Hx. rewrite lookup_delete_ne by set_solver. apply Hl. set_solver.
  - intros x Hx. rewrite lookup_delete_ne by set_solver. apply Hd. set_solver.
  - cbn in Hf. lia.
  - done.
  - intros m' H1 H2 H3. apply HQ; [done| |]; intros x; rewrite ?H2, ?H3; cbn;
      destruct (decide (x = e)) as [->|]; rewrite ?lookup_delete_eq, ?lookup_delete_ne by done;
      repeat case_decide; set_solver.
Qed.

(** Freeing the deque gives back every block it had; what remains are the
    entries popped and kept. *)
Lemma deq_free_wp m0 m h es own fuel (Q : unit -> memory -> Prop) :
  deque m0 m h es own -> (length es < fuel)%nat ->
  (forall m', (forall x, x ∉ own.*1 ->
      links_of m' !! x = links_of m0 !! x /\ sizes m' !! x = sizes m0 !! x /\ datas m' !! x = datas m0 !! x) -> Q tt m') ->
  wp (deq_free fuel h) Q m.
Proof.
  intros D Hf HQ. pose proof (dq_ring _ _ _ _ _ D) as R. unfold deq_free.
  apply wp_bind, wp_on_links. apply (list_first_entry_wp _ _ _ _ R).
  apply wp_bind, wp_on_links. cbn.
  assert (exists n, links_of m !! List.hd h es.*1 = Some n /\ (es.*1 = [] \/ next n = List.hd h (tail es.*1))) as (n & Hn & Hnx).
  { destruct es as [|[y z] es]; cbn in *.
    - destruct (ring_link_head _ _ _ R) as (n & -> & _). eauto.
    - destruct (ring_next _ _ [] _ _ R) as (n & -> & Hnx). eauto. }
  eapply wp_get; [done|]. apply wp_bind. destruct m as [l z dt]; cbn in *.
  apply (free_loop_wp l h es.*1 []); [done|done| |by rewrite length_fmap|done|].
  { intros x Hx. apply list_elem_of_fmap in Hx as ([e d] & -> & He). cbn.
    destruct (dq_data _ _ _ _ _ D e d) as [H _]; [set_solver|]. cbn in H. by rewrite H. }
  intros m' H1 H2 H3. destruct (dq_size _ _ _ _ _ D) as [Hs Hd]. cbn in *.
  apply wp_bind. eapply wp_get_size; [by rewrite H1|]. apply wp_modify, HQ. cbn.
  intros x Hx. rewrite H1. destruct (decide (x = h)) as [->|Hxh].
  { rewrite !lookup_delete_eq, H3. destruct (dq_new _ _ _ _ _ D h) as (-> & -> & ->); [set_solver|].
    by case_decide. }
  rewrite !lookup_delete_ne, H2, H3 by done. case_decide as E.
  - destruct (dq_new _ _ _ _ _ D x) as (-> & -> & ->); [rewrite fmap_app; set_solver|].
    apply list_elem_of_fmap in E as ([e d] & -> & He).
    destruct (dq_data _ _ _ _ _ D e d) as [_ H]; [set_solver|done].
  - apply (dq_old _ _ _ _ _ D). rewrite fmap_app. set_solver.
Qed.
