(* ===== verification/UDequeSpec.v ===== *)
(** * udeque: the deque promises a sequence

    A client creates a deque, pushes, pops (freeing what it popped, as
    [src/udeque/main.c] does), looks at both ends, and frees the deque.  The
    answers are those of a sequence of data pointers, and all the memory comes
    back. *)

From S2P Require Import Prelude KList KListSpec UDeque.
Import KList UDeque.

Inductive dcommand :=
  | Push (at_tail : bool) (data : Z)
  | Pop (from_tail : bool)
  | Get (from_tail : bool)
  | IsEmptyQ.

Section Client.
(** [malloc] chooses a block from the current memory. *)
Context (malloc : memory -> option loc).

Definition with_malloc {A} (k : option loc -> M memory A) : M memory A := a ← gets malloc; k a.

(** The data of an entry the client received, [None] for a null entry. *)
Definition read_entry (e : option loc) : M memory (option Z) :=
  match e with Some e => d ← get_data e; mret (Some d) | None => mret None end.
Definition take_entry (e : option loc) : M memory (option Z) :=
  match e with Some e => d ← get_data e; free_entry e;; mret (Some d) | None => mret None end.

Definition dexec (h : loc) (c : dcommand) : M memory (option Z) :=
  match c with
  | Push true d => with_malloc (fun a => deq_push_tail a h d);; mret None
  | Push false d => with_malloc (fun a => deq_push_head a h d);; mret None
  | Pop true => e ← deq_pop_tail h; take_entry e
  | Pop false => e ← deq_pop_head h; take_entry e
  | Get true => e ← deq_get_tail h; read_entry e
  | Get false => e ← deq_get_head h; read_entry e
  | IsEmptyQ => b ← deq_isempty h; mret (if b : bool then Some 1 else Some 0)
  end.

Fixpoint dexec_all (h : loc) (cs : list dcommand) : M memory (list (option Z)) :=
  match cs with
  | [] => mret []
  | c :: cs => a ← dexec h c; rest ← dexec_all h cs; mret (a :: rest)
  end.

Definition client (fuel : nat) (cs : list dcommand) : M memory (option (list (option Z))) :=
  d ← with_malloc deque_create;
  match d with
  | None => mret None
  | Some h => r ← dexec_all h cs; deq_free fuel h;; mret (Some r)
  end.

(** One command on a sequence; a push whose allocation fails does nothing. *)
Definition data_end (from_tail : bool) (l : list Z) : option Z := if from_tail then last l else head l.

Inductive dstep : dcommand -> list Z -> option Z -> list Z -> Prop :=
  | dpush_tail l d : dstep (Push true d) l None (l ++ [d])
  | dpush_head l d : dstep (Push false d) l None (d :: l)
  | dpush_fails l d t m : malloc m = None -> dstep (Push t d) l None l
  | dpop_tail l : dstep (Pop true) l (last l) (removelast l)
  | dpop_head l : dstep (Pop false) l (head l) (tail l)
  | dget t l : dstep (Get t) l (data_end t l) l
  | dempty l : dstep IsEmptyQ l (Some (if bool_decide (l = []) then 1 else 0)) l.

Inductive dsteps : list dcommand -> list Z -> list (option Z) -> list Z -> Prop :=
  | dsteps_nil l : dsteps [] l [] l
  | dsteps_cons c cs l a l1 r l2 : dstep c l a l1 -> dsteps cs l1 r l2 -> dsteps (c :: cs) l (a :: r) l2.

Hypothesis malloc_unused : forall m p, malloc m = Some p -> unused m p.

Lemma malloc_wp {A} (k : option loc -> M memory A) (Q : A -> memory -> Prop) m :
  wp (k (malloc m)) Q m -> wp (with_malloc k) Q m.
Proof. intros H. by apply wp_bind, wp_gets. Qed.

Lemma dq_free_own m0 m h es x m' :
  deque m0 m h es [x] -> m' = Mem (delete x.1 (links_of m)) (sizes m) (delete x.1 (datas m)) -> deque m0 m' h es [].
Proof.
  intros D ->. destruct x as [e d]. pose proof (dq_nodup _ _ _ _ _ D) as N. rewrite fmap_app in N. cbn in N.
  apply NoDup_cons in N as [N1 N2]. apply NoDup_app in N2 as (N2 & N3 & _).
  assert (e ∉ h :: es.*1) as He by (intros [->|H]%elem_of_cons; set_solver).
  constructor; cbn.
  - eapply ring_eq; [by apply (dq_ring _ _ _ _ _ D)|]. intros y Hy. apply lookup_delete_ne. set_solver.
  - rewrite app_nil_r. apply NoDup_cons. set_solver.
  - rewrite lookup_delete_ne by set_solver. apply (dq_size _ _ _ _ _ D).
  - rewrite app_nil_r. intros y z Hy.
    assert (e <> y) by (intros ->; apply He; apply elem_of_cons; right; apply list_elem_of_fmap; by exists (y, z)).
    rewrite lookup_delete_ne by done. apply (dq_data _ _ _ _ _ D). set_solver.
  - rewrite app_nil_r. intros y Hy. destruct (decide (y = e)) as [->|].
    + rewrite !lookup_delete_eq. destruct (dq_data _ _ _ _ _ D e d) as [_ ->]; [set_solver|].
      destruct (dq_new _ _ _ _ _ D e) as (-> & -> & ->); [rewrite fmap_app; set_solver|]. done.
    + rewrite !lookup_delete_ne by done. apply (dq_old _ _ _ _ _ D). rewrite fmap_app. set_solver.
  - rewrite app_nil_r. intros y Hy. apply (dq_new _ _ _ _ _ D). rewrite fmap_app. set_solver.
Qed.

Lemma take_entry_wp m0 m h es x (Q : option Z -> memory -> Prop) :
  deque m0 m h es [x] -> (forall m', deque m0 m' h es [] -> Q (Some x.2) m') -> wp (take_entry (Some x.1)) Q m.
Proof.
  intros D HQ. destruct x as [e d]. destruct (dq_data _ _ _ _ _ D e d) as [He _]; [set_solver|].
  apply wp_bind. eapply wp_get_data; [done|]. apply wp_bind. eapply wp_free_entry; [done|].
  apply wp_ret, HQ. by eapply dq_free_own.
Qed.

Lemma end_of_data t es : data_end t es.*2 = snd <$> end_of t es.
Proof. unfold data_end, end_of. destruct t; [by rewrite fmap_last|by destruct es]. Qed.

Lemma without_end_data t (es : list (loc * Z)) :
  (without_end t es).*2 = if t then removelast es.*2 else tail es.*2.
Proof.
  unfold without_end. destruct t; [|by destruct es]. destruct es as [|x es] using rev_ind; [done|].
  rewrite removelast_last, fmap_app. symmetry. apply removelast_last.
Qed.

Lemma pop_take_wp m0 m h es t (Q : option Z -> memory -> Prop) :
  deque m0 m h es [] -> zlen es <= int_max ->
  (forall m', deque m0 m' h (without_end t es) [] -> Q (data_end t es.*2) m') ->
  wp (e ← _deq_pop h t; take_entry e) Q m.
Proof.
  intros D Hm HQ. rewrite end_of_data in HQ. apply wp_bind. eapply deq_pop_wp; [done..|].
  destruct (end_of t es) as [x|] eqn:E; cbn in *.
  - intros m' D'. eapply take_entry_wp; [done|]. done.
  - apply wp_ret, HQ. replace (without_end t es) with es; [done|].
    destruct t; cbn in E; [apply last_None in E as ->|destruct es]; done.
Qed.

Lemma dexec_wp m0 m h es c :
  deque m0 m h es [] -> zlen es < int_max ->
  wp (dexec h c) (fun a m' => exists es', deque m0 m' h es' [] /\ (length es' <= S (length es))%nat /\
    dstep c es.*2 a es'.*2) m.
Proof.
  intros D Hm. destruct c as [[|] d|[|]|t|]; cbn [dexec].
  - apply wp_bind, malloc_wp. destruct (malloc m) as [p|] eqn:E.
    + eapply (deq_push_wp _ _ _ _ _ _ _ true); [done|by apply malloc_unused|done|]. intros m' D'. apply wp_ret.
      exists (es ++ [(p, d)]). rewrite fmap_app, length_app. cbn. split_and!; [done|lia|constructor].
    + apply wp_ret, wp_ret. exists es. split_and!; [done|lia|]. by eapply dpush_fails.
  - apply wp_bind, malloc_wp. destruct (malloc m) as [p|] eqn:E.
    + eapply (deq_push_wp _ _ _ _ _ _ _ false); [done|by apply malloc_unused|done|]. intros m' D'. apply wp_ret.
      exists ((p, d) :: es). cbn. split_and!; [done|lia|constructor].
    + apply wp_ret, wp_ret. exists es. split_and!; [done|lia|]. by eapply dpush_fails.
  - eapply (pop_take_wp _ _ _ _ true); [done|lia|]. intros m' D'. eexists. split_and!; [done| |].
    + cbn. destruct es as [|x es] using rev_ind; [cbn; lia|]. rewrite removelast_last, length_app. cbn. lia.
    + rewrite without_end_data. constructor.
  - eapply (pop_take_wp _ _ _ _ false); [done|lia|]. intros m' D'. eexists. split_and!; [done| |].
    + destruct es; cbn; lia.
    + rewrite without_end_data. constructor.
  - assert (wp (e ← _deq_get h t; read_entry e) (fun a m' => a = data_end t es.*2 /\ m' = m) m) as W.
    { apply wp_bind. eapply deq_get_wp; [done|]. rewrite end_of_data.
      destruct (end_of t es) as [[e d]|] eqn:E; cbn; [|by apply wp_ret].
      destruct (end_split _ _ _ E) as (es1 & es2 & -> & _).
      destruct (dq_data _ _ _ _ _ D e d) as [He _]; [set_solver|].
      apply wp_bind. eapply wp_get_data; [done|]. by apply wp_ret. }
    destruct t; (eapply wp_mono; [exact W|]); intros a m' [-> ->]; exists es; split_and!; try done; try lia; constructor.
  - apply wp_bind. eapply deq_isempty_wp; [done|]. apply wp_ret. exists es. split_and!; [done|lia|].
    replace (bool_decide (es = [])) with (bool_decide (es.*2 = [])); [|destruct es; done].
    pose proof (dempty es.*2) as X. by case_bool_decide.
Qed.

Lemma dexec_all_wp m0 m h es cs :
  deque m0 m h es [] -> zlen es + zlen cs <= int_max ->
  wp (dexec_all h cs) (fun r m' => exists es', deque m0 m' h es' [] /\ (length es' <= length es + length cs)%nat /\
    dsteps cs es.*2 r es'.*2) m.
Proof.
  revert m es. induction cs as [|c cs IH]; intros m es D Hm; cbn [dexec_all].
  - apply wp_ret. exists es. split_and!; [done|lia|constructor].
  - unfold zlen in *. cbn [length] in Hm. apply wp_bind. eapply wp_mono; [eapply dexec_wp; [done|unfold zlen; lia]|].
    intros a m1 (es1 & D1 & L1 & S1). apply wp_bind. eapply wp_mono; [eapply IH; [done|unfold zlen; lia]|].
    intros r m2 (es2 & D2 & L2 & S2). apply wp_ret. exists es2. split_and!; [done|cbn; lia|].
    by eapply dsteps_cons.
Qed.

(** C13: for every sequence of pushes, pops, looks and emptiness tests, on a
    deque created by [deque_create] and released by [deq_free], nothing
    undefined happens (no dangling pointer, no overflow of [size]), the loop of
    [deq_free] ends, the answers are those of the operations on a sequence of
    data pointers (a push does nothing only where [malloc] failed), and at the
    end the memory is exactly what it was: nothing leaks and nothing of another
    owner is touched. *)
Theorem deque_refines_sequence m0 cs fuel :
  zlen cs <= int_max -> (length cs < fuel)%nat ->
  exists r, client fuel cs m0 = Some (r, m0) /\
    match r with
    | None => malloc m0 = None
    | Some answers => exists l, dsteps cs [] answers l
    end.
Proof.
  intros Hc Hf.
  assert (wp (client fuel cs) (fun r m => m = m0 /\
    match r with None => malloc m0 = None | Some a => exists l, dsteps cs [] a l end) m0) as W.
  { unfold client. apply wp_bind, malloc_wp. destruct (malloc m0) as [h|] eqn:E; [|by apply wp_ret, wp_ret].
    apply deque_create_wp; [by apply malloc_unused|]. intros m1 D1. apply wp_bind.
    eapply wp_mono; [eapply dexec_all_wp; [done|unfold zlen in *; cbn; lia]|]. intros r m2 (es & D2 & L & St).
    apply wp_bind. eapply deq_free_wp; [done|cbn in L; lia|]. intros m3 H. apply wp_ret. split; [|eauto].
    destruct m3, m0. cbn in *. f_equal; apply map_eq; intros x; apply H, not_elem_of_nil. }
  destruct (wp_run _ _ _ W) as (r & m & E & -> & H). by exists r.
Qed.
End Client.

(** An allocator with three blocks, the lowest free one first. *)
Definition three_blocks (m : memory) : option loc :=
  List.find (fun p => bool_decide (unused m p)) [1; 2; 3].

Lemma three_blocks_unused m p : three_blocks m = Some p -> unused m p.
Proof. intros H. apply List.find_some in H as [_ H]. by apply bool_decide_eq_true in H. Qed.

Lemma deque_refines_sequence_witness :
  let cs := [Push true 7; Push false 8; Push true 9; Get true; Pop false; Pop true; Pop true; IsEmptyQ] in
  client three_blocks 9 cs (Mem ∅ ∅ ∅)
    = Some (Some [None; None; None; Some 7; Some 8; Some 7; None; Some 1], Mem ∅ ∅ ∅)
  /\ exists r, client three_blocks 9 cs (Mem ∅ ∅ ∅) = Some (r, Mem ∅ ∅ ∅) /\
    match r with
    | None => three_blocks (Mem ∅ ∅ ∅) = None
    | Some answers => exists l, dsteps three_blocks cs [] answers l
    end.
Proof.
  intros cs. split; [vm_compute; reflexivity|].
  apply (deque_refines_sequence three_blocks three_blocks_unused (Mem ∅ ∅ ∅) cs 9).
  - vm_compute. discriminate.
  - vm_compute. lia.
Defined.
