(* ===== verification/HTable.v ===== *)
(** * htable: the hash table of [src/htable/htable.c]

    A table is an array of buckets, each the head of an [hlist] of
    [src/list/list.h].  The [pprev] member of a node is the address of the
    pointer that points to it: a bucket of a table or the [next] member of
    another node, here a [slot].  [malloc] is an argument of the operations
    that call it; [free] removes the block. *)

From S2P Require Import Prelude.

Module HTable.

Inductive slot :=
  | Bucket (ht : loc) (i : Z)   (* &ht->buckets[i].first *)
  | NextOf (n : loc).           (* &n->next *)

#[export] Instance slot_eq_dec : EqDecision slot.
Proof. solve_decision. Defined.

Record htable_node := Node { key : Z; value : Z; hnext : option loc; pprev : slot }.
Record htable := HT { capacity : Z; buckets : list (option loc) }.
Record memory := Mem { tables : gmap loc htable; nodes : gmap loc htable_node }.

Definition get_table (ht : loc) : M memory htable := m ← gets tables; of_option (m !! ht).
Definition get_node (n : loc) : M memory htable_node := m ← gets nodes; of_option (m !! n).
Definition put_table (ht : loc) (t : htable) : M memory unit :=
  _ ← get_table ht; modify (fun m => Mem (<[ht := t]> (tables m)) (nodes m)).
Definition put_node (n : loc) (x : htable_node) : M memory unit :=
  _ ← get_node n; modify (fun m => Mem (tables m) (<[n := x]> (nodes m))).

Definition get_bucket (ht : loc) (i : Z) : M memory (option loc) :=
  t ← get_table ht; of_option (znth (buckets t) i).
Definition set_bucket (ht : loc) (i : Z) (p : option loc) : M memory unit :=
  t ← get_table ht;
  _ ← of_option (znth (buckets t) i);
  put_table ht (HT (capacity t) (zset (buckets t) i p)).

(** [*s = p] *)
Definition store_slot (s : slot) (p : option loc) : M memory unit :=
  match s with
  | Bucket ht i => set_bucket ht i p
  | NextOf n => x ← get_node n; put_node n (Node (key x) (value x) p (pprev x))
  end.

Definition set_next (n : loc) (p : option loc) : M memory unit :=
  x ← get_node n; put_node n (Node (key x) (value x) p (pprev x)).
Definition set_pprev (n : loc) (s : slot) : M memory unit :=
  x ← get_node n; put_node n (Node (key x) (value x) (hnext x) s).
Definition set_value (n : loc) (v : Z) : M memory unit :=
  x ← get_node n; put_node n (Node (key x) v (hnext x) (pprev x)).
Definition set_key (n : loc) (k : Z) : M memory unit :=
  x ← get_node n; put_node n (Node k (value x) (hnext x) (pprev x)).

Definition hlist_del (n : loc) : M memory unit :=
  x ← get_node n;
  let next := hnext x in
  let pprev := pprev x in
  store_slot pprev next;;
  match next with
  | Some next => set_pprev next pprev
  | None => mret tt
  end.

(** [hlist_add_head(n, &ht->buckets[i])] *)
Definition hlist_add_head (n ht : loc) (i : Z) : M memory unit :=
  first ← get_bucket ht i;
  set_next n first;;
  match first with
  | Some first => set_pprev first (NextOf n)
  | None => mret tt
  end;;
  set_bucket ht i (Some n);;
  set_pprev n (Bucket ht i).

(** The result is an [unsigned int]. *)
Definition htable_hash (key capacity : Z) : Z := u32 (key mod capacity).

(** The loop of [hlist_for_each_entry]. *)
Fixpoint find_loop (fuel : nat) (entry : option loc) (k : Z) : M memory (option loc) :=
  match fuel with
  | O => ub
  | S fuel =>
      match entry with
      | None => mret None
      | Some e => x ← get_node e; if key x =? k then mret (Some e) else find_loop fuel (hnext x) k
      end
  end.

Definition htable_find_node (fuel : nat) (ht : option loc) (k : Z) : M memory (option loc) :=
  match ht with
  | None => mret None
  | Some ht =>
      t ← get_table ht;
      let bucket := htable_hash k (capacity t) in
      first ← get_bucket ht bucket;
      find_loop fuel first k
  end.

(** The bytes asked for wrap at [size_t]; the array has as many buckets as the
    bytes make. *)
Definition buckets_bytes (capacity : Z) : Z := u64 (capacity * 8).

Fixpoint init_loop (fuel : nat) (ht : loc) (i : Z) : M memory unit :=
  match fuel with
  | O => ub
  | S fuel =>
      t ← get_table ht;
      if i <? capacity t then set_bucket ht i None;; init_loop fuel ht (i + 1) else mret tt
  end.

(** [malloc_ht] and [malloc_buckets] are the results of the two allocations. *)
Definition htable_create (fuel : nat) (malloc_ht : option loc) (malloc_buckets : Z -> bool) (cap : Z) :
    M memory (option loc) :=
  if cap =? 0 then mret None
  else
    match malloc_ht with
    | None => mret None
    | Some ht =>
        if malloc_buckets (buckets_bytes cap) then
          modify (fun m =>
            Mem (<[ht := HT cap (replicate (Z.to_nat (buckets_bytes cap / 8)) None)]> (tables m)) (nodes m));;
          init_loop fuel ht 0;;
          mret (Some ht)
        else mret None
    end.

Definition free_node (n : loc) : M memory unit :=
  _ ← get_node n; modify (fun m => Mem (tables m) (delete n (nodes m))).

(** [hlist_for_each_safe] over one bucket: the next pointer is read first. *)
Fixpoint free_chain (fuel : nat) (pos : option loc) : M memory unit :=
  match fuel with
  | O => ub
  | S fuel =>
      match pos with
      | None => mret tt
      | Some p => x ← get_node p; free_node p;; free_chain fuel (hnext x)
      end
  end.

Fixpoint free_buckets (fuel : nat) (chain_fuel : nat) (ht : loc) (i : Z) : M memory unit :=
  match fuel with
  | O => ub
  | S fuel =>
      t ← get_table ht;
      if i <? capacity t then
        first ← get_bucket ht i; free_chain chain_fuel first;; free_buckets fuel chain_fuel ht (i + 1)
      else mret tt
  end.

Definition htable_free (fuel chain_fuel : nat) (ht : option loc) : M memory unit :=
  match ht with
  | None => mret tt
  | Some ht =>
      free_buckets fuel chain_fuel ht 0;;
      _ ← get_table ht;
      modify (fun m => Mem (delete ht (tables m)) (nodes m))
  end.

Definition htable_set (fuel : nat) (malloc : option loc) (ht : option loc) (k v : Z) : M memory unit :=
  match ht with
  | None => mret tt
  | Some h =>
      entry ← htable_find_node fuel ht k;
      match entry with
      | Some entry => set_value entry v
      | None =>
          match malloc with
          | None => mret tt
          | Some entry =>
              modify (fun m => Mem (tables m) (<[entry := Node 0 0 None (Bucket 0 0)]> (nodes m)));;
              set_key entry k;;
              set_value entry v;;
              t ← get_table h;
              let bucket := htable_hash k (capacity t) in
              hlist_add_head entry h bucket
          end
      end
  end.

Definition htable_get (fuel : nat) (ht : option loc) (k : Z) : M memory (option Z) :=
  entry ← htable_find_node fuel ht k;
  match entry with
  | Some e => x ← get_node e; mret (Some (value x))
  | None => mret None
  end.

Definition htable_del (fuel : nat) (ht : option loc) (k : Z) : M memory unit :=
  match ht with
  | None => mret tt
  | Some _ =>
      entry ← htable_find_node fuel ht k;
      match entry with
      | Some entry => hlist_del entry;; free_node entry
      | None => mret tt
      end
  end.

End HTable.
Import HTable.

(** ** Chains *)

Definition item : Type := loc * (Z * Z).
Definition addr (x : item) : loc := fst x.
Definition ikey (x : item) : Z := fst (snd x).
Definition ival (x : item) : Z := snd (snd x).

(** The chain [c], entered by the pointer [first] stored at [s]. *)
Fixpoint chain (m : gmap loc htable_node) (s : slot) (first : option loc) (c : list item) : Prop :=
  match c with
  | [] => first = None
  | (p, (k, v)) :: c => first = Some p /\ exists nx, m !! p = Some (Node k v nx s) /\ chain m (NextOf p) nx c
  end.

Lemma chain_eq m m' s first c :
  chain m s first c -> (forall x, x ∈ addr <$> c -> m' !! x = m !! x) -> chain m' s first c.
Proof.
  revert s first. induction c as [|(p, (k, v)) c IH]; intros s first H HE; [done|].
  destruct H as (-> & nx & H1 & H2). split; [done|]. exists nx. rewrite HE by (cbn; set_solver).
  split; [done|]. apply IH; [done|]. intros x Hx. apply HE. cbn. set_solver.
Qed.

Lemma wp_get_table h t (Q : htable -> memory -> Prop) m : tables m !! h = Some t -> Q t m -> wp (get_table h) Q m.
Proof. intros H HQ. apply wp_bind, wp_gets. rewrite H. by apply wp_ret. Qed.

Lemma wp_get_node n x (Q : htable_node -> memory -> Prop) m : nodes m !! n = Some x -> Q x m -> wp (get_node n) Q m.
Proof. intros H HQ. apply wp_bind, wp_gets. rewrite H. by apply wp_ret. Qed.

Lemma wp_put_node n x y (Q : unit -> memory -> Prop) m :
  nodes m !! n = Some x -> Q tt (Mem (tables m) (<[n := y]> (nodes m))) -> wp (put_node n y) Q m.
Proof. intros H HQ. by eapply wp_bind, wp_get_node. Qed.

Lemma wp_get_bucket h i t p (Q : option loc -> memory -> Prop) m :
  tables m !! h = Some t -> znth (buckets t) i = Some p -> Q p m -> wp (get_bucket h i) Q m.
Proof. intros H Hi HQ. eapply wp_bind, wp_get_table; [done|]. rewrite Hi. by apply wp_ret. Qed.

Lemma wp_set_bucket h i t p q (Q : unit -> memory -> Prop) m :
  tables m !! h = Some t -> znth (buckets t) i = Some p ->
  Q tt (Mem (<[h := HT (capacity t) (zset (buckets t) i q)]> (tables m)) (nodes m)) -> wp (set_bucket h i q) Q m.
Proof.
  intros H Hi HQ. eapply wp_bind, wp_get_table; [done|]. rewrite Hi. apply wp_bind, wp_ret.
  by eapply wp_bind, wp_get_table.
Qed.

(** Writes one member of a node. *)
Ltac node_write := eapply wp_bind, wp_get_node; [cbn; try done|eapply wp_put_node; [cbn; try done|cbn]].

Lemma find_loop_wp k s first c fuel (Q : option loc -> memory -> Prop) m :
  chain (nodes m) s first c -> (length c < fuel)%nat ->
  Q (addr <$> List.find (fun x => ikey x =? k) c) m -> wp (find_loop fuel first k) Q m.
Proof.
  revert s first fuel. induction c as [|(p, (k', v)) c IH]; intros s first fuel H Hf HQ;
    (destruct fuel as [|fuel]; [cbn in Hf; lia|]); cbn [find_loop].
  - rewrite H. by apply wp_ret.
  - destruct H as (-> & nx & H1 & H2). apply wp_bind. eapply wp_get_node; [done|]. cbn in *.
    destruct (k' =? k); [by apply wp_ret|]. eapply IH; [done|lia|done].
Qed.

Lemma chain_lookup m s first c x :
  chain m s first c -> x ∈ c -> exists nx sl, m !! addr x = Some (Node (ikey x) (ival x) nx sl).
Proof.
  revert s first. induction c as [|(p, (k, v)) c IH]; intros s first H Hx; [by apply not_elem_of_nil in Hx|].
  destruct H as (-> & nx & H1 & H2). apply elem_of_cons in Hx as [->|Hx]; [by exists nx, s|eauto].
Qed.

Lemma NoDup_addr_cons p kv c : NoDup (addr <$> (p, kv) :: c) <-> p ∉ addr <$> c /\ NoDup (addr <$> c).
Proof. cbn. by rewrite NoDup_cons. Qed.

(** The first node's [pprev] is redirected. *)
Lemma chain_move m s s' f c x :
  chain m s (Some f) c -> m !! f = Some x -> NoDup (addr <$> c) ->
  chain (<[f := Node (key x) (value x) (hnext x) s']> m) s' (Some f) c.
Proof.
  destruct c as [|(p, (k, v)) c]; intros H Hx N; [done|]. destruct H as ([= ->] & nx & H1 & H2).
  rewrite H1 in Hx. injection Hx as <-. cbn. split; [done|]. exists nx. rewrite lookup_insert_eq. split; [done|].
  eapply chain_eq; [done|]. intros y Hy. apply lookup_insert_ne. apply NoDup_addr_cons in N as [N _]. intros <-. done.
Qed.

Lemma chain_set_value m s first c1 p k v v' c2 nx sl :
  chain m s first (c1 ++ (p, (k, v)) :: c2) -> NoDup (addr <$> c1 ++ (p, (k, v)) :: c2) ->
  m !! p = Some (Node k v nx sl) ->
  chain (<[p := Node k v' nx sl]> m) s first (c1 ++ (p, (k, v')) :: c2).
Proof.
  revert s first. induction c1 as [|(q, (kq, vq)) c1 IH]; intros s first H N Hp.
  - destruct H as (-> & nx' & H1 & H2). rewrite Hp in H1. injection H1 as -> ->. cbn. split; [done|].
    exists nx'. rewrite lookup_insert_eq. split; [done|]. eapply chain_eq; [done|].
    intros y Hy. apply lookup_insert_ne. apply NoDup_addr_cons in N as [N _]. intros <-. done.
  - destruct H as (-> & nx' & H1 & H2). rewrite <- app_comm_cons in N. apply NoDup_addr_cons in N as [N1 N2]. cbn. split; [done|]. exists nx'.
    rewrite lookup_insert_ne; [|intros <-; apply N1; rewrite fmap_app; cbn; set_solver].
    split; [done|]. by apply IH.
Qed.

(** What [hlist_del] does to the nodes that stay. *)
Definition unlinked (m m' : gmap loc htable_node) (p : loc) (nx : option loc) (sl : slot) : Prop :=
  forall x y, m !! x = Some y -> x <> p ->
    m' !! x = Some (Node (key y) (value y) (if decide (sl = NextOf x) then nx else hnext y)
                      (if decide (nx = Some x) then sl else pprev y)).

Lemma chain_unlink_tail m m' s p k v c2 nx :
  chain m s (Some p) ((p, (k, v)) :: c2) -> NoDup (addr <$> (p, (k, v)) :: c2) ->
  (forall x, x ∈ addr <$> c2 -> s <> NextOf x) ->
  m !! p = Some (Node k v nx s) -> unlinked m m' p nx s -> chain m' s nx c2.
Proof.
  intros (_ & nx' & H1 & H2) N Hs Hp U. rewrite Hp in H1. injection H1 as <-.
  apply NoDup_addr_cons in N as [N1 N2]. destruct c2 as [|(p2, (k2, v2)) c2]; [done|].
  destruct H2 as (-> & nx2 & H3 & H4). cbn. split; [done|]. exists nx2. split.
  - rewrite (U p2 _ H3); [|cbn in N1; set_solver]. cbn. by rewrite decide_False, decide_True by (try done; apply Hs; cbn; set_solver).
  - eapply chain_eq; [done|]. intros x Hx. assert (exists y, m !! x = Some y) as [y Hy].
    { apply list_elem_of_fmap in Hx as (z & -> & Hz). destruct (chain_lookup _ _ _ _ _ H4 Hz) as (? & ? & ->). eauto. }
    apply NoDup_addr_cons in N2 as [N2 _]. rewrite (U x y Hy); [|intros ->; apply N1; cbn; set_solver].
    rewrite !decide_False; [by destruct y|congruence|apply Hs; cbn; set_solver].
Qed.

Lemma chain_unlink m m' s first c1 p k v c2 nx sl :
  chain m s first (c1 ++ (p, (k, v)) :: c2) -> NoDup (addr <$> c1 ++ (p, (k, v)) :: c2) ->
  (forall x, x ∈ addr <$> c1 ++ (p, (k, v)) :: c2 -> s <> NextOf x) ->
  m !! p = Some (Node k v nx sl) -> unlinked m m' p nx sl ->
  chain m' s (if c1 then nx else first) (c1 ++ c2) /\
  match c1 with [] => sl = s /\ first = Some p | _ => exists q, q ∈ addr <$> c1 /\ sl = NextOf q end.
Proof.
  revert s first. induction c1 as [|(q, (kq, vq)) c1 IH]; intros s first H N Hs Hp U.
  - pose proof H as (-> & nx' & H1 & _). rewrite Hp in H1. injection H1 as -> ->. split; [|done].
    eapply chain_unlink_tail; try done. intros x Hx. apply Hs. cbn. set_solver.
  - destruct H as (-> & nxq & H1 & H2). rewrite <- app_comm_cons in N, Hs. apply NoDup_addr_cons in N as [N1 N2].
    assert (q <> p) by (rewrite fmap_app in N1; cbn in N1; set_solver).
    destruct (IH (NextOf q) nxq) as [A B]; try done.
    { intros x Hx [= ->]. done. }
    assert (nx <> Some q) as Hnx.
    { intros ->. clear IH A. destruct (decide (q ∈ addr <$> c2)); [apply N1; rewrite fmap_app; cbn; set_solver|].
      clear B. apply n. clear -H2 Hp N2. revert H2 N2. generalize (NextOf q) as s0, nxq as f0.
      induction c1 as [|(r, (kr, vr)) c1 IH]; cbn; intros s0 f0.
      - intros (_ & nx & Hn & Hc). rewrite Hp in Hn. injection Hn as <- _.
        destruct c2 as [|(r, (kr, vr)) c2]; [done|]. destruct Hc as ([= <-] & _). cbn. set_solver.
      - intros (_ & nx & Hn & Hc) [_ N]%NoDup_cons. by eapply IH. }
    split.
    + cbn. split; [done|]. rewrite (U q _ H1) by done. cbn. rewrite (decide_False (P := nx = Some q)) by done.
      destruct c1 as [|z c1].
      * destruct B as [-> ->]. rewrite decide_True by done. eauto.
      * destruct B as (r & Hr & ->). rewrite decide_False; [eauto|]. intros [= ->]. apply N1. rewrite fmap_app. set_solver.
    + destruct c1 as [|z c1].
      * destruct B as [-> _]. exists q. cbn. set_solver.
      * destruct B as (r & Hr & ->). exists r. cbn in *. set_solver.
Qed.
