(* ===== verification/HTableInv.v ===== *)
(** * htable: the representation of a table and the rules of its operations *)

From S2P Require Import Prelude HTable.
Import HTable.

(** The largest capacity whose array of buckets does not wrap. *)
Definition max_capacity : Z := 2 ^ 61 - 1.

(** In the memory [m], grown from [m0], the table [h] has the chains [cs], one
    per bucket, and owns their nodes; nothing else changed. *)
Record table (m0 m : memory) (h : loc) (cap : Z) (cs : list (list item)) : Prop := {
  tb_cap : 0 < cap <= max_capacity /\ zlen cs = cap;
  tb_table : exists bs, tables m !! h = Some (HT cap bs) /\ zlen bs = cap /\
    forall i c, znth cs i = Some c -> exists first, znth bs i = Some first /\ chain (nodes m) (Bucket h i) first c;
  tb_nodup : NoDup (addr <$> concat cs);
  tb_hash : forall i c x, znth cs i = Some c -> x ∈ c -> htable_hash (ikey x) cap = i;
  tb_keys : forall i c, znth cs i = Some c -> NoDup (ikey <$> c);
  tb_frame : tables m0 !! h = None /\ forall x, x <> h -> tables m !! x = tables m0 !! x;
  tb_old : forall x, x ∉ addr <$> concat cs -> nodes m !! x = nodes m0 !! x;
  tb_new : forall x, x ∈ addr <$> concat cs -> nodes m0 !! x = None
}.

Lemma znth_split {A} (cs : list A) i c :
  znth cs i = Some c -> exists a b, cs = a ++ c :: b /\ i = zlen a /\ forall c', zset cs i c' = a ++ c' :: b.
Proof.
  intros H. pose proof (znth_Some_range _ _ _ H) as Hr. unfold znth, zset, zlen in *.
  destruct (Z.ltb_spec i 0); [lia|]. destruct (list_elem_of_split_length _ _ _ H) as (a & b & -> & Hl).
  exists a, b. split_and!; [done|lia|]. intros c'. rewrite Hl, insert_app_r_alt by lia. by rewrite Nat.sub_diag.
Qed.

Lemma htable_hash_range k cap : 0 < cap -> 0 <= k -> 0 <= htable_hash k cap < cap.
Proof.
  intros. unfold htable_hash, wrap. pose proof (Z.mod_pos_bound k cap). 
  assert (0 <= k mod cap mod 2 ^ 32) by (apply Z.mod_pos_bound; lia).
  assert (k mod cap mod 2 ^ 32 <= k mod cap) by (apply Z.mod_le; lia). lia.
Qed.

(** The entry of a key: its chain, and the first item of the chain with the key. *)
Definition find_item (cs : list (list item)) (cap k : Z) : option item :=
  c ← znth cs (htable_hash k cap); List.find (fun x => ikey x =? k) c.

Definition contents (cs : list (list item)) (cap k : Z) : option Z := ival <$> find_item cs cap k.

Lemma elem_of_chains (cs : list (list item)) x :
  x ∈ addr <$> concat cs <-> exists i c, znth cs i = Some c /\ x ∈ addr <$> c.
Proof.
  rewrite list_elem_of_fmap. setoid_rewrite list_elem_of_fmap. setoid_rewrite list_elem_of_In. setoid_rewrite in_concat. split.
  - intros (y & -> & d & Hd & Hy). rewrite <- list_elem_of_In in Hd. apply list_elem_of_lookup_1 in Hd as (j & Hj).
    exists (Z.of_nat j), d. split; [|by exists y]. unfold znth. destruct (Z.ltb_spec (Z.of_nat j) 0); [lia|by rewrite Nat2Z.id].
  - intros (i & c & Hi & y & -> & Hy). exists y. split; [done|]. exists c. split; [|done].
    unfold znth in Hi. destruct (i <? 0); [done|]. rewrite <- list_elem_of_In. by eapply list_elem_of_lookup_2.
Qed.

Lemma addrs_split (cs : list (list item)) i c :
  znth cs i = Some c -> exists r, (forall c', addr <$> concat (zset cs i c') ≡ₚ (addr <$> c') ++ r) /\
    addr <$> concat cs ≡ₚ (addr <$> c) ++ r.
Proof.
  intros (a & b & -> & _ & E)%znth_split. exists ((addr <$> concat a) ++ (addr <$> concat b)).
  split; [intros c'; rewrite E|]; rewrite concat_app; cbn; rewrite !fmap_app; solve_Permutation.
Qed.

Section rules.
Context {m0 m : memory} {h : loc} {cap : Z} {cs : list (list item)}.
Hypothesis (T : table m0 m h cap cs).

Lemma tb_chain k : 0 <= k -> exists c, znth cs (htable_hash k cap) = Some c.
Proof. intros Hk. destruct (tb_cap _ _ _ _ _ T). apply znth_is_Some. pose proof (htable_hash_range k cap). lia. Qed.

Lemma tb_length i c : znth cs i = Some c -> (length c <= length (concat cs))%nat.
Proof. intros (a & b & -> & _)%znth_split. rewrite concat_app, length_app. cbn. rewrite length_app. lia. Qed.

Lemma htable_find_node_wp k fuel (Q : option loc -> memory -> Prop) :
  0 <= k -> (length (concat cs) < fuel)%nat ->
  Q (addr <$> find_item cs cap k) m -> wp (htable_find_node fuel (Some h) k) Q m.
Proof.
  intros Hk Hf HQ. destruct (tb_table _ _ _ _ _ T) as (bs & Hb & Hl & Hch).
  destruct (tb_chain k Hk) as [c Hc]. destruct (Hch _ _ Hc) as (first & Hfi & C).
  unfold find_item in HQ. rewrite Hc in HQ. pose proof (tb_length _ _ Hc).
  apply wp_bind. eapply wp_get_table; [done|]. cbn.
  apply wp_bind. eapply wp_get_bucket; [done..|]. eapply find_loop_wp; [done|lia|done].
Qed.

(** ** Replacing one chain *)

Lemma tb_nodup_chain i c : znth cs i = Some c -> NoDup (addr <$> c).
Proof.
  intros (r & _ & E)%addrs_split. pose proof (tb_nodup _ _ _ _ _ T) as N. rewrite E in N. by apply NoDup_app in N as (N & _).
Qed.

Lemma tb_other_chain i c j d x :
  znth cs i = Some c -> znth cs j = Some d -> i <> j -> x ∈ addr <$> c -> x ∉ addr <$> d.
Proof.
  intros Hi Hj Hij Hx Hd. pose proof (addrs_split cs i c Hi) as (r & Er & E).
  pose proof (tb_nodup _ _ _ _ _ T) as N. rewrite E in N. apply NoDup_app in N as (_ & N & _).
  apply (N x Hx). specialize (Er []). cbn in Er. rewrite <- Er. apply elem_of_chains. exists j, d.
  by rewrite znth_zset_ne.
Qed.

Lemma tb_node x : x ∈ addr <$> concat cs -> is_Some (nodes m !! x).
Proof.
  intros (i & c & Hi & Hx)%elem_of_chains. destruct (tb_table _ _ _ _ _ T) as (bs & _ & _ & Hch).
  destruct (Hch _ _ Hi) as (f & _ & C). apply list_elem_of_fmap in Hx as (y & -> & Hy).
  destruct (chain_lookup _ _ _ _ _ C Hy) as (? & ? & ->). eauto.
Qed.
End rules.

(** [c'] in place of the chain [c] of bucket [i]: the nodes of [c] and [c'] may
    change, those of [c] alone are freed, those of [c'] alone are new. *)
Lemma table_update m0 m h cap cs i c c' n' tb' first' :
  table m0 m h cap cs -> znth cs i = Some c ->
  (forall bs, tables m !! h = Some (HT cap bs) -> tb' !! h = Some (HT cap (zset bs i first'))) ->
  (forall x, x <> h -> tb' !! x = tables m !! x) ->
  chain n' (Bucket h i) first' c' ->
  (forall x, x ∉ addr <$> c -> x ∉ addr <$> c' -> n' !! x = nodes m !! x) ->
  (forall x, x ∈ addr <$> c -> x ∉ addr <$> c' -> n' !! x = None) ->
  (forall x, x ∈ addr <$> c' -> x ∈ addr <$> c \/ nodes m !! x = None) ->
  NoDup (addr <$> c') -> NoDup (ikey <$> c') -> (forall x, x ∈ c' -> htable_hash (ikey x) cap = i) ->
  table m0 (Mem tb' n') h cap (zset cs i c').
Proof.
  intros T Hc Htb Htb' C' Hsame Hfreed Hnew Na Nk Hh.
  destruct (tb_table _ _ _ _ _ T) as (bs & Hb & Hl & Hch). pose proof (tb_cap _ _ _ _ _ T) as [Hcap Hlen].
  pose proof (znth_Some_range _ _ _ Hc) as Hi.
  destruct (addrs_split _ _ _ Hc) as (r & Er & E). specialize (Er c').
  pose proof (tb_nodup _ _ _ _ _ T) as N. rewrite E in N. apply NoDup_app in N as (N1 & N2 & N3).
  assert (forall x, x ∈ addr <$> c' -> x ∉ r) as Hdis.
  { intros x Hx Hr. destruct (Hnew x Hx) as [Hx'|Hx']; [set_solver|].
    destruct (tb_node T x) as [y Hy]; [rewrite E; set_solver|]. congruence. }
  constructor; cbn.
  - by rewrite zlen_zset.
  - exists (zset bs i first'). split_and!; [by apply Htb|by rewrite zlen_zset|]. intros j d Hj.
    destruct (decide (i = j)) as [<-|Hij].
    + rewrite znth_zset_eq in Hj by done. injection Hj as <-. exists first'. rewrite znth_zset_eq by lia. done.
    + rewrite znth_zset_ne in Hj by done. destruct (Hch _ _ Hj) as (f & Hf & Cd). exists f.
      rewrite znth_zset_ne by done. split; [done|]. eapply chain_eq; [done|]. intros x Hx. apply Hsame.
      * intros Hx'. by apply (tb_other_chain T i c j d x).
      * intros Hx'. destruct (Hnew _ Hx') as [Hx2|Hx2]; [by apply (tb_other_chain T i c j d x)|].
        destruct (tb_node T x) as [y Hy]; [apply elem_of_chains; eauto|congruence].
  - rewrite Er, NoDup_app. set_solver.
  - intros j d x Hj Hx. destruct (decide (i = j)) as [<-|Hij].
    + rewrite znth_zset_eq in Hj by done. injection Hj as <-. auto.
    + rewrite znth_zset_ne in Hj by done. by eapply (tb_hash _ _ _ _ _ T).
  - intros j d Hj. destruct (decide (i = j)) as [<-|Hij].
    + rewrite znth_zset_eq in Hj by done. by injection Hj as <-.
    + rewrite znth_zset_ne in Hj by done. by eapply (tb_keys _ _ _ _ _ T).
  - destruct (tb_frame _ _ _ _ _ T) as [F1 F2]. split; [done|]. intros x Hx. rewrite Htb' by done. auto.
  - intros x Hx. rewrite Er in Hx. destruct (decide (x ∈ addr <$> c)) as [Hxc|Hxc].
    + rewrite Hfreed by (try done; set_solver). symmetry. apply (tb_new _ _ _ _ _ T). rewrite E. set_solver.
    + rewrite Hsame by (try done; set_solver). apply (tb_old _ _ _ _ _ T). rewrite E. set_solver.
  - intros x Hx. rewrite Er in Hx. destruct (decide (x ∈ addr <$> concat cs)) as [Hxc|Hxc].
    + by apply (tb_new _ _ _ _ _ T).
    + rewrite <- (tb_old _ _ _ _ _ T x Hxc). rewrite E in Hxc. apply elem_of_app in Hx as [Hx|Hx]; [|set_solver].
      destruct (Hnew _ Hx); [set_solver|done].
Qed.

(** ** The effect on the keys *)

Lemma contents_at cs cap k c : znth cs (htable_hash k cap) = Some c ->
  contents cs cap k = ival <$> List.find (fun x => ikey x =? k) c.
Proof. intros H. unfold contents, find_item. by rewrite H. Qed.

Lemma contents_update m0 m h cap cs i c c' k k' :
  table m0 m h cap cs -> znth cs i = Some c -> i = htable_hash k cap ->
  (k' <> k -> List.find (fun x => ikey x =? k') c' = List.find (fun x => ikey x =? k') c) ->
  contents (zset cs i c') cap k' = if k' =? k then ival <$> List.find (fun x => ikey x =? k) c' else contents cs cap k'.
Proof.
  intros T Hc -> Hne. pose proof (znth_Some_range _ _ _ Hc) as Hi. unfold contents, find_item.
  destruct (Z.eqb_spec k' k) as [->|Hk]; [by rewrite znth_zset_eq|].
  destruct (decide (htable_hash k' cap = htable_hash k cap)) as [->|Hh].
  - rewrite znth_zset_eq, Hc by done. cbn. by rewrite Hne.
  - by rewrite znth_zset_ne.
Qed.

Lemma find_split (c : list item) k x :
  List.find (fun x => ikey x =? k) c = Some x ->
  exists c1 c2, c = c1 ++ x :: c2 /\ ikey x = k /\ forall y, y ∈ c1 -> ikey y <> k.
Proof.
  induction c as [|y c IH]; cbn; [done|]. destruct (Z.eqb_spec (ikey y) k) as [Hk|Hk].
  - intros [= ->]. exists [], c. split_and!; [done|done|]. by intros ? ?%not_elem_of_nil.
  - intros (c1 & c2 & -> & Hx & H)%IH. exists (y :: c1), c2. split_and!; [done|done|].
    intros z [->|Hz]%elem_of_cons; auto.
Qed.

Lemma find_app_ne (c1 c2 : list item) x k : ikey x <> k ->
  List.find (fun x => ikey x =? k) (c1 ++ x :: c2) = List.find (fun x => ikey x =? k) (c1 ++ c2).
Proof.
  intros H. induction c1 as [|y c1 IH]; cbn; [by apply Z.eqb_neq in H as ->|]. by rewrite IH.
Qed.

Lemma find_app_first (c1 c2 : list item) x k : (forall y, y ∈ c1 -> ikey y <> k) -> ikey x = k ->
  List.find (fun x => ikey x =? k) (c1 ++ x :: c2) = Some x.
Proof.
  intros H Hx. induction c1 as [|y c1 IH]; cbn.
  - by rewrite Hx, Z.eqb_refl.
  - rewrite (proj2 (Z.eqb_neq (ikey y) k)) by (apply H; set_solver). apply IH. set_solver.
Qed.

Lemma find_none (c : list item) k : k ∉ ikey <$> c -> List.find (fun x => ikey x =? k) c = None.
Proof.
  induction c as [|y c IH]; cbn; [done|]. rewrite not_elem_of_cons. intros [H1 H2].
  rewrite (proj2 (Z.eqb_neq (ikey y) k)) by done. auto.
Qed.

Lemma find_none_inv (c : list item) k : List.find (fun x => ikey x =? k) c = None -> k ∉ ikey <$> c.
Proof.
  induction c as [|y c IH]; cbn; [intros _; apply not_elem_of_nil|].
  destruct (Z.eqb_spec (ikey y) k); [done|]. intros H. apply not_elem_of_cons. auto.
Qed.

(** ** The list operations on a chain *)

Lemma hlist_add_head_wp m h i cap bs first c p k v nx sl (Q : unit -> memory -> Prop) :
  tables m !! h = Some (HT cap bs) -> znth bs i = Some first -> chain (nodes m) (Bucket h i) first c ->
  nodes m !! p = Some (Node k v nx sl) -> NoDup (addr <$> (p, (k, v)) :: c) ->
  (forall n', chain n' (Bucket h i) (Some p) ((p, (k, v)) :: c) ->
     (forall x, x ∉ addr <$> (p, (k, v)) :: c -> n' !! x = nodes m !! x) ->
     Q tt (Mem (<[h := HT cap (zset bs i (Some p))]> (tables m)) n')) ->
  wp (hlist_add_head p h i) Q m.
Proof.
  intros Ht Hi C Hp N HQ. pose proof (znth_Some_range _ _ _ Hi) as Hr. apply NoDup_addr_cons in N as [N1 N2].
  apply wp_bind. eapply wp_get_bucket; [done..|]. apply wp_bind. node_write; cbn.
  destruct first as [f|].
  - destruct c as [|(f', (kf, vf)) c]; [done|]. pose proof C as ([= ->] & nf & Hf & _).
    assert (f' <> p) by (cbn in N1; set_solver).
    apply wp_bind. node_write; [by rewrite lookup_insert_ne|by rewrite lookup_insert_ne|]. cbn.
    apply wp_bind. eapply wp_set_bucket; [done..|]. cbn.
    node_write; [by rewrite lookup_insert_ne, lookup_insert_eq|by rewrite lookup_insert_ne, lookup_insert_eq|]. cbn.
    apply HQ.
    + cbn. split; [done|]. exists (Some f'). rewrite lookup_insert_eq. split; [done|].
      pose proof (chain_move _ _ (NextOf p) _ _ _ C Hf N2) as C'. refine (chain_eq _ _ _ _ _ C' _).
      intros x Hx. assert (x <> p) by (intros ->; done). rewrite lookup_insert_ne by done.
      destruct (decide (x = f')) as [->|]; [by rewrite !lookup_insert_eq|by rewrite !lookup_insert_ne].
    + intros x Hx. cbn in Hx. rewrite !lookup_insert_ne; [done|set_solver..].
  - destruct c as [|(f', (kf, vf)) c]; [|by destruct C].
    apply wp_bind, wp_ret, wp_bind. eapply wp_set_bucket; [done..|]. cbn.
    node_write; [by rewrite lookup_insert_eq|by rewrite lookup_insert_eq|]. cbn.
    apply HQ.
    + cbn. split; [done|]. exists None. by rewrite lookup_insert_eq.
    + intros x Hx. cbn in Hx. rewrite !lookup_insert_ne; [done|set_solver..].
Qed.

(** The writes of [hlist_del] when the node before is in the chain. *)
Definition after_del (m : gmap loc htable_node) (sl : slot) (nx : option loc) : gmap loc htable_node :=
  let m1 := match sl with
            | Bucket _ _ => m
            | NextOf q => match m !! q with Some x => <[q := Node (key x) (value x) nx (pprev x)]> m | None => m end
            end in
  match nx with
  | None => m1
  | Some f => match m1 !! f with Some x => <[f := Node (key x) (value x) (hnext x) sl]> m1 | None => m1 end
  end.

Lemma after_del_unlinked m sl nx p : unlinked m (after_del m sl nx) p nx sl.
Proof.
  intros x y Hx Hp. unfold after_del. destruct sl as [h i|q].
  - rewrite decide_False by done. destruct nx as [f|]; cbn; [|by destruct y].
    destruct (decide (f = x)) as [->|Hf].
    + rewrite Hx, decide_True by done. by rewrite lookup_insert_eq.
    + rewrite (decide_False (P := Some f = Some x)) by congruence. destruct (m !! f); [rewrite lookup_insert_ne by done|]; by destruct y.
  - set (m1 := match m !! q with Some _ => _ | None => _ end).
    assert (m1 !! x = Some (Node (key y) (value y) (if decide (NextOf q = NextOf x) then nx else hnext y) (pprev y))) as H1.
    { unfold m1. destruct (decide (q = x)) as [->|Hq].
      - rewrite Hx, lookup_insert_eq, decide_True; done.
      - rewrite decide_False by congruence. destruct (m !! q); [rewrite lookup_insert_ne by done|]; by destruct y. }
    destruct nx as [f|]; cbn; [|by rewrite H1].
    destruct (decide (f = x)) as [->|Hf].
    + rewrite H1, lookup_insert_eq. by rewrite (decide_True (P := Some x = Some x)).
    + rewrite (decide_False (P := Some f = Some x)) by congruence. destruct (m1 !! f); [rewrite lookup_insert_ne by done|]; done.
Qed.

Lemma after_del_frame m sl nx x :
  (forall q, sl = NextOf q -> q <> x) -> nx <> Some x -> after_del m sl nx !! x = m !! x.
Proof.
  intros H1 H2. unfold after_del.
  assert (forall m1 : gmap loc htable_node, match nx with None => m1 | Some f => match m1 !! f with Some x0 => <[f := Node (key x0) (value x0) (hnext x0) sl]> m1 | None => m1 end end !! x = m1 !! x) as E.
  { intros m1. destruct nx as [f|]; [|done]. destruct (m1 !! f); [|done]. rewrite lookup_insert_ne; congruence. }
  rewrite E. destruct sl as [|q]; [done|]. destruct (m !! q); [|done]. rewrite lookup_insert_ne; auto.
Qed.

Lemma after_del_is_Some m sl nx x : is_Some (m !! x) -> is_Some (after_del m sl nx !! x).
Proof.
  intros H. assert (forall (m1 : gmap loc htable_node) q y, is_Some (m1 !! x) -> is_Some (<[q := y]> m1 !! x)) as K.
  { intros m1 q y H1. destruct (decide (q = x)) as [->|]; [rewrite lookup_insert_eq|rewrite lookup_insert_ne by done]; eauto. }
  unfold after_del. destruct sl as [|q], nx as [f|]; repeat case_match; auto.
Qed.

Lemma chain_next_in m s first c x n : chain m s first c -> x ∈ addr <$> c -> m !! x = Some n ->
  forall y, hnext n = Some y -> y ∈ addr <$> c.
Proof.
  revert s first. induction c as [|(q, (kq, vq)) c IH]; cbn; intros s first C Hx Hn y Hy.
  { by apply not_elem_of_nil in Hx. }
  destruct C as (-> & nx & Hq & C). apply elem_of_cons in Hx as [->|Hx].
  - cbn in Hn. rewrite Hq in Hn. injection Hn as <-. cbn in Hy. subst nx.
    destruct c as [|(r, (kr, vr)) c]; [done|]. destruct C as ([= <-] & _). cbn. set_solver.
  - right. by eapply IH.
Qed.

Lemma hlist_del_wp m h i cap bs first c1 p k v c2 (Q : unit -> memory -> Prop) :
  tables m !! h = Some (HT cap bs) -> znth bs i = Some first ->
  chain (nodes m) (Bucket h i) first (c1 ++ (p, (k, v)) :: c2) -> NoDup (addr <$> c1 ++ (p, (k, v)) :: c2) ->
  (forall tb' n' first', chain n' (Bucket h i) first' (c1 ++ c2) ->
     tb' !! h = Some (HT cap (zset bs i first')) -> (forall x, x <> h -> tb' !! x = tables m !! x) ->
     (forall x, x ∉ addr <$> c1 ++ (p, (k, v)) :: c2 -> n' !! x = nodes m !! x) -> is_Some (n' !! p) ->
     Q tt (Mem tb' n')) ->
  wp (hlist_del p) Q m.
Proof.
  intros Ht Hi C N HQ. pose proof (znth_Some_range _ _ _ Hi) as Hr.
  destruct (chain_lookup _ _ _ _ (p, (k, v)) C) as (nx & sl & Hp); [set_solver|]. cbn in Hp.
  assert (p ∈ addr <$> c1 ++ (p, (k, v)) :: c2) as Hpin by (apply list_elem_of_fmap; exists (p, (k, v)); set_solver).
  assert (forall y, nx = Some y -> y ∈ addr <$> c1 ++ (p, (k, v)) :: c2) as Hnx.
  { intros y ->. by eapply (chain_next_in _ _ _ _ _ _ C Hpin Hp). }
  destruct (chain_unlink _ (after_del (nodes m) sl nx) _ _ _ _ _ _ _ nx sl C N) as [C' Hsl];
    [done|done|apply after_del_unlinked|].
  assert (forall x, x ∉ addr <$> c1 ++ (p, (k, v)) :: c2 -> after_del (nodes m) sl nx !! x = nodes m !! x) as Hframe.
  { intros x Hx. apply after_del_frame; [|intros ->; by apply Hx, Hnx]. intros q -> ->. apply Hx.
    destruct c1 as [|z c1]; [by destruct Hsl|]. destruct Hsl as (r & Hr' & [= ->]). rewrite fmap_app. set_solver. }
  assert (forall y, y ∈ addr <$> c1 ++ (p, (k, v)) :: c2 -> exists x, nodes m !! y = Some x) as Hall.
  { intros y (z & -> & Hz)%list_elem_of_fmap. destruct (chain_lookup _ _ _ _ _ C Hz) as (? & ? & ->). eauto. }
  assert (is_Some (after_del (nodes m) sl nx !! p)) as Hlast by (apply after_del_is_Some; eauto).
  apply wp_bind. eapply wp_get_node; [done|]. cbn. apply wp_bind.
  assert (forall tb' n' first', chain (after_del (nodes m) sl nx) (Bucket h i) first' (c1 ++ c2) ->
     tb' !! h = Some (HT cap (zset bs i first')) -> (forall x, x <> h -> tb' !! x = tables m !! x) ->
     (forall y, nx = Some y -> is_Some (n' !! y)) ->
     after_del (nodes m) sl nx = match nx with None => n' | Some f =>
       match n' !! f with Some x => <[f := Node (key x) (value x) (hnext x) sl]> n' | None => n' end end ->
     wp (match nx with Some next => set_pprev next sl | None => mret tt end) Q (Mem tb' n')) as Hfin.
  { intros tb' n' first' C1 T1 T2 Hn E. destruct nx as [f|].
    - destruct (Hn f eq_refl) as [y Hy]. rewrite Hy in E. node_write. rewrite <- E. by eapply HQ.
    - apply wp_ret. rewrite <- E. by eapply HQ. }
  destruct c1 as [|z c1].
  - destruct Hsl as [-> ->]. eapply wp_set_bucket; [done..|]. cbn [capacity buckets].
    eapply (Hfin _ _ nx); [done|by rewrite lookup_insert_eq|by intros; rewrite lookup_insert_ne| |done].
    intros y Hy. destruct (Hall y (Hnx y Hy)) as [x ->]. eauto.
  - destruct Hsl as (q & Hq & ->). destruct (Hall q) as [xq Hxq]; [rewrite fmap_app; set_solver|].
    node_write. eapply (Hfin _ _ first); [done|by rewrite zset_id|done| |].
    + intros y Hy. destruct (Hall y (Hnx y Hy)) as [x Hx]. destruct (decide (y = q)) as [->|];
        [rewrite lookup_insert_eq|rewrite lookup_insert_ne by done; rewrite Hx]; eauto.
    + unfold after_del. by rewrite Hxq.
Qed.
