(* ===== verification/HTableOps.v ===== *)
(** * htable: what the operations do to a table *)

From S2P Require Import Prelude HTable HTableInv.
Import HTable.

Definition unused (m : memory) (p : loc) : Prop := nodes m !! p = None /\ tables m !! p = None.

Section ops.
Context {m0 m : memory} {h : loc} {cap : Z} {cs : list (list item)}.
Hypothesis (T : table m0 m h cap cs).

Lemma contents_find k : 0 <= k -> exists c first bs, znth cs (htable_hash k cap) = Some c /\
  tables m !! h = Some (HT cap bs) /\ znth bs (htable_hash k cap) = Some first /\
  chain (nodes m) (Bucket h (htable_hash k cap)) first c /\ NoDup (addr <$> c) /\
  find_item cs cap k = List.find (fun x => ikey x =? k) c.
Proof.
  intros Hk. destruct (tb_chain T k Hk) as [c Hc]. destruct (tb_table _ _ _ _ _ T) as (bs & Hb & _ & Hch).
  destruct (Hch _ _ Hc) as (first & Hf & C). exists c, first, bs. split_and!; try done.
  - by eapply (tb_nodup_chain T).
  - unfold find_item. by rewrite Hc.
Qed.

Lemma htable_get_wp k fuel (Q : option Z -> memory -> Prop) :
  0 <= k -> (length (concat cs) < fuel)%nat -> Q (contents cs cap k) m -> wp (htable_get fuel (Some h) k) Q m.
Proof.
  intros Hk Hf HQ. apply wp_bind. eapply (htable_find_node_wp T); [done..|].
  destruct (contents_find k Hk) as (c & first & bs & _ & _ & _ & C & _ & E). unfold contents in HQ. rewrite E in *.
  destruct (List.find _ c) as [x|] eqn:Ef; cbn; [|by apply wp_ret].
  apply List.find_some in Ef as [Hx _]. rewrite <- list_elem_of_In in Hx.
  destruct (chain_lookup _ _ _ _ _ C Hx) as (nx & sl & Hn). apply wp_bind. eapply wp_get_node; [done|]. by apply wp_ret.
Qed.

(** The key already has an entry: its value changes. *)
Lemma set_existing_wp k v x (Q : unit -> memory -> Prop) :
  0 <= k -> find_item cs cap k = Some x ->
  (forall m' cs', table m0 m' h cap cs' -> length (concat cs') = length (concat cs) ->
     (forall k', contents cs' cap k' = if k' =? k then Some v else contents cs cap k') -> Q tt m') ->
  wp (set_value (addr x) v) Q m.
Proof.
  intros Hk Hx HQ. destruct (contents_find k Hk) as (c & first & bs & Hc & Ht & Hi & C & N & E).
  rewrite E in Hx. destruct (find_split _ _ _ Hx) as (c1 & c2 & -> & Hkx & Hc1). destruct x as [p [k' v']]. cbn in Hkx. subst k'.
  destruct (chain_lookup _ _ _ _ (p, (k, v')) C) as (nx & sl & Hn); [set_solver|].
  node_write. cbn in *.
  assert (addr <$> c1 ++ (p, (k, v)) :: c2 = addr <$> c1 ++ (p, (k, v')) :: c2) as Ea by by rewrite !fmap_app.
  assert (p ∈ addr <$> c1 ++ (p, (k, v')) :: c2) as Hp by (rewrite fmap_app; cbn; set_solver).
  apply (HQ _ (zset cs (htable_hash k cap) (c1 ++ (p, (k, v)) :: c2))).
  - eapply (table_update m0 m h cap cs _ _ _ _ _ first T Hc).
    + intros bs' Ht'. rewrite Ht in Ht'. injection Ht' as <-. by rewrite zset_id.
    + done.
    + by apply (chain_set_value _ _ _ _ _ _ v').
    + intros y Hy _. apply lookup_insert_ne. set_solver.
    + rewrite Ea. done.
    + rewrite Ea. tauto.
    + by rewrite Ea.
    + replace (ikey <$> c1 ++ (p, (k, v)) :: c2) with (ikey <$> c1 ++ (p, (k, v')) :: c2) by by rewrite !fmap_app.
      by eapply (tb_keys _ _ _ _ _ T).
    + intros y Hy. apply elem_of_app in Hy as [Hy|[->|Hy]%elem_of_cons]; [| |];
        [eapply (tb_hash _ _ _ _ _ T); [done|]; set_solver|done|eapply (tb_hash _ _ _ _ _ T); [done|]; set_solver].
  - destruct (addrs_split cs _ _ Hc) as (r & Er & E').
    rewrite <- (length_fmap addr), Er, Ea, <- E'. by rewrite length_fmap.
  - intros k2. rewrite (contents_update m0 m h cap cs _ _ _ k k2 T Hc eq_refl).
    + destruct (k2 =? k); [|done]. by rewrite (find_app_first c1 c2 (p, (k, v))).
    + intros Hne. rewrite !find_app_ne; done.
Qed.

(** A fresh node goes to the head of its bucket. *)
Lemma set_new_wp k v p (Q : unit -> memory -> Prop) :
  0 <= k -> find_item cs cap k = None -> unused m p ->
  (forall m' cs', table m0 m' h cap cs' -> length (concat cs') = S (length (concat cs)) ->
     (forall k', contents cs' cap k' = if k' =? k then Some v else contents cs cap k') -> Q tt m') ->
  wp (modify (fun m => Mem (tables m) (<[p := Node 0 0 None (Bucket 0 0)]> (nodes m)));;
      set_key p k;; set_value p v;; t ← get_table h; hlist_add_head p h (htable_hash k (capacity t))) Q m.
Proof.
  intros Hk Hx [U _] HQ. destruct (contents_find k Hk) as (c & first & bs & Hc & Ht & Hi & C & N & E).
  rewrite E in Hx. apply find_none_inv in Hx.
  assert (p ∉ addr <$> c) as Hp.
  { intros (x & -> & Hx')%list_elem_of_fmap. destruct (chain_lookup _ _ _ _ _ C Hx') as (? & ? & ?). congruence. }
  apply wp_bind, wp_modify, wp_bind. node_write; [by rewrite lookup_insert_eq|by rewrite lookup_insert_eq|].
  rewrite insert_insert_eq. apply wp_bind. node_write; [by rewrite lookup_insert_eq|by rewrite lookup_insert_eq|].
  rewrite insert_insert_eq. apply wp_bind. eapply wp_get_table; [done|]. cbn [capacity].
  eapply (hlist_add_head_wp _ h _ cap bs first c p k v); cbn.
  - done.
  - done.
  - eapply chain_eq; [done|]. intros y Hy. apply lookup_insert_ne. by intros ->.
  - by rewrite lookup_insert_eq.
  - apply NoDup_cons. done.
  - intros n' C' Hn'.
    apply (HQ _ (zset cs (htable_hash k cap) ((p, (k, v)) :: c))).
    + eapply (table_update m0 m h cap cs _ _ _ _ _ (Some p) T Hc); try done.
      * intros bs' Ht'. rewrite Ht in Ht'. injection Ht' as <-. by rewrite lookup_insert_eq.
      * intros y Hy. by rewrite lookup_insert_ne.
      * intros y Hy1 Hy2. rewrite Hn' by done. apply lookup_insert_ne. cbn in Hy2. set_solver.
      * intros y Hy1 Hy2. cbn in Hy2. set_solver.
      * intros y Hy. cbn in Hy. apply elem_of_cons in Hy as [->|Hy]; [by right|by left].
      * by apply NoDup_cons.
      * apply NoDup_cons. split; [done|]. by eapply (tb_keys _ _ _ _ _ T).
      * intros y [->|Hy]%elem_of_cons; [done|]. by eapply (tb_hash _ _ _ _ _ T).
    + destruct (addrs_split cs _ _ Hc) as (r & Er & E').
      rewrite <- (length_fmap addr), Er, <- (length_fmap addr (concat cs)), E'. done.
    + intros k2. rewrite (contents_update m0 m h cap cs _ _ _ k k2 T Hc eq_refl).
      * cbn. rewrite Z.eqb_refl. by destruct (k2 =? k).
      * intros Hne. cbn. rewrite (proj2 (Z.eqb_neq k k2)); done.
Qed.

Lemma htable_set_wp k v malloc fuel (Q : unit -> memory -> Prop) :
  0 <= k -> (length (concat cs) < fuel)%nat -> (forall p, malloc = Some p -> unused m p) ->
  (forall m' cs', table m0 m' h cap cs' -> (length (concat cs') <= S (length (concat cs)))%nat ->
     (forall k', contents cs' cap k' =
        if bool_decide (malloc = None /\ contents cs cap k = None) then contents cs cap k'
        else if k' =? k then Some v else contents cs cap k') -> Q tt m') ->
  wp (htable_set fuel malloc (Some h) k v) Q m.
Proof.
  intros Hk Hf Hm HQ. apply wp_bind. eapply (htable_find_node_wp T); [done..|].
  destruct (find_item cs cap k) as [x|] eqn:E; cbn.
  - eapply set_existing_wp; [done..|]. intros m' cs' T' L H. apply (HQ m' cs'); [done|lia|].
    rewrite bool_decide_false; [done|]. intros [_ X]. unfold contents in X. by rewrite E in X.
  - destruct malloc as [p|].
    + eapply set_new_wp; [done..|by apply Hm|]. intros m' cs' T' L H. apply (HQ m' cs'); [done|lia|].
      rewrite bool_decide_false; [done|]. by intros [? _].
    + apply wp_ret, (HQ m cs); [done|lia|]. intros k'. rewrite bool_decide_true; [done|]. unfold contents. by rewrite E.
Qed.
End ops.

Lemma wp_free_node p x (Q : unit -> memory -> Prop) m :
  nodes m !! p = Some x -> Q tt (Mem (tables m) (delete p (nodes m))) -> wp (free_node p) Q m.
Proof. intros H HQ. by eapply wp_bind, wp_get_node. Qed.

Lemma htable_del_wp m0 m h cap cs k fuel (Q : unit -> memory -> Prop) :
  table m0 m h cap cs -> 0 <= k -> (length (concat cs) < fuel)%nat ->
  (forall m' cs', table m0 m' h cap cs' -> (length (concat cs') <= length (concat cs))%nat ->
     (forall k', contents cs' cap k' = if k' =? k then None else contents cs cap k') -> Q tt m') ->
  wp (htable_del fuel (Some h) k) Q m.
Proof.
  intros T Hk Hf HQ. apply wp_bind. eapply (htable_find_node_wp T); [done..|].
  destruct (contents_find T k Hk) as (c & first & bs & Hc & Ht & Hi & C & N & E). rewrite E.
  destruct (List.find _ c) as [x|] eqn:Ef; cbn.
  2: { apply wp_ret, (HQ m cs); [done|lia|]. intros k'. destruct (Z.eqb_spec k' k) as [->|]; [|done].
       unfold contents. by rewrite E. }
  destruct (find_split _ _ _ Ef) as (c1 & c2 & -> & Hkx & Hc1). destruct x as [p [k' v]]. cbn in Hkx. subst k'.
  assert (p ∉ addr <$> c1 ++ c2) as Hp.
  { rewrite fmap_app in N |- *. cbn in N. apply NoDup_app in N as (_ & N1 & N2). apply NoDup_cons in N2. set_solver. }
  assert (forall y, y ∈ addr <$> c1 ++ (p, (k, v)) :: c2 <-> y = p \/ y ∈ addr <$> c1 ++ c2) as Hin.
  { intros y. rewrite !fmap_app. cbn. set_solver. }
  apply wp_bind. eapply (hlist_del_wp _ _ _ _ _ _ _ p k v); [done..|].
  intros tb' n' first' C' T1 T2 Hn' [xp Hxp]. eapply wp_free_node; [done|]. cbn.
  apply (HQ _ (zset cs (htable_hash k cap) (c1 ++ c2))).
  - eapply (table_update m0 m h cap cs _ _ _ _ _ first' T Hc); try done.
    + intros bs' Ht'. rewrite Ht in Ht'. by injection Ht' as <-.
    + eapply chain_eq; [done|]. intros y Hy. apply lookup_delete_ne. by intros <-.
    + intros y Hy _. rewrite lookup_delete_ne; [by apply Hn'|]. intros <-. apply Hy, Hin. by left.
    + intros y [->|Hy]%Hin Hy2; [by rewrite lookup_delete_eq|done].
    + intros y Hy. left. apply Hin. by right.
    + rewrite fmap_app in N |- *. cbn in N. rewrite NoDup_app in N |- *. rewrite NoDup_cons in N. set_solver.
    + pose proof (tb_keys _ _ _ _ _ T _ _ Hc) as K. rewrite fmap_app in K |- *. cbn in K.
      rewrite NoDup_app in K |- *. rewrite NoDup_cons in K. set_solver.
    + intros y Hy. eapply (tb_hash _ _ _ _ _ T); [done|]. set_solver.
  - destruct (addrs_split cs _ _ Hc) as (r & Er & E').
    rewrite <- (length_fmap addr), Er, <- (length_fmap addr (concat cs)), E', !length_app, !length_fmap, !length_app. cbn. lia.
  - intros k2. rewrite (contents_update m0 m h cap cs _ _ _ k k2 T Hc eq_refl).
    + destruct (k2 =? k); [|done]. rewrite find_none; [done|].
      pose proof (tb_keys _ _ _ _ _ T _ _ Hc) as K. rewrite fmap_app in K |- *. cbn in K.
      apply NoDup_app in K as (_ & K1 & K2). apply NoDup_cons in K2. cbn in *. set_solver.
    + intros Hne. by rewrite find_app_ne.
Qed.

(** ** Creation *)

Lemma init_loop_wp m h cap bs i fuel (Q : unit -> memory -> Prop) :
  tables m !! h = Some (HT cap bs) -> zlen bs = cap -> (forall j, 0 <= j < cap -> znth bs j = Some None) ->
  0 <= i -> (Z.to_nat (cap - i) < fuel)%nat -> Q tt m -> wp (init_loop fuel h i) Q m.
Proof.
  intros Ht Hl Hb. revert i. induction fuel as [|fuel IH]; intros i Hi Hf HQ; [lia|]. cbn [init_loop].
  apply wp_bind. eapply wp_get_table; [done|]. cbn. destruct (Z.ltb_spec i cap); [|by apply wp_ret].
  apply wp_bind. eapply wp_set_bucket; [done|apply Hb; lia|]. cbn. rewrite zset_id by (apply Hb; lia).
  rewrite insert_id by done. destruct m. apply IH; [lia|lia|done].
Qed.

Lemma buckets_bytes_exact cap : 0 < cap <= max_capacity -> buckets_bytes cap / 8 = cap.
Proof.
  unfold max_capacity, buckets_bytes. intros H. rewrite wrap_small by lia. by rewrite Z.div_mul.
Qed.

Lemma contents_nil n cap k : contents (replicate n []) cap k = None.
Proof.
  unfold contents, find_item, znth. destruct (_ <? 0); [done|].
  destruct (replicate n [] !! _) as [c|] eqn:E; [|done]. by apply lookup_replicate in E as [-> _].
Qed.

Lemma concat_replicate_nil n : concat (replicate n (@nil item)) = [].
Proof. by induction n. Qed.

Lemma htable_create_wp m h cap fuel malloc_buckets (Q : option loc -> memory -> Prop) :
  0 < cap <= max_capacity -> unused m h -> malloc_buckets (cap * 8) = true -> (Z.to_nat cap < fuel)%nat ->
  (forall m', table m m' h cap (replicate (Z.to_nat cap) []) -> Q (Some h) m') ->
  wp (htable_create fuel (Some h) malloc_buckets cap) Q m.
Proof.
  intros Hcap [U1 U2] Hm Hf HQ. unfold htable_create. rewrite (proj2 (Z.eqb_neq cap 0)) by lia.
  pose proof (buckets_bytes_exact cap Hcap) as Hb. rewrite Hb.
  replace (buckets_bytes cap) with (cap * 8) by (unfold buckets_bytes, max_capacity in *; rewrite wrap_small; lia).
  rewrite Hm. apply wp_bind, wp_modify, wp_bind.
  assert (zlen (replicate (Z.to_nat cap) (@None loc)) = cap) as Hl by (unfold zlen; rewrite length_replicate; lia).
  eapply (init_loop_wp _ h cap); [cbn; by rewrite lookup_insert_eq|done|intros; by apply znth_replicate|lia|lia|].
  apply wp_ret, HQ.
  assert (forall i (c : list item), znth (replicate (Z.to_nat cap) []) i = Some c -> c = []) as Hnil.
  { intros i c. unfold znth. destruct (i <? 0); [done|]. by intros [-> _]%lookup_replicate. }
  assert (concat (replicate (Z.to_nat cap) (@nil item)) = []) as Hc by apply concat_replicate_nil.
  constructor; cbn; rewrite ?Hc; cbn.
  - unfold zlen. rewrite length_replicate. lia.
  - eexists. rewrite lookup_insert_eq. split; [done|]. split; [done|]. intros i c Hi. pose proof (znth_Some_range _ _ _ Hi) as Hr.
    rewrite (Hnil _ _ Hi). exists None. split; [|done]. apply znth_replicate. unfold zlen in Hr. rewrite length_replicate in Hr. lia.
  - constructor.
  - intros i c x Hi. rewrite (Hnil _ _ Hi). by intros ?%not_elem_of_nil.
  - intros i c Hi. rewrite (Hnil _ _ Hi). constructor.
  - split; [done|]. intros x Hx. by rewrite lookup_insert_ne.
  - done.
  - by intros x ?%not_elem_of_nil.
Qed.

(** ** Release *)

Lemma free_chain_wp m s first c fuel (Q : unit -> memory -> Prop) :
  chain (nodes m) s first c -> NoDup (addr <$> c) -> (length c < fuel)%nat ->
  (forall m', tables m' = tables m ->
     (forall x, nodes m' !! x = if decide (x ∈ addr <$> c) then None else nodes m !! x) -> Q tt m') ->
  wp (free_chain fuel first) Q m.
Proof.
  revert m s first fuel. induction c as [|(p, (k, v)) c IH]; intros m s first fuel C N Hf HQ;
    (destruct fuel as [|fuel]; [cbn in Hf; lia|]); cbn [free_chain].
  - rewrite C. apply wp_ret, HQ; [done|]. intros x. by rewrite decide_False by apply not_elem_of_nil.
  - destruct C as (-> & nx & Hp & C). apply NoDup_addr_cons in N as [N1 N2].
    apply wp_bind. eapply wp_get_node; [done|]. apply wp_bind. eapply wp_free_node; [done|]. cbn.
    eapply (IH _ (NextOf p)); [|done|cbn in Hf; lia|].
    + cbn. eapply chain_eq; [done|]. intros x Hx. apply lookup_delete_ne. by intros <-.
    + intros m' H1 H2. apply HQ; [done|]. intros x. rewrite H2. cbn.
      destruct (decide (x = p)) as [->|Hxp].
      * rewrite lookup_delete_eq. rewrite (decide_True (P := p ∈ p :: _)) by set_solver. by case_decide.
      * rewrite lookup_delete_ne by done. repeat case_decide; set_solver.
Qed.

Lemma free_buckets_wp h cap bs (r d : list (list item)) m fuel chain_fuel (Q : unit -> memory -> Prop) :
  tables m !! h = Some (HT cap bs) -> zlen d + zlen r = cap ->
  (forall i c, 0 <= i -> znth r i = Some c -> exists first, znth bs (zlen d + i) = Some first /\
     chain (nodes m) (Bucket h (zlen d + i)) first c) ->
  NoDup (addr <$> concat r) -> (length r < fuel)%nat -> (length (concat r) < chain_fuel)%nat ->
  (forall m', tables m' = tables m ->
     (forall x, nodes m' !! x = if decide (x ∈ addr <$> concat r) then None else nodes m !! x) -> Q tt m') ->
  wp (free_buckets fuel chain_fuel h (zlen d)) Q m.
Proof.
  revert d m fuel. induction r as [|c r IH]; intros d m fuel Ht Hl Hch N Hf Hcf HQ;
    (destruct fuel as [|fuel]; [cbn in Hf; lia|]); cbn [free_buckets];
    (apply wp_bind; eapply wp_get_table; [done|]); cbn [capacity].
  - destruct (Z.ltb_spec (zlen d) cap); [unfold zlen in *; cbn in Hl; lia|].
    apply wp_ret, HQ; [done|]. intros x. by rewrite decide_False by apply not_elem_of_nil.
  - destruct (Z.ltb_spec (zlen d) cap); [|unfold zlen in *; cbn in Hl; lia].
    destruct (Hch 0 c) as (first & Hfi & C); [lia|done|]. rewrite Z.add_0_r in Hfi, C.
    cbn in N, Hcf. rewrite fmap_app in N. rewrite length_app in Hcf. apply NoDup_app in N as (N1 & N2 & N3).
    apply wp_bind. eapply wp_get_bucket; [done..|]. apply wp_bind.
    eapply free_chain_wp; [done|done|lia|]. intros m1 T1 H1.
    replace (zlen d + 1) with (zlen (d ++ [c])) by (unfold zlen; rewrite length_app; cbn; lia).
    apply IH; [by rewrite T1|unfold zlen in *; rewrite length_app; cbn in *; lia| |done|cbn in Hf; lia|lia|].
    + intros i c' Hi Hc'. destruct (Hch (i + 1) c') as (f & Hf1 & C1); [lia| |].
      { unfold znth in *. destruct (Z.ltb_spec i 0), (Z.ltb_spec (i + 1) 0); try lia.
        by replace (Z.to_nat (i + 1)) with (S (Z.to_nat i)) by lia. }
      exists f. replace (zlen (d ++ [c]) + i) with (zlen d + (i + 1)) by (unfold zlen; rewrite length_app; cbn; lia).
      split; [done|]. eapply chain_eq; [done|]. intros x Hx. rewrite H1, decide_False; [done|].
      intros Hx'. apply (N2 x Hx'), elem_of_chains. eauto.
    + intros m2 T2 H2. apply HQ; [congruence|]. intros x. rewrite H2, H1. cbn. rewrite fmap_app.
      repeat case_decide; set_solver.
Qed.

Lemma htable_free_wp m0 m h cap cs fuel chain_fuel (Q : unit -> memory -> Prop) :
  table m0 m h cap cs -> (Z.to_nat cap < fuel)%nat -> (length (concat cs) < chain_fuel)%nat ->
  Q tt m0 -> wp (htable_free fuel chain_fuel (Some h)) Q m.
Proof.
  intros T Hf Hcf HQ. pose proof (tb_cap _ _ _ _ _ T) as [Hcap Hlen].
  destruct (tb_table _ _ _ _ _ T) as (bs & Hb & Hl & Hch). unfold htable_free.
  apply wp_bind. change 0 with (zlen (@nil (list item))).
  eapply (free_buckets_wp h cap bs cs []); [done|done| |by apply (tb_nodup _ _ _ _ _ T)|unfold zlen in *; lia|done|].
  { intros i c _ Hi. by apply Hch. }
  intros m' H1 H2. apply wp_bind. eapply wp_get_table; [by rewrite H1|]. apply wp_modify.
  destruct (tb_frame _ _ _ _ _ T) as [F1 F2].
  assert (Mem (delete h (tables m')) (nodes m') = m0) as ->; [|done].
  destruct m0 as [t0 n0]. f_equal; apply map_eq; intros x; cbn in *.
  - destruct (decide (x = h)) as [->|]; [by rewrite lookup_delete_eq|]. rewrite lookup_delete_ne, H1 by done. auto.
  - rewrite H2. case_decide as E; [symmetry; by apply (tb_new _ _ _ _ _ T)|by apply (tb_old _ _ _ _ _ T)].
Qed.
