(* ===== verification/HTableSpec.v ===== *)
(** * htable: the table promises a finite map

    A client creates a table, sets, gets and deletes keys, and frees the table.
    Its answers are those of a finite map from keys to values, whatever the
    capacity and the collisions, and all the memory comes back. *)

From S2P Require Import Prelude HTable HTableInv HTableOps.
Import HTable.

Inductive hcommand :=
  | Set_ (k v : Z)
  | Get_ (k : Z)
  | Del_ (k : Z).

(** Keys are of type [uintptr_t]. *)
Definition key_ok (c : hcommand) : bool :=
  let k := match c with Set_ k _ | Get_ k | Del_ k => k end in (0 <=? k) && (k <? 2 ^ 64).

Section Client.
(** [malloc] chooses a block from the current memory; [malloc_buckets] says
    whether an array of that many bytes can be had. *)
Context (malloc : memory -> option loc) (malloc_buckets : Z -> bool).

Definition with_malloc {A} (k : option loc -> M memory A) : M memory A := a ← gets malloc; k a.

Definition hexec (fuel : nat) (h : option loc) (c : hcommand) : M memory (option Z) :=
  match c with
  | Set_ k v => with_malloc (fun a => htable_set fuel a h k v);; mret None
  | Get_ k => htable_get fuel h k
  | Del_ k => htable_del fuel h k;; mret None
  end.

Fixpoint hexec_all (fuel : nat) (h : option loc) (cs : list hcommand) : M memory (list (option Z)) :=
  match cs with
  | [] => mret []
  | c :: cs => a ← hexec fuel h c; rest ← hexec_all fuel h cs; mret (a :: rest)
  end.

Definition hclient (fuel : nat) (cap : Z) (cs : list hcommand) : M memory (option (list (option Z))) :=
  h ← with_malloc (fun a => htable_create fuel a malloc_buckets cap);
  match h with
  | None => mret None
  | Some h => r ← hexec_all fuel (Some h) cs; htable_free fuel fuel (Some h);; mret (Some r)
  end.

(** One command on a map; setting a new key does nothing where [malloc] fails. *)
Inductive hstep : hcommand -> gmap Z Z -> option Z -> gmap Z Z -> Prop :=
  | hset k v A : hstep (Set_ k v) A None (<[k := v]> A)
  | hset_fails k v A m : malloc m = None -> A !! k = None -> hstep (Set_ k v) A None A
  | hget k A : hstep (Get_ k) A (A !! k) A
  | hdel k A : hstep (Del_ k) A None (delete k A).

Inductive hsteps : list hcommand -> gmap Z Z -> list (option Z) -> gmap Z Z -> Prop :=
  | hsteps_nil A : hsteps [] A [] A
  | hsteps_cons c cs A a A1 r A2 : hstep c A a A1 -> hsteps cs A1 r A2 -> hsteps (c :: cs) A (a :: r) A2.

Hypothesis malloc_unused : forall m p, malloc m = Some p -> unused m p.

(** The table [h] holds the map [A]. *)
Definition holds (m0 m : memory) (h : loc) (cap : Z) (n : nat) (A : gmap Z Z) : Prop :=
  exists cs, table m0 m h cap cs /\ (length (concat cs) <= n)%nat /\
    forall k, 0 <= k -> contents cs cap k = A !! k.

Lemma hexec_wp m0 m h cap n A c fuel :
  holds m0 m h cap n A -> key_ok c = true -> (n < fuel)%nat ->
  wp (hexec fuel (Some h) c) (fun a m' => exists A', holds m0 m' h cap (S n) A' /\ hstep c A a A') m.
Proof.
  intros (cs & T & L & H) Hk Hf. unfold key_ok in Hk. destruct c as [k v|k|k]; cbn [hexec];
    apply andb_prop in Hk as [Hk _]; apply Z.leb_le in Hk; pose proof (H k Hk) as HA.
  - apply wp_bind, wp_bind, wp_gets. eapply (htable_set_wp T); [done|lia|by apply malloc_unused|].
    intros m' cs' T' L' H'. apply wp_ret. rewrite HA in H'. case_bool_decide as E.
    + exists A. split; [|destruct E; by eapply hset_fails]. exists cs'. split_and!; [done|lia|].
      intros k' Hk'. by rewrite H', H.
    + exists (<[k := v]> A). split; [|constructor]. exists cs'. split_and!; [done|lia|].
      intros k' Hk'. rewrite H'. destruct (Z.eqb_spec k' k) as [->|]; [by rewrite lookup_insert_eq|].
      by rewrite lookup_insert_ne, H.
  - eapply (htable_get_wp T); [done|lia|]. rewrite HA. exists A. split; [|constructor]. exists cs. split_and!; [done|lia|done].
  - apply wp_bind. eapply htable_del_wp; [done|done|lia|]. intros m' cs' T' L' H'. apply wp_ret.
    exists (delete k A). split; [|constructor]. exists cs'. split_and!; [done|lia|].
    intros k' Hk'. rewrite H'. destruct (Z.eqb_spec k' k) as [->|]; [by rewrite lookup_delete_eq|].
    by rewrite lookup_delete_ne, H.
Qed.

Lemma hexec_all_wp m0 m h cap n A cs fuel :
  holds m0 m h cap n A -> forallb key_ok cs = true -> (n + length cs < fuel)%nat ->
  wp (hexec_all fuel (Some h) cs) (fun r m' => exists A', holds m0 m' h cap (n + length cs) A' /\ hsteps cs A r A') m.
Proof.
  revert m n A. induction cs as [|c cs IH]; cbn [hexec_all forallb length]; intros m n A H Hk Hf.
  - apply wp_ret. exists A. rewrite Nat.add_0_r. split; [done|constructor].
  - apply andb_prop in Hk as [Hk1 Hk2]. apply wp_bind. eapply wp_mono; [eapply hexec_wp; [done|done|lia]|].
    intros a m1 (A1 & H1 & S1). apply wp_bind. eapply wp_mono; [eapply IH; [done|done|lia]|].
    intros r m2 (A2 & H2 & S2). apply wp_ret. exists A2.
    replace (n + S (length cs))%nat with (S n + length cs)%nat by lia. split; [done|by eapply hsteps_cons].
Qed.

(** C10: for every capacity below 2^61, and every sequence of [htable_set],
    [htable_get] and [htable_del] calls on any keys, on a table made by
    [htable_create] and released by [htable_free], no pointer is misused, every
    loop ends, the answers are those of a finite map from keys to values
    (collisions do not show; a new key is dropped only where [malloc] failed),
    and at the end the memory is exactly what it was. *)
Theorem htable_refines_map m0 cap cs fuel :
  0 < cap <= max_capacity -> forallb key_ok cs = true -> malloc_buckets (cap * 8) = true ->
  (Z.to_nat cap < fuel)%nat -> (length cs < fuel)%nat ->
  exists r, hclient fuel cap cs m0 = Some (r, m0) /\
    match r with
    | None => malloc m0 = None
    | Some answers => exists A, hsteps cs ∅ answers A
    end.
Proof.
  intros Hcap Hk Hm Hf1 Hf2.
  assert (wp (hclient fuel cap cs) (fun r m => m = m0 /\
    match r with None => malloc m0 = None | Some a => exists A, hsteps cs ∅ a A end) m0) as W.
  { unfold hclient. apply wp_bind, wp_bind, wp_gets. destruct (malloc m0) as [h|] eqn:E.
    2: { unfold htable_create. rewrite (proj2 (Z.eqb_neq cap 0)) by lia. by apply wp_ret, wp_ret. }
    eapply htable_create_wp; [done|by apply malloc_unused|done|done|]. intros m1 T1. apply wp_bind.
    assert (holds m0 m1 h cap 0 ∅) as H1.
    { eexists. split; [done|]. rewrite concat_replicate_nil. split; [done|]. intros k _. apply contents_nil. }
    eapply wp_mono; [by eapply hexec_all_wp|]. intros r m2 (A & (cs2 & T2 & L2 & _) & St).
    apply wp_bind. eapply htable_free_wp; [done|done|cbn in L2; lia|]. apply wp_ret. split; [done|eauto]. }
  destruct (wp_run _ _ _ W) as (r & m & E & -> & H). by exists r.
Qed.

End Client.

(** [htable_create] does not check the size it asks [malloc] for: at
    capacity 2^61 the bytes wrap to 0, and if [malloc(0)] returns a block the
    initialisation loop writes out of its bounds at once, whatever the fuel. *)
Theorem htable_create_overflow fuel h m :
  htable_create fuel (Some h) (fun _ => true) (2 ^ 61) m = None.
Proof.
  unfold htable_create. replace (buckets_bytes (2 ^ 61)) with 0 by reflexivity.
  replace (2 ^ 61 =? 0) with false by reflexivity. change (0 / 8) with 0. cbn [Z.to_nat replicate].
  set (cap := 2 ^ 61). unfold mbind, M_bind, modify.
  set (m1 := Mem _ _). replace (init_loop fuel h 0 m1) with (@None (unit * memory)); [done|].
  assert (get_table h m1 = Some (HT cap [], m1)) as G.
  { unfold get_table, mbind, M_bind, gets. unfold m1. cbn [tables]. by rewrite lookup_insert_eq. }
  destruct fuel as [|fuel]; [done|]. cbn [init_loop]. unfold mbind, M_bind. rewrite G. cbn [capacity].
  replace (0 <? cap) with true by reflexivity. unfold set_bucket, mbind, M_bind. by rewrite G.
Qed.

(** An allocator with three blocks, the lowest free one first. *)
Definition three_blocks (m : memory) : option loc :=
  List.find (fun p => bool_decide (unused m p)) [1; 2; 3].

Lemma hblocks_unused m p : three_blocks m = Some p -> unused m p.
Proof. intros H. apply List.find_some in H as [_ H]. by apply bool_decide_eq_true in H. Qed.

Lemma htable_refines_map_witness :
  let cs := [Set_ 5 50; Set_ 9 90; Get_ 5; Set_ 5 51; Set_ 7 70; Get_ 7; Del_ 5; Get_ 5; Get_ 9; Set_ 7 70; Get_ 7] in
  hclient three_blocks (fun _ => true) 12 4 cs (Mem ∅ ∅)
    = Some (Some [None; None; Some 50; None; None; None; None; None; Some 90; None; Some 70], Mem ∅ ∅)
  /\ exists r, hclient three_blocks (fun _ => true) 12 4 cs (Mem ∅ ∅) = Some (r, Mem ∅ ∅) /\
    match r with
    | None => three_blocks (Mem ∅ ∅) = None
    | Some answers => exists A, hsteps three_blocks cs ∅ answers A
    end.
Proof.
  intros cs. split; [vm_compute; reflexivity|].
  apply (htable_refines_map three_blocks (fun _ => true) hblocks_unused (Mem ∅ ∅) 4 cs 12).
  - unfold max_capacity. lia.
  - vm_compute. reflexivity.
  - reflexivity.
  - vm_compute. lia.
  - vm_compute. lia.
Defined.
