(* ===== verification/SList.v ===== *)
(** * slist: the singly linked list of [src/netlink_getlink/slist.h]

    A list is a head structure with pointers to the first and the last node;
    null pointers are checked by every operation.  Every sequence of operations
    is a sequence of operations on lists of nodes. *)

From S2P Require Import Prelude.

Module SList.

Record slist_head := SH { head : ptr; tail : ptr }.
Record memory := Mem { heads : gmap loc slist_head; nexts : gmap loc ptr }.

Definition get_head (l : loc) : M memory slist_head := m ← gets heads; of_option (m !! l).
Definition get_next (n : loc) : M memory ptr := m ← gets nexts; of_option (m !! n).
Definition set_head (l : loc) (h : slist_head) : M memory unit :=
  _ ← get_head l; modify (fun m => Mem (<[l := h]> (heads m)) (nexts m)).
Definition set_next (n : loc) (p : ptr) : M memory unit :=
  _ ← get_next n; modify (fun m => Mem (heads m) (<[n := p]> (nexts m))).

Definition INIT_SLIST_HEAD (list : loc) : M memory unit :=
  h ← get_head list; set_head list (SH None (tail h));;
  h ← get_head list; set_head list (SH (head h) None).

Definition slist_empty (list : ptr) : M memory bool :=
  match list with
  | None => mret true
  | Some l => h ← get_head l; mret (bool_decide (head h = None))
  end.

Definition slist_add (new list : ptr) : M memory unit :=
  match new, list with
  | Some new, Some l =>
      h ← get_head l;
      set_next new (head h);;
      set_head l (SH (Some new) (tail h));;
      h ← get_head l;
      match tail h with
      | None => set_head l (SH (head h) (Some new))
      | Some _ => mret tt
      end
  | _, _ => mret tt
  end.

Definition slist_add_tail (new list : ptr) : M memory unit :=
  match new, list with
  | Some new, Some l =>
      set_next new None;;
      e ← slist_empty list;
      h ← get_head l;
      (if negb e then
         match tail h with
         | Some t => set_next t (Some new)
         | None => mret tt
         end
       else set_head l (SH (Some new) (tail h)));;
      h ← get_head l;
      set_head l (SH (head h) (Some new))
  | _, _ => mret tt
  end.

Definition slist_del_head (list : ptr) : M memory unit :=
  match list with
  | None => mret tt
  | Some l =>
      e ← slist_empty list;
      if (e : bool) then mret tt
      else
        h ← get_head l;
        match head h with
        | None => mret tt
        | Some first =>
            nx ← get_next first;
            set_head l (SH nx (tail h));;
            match nx with
            | None => set_head l (SH nx None)
            | Some _ => mret tt
            end
        end
  end.

Definition slist_del_next (prev list : ptr) : M memory unit :=
  match list with
  | None => mret tt
  | Some l =>
      match prev with
      | None => slist_del_head list
      | Some p =>
          nx ← get_next p;
          match nx with
          | None => mret tt
          | Some to_del =>
              d ← get_next to_del;
              set_next p d;;
              h ← get_head l;
              if bool_decide (Some to_del = tail h) then set_head l (SH (head h) (Some p)) else mret tt
          end
      end
  end.

(** The loop that looks for the node before [node]. *)
Fixpoint find_prev (fuel : nat) (node : loc) (prev : ptr) : M memory ptr :=
  match fuel with
  | O => ub
  | S fuel =>
      match prev with
      | None => mret None
      | Some p =>
          nx ← get_next p;
          if bool_decide (nx = Some node) then mret prev else find_prev fuel node nx
      end
  end.

Definition slist_del_node (fuel : nat) (node list : ptr) : M memory Z :=
  match list, node with
  | Some l, Some n =>
      h ← get_head l;
      match head h with
      | None => mret (-1)
      | Some first =>
          if first =? n then slist_del_head list;; mret 0
          else
            prev ← find_prev fuel n (head h);
            match prev with
            | Some _ => slist_del_next prev list;; mret 0
            | None => mret (-1)
            end
      end
  | _, _ => mret (-1)
  end.

(** The loop of [slist_for_each]: the nodes it visits, in order. *)
Fixpoint visit (fuel : nat) (pos : ptr) : M memory (list loc) :=
  match fuel with
  | O => ub
  | S fuel =>
      match pos with
      | None => mret []
      | Some p => nx ← get_next p; rest ← visit fuel nx; mret (p :: rest)
      end
  end.

Definition slist_for_each (fuel : nat) (list' : ptr) : M memory (list loc) :=
  match list' with
  | None => mret []
  | Some l => h ← get_head l; visit fuel (head h)
  end.

End SList.
Import SList.

(** ** The chain from a node on *)

Fixpoint chain (m : gmap loc ptr) (p : ptr) (c : list loc) : Prop :=
  match c with
  | [] => p = None
  | x :: c => p = Some x /\ exists nx, m !! x = Some nx /\ chain m nx c
  end.

Lemma slist_chain_eq m m' p c : chain m p c -> (forall x, x ∈ c -> m' !! x = m !! x) -> chain m' p c.
Proof.
  revert p. induction c as [|x c IH]; intros p H E; [done|]. destruct H as (-> & nx & H1 & H2).
  split; [done|]. exists nx. rewrite E by set_solver. split; [done|]. apply IH; [done|]. set_solver.
Qed.

Lemma chain_next m p c x c2 : chain m p (c ++ x :: c2) -> exists nx, m !! x = Some nx /\ nx = hd_error c2.
Proof.
  revert p. induction c as [|y c IH]; intros p H; [|destruct H as (_ & nx & _ & H); eauto].
  destruct H as (_ & nx & Hx & H). exists nx. split; [done|]. destruct c2; [done|]. by destruct H.
Qed.

(** A new next pointer for the last node before [c2]. *)
Lemma chain_redirect m p c x c2 c3 nx :
  chain m p (c ++ x :: c2) -> NoDup (c ++ [x]) -> x ∉ c3 -> chain m nx c3 ->
  chain (<[x := nx]> m) p (c ++ x :: c3).
Proof.
  revert p. induction c as [|y c IH]; intros p H N Hx3 C3; cbn in *.
  - destruct H as (-> & n & _ & _). split; [done|]. exists nx. rewrite lookup_insert_eq. split; [done|].
    eapply slist_chain_eq; [done|]. intros z Hz. apply lookup_insert_ne. by intros ->.
  - destruct H as (-> & n & Hn & H). apply NoDup_cons in N as [N1 N2]. split; [done|]. exists n.
    rewrite lookup_insert_ne by set_solver. split; [done|]. by apply IH.
Qed.

Lemma wp_get_head l h (Q : slist_head -> memory -> Prop) m : heads m !! l = Some h -> Q h m -> wp (get_head l) Q m.
Proof. intros H HQ. apply wp_bind, wp_gets. rewrite H. by apply wp_ret. Qed.

Lemma wp_get_next x p (Q : ptr -> memory -> Prop) m : nexts m !! x = Some p -> Q p m -> wp (get_next x) Q m.
Proof. intros H HQ. apply wp_bind, wp_gets. rewrite H. by apply wp_ret. Qed.

Lemma wp_set_head l h h' (Q : unit -> memory -> Prop) m :
  heads m !! l = Some h -> Q tt (Mem (<[l := h']> (heads m)) (nexts m)) -> wp (set_head l h') Q m.
Proof. intros H HQ. by eapply wp_bind, wp_get_head. Qed.

Lemma slist_wp_set_next x p p' (Q : unit -> memory -> Prop) m :
  nexts m !! x = Some p -> Q tt (Mem (heads m) (<[x := p']> (nexts m))) -> wp (set_next x p') Q m.
Proof. intros H HQ. by eapply wp_bind, wp_get_next. Qed.

(** The list [l] holds the nodes [c]. *)
Record holds (m : memory) (l : loc) (c : list loc) : Prop := {
  sl_head : heads m !! l = Some (SH (hd_error c) (last c));
  sl_chain : chain (nexts m) (hd_error c) c;
  sl_nodup : NoDup c
}.

(** What a list operation leaves alone. *)
Definition others (m m' : memory) (l : loc) (c : list loc) : Prop :=
  (forall x, x <> l -> heads m' !! x = heads m !! x) /\
  (forall x, x ∉ c -> nexts m' !! x = nexts m !! x) /\ dom (nexts m') = dom (nexts m).

Lemma hd_error_bool (c : list loc) : bool_decide (hd_error c = None) = bool_decide (c = []).
Proof. by destruct c. Qed.

Lemma slist_empty_wp m l c (Q : bool -> memory -> Prop) :
  holds m l c -> Q (bool_decide (c = [])) m -> wp (slist_empty (Some l)) Q m.
Proof. intros H HQ. apply wp_bind. eapply wp_get_head; [apply H|]. apply wp_ret. cbn. by rewrite hd_error_bool. Qed.

Lemma INIT_SLIST_HEAD_wp m l (Q : unit -> memory -> Prop) :
  is_Some (heads m !! l) -> (forall m', holds m' l [] -> others m m' l [] -> Q tt m') -> wp (INIT_SLIST_HEAD l) Q m.
Proof.
  intros [h Hh] HQ. apply wp_bind. eapply wp_get_head; [done|]. apply wp_bind. eapply wp_set_head; [done|].
  apply wp_bind. eapply wp_get_head; [cbn; by rewrite lookup_insert_eq|]. eapply wp_set_head; [cbn; by rewrite lookup_insert_eq|].
  apply HQ; cbn.
  - constructor; cbn; [by rewrite lookup_insert_eq|done|constructor].
  - unfold others. cbn. split; [|done]. intros x Hx. by rewrite !lookup_insert_ne.
Qed.

Lemma slist_add_wp m l c x (Q : unit -> memory -> Prop) :
  holds m l c -> is_Some (nexts m !! x) -> x ∉ c ->
  (forall m', holds m' l (x :: c) -> others m m' l (x :: c) -> Q tt m') -> wp (slist_add (Some x) (Some l)) Q m.
Proof.
  intros H [p Hp] Hx HQ. pose proof (sl_head _ _ _ H) as Hh. pose proof (sl_nodup _ _ _ H) as N.
  assert (chain (<[x := hd_error c]> (nexts m)) (Some x) (x :: c)) as C.
  { split; [done|]. exists (hd_error c). rewrite lookup_insert_eq. split; [done|].
    eapply slist_chain_eq; [apply H|]. intros y Hy. apply lookup_insert_ne. by intros ->. }
  assert (forall t, others m (Mem t (<[x := hd_error c]> (nexts m))) l (x :: c) <-> forall y, y <> l -> t !! y = heads m !! y) as O.
  { intros t. unfold others. cbn. split; [by intros (A & _)|]. intros A. split_and!; [done| |].
    - intros y Hy. rewrite lookup_insert_ne; set_solver.
    - apply dom_insert_lookup_L. by exists p. }
  apply wp_bind. eapply wp_get_head; [done|]. apply wp_bind. eapply slist_wp_set_next; [done|].
  apply wp_bind. eapply wp_set_head; [done|]. apply wp_bind.
  eapply wp_get_head; [cbn; by rewrite lookup_insert_eq|].
 cbn [tail SList.head heads nexts].
  destruct (last c) as [t|] eqn:E.
  - apply wp_ret, HQ; [|apply O; intros z Hz; by rewrite lookup_insert_ne].
    constructor; cbn [heads nexts]; [|done|by apply NoDup_cons]. rewrite lookup_insert_eq.
    change (x :: c) with ([x] ++ c). by rewrite last_app, E.
  - apply last_None in E as ->. eapply wp_set_head; [cbn; by rewrite lookup_insert_eq|]. cbn. apply HQ.
    + constructor; cbn [heads nexts]; [by rewrite lookup_insert_eq|done|by apply NoDup_cons].
    + apply O. intros z Hz. by rewrite !lookup_insert_ne.
Qed.
