(* ===== verification/SListSpec.v ===== *)
(** * slist: what the list operations promise

    The rules of the operations and the refinement of [src/netlink_getlink/slist.h]
    to sequences of nodes. *)

From S2P Require Import Prelude SList.
Import SList.

Lemma others_next m l c n t p :
  n ∈ c -> is_Some (nexts m !! n) -> (forall x, x <> l -> t !! x = heads m !! x) ->
  others m (Mem t (<[n := p]> (nexts m))) l c.
Proof.
  intros Hn Hs Ht. split_and!; cbn; [done| |by apply dom_insert_lookup_L].
  intros x Hx. apply lookup_insert_ne. by intros ->.
Qed.

Lemma holds_node m l c x : holds m l c -> x ∈ c -> is_Some (nexts m !! x).
Proof.
  intros H (c1 & c2 & ->)%list_elem_of_split. destruct (chain_next _ _ _ _ _ (sl_chain _ _ _ H)) as (? & -> & _). eauto.
Qed.

Lemma hd_error_app (c : list loc) x d : hd_error (c ++ x :: d) = Some (List.hd x c).
Proof. by destruct c. Qed.

Lemma slist_add_tail_wp m l c x (Q : unit -> memory -> Prop) :
  holds m l c -> is_Some (nexts m !! x) -> x ∉ c ->
  (forall m', holds m' l (c ++ [x]) -> others m m' l (c ++ [x]) -> Q tt m') ->
  wp (slist_add_tail (Some x) (Some l)) Q m.
Proof.
  intros H [p Hp] Hx HQ. pose proof (sl_head _ _ _ H) as Hh. pose proof (sl_nodup _ _ _ H) as N.
  assert (NoDup (c ++ [x])) as N' by (apply NoDup_app; split_and!; [done|set_solver|apply NoDup_singleton]).
  apply wp_bind. eapply slist_wp_set_next; [done|]. apply wp_bind, wp_bind. eapply wp_get_head; [done|]. cbn.
  apply wp_ret, wp_bind. eapply wp_get_head; [done|]. cbn. apply wp_bind. rewrite hd_error_bool.
  destruct c as [|y c] using rev_ind; [|clear IHc].
  - cbn. eapply wp_set_head; [done|]. apply wp_bind. eapply wp_get_head; [cbn; by rewrite lookup_insert_eq|].
    eapply wp_set_head; [cbn; by rewrite lookup_insert_eq|]. apply HQ; cbn.
    + constructor; cbn; [by rewrite lookup_insert_eq| |done]. split; [done|]. exists None. by rewrite lookup_insert_eq.
    + apply others_next; [set_solver|eauto|]. intros z Hz. by rewrite !lookup_insert_ne.
  - rewrite bool_decide_false by by destruct c. cbn [negb]. rewrite last_snoc.
    destruct (holds_node _ _ _ y H) as [py Hy]; [set_solver|]. assert (y <> x) by set_solver.
    eapply slist_wp_set_next; [cbn; by rewrite lookup_insert_ne|]. cbn.
    apply wp_bind. eapply wp_get_head; [done|]. eapply wp_set_head; [done|]. apply HQ; cbn.
    + constructor; cbn; [|rewrite <- app_assoc|done].
      * rewrite lookup_insert_eq, last_snoc. by destruct c.
      * cbn [app]. pose proof (sl_chain _ _ _ H) as C. rewrite !hd_error_app in *.
        eapply (chain_redirect _ _ c y []); [|done|set_solver|].
        -- eapply slist_chain_eq; [done|]. intros z Hz. apply lookup_insert_ne. by intros ->.
        -- split; [done|]. exists None. by rewrite lookup_insert_eq.
    + split_and!; cbn.
      * intros z Hz. by rewrite lookup_insert_ne.
      * intros z Hz. rewrite !lookup_insert_ne; set_solver.
      * rewrite dom_insert_lookup_L by (rewrite lookup_insert_ne by done; eauto). apply dom_insert_lookup_L. eauto.
Qed.

Lemma slist_del_head_wp m l c (Q : unit -> memory -> Prop) :
  holds m l c -> (forall m', holds m' l (List.tl c) -> others m m' l c -> nexts m' = nexts m -> Q tt m') ->
  wp (slist_del_head (Some l)) Q m.
Proof.
  intros H HQ. pose proof (sl_head _ _ _ H) as Hh. pose proof (sl_nodup _ _ _ H) as N.
  apply wp_bind. eapply slist_empty_wp; [done|]. case_bool_decide as E.
  - subst c. apply wp_ret, HQ; [done|by unfold others|done].
  - destruct c as [|x c]; [done|]. apply wp_bind. eapply wp_get_head; [done|]. cbn.
    destruct (sl_chain _ _ _ H) as (_ & nx & Hx & C). apply NoDup_cons in N as [N1 N2].
    apply wp_bind. eapply wp_get_next; [done|]. apply wp_bind. eapply wp_set_head; [done|].
    assert (forall t, (forall z, z <> l -> t !! z = heads m !! z) -> others m (Mem t (nexts m)) l (x :: c)) as O
      by by unfold others.
    destruct nx as [y|].
    + destruct c as [|y' c]; [done|]. destruct C as ([= <-] & n & C1 & C2).
      apply wp_ret, HQ; [|apply O; intros z Hz; by rewrite lookup_insert_ne|done].
      constructor; cbn [heads nexts List.tl]; [by rewrite lookup_insert_eq| |done]. split; [done|eauto].
    + destruct c as [|y' c]; [|by destruct C]. eapply wp_set_head; [cbn; by rewrite lookup_insert_eq|].
      cbn [heads nexts]. apply HQ; [|apply O; intros z Hz; by rewrite !lookup_insert_ne|done].
      constructor; cbn; [by rewrite lookup_insert_eq|done|done].
Qed.

Lemma slist_del_next_wp m l c1 p c2 (Q : unit -> memory -> Prop) :
  holds m l (c1 ++ p :: c2) ->
  (forall m', holds m' l (c1 ++ p :: List.tl c2) -> others m m' l (c1 ++ p :: c2) -> Q tt m') ->
  wp (slist_del_next (Some p) (Some l)) Q m.
Proof.
  intros H HQ. pose proof (sl_head _ _ _ H) as Hh. pose proof (sl_nodup _ _ _ H) as N.
  pose proof (sl_chain _ _ _ H) as C. destruct (chain_next _ _ _ _ _ C) as (nx & Hp & ->).
  apply wp_bind. eapply wp_get_next; [done|]. destruct c2 as [|d c2]; cbn [hd_error].
  - apply wp_ret, HQ; [done|by unfold others].
  - assert (c1 ++ p :: d :: c2 = (c1 ++ [p]) ++ d :: c2) as E by by rewrite <- app_assoc.
    pose proof C as C'. rewrite E in C' at 2. destruct (chain_next _ _ _ _ _ C') as (nd & Hd & ->).
    apply wp_bind. eapply wp_get_next; [done|]. apply wp_bind. eapply slist_wp_set_next; [done|].
    apply wp_bind. eapply wp_get_head; [done|]. cbn [tail SList.head].
    assert (p <> d /\ d ∉ c2 /\ p ∉ c2 /\ NoDup (c1 ++ [p]) /\ NoDup (c1 ++ p :: c2)) as (Npd & Nd & Np & N1 & N2).
    { rewrite E in N. apply NoDup_app in N as (N1 & N2 & [N3 N4]%NoDup_cons).
      apply NoDup_app in N1 as N1'. destruct N1' as (N5 & N6 & _). split_and!; [set_solver|done|set_solver|done|].
      apply NoDup_app. split_and!; [done|set_solver|]. apply NoDup_cons. set_solver. }
    assert (chain (<[p := hd_error c2]> (nexts m)) (hd_error (c1 ++ p :: c2)) (c1 ++ p :: c2)) as C2.
    { rewrite hd_error_app in C |- *. eapply (chain_redirect _ _ c1 p (d :: c2)); [done..|].
      destruct (chain_next _ _ _ _ _ C') as (? & Hd' & _). rewrite E, <- hd_error_app with (d := d :: c2), E in C.
      clear -C. revert C. generalize (hd_error ((c1 ++ [p]) ++ d :: c2)). induction (c1 ++ [p]) as [|y c IH]; cbn.
      - intros q (_ & nx & Hn & C). by destruct c2; cbn in *; destruct C as [-> C].
      - intros q (_ & nx & Hn & C). by eapply IH. }
    assert (p ∈ c1 ++ p :: d :: c2) as Hpin by set_solver.
    destruct (decide (c2 = [])) as [->|Hc2].
    + rewrite bool_decide_true by by rewrite E, last_snoc. eapply wp_set_head; [done|]. cbn. apply HQ.
      * constructor; cbn; [|done|done]. rewrite lookup_insert_eq, !hd_error_app, last_snoc. done.
      * apply others_next; [done|eauto|]. intros z Hz. by rewrite lookup_insert_ne.
    + destruct c2 as [|e c2] using rev_ind; [done|]. clear IHc2 Hc2.
      assert (forall k, last (k ++ d :: c2 ++ [e]) = Some e) as Hlast.
      { intros k. rewrite app_comm_cons, app_assoc. apply last_snoc. }
      rewrite bool_decide_false; [|rewrite E, Hlast; intros [= ->]; set_solver].
      apply wp_ret, HQ.
      * constructor; cbn [heads nexts List.tl]; [|done|done]. rewrite Hh, E, Hlast, <- E, !hd_error_app.
        by rewrite app_comm_cons, app_assoc, last_snoc.
      * apply others_next; [done|eauto|done].
Qed.

Lemma find_prev_wp m n p c fuel (Q : ptr -> memory -> Prop) :
  chain (nexts m) p c -> (length c < fuel)%nat ->
  match list_find (fun x => nexts m !! x = Some (Some n)) c with
  | Some (_, x) => Q (Some x) m
  | None => Q None m
  end -> wp (find_prev fuel n p) Q m.
Proof.
  revert p fuel. induction c as [|x c IH]; intros p fuel C Hf HQ; (destruct fuel as [|fuel]; [cbn in Hf; lia|]); cbn [find_prev].
  - rewrite C. by apply wp_ret.
  - destruct C as (-> & nx & Hx & C). apply wp_bind. eapply wp_get_next; [done|]. cbn in HQ. rewrite Hx in HQ.
    case_bool_decide as E.
    + rewrite decide_True in HQ by congruence. by apply wp_ret.
    + rewrite decide_False in HQ by congruence. apply IH; [done|cbn in Hf; lia|].
      by destruct (list_find _ c) as [[i y]|].
Qed.

(** The node before [n], in the chain. *)
Lemma find_before m p c1 q n c2 : chain m p (c1 ++ q :: n :: c2) -> NoDup (c1 ++ q :: n :: c2) ->
  exists i, list_find (fun x => m !! x = Some (Some n)) (c1 ++ q :: n :: c2) = Some (i, q).
Proof.
  intros C N. exists (length c1). apply list_find_Some. split_and!.
  - by apply list_lookup_middle.
  - by destruct (chain_next _ _ _ _ _ C) as (nx & -> & ->).
  - intros j y Hj Hlt Hy. rewrite lookup_app_l in Hj by done. apply list_elem_of_split_length in Hj as (a & b & -> & _).
    rewrite <- app_assoc in C, N. cbn in C, N. destruct (chain_next _ _ _ _ _ C) as (nx & Hy' & ->).
    rewrite Hy in Hy'. injection Hy' as Hn.
    apply NoDup_app in N as (_ & _ & [_ N]%NoDup_cons). destruct b as [|z b]; cbn in Hn; injection Hn as ->.
    + apply NoDup_cons in N as [N _]. set_solver.
    + cbn in N. apply NoDup_cons in N as [N _]. set_solver.
Qed.

Lemma find_before_none m p c n : chain m p c -> n ∉ c -> list_find (fun x => m !! x = Some (Some n)) c = None.
Proof.
  intros C Hn. apply list_find_None, Forall_forall. intros x (c1 & c2 & ->)%list_elem_of_split Hx.
  destruct (chain_next _ _ _ _ _ C) as (nx & Hx' & ->). rewrite Hx in Hx'. injection Hx' as E.
  destruct c2; [done|]. injection E as ->. set_solver.
Qed.

Definition without (n : loc) (c : list loc) : list loc := filter (fun x => x <> n) c.

Lemma without_id n c : n ∉ c -> without n c = c.
Proof.
  unfold without. induction c as [|x c IH]; intros H; [done|]. rewrite filter_cons.
  rewrite decide_True by set_solver. rewrite IH; [done|set_solver].
Qed.

Lemma without_mid n c1 c2 : NoDup (c1 ++ n :: c2) -> without n (c1 ++ n :: c2) = c1 ++ c2.
Proof.
  intros (_ & N1 & [N2 _]%NoDup_cons)%NoDup_app. unfold without. rewrite filter_app, filter_cons, decide_False by tauto.
  fold (without n c1) (without n c2). rewrite !without_id; [done|done|]. intros H. apply (N1 _ H). set_solver.
Qed.

Lemma slist_del_node_wp m l c n fuel (Q : Z -> memory -> Prop) :
  holds m l c -> (length c < fuel)%nat ->
  (forall m', holds m' l (without n c) -> others m m' l c -> Q (if bool_decide (n ∈ c) then 0 else -1) m') ->
  wp (slist_del_node fuel (Some n) (Some l)) Q m.
Proof.
  intros H Hf HQ. pose proof (sl_head _ _ _ H) as Hh. pose proof (sl_nodup _ _ _ H) as N. pose proof (sl_chain _ _ _ H) as C.
  apply wp_bind. eapply wp_get_head; [done|]. cbn [SList.head]. destruct c as [|x c]; cbn [hd_error].
  { apply wp_ret. rewrite bool_decide_false in HQ by set_solver. apply HQ; [done|by unfold others]. }
  destruct (Z.eqb_spec x n) as [->|Hxn].
  - apply wp_bind. eapply slist_del_head_wp; [done|]. intros m' H' O _. apply wp_ret.
    rewrite bool_decide_true in HQ by set_solver. apply HQ; [|done]. by rewrite (without_mid n [] c N : without n (n :: c) = c).
  - apply wp_bind. eapply find_prev_wp; [done|done|]. destruct (decide (n ∈ x :: c)) as [Hn|Hn].
    + rewrite bool_decide_true in HQ by done.
      assert (exists c1 q c2, x :: c = c1 ++ q :: n :: c2) as (c1 & q & c2 & E).
      { apply list_elem_of_split in Hn as (c1 & c2 & E). destruct c1 as [|q c1] using rev_ind; [by injection E as ->|].
        exists c1, q, c2. by rewrite E, <- app_assoc. }
      rewrite E in *. destruct (find_before _ _ _ _ _ _ C N) as [i ->].
      apply wp_bind. eapply slist_del_next_wp; [done|]. intros m' H' O. apply wp_ret, HQ; [|done].
      replace (c1 ++ q :: n :: c2) with ((c1 ++ [q]) ++ n :: c2) in * by by rewrite <- app_assoc.
      rewrite without_mid by done. by rewrite <- app_assoc.
    + rewrite bool_decide_false, without_id in HQ by done. rewrite (find_before_none _ _ _ _ C Hn).
      apply wp_ret, HQ; [done|by unfold others].
Qed.

Lemma visit_wp m p c fuel (Q : list loc -> memory -> Prop) :
  chain (nexts m) p c -> (length c < fuel)%nat -> Q c m -> wp (visit fuel p) Q m.
Proof.
  revert p fuel Q. induction c as [|x c IH]; intros p fuel Q C Hf HQ; (destruct fuel as [|fuel]; [cbn in Hf; lia|]); cbn [visit].
  - rewrite C. by apply wp_ret.
  - destruct C as (-> & nx & Hx & C). apply wp_bind. eapply wp_get_next; [done|]. apply wp_bind.
    apply (IH nx fuel); [done|cbn in Hf; lia|]. by apply wp_ret.
Qed.

(** ** The refinement *)

Inductive scommand :=
  | SInit
  | SAdd (new : ptr)
  | SAddTail (new : ptr)
  | SDelHead
  | SDelNext (prev : ptr)
  | SDelNode (node : ptr)
  | SEmpty
  | SWalk.

(** The calls on the list [l]; answers are lists of integers. *)
Definition sexec (fuel : nat) (l : ptr) (c : scommand) : M memory (list Z) :=
  match c with
  | SInit => match l with Some l => INIT_SLIST_HEAD l;; mret [] | None => mret [] end
  | SAdd n => slist_add n l;; mret []
  | SAddTail n => slist_add_tail n l;; mret []
  | SDelHead => slist_del_head l;; mret []
  | SDelNext p => slist_del_next p l;; mret []
  | SDelNode n => r ← slist_del_node fuel n l; mret [r]
  | SEmpty => b ← slist_empty l; mret [if b : bool then 1 else 0]
  | SWalk => slist_for_each fuel l
  end.

(** The same on sequences; [None] where the caller breaks the contract: a node
    added must be allocated and not in the list, [prev] must be in the list. *)
Definition sspec (nodes : gset loc) (c : scommand) (s : list loc) : option (list Z * list loc) :=
  match c with
  | SInit => Some ([], [])
  | SAdd None | SAddTail None => Some ([], s)
  | SAdd (Some n) => if bool_decide (n ∈ nodes /\ n ∉ s) then Some ([], n :: s) else None
  | SAddTail (Some n) => if bool_decide (n ∈ nodes /\ n ∉ s) then Some ([], s ++ [n]) else None
  | SDelHead | SDelNext None => Some ([], List.tl s)
  | SDelNext (Some p) =>
      '(i, _) ← list_find (fun x => x = p) s; Some ([], take (S i) s ++ drop (S (S i)) s)
  | SDelNode None => Some ([-1], s)
  | SDelNode (Some n) => Some ([if bool_decide (n ∈ s) then 0 else -1], without n s)
  | SEmpty => Some ([if bool_decide (s = []) then 1 else 0], s)
  | SWalk => Some (s, s)
  end.

Lemma holds_length m l c : holds m l c -> (length c <= size (dom (nexts m)))%nat.
Proof.
  intros H. rewrite <- (size_list_to_set (C := gset loc) c) by apply H. apply subseteq_size.
  intros x Hx%elem_of_list_to_set. apply elem_of_dom. by eapply holds_node.
Qed.

Lemma sexec_wp m l s c a s' fuel :
  holds m l s -> (size (dom (nexts m)) < fuel)%nat -> sspec (dom (nexts m)) c s = Some (a, s') ->
  wp (sexec fuel (Some l) c) (fun r m' => r = a /\ holds m' l s' /\ dom (nexts m') = dom (nexts m) /\
    forall x, x <> l -> heads m' !! x = heads m !! x) m.
Proof.
  intros H Hf Hs. pose proof (holds_length _ _ _ H) as Hlen. pose proof (sl_head _ _ _ H) as Hh.
  destruct c as [|[n|]|[n|]| |[p|]|[n|]| |]; cbn [sexec sspec] in *; try (injection Hs as <- <-).
  - apply wp_bind, INIT_SLIST_HEAD_wp; [eauto|]. intros m' H' (O1 & O2 & O3). by apply wp_ret.
  - case_bool_decide as E; [|done]. injection Hs as <- <-. destruct E as [E1 E2].
    apply wp_bind. eapply slist_add_wp; [done|by apply elem_of_dom|done|]. intros m' H' (O1 & O2 & O3). by apply wp_ret.
  - by apply wp_bind, wp_ret, wp_ret.
  - case_bool_decide as E; [|done]. injection Hs as <- <-. destruct E as [E1 E2].
    apply wp_bind. eapply slist_add_tail_wp; [done|by apply elem_of_dom|done|]. intros m' H' (O1 & O2 & O3). by apply wp_ret.
  - by apply wp_bind, wp_ret, wp_ret.
  - apply wp_bind. eapply slist_del_head_wp; [done|]. intros m' H' (O1 & O2 & O3) _. by apply wp_ret.
  - destruct (list_find _ s) as [[i x]|] eqn:E; [|done]. cbn in Hs. injection Hs as <- <-.
    apply list_find_Some in E as (E1 & -> & _). apply list_elem_of_split_length in E1 as (c1 & c2 & -> & ->).
    apply wp_bind. eapply slist_del_next_wp; [done|]. intros m' H' (O1 & O2 & O3). apply wp_ret.
    split_and!; [done| |done|done].
    rewrite take_app_ge, drop_app_ge by lia. replace (S (length c1) - length c1)%nat with 1%nat by lia.
    replace (S (S (length c1)) - length c1)%nat with 2%nat by lia. cbn. rewrite take_0, <- app_assoc. cbn.
    by destruct c2.
  - apply wp_bind. eapply slist_del_head_wp; [done|]. intros m' H' (O1 & O2 & O3) _. by apply wp_ret.
  - apply wp_bind. eapply slist_del_node_wp; [done|lia|]. intros m' H' (O1 & O2 & O3). by apply wp_ret.
  - by apply wp_bind, wp_ret, wp_ret.
  - apply wp_bind. eapply slist_empty_wp; [done|]. by apply wp_ret.
  - unfold slist_for_each. apply wp_bind. eapply wp_get_head; [done|]. eapply visit_wp; [apply H|lia|]. done.
Qed.

Fixpoint sexec_all (fuel : nat) (l : ptr) (cs : list scommand) : M memory (list (list Z)) :=
  match cs with
  | [] => mret []
  | c :: cs => a ← sexec fuel l c; rest ← sexec_all fuel l cs; mret (a :: rest)
  end.

Fixpoint sspec_all (nodes : gset loc) (cs : list scommand) (s : list loc) : option (list (list Z) * list loc) :=
  match cs with
  | [] => Some ([], s)
  | c :: cs => r ← sspec nodes c s; r' ← sspec_all nodes cs (snd r); Some (fst r :: fst r', snd r')
  end.

Lemma sexec_all_wp m l s cs answers s' fuel :
  holds m l s -> (size (dom (nexts m)) < fuel)%nat -> sspec_all (dom (nexts m)) cs s = Some (answers, s') ->
  wp (sexec_all fuel (Some l) cs) (fun r m' => r = answers /\ holds m' l s' /\
    forall x, x <> l -> heads m' !! x = heads m !! x) m.
Proof.
  intros H Hf. revert m s answers H Hf. induction cs as [|c cs IH]; intros m s answers H Hf E; cbn [sspec_all sexec_all] in *.
  - injection E as <- <-. by apply wp_ret.
  - destruct (sspec (dom (nexts m)) c s) as [[a s1]|] eqn:E1; [|done]. cbn [mbind option_bind fst snd] in E.
    destruct (sspec_all (dom (nexts m)) cs s1) as [[r s2]|] eqn:E2; [|done]. injection E as <- <-.
    apply wp_bind. eapply wp_mono; [by eapply sexec_wp|]. intros a' m1 (-> & H1 & D1 & O1).
    apply wp_bind. eapply wp_mono; [eapply IH; [done|by rewrite D1|by rewrite D1]|].
    intros r' m2 (-> & H2 & O2). apply wp_ret. split_and!; [done..|]. intros x Hx. by rewrite O2, O1.
Qed.

(** C17: the singly linked lists of slist.h refine sequences of nodes: for every
    sequence of calls, with null pointers anywhere the code checks for them and
    [slist_del_node] on nodes in the list or not, no invalid pointer is used,
    the searching and iterating loops end, the answers and error codes are
    those of the operations on sequences, [tail] stays the last node, and no
    other list changes. *)
Theorem slist_refines_sequences m l s cs answers s' fuel :
  holds m l s -> (size (dom (nexts m)) < fuel)%nat -> sspec_all (dom (nexts m)) cs s = Some (answers, s') ->
  exists m', sexec_all fuel (Some l) cs m = Some (answers, m') /\ holds m' l s' /\
    forall x, x <> l -> heads m' !! x = heads m !! x.
Proof.
  intros H Hf E. destruct (wp_run _ _ _ (sexec_all_wp _ _ _ _ _ _ _ H Hf E)) as (r & m' & R & -> & H').
  by exists m'.
Qed.

Definition one_list : memory :=
  Mem {[100 := SH None None]} (list_to_map ((fun x => (x, None)) <$> [1; 2; 3; 4; 5])).

Lemma slist_refines_sequences_witness :
  let cs := [SAdd (Some 1); SAddTail (Some 2); SAddTail (Some 3); SAdd (Some 4); SWalk; SDelNext (Some 2);
             SAddTail (Some 5); SDelNode (Some 1); SDelNode (Some 1); SDelNode None; SWalk; SDelHead; SEmpty; SWalk] in
  exists m', sexec_all 6 (Some 100) cs one_list
      = Some ([[]; []; []; []; [4; 1; 2; 3]; []; []; [0]; [-1]; [-1]; [4; 2; 5]; []; [0]; [2; 5]], m')
    /\ holds m' 100 [2; 5] /\ forall x, x <> 100 -> heads m' !! x = heads one_list !! x.
Proof.
  intros cs. apply (slist_refines_sequences one_list 100 []).
  - constructor; [vm_compute; reflexivity|done|constructor].
  - vm_compute. lia.
  - vm_compute. reflexivity.
Defined.
