(* ===== verification/Netlink.v ===== *)
(** * netlink: the attribute and message parsers

    Models [src/netlink_getlink/libnl_getlink.c] from the bytes of a netlink
    buffer to the list of devices.  A buffer is a list of bytes; a pointer into
    it is an offset; a read outside the buffer is undefined behaviour.  The
    layout macros ([RTA_*], [NLMSG_*]) are those of the kernel's user headers. *)

From S2P Require Import Prelude.

Module Netlink.

(** ** Bytes (little endian host) *)

Section read.
Context {S : Type} (buf : list Z).
Definition rd8 (i : Z) : M S Z := of_option (znth buf i).
Definition rd16 (i : Z) : M S Z := a ← rd8 i; b ← rd8 (i + 1); mret (a + 256 * b).
Definition rd32 (i : Z) : M S Z := a ← rd16 i; b ← rd16 (i + 2); mret (a + 65536 * b).
End read.

(** [memcpy] of [n] bytes out of the buffer. *)
Fixpoint rd_bytes {S} (buf : list Z) (i : Z) (n : nat) : M S (list Z) :=
  match n with
  | O => mret []
  | Datatypes.S n => b ← rd8 buf i; rest ← rd_bytes buf (i + 1) n; mret (b :: rest)
  end.

(** ** Layout *)

Definition align4 (len : Z) : Z := Z.land (len + 3) (Z.lnot 3).
Definition RTA_LENGTH (len : Z) : Z := 4 + len.
Definition NLMSG_HDRLEN : Z := 16.
Definition NLMSG_LENGTH (len : Z) : Z := len + NLMSG_HDRLEN.
Definition sizeof_ifinfomsg : Z := 16.

Section parse.
Context {S : Type} (buf : list Z).
Definition rta_len (rta : Z) : M S Z := rd16 buf rta.
Definition rta_type (rta : Z) : M S Z := rd16 buf (rta + 2).
Definition RTA_DATA (rta : Z) : Z := rta + 4.
Definition RTA_PAYLOAD (rta : Z) : M S Z := l ← rta_len rta; mret (l - 4).

(** [len] is an [int]. *)
Definition RTA_OK (rta len : Z) : M S bool :=
  if 4 <=? len then l ← rta_len rta; mret ((4 <=? l) && (l <=? len)) else mret false.

(** ** Attributes: [parse_rtattr_flags] *)

Definition store_attr (tb : list ptr) (max type rta : Z) : M S (list ptr) :=
  if (0 <? type) && (type <=? max) then
    t ← of_option (znth tb type);
    match t with None => mret (zset tb type (Some rta)) | Some _ => mret tb end
  else mret tb.

Fixpoint rtattr_loop (fuel : nat) (tb : list ptr) (max rta len flags : Z) : M S (list ptr * Z) :=
  match fuel with
  | O => ub
  | Datatypes.S fuel =>
      ok ← RTA_OK rta len;
      if (ok : bool) then
        t ← rta_type rta;
        let type := Z.land t (u16 (Z.lnot flags)) in
        tb ← store_attr tb max type rta;
        l ← rta_len rta;
        rtattr_loop fuel tb max (rta + align4 l) (len - align4 l) flags
      else mret (tb, len)
  end.

(** The table after the call and the returned status; the deficit is only
    logged. *)
Definition parse_rtattr_flags (fuel : nat) (tb : list ptr) (max rta len flags : Z) : M S (list ptr * Z) :=
  if max <=? 0 then mret (tb, -1)
  else r ← rtattr_loop fuel tb max rta len flags; mret (fst r, 0).

Definition parse_rtattr (fuel : nat) (tb : list ptr) (max rta len : Z) : M S (list ptr * Z) :=
  parse_rtattr_flags fuel tb max rta len 0.

Definition parse_rtattr_nested (fuel : nat) (tb : list ptr) (max rta : Z) : M S (list ptr * Z) :=
  l ← RTA_PAYLOAD rta; parse_rtattr fuel tb max (RTA_DATA rta) l.

(** ** Messages *)

Definition nlmsg_len (nh : Z) : M S Z := rd32 buf nh.
Definition nlmsg_type (nh : Z) : M S Z := rd16 buf (nh + 4).
Definition NLMSG_DATA (nh : Z) : Z := nh + NLMSG_HDRLEN.
Definition NLMSG_OK (nh len : Z) : M S bool :=
  if 16 <=? len then l ← nlmsg_len nh; mret ((16 <=? l) && (l <=? len)) else mret false.

Definition ifi_type (msg : Z) : M S Z := rd16 buf (msg + 2).
Definition ifi_index (msg : Z) : M S Z := v ← rd32 buf (msg + 4); mret (s32 v).

Definition parse_nlbuf (fuel : nat) (ifla_max nh : Z) (tb : list ptr) : M S (list ptr * Z) :=
  nlen ← nlmsg_len nh;
  if nlen <? NLMSG_LENGTH sizeof_ifinfomsg then mret (tb, -1)
  else
    let msg_len := NLMSG_LENGTH sizeof_ifinfomsg in
    if nlen <? msg_len then mret (tb, -1)
    else
      let rta := nh + msg_len in
      let alen := nlen - msg_len in
      tb ← (if 0 <? alen then r ← parse_rtattr fuel tb ifla_max rta alen; mret (fst r) else mret tb);
      mret (tb, nlen).

(** The payload copied into [dst_sz] bytes, the rest zero. *)
Definition fill_from_rta (dst : list Z) (dst_sz : Z) (rta : ptr) : M S (list Z * Z) :=
  match rta with
  | None => mret (dst, -1)
  | Some rta =>
      if dst_sz =? 0 then mret (dst, -1)
      else
        l ← rta_len rta;
        if l <? RTA_LENGTH 0 then mret (dst, -1)
        else
          let plen := l - RTA_LENGTH 0 in
          let n := if plen <? dst_sz then plen else dst_sz in
          bytes ← rd_bytes buf (RTA_DATA rta) (Z.to_nat n);
          mret (bytes ++ replicate (Z.to_nat (dst_sz - n)) 0 ++ drop (Z.to_nat dst_sz) dst, 0)
  end.
End parse.

(** ** Devices *)

Definition IFNAMSIZ : Z := 16.
Definition ETH_ALEN : Z := 6.
Definition ARPHRD_ETHER : Z := 1.
Definition NLMSG_ERROR : Z := 2.
Definition NLMSG_DONE : Z := 3.
Definition EINVAL : Z := 22.
Definition IFLA_ADDRESS : Z := 1.
Definition IFLA_IFNAME : Z := 3.
Definition IFLA_LINK : Z := 5.
Definition IFLA_MASTER : Z := 10.
Definition IFLA_LINKINFO : Z := 18.
Definition IFLA_INFO_KIND : Z := 1.

Record netdev_item := Dev {
  index : Z; master_idx : Z; ifla_link_idx : Z;
  kind : list Z; is_bridge : bool; name : list Z; ll_addr : list Z
}.

(** [calloc] *)
Definition zero_dev : netdev_item :=
  Dev 0 0 0 (replicate 17 0) false (replicate 17 0) (replicate 6 0).

(** The string in a byte array, up to its terminator. *)
Fixpoint cstr (l : list Z) : list Z :=
  match l with
  | [] => []
  | b :: l => if b =? 0 then [] else b :: cstr l
  end.

Definition bridge : list Z := [98; 114; 105; 100; 103; 101].

Section chunk.
(** [calloc]'s answer for the n-th device, and the sizes of the tables. *)
Context (calloc : nat -> bool) (ifla_max ifla_info_max : Z) (buf : list Z).

Definition new_table (max : Z) : list ptr := replicate (Z.to_nat (max + 1)) None.

Definition tb_get (tb : list ptr) (i : Z) : M (list netdev_item) ptr := of_option (znth tb i).

Definition read_linkinfo (fuel : nat) (tb : list ptr) (dev : netdev_item) : M (list netdev_item) netdev_item :=
  li ← tb_get tb IFLA_LINKINFO;
  match li with
  | None => mret dev
  | Some li =>
      r ← parse_rtattr_nested buf fuel (new_table ifla_info_max) ifla_info_max li;
      k ← tb_get (fst r) IFLA_INFO_KIND;
      match k with
      | None => mret dev
      | Some _ =>
          f ← fill_from_rta buf (kind dev) IFNAMSIZ k;
          let dev := Dev (index dev) (master_idx dev) (ifla_link_idx dev) (fst f) (is_bridge dev) (name dev) (ll_addr dev) in
          if snd f =? 0 then
            mret (Dev (index dev) (master_idx dev) (ifla_link_idx dev) (kind dev)
                    (is_bridge dev || bool_decide (cstr (kind dev) = bridge)) (name dev) (ll_addr dev))
          else mret dev
      end
  end.

(** An [int] member filled from a 32-bit attribute, when it is long enough. *)
Definition read_u32 (tb : list ptr) (type old : Z) : M (list netdev_item) Z :=
  a ← tb_get tb type;
  match a with
  | None => mret old
  | Some a => p ← RTA_PAYLOAD buf a; if 4 <=? p then v ← rd32 buf (RTA_DATA a); mret (s32 v) else mret old
  end.

(** The body of the loop for one link message; [Some status] returns. *)
Definition link_message (fuel : nat) (nh : Z) : M (list netdev_item) (option Z) :=
  r ← parse_nlbuf buf fuel ifla_max nh (new_table ifla_max);
  if snd r <? 0 then mret None
  else
    let tb := fst r in
    let msg := NLMSG_DATA nh in
    ty ← ifi_type buf msg;
    if negb (ty =? ARPHRD_ETHER) then mret None
    else
      devs ← gets (fun l => l);
      if negb (calloc (length devs)) then mret (Some (-1))
      else
        idx ← ifi_index buf msg;
        dev ← read_linkinfo fuel tb (Dev idx 0 0 (kind zero_dev) false (name zero_dev) (ll_addr zero_dev));
        a ← tb_get tb IFLA_IFNAME;
        f ← fill_from_rta buf (name dev) IFNAMSIZ a;
        if negb (snd f =? 0) then mret None
        else
          b ← tb_get tb IFLA_ADDRESS;
          g ← fill_from_rta buf (ll_addr dev) ETH_ALEN b;
          if negb (snd g =? 0) then mret None
          else
            link ← read_u32 tb IFLA_LINK (ifla_link_idx dev);
            master ← read_u32 tb IFLA_MASTER (master_idx dev);
            modify (fun l => l ++ [Dev (index dev) master link (kind dev) (is_bridge dev) (fst f) (fst g)]);;
            mret None.

(** The loop over the messages of the buffer. *)
Fixpoint chunk_loop (fuel : nat) (nh len counter : Z) : M (list netdev_item) Z :=
  match fuel with
  | O => ub
  | Datatypes.S fuel' =>
      ok ← NLMSG_OK buf nh len;
      if negb ok then mret 1
      else if 100 <? counter then mret 1
      else
        ty ← nlmsg_type buf nh;
        if ty =? NLMSG_ERROR then mret (- EINVAL)
        else if ty =? NLMSG_DONE then mret 0
        else
          r ← link_message fuel nh;
          match r with
          | Some status => mret status
          | None => l ← nlmsg_len buf nh; chunk_loop fuel' (nh + align4 l) (len - align4 l) (counter + 1)
          end
  end.

Definition parse_recv_chunk (fuel : nat) (len : Z) : M (list netdev_item) Z :=
  if len <=? 0 then mret (-1) else chunk_loop fuel 0 len 0.
End chunk.

(** [ll_get_by_index] over the list. *)
Definition ll_get_by_index (idx : Z) : M (list netdev_item) (option netdev_item) :=
  devs ← gets (fun l => l); mret (List.find (fun d => index d =? idx) devs).

(** ** Building a request: [addattr_l]

    The buffer, of [maxlen] bytes, holds the message at its start. *)

Definition wr8 (i b : Z) : M (list Z) unit :=
  l ← gets (fun l => l); _ ← of_option (znth l i); modify (fun l => zset l i b).
Definition wr16 (i v : Z) : M (list Z) unit := wr8 i (v mod 256);; wr8 (i + 1) (v / 256 mod 256).
Definition wr32 (i v : Z) : M (list Z) unit := wr16 i (v mod 65536);; wr16 (i + 2) (v / 65536 mod 65536).
Fixpoint wr_bytes (i : Z) (bs : list Z) : M (list Z) unit :=
  match bs with [] => mret tt | b :: bs => wr8 i b;; wr_bytes (i + 1) bs end.

Definition own_len : M (list Z) Z := l ← gets (fun l => l); rd32 l 0.

Definition addattr_l (maxlen type : Z) (data : option (list Z)) (alen : Z) : M (list Z) Z :=
  if (0 <? alen) && bool_decide (data = None) then mret (-1)
  else
    let len := u32 (RTA_LENGTH alen) in
    nlen ← own_len;
    if maxlen <? u32 (u32 (align4 nlen) + u32 (align4 len)) then mret (-1)
    else
      let rta := u32 (align4 nlen) in
      wr16 (rta + 2) (u16 type);;
      wr16 rta (u16 len);;
      match data with
      | Some d => if 0 <? alen then wr_bytes (rta + 4) (take (Z.to_nat alen) d) else mret tt
      | None => mret tt
      end;;
      wr32 0 (u32 (u32 (align4 nlen) + u32 (align4 len)));;
      mret 0.

Definition le32 (v : Z) : list Z := [v mod 256; v / 256 mod 256; v / 65536 mod 256; v / 16777216 mod 256].

Definition addattr32 (maxlen type data : Z) : M (list Z) Z := addattr_l maxlen type (Some (le32 data)) 4.

End Netlink.
