(* ===== verification/NetlinkSafe.v ===== *)
(** * netlink: no byte sequence makes the parsers misbehave *)

From S2P Require Import Prelude Netlink.
Import Netlink.

(** ** Reads *)

Definition bytes_ok (buf : list Z) : Prop := Forall (fun b => 0 <= b < 256) buf.

Definition v16 (buf : list Z) (i : Z) : Z := v8 buf i + 256 * v8 buf (i + 1).
Definition v32 (buf : list Z) (i : Z) : Z := v16 buf i + 65536 * v16 buf (i + 2).

Section reads.
Context {S : Type} {buf : list Z} (B : bytes_ok buf).

Lemma v8_range i : 0 <= v8 buf i < 256.
Proof.
  unfold v8, znth. destruct (i <? 0); [done|]. destruct (buf !! _) as [b|] eqn:E; [|done].
  by apply (Forall_lookup_1 _ _ _ _ B E).
Qed.

Lemma v16_range i : 0 <= v16 buf i < 65536.
Proof. unfold v16. pose proof (v8_range i). pose proof (v8_range (i + 1)). lia. Qed.

Lemma v32_range i : 0 <= v32 buf i < 2 ^ 32.
Proof. unfold v32. pose proof (v16_range i). pose proof (v16_range (i + 2)). lia. Qed.
End reads.

Section rules.
Context {S : Type} {buf : list Z}.

Lemma rd8_wp i (Q : Z -> S -> Prop) m : 0 <= i < zlen buf -> Q (v8 buf i) m -> wp (rd8 buf i) Q m.
Proof.
  intros Hi HQ. destruct (znth_is_Some buf i Hi) as [b Hb]. unfold v8 in HQ. unfold rd8. rewrite Hb in *. by apply wp_ret.
Qed.

Lemma rd16_wp i (Q : Z -> S -> Prop) m : 0 <= i -> i + 2 <= zlen buf -> Q (v16 buf i) m -> wp (rd16 buf i) Q m.
Proof. intros H1 H2 HQ. apply wp_bind, rd8_wp; [lia|]. apply wp_bind, rd8_wp; [lia|]. by apply wp_ret. Qed.

Lemma rd32_wp i (Q : Z -> S -> Prop) m : 0 <= i -> i + 4 <= zlen buf -> Q (v32 buf i) m -> wp (rd32 buf i) Q m.
Proof. intros H1 H2 HQ. apply wp_bind, rd16_wp; [lia..|]. apply wp_bind, rd16_wp; [lia..|]. by apply wp_ret. Qed.

(** The [n] bytes at [i]. *)
Definition slice (i : Z) (n : nat) : list Z := take n (drop (Z.to_nat i) buf).

Lemma rd_bytes_wp i n (Q : list Z -> S -> Prop) m :
  0 <= i -> i + Z.of_nat n <= zlen buf -> Q (slice i n) m -> wp (rd_bytes buf i n) Q m.
Proof.
  revert i Q. induction n as [|n IH]; intros i Q H1 H2 HQ; cbn [rd_bytes]; [by apply wp_ret|].
  apply wp_bind, rd8_wp; [lia|]. apply wp_bind, IH; [lia..|]. apply wp_ret.
  destruct (znth_is_Some buf i) as [b Hb]; [lia|]. unfold v8. rewrite Hb. cbn.
  unfold slice in *. replace (Z.to_nat (i + 1)) with (Datatypes.S (Z.to_nat i)) by lia.
  unfold znth in Hb. destruct (i <? 0) eqn:E; [lia|]. by rewrite (drop_S _ _ _ Hb) in HQ.
Qed.

Lemma slice_length i n : 0 <= i -> i + Z.of_nat n <= zlen buf -> length (slice i n) = n.
Proof. unfold slice, zlen. intros. rewrite length_take, length_drop. lia. Qed.
End rules.

Lemma align4_spec len : 0 <= len -> align4 len = len + 3 - (len + 3) mod 4.
Proof.
  intros H. unfold align4. change 3 with (Z.ones 2) at 2. rewrite <- Z.ldiff_land, Z.ldiff_ones_r by lia.
  rewrite Z.shiftl_mul_pow2, Z.shiftr_div_pow2 by lia. change (2 ^ 2) with 4.
  pose proof (Z.div_mod (len + 3) 4). lia.
Qed.

Lemma align4_range len : 0 <= len -> len <= align4 len < len + 4 /\ align4 len mod 4 = 0.
Proof. intros H. rewrite align4_spec by done. split; div_lia. Qed.

(** ** Attributes *)

(** A whole attribute lies at [p], between [lo] and [hi]. *)
Definition attr_at (buf : list Z) (lo hi p : Z) : Prop := lo <= p /\ 4 <= v16 buf p /\ p + v16 buf p <= hi.

Lemma attr_at_mono buf lo hi lo' hi' p : attr_at buf lo hi p -> lo' <= lo -> hi <= hi' -> attr_at buf lo' hi' p.
Proof. unfold attr_at. lia. Qed.

Definition table_ok (buf : list Z) (lo hi : Z) (tb : list ptr) : Prop :=
  forall t p, znth tb t = Some (Some p) -> attr_at buf lo hi p.

Lemma table_ok_mono buf lo hi lo' hi' tb : table_ok buf lo hi tb -> lo' <= lo -> hi <= hi' -> table_ok buf lo' hi' tb.
Proof. intros H ?? t p Ht. eapply attr_at_mono; eauto. Qed.

Lemma new_table_ok buf lo hi max : table_ok buf lo hi (new_table max).
Proof.
  intros t p. unfold znth, new_table. destruct (t <? 0); [done|]. by intros [? _]%lookup_replicate.
Qed.

Lemma new_table_length max : 0 <= max -> max < zlen (new_table max).
Proof. intros. unfold zlen, new_table. rewrite length_replicate. lia. Qed.

Section attributes.
Context {S : Type} {buf : list Z} (B : bytes_ok buf).

Lemma RTA_OK_wp rta len (Q : bool -> S -> Prop) m :
  0 <= rta -> rta + len <= zlen buf -> Q ((4 <=? len) && (4 <=? v16 buf rta) && (v16 buf rta <=? len)) m ->
  wp (RTA_OK buf rta len) Q m.
Proof.
  intros H1 H2 HQ. unfold RTA_OK. destruct (Z.leb_spec 4 len); [|by apply wp_ret].
  apply wp_bind, rd16_wp; [lia..|]. by apply wp_ret.
Qed.

Lemma store_attr_wp tb max type rta lo hi (Q : list ptr -> S -> Prop) m :
  max < zlen tb -> table_ok buf lo hi tb -> attr_at buf lo hi rta ->
  (forall tb', zlen tb' = zlen tb -> table_ok buf lo hi tb' -> Q tb' m) ->
  wp (store_attr tb max type rta) Q m.
Proof.
  intros Hl T A HQ. unfold store_attr. destruct (Z.ltb_spec 0 type), (Z.leb_spec type max); cbn; try (by apply wp_ret, HQ).
  destruct (znth_is_Some tb type) as [t Ht]; [lia|]. rewrite Ht. apply wp_bind, wp_ret.
  destruct t; [by apply wp_ret, HQ|]. apply wp_ret, HQ; [by apply zlen_zset|].
  intros t p Hp. destruct (decide (type = t)) as [->|Hne].
  - rewrite znth_zset_eq in Hp by (by eapply znth_Some_range). by injection Hp as <-.
  - rewrite znth_zset_ne in Hp by done. eauto.
Qed.

Lemma rtattr_loop_wp max flags lo hi fuel tb rta len (Q : list ptr * Z -> S -> Prop) m :
  lo <= rta -> 0 <= rta -> rta + len <= hi -> hi <= zlen buf -> max < zlen tb -> table_ok buf lo hi tb -> (Z.to_nat len < fuel)%nat ->
  (forall tb' len', zlen tb' = zlen tb -> table_ok buf lo hi tb' -> Q (tb', len') m) ->
  wp (rtattr_loop buf fuel tb max rta len flags) Q m.
Proof.
  revert tb rta len. induction fuel as [|fuel IH]; intros tb rta len H1 H2 H3 H4 Hm T Hf HQ; [lia|]. cbn [rtattr_loop].
  apply wp_bind, RTA_OK_wp; [lia..|].
  destruct (Z.leb_spec 4 len); cbn [andb]; [|by apply wp_ret, HQ].
  destruct (Z.leb_spec 4 (v16 buf rta)); cbn [andb]; [|by apply wp_ret, HQ].
  destruct (Z.leb_spec (v16 buf rta) len); [|by apply wp_ret, HQ].
  apply wp_bind, rd16_wp; [lia..|]. apply wp_bind. eapply (store_attr_wp _ _ _ _ lo hi); [done|done|unfold attr_at; lia|].
  intros tb' L' T'. apply wp_bind, rd16_wp; [lia..|].
  pose proof (align4_range (v16 buf rta)) as [Ha _]; [lia|].
  apply IH; [lia|lia|lia|lia|lia|done|lia|]. intros tb2 len2 L2. apply HQ. congruence.
Qed.

Lemma parse_rtattr_wp fuel tb max rta len (Q : list ptr * Z -> S -> Prop) m :
  0 <= rta -> rta + len <= zlen buf -> max < zlen tb -> table_ok buf rta (rta + len) tb -> (Z.to_nat len < fuel)%nat ->
  (forall tb', zlen tb' = zlen tb -> table_ok buf rta (rta + len) tb' -> Q (tb', if max <=? 0 then -1 else 0) m) ->
  wp (parse_rtattr buf fuel tb max rta len) Q m.
Proof.
  intros H1 H2 Hm T Hf HQ. unfold parse_rtattr, parse_rtattr_flags. destruct (Z.leb_spec max 0); [by apply wp_ret, HQ|].
  apply wp_bind. eapply (rtattr_loop_wp max 0 rta (rta + len)); [lia..|done|lia|].
  intros tb' len' L' T'. by apply wp_ret, HQ.
Qed.

Lemma fill_from_rta_wp dst n rta lo hi (Q : list Z * Z -> S -> Prop) m :
  0 <= n <= zlen dst -> (forall p, rta = Some p -> attr_at buf lo hi p) -> 0 <= lo -> hi <= zlen buf ->
  match rta with
  | None => Q (dst, -1) m
  | Some p => if n =? 0 then Q (dst, -1) m else
      let k := Z.min (v16 buf p - 4) n in
      Q (slice (buf := buf) (p + 4) (Z.to_nat k) ++ replicate (Z.to_nat (n - k)) 0 ++ drop (Z.to_nat n) dst, 0) m
  end -> wp (fill_from_rta buf dst n rta) Q m.
Proof.
  intros Hn HA Hlo Hhi HQ. unfold fill_from_rta. destruct rta as [p|]; [|by apply wp_ret].
  destruct (n =? 0); [by apply wp_ret|]. destruct (HA p eq_refl) as (A1 & A2 & A3).
  apply wp_bind, rd16_wp; [lia..|]. unfold RTA_LENGTH, RTA_DATA. destruct (Z.ltb_spec (v16 buf p) (4 + 0)); [lia|].
  replace (4 + 0) with 4 by lia.
  replace (if v16 buf p - 4 <? n then v16 buf p - 4 else n) with (Z.min (v16 buf p - 4) n)
    by (destruct (Z.ltb_spec (v16 buf p - 4) n); lia).
  apply wp_bind, rd_bytes_wp; [lia..|]. by apply wp_ret.
Qed.
End attributes.

(** ** Messages *)

Section messages.
Context {buf : list Z} (B : bytes_ok buf).
Context (calloc : nat -> bool) (ifla_max ifla_info_max : Z).
Hypothesis (Hmax : 18 <= ifla_max) (Hinfo : 1 <= ifla_info_max).

Lemma parse_nlbuf_wp {S} fuel nh tb (Q : list ptr * Z -> S -> Prop) m :
  0 <= nh -> nh + v32 buf nh <= zlen buf -> 16 <= v32 buf nh -> ifla_max < zlen tb ->
  table_ok buf (nh + 32) (nh + v32 buf nh) tb -> (Z.to_nat (v32 buf nh) < fuel)%nat ->
  (v32 buf nh < 32 -> Q (tb, -1) m) ->
  (forall tb', 32 <= v32 buf nh -> zlen tb' = zlen tb -> table_ok buf (nh + 32) (nh + v32 buf nh) tb' -> Q (tb', v32 buf nh) m) ->
  wp (parse_nlbuf buf fuel ifla_max nh tb) Q m.
Proof.
  intros H1 H2 H16 Hm T Hf HQ1 HQ2. unfold parse_nlbuf. change (NLMSG_LENGTH sizeof_ifinfomsg) with 32.
  apply wp_bind, rd32_wp; [lia..|]. destruct (Z.ltb_spec (v32 buf nh) 32); [by apply wp_ret, HQ1|].
  apply wp_bind. destruct (Z.ltb_spec 0 (v32 buf nh - 32)).
  - apply wp_bind. apply parse_rtattr_wp; [lia|lia|lia| |lia|].
    + eapply table_ok_mono; [done|lia|lia].
    + intros tb' L T'. apply wp_ret, wp_ret, HQ2; [lia|done|]. eapply table_ok_mono; [done|lia|lia].
  - apply wp_ret, wp_ret, HQ2; [lia|done|done].
Qed.

(** A device whose fields have their sizes and whose names end. *)
Definition dev_ok (d : netdev_item) : Prop :=
  zlen (kind d) = 17 /\ znth (kind d) 16 = Some 0 /\ zlen (name d) = 17 /\ znth (name d) 16 = Some 0 /\ zlen (ll_addr d) = 6.

Lemma tb_get_wp tb i (Q : ptr -> list netdev_item -> Prop) m :
  0 <= i < zlen tb -> (forall a, znth tb i = Some a -> Q a m) -> wp (tb_get tb i) Q m.
Proof. intros Hi HQ. destruct (znth_is_Some tb i Hi) as [a Ha]. unfold tb_get. rewrite Ha. by apply wp_ret, HQ. Qed.

Lemma filled_name (a : list Z) k : 0 <= k <= 16 -> length a = Z.to_nat k ->
  let l := a ++ replicate (Z.to_nat (16 - k)) 0 ++ [0] in zlen l = 17 /\ znth l 16 = Some 0.
Proof.
  intros Hk Ha l. assert (length (a ++ replicate (Z.to_nat (16 - k)) 0) = 16%nat) as L.
  { rewrite length_app, length_replicate. lia. }
  unfold l. rewrite app_assoc. split.
  - unfold zlen. rewrite length_app, L. done.
  - unfold znth. cbn [Z.ltb Z.compare]. change (Z.to_nat 16) with 16%nat. rewrite <- L. by apply list_lookup_middle.
Qed.

(** A name field after [fill_from_rta]. *)
Lemma fill_name_wp dst rta lo hi (Q : list Z * Z -> list netdev_item -> Prop) m :
  dst = replicate 17 0 -> (forall p, rta = Some p -> attr_at buf lo hi p) -> 0 <= lo -> hi <= zlen buf ->
  (forall d, zlen d = 17 -> znth d 16 = Some 0 -> Q (d, if rta then 0 else -1) m) ->
  wp (fill_from_rta buf dst IFNAMSIZ rta) Q m.
Proof.
  intros -> HA Hlo Hhi HQ. eapply fill_from_rta_wp; [done|done|done|done|]. destruct rta as [p|]; [|by apply HQ].
  destruct (HA p eq_refl) as (A1 & A2 & A3). cbn [Z.eqb IFNAMSIZ].
  set (k := Z.min (v16 buf p - 4) IFNAMSIZ). assert (0 <= k <= 16) by (unfold k, IFNAMSIZ; lia).
  change (drop (Z.to_nat IFNAMSIZ) (replicate 17 0)) with [0]. unfold IFNAMSIZ at 1.
  destruct (filled_name (slice (buf := buf) (p + 4) (Z.to_nat k)) k) as [F1 F2]; [done|rewrite slice_length; lia|].
  by apply HQ.
Qed.

Lemma fill_addr_wp dst rta lo hi (Q : list Z * Z -> list netdev_item -> Prop) m :
  dst = replicate 6 0 -> (forall p, rta = Some p -> attr_at buf lo hi p) -> 0 <= lo -> hi <= zlen buf ->
  (forall d, zlen d = 6 -> Q (d, if rta then 0 else -1) m) ->
  wp (fill_from_rta buf dst ETH_ALEN rta) Q m.
Proof.
  intros -> HA Hlo Hhi HQ. eapply fill_from_rta_wp; [done|done|done|done|]. destruct rta as [p|]; [|by apply HQ].
  destruct (HA p eq_refl) as (A1 & A2 & A3). cbn [Z.eqb ETH_ALEN].
  set (k := Z.min (v16 buf p - 4) ETH_ALEN). assert (0 <= k <= 6) by (unfold k, ETH_ALEN; lia).
  apply HQ. change (drop (Z.to_nat ETH_ALEN) (replicate 6 0)) with (@nil Z). unfold ETH_ALEN at 1.
  unfold zlen. rewrite !length_app, slice_length, length_replicate by lia. cbn [length]. lia.
Qed.

Lemma read_linkinfo_wp fuel tb dev lo hi (Q : netdev_item -> list netdev_item -> Prop) m :
  ifla_max < zlen tb -> table_ok buf lo hi tb -> 0 <= lo -> hi <= zlen buf -> (Z.to_nat (hi - lo) < fuel)%nat ->
  kind dev = replicate 17 0 -> is_bridge dev = false ->
  (forall k b, zlen k = 17 -> znth k 16 = Some 0 -> (b = true <-> cstr k = bridge) ->
     Q (Dev (index dev) (master_idx dev) (ifla_link_idx dev) k b (name dev) (ll_addr dev)) m) ->
  wp (read_linkinfo ifla_info_max buf fuel tb dev) Q m.
Proof.
  intros Hl T Hlo Hhi Hf Hk Hb HQ.
  assert (Q dev m) as Qdev.
  { destruct dev as [a b c d e f g]. cbn in Hk, Hb. subst d e. apply HQ; try done. }
  apply wp_bind, tb_get_wp; [unfold IFLA_LINKINFO; lia|]. intros [li|] Hli; [|by apply wp_ret].
  destruct (T _ _ Hli) as (A1 & A2 & A3).
  apply wp_bind. unfold parse_rtattr_nested, RTA_PAYLOAD, rta_len. apply wp_bind, wp_bind, rd16_wp; [lia..|]. apply wp_ret.
  apply parse_rtattr_wp; [unfold RTA_DATA; lia|unfold RTA_DATA; lia|apply new_table_length; lia|apply new_table_ok|lia|].
  intros tb' L' T'. apply wp_bind, tb_get_wp; cbn [fst].
  { rewrite L'. pose proof (new_table_length ifla_info_max). unfold IFLA_INFO_KIND. lia. }
  intros [k|] Hkk; [|by apply wp_ret]. apply wp_bind.
  eapply (fill_name_wp _ _ (RTA_DATA li) (RTA_DATA li + (v16 buf li - 4))); [done| |unfold RTA_DATA; lia| |].
  - intros p [= <-]. by apply (T' _ _ Hkk).
  - unfold RTA_DATA. lia.
  - intros d D1 D2. cbn. apply wp_ret, HQ; [done|done|]. rewrite Hb. cbn. by rewrite bool_decide_eq_true.
Qed.

Lemma read_u32_wp tb type old lo hi (Q : Z -> list netdev_item -> Prop) m :
  0 <= type < zlen tb -> table_ok buf lo hi tb -> 0 <= lo -> hi <= zlen buf ->
  (forall v, Q v m) -> wp (read_u32 buf tb type old) Q m.
Proof.
  intros Ht T Hlo Hhi HQ. apply wp_bind, tb_get_wp; [done|]. intros [a|] Ha; [|by apply wp_ret].
  destruct (T _ _ Ha) as (A1 & A2 & A3). unfold RTA_PAYLOAD, rta_len. apply wp_bind, wp_bind, rd16_wp; [lia..|]. apply wp_ret.
  destruct (Z.leb_spec 4 (v16 buf a - 4)); [|by apply wp_ret].
  apply wp_bind, rd32_wp; [unfold RTA_DATA; lia..|]. by apply wp_ret.
Qed.

(** What the body of the loop appends and returns. *)
Definition appended (devs : list netdev_item) (r : option Z) (devs' : list netdev_item) : Prop :=
  (r = None \/ r = Some (-1)) /\ (devs' = devs \/ exists d, devs' = devs ++ [d] /\ dev_ok d).

Lemma link_message_wp fuel nh devs :
  0 <= nh -> nh + v32 buf nh <= zlen buf -> 16 <= v32 buf nh -> (Z.to_nat (v32 buf nh) < fuel)%nat ->
  wp (link_message calloc ifla_max ifla_info_max buf fuel nh) (appended devs) devs.
Proof.
  intros H1 H2 H16 Hf. pose proof (new_table_length ifla_max ltac:(lia)) as Hnew. unfold link_message. apply wp_bind.
  apply parse_nlbuf_wp; [lia|lia|lia|lia|apply new_table_ok|lia| |]; cbn [fst snd].
  { intros _. apply wp_ret. unfold appended. auto. }
  intros tb H32 L T. destruct (Z.ltb_spec (v32 buf nh) 0); [lia|]. unfold NLMSG_DATA, NLMSG_HDRLEN.
  apply wp_bind, rd16_wp; [lia..|]. destruct (negb _); [apply wp_ret; unfold appended; auto|].
  apply wp_bind, wp_gets. destruct (negb _); [apply wp_ret; unfold appended; auto|].
  apply wp_bind, wp_bind, rd32_wp; [lia..|]. apply wp_ret, wp_bind.
  eapply (read_linkinfo_wp _ _ _ (nh + 32) (nh + v32 buf nh)); [lia|done|lia|lia|lia|done|done|].
  cbn [index master_idx ifla_link_idx kind is_bridge name ll_addr zero_dev]. intros k b K1 K2 _.
  apply wp_bind, tb_get_wp; [unfold IFLA_IFNAME; lia|]. intros a Ha.
  apply wp_bind. eapply (fill_name_wp _ _ (nh + 32) (nh + v32 buf nh)); [done|by intros p ->; apply (T _ _ Ha)|lia|lia|].
  cbn [fst snd]. intros d D1 D2. destruct a as [a|]; cbn [negb Z.eqb]; [|apply wp_ret; unfold appended; auto].
  apply wp_bind, tb_get_wp; [unfold IFLA_ADDRESS; lia|]. intros c Hc.
  apply wp_bind. eapply (fill_addr_wp _ _ (nh + 32) (nh + v32 buf nh)); [done|by intros p ->; apply (T _ _ Hc)|lia|lia|].
  cbn [fst snd]. intros g G1. destruct c as [c|]; cbn [negb Z.eqb]; [|apply wp_ret; unfold appended; auto].
  apply wp_bind. eapply read_u32_wp; [unfold IFLA_LINK; lia|done|lia|lia|]. intros link.
  apply wp_bind. eapply read_u32_wp; [unfold IFLA_MASTER; lia|done|lia|lia|]. intros master.
  apply wp_bind, wp_modify, wp_ret. split; [auto|]. right. eexists. split; [done|]. by split_and!.
Qed.

Lemma chunk_loop_wp fuel nh len counter devs :
  0 <= nh -> nh + len <= zlen buf -> (Z.to_nat len < fuel)%nat ->
  wp (chunk_loop calloc ifla_max ifla_info_max buf fuel nh len counter)
    (fun r devs' => (r = 1 \/ r = 0 \/ r = -1 \/ r = - EINVAL) /\
       exists new, devs' = devs ++ new /\ Forall dev_ok new) devs.
Proof.
  revert nh len counter devs. induction fuel as [|fuel IH]; intros nh len counter devs H1 H2 Hf; [lia|]. cbn [chunk_loop].
  assert (exists new, devs = devs ++ new /\ Forall dev_ok new) as Hnone by (exists []; by rewrite app_nil_r).
  apply wp_bind. unfold NLMSG_OK. destruct (Z.leb_spec 16 len); [|apply wp_ret; cbn; apply wp_ret; auto].
  apply wp_bind, rd32_wp; [lia..|]. apply wp_ret.
  destruct (Z.leb_spec 16 (v32 buf nh)); cbn [andb negb]; [|apply wp_ret; auto].
  destruct (Z.leb_spec (v32 buf nh) len); cbn [negb]; [|apply wp_ret; auto].
  destruct (100 <? counter); [apply wp_ret; auto|]. apply wp_bind, rd16_wp; [lia..|].
  destruct (_ =? NLMSG_ERROR); [apply wp_ret; auto|]. destruct (_ =? NLMSG_DONE); [apply wp_ret; auto|].
  apply wp_bind. eapply wp_mono; [apply link_message_wp; lia|]. intros r devs1 [Hr Hd].
  assert (exists new, devs1 = devs ++ new /\ Forall dev_ok new) as (new & -> & Hnew).
  { destruct Hd as [->|(d & -> & Hd)]; [done|]. exists [d]. auto. }
  destruct Hr as [->| ->]; [|apply wp_ret; eauto 10].
  apply wp_bind, rd32_wp; [lia..|]. pose proof (align4_range (v32 buf nh)) as [Ha _]; [lia|].
  eapply wp_mono; [apply IH; lia|]. intros r devs2 [Hr2 (new2 & -> & Hnew2)]. split; [done|].
  exists (new ++ new2). rewrite app_assoc. split; [done|]. by apply Forall_app.
Qed.
End messages.
