(* ===== verification/NetlinkSpec.v ===== *)
(** * netlink: what the parsers promise *)

From S2P Require Import Prelude Netlink NetlinkSafe.
Import Netlink.

(** whatever bytes arrive from the socket, [parse_recv_chunk] reads only
    inside the received buffer, ends, returns 1, 0, -1 or -EINVAL, and appends
    to the list only devices whose fields have their sizes and whose names are
    terminated. *)
Theorem parse_recv_chunk_safe calloc ifla_max ifla_info_max buf len fuel devs :
  18 <= ifla_max -> 1 <= ifla_info_max -> len <= zlen buf -> (Z.to_nat len < fuel)%nat ->
  exists r new, parse_recv_chunk calloc ifla_max ifla_info_max buf fuel len devs = Some (r, devs ++ new) /\
    (r = 1 \/ r = 0 \/ r = -1 \/ r = - EINVAL) /\ Forall dev_ok new.
Proof.
  intros H1 H2 H3 H4.
  assert (wp (parse_recv_chunk calloc ifla_max ifla_info_max buf fuel len)
    (fun r devs' => (r = 1 \/ r = 0 \/ r = -1 \/ r = - EINVAL) /\ exists new, devs' = devs ++ new /\ Forall dev_ok new) devs) as W.
  { unfold parse_recv_chunk. destruct (Z.leb_spec len 0).
    - apply wp_ret. split; [auto|]. exists []. by rewrite app_nil_r.
    - apply chunk_loop_wp; [done|done|lia|lia|lia]. }
  destruct (wp_run _ _ _ W) as (r & s & E & Hr & new & -> & Hnew). eauto.
Qed.

(** ** Encoded attributes *)

Definition le16 (v : Z) : list Z := [v mod 256; v / 256 mod 256].

(** An attribute as the kernel lays it out: length, type, payload, padding. *)
Definition enc_attr (a : Z * list Z) : list Z :=
  le16 (4 + zlen (snd a)) ++ le16 (fst a) ++ snd a
  ++ replicate (Z.to_nat (align4 (4 + zlen (snd a)) - (4 + zlen (snd a)))) 0.
Definition enc_attrs (l : list (Z * list Z)) : list Z := concat (enc_attr <$> l).

Definition attr_ok (a : Z * list Z) : Prop := 0 <= fst a < 65536 /\ 4 + zlen (snd a) < 65536.

(** The offset of the first attribute of a type, and its payload. *)
Fixpoint attr_offset (l : list (Z * list Z)) (base ty : Z) : ptr :=
  match l with
  | [] => None
  | a :: l => if fst a =? ty then Some base else attr_offset l (base + zlen (enc_attr a)) ty
  end.
Definition attr_payload (l : list (Z * list Z)) (ty : Z) : option (list Z) :=
  snd <$> List.find (fun a => fst a =? ty) l.

Lemma zlen_enc_attr a : zlen (enc_attr a) = align4 (4 + zlen (snd a)).
Proof.
  unfold enc_attr. rewrite !zlen_app. pose proof (zlen_nonneg (snd a)).
  pose proof (align4_range (4 + zlen (snd a))) as [H1 _]; [lia|].
  rewrite zlen_replicate by lia. change (zlen (le16 (4 + zlen (snd a)))) with 2. change (zlen (le16 (fst a))) with 2. lia.
Qed.

Lemma v16_app pre l i : 0 <= i -> i + 2 <= zlen l -> v16 (pre ++ l) (zlen pre + i) = v16 l i.
Proof.
  intros H1 H2. unfold v16. rewrite <- Z.add_assoc, !v8_app by lia. done.
Qed.

Lemma v16_le16 v l : 0 <= v < 65536 -> v16 (le16 v ++ l) 0 = v.
Proof.
  intros H. change (v mod 256 + 256 * (v / 256 mod 256) = v).
  rewrite (Z.mod_small (v / 256)) by (split; [apply Z.div_pos; lia|apply Z.div_lt_upper_bound; lia]).
  pose proof (Z.div_mod v 256). lia.
Qed.

Definition le32' (v : Z) : list Z := le16 (v mod 65536) ++ le16 (v / 65536).

Lemma v32_app pre l i : 0 <= i -> i + 4 <= zlen l -> v32 (pre ++ l) (zlen pre + i) = v32 l i.
Proof. intros H1 H2. unfold v32. rewrite <- Z.add_assoc, !v16_app by lia. done. Qed.

Lemma v32_le32' v l : 0 <= v < 2 ^ 32 -> v32 (le32' v ++ l) 0 = v.
Proof.
  intros H. unfold v32, le32'. rewrite <- !app_assoc, v16_le16 by (apply Z.mod_pos_bound; lia).
  change (0 + 2) with (zlen (le16 (v mod 65536)) + 0). rewrite v16_app; [|lia|rewrite zlen_app; pose proof (zlen_nonneg l); change (zlen (le16 (v / 65536))) with 2; lia].
  rewrite v16_le16 by (split; [apply Z.div_pos; lia|apply Z.div_lt_upper_bound; lia]). pose proof (Z.div_mod v 65536). lia.
Qed.

Lemma zlen_le32' v : zlen (le32' v) = 4.
Proof. done. Qed.

Lemma enc_attr_len pre a post : attr_ok a -> v16 (pre ++ enc_attr a ++ post) (zlen pre) = 4 + zlen (snd a).
Proof.
  intros [H1 H2]. pose proof (zlen_nonneg (snd a)). replace (zlen pre) with (zlen pre + 0) at 1 by lia.
  rewrite v16_app; [|lia|rewrite zlen_app, zlen_enc_attr; pose proof (align4_range (4 + zlen (snd a)) ltac:(lia)); pose proof (zlen_nonneg post); lia].
  unfold enc_attr. rewrite <- !app_assoc, v16_le16 by lia. done.
Qed.

Lemma enc_attr_type pre a post : attr_ok a -> v16 (pre ++ enc_attr a ++ post) (zlen pre + 2) = fst a.
Proof.
  intros [H1 H2]. pose proof (zlen_nonneg (snd a)).
  assert (zlen (enc_attr a) >= 4) by (rewrite zlen_enc_attr; pose proof (align4_range (4 + zlen (snd a)) ltac:(lia)); lia).
  rewrite v16_app; [|lia|rewrite zlen_app; pose proof (zlen_nonneg post); lia].
  unfold enc_attr. rewrite <- app_assoc.
  replace 2 with (zlen (le16 (4 + zlen (snd a))) + 0) by done.
  assert (forall l, 2 <= zlen (le16 (fst a) ++ l)) as Hle.
  { intros l. rewrite zlen_app. pose proof (zlen_nonneg l). change (zlen (le16 (fst a))) with 2. lia. }
  rewrite v16_app; [|lia|rewrite <- !app_assoc; apply Hle]. rewrite <- !app_assoc. by apply v16_le16.
Qed.

Lemma enc_attr_payload pre a post :
  slice (buf := pre ++ enc_attr a ++ post) (zlen pre + 4) (length (snd a)) = snd a.
Proof.
  unfold slice, enc_attr. rewrite <- !app_assoc.
  replace (Z.to_nat (zlen pre + 4)) with (length pre + 4)%nat by (unfold zlen; lia).
  rewrite <- drop_drop, drop_app_length. cbn [le16 app drop]. apply take_app_length.
Qed.

Lemma enc_attrs_cons a l : enc_attrs (a :: l) = enc_attr a ++ enc_attrs l.
Proof. done. Qed.

(** The first attribute of a type is where [attr_offset] says. *)
Lemma attr_offset_payload pre l post ty p :
  Forall attr_ok l -> attr_offset l (zlen pre) ty = Some p ->
  exists pl, attr_payload l ty = Some pl /\ zlen pre <= p /\ p + 4 + zlen pl <= zlen (pre ++ enc_attrs l ++ post) /\
    v16 (pre ++ enc_attrs l ++ post) p = 4 + zlen pl /\
    slice (buf := pre ++ enc_attrs l ++ post) (p + 4) (length pl) = pl.
Proof.
  revert pre. induction l as [|a l IH]; intros pre Ho H; [done|]. apply Forall_cons in Ho as [Ha Ho].
  unfold attr_payload. cbn [attr_offset] in H. cbn [List.find]. rewrite enc_attrs_cons, <- app_assoc. destruct (fst a =? ty).
  - injection H as <-. exists (snd a). split_and!; [done|lia| |by apply enc_attr_len|apply enc_attr_payload].
    rewrite !zlen_app, zlen_enc_attr. pose proof (zlen_nonneg (snd a)). pose proof (zlen_nonneg (enc_attrs l)). pose proof (zlen_nonneg post).
    pose proof (align4_range (4 + zlen (snd a)) ltac:(lia)). lia.
  - rewrite <- zlen_app in H. destruct (IH (pre ++ enc_attr a) Ho H) as (pl & H1 & H2 & H3 & H4 & H5).
    rewrite <- app_assoc in H3, H4, H5. rewrite zlen_app in H2. pose proof (zlen_nonneg (enc_attr a)).
    exists pl. split_and!; [done|lia|done..].
Qed.

Lemma attr_offset_none l base ty : attr_offset l base ty = None -> attr_payload l ty = None.
Proof.
  revert base. unfold attr_payload. induction l as [|a l IH]; intros base; cbn; [done|]. destruct (fst a =? ty); [done|]. apply IH.
Qed.

(** What the loop makes of the table. *)
Definition filled (tb tb' : list ptr) (max : Z) (l : list (Z * list Z)) (base : Z) : Prop :=
  forall ty, 0 < ty <= max ->
    znth tb' ty = match znth tb ty with
                  | Some None => Some (attr_offset l base ty)
                  | o => o
                  end.

Lemma store_attr_spec {S} tb max ty rta (Q : list ptr -> S -> Prop) m :
  max < zlen tb ->
  (forall tb', zlen tb' = zlen tb ->
     (forall t, 0 < t <= max -> znth tb' t = match znth tb t with
        | Some None => Some (if ty =? t then Some rta else None) | o => o end) -> Q tb' m) ->
  wp (store_attr tb max ty rta) Q m.
Proof.
  intros Hl HQ. unfold store_attr.
  assert (forall t, znth tb t = match znth tb t with Some None => Some None | o => o end) as Hid.
  { intros t. destruct (znth tb t) as [[|]|]; done. }
  destruct (Z.ltb_spec 0 ty); cbn [andb].
  2: { apply wp_ret, HQ; [done|]. intros t Ht. rewrite (proj2 (Z.eqb_neq ty t)) by lia. apply Hid. }
  destruct (Z.leb_spec ty max).
  2: { apply wp_ret, HQ; [done|]. intros t Ht. rewrite (proj2 (Z.eqb_neq ty t)) by lia. apply Hid. }
  destruct (znth_is_Some tb ty) as [x Hx]; [lia|]. rewrite Hx. apply wp_bind, wp_ret.
  destruct x as [p|]; apply wp_ret, HQ; rewrite ?zlen_zset; try done; intros t Ht; destruct (Z.eqb_spec ty t) as [->|Hne].
  - by rewrite Hx.
  - apply Hid.
  - by rewrite Hx, znth_zset_eq by lia.
  - rewrite znth_zset_ne by done. apply Hid.
Qed.

Lemma rtattr_loop_encode {S} max l pre post tb fuel (Q : list ptr * Z -> S -> Prop) m :
  Forall attr_ok l -> max < zlen tb -> (length l < fuel)%nat ->
  (forall tb', filled tb tb' max l (zlen pre) -> Q (tb', 0) m) ->
  wp (rtattr_loop (pre ++ enc_attrs l ++ post) fuel tb max (zlen pre) (zlen (enc_attrs l)) 0) Q m.
Proof.
  revert pre tb fuel. induction l as [|a l IH]; intros pre tb fuel Ho Hm Hf HQ;
    (destruct fuel as [|fuel]; [cbn in Hf; lia|]); cbn [rtattr_loop].
  { apply wp_bind. unfold RTA_OK. apply wp_ret, wp_ret, HQ. intros ty _. by destruct (znth tb ty) as [[|]|]. }
  apply Forall_cons in Ho as [Ha Ho]. rewrite enc_attrs_cons, <- app_assoc.
  pose proof (enc_attr_len pre a (enc_attrs l ++ post) Ha) as E1.
  pose proof (enc_attr_type pre a (enc_attrs l ++ post) Ha) as E2.
  pose proof (zlen_nonneg (snd a)) as Hp. pose proof (zlen_nonneg (enc_attrs l)). pose proof (zlen_nonneg post). pose proof (zlen_nonneg pre).
  pose proof (align4_range (4 + zlen (snd a)) ltac:(lia)) as [Hr _]. pose proof (zlen_enc_attr a) as Hz.
  assert (zlen (pre ++ enc_attr a ++ enc_attrs l ++ post) = zlen pre + zlen (enc_attr a) + zlen (enc_attrs l) + zlen post) as Hlen
    by (rewrite !zlen_app; lia).
  rewrite (zlen_app (enc_attr a)).
  apply wp_bind, RTA_OK_wp; [lia|lia|]. rewrite E1.
  destruct (Z.leb_spec 4 (zlen (enc_attr a) + zlen (enc_attrs l))); [|lia].
  destruct (Z.leb_spec 4 (4 + zlen (snd a))); [|lia].
  destruct (Z.leb_spec (4 + zlen (snd a)) (zlen (enc_attr a) + zlen (enc_attrs l))); [|lia]. cbn [andb].
  apply wp_bind, rd16_wp; [lia|lia|]. rewrite E2. apply wp_bind, store_attr_spec; [done|]. intros tb1 L1 T1.
  apply wp_bind, rd16_wp; [lia|lia|]. rewrite E1, <- Hz.
  replace (zlen (enc_attr a) + zlen (enc_attrs l) - zlen (enc_attr a)) with (zlen (enc_attrs l)) by lia.
  rewrite <- zlen_app, (app_assoc pre). apply IH; [done|lia|cbn in Hf; lia|].
  intros tb2 T2. apply HQ. intros ty Hty. rewrite T2, T1 by done. cbn [attr_offset].
  assert (Z.land (fst a) (u16 (Z.lnot 0)) = fst a) as ->.
  { change (u16 (Z.lnot 0)) with (Z.ones 16). rewrite Z.land_ones by lia. apply Z.mod_small. apply Ha. }
  destruct (znth tb ty) as [[|]|]; try done. destruct (fst a =? ty); [done|]. by rewrite zlen_app.
Qed.

(** [parse_rtattr] reads back encoded attributes: anywhere in a buffer, for
    attributes of any types and payloads, with padding, it fills the entry of
    each type with the first attribute of that type, whose length and payload
    are those encoded, leaves the others null and ignores types above [max]. *)
Theorem parse_rtattr_encode {S} max l pre post fuel (s : S) :
  0 < max -> Forall attr_ok l -> (length l < fuel)%nat ->
  let buf := pre ++ enc_attrs l ++ post in
  exists tb, parse_rtattr buf fuel (new_table max) max (zlen pre) (zlen (enc_attrs l)) s = Some ((tb, 0), s) /\
    forall ty, 0 < ty <= max ->
      match attr_payload l ty with
      | None => znth tb ty = Some None
      | Some pl => exists p, znth tb ty = Some (Some p) /\ v16 buf p = 4 + zlen pl /\
          rd_bytes buf (p + 4) (length pl) s = Some (pl, s)
      end.
Proof.
  intros Hmax Ho Hf buf.
  assert (wp (parse_rtattr buf fuel (new_table max) max (zlen pre) (zlen (enc_attrs l)))
    (fun r s' => s' = s /\ r.2 = 0 /\ filled (new_table max) r.1 max l (zlen pre)) s) as W.
  { unfold parse_rtattr, parse_rtattr_flags. destruct (Z.leb_spec max 0); [lia|]. apply wp_bind.
    apply rtattr_loop_encode; [done|apply new_table_length; lia|done|]. intros tb T. by apply wp_ret. }
  destruct (wp_run _ _ _ W) as ([tb r] & s' & E & -> & Hr & T). cbn in *. subst r. exists tb. split; [done|].
  intros ty Hty. specialize (T ty Hty).
  assert (znth (new_table max) ty = Some None) as Hn.
  { unfold znth, new_table. destruct (Z.ltb_spec ty 0); [lia|]. apply lookup_replicate_2. lia. }
  rewrite Hn in T. destruct (attr_offset l (zlen pre) ty) as [p|] eqn:Ep.
  - destruct (attr_offset_payload pre l post ty p Ho Ep) as (pl & -> & H1 & H2 & H3 & H4). exists p. split_and!; [done|done|].
    assert (wp (rd_bytes buf (p + 4) (length pl)) (fun r s' => r = pl /\ s' = s) s) as W2.
    { pose proof (zlen_nonneg pre). unfold zlen in H2 at 1. apply rd_bytes_wp; [lia|unfold buf; lia|]. by split. }
    destruct (wp_run _ _ _ W2) as (r & s' & -> & -> & ->). done.
  - by rewrite (attr_offset_none _ _ _ Ep).
Qed.

(** ** Building requests *)

Lemma v8_zset l i b j : 0 <= i < zlen l -> v8 (zset l i b) j = if j =? i then b else v8 l j.
Proof.
  intros H. unfold v8. destruct (Z.eqb_spec j i) as [->|]; [by rewrite znth_zset_eq|by rewrite znth_zset_ne].
Qed.

(** Writes of consecutive bytes, seen through the bytes read afterwards. *)
Definition written (l l' : list Z) (i : Z) (bs : list Z) : Prop :=
  zlen l' = zlen l /\ forall j, v8 l' j = if (i <=? j) && (j <? i + zlen bs) then v8 bs (j - i) else v8 l j.

Lemma wr_bytes_wp i bs (Q : unit -> list Z -> Prop) l :
  0 <= i -> i + zlen bs <= zlen l -> (forall l', written l l' i bs -> Q tt l') -> wp (wr_bytes i bs) Q l.
Proof.
  revert i l. induction bs as [|b bs IH]; intros i l H1 H2 HQ; cbn [wr_bytes].
  - apply wp_ret, HQ. split; [done|]. intros j. change (zlen []) with 0.
    destruct (Z.leb_spec i j), (Z.ltb_spec j (i + 0)); cbn; try done. lia.
  - assert (zlen (b :: bs) = 1 + zlen bs) as Hz by (unfold zlen; cbn; lia). pose proof (zlen_nonneg bs).
    apply wp_bind. apply wp_bind, wp_gets. destruct (znth_is_Some l i) as [x Hx]; [lia|]. rewrite Hx.
    apply wp_bind, wp_ret, wp_modify, IH; [lia|rewrite zlen_zset; lia|].
    intros l' [L E]. apply HQ. split; [by rewrite L, zlen_zset|]. intros j. rewrite E, v8_zset, Hz by lia.
    destruct (Z.eqb_spec j i) as [->|Hji].
    + rewrite (proj2 (Z.leb_gt (i + 1) i)) by lia. cbn [andb]. rewrite Z.leb_refl, (proj2 (Z.ltb_lt i _)) by lia.
      by rewrite Z.sub_diag.
    + destruct (Z.leb_spec (i + 1) j), (Z.leb_spec i j), (Z.ltb_spec j (i + 1 + zlen bs)), (Z.ltb_spec j (i + (1 + zlen bs)));
        cbn [andb]; try lia; try done.
      unfold v8, znth. destruct (Z.ltb_spec (j - (i + 1)) 0), (Z.ltb_spec (j - i) 0); try lia.
      by replace (Z.to_nat (j - i)) with (Datatypes.S (Z.to_nat (j - (i + 1)))) by lia.
Qed.

Lemma wr16_wp i v (Q : unit -> list Z -> Prop) l :
  0 <= i -> i + 2 <= zlen l -> (forall l', written l l' i (le16 v) -> Q tt l') -> wp (wr16 i v) Q l.
Proof.
  intros H1 H2 HQ. assert (wp (wr_bytes i (le16 v)) Q l) as W by by apply wr_bytes_wp.
  unfold wr16, wr_bytes, le16 in *. unfold wp, mbind, M_bind in *.
  destruct (wr8 i (v mod 256) l) as [[[] l1]|]; [|done]. by destruct (wr8 (i + 1) (v / 256 mod 256) l1) as [[[] l2]|].
Qed.

Lemma written_v16 l l' i v : 0 <= v < 65536 -> written l l' i (le16 v) -> v16 l' i = v.
Proof.
  intros Hv [_ E]. unfold v16. rewrite !E. change (zlen (le16 v)) with 2.
  rewrite Z.leb_refl, (proj2 (Z.ltb_lt i _)), (proj2 (Z.leb_le i _)), (proj2 (Z.ltb_lt (i + 1) _)) by lia. cbn [andb].
  replace (i - i) with 0 by lia. replace (i + 1 - i) with 1 by lia. rewrite <- (v16_le16 v []) at 3 by done.
  by rewrite app_nil_r.
Qed.

Lemma written_v16_other l l' i bs j : written l l' i bs -> j + 2 <= i \/ i + zlen bs <= j -> v16 l' j = v16 l j.
Proof.
  intros [_ E] H. unfold v16. rewrite !E. 
  destruct (Z.leb_spec i j), (Z.ltb_spec j (i + zlen bs)), (Z.leb_spec i (j + 1)), (Z.ltb_spec (j + 1) (i + zlen bs)); cbn [andb]; try lia; done.
Qed.

(** What a successful [addattr_l] makes of the message [l]. *)
Definition attr_added (l l' : list Z) (off : Z) (type : Z) (d : list Z) : Prop :=
  zlen l' = zlen l /\ v32 l' 0 = off + align4 (4 + zlen d) /\
  v16 l' off = 4 + zlen d /\ v16 l' (off + 2) = type /\
  (forall j, 0 <= j < zlen d -> v8 l' (off + 4 + j) = v8 d j) /\
  (forall j, 4 <= j < off -> v8 l' j = v8 l j).

Lemma addattr_writes_wp l off type d new (Q : Z -> list Z -> Prop) :
  16 <= off -> 0 <= type < 65536 -> 4 + zlen d < 65536 -> new = off + align4 (4 + zlen d) -> new < 2 ^ 32 -> new <= zlen l ->
  (forall l', attr_added l l' off type d -> Q 0 l') ->
  wp (wr16 (off + 2) type;; wr16 off (4 + zlen d);; wr_bytes (off + 4) d;; wr32 0 new;; mret 0) Q l.
Proof.
  intros Hoff Ht Hd -> Hnew Hl HQ. pose proof (zlen_nonneg d).
  pose proof (align4_range (4 + zlen d) ltac:(lia)) as [Hal _]. set (new := off + align4 (4 + zlen d)) in *.
  apply wp_bind, wr16_wp; [lia|lia|]. intros l1 W1. pose proof (proj1 W1) as L1.
  apply wp_bind, wr16_wp; [lia|lia|]. intros l2 W2. pose proof (proj1 W2) as L2.
  apply wp_bind, wr_bytes_wp; [lia|lia|]. intros l3 W3. pose proof (proj1 W3) as L3.
  apply wp_bind. unfold wr32. apply wp_bind, wr16_wp; [lia|lia|]. intros l4 W4. pose proof (proj1 W4) as L4.
  apply wr16_wp; [lia|lia|]. intros l5 W5. apply wp_ret, HQ. pose proof (proj1 W5) as L5.
  assert (0 <= new mod 65536 < 65536 /\ 0 <= new / 65536 mod 65536 < 65536) as [Hm1 Hm2]
    by (split; apply Z.mod_pos_bound; lia).
  assert (forall v, zlen (le16 v) = 2) as Hz by done.
  split_and!; [congruence| | | | |].
  - unfold v32. rewrite (written_v16_other _ _ _ _ 0 W5) by (rewrite Hz; lia).
    rewrite (written_v16 _ _ _ _ Hm1 W4). cbn [Z.add]. rewrite (written_v16 _ _ _ _ Hm2 W5).
    rewrite (Z.mod_small (new / 65536)) by (split; [apply Z.div_pos; lia|apply Z.div_lt_upper_bound; lia]).
    pose proof (Z.div_mod new 65536). lia.
  - rewrite (written_v16_other _ _ _ _ off W5), (written_v16_other _ _ _ _ off W4), (written_v16_other _ _ _ _ off W3)
      by (rewrite ?Hz; lia). eapply written_v16; [|exact W2]; lia.
  - rewrite (written_v16_other _ _ _ _ (off + 2) W5), (written_v16_other _ _ _ _ (off + 2) W4),
      (written_v16_other _ _ _ _ (off + 2) W3), (written_v16_other _ _ _ _ (off + 2) W2) by (rewrite ?Hz; lia).
    by apply (written_v16 _ _ _ _ Ht W1).
  - intros j Hj. rewrite (proj2 W5), (proj2 W4), (proj2 W3), !Hz.
    rewrite (proj2 (Z.ltb_ge (off + 4 + j) (0 + 2 + 2))), (proj2 (Z.ltb_ge (off + 4 + j) (0 + 2))), !andb_false_r by lia.
    rewrite (proj2 (Z.leb_le (off + 4) _)), (proj2 (Z.ltb_lt (off + 4 + j) _)) by lia. cbn [andb]. f_equal. lia.
  - intros j Hj. rewrite (proj2 W5), (proj2 W4), (proj2 W3), (proj2 W2), (proj2 W1), !Hz.
    rewrite (proj2 (Z.ltb_ge j (0 + 2 + 2))), (proj2 (Z.ltb_ge j (0 + 2))), !andb_false_r by lia.
    rewrite (proj2 (Z.leb_gt (off + 4) j)), (proj2 (Z.leb_gt off j)), (proj2 (Z.leb_gt (off + 2) j)) by lia. done.
Qed.

(** [addattr_l] appends an attribute that the parser reads back (its length,
    type and payload at the aligned end of the message, the message length
    advanced past the padding, the rest of the message kept), or returns -1 and
    changes nothing when the message would exceed [maxlen]; it never writes
    outside the [maxlen] bytes of the buffer. *)
Theorem addattr_l_spec l maxlen type d :
  zlen l = maxlen -> maxlen < 2 ^ 31 -> 16 <= v32 l 0 <= maxlen -> 0 <= type < 65536 -> 4 + zlen d < 65536 ->
  let off := align4 (v32 l 0) in
  if maxlen <? off + align4 (4 + zlen d) then addattr_l maxlen type (Some d) (zlen d) l = Some (-1, l)
  else exists l', addattr_l maxlen type (Some d) (zlen d) l = Some (0, l') /\ attr_added l l' off type d.
Proof.
  intros Hl Hmax Hn Ht Hd off. pose proof (zlen_nonneg d).
  pose proof (align4_range (v32 l 0) ltac:(lia)) as [Ha _]. pose proof (align4_range (4 + zlen d) ltac:(lia)) as [Hb _].
  fold off in Ha. set (new := off + align4 (4 + zlen d)).
  assert (wp (addattr_l maxlen type (Some d) (zlen d))
    (fun r l' => if maxlen <? new then r = -1 /\ l' = l else r = 0 /\ attr_added l l' off type d) l) as W.
  { unfold addattr_l. rewrite bool_decide_false, andb_false_r by done.
    apply wp_bind, wp_bind, wp_gets, rd32_wp; [lia|lia|]. fold off. unfold RTA_LENGTH.
    rewrite (wrap_small 32 (4 + zlen d)) by lia. rewrite (wrap_small 32 off), (wrap_small 32 (align4 (4 + zlen d))) by lia.
    fold new. rewrite (wrap_small 32 new) by (unfold new; lia).
    destruct (Z.ltb_spec maxlen new); [by apply wp_ret|].
    rewrite (wrap_small 16 type), (wrap_small 16 (4 + zlen d)) by lia.
    replace (match Some d with Some d0 => if 0 <? zlen d then wr_bytes (off + 4) (take (Z.to_nat (zlen d)) d0) else mret tt | None => mret tt end)
      with (wr_bytes (off + 4) d).
    - eapply addattr_writes_wp; [lia|done|done|done|lia|lia|]. by intros l' A.
    - destruct (Z.ltb_spec 0 (zlen d)).
      + unfold zlen. by rewrite Nat2Z.id, firstn_all.
      + destruct d; [done|]. unfold zlen in *. cbn in *. lia. }
  destruct (wp_run _ _ _ W) as (r & l' & E & P). rewrite E. destruct (maxlen <? new); destruct P as [-> P]; [by subst|eauto].
Qed.

(** ** Concrete runs *)

Definition eth0 : list Z := [101; 116; 104; 48; 0].
Definition mac : list Z := [2; 66; 172; 17; 0; 2].
Definition demo_attrs : list (Z * list Z) :=
  [(IFLA_IFNAME, eth0); (IFLA_ADDRESS, mac); (IFLA_LINKINFO, enc_attrs [(IFLA_INFO_KIND, bridge ++ [0])]); (IFLA_MASTER, le32 4)].

(** A link message and the end of the dump. *)
Definition demo_chunk : list Z :=
  le32 (32 + zlen (enc_attrs demo_attrs)) ++ le16 16 ++ replicate 10 0
  ++ [0; 0] ++ le16 ARPHRD_ETHER ++ le32 7 ++ replicate 8 0 ++ enc_attrs demo_attrs
  ++ le32 20 ++ le16 NLMSG_DONE ++ replicate 14 0.

Lemma parse_recv_chunk_safe_witness :
  parse_recv_chunk (fun _ => true) 60 10 demo_chunk 200 (zlen demo_chunk) []
    = Some (0, [Dev 7 4 0 (bridge ++ replicate 11 0) true (eth0 ++ replicate 12 0) mac])
  /\ exists r new, parse_recv_chunk (fun _ => true) 60 10 demo_chunk 200 (zlen demo_chunk) [] = Some (r, [] ++ new) /\
    (r = 1 \/ r = 0 \/ r = -1 \/ r = - EINVAL) /\ Forall dev_ok new.
Proof.
  split; [vm_compute; reflexivity|].
  apply (parse_recv_chunk_safe (fun _ => true) 60 10 demo_chunk (zlen demo_chunk) 200 []); [lia|lia|lia|vm_compute; lia].
Defined.

Lemma parse_rtattr_encode_witness :
  let buf := [9; 9] ++ enc_attrs demo_attrs ++ [1] in
  exists tb, parse_rtattr buf 5 (new_table 20) 20 (zlen [9; 9]) (zlen (enc_attrs demo_attrs)) tt = Some ((tb, 0), tt) /\
    forall ty, 0 < ty <= 20 ->
      match attr_payload demo_attrs ty with
      | None => znth tb ty = Some None
      | Some pl => exists p, znth tb ty = Some (Some p) /\ v16 buf p = 4 + zlen pl /\
          rd_bytes buf (p + 4) (length pl) tt = Some (pl, tt)
      end.
Proof.
  apply (parse_rtattr_encode 20 demo_attrs [9; 9] [1] 5 tt).
  - lia.
  - repeat constructor; vm_compute; done.
  - vm_compute. lia.
Defined.

Lemma addattr_l_spec_witness :
  let l := le32 16 ++ replicate 28 0 in
  exists l', addattr_l 32 29 (Some [1; 2; 3; 4; 5]) 5 l = Some (0, l') /\ attr_added l l' 16 29 [1; 2; 3; 4; 5].
Proof.
  intros l. pose proof (addattr_l_spec l 32 29 [1; 2; 3; 4; 5]) as H.
  apply H; [reflexivity|lia|vm_compute; split; discriminate|lia|vm_compute; reflexivity].
Defined.
