(* ===== verification/NetlinkEncode.v ===== *)
(** * netlink: encoded link messages are read back as devices

    The layout of a dump of [RTM_NEWLINK] messages, the device each message
    stands for, and the rules by which the parsers of the file Netlink find it. *)

From S2P Require Import Prelude Netlink NetlinkSafe NetlinkSpec.
Import Netlink.

(** ** Link messages *)

(** A message: its type, the rest of its header, the [ifinfomsg] and the
    attributes; [lk_info] are the attributes nested in [IFLA_LINKINFO]. *)
Record link := Link {
  lk_msgtype : Z; lk_hdr : list Z; lk_family : list Z; lk_iftype : Z; lk_index : Z; lk_rest : list Z;
  lk_attrs : list (Z * list Z); lk_info : option (list (Z * list Z))
}.

Definition enc_link (l : link) : list Z :=
  le32' (32 + zlen (enc_attrs (lk_attrs l))) ++ le16 (lk_msgtype l) ++ lk_hdr l ++ lk_family l ++ le16 (lk_iftype l)
  ++ le32' (lk_index l) ++ lk_rest l ++ enc_attrs (lk_attrs l).

Record link_ok (l : link) : Prop := {
  lo_hdr : zlen (lk_hdr l) = 10; lo_family : zlen (lk_family l) = 2; lo_rest : zlen (lk_rest l) = 8;
  lo_type : 0 <= lk_msgtype l < 65536 /\ lk_msgtype l <> NLMSG_ERROR /\ lk_msgtype l <> NLMSG_DONE;
  lo_iftype : 0 <= lk_iftype l < 65536; lo_index : 0 <= lk_index l < 2 ^ 32;
  lo_len : 32 + zlen (enc_attrs (lk_attrs l)) < 2 ^ 32;
  lo_attrs : Forall attr_ok (lk_attrs l);
  lo_info : attr_payload (lk_attrs l) IFLA_LINKINFO = enc_attrs <$> lk_info l /\
    forall i, lk_info l = Some i -> Forall attr_ok i
}.

(** The bytes [pl] copied into a field of [n] bytes. *)
Definition field (n : Z) (pl : list Z) : list Z :=
  take (Z.to_nat n) pl ++ replicate (Z.to_nat (n - Z.min (zlen pl) n)) 0.
Definition name_field (pl : list Z) : list Z := field IFNAMSIZ pl ++ [0].
Definition number (pl : option (list Z)) : Z :=
  match pl with Some pl => if 4 <=? zlen pl then s32 (v32 pl 0) else 0 | None => 0 end.
Definition kind_of (l : link) : list Z :=
  match lk_info l with
  | Some i => match attr_payload i IFLA_INFO_KIND with Some k => name_field k | None => replicate 17 0 end
  | None => replicate 17 0
  end.

(** The device of a message: Ethernet interfaces with a name and an address. *)
Definition dev_of (l : link) : option netdev_item :=
  if negb (lk_iftype l =? ARPHRD_ETHER) then None
  else
    match attr_payload (lk_attrs l) IFLA_IFNAME, attr_payload (lk_attrs l) IFLA_ADDRESS with
    | Some nm, Some ad =>
        Some (Dev (s32 (lk_index l)) (number (attr_payload (lk_attrs l) IFLA_MASTER))
          (number (attr_payload (lk_attrs l) IFLA_LINK)) (kind_of l) (bool_decide (cstr (kind_of l) = bridge))
          (name_field nm) (field ETH_ALEN ad))
    | _, _ => None
    end.

(** ** The fields of a message *)

(** Reading a field after a header of [k] bytes. *)
Lemma v16_field h v r pre post k :
  zlen h = k -> 0 <= v < 65536 -> v16 (pre ++ (h ++ le16 v ++ r) ++ post) (zlen pre + k) = v.
Proof.
  intros <- Hv. replace (pre ++ (h ++ le16 v ++ r) ++ post) with ((pre ++ h) ++ le16 v ++ (r ++ post)) by by rewrite <- !app_assoc.
  rewrite <- zlen_app. replace (zlen (pre ++ h)) with (zlen (pre ++ h) + 0) by lia.
  rewrite v16_app; [by apply v16_le16|lia|]. rewrite zlen_app. change (zlen (le16 v)) with 2. pose proof (zlen_nonneg (r ++ post)). lia.
Qed.

Lemma v32_field h v r pre post k :
  zlen h = k -> 0 <= v < 2 ^ 32 -> v32 (pre ++ (h ++ le32' v ++ r) ++ post) (zlen pre + k) = v.
Proof.
  intros <- Hv. replace (pre ++ (h ++ le32' v ++ r) ++ post) with ((pre ++ h) ++ le32' v ++ (r ++ post)) by by rewrite <- !app_assoc.
  rewrite <- zlen_app. replace (zlen (pre ++ h)) with (zlen (pre ++ h) + 0) by lia.
  rewrite v32_app; [by apply v32_le32'|lia|]. rewrite zlen_app, zlen_le32'. pose proof (zlen_nonneg (r ++ post)). lia.
Qed.

Lemma zlen_enc_link l : link_ok l -> zlen (enc_link l) = 32 + zlen (enc_attrs (lk_attrs l)).
Proof.
  intros [H1 H2 H3 _ _ _ _ _ _]. unfold enc_link. rewrite !zlen_app, H1, H2, H3, !zlen_le32'.
  change (zlen (le16 (lk_msgtype l))) with 2. change (zlen (le16 (lk_iftype l))) with 2. lia.
Qed.

Lemma enc_link_fields pre l post : link_ok l ->
  let buf := pre ++ enc_link l ++ post in
  v32 buf (zlen pre) = 32 + zlen (enc_attrs (lk_attrs l)) /\ v16 buf (zlen pre + 4) = lk_msgtype l /\
  v16 buf (zlen pre + 18) = lk_iftype l /\ v32 buf (zlen pre + 20) = lk_index l /\
  exists h, buf = (pre ++ h) ++ enc_attrs (lk_attrs l) ++ post /\ zlen h = 32.
Proof.
  intros [H1 H2 H3 H4 H5 H6 H7 _ _] buf. pose proof (zlen_nonneg (enc_attrs (lk_attrs l))) as Ha. unfold buf, enc_link.
  set (n := 32 + zlen (enc_attrs (lk_attrs l))) in *. set (A := enc_attrs (lk_attrs l)) in *. split_and!.
  - replace (zlen pre) with (zlen pre + 0) by lia. apply (v32_field []); [done|lia].
  - apply v16_field; [done|lia].
  - replace (le32' n ++ le16 (lk_msgtype l) ++ lk_hdr l ++ lk_family l ++ le16 (lk_iftype l) ++ le32' (lk_index l) ++ lk_rest l ++ A)
      with ((le32' n ++ le16 (lk_msgtype l) ++ lk_hdr l ++ lk_family l) ++ le16 (lk_iftype l) ++ le32' (lk_index l) ++ lk_rest l ++ A)
      by by rewrite <- !app_assoc.
    apply v16_field; [rewrite !zlen_app, H1, H2; done|done].
  - replace (le32' n ++ le16 (lk_msgtype l) ++ lk_hdr l ++ lk_family l ++ le16 (lk_iftype l) ++ le32' (lk_index l) ++ lk_rest l ++ A)
      with ((le32' n ++ le16 (lk_msgtype l) ++ lk_hdr l ++ lk_family l ++ le16 (lk_iftype l)) ++ le32' (lk_index l) ++ lk_rest l ++ A)
      by by rewrite <- !app_assoc.
    apply v32_field; [rewrite !zlen_app, H1, H2; done|done].
  - exists (le32' n ++ le16 (lk_msgtype l) ++ lk_hdr l ++ lk_family l ++ le16 (lk_iftype l) ++ le32' (lk_index l) ++ lk_rest l).
    split; [by rewrite <- !app_assoc|]. rewrite !zlen_app, H1, H2, H3. done.
Qed.

(** ** The table of a message *)

(** The entry of each type in the table: the first attribute of the type. *)
Definition table_of (buf : list Z) (max : Z) (l : list (Z * list Z)) (tb : list ptr) : Prop :=
  max < zlen tb /\
  forall ty, 0 < ty <= max ->
    match attr_payload l ty with
    | None => znth tb ty = Some None
    | Some pl => exists p, znth tb ty = Some (Some p) /\ 0 <= p /\ p + 4 + zlen pl <= zlen buf /\
        v16 buf p = 4 + zlen pl /\ slice (buf := buf) (p + 4) (length pl) = pl
    end.

Lemma filled_table_of pre l post max tb :
  0 <= max -> Forall attr_ok l -> zlen tb = zlen (new_table max) ->
  filled (new_table max) tb max l (zlen pre) -> table_of (pre ++ enc_attrs l ++ post) max l tb.
Proof.
  intros Hm Ho Hl T. split; [rewrite Hl; by apply new_table_length|]. intros ty Hty. specialize (T ty Hty).
  assert (znth (new_table max) ty = Some None) as Hn by (apply znth_replicate; lia).
  rewrite Hn in T. destruct (attr_offset l (zlen pre) ty) as [p|] eqn:Ep; [|by rewrite (attr_offset_none _ _ _ Ep)].
  destruct (attr_offset_payload pre l post ty p Ho Ep) as (pl & -> & H1 & H2 & H3 & H4).
  exists p. pose proof (zlen_nonneg pre). split_and!; [done|lia|done..].
Qed.

Lemma parse_rtattr_table {S} fuel max pre l post (Q : list ptr * Z -> S -> Prop) m :
  0 < max -> Forall attr_ok l -> (Z.to_nat (zlen (enc_attrs l)) < fuel)%nat ->
  (forall tb, table_of (pre ++ enc_attrs l ++ post) max l tb -> Q (tb, 0) m) ->
  wp (parse_rtattr (pre ++ enc_attrs l ++ post) fuel (new_table max) max (zlen pre) (zlen (enc_attrs l))) Q m.
Proof.
  intros Hm Ho Hf HQ. pose proof (new_table_length max ltac:(lia)) as Hn.
  assert (length l <= Z.to_nat (zlen (enc_attrs l)))%nat as Hlen.
  { clear -Ho. induction l as [|a l IH]; [cbn; lia|]. apply Forall_cons in Ho as [Ha Ho]. specialize (IH Ho).
    rewrite enc_attrs_cons, zlen_app, zlen_enc_attr. pose proof (zlen_nonneg (snd a)). pose proof (zlen_nonneg (enc_attrs l)).
    pose proof (align4_range (4 + zlen (snd a)) ltac:(lia)). cbn [length]. lia. }
  assert (wp (parse_rtattr (pre ++ enc_attrs l ++ post) fuel (new_table max) max (zlen pre) (zlen (enc_attrs l)))
    (fun r m' => zlen r.1 = zlen (new_table max)) m) as W1.
  { apply parse_rtattr_wp; [apply zlen_nonneg| |done|apply new_table_ok|done|done].
    rewrite !zlen_app. pose proof (zlen_nonneg post). lia. }
  assert (wp (parse_rtattr (pre ++ enc_attrs l ++ post) fuel (new_table max) max (zlen pre) (zlen (enc_attrs l)))
    (fun r m' => m' = m /\ r.2 = 0 /\ filled (new_table max) r.1 max l (zlen pre)) m) as W2.
  { unfold parse_rtattr, parse_rtattr_flags. destruct (Z.leb_spec max 0); [lia|].
    apply wp_bind, rtattr_loop_encode; [done|done|lia|]. intros tb F. by apply wp_ret. }
  eapply wp_mono; [exact (wp_and _ _ _ _ W1 W2)|]. intros [tb r] m' [H1 (-> & H2 & H3)]. cbn in *. subst r.
  apply HQ, filled_table_of; [lia|done|done|done].
Qed.

(** ** Fields out of the table *)

Section fields.
Context {buf : list Z}.

Lemma tb_get_table max l tb ty (Q : ptr -> list netdev_item -> Prop) m :
  table_of buf max l tb -> 0 < ty <= max ->
  match attr_payload l ty with
  | None => Q None m
  | Some pl => forall p, 0 <= p -> p + 4 + zlen pl <= zlen buf -> v16 buf p = 4 + zlen pl ->
      slice (buf := buf) (p + 4) (length pl) = pl -> Q (Some p) m
  end -> wp (tb_get tb ty) Q m.
Proof.
  intros [Hl T] Hty HQ. specialize (T ty Hty). unfold tb_get. destruct (attr_payload l ty) as [pl|].
  - destruct T as (p & -> & H1 & H2 & H3 & H4). by apply wp_ret, HQ.
  - rewrite T. by apply wp_ret.
Qed.

(** [fill_from_rta] of an attribute with payload [pl]. *)
Lemma fill_payload_wp dst n p pl (Q : list Z * Z -> list netdev_item -> Prop) m :
  0 < n <= zlen dst -> 0 <= p -> p + 4 + zlen pl <= zlen buf -> v16 buf p = 4 + zlen pl ->
  slice (buf := buf) (p + 4) (length pl) = pl ->
  Q (field n pl ++ drop (Z.to_nat n) dst, 0) m -> wp (fill_from_rta buf dst n (Some p)) Q m.
Proof.
  intros Hn Hp He Hv Hs HQ. pose proof (zlen_nonneg pl). eapply (fill_from_rta_wp _ _ _ p (zlen buf)); [lia| |done|lia|].
  { intros q [= <-]. unfold attr_at. lia. }
  cbv beta iota. rewrite Hv. rewrite (proj2 (Z.eqb_neq n 0)) by lia. cbv zeta. replace (4 + zlen pl - 4) with (zlen pl) by lia.
  replace (slice (buf := buf) (p + 4) (Z.to_nat (Z.min (zlen pl) n))) with (take (Z.to_nat n) pl).
  - rewrite app_assoc. exact HQ.
  - rewrite <- Hs at 1. unfold slice. rewrite take_take. f_equal. unfold zlen. lia.
Qed.

Lemma field_length n pl : 0 <= n -> zlen (field n pl) = n.
Proof.
  intros Hn. pose proof (zlen_nonneg pl). unfold field. rewrite zlen_app, zlen_replicate by lia.
  unfold zlen in *. rewrite length_take. lia.
Qed.

Lemma v8_slice i n j : 0 <= i -> 0 <= j < Z.of_nat n -> v8 (slice (buf := buf) i n) j = v8 buf (i + j).
Proof.
  intros Hi Hj. unfold v8, znth, slice. destruct (Z.ltb_spec j 0), (Z.ltb_spec (i + j) 0); try lia.
  rewrite lookup_take_lt, lookup_drop by lia. do 2 f_equal. lia.
Qed.

Lemma read_u32_table max l tb ty (Q : Z -> list netdev_item -> Prop) m :
  table_of buf max l tb -> 0 < ty <= max -> Q (number (attr_payload l ty)) m -> wp (read_u32 buf tb ty 0) Q m.
Proof.
  intros T Hty HQ. unfold read_u32. apply wp_bind. eapply tb_get_table; [done|done|].
  destruct (attr_payload l ty) as [pl|]; [|by apply wp_ret]. intros p Hp He Hv Hs. unfold RTA_PAYLOAD, rta_len, RTA_DATA.
  pose proof (zlen_nonneg pl). apply wp_bind, wp_bind, rd16_wp; [lia|lia|]. apply wp_ret. rewrite Hv.
  replace (4 + zlen pl - 4) with (zlen pl) by lia. unfold number in HQ. destruct (Z.leb_spec 4 (zlen pl)); [|by apply wp_ret].
  apply wp_bind, rd32_wp; [lia|lia|]. apply wp_ret.
  assert (v32 pl 0 = v32 buf (p + 4)) as <-; [|done]. rewrite <- Hs. unfold v32, v16.
  unfold zlen in *. rewrite !v8_slice by lia. rewrite !Z.add_0_r, !Z.add_0_l, <- !Z.add_assoc. done.
Qed.
End fields.

Lemma attr_payload_length l ty pl : attr_payload l ty = Some pl -> zlen pl <= zlen (enc_attrs l).
Proof.
  unfold attr_payload. induction l as [|a l IH]; [done|]. cbn [List.find]. rewrite enc_attrs_cons, zlen_app, zlen_enc_attr.
  pose proof (zlen_nonneg (snd a)). pose proof (zlen_nonneg (enc_attrs l)). pose proof (align4_range (4 + zlen (snd a)) ltac:(lia)).
  destruct (fst a =? ty); [|intros H2; specialize (IH H2); lia]. intros [= <-]. lia.
Qed.

(** [IFLA_LINKINFO] and the kind nested in it. *)
Lemma read_linkinfo_table info_max max pre l post tb fuel idx nm ad (Q : netdev_item -> list netdev_item -> Prop) m
  (buf := pre ++ enc_attrs (lk_attrs l) ++ post) :
  link_ok l -> table_of buf max (lk_attrs l) tb -> 18 <= max -> 1 <= info_max -> (Z.to_nat (zlen (enc_attrs (lk_attrs l))) < fuel)%nat ->
  Q (Dev idx 0 0 (kind_of l) (bool_decide (cstr (kind_of l) = bridge)) nm ad) m ->
  wp (read_linkinfo info_max buf fuel tb (Dev idx 0 0 (replicate 17 0) false nm ad)) Q m.
Proof.
  intros [_ _ _ _ _ _ _ Hattrs [Hi Hio]] T Hmax Him Hf HQ. unfold read_linkinfo. apply wp_bind.
  eapply tb_get_table; [done|unfold IFLA_LINKINFO; lia|]. rewrite Hi. unfold kind_of in HQ.
  destruct (lk_info l) as [i|]; cbn [fmap option_fmap option_map]; [|by apply wp_ret]. specialize (Hio i eq_refl).
  intros p Hp He Hv Hs. unfold parse_rtattr_nested, RTA_PAYLOAD, rta_len, RTA_DATA. pose proof (zlen_nonneg (enc_attrs i)) as Hz.
  apply wp_bind, wp_bind, wp_bind, rd16_wp; [lia|lia|]. apply wp_ret. rewrite Hv.
  replace (4 + zlen (enc_attrs i) - 4) with (zlen (enc_attrs i)) by lia.
  assert (buf = take (Z.to_nat (p + 4)) buf ++ enc_attrs i ++ drop (Z.to_nat (p + 4) + length (enc_attrs i)) buf) as Hbuf.
  { rewrite <- (take_drop (Z.to_nat (p + 4)) buf) at 1. f_equal.
    rewrite <- (take_drop (length (enc_attrs i)) (drop (Z.to_nat (p + 4)) buf)) at 1. rewrite drop_drop. f_equal. exact Hs. }
  assert (p + 4 = zlen (take (Z.to_nat (p + 4)) buf)) as Hpz by (unfold zlen in *; rewrite length_take; lia).
  set (pre' := take (Z.to_nat (p + 4)) buf) in *. set (post' := drop _ buf) in Hbuf. rewrite Hpz, Hbuf.
  apply parse_rtattr_table; [lia|done|pose proof (attr_payload_length _ _ _ Hi); lia|]. intros tb2 T2. rewrite <- Hbuf in *. cbn [fst].
  apply wp_bind. eapply tb_get_table; [done|unfold IFLA_INFO_KIND; lia|].
  destruct (attr_payload i IFLA_INFO_KIND) as [k|]; [|by apply wp_ret]. intros q Hq Hqe Hqv Hqs.
  apply wp_bind. eapply fill_payload_wp; [done|done|done|done|done|].
  change (drop (Z.to_nat IFNAMSIZ) (kind (Dev idx 0 0 (replicate 17 0) false nm ad))) with [0].
  fold (name_field k). by apply wp_ret.
Qed.

(** ** Messages and chunks *)

Section chunks.
Context (calloc : nat -> bool) (ifla_max ifla_info_max : Z).
Hypothesis (Hcalloc : forall n, calloc n = true) (Hmax : 18 <= ifla_max) (Hinfo : 1 <= ifla_info_max).

Lemma parse_nlbuf_table {S} fuel pre l post (Q : list ptr * Z -> S -> Prop) m :
  link_ok l -> let buf := pre ++ enc_link l ++ post in (Z.to_nat (zlen (enc_link l)) < fuel)%nat ->
  (forall tb, table_of buf ifla_max (lk_attrs l) tb -> Q (tb, 32 + zlen (enc_attrs (lk_attrs l))) m) ->
  wp (parse_nlbuf buf fuel ifla_max (zlen pre) (new_table ifla_max)) Q m.
Proof.
  intros Ho buf Hf HQ. pose proof (zlen_enc_link _ Ho) as Hz. rewrite Hz in Hf. destruct (enc_link_fields pre l post Ho) as (F1 & _ & _ & _ & h & Hh & Hhz).
  fold buf in F1, Hh. set (n := zlen (enc_attrs (lk_attrs l))) in *. pose proof (zlen_nonneg (enc_attrs (lk_attrs l))).
  pose proof (zlen_nonneg pre). pose proof (zlen_nonneg post).
  assert (zlen buf = zlen pre + (32 + n) + zlen post) as Hb by (unfold buf; rewrite !zlen_app; lia).
  unfold parse_nlbuf. change (NLMSG_LENGTH sizeof_ifinfomsg) with 32. apply wp_bind, rd32_wp; [lia|lia|]. rewrite F1.
  destruct (Z.ltb_spec (32 + n) 32); [lia|]. replace (zlen pre + 32) with (zlen (pre ++ h)) by (rewrite zlen_app; lia).
  replace (32 + n - 32) with n by lia. apply wp_bind. destruct (Z.ltb_spec 0 n).
  - apply wp_bind. rewrite Hh. apply parse_rtattr_table; [lia|apply Ho|fold n; lia|].
    intros tb T. rewrite <- Hh in T. by apply wp_ret, wp_ret, HQ.
  - apply wp_ret, wp_ret, HQ. assert (lk_attrs l = []) as E.
    { destruct (lk_attrs l) as [|a r] eqn:E; [done|exfalso]. unfold n in *. rewrite enc_attrs_cons, zlen_app, zlen_enc_attr in *.
      pose proof (zlen_nonneg (snd a)). pose proof (zlen_nonneg (enc_attrs r)). pose proof (align4_range (4 + zlen (snd a)) ltac:(lia)). lia. }
    split; [apply new_table_length; lia|]. intros ty Hty. rewrite E. cbn. apply znth_replicate. lia.
Qed.

Lemma link_message_table fuel pre l post devs :
  link_ok l -> let buf := pre ++ enc_link l ++ post in (Z.to_nat (zlen (enc_link l)) < fuel)%nat ->
  wp (link_message calloc ifla_max ifla_info_max buf fuel (zlen pre))
    (fun r devs' => r = None /\ devs' = devs ++ option_list (dev_of l)) devs.
Proof.
  intros Ho buf Hf. pose proof (zlen_enc_link _ Ho) as Hz. destruct (enc_link_fields pre l post Ho) as (_ & _ & F3 & F4 & h & Hh & _).
  fold buf in F3, F4, Hh. pose proof (zlen_nonneg (enc_attrs (lk_attrs l))). pose proof (zlen_nonneg pre). pose proof (zlen_nonneg post).
  assert (zlen buf = zlen pre + (32 + zlen (enc_attrs (lk_attrs l))) + zlen post) as Hb by (unfold buf; rewrite !zlen_app; lia).
  unfold link_message. apply wp_bind. apply parse_nlbuf_table; [done|done|]. intros tb T. fold buf in T. cbn [fst snd].
  destruct (Z.ltb_spec (32 + zlen (enc_attrs (lk_attrs l))) 0); [lia|]. unfold NLMSG_DATA, NLMSG_HDRLEN.
  apply wp_bind. unfold ifi_type. apply rd16_wp; [lia|lia|]. replace (zlen pre + 16 + 2) with (zlen pre + 18) by lia. rewrite F3.
  unfold dev_of. destruct (lk_iftype l =? ARPHRD_ETHER); cbn [negb option_list]; [|apply wp_ret; by rewrite app_nil_r].
  apply wp_bind, wp_gets. rewrite Hcalloc. cbn [negb]. apply wp_bind. unfold ifi_index. apply wp_bind, rd32_wp; [lia|lia|].
  replace (zlen pre + 16 + 4) with (zlen pre + 20) by lia. rewrite F4. apply wp_ret, wp_bind. rewrite Hh in *.
  eapply (read_linkinfo_table _ ifla_max (pre ++ h) l post); [done|exact T|done|done|lia|]. cbn [index master_idx ifla_link_idx kind is_bridge name ll_addr zero_dev].
  fold (kind_of l). apply wp_bind. eapply tb_get_table; [done|unfold IFLA_IFNAME; lia|].
  destruct (attr_payload (lk_attrs l) IFLA_IFNAME) as [nm|]; [|cbn; apply wp_ret; by rewrite app_nil_r].
  intros p P1 P2 P3 P4. apply wp_bind. eapply fill_payload_wp; [done|done|done|done|done|]. cbn [snd fst Z.eqb negb].
  apply wp_bind. eapply tb_get_table; [done|unfold IFLA_ADDRESS; lia|].
  destruct (attr_payload (lk_attrs l) IFLA_ADDRESS) as [ad|]; [|cbn; apply wp_ret; by rewrite app_nil_r].
  intros q Q1 Q2 Q3 Q4. apply wp_bind. eapply fill_payload_wp; [done|done|done|done|done|]. cbn [snd fst Z.eqb negb].
  apply wp_bind. eapply read_u32_table; [done|unfold IFLA_LINK; lia|]. apply wp_bind.
  eapply read_u32_table; [done|unfold IFLA_MASTER; lia|]. apply wp_bind, wp_modify, wp_ret. split; [done|].
  cbn [option_list]. do 3 f_equal. cbn. by rewrite app_nil_r.
Qed.

(** The end of a dump: a [NLMSG_DONE] message of [n] more bytes. *)
Definition enc_done (rest : list Z) : list Z := le32' (6 + zlen rest) ++ le16 NLMSG_DONE ++ rest.

Definition enc_links (ls : list link) : list Z := concat (enc_link <$> ls).

Lemma align4_id n : 0 <= n -> n mod 4 = 0 -> align4 n = n.
Proof. intros H1 H2. rewrite align4_spec by done. div_lia. Qed.

Lemma enc_attrs_mod4 l : zlen (enc_attrs l) mod 4 = 0.
Proof.
  induction l as [|a l IH]; [done|]. rewrite enc_attrs_cons, zlen_app, zlen_enc_attr. pose proof (zlen_nonneg (snd a)).
  destruct (align4_range (4 + zlen (snd a)) ltac:(lia)) as [_ H4]. div_lia.
Qed.

(** The loop over the messages, up to whatever follows them. *)
Lemma chunk_loop_links ls fuel pre post counter devs (Q : Z -> list netdev_item -> Prop) :
  Forall link_ok ls -> 0 <= counter -> counter + zlen ls <= 101 -> let buf := pre ++ enc_links ls ++ post in
  (Z.to_nat (zlen (enc_links ls ++ post)) < fuel)%nat ->
  (forall fuel', (Z.to_nat (zlen post) < fuel')%nat ->
     wp (chunk_loop calloc ifla_max ifla_info_max buf fuel' (zlen (pre ++ enc_links ls)) (zlen post) (counter + zlen ls)) Q
       (devs ++ omap dev_of ls)) ->
  wp (chunk_loop calloc ifla_max ifla_info_max buf fuel (zlen pre) (zlen (enc_links ls ++ post)) counter) Q devs.
Proof.
  revert fuel pre counter devs. induction ls as [|l ls IH]; intros fuel pre counter devs Ho H0 Hc buf Hf HQ.
  { change (enc_links [] ++ post) with post in *. change (zlen (@nil link)) with 0 in *. specialize (HQ fuel Hf).
    cbn [enc_links fmap list_fmap concat omap list_omap] in HQ. by rewrite !app_nil_r, Z.add_0_r in HQ. }
  apply Forall_cons in Ho as [Hl Ho]. destruct fuel as [|fuel]; [lia|].
  assert (zlen (l :: ls) = 1 + zlen ls) as Hls by (unfold zlen; cbn; lia). rewrite Hls in *. pose proof (zlen_nonneg ls).
  change (enc_links (l :: ls)) with (enc_link l ++ enc_links ls) in *. rewrite <- app_assoc in Hf |- *.
  set (R := enc_links ls ++ post) in *. pose proof (zlen_enc_link _ Hl) as Hz.
  assert (buf = pre ++ enc_link l ++ R) as Hbuf by (unfold buf, R; by rewrite <- app_assoc).
  destruct (enc_link_fields pre l R Hl) as (F1 & F2 & _). rewrite <- Hbuf in F1, F2. rewrite <- Hz in F1.
  pose proof (zlen_nonneg (enc_attrs (lk_attrs l))). pose proof (zlen_nonneg pre). pose proof (zlen_nonneg R).
  assert (zlen buf = zlen pre + zlen (enc_link l) + zlen R) as Hb by (rewrite Hbuf, !zlen_app; lia).
  rewrite zlen_app in Hf |- *. cbn [chunk_loop]. apply wp_bind. unfold NLMSG_OK.
  destruct (Z.leb_spec 16 (zlen (enc_link l) + zlen R)); [|lia]. apply wp_bind, rd32_wp; [lia|lia|]. rewrite F1. apply wp_ret.
  destruct (Z.leb_spec 16 (zlen (enc_link l))); [|lia]. destruct (Z.leb_spec (zlen (enc_link l)) (zlen (enc_link l) + zlen R)); [|lia].
  cbn [andb negb]. destruct (Z.ltb_spec 100 counter); [lia|]. apply wp_bind, rd16_wp; [lia|lia|]. rewrite F2.
  destruct (lo_type _ Hl) as (_ & T1 & T2). rewrite (proj2 (Z.eqb_neq _ _) T1), (proj2 (Z.eqb_neq _ _) T2).
  apply wp_bind. rewrite Hbuf. eapply wp_mono; [apply link_message_table; [done|lia]|]. intros r devs' [-> ->]. rewrite <- Hbuf.
  apply wp_bind, rd32_wp; [lia|lia|]. rewrite F1.
  rewrite align4_id; [|lia|rewrite Hz; pose proof (enc_attrs_mod4 (lk_attrs l)); div_lia].
  replace (zlen (enc_link l) + zlen R - zlen (enc_link l)) with (zlen R) by lia.
  rewrite <- zlen_app. replace buf with ((pre ++ enc_link l) ++ R) by by rewrite Hbuf, <- app_assoc.
  apply IH; [done|lia|lia|fold R; lia|]. intros fuel' Hf'. fold R. rewrite <- !app_assoc. fold R. rewrite <- Hbuf.
  replace (counter + 1 + zlen ls) with (counter + (1 + zlen ls)) by lia.
  replace (devs ++ option_list (dev_of l) ++ omap dev_of ls) with (devs ++ omap dev_of (l :: ls))
    by (cbn [omap list_omap]; by destruct (dev_of l)). by apply HQ.
Qed.

(** A whole datagram of the dump, and the one that ends it. *)
Lemma parse_recv_chunk_links ls fuel devs :
  Forall link_ok ls -> ls <> [] -> zlen ls <= 101 -> (Z.to_nat (zlen (enc_links ls)) < fuel)%nat ->
  wp (parse_recv_chunk calloc ifla_max ifla_info_max (enc_links ls) fuel (zlen (enc_links ls)))
    (fun r devs' => r = 1 /\ devs' = devs ++ omap dev_of ls) devs.
Proof.
  intros Ho Hne Hn Hf. assert (0 < zlen (enc_links ls)) as Hpos.
  { destruct ls as [|l ls]; [done|]. apply Forall_cons in Ho as [Hl _]. change (enc_links (l :: ls)) with (enc_link l ++ enc_links ls).
    rewrite zlen_app, (zlen_enc_link _ Hl). pose proof (zlen_nonneg (enc_links ls)). pose proof (zlen_nonneg (enc_attrs (lk_attrs l))). lia. }
  unfold parse_recv_chunk. rewrite (proj2 (Z.leb_gt (zlen (enc_links ls)) 0)) by done.
  pose proof (chunk_loop_links ls fuel [] [] 0 devs (fun r devs' => r = 1 /\ devs' = devs ++ omap dev_of ls) Ho) as W.
  cbn [app] in W. rewrite app_nil_r in W. apply W; [lia|lia|done|]. intros fuel' Hf'.
  destruct fuel' as [|fuel']; [lia|]. cbn. by apply wp_ret.
Qed.

Lemma parse_recv_chunk_done ls rest fuel devs :
  Forall link_ok ls -> zlen ls <= 100 -> 10 <= zlen rest -> 6 + zlen rest < 2 ^ 32 ->
  (Z.to_nat (zlen (enc_links ls ++ enc_done rest)) < fuel)%nat ->
  wp (parse_recv_chunk calloc ifla_max ifla_info_max (enc_links ls ++ enc_done rest) fuel (zlen (enc_links ls ++ enc_done rest)))
    (fun r devs' => r = 0 /\ devs' = devs ++ omap dev_of ls) devs.
Proof.
  intros Ho Hn Hr1 Hr2 Hf. pose proof (zlen_nonneg (enc_links ls)). pose proof (zlen_nonneg ls).
  assert (zlen (enc_done rest) = 6 + zlen rest) as Hz by (unfold enc_done; rewrite !zlen_app, zlen_le32'; change (zlen (le16 NLMSG_DONE)) with 2; lia).
  unfold parse_recv_chunk. rewrite (proj2 (Z.leb_gt _ 0)) by (rewrite zlen_app; lia).
  pose proof (chunk_loop_links ls fuel [] (enc_done rest) 0 devs (fun r devs' => r = 0 /\ devs' = devs ++ omap dev_of ls) Ho) as W.
  cbn [app] in W. apply W; [lia|lia|done|]. intros fuel' Hf'. destruct fuel' as [|fuel']; [lia|].
  assert (zlen (enc_links ls ++ enc_done rest) = zlen (enc_links ls) + (6 + zlen rest)) as Hb by (rewrite zlen_app; lia).
  assert (v32 (enc_links ls ++ enc_done rest) (zlen (enc_links ls)) = 6 + zlen rest) as F1.
  { pose proof (v32_field [] (6 + zlen rest) (le16 NLMSG_DONE ++ rest) (enc_links ls) [] 0 eq_refl ltac:(lia)) as F.
    rewrite Z.add_0_r in F. cbn [app] in F. by rewrite app_nil_r in F. }
  assert (v16 (enc_links ls ++ enc_done rest) (zlen (enc_links ls) + 4) = NLMSG_DONE) as F2.
  { pose proof (v16_field (le32' (6 + zlen rest)) NLMSG_DONE rest (enc_links ls) [] 4 eq_refl ltac:(done)) as F.
    cbn [app] in F. by rewrite app_nil_r in F. }
  rewrite Hz. cbn [chunk_loop]. apply wp_bind. unfold NLMSG_OK. destruct (Z.leb_spec 16 (6 + zlen rest)); [|lia].
  apply wp_bind, rd32_wp; [lia|lia|]. rewrite F1. apply wp_ret. rewrite (proj2 (Z.leb_le 16 _)), Z.leb_refl by lia. cbn [andb negb].
  destruct (Z.ltb_spec 100 (0 + zlen ls)); [lia|]. apply wp_bind, rd16_wp; [lia|lia|]. rewrite F2. by apply wp_ret.
Qed.

(** The parser stops after 101 messages of a datagram without a trace in its
    value: whatever follows them, the devices of further messages and the end of
    the dump included, is lost. *)
Theorem getlink_chunk_limit ls post fuel devs :
  Forall link_ok ls -> zlen ls = 101 -> (Z.to_nat (zlen (enc_links ls ++ post)) < fuel)%nat -> 0 < zlen (enc_links ls) ->
  parse_recv_chunk calloc ifla_max ifla_info_max (enc_links ls ++ post) fuel (zlen (enc_links ls ++ post)) devs
    = Some (1, devs ++ omap dev_of ls).
Proof.
  intros Ho Hn Hf Hpos. pose proof (zlen_nonneg post).
  cut (wp (parse_recv_chunk calloc ifla_max ifla_info_max (enc_links ls ++ post) fuel (zlen (enc_links ls ++ post)))
    (fun r devs' => r = 1 /\ devs' = devs ++ omap dev_of ls) devs); [by intros (r & s & -> & -> & ->)%wp_run|].
  unfold parse_recv_chunk. rewrite (proj2 (Z.leb_gt _ 0)) by (rewrite zlen_app; lia).
  apply (chunk_loop_links ls fuel [] post 0 devs); [done|done|lia|done|]. intros fuel' Hf'. destruct fuel' as [|fuel']; [lia|].
  rewrite Hn. cbn [app chunk_loop]. apply wp_bind. unfold NLMSG_OK. destruct (Z.leb_spec 16 (zlen post)); [|by apply wp_ret, wp_ret].
  apply wp_bind, rd32_wp; [apply zlen_nonneg|rewrite zlen_app; lia|]. apply wp_ret. destruct (negb _); by apply wp_ret.
Qed.
End chunks.
