(* ===== verification/NetlinkIO.v ===== *)
(** * netlink: the sockets around the parsers

    Models [send_msg], [recv_msg] and [get_netdev] of
    [src/netlink_getlink/libnl_getlink.c] and [send_recv] and [get_arp_cache] of
    [src/netlink_arp_cache/libnlarpcache.c]: which descriptors are open, which
    buffers are allocated and what they hold.  The system calls and the
    allocator are a class of operations on a kernel state; what the functions
    rely on is in the classes of laws below. *)

From S2P Require Import Prelude Netlink.
Import Netlink.

Module NetlinkIO.

(** ** The kernel *)

(** A negative result is a failure.  [k_socket] is told the open descriptors.
    [k_recv fd peek n] is [recvmsg] or [recv]
    with or without [MSG_PEEK | MSG_TRUNC] into [n] bytes: the value it returns
    and the bytes it stores.  [k_alloc] says whether [malloc] or [realloc] of a
    size succeeds, [k_calloc] whether the n-th [calloc] of a chunk does. *)
Class NetKernel (K : Type) := {
  k_socket : gset Z -> K -> Z * K;
  k_fchmod : Z -> K -> Z * K;
  k_getfl : Z -> K -> Z * K;
  k_setfl : Z -> Z -> K -> Z * K;
  k_setsockopt : Z -> K -> Z * K;
  k_send : Z -> list Z -> K -> Z * K;
  k_select : Z -> K -> Z * K;
  k_recv : Z -> bool -> Z -> K -> (Z * list Z) * K;
  k_close : Z -> K -> Z * K;
  k_alloc : Z -> K -> bool * K;
  k_calloc : K -> nat -> bool
}.

(** An allocated buffer: its size and the bytes written so far, from its start. *)
Record buffer := Buf { cap : Z; bytes : list Z }.

(** The kernel, the open descriptors, the allocated buffers, the next address
    and the list of devices. *)
Record nw (K : Type) := NW {
  kern : K; fds : gset Z; bufs : gmap loc buffer; next_buf : loc; devices : list netdev_item
}.
#[global] Arguments NW {K}. #[global] Arguments kern {K}. #[global] Arguments fds {K}.
#[global] Arguments bufs {K}. #[global] Arguments next_buf {K}. #[global] Arguments devices {K}.

Definition FD_SETSIZE : Z := 1024.

Section calls.
Context {K : Type} {NK : NetKernel K}.
(** The last attribute types the kernel headers define. *)
Context (IFLA_MAX IFLA_INFO_MAX : Z).
Abbreviation MN := (M (nw K)).

Definition sys {A} (f : K -> A * K) : MN A :=
  fun s => Some (fst (f (kern s)), NW (snd (f (kern s))) (fds s) (bufs s) (next_buf s) (devices s)).
Definition put_fds (F : gset Z) : MN unit := modify (fun s => NW (kern s) F (bufs s) (next_buf s) (devices s)).
Definition put_bufs (B : gmap loc buffer) (n : loc) : MN unit := modify (fun s => NW (kern s) (fds s) B n (devices s)).

(** A call on a descriptor this process has open. *)
Definition on_fd (sd : Z) : MN unit := F ← gets fds; if bool_decide (sd ∈ F) then mret tt else ub.

Definition socket : MN Z :=
  F ← gets fds; sd ← sys (k_socket F);
  if sd <? 0 then mret sd else put_fds ({[sd]} ∪ F);; mret sd.
Definition close (sd : Z) : MN Z :=
  on_fd sd;; F ← gets fds; put_fds (F ∖ {[sd]});; sys (k_close sd).

(** [FD_SET] writes outside the set for a descriptor of [FD_SETSIZE] or more. *)
Definition FD_SET (sd : Z) : MN unit := if (0 <=? sd) && (sd <? FD_SETSIZE) then mret tt else ub.
Definition select (sd : Z) : MN Z := on_fd sd;; FD_SET sd;; sys (k_select (sd + 1)).

Definition get_buf (p : loc) : MN buffer := B ← gets bufs; of_option (B !! p).
Definition malloc (size : Z) : MN ptr :=
  ok ← sys (k_alloc size);
  if negb ok then mret None
  else
    B ← gets bufs; n ← gets next_buf;
    put_bufs (<[n := Buf size []]> B) (n + 1);; mret (Some n).
(** The block may move; on failure the old one stays. *)
Definition realloc (p : ptr) (size : Z) : MN ptr :=
  match p with None => malloc size | Some p =>
  b ← get_buf p;
  ok ← sys (k_alloc size);
  if negb ok then mret None
  else
    B ← gets bufs; n ← gets next_buf;
    put_bufs (<[n := Buf size (take (Z.to_nat size) (bytes b))]> (delete p B)) (n + 1);; mret (Some n)
  end.
Definition free (p : ptr) : MN unit :=
  match p with
  | None => mret tt
  | Some p => get_buf p;; B ← gets bufs; n ← gets next_buf; put_bufs (delete p B) n
  end.

(** [recvmsg] into [n] bytes at [p]: a store beyond the block is undefined, a
    store at a null pointer fails. *)
Definition recv (sd : Z) (peek : bool) (p : ptr) (n : Z) : MN Z :=
  on_fd sd;;
  match p with
  | None => r ← sys (k_recv sd peek n); mret (if 0 <? zlen (snd r) then -1 else fst r)
  | Some p =>
      b ← get_buf p;
      r ← sys (k_recv sd peek n);
      if cap b <? zlen (snd r) then ub
      else
        B ← gets bufs; nx ← gets next_buf;
        put_bufs (<[p := Buf (cap b) (snd r ++ drop (length (snd r)) (bytes b))]> B) nx;;
        mret (fst r)
  end.

(** ** netlink_getlink *)

Definition IFLA_EXT_MASK : Z := 29.
Definition RTEXT_FILTER_VF : Z := 1.
Definition RTM_GETLINK : Z := 18.
(** [NLM_F_REQUEST | NLM_F_DUMP | NLM_F_ACK] *)
Definition getlink_flags : Z := Z.lor (Z.lor 1 768) 4.
Definition O_NONBLOCK : Z := 2048.

(** The request structure, 288 bytes, before the attribute is added. *)
Definition getlink_req : list Z :=
  le32 (NLMSG_LENGTH sizeof_ifinfomsg) ++ [RTM_GETLINK; 0] ++ [getlink_flags mod 256; getlink_flags / 256]
  ++ le32 1 ++ le32 0 ++ replicate 16 0 ++ replicate 256 0.

Definition send_msg : MN Z :=
  match addattr32 (zlen getlink_req) IFLA_EXT_MASK RTEXT_FILTER_VF getlink_req with
  | None => ub
  | Some (r, req) =>
      if negb (r =? 0) then mret (-1)
      else
        sd ← socket;
        if sd <? 0 then mret (-1)
        else
          sys (k_fchmod sd);;
          flags ← sys (k_getfl sd);
          (if negb (flags =? -1) then sys (k_setfl sd (Z.lor flags O_NONBLOCK)) else mret 0);;
          o ← sys (k_setsockopt sd);
          if o <? 0 then close sd;; mret (-2)
          else
            len ← of_option (fst <$> own_len req);
            status ← sys (k_send sd (take (Z.to_nat len) req));
            if status <? 0 then close sd;; mret (-1) else mret sd
  end.

(** The length received and [*buf], which was [buf0]. *)
Definition recv_msg (sd : Z) (buf0 : ptr) : MN (Z * ptr) :=
  if sd <? 0 then mret (-1, buf0)
  else
    let bufsize := 512 in
    b ← malloc bufsize;
    match b with
    | None => mret (-1, None)
    | Some b =>
        ret ← select sd;
        if ret =? 0 then mret (0, Some b)
        else if ret <? 0 then mret (ret, Some b)
        else
          len ← recv sd true (Some b) bufsize;
          if len <=? 0 then mret (len, Some b)
          else if bufsize <? len then
            newbuf ← realloc (Some b) len;
            match newbuf with
            | None => free (Some b);; mret (-1, None)
            | Some b => len' ← recv sd false (Some b) len; mret (len', Some b)
            end
          else len' ← recv sd false (Some b) bufsize; mret (len', Some b)
    end.

(** The parser on the [len] bytes received in [buf]. *)
Definition parse_chunk (buf : ptr) (len : Z) : MN Z :=
  match buf with
  | None => mret (-1)
  | Some p =>
      b ← get_buf p; k ← gets kern;
      zoom devices (fun d s => NW (kern s) (fds s) (bufs s) (next_buf s) d)
        (parse_recv_chunk (k_calloc k) IFLA_MAX IFLA_INFO_MAX (bytes b) (S (Z.to_nat len)) len)
  end.

Fixpoint get_loop (fuel : nat) (sd : Z) : MN Z :=
  match fuel with
  | O => ub
  | S fuel =>
      r ← recv_msg sd None;
      let '(len, buf) := r in
      if len <=? 0 then
        free buf;; mret (if len =? 0 then 0 else -1)
      else
        ret ← parse_chunk buf len;
        free buf;;
        if ret <=? 0 then mret ret else get_loop fuel sd
  end.

Definition get_netdev (fuel : nat) : MN Z :=
  sd ← send_msg;
  if sd <? 0 then mret (-1)
  else
    ret ← get_loop fuel sd;
    close sd;; mret ret.

(** ** netlink_arp_cache *)

(** The value returned and [*buf], which was [buf0].  [realloc]'s result is
    stored in [*buf] unchecked. *)
Definition send_recv (send_buf : list Z) (buf0 : ptr) : MN (Z * ptr) :=
  sd ← socket;
  if sd <? 0 then mret (-1, buf0)
  else
    sys (k_fchmod sd);;
    o ← sys (k_setsockopt sd);
    if o <? 0 then mret (-2, buf0)
    else
      sys (k_send sd send_buf);;
      buf ← malloc 512;
      ret ← select sd;
      if ret =? 0 then close sd;; mret (ret, buf)
      else if ret <? 0 then close sd;; mret (ret, buf)
      else
        status ← recv sd true buf 512;
        r ← (if 512 <? status then
               buf ← realloc buf status;
               status ← recv sd false buf status;
               mret (status, buf)
             else mret (0, buf));
        close sd;; mret r.

Definition sizeof_ndmsg : Z := 12.
Definition RTM_GETNEIGH : Z := 30.
(** [NLM_F_REQUEST | NLM_F_ROOT] *)
Definition getneigh_flags : Z := Z.lor 1 256.

Definition getneigh_req : list Z :=
  le32 (NLMSG_LENGTH sizeof_ndmsg) ++ [RTM_GETNEIGH; 0] ++ [getneigh_flags mod 256; getneigh_flags / 256]
  ++ le32 0 ++ le32 0 ++ replicate 12 0.

Definition get_arp_cache (buf0 : ptr) : MN (Z * ptr) := send_recv getneigh_req buf0.
End calls.

End NetlinkIO.
