(* ===== verification/NetlinkIOSpec.v ===== *)
(** * netlink: what the transfers promise

    The rules of the socket and buffer operations of the file NetlinkIO, and
    the two theorems on [get_netdev]: on every answer of the system calls it
    ends and releases what it took, and from a kernel that answers with a dump
    it returns the devices of the dump. *)

From S2P Require Import Prelude Netlink NetlinkSafe NetlinkSpec NetlinkEncode NetlinkIO.
Import Netlink NetlinkIO.

(** What the system calls guarantee: a new descriptor is the lowest that is not
    open, so it is below [FD_SETSIZE] while fewer than [FD_SETSIZE] are open, and
    no more bytes are stored than asked for, as many as the result says. *)
Class NetLaws (K : Type) {NK : NetKernel K} : Prop := {
  nl_socket F k : (Z.of_nat (size F) < FD_SETSIZE -> fst (k_socket F k) < FD_SETSIZE) /\ (0 <= fst (k_socket F k) -> fst (k_socket F k) ∉ F);
  nl_recv fd peek n k : let '(r, d) := fst (k_recv fd peek n k) in
    zlen d <= Z.max n 0 /\ (peek = false -> 0 < r -> zlen d = r)
}.

(** The calls that receive nothing do not move the kernel in the preorder [le]. *)
Class NetQuiet (K : Type) {NK : NetKernel K} (le : K -> K -> Prop) : Prop := {
  nq_preorder :: PreOrder le;
  nq_socket F k : le k (snd (k_socket F k));
  nq_fchmod fd k : le k (snd (k_fchmod fd k));
  nq_getfl fd k : le k (snd (k_getfl fd k));
  nq_setfl fd f k : le k (snd (k_setfl fd f k));
  nq_setsockopt fd k : le k (snd (k_setsockopt fd k));
  nq_send fd bs k : le k (snd (k_send fd bs k));
  nq_select n k : le k (snd (k_select n k));
  nq_peek fd n k : le k (snd (k_recv fd true n k));
  nq_close fd k : le k (snd (k_close fd k));
  nq_alloc n k : le k (snd (k_alloc n k))
}.

(** Addresses are handed out in order. *)
Definition addresses_ok {K} (s : nw K) : Prop := forall p, is_Some (bufs s !! p) -> p < next_buf s.

Section laws.
Context {K : Type} {NK : NetKernel K} {L : NetLaws K}.
Implicit Types s : nw K.

(** The descriptors and buffers after a call; the devices are unchanged. *)
Record after s s' (F : gset Z) (B : gmap loc buffer) : Prop := {
  af_fds : fds s' = F; af_bufs : bufs s' = B; af_devices : devices s' = devices s;
  af_next : next_buf s <= next_buf s'
}.

Lemma after_refl s : after s s (fds s) (bufs s).
Proof. by constructor. Qed.

Lemma after_trans s s1 s2 F B : after s s1 (fds s1) (bufs s1) -> after s1 s2 F B -> after s s2 F B.
Proof. intros [A1 A2 A3 A4] [B1 B2 B3 B4]. constructor; [done|done|congruence|lia]. Qed.

Lemma after_self s s' F B : after s s' F B -> after s s' (fds s') (bufs s').
Proof. intros [A1 A2 A3 A4]. by constructor. Qed.

Lemma addresses_after s s' : addresses_ok s -> after s s' (fds s') (bufs s) -> addresses_ok s'.
Proof. intros A [_ B _ N] p Hp. rewrite B in Hp. specialize (A p Hp). lia. Qed.

Lemma net_sys_wp {A} (f : K -> A * K) (Q : A -> nw K -> Prop) s :
  (forall s', after s s' (fds s) (bufs s) -> kern s' = snd (f (kern s)) -> Q (fst (f (kern s))) s') -> wp (sys f) Q s.
Proof. intros HQ. apply HQ; [by constructor|done]. Qed.

Lemma on_fd_wp sd (Q : unit -> nw K -> Prop) s : sd ∈ fds s -> Q tt s -> wp (on_fd sd) Q s.
Proof. intros H HQ. apply wp_bind, wp_gets. by rewrite bool_decide_true. Qed.

Lemma socket_wp (Q : Z -> nw K -> Prop) s :
  let k := k_socket (fds s) (kern s) in
  Z.of_nat (size (fds s)) < FD_SETSIZE ->
  (forall s', fst k < 0 -> after s s' (fds s) (bufs s) -> kern s' = snd k -> Q (fst k) s') ->
  (forall s', 0 <= fst k < FD_SETSIZE -> fst k ∉ fds s -> after s s' ({[fst k]} ∪ fds s) (bufs s) -> kern s' = snd k -> Q (fst k) s') ->
  wp socket Q s.
Proof.
  intros k Hsz H1 H2. apply wp_bind, wp_gets, wp_bind, net_sys_wp. intros s1 A Ek. fold k in Ek |- *.
  destruct (nl_socket (fds s) (kern s)) as [L1 L2]. fold k in L1, L2. destruct (Z.ltb_spec (fst k) 0).
  - by apply wp_ret, H1.
  - specialize (L1 Hsz). apply wp_bind, wp_modify, wp_ret, H2; [lia|exact (L2 ltac:(lia))| |done]. destruct A as [A1 A2 A3 A4]. by constructor.
Qed.

Lemma close_wp sd (Q : Z -> nw K -> Prop) s :
  sd ∈ fds s -> (forall r s', after s s' (fds s ∖ {[sd]}) (bufs s) -> kern s' = snd (k_close sd (kern s)) -> Q r s') -> wp (close sd) Q s.
Proof.
  intros H HQ. apply wp_bind, on_fd_wp; [done|]. apply wp_bind, wp_gets, wp_bind, wp_modify.
  apply net_sys_wp. intros s1 [A1 A2 A3 A4] Ek. apply HQ; [by constructor|done].
Qed.

Lemma select_wp sd (Q : Z -> nw K -> Prop) s :
  sd ∈ fds s -> 0 <= sd < FD_SETSIZE ->
  (forall s', after s s' (fds s) (bufs s) -> kern s' = snd (k_select (sd + 1) (kern s)) -> Q (fst (k_select (sd + 1) (kern s))) s') ->
  wp (select sd) Q s.
Proof.
  intros H Hr HQ. apply wp_bind, on_fd_wp; [done|]. apply wp_bind. unfold FD_SET.
  rewrite (proj2 (Z.leb_le 0 sd)), (proj2 (Z.ltb_lt sd _)) by lia. apply wp_ret, net_sys_wp. intros s' A E. by apply HQ.
Qed.

(** A block at [p], and those of [s]. *)
Definition with_buf s s' (p : loc) (b : buffer) : Prop :=
  bufs s !! p = None /\ p < next_buf s' /\ after s s' (fds s) (<[p := b]> (bufs s)).

Lemma net_malloc_wp size (Q : ptr -> nw K -> Prop) s :
  addresses_ok s ->
  (forall s', after s s' (fds s) (bufs s) -> kern s' = snd (k_alloc size (kern s)) -> fst (k_alloc size (kern s)) = false -> Q None s') ->
  (forall p s', with_buf s s' p (Buf size []) -> kern s' = snd (k_alloc size (kern s)) -> Q (Some p) s') ->
  wp (malloc size) Q s.
Proof.
  intros Ha H1 H2. apply wp_bind, net_sys_wp. intros s1 [A1 A2 A3 A4] Ek.
  destruct (fst (k_alloc size (kern s))) eqn:E; cbn [negb].
  - apply wp_bind, wp_gets, wp_bind, wp_gets, wp_bind, wp_modify, wp_ret, H2; [|done]. split_and!; cbn.
    + apply eq_None_not_Some. intros Hp. specialize (Ha _ Hp). lia.
    + lia.
    + constructor; cbn; [done|by rewrite A2|done|lia].
  - apply wp_ret, H1; [by constructor|done|done].
Qed.

Lemma net_free_wp s s0 p b (Q : unit -> nw K -> Prop) :
  with_buf s0 s p b -> (forall s', after s0 s' (fds s0) (bufs s0) -> kern s' = kern s -> Q tt s') -> wp (free (Some p)) Q s.
Proof.
  intros (H1 & H2 & [A1 A2 A3 A4]) HQ. apply wp_bind, wp_bind, wp_gets. rewrite A2, lookup_insert_eq. apply wp_ret.
  apply wp_bind, wp_gets, wp_bind, wp_gets, wp_modify, HQ; [|done]. rewrite A2, delete_insert_id by done. by constructor.
Qed.

Lemma realloc_wp s s0 p b size (Q : ptr -> nw K -> Prop) :
  addresses_ok s0 -> with_buf s0 s p b ->
  (forall s', with_buf s0 s' p b -> kern s' = snd (k_alloc size (kern s)) -> fst (k_alloc size (kern s)) = false -> Q None s') ->
  (forall q s', with_buf s0 s' q (Buf size (take (Z.to_nat size) (bytes b))) -> kern s' = snd (k_alloc size (kern s)) -> Q (Some q) s') ->
  wp (realloc (Some p) size) Q s.
Proof.
  intros Ha (H1 & H2 & [A1 A2 A3 A4]) Q1 Q2. apply wp_bind, wp_bind, wp_gets. rewrite A2, lookup_insert_eq. apply wp_ret.
  apply wp_bind, net_sys_wp. intros s1 [B1 B2 B3 B4] Ek.
  destruct (fst (k_alloc size (kern s))) eqn:E; cbn [negb].
  - apply wp_bind, wp_gets, wp_bind, wp_gets, wp_bind, wp_modify, wp_ret, Q2; [|done]. split_and!; cbn.
    + apply eq_None_not_Some. intros Hp. specialize (Ha _ Hp). lia.
    + lia.
    + constructor; cbn; [by rewrite B1|by rewrite B2, A2, delete_insert_id|by rewrite B3|lia].
  - apply wp_ret, Q1; [|done|done]. split_and!; [done|lia|]. constructor; [by rewrite B1|by rewrite B2|by rewrite B3|lia].
Qed.

(** The block after [data] is stored at its start. *)
Definition stored (b : buffer) (data : list Z) : buffer := Buf (cap b) (data ++ drop (length data) (bytes b)).

Lemma recv_wp s s0 p b sd peek (Q : Z -> nw K -> Prop) :
  with_buf s0 s p b -> sd ∈ fds s0 -> 0 <= cap b ->
  (forall s', with_buf s0 s' p (stored b (snd (fst (k_recv sd peek (cap b) (kern s))))) ->
     kern s' = snd (k_recv sd peek (cap b) (kern s)) -> Q (fst (fst (k_recv sd peek (cap b) (kern s)))) s') ->
  wp (recv sd peek (Some p) (cap b)) Q s.
Proof.
  intros (H1 & H2 & [A1 A2 A3 A4]) Hsd Hcap HQ. apply wp_bind, on_fd_wp; [by rewrite A1|].
  apply wp_bind, wp_bind, wp_gets. rewrite A2, lookup_insert_eq. apply wp_ret.
  apply wp_bind, net_sys_wp. intros s1 [B1 B2 B3 B4] Ek.
  pose proof (nl_recv sd peek (cap b) (kern s)) as Hr. destruct (fst (k_recv sd peek (cap b) (kern s))) as [r d]. cbn [fst snd] in *.
  destruct (Z.ltb_spec (cap b) (zlen d)); [lia|].
  apply wp_bind, wp_gets, wp_bind, wp_gets, wp_bind, wp_modify, wp_ret, HQ; [|done]. split_and!; [done|cbn; lia|].
  constructor; cbn; [by rewrite B1|by rewrite B2, A2, insert_insert_eq|by rewrite B3|lia].
Qed.
End laws.

(** The effect of calls made one after the other. *)
Ltac chain := repeat match goal with H : after _ _ _ _ |- _ => destruct H end; constructor; [congruence|congruence|congruence|lia].

(** [le] along the calls made so far. *)
Ltac quiet := repeat match goal with
  | H : kern ?s = _ |- ?R _ (kern ?s) => rewrite H; clear H
  | |- _ ?k ?k => reflexivity
  | H : ?R _ ?k |- ?R _ ?k => exact H
  | |- ?R _ (snd (k_close _ _)) => etrans; [|apply nq_close]
  | |- ?R _ (snd (k_send _ _ _)) => etrans; [|apply nq_send]
  | |- ?R _ (snd (k_setsockopt _ _)) => etrans; [|apply nq_setsockopt]
  | |- ?R _ (snd (k_setfl _ _ _)) => etrans; [|apply nq_setfl]
  | |- ?R _ (snd (k_getfl _ _)) => etrans; [|apply nq_getfl]
  | |- ?R _ (snd (k_fchmod _ _)) => etrans; [|apply nq_fchmod]
  | |- ?R _ (snd (k_socket _ _)) => etrans; [|apply nq_socket]
  | |- ?R _ (snd (k_select _ _)) => etrans; [|apply nq_select]
  | |- ?R _ (snd (k_alloc _ _)) => etrans; [|apply nq_alloc]
  | |- ?R _ (snd (k_recv _ true _ _)) => etrans; [|apply nq_peek]
  end.

Section request.
Context {K : Type} {NK : NetKernel K} {L : NetLaws K}.
Implicit Types s : nw K.

(** ** The request *)

(** The bytes sent: header, [ifinfomsg] and the [IFLA_EXT_MASK] attribute. *)
Definition getlink_sent : list Z :=
  [40; 0; 0; 0; 18; 0; 5; 3; 1; 0; 0; 0; 0; 0; 0; 0] ++ replicate 16 0 ++ [8; 0; 29; 0; 1; 0; 0; 0].

(** A call that [send_msg] needs fails. *)
Definition refused s : Prop :=
  (exists k, fst (k_socket (fds s) k) < 0) \/ (exists fd k, fst (k_setsockopt fd k) < 0) \/ (exists fd k, fst (k_send fd getlink_sent k) < 0).

Context {le : K -> K -> Prop} {Hle : NetQuiet K le}.

(** From the socket options on. *)
Lemma send_request_wp sd s0 (Q : Z -> nw K -> Prop) s :
  sd ∉ fds s0 -> 0 <= sd -> after s0 s ({[sd]} ∪ fds s0) (bufs s0) -> le (kern s0) (kern s) ->
  (forall r s', r < 0 -> refused s0 -> after s0 s' (fds s0) (bufs s0) -> le (kern s0) (kern s') -> Q r s') ->
  (forall s', after s0 s' ({[sd]} ∪ fds s0) (bufs s0) -> le (kern s0) (kern s') -> Q sd s') ->
  wp (o ← sys (k_setsockopt sd); if o <? 0 then close sd;; mret (-2) else
      len ← of_option (fst <$> Some (40, getlink_sent ++ replicate 248 0));
      status ← sys (k_send sd (take (Z.to_nat len) (getlink_sent ++ replicate 248 0)));
      if status <? 0 then close sd;; mret (-1) else mret sd) Q s.
Proof.
  intros Hf Hsd A E H1 H2.
  assert (forall s5 r, after s s5 (fds s) (bufs s) -> le (kern s0) (kern s5) -> r < 0 -> refused s0 ->
    wp (close sd;; mret r) Q s5) as Wc.
  { intros s5 r A5 E5 Hn Hrf. assert (fds s5 = {[sd]} ∪ fds s0) as F5 by (destruct A, A5; congruence).
    apply wp_bind, close_wp; [rewrite F5; set_solver +|]. intros r' s6 A6 E6. apply wp_ret, H1; [done|done| |quiet].
    rewrite F5 in A6. replace (({[sd]} ∪ fds s0) ∖ {[sd]}) with (fds s0) in A6 by (clear -Hf; set_solver). chain. }
  apply wp_bind, net_sys_wp. intros s5 A5 E5. destruct (Z.ltb_spec (fst (k_setsockopt sd (kern s))) 0).
  { apply Wc; [done|quiet|lia|]. right. left. eauto. }
  cbn [fmap option_fmap option_map fst]. apply wp_bind, wp_ret.
  change (take (Z.to_nat 40) (getlink_sent ++ replicate 248 0)) with getlink_sent.
  apply wp_bind, net_sys_wp. intros s6 A6 E6. destruct (Z.ltb_spec (fst (k_send sd getlink_sent (kern s5))) 0).
  { apply Wc; [chain|quiet|lia|]. right. right. eauto. }
  apply wp_ret, H2; [chain|quiet].
Qed.

Lemma send_msg_wp (Q : Z -> nw K -> Prop) s :
  Z.of_nat (size (fds s)) < FD_SETSIZE ->
  (forall sd s', sd < 0 -> refused s -> after s s' (fds s) (bufs s) -> le (kern s) (kern s') -> Q sd s') ->
  (forall sd s', 0 <= sd < FD_SETSIZE -> sd ∉ fds s -> after s s' ({[sd]} ∪ fds s) (bufs s) -> le (kern s) (kern s') -> Q sd s') ->
  wp send_msg Q s.
Proof.
  intros Hsz H1 H2. unfold send_msg.
  assert (addattr32 (zlen getlink_req) IFLA_EXT_MASK RTEXT_FILTER_VF getlink_req = Some (0, getlink_sent ++ replicate 248 0)) as ->
    by (vm_compute; reflexivity). cbn [Z.eqb negb].
  assert (own_len (getlink_sent ++ replicate 248 0) = Some (40, getlink_sent ++ replicate 248 0)) as -> by (vm_compute; reflexivity).
  apply wp_bind, socket_wp; cbv zeta; [done| |].
  { intros s1 Hn A Ek. rewrite (proj2 (Z.ltb_lt _ 0) Hn). apply wp_ret, H1; [done| |done|quiet]. left. eauto. }
  intros s1 Hr Hf A Ek. set (sd := fst (k_socket (fds s) (kern s))) in *. rewrite (proj2 (Z.ltb_ge sd 0)) by lia.
  apply wp_bind, net_sys_wp. intros s2 A2 E2. apply wp_bind, net_sys_wp. intros s3 A3 E3. apply wp_bind.
  assert (forall s4, after s3 s4 (fds s3) (bufs s3) -> le (kern s) (kern s4) -> after s s4 ({[sd]} ∪ fds s) (bufs s)) as X.
  { intros s4 A4 _. chain. }
  destruct (negb _).
  - apply net_sys_wp. intros s4 A4 E4. apply (send_request_wp sd s); [done|lia|chain|quiet|done|]. intros s' A' E'. by apply H2.
  - apply wp_ret, (send_request_wp sd s); [done|lia|chain|quiet|done|]. intros s' A' E'. by apply H2.
Qed.

End request.

(** ** Every answer of the kernel *)

Definition fewer {K} (pending : K -> nat) (k k' : K) : Prop := (pending k' <= pending k)%nat.

(** The datagrams to come are finitely many: each one received is one less. *)
Class NetFinite (K : Type) {NK : NetKernel K} (pending : K -> nat) : Prop := {
  nf_quiet :: NetQuiet K (fewer pending);
  nf_recv fd n k : (pending (snd (k_recv fd false n k)) <= pending k)%nat;
  nf_take fd n k : 0 < fst (fst (k_recv fd false n k)) -> (pending (snd (k_recv fd false n k)) < pending k)%nat
}.

Section safe.
Context {K : Type} {NK : NetKernel K} {L : NetLaws K} (pending : K -> nat) {F : NetFinite K pending}.
Implicit Types s : nw K.
(** What [recv_msg] leaves: a null pointer, or a new block that holds the bytes
    it counts. *)
Definition received s (r : Z * ptr) s' : Prop :=
  match snd r with
  | None => fst r < 0 /\ after s s' (fds s) (bufs s)
  | Some p => exists b, with_buf s s' p b /\ fst r <= zlen (bytes b)
  end /\ (0 < fst r -> (pending (kern s') < pending (kern s))%nat).

Lemma recv_taken s0 sd p b n s (Q : Z * ptr -> nw K -> Prop) :
  with_buf s0 s p b -> sd ∈ fds s0 -> n = cap b -> 0 <= n -> fewer pending (kern s0) (kern s) ->
  (forall len s', received s0 (len, Some p) s' -> Q (len, Some p) s') ->
  wp (len ← recv sd false (Some p) n; mret (len, Some p)) Q s.
Proof.
  intros W Hsd -> Hc Hp HQ. apply wp_bind. eapply recv_wp; [done|done|done|]. intros s' W' E'. apply wp_ret, HQ.
  pose proof (nl_recv sd false (cap b) (kern s)) as Hr. pose proof (nf_take sd (cap b) (kern s)) as Ht.
  destruct (fst (k_recv sd false (cap b) (kern s))) as [r d] eqn:E. destruct Hr as [_ Hr]. cbn [fst snd] in *.
  split; cbn [fst snd].
  - eexists. split; [done|]. cbn [bytes stored]. rewrite zlen_app. pose proof (zlen_nonneg d). pose proof (zlen_nonneg (drop (length d) (bytes b))).
    destruct (Z.ltb_spec 0 r); [rewrite Hr by done; lia|lia].
  - intros Hpos. rewrite E' in *. specialize (Ht Hpos). unfold fewer in Hp. lia.
Qed.

Lemma with_buf_after s0 s s' p b : with_buf s0 s p b -> after s s' (fds s) (bufs s) -> with_buf s0 s' p b.
Proof. intros (H1 & H2 & [A1 A2 A3 A4]) [B1 B2 B3 B4]. split_and!; [done|lia|]. constructor; [congruence|congruence|congruence|lia]. Qed.

Lemma recv_msg_wp sd s (Q : Z * ptr -> nw K -> Prop) :
  addresses_ok s -> sd ∈ fds s -> 0 <= sd < FD_SETSIZE -> (forall r s', received s r s' -> Q r s') -> wp (recv_msg sd None) Q s.
Proof.
  intros Ha Hsd Hr HQ. unfold recv_msg. rewrite (proj2 (Z.ltb_ge sd 0)) by lia. apply wp_bind, net_malloc_wp; [done| |].
  { intros s' A E _. apply wp_ret, HQ. split; [by split|cbn; lia]. }
  intros p s1 W1 E1. pose proof W1 as (_ & _ & A1).
  apply wp_bind, select_wp; [by rewrite (af_fds _ _ _ _ A1)|done|]. intros s2 A2 E2.
  pose proof (with_buf_after _ _ _ _ _ W1 A2) as W2. set (ret := fst (k_select (sd + 1) (kern s1))) in *.
  assert (forall len s3 b, len <= 0 -> with_buf s s3 p b -> Q (len, Some p) s3) as Qnone.
  { intros len s3 b Hl W. apply HQ. split; cbn [fst snd]; [|lia]. exists b. split; [done|]. pose proof (zlen_nonneg (bytes b)). lia. }
  destruct (Z.eqb_spec ret 0); [by eapply wp_ret, Qnone|]. destruct (Z.ltb_spec ret 0); [eapply wp_ret, Qnone; [lia|done]|].
  apply wp_bind, (recv_wp s2 s p (Buf 512 [])); [done|done|done|]. cbn [cap]. intros s3 W3 E3.
  set (len := fst (fst (k_recv sd true 512 (kern s2)))). destruct (Z.leb_spec len 0); [eapply wp_ret, Qnone; [done|exact W3]|].
  assert (fewer pending (kern s) (kern s3)) as P3 by quiet.
  destruct (Z.ltb_spec 512 len).
  - apply wp_bind. eapply realloc_wp; [done|exact W3| |].
    + intros s4 W4 E4 _. apply wp_bind. eapply net_free_wp; [exact W4|]. intros s5 A5 E5. apply wp_ret, HQ. split; [by split|cbn; lia].
    + intros q s4 W4 E4.
      eapply recv_taken; [exact W4|done|done|lia|quiet|intros ???; by apply HQ].
  - eapply recv_taken; [exact W3|done|done|done|quiet|intros ???; by apply HQ].
Qed.

Context (IFLA_MAX IFLA_INFO_MAX : Z) (Hmax : 18 <= IFLA_MAX) (Hinfo : 1 <= IFLA_INFO_MAX).

(** The devices added; the descriptors and buffers are those of [s]. *)
Definition released s s' : Prop :=
  fds s' = fds s /\ bufs s' = bufs s /\ next_buf s <= next_buf s' /\
  exists new, devices s' = devices s ++ new /\ Forall dev_ok new.

Lemma get_loop_wp fuel sd s :
  addresses_ok s -> sd ∈ fds s -> 0 <= sd < FD_SETSIZE -> (pending (kern s) < fuel)%nat ->
  wp (get_loop IFLA_MAX IFLA_INFO_MAX fuel sd) (fun r s' => (r = 0 \/ r = -1 \/ r = - EINVAL) /\ released s s') s.
Proof.
  revert s. induction fuel as [|fuel IH]; intros s Ha Hsd Hr Hf; [lia|]. cbn [get_loop].
  apply wp_bind, recv_msg_wp; [done|done|done|]. intros [len [p|]] s1 [R1 R2]; cbn [fst snd] in *.
  2: { destruct R1 as [Hn [A1 A2 A3 A4]]. destruct (Z.leb_spec len 0); [|lia]. apply wp_bind, wp_ret, wp_ret.
       split; [destruct (len =? 0); auto|]. split_and!; [done|done|lia|]. exists []. by rewrite app_nil_r. }
  destruct R1 as (b & W & Hb). destruct (Z.leb_spec len 0).
  { apply wp_bind. eapply net_free_wp; [done|]. intros s2 [A1 A2 A3 A4] _. apply wp_ret. split; [destruct (len =? 0); auto|].
    split_and!; [done|done|lia|]. exists []. by rewrite app_nil_r. }
  destruct W as (W1 & W2 & [B1 B2 B3 B4]). apply wp_bind. unfold parse_chunk.
  apply wp_bind, wp_bind, wp_gets. rewrite B2, lookup_insert_eq. apply wp_ret, wp_bind, wp_gets, wp_zoom.
  destruct (parse_recv_chunk_safe (k_calloc (kern s1)) IFLA_MAX IFLA_INFO_MAX (bytes b) len (S (Z.to_nat len)) (devices s1))
    as (r & new & Er & Hret & Hnew); [done|done|done|lia|]. eapply wp_intro; [exact Er|]. clear Er.
  set (s2 := NW (kern s1) (fds s1) (bufs s1) (next_buf s1) (devices s1 ++ new)).
  apply wp_bind, wp_bind, wp_bind, wp_gets. cbn [bufs s2]. rewrite B2, lookup_insert_eq. apply wp_ret.
  apply wp_bind, wp_gets, wp_bind, wp_gets, wp_modify. cbn [kern fds bufs next_buf devices s2]. rewrite B2, delete_insert_id by done.
  set (s3 := NW (kern s1) (fds s1) (bufs s) (next_buf s1) (devices s1 ++ new)).
  assert (released s s3) as R3.
  { split_and!; [done|done|done|]. exists new. cbn. by rewrite B3. }
  destruct (Z.leb_spec r 0); [apply wp_ret; split; [|done]; lia|].
  eapply wp_mono; [apply IH|].
  - intros q Hq. specialize (Ha q Hq). cbn. lia.
  - cbn. by rewrite B1.
  - done.
  - cbn. specialize (R2 ltac:(lia)). lia.
  - intros r' s4 [Hr' (C1 & C2 & C3 & new' & C4 & C5)]. split; [done|]. destruct R3 as (D1 & D2 & D3 & new3 & D4 & D5).
    split_and!; [congruence|congruence|lia|]. exists (new3 ++ new'). rewrite C4, D4, app_assoc. split; [done|]. by apply Forall_app.
Qed.
End safe.

(** C34: in a process with fewer than 1024 open descriptors, whatever the system
    calls and the allocator answer, if finitely many datagrams are to come,
    [get_netdev] ends, with no more rounds than there are datagrams, without
    undefined behaviour; it returns 0, -1 or -EINVAL, has closed its socket and freed every buffer,
    and has only appended devices whose fields have their sizes to the list. *)
Theorem get_netdev_safe {K} {NK : NetKernel K} {L : NetLaws K} pending {F : NetFinite K pending} ifla_max ifla_info_max fuel (s : nw K) :
  18 <= ifla_max -> 1 <= ifla_info_max -> addresses_ok s -> Z.of_nat (size (fds s)) < FD_SETSIZE -> (pending (kern s) < fuel)%nat ->
  exists r s', get_netdev ifla_max ifla_info_max fuel s = Some (r, s') /\
    (r = 0 \/ r = -1 \/ r = - EINVAL) /\ fds s' = fds s /\ bufs s' = bufs s /\
    exists new, devices s' = devices s ++ new /\ Forall dev_ok new.
Proof.
  intros H1 H2 Ha Hsz Hf.
  assert (wp (get_netdev ifla_max ifla_info_max fuel) (fun r s' => (r = 0 \/ r = -1 \/ r = - EINVAL) /\ released s s') s) as W.
  { apply wp_bind, (send_msg_wp (Hle := nf_quiet)); [done| |].
    - intros sd s1 Hn _ [A1 A2 A3 A4] _. rewrite (proj2 (Z.ltb_lt sd 0) Hn). apply wp_ret. split; [auto|].
      split_and!; [done|done|done|]. exists []. by rewrite app_nil_r.
    - intros sd s1 Hr Hn A Hp. rewrite (proj2 (Z.ltb_ge sd 0)) by lia. apply wp_bind.
      assert (addresses_ok s1) as Ha1 by (destruct A as [A1 A2 A3 A4]; intros q; rewrite A2; intros Hq; specialize (Ha q Hq); lia).
      destruct A as [A1 A2 A3 A4].
      eapply wp_mono; [apply (get_loop_wp pending); [done|done|done|rewrite A1; set_solver +|done|unfold fewer in Hp; lia]|].
      intros r s2 [Hret (B1 & B2 & B3 & new & B4 & B5)]. apply wp_bind, close_wp; [rewrite B1, A1; set_solver +|].
      intros r' s3 [C1 C2 C3 C4] _. apply wp_ret. split; [done|]. split_and!; [|congruence|lia|].
      + rewrite C1, B1, A1. clear -Hn. set_solver.
      + exists new. by rewrite C3, B4, A3. }
  destruct (wp_run _ _ _ W) as (r & s' & E & Hret & R1 & R2 & _ & R4). eauto 10.
Qed.

(** ** A dump from end to end *)

Definition same_queue {K} (queue : K -> list (list Z)) (k k' : K) : Prop := queue k' = queue k.

(** The queue after calls that receive nothing, from that before. *)
Ltac keeps H := rewrite <- H;
  match goal with |- ?f (kern ?a) = ?f (kern ?b) => change (same_queue f (kern b) (kern a)) end; quiet.

(** A kernel that grants every request and delivers the datagrams [queue]. *)
Class NetDump (K : Type) {NK : NetKernel K} (queue : K -> list (list Z)) : Prop := {
  nd_quiet :: NetQuiet K (same_queue queue);
  nd_socket F k : Z.of_nat (size F) < FD_SETSIZE -> 0 <= fst (k_socket F k);
  nd_setsockopt fd k : 0 <= fst (k_setsockopt fd k);
  nd_send fd bs k : 0 <= fst (k_send fd bs k);
  nd_select n k : queue k <> [] -> 0 < fst (k_select n k);
  nd_peek fd n k d q : queue k = d :: q -> fst (k_recv fd true n k) = (zlen d, take (Z.to_nat n) d);
  nd_recv fd n k d q : queue k = d :: q -> zlen d <= n -> fst (k_recv fd false n k) = (zlen d, d) /\ queue (snd (k_recv fd false n k)) = q;
  nd_alloc n k : fst (k_alloc n k) = true;
  nd_calloc k n : k_calloc k n = true
}.

Section dump.
Context {K : Type} {NK : NetKernel K} {L : NetLaws K} (queue : K -> list (list Z)) {D : NetDump K queue}.
Implicit Types s : nw K.

(** The whole next datagram is received, into a block large enough. *)
Definition got s (r : Z * ptr) s' (d : list Z) (q : list (list Z)) : Prop :=
  exists p b, r = (zlen d, Some p) /\ with_buf s s' p b /\ bytes b = d /\ queue (kern s') = q.

Lemma recv_whole_wp s0 sd p b n s d q (Q : Z * ptr -> nw K -> Prop) :
  with_buf s0 s p b -> sd ∈ fds s0 -> n = cap b -> zlen d <= n -> queue (kern s) = d :: q -> bytes b = take 512 d ->
  (forall r s', got s0 r s' d q -> Q r s') ->
  wp (len ← recv sd false (Some p) n; mret (len, Some p)) Q s.
Proof.
  intros W Hsd -> Hn Hq Hb HQ. pose proof (zlen_nonneg d). apply wp_bind. eapply recv_wp; [exact W|exact Hsd|lia|].
  destruct (nd_recv sd (cap b) (kern s) d q Hq Hn) as [E1 E2]. rewrite E1. cbn [fst snd]. intros s' W' E'.
  apply wp_ret, HQ. exists p, (stored b d). split_and!; [done|exact W'| |by rewrite E'].
  cbn. rewrite Hb, drop_ge, app_nil_r; [done|]. rewrite length_take. lia.
Qed.

Lemma recv_msg_dump sd s d q (Q : Z * ptr -> nw K -> Prop) :
  addresses_ok s -> sd ∈ fds s -> 0 <= sd < FD_SETSIZE -> queue (kern s) = d :: q -> 0 < zlen d ->
  (forall r s', got s r s' d q -> Q r s') -> wp (recv_msg sd None) Q s.
Proof.
  intros Ha Hsd Hr Hq Hd HQ. unfold recv_msg. rewrite (proj2 (Z.ltb_ge sd 0)) by lia. apply wp_bind, net_malloc_wp; [done| |].
  { intros s' _ _ E. rewrite nd_alloc in E. done. }
  intros p s1 W1 E1. pose proof W1 as (_ & _ & A1). assert (queue (kern s1) = d :: q) as Q1 by keeps Hq.
  apply wp_bind, select_wp; [by rewrite (af_fds _ _ _ _ A1)|done|]. intros s2 A2 E2.
  pose proof (nd_select (sd + 1) (kern s1) ltac:(by rewrite Q1)) as Hsel.
  assert (queue (kern s2) = d :: q) as Q2 by keeps Q1.
  rewrite (proj2 (Z.eqb_neq _ 0)), (proj2 (Z.ltb_ge _ 0)) by lia.
  pose proof (with_buf_after _ _ _ _ _ W1 A2) as W2. apply wp_bind, (recv_wp s2 s p (Buf 512 [])); [exact W2|done|done|].
  cbn [cap]. rewrite (nd_peek sd 512 (kern s2) d q Q2). cbn [fst snd]. intros s3 W3 E3.
  assert (queue (kern s3) = d :: q) as Q3 by keeps Q2.
  change (Z.to_nat 512) with 512%nat in W3.
  assert (bytes (stored (Buf 512 []) (take 512 d)) = take 512 d) as Hb by (cbn; by rewrite drop_nil, app_nil_r).
  destruct (Z.leb_spec (zlen d) 0); [lia|]. destruct (Z.ltb_spec 512 (zlen d)).
  - apply wp_bind. eapply realloc_wp; [done|exact W3| |].
    { intros s' _ _ E. rewrite nd_alloc in E. done. }
    rewrite Hb. intros p2 s4 W4 E4. eapply (recv_whole_wp _ _ _ _ _ _ d q); [exact W4|done|done|lia| | |done].
    + keeps Q3.
    + cbn. rewrite take_take. f_equal. unfold zlen in *. lia.
  - eapply (recv_whole_wp _ _ _ _ _ _ d q); [exact W3|done|done|lia|done|exact Hb|done].
Qed.

Context (ifla_max ifla_info_max : Z) (Hmax : 18 <= ifla_max) (Hinfo : 1 <= ifla_info_max).

(** A datagram with link messages, not the last. *)
Definition chunk_ok (ls : list link) : Prop := Forall link_ok ls /\ ls <> [] /\ zlen ls <= 101.
Record last_ok (ls : list link) (rest : list Z) : Prop := {
  la_links : Forall link_ok ls; la_count : zlen ls <= 100; la_rest : 10 <= zlen rest; la_len : 6 + zlen rest < 2 ^ 32
}.
Definition enc_dump (chunks : list (list link)) (final : list link) (rest : list Z) : list (list Z) :=
  (enc_links <$> chunks) ++ [enc_links final ++ enc_done rest].

(** The parser on a block, and its release. *)
Lemma parse_free_wp s0 s p b d r new (Q : Z -> nw K -> Prop) :
  with_buf s0 s p b -> bytes b = d ->
  wp (parse_recv_chunk (k_calloc (kern s)) ifla_max ifla_info_max d (S (Z.to_nat (zlen d))) (zlen d))
    (fun r' devs' => r' = r /\ devs' = devices s ++ new) (devices s) ->
  (forall s', fds s' = fds s0 -> bufs s' = bufs s0 -> next_buf s0 <= next_buf s' -> devices s' = devices s0 ++ new -> kern s' = kern s -> Q r s') ->
  wp (ret ← parse_chunk ifla_max ifla_info_max (Some p) (zlen d); free (Some p);; mret ret) Q s.
Proof.
  intros (W1 & W2 & [B1 B2 B3 B4]) Hb Hp HQ. apply wp_bind. unfold parse_chunk.
  apply wp_bind, wp_bind, wp_gets. rewrite B2, lookup_insert_eq. apply wp_ret, wp_bind, wp_gets, wp_zoom. rewrite Hb.
  eapply wp_mono; [exact Hp|]. intros r' devs' [-> ->]. cbn beta.
  apply wp_bind, wp_bind, wp_bind, wp_gets. cbn [bufs]. rewrite B2, lookup_insert_eq. apply wp_ret.
  apply wp_bind, wp_gets, wp_bind, wp_gets, wp_modify.
  cbn [kern fds bufs next_buf devices]. rewrite delete_insert_id by done.
  apply wp_ret, HQ; cbn; [done|done|lia|by rewrite B3|done].
Qed.

Lemma wp_free_ret s p (k : Z -> M (nw K) Z) (m : M (nw K) Z) (Q : Z -> nw K -> Prop) :
  wp (ret ← m; free p;; mret ret) (fun r s' => wp (k r) Q s') s -> wp (ret ← m; free p;; k ret) Q s.
Proof.
  unfold wp, mbind, M_bind. destruct (m s) as [[r s1]|]; [|done]. by destruct (free p s1) as [[[] s2]|].
Qed.

Lemma get_loop_dump chunks final rest q fuel sd s :
  Forall chunk_ok chunks -> last_ok final rest -> addresses_ok s -> sd ∈ fds s -> 0 <= sd < FD_SETSIZE ->
  queue (kern s) = enc_dump chunks final rest ++ q -> (length chunks < fuel)%nat ->
  wp (get_loop ifla_max ifla_info_max fuel sd) (fun r s' => r = 0 /\ fds s' = fds s /\ bufs s' = bufs s /\
    devices s' = devices s ++ omap dev_of (concat chunks ++ final) /\ queue (kern s') = q) s.
Proof.
  intros Hc Hl. revert fuel s. induction chunks as [|c chunks IH]; intros fuel s Ha Hsd Hr Hq Hf;
    (destruct fuel as [|fuel]; [cbn in Hf; lia|]); cbn [get_loop].
  - destruct Hl as [L1 L2 L3 L4]. set (d := enc_links final ++ enc_done rest) in *.
    assert (0 < zlen d) as Hd.
    { unfold d, enc_done. rewrite !zlen_app, zlen_le32'. pose proof (zlen_nonneg (enc_links final)). change (zlen (le16 NLMSG_DONE)) with 2. lia. }
    apply wp_bind. eapply recv_msg_dump; [done|done|done|exact Hq|done|]. intros r s1 (p & b & -> & W & Hb & Hk). fold d in Hb |- *. cbv beta iota.
    destruct (Z.leb_spec (zlen d) 0); [lia|]. apply wp_free_ret. eapply parse_free_wp; [exact W|exact Hb| |].
    + apply parse_recv_chunk_done; [intros; apply nd_calloc|done|done|done|done|done|done|unfold d; lia].
    + intros s' E1 E2 E3 E4 E5. cbn [Z.leb Z.compare]. apply wp_ret. split_and!; [done|done|done|exact E4|by rewrite E5].
  - apply Forall_cons in Hc as [(C1 & C2 & C3) Hc]. specialize (IH Hc). cbn [enc_dump fmap list_fmap app] in Hq.
    assert (0 < zlen (enc_links c)) as Hd.
    { destruct c as [|l c]; [done|]. apply Forall_cons in C1 as [Cl _]. change (enc_links (l :: c)) with (enc_link l ++ enc_links c).
      rewrite zlen_app, (zlen_enc_link _ Cl). pose proof (zlen_nonneg (enc_links c)). pose proof (zlen_nonneg (enc_attrs (lk_attrs l))). lia. }
    apply wp_bind. eapply recv_msg_dump; [done|done|done|exact Hq|done|]. intros r s1 (p & b & -> & W & Hb & Hk). cbv beta iota.
    destruct (Z.leb_spec (zlen (enc_links c)) 0); [lia|]. apply wp_free_ret. eapply parse_free_wp; [exact W|exact Hb| |].
    + apply parse_recv_chunk_links; [intros; apply nd_calloc|done|done|done|done|done|lia].
    + intros s' E1 E2 E3 E4 E5. cbn [Z.leb Z.compare]. eapply wp_mono; [apply IH|].
      * intros x Hx. rewrite E2 in Hx. specialize (Ha x Hx). lia.
      * by rewrite E1.
      * done.
      * rewrite E5, Hk. done.
      * cbn in Hf. lia.
      * intros r s2 (-> & F1 & F2 & F3 & F4). split_and!; [done|congruence|congruence| |done].
        rewrite F3, E4. cbn [concat]. by rewrite <- (app_assoc c), (omap_app dev_of c), app_assoc.
Qed.
End dump.

(** C33: from a kernel that answers with a dump, [get_netdev] returns 0 and
    appends, in order, exactly the device of each Ethernet link message with a
    name and an address, its index, master, link, kind and bridge flag read from
    the attributes; the datagrams of the dump are taken, the socket is closed
    and the buffers are freed. *)
Theorem get_netdev_dump {K} {NK : NetKernel K} {L : NetLaws K} queue {D : NetDump K queue} ifla_max ifla_info_max
    chunks final rest q fuel (s : nw K) :
  18 <= ifla_max -> 1 <= ifla_info_max -> addresses_ok s -> Z.of_nat (size (fds s)) < FD_SETSIZE -> Forall chunk_ok chunks -> last_ok final rest ->
  queue (kern s) = enc_dump chunks final rest ++ q -> (length chunks < fuel)%nat ->
  exists s', get_netdev ifla_max ifla_info_max fuel s = Some (0, s') /\
    devices s' = devices s ++ omap dev_of (concat chunks ++ final) /\
    fds s' = fds s /\ bufs s' = bufs s /\ queue (kern s') = q.
Proof.
  intros H1 H2 Ha Hsz Hc Hl Hq Hf.
  assert (wp (get_netdev ifla_max ifla_info_max fuel) (fun r s' => r = 0 /\ devices s' = devices s ++ omap dev_of (concat chunks ++ final) /\
    fds s' = fds s /\ bufs s' = bufs s /\ queue (kern s') = q) s) as W.
  { apply wp_bind, (send_msg_wp (Hle := nd_quiet)); [done| |].
    - intros sd s1 _ [(k & Hn)|[(fd & k & Hn)|(fd & k & Hn)]] _ _.
      + pose proof (nd_socket (fds s) k Hsz). lia.
      + pose proof (nd_setsockopt fd k). lia.
      + pose proof (nd_send fd getlink_sent k). lia.
    - intros sd s1 Hr Hn [A1 A2 A3 A4] Hk. rewrite (proj2 (Z.ltb_ge sd 0)) by lia. apply wp_bind.
      eapply wp_mono; [eapply (get_loop_dump queue _ _ H1 H2 chunks final rest q); [done|done| | |done| |done]|].
      + intros x Hx. rewrite A2 in Hx. specialize (Ha x Hx). lia.
      + rewrite A1. set_solver +.
      + by rewrite Hk.
      + intros r s2 (-> & B1 & B2 & B3 & B4). apply wp_bind, close_wp; [rewrite B1, A1; set_solver +|].
        intros r' s3 [C1 C2 C3 C4] E3. apply wp_ret. split_and!; [done|congruence| |congruence|].
        * rewrite C1, B1, A1. clear -Hn. set_solver.
        * keeps B4. }
  destruct (wp_run _ _ _ W) as (r & s' & E & -> & P). eauto.
Qed.

(** ** A concrete kernel *)

Module Loopback.

(** The first descriptor that is not open. *)
Definition free_fd (F : gset Z) : Z :=
  default (-1) (List.find (fun i => negb (bool_decide (i ∈ F))) (seqZ 0 FD_SETSIZE)).

(** The datagrams queued; [opt] is the answer of [setsockopt], [mem] that of
    the allocator. *)
Definition loopback (opt : Z) (mem : bool) : NetKernel (list (list Z)) := {|
  k_socket F q := (free_fd F, q); k_fchmod _ q := (0, q); k_getfl _ q := (2, q); k_setfl _ _ q := (0, q);
  k_setsockopt _ q := (opt, q); k_send _ bs q := (zlen bs, q); k_select _ q := (if q is [] then 0 else 1, q);
  k_recv _ peek n q :=
    match q with
    | [] => ((-1, []), q)
    | d :: r => let d' := take (Z.to_nat n) d in if peek : bool then ((zlen d, d'), q) else ((zlen d', d'), r)
    end;
  k_close _ q := (0, q); k_alloc _ q := (mem, q); k_calloc _ _ := mem
|}.

#[export] Instance granted : NetKernel (list (list Z)) := loopback 0 true.

Lemma free_fd_ok F : free_fd F < FD_SETSIZE /\ (0 <= free_fd F -> free_fd F ∉ F).
Proof.
  unfold free_fd. destruct (List.find _ _) as [i|] eqn:E; cbv [default from_option id].
  - apply List.find_some in E as [E1%list_elem_of_In%elem_of_seqZ E2]. split; [unfold FD_SETSIZE in *; lia|]. intros _. by case_bool_decide.
  - split; [done|]. lia.
Qed.

Lemma free_fd_found F : Z.of_nat (size F) < FD_SETSIZE -> 0 <= free_fd F.
Proof.
  intros H. unfold free_fd. destruct (List.find _ _) as [i|] eqn:E; cbv [default from_option id].
  - apply List.find_some in E as [E1%list_elem_of_In%elem_of_seqZ _]. lia.
  - exfalso. assert (list_to_set (seqZ 0 FD_SETSIZE) ⊆ F) as Hs.
    { intros i Hi%elem_of_list_to_set. pose proof (List.find_none _ _ E i ltac:(by apply list_elem_of_In)) as X. cbv beta in X. by case_bool_decide. }
    apply subseteq_size in Hs. rewrite size_list_to_set in Hs by apply NoDup_seqZ. rewrite length_seqZ in Hs. lia.
Qed.

#[export] Instance loopback_laws opt mem : @NetLaws _ (loopback opt mem).
Proof.
  constructor.
  - intros F k. destruct (free_fd_ok F). by split.
  - intros fd peek n [|d r]; cbn.
    + split; [unfold zlen; cbn; lia|]. lia.
    + assert (zlen (take (Z.to_nat n) d) <= Z.max n 0) by (unfold zlen; rewrite length_take; lia). by destruct peek.
Qed.

#[export] Instance granted_quiet (R : list (list Z) -> list (list Z) -> Prop) : PreOrder R -> NetQuiet (list (list Z)) R.
Proof. intros P. constructor; try done; intros fd n []; reflexivity. Qed.

#[export] Instance fewer_preorder (A : Type) (m : A -> nat) : PreOrder (fewer m).
Proof. unfold fewer. constructor; [intros ?; lia|intros ???; lia]. Qed.

#[export] Instance same_queue_preorder (A : Type) (m : A -> list (list Z)) : PreOrder (same_queue m).
Proof. unfold same_queue. constructor; [done|intros ??? H1 H2; congruence]. Qed.

#[export] Instance granted_finite : NetFinite (list (list Z)) length.
Proof. constructor; [apply _|intros fd n []; cbn; lia|intros fd n []; cbn; lia]. Qed.

#[export] Instance granted_dump : NetDump (list (list Z)) (fun q => q).
Proof.
  constructor; try done.
  - apply _.
  - intros F k. apply free_fd_found.
  - intros fd bs k. apply zlen_nonneg.
  - by intros n [].
  - intros fd n k d q ->. done.
  - intros fd n k d q -> Hn. cbn. rewrite take_ge by (unfold zlen in *; lia). done.
Qed.

(** A bridge port, its bridge and the loopback interface, in two datagrams. *)
Definition port : link :=
  Link 16 (replicate 10 0) [0; 0] ARPHRD_ETHER 7 (replicate 8 0) [(IFLA_IFNAME, eth0); (IFLA_ADDRESS, mac); (IFLA_MASTER, le32 4)] None.
Definition br : link :=
  Link 16 (replicate 10 0) [0; 0] ARPHRD_ETHER 4 (replicate 8 0)
    [(IFLA_IFNAME, [98; 114; 0]); (IFLA_ADDRESS, mac); (IFLA_LINKINFO, enc_attrs [(IFLA_INFO_KIND, bridge ++ [0])])]
    (Some [(IFLA_INFO_KIND, bridge ++ [0])]).
Definition lo : link := Link 16 (replicate 10 0) [0; 0] 772 1 (replicate 8 0) [(IFLA_IFNAME, [108; 111; 0])] None.

Definition start (q : list (list Z)) : nw (list (list Z)) := NW q {[0; 1; 2]} ∅ 100 [].

Lemma start_ok q : addresses_ok (start q).
Proof. intros p [b H]. done. Qed.

Lemma get_netdev_dump_witness :
  exists s', get_netdev 64 5 9 (start (enc_dump [[lo; port]] [br] (replicate 10 0) ++ [[1; 2]])) = Some (0, s') /\
    devices s' = [] ++ omap dev_of (concat [[lo; port]] ++ [br]) /\ fds s' = {[0; 1; 2]} /\ bufs s' = ∅ /\ kern s' = [[1; 2]].
Proof.
  apply (get_netdev_dump (fun q => q) 64 5 [[lo; port]] [br] (replicate 10 0) [[1; 2]] 9 (start (enc_dump [[lo; port]] [br] (replicate 10 0) ++ [[1; 2]]))).
  - lia.
  - lia.
  - apply start_ok.
  - vm_compute. reflexivity.
  - repeat constructor; try (vm_compute; done); try lia; intros i H; vm_compute in H; done.
  - repeat constructor; try (vm_compute; done); try lia. intros i [= <-]. repeat constructor; vm_compute; done.
  - reflexivity.
  - cbn. lia.
Defined.

Lemma get_netdev_safe_witness :
  exists r s', get_netdev 64 5 9 (start [demo_chunk; [1; 2; 3]]) = Some (r, s') /\
    (r = 0 \/ r = -1 \/ r = - EINVAL) /\ fds s' = {[0; 1; 2]} /\ bufs s' = ∅ /\
    exists new, devices s' = [] ++ new /\ Forall dev_ok new.
Proof.
  apply (get_netdev_safe length 64 5 9 (start [demo_chunk; [1; 2; 3]])); [lia|lia|apply start_ok|vm_compute; reflexivity|cbn; lia].
Defined.

(** With the descriptors 0 to 1023 open the next one is 1024, and [FD_SET] writes
    outside the set ([src/netlink_getlink/libnl_getlink.c]): the bound on the open
    descriptors is needed. *)
Definition crowded : NetKernel (list (list Z)) := {|
  k_socket _ q := (FD_SETSIZE, q); k_fchmod := k_fchmod; k_getfl := k_getfl; k_setfl := k_setfl;
  k_setsockopt := k_setsockopt; k_send := k_send; k_select := k_select; k_recv := k_recv;
  k_close := k_close; k_alloc := k_alloc; k_calloc := k_calloc
|}.

Theorem high_descriptor_overflows fuel q :
  @get_netdev _ crowded 64 5 fuel (NW q (list_to_set (seqZ 0 FD_SETSIZE)) ∅ 100 []) = None.
Proof. destruct fuel as [|fuel]; vm_compute; reflexivity. Qed.

(** The devices of that dump. *)
Example dump_devices : omap dev_of (concat [[lo; port]] ++ [br]) =
  [Dev 7 4 0 (replicate 17 0) false (eth0 ++ replicate 12 0) mac; Dev 4 0 0 (bridge ++ replicate 11 0) true ([98; 114] ++ replicate 15 0) mac].
Proof. reflexivity. Qed.

End Loopback.
