(* ===== verification/NetlinkFree.v ===== *)
(** * netlink: releasing the devices

    [free_netdev_list] and [ll_get_by_index]'s walk of
    [src/netlink_getlink/libnl_getlink.c] over the list of the file SList: the
    nodes are the devices, and a node that has been freed is gone from the
    memory, so that any later access to it is undefined. *)

From S2P Require Import Prelude SList SListSpec.
Import SList.

Module NetlinkFree.

Definition free (n : loc) : M memory unit :=
  get_next n;; modify (fun m => Mem (heads m) (delete n (nexts m))).

(** [pos->next], null for a null [pos]: how the loop finds [tmp]. *)
Definition next_of (pos : ptr) : M memory ptr :=
  match pos with None => mret None | Some p => get_next p end.

(** [slist_for_each_entry_safe (item, tmp, list, list)] around the body. *)
Fixpoint free_loop (fuel : nat) (list : loc) (item tmp : ptr) : M memory unit :=
  match fuel with
  | O => ub
  | S fuel' =>
      match item with
      | None => mret tt
      | Some n =>
          slist_del_node fuel (Some n) (Some list);;
          free n;;
          tmp' ← next_of tmp;
          free_loop fuel' list tmp tmp'
      end
  end.

Definition free_netdev_list (fuel : nat) (list : ptr) : M memory unit :=
  match list with
  | None => mret tt
  | Some l =>
      h ← get_head l;
      tmp ← next_of (head h);
      free_loop fuel l (head h) tmp
  end.

End NetlinkFree.
Import NetlinkFree.

Lemma node_free_wp n p (Q : unit -> memory -> Prop) m :
  nexts m !! n = Some p -> Q tt (Mem (heads m) (delete n (nexts m))) -> wp (free n) Q m.
Proof. intros H HQ. apply wp_bind. by eapply wp_get_next. Qed.

Lemma next_of_wp p c (Q : ptr -> memory -> Prop) m :
  chain (nexts m) p c -> Q (hd_error (List.tl c)) m -> wp (next_of p) Q m.
Proof.
  destruct c as [|x c]; cbn [chain].
  - intros -> HQ. by apply wp_ret.
  - intros (-> & nx & Hx & C) HQ. eapply wp_get_next; [done|]. destruct c; cbn in *; [by subst|]. by destruct C as [-> _].
Qed.

(** Without the nodes of [c]. *)
Definition freed (c : list loc) (m m' : memory) : Prop :=
  (forall x, nexts m' !! x = if bool_decide (x ∈ c) then None else nexts m !! x).

Lemma free_devices_wp l c fuel m :
  holds m l c -> (length c < fuel)%nat ->
  wp (free_loop fuel l (hd_error c) (hd_error (List.tl c)))
    (fun _ m' => holds m' l [] /\ freed c m m' /\ forall x, x <> l -> heads m' !! x = heads m !! x) m.
Proof.
  revert fuel m. induction c as [|n c IH]; intros fuel m H Hf; (destruct fuel as [|fuel]; [cbn in Hf; lia|]); cbn [free_loop hd_error].
  { apply wp_ret. split_and!; [done| |done]. intros x. by rewrite bool_decide_false by set_solver. }
  pose proof (sl_nodup _ _ _ H) as N. apply wp_bind. eapply slist_del_node_wp; [done|done|].
  intros m1 H1 (O1 & O2 & O3). rewrite (without_mid n [] c N : without n (n :: c) = c) in H1. apply NoDup_cons in N as [N1 N2].
  destruct (holds_node _ _ _ n H) as [p Hp]; [set_solver|].
  assert (is_Some (nexts m1 !! n)) as [p1 Hp1] by (apply elem_of_dom; rewrite O3; apply elem_of_dom; eauto).
  apply wp_bind. eapply node_free_wp; [done|]. cbn [List.tl].
  set (m2 := Mem (heads m1) (delete n (nexts m1))).
  assert (chain (nexts m2) (hd_error c) c) as C2.
  { eapply slist_chain_eq; [apply H1|]. intros x Hx. cbn. apply lookup_delete_ne. by intros ->. }
  apply wp_bind. eapply next_of_wp; [exact C2|].
  assert (holds m2 l c) as H2 by (constructor; [apply H1|exact C2|done]).
  eapply wp_mono; [apply (IH fuel m2 H2); cbn in Hf; lia|]. intros [] m3 (H3 & F3 & G3). split_and!; [done| |].
  - intros x. rewrite F3. cbn. destruct (decide (x = n)) as [->|Hne].
    + rewrite lookup_delete_eq, (bool_decide_true (n ∈ n :: c)) by set_solver. by destruct (bool_decide _).
    + rewrite lookup_delete_ne by done. destruct (decide (x ∈ c)).
      * rewrite !bool_decide_true by set_solver. done.
      * rewrite !bool_decide_false by set_solver. apply O2. set_solver.
  - intros x Hx. rewrite G3 by done. by apply O1.
Qed.

(** [free_netdev_list] frees every device of the list once, touches none
    after it is freed, and leaves the list empty and the rest of the memory
    alone. *)
Theorem free_netdev_list_frees l c fuel m :
  holds m l c -> (length c < fuel)%nat ->
  exists m', free_netdev_list fuel (Some l) m = Some (tt, m') /\ holds m' l [] /\
    (forall x, nexts m' !! x = if bool_decide (x ∈ c) then None else nexts m !! x) /\
    forall x, x <> l -> heads m' !! x = heads m !! x.
Proof.
  intros H Hf. cut (wp (free_netdev_list fuel (Some l)) (fun _ m' => holds m' l [] /\ freed c m m' /\
    forall x, x <> l -> heads m' !! x = heads m !! x) m).
  { intros ([] & m' & E & P)%wp_run. eauto. }
  apply wp_bind. eapply wp_get_head; [apply H|]. cbn [head]. apply wp_bind. eapply next_of_wp; [apply H|].
  by apply free_devices_wp.
Qed.
