(* ===== verification/ArpCache.v ===== *)
(** * netlink_arp_cache: the neighbour table parser

    Models [parse_rtattr] and [parse_arp_cache] of
    [src/netlink_arp_cache/libnlarpcache.c] over the bytes of the answer; the
    reads and the layout are those of the file Netlink.  Here the attribute
    length is unsigned, so it wraps. *)

From S2P Require Import Prelude Netlink NetlinkSafe NetlinkSpec.
Import Netlink.

Module ArpCache.

Record arp_cache := Arp { nl_hdr : Z; tb : list ptr; ndm_family : Z; ndm_state : Z }.

Section parse.
Context (buf : list Z).

Definition RTA_OK {S} (rta len : Z) : M S bool :=
  if 4 <=? len then l ← rd16 buf rta; mret ((4 <=? l) && (l <=? len)) else mret false.

Fixpoint parse_rtattr {S} (fuel : nat) (tb : list ptr) (max rta len : Z) : M S (list ptr) :=
  match fuel with
  | O => ub
  | Datatypes.S fuel =>
      ok ← RTA_OK rta len;
      if negb ok then mret tb
      else if max =? 0 then mret tb
      else
        type ← rd16 buf (rta + 2);
        _ ← of_option (znth tb type);
        l ← rd16 buf rta;
        parse_rtattr fuel (zset tb type (Some rta)) (max - 1) (rta + align4 l) (u32 (len - align4 l))
  end.

Definition sizeof_ndmsg : Z := 12.

(** The loop over the messages: [i] is the index, [p] the position, [cnt] the count. *)
Fixpoint arp_loop (fuel attr_fuel : nat) (nda_max lp i p cnt : Z) : M (list arp_cache) Z :=
  match fuel with
  | O => ub
  | Datatypes.S fuel =>
      if p <? lp then
        let hdr := p in
        len ← rd32 buf hdr;
        let msg := hdr + NLMSG_HDRLEN in
        family ← rd8 buf msg;
        state ← rd16 buf (msg + 8);
        cache ← gets (fun c => c);
        entry ← of_option (znth cache i);
        let msg_len := NLMSG_LENGTH sizeof_ndmsg in
        let len := u32 (len - msg_len) in
        let p := p + msg_len in
        t ← parse_rtattr attr_fuel (tb entry) nda_max p len;
        modify (fun c => zset c i (Arp hdr t family state));;
        arp_loop fuel attr_fuel nda_max lp (i + 1) (p + len) (cnt + 1)
      else mret (if p =? lp then cnt else -1)
  end.

Definition parse_arp_cache (fuel attr_fuel : nat) (nda_max buf_size : Z) : M (list arp_cache) Z :=
  arp_loop fuel attr_fuel nda_max buf_size 0 0 0.
End parse.

End ArpCache.
Import ArpCache.

(** ** The answers of the kernel *)

(** A neighbour: family, state, the rest of the two headers, attributes. *)
Record neighbour := Nb { nb_family : Z; nb_state : Z; nb_hdr : list Z; nb_mid : list Z; nb_end : list Z; nb_attrs : list (Z * list Z) }.

Definition enc_neighbour (n : neighbour) : list Z :=
  le32' (28 + zlen (enc_attrs (nb_attrs n))) ++ nb_hdr n ++ [nb_family n] ++ nb_mid n ++ le16 (nb_state n) ++ nb_end n
  ++ enc_attrs (nb_attrs n).

Definition neighbour_ok (nda_max : Z) (n : neighbour) : Prop :=
  zlen (nb_hdr n) = 12 /\ zlen (nb_mid n) = 7 /\ zlen (nb_end n) = 2 /\ 0 <= nb_state n < 65536 /\
  28 + zlen (enc_attrs (nb_attrs n)) < 2 ^ 32 /\ zlen (nb_attrs n) <= nda_max /\
  Forall (fun a => 0 <= fst a <= nda_max /\ attr_ok a) (nb_attrs n).

(** The table after the attributes [l] at [base]: the last of each type. *)
Fixpoint last_attrs (tb : list ptr) (l : list (Z * list Z)) (base : Z) : list ptr :=
  match l with
  | [] => tb
  | a :: l => last_attrs (zset tb (fst a) (Some base)) l (base + zlen (enc_attr a))
  end.

Fixpoint expected (c : list arp_cache) (l : list neighbour) (base : Z) : list arp_cache :=
  match l, c with
  | n :: l, e :: c =>
      Arp base (last_attrs (tb e) (nb_attrs n) (base + 28)) (nb_family n) (nb_state n)
        :: expected c l (base + zlen (enc_neighbour n))
  | _, _ => c
  end.

Lemma arp_parse_rtattr_wp {S} max l pre post t fuel (Q : list ptr -> S -> Prop) m nda_max :
  Forall (fun a => 0 <= fst a <= nda_max /\ attr_ok a) l -> zlen t = nda_max + 1 -> zlen l <= max -> (length l < fuel)%nat ->
  zlen (enc_attrs l) < 2 ^ 32 -> Q (last_attrs t l (zlen pre)) m ->
  wp (parse_rtattr (pre ++ enc_attrs l ++ post) fuel t max (zlen pre) (zlen (enc_attrs l))) Q m.
Proof.
  revert pre t fuel max. induction l as [|a l IH]; intros pre t fuel max Ho Ht Hm Hf Hs HQ;
    (destruct fuel as [|fuel]; [cbn in Hf; lia|]); cbn [parse_rtattr].
  { apply wp_bind. unfold RTA_OK. by apply wp_ret, wp_ret. }
  apply Forall_cons in Ho as [[Hty Ha] Ho]. rewrite enc_attrs_cons, <- app_assoc in *. rewrite zlen_app in Hs |- *.
  pose proof (enc_attr_len pre a (enc_attrs l ++ post) Ha) as E1.
  pose proof (enc_attr_type pre a (enc_attrs l ++ post) Ha) as E2.
  pose proof (zlen_nonneg (snd a)) as Hp. pose proof (zlen_nonneg (enc_attrs l)). pose proof (zlen_nonneg post). pose proof (zlen_nonneg pre).
  pose proof (align4_range (4 + zlen (snd a)) ltac:(lia)) as [Hr _]. pose proof (zlen_enc_attr a) as Hz.
  assert (zlen (a :: l) = 1 + zlen l) as Hl by (unfold zlen; cbn; lia). pose proof (zlen_nonneg l).
  assert (zlen (pre ++ enc_attr a ++ enc_attrs l ++ post) = zlen pre + zlen (enc_attr a) + zlen (enc_attrs l) + zlen post) as Hlen
    by (rewrite !zlen_app; lia).
  apply wp_bind. unfold RTA_OK. destruct (Z.leb_spec 4 (zlen (enc_attr a) + zlen (enc_attrs l))); [|lia].
  apply wp_bind, rd16_wp; [lia|lia|]. rewrite E1. apply wp_ret.
  destruct (Z.leb_spec 4 (4 + zlen (snd a))); [|lia].
  destruct (Z.leb_spec (4 + zlen (snd a)) (zlen (enc_attr a) + zlen (enc_attrs l))); [|lia]. cbn [andb negb].
  destruct (Z.eqb_spec max 0); [lia|]. apply wp_bind, rd16_wp; [lia|lia|]. rewrite E2.
  destruct (znth_is_Some t (fst a)) as [x Hx]; [lia|]. rewrite Hx. apply wp_bind, wp_ret.
  apply wp_bind, rd16_wp; [lia|lia|]. rewrite E1, <- Hz.
  replace (u32 (zlen (enc_attr a) + zlen (enc_attrs l) - zlen (enc_attr a))) with (zlen (enc_attrs l)) by (rewrite wrap_small; lia).
  rewrite <- zlen_app, (app_assoc pre). apply IH; [done|by rewrite zlen_zset|lia|cbn in Hf; lia|lia|].
  cbn [last_attrs] in HQ. by rewrite zlen_app.
Qed.

Lemma zlen_enc_neighbour nda_max n : neighbour_ok nda_max n -> zlen (enc_neighbour n) = 28 + zlen (enc_attrs (nb_attrs n)).
Proof.
  intros (H1 & H2 & H3 & _). unfold enc_neighbour. rewrite !zlen_app, H1, H2, H3, zlen_le32'.
  change (zlen [nb_family n]) with 1. change (zlen (le16 (nb_state n))) with 2. lia.
Qed.

(** The fields of a message. *)
Lemma enc_neighbour_fields nda_max pre n post : neighbour_ok nda_max n ->
  let buf := pre ++ enc_neighbour n ++ post in
  v32 buf (zlen pre) = 28 + zlen (enc_attrs (nb_attrs n)) /\ v8 buf (zlen pre + 16) = nb_family n /\
  v16 buf (zlen pre + 16 + 8) = nb_state n.
Proof.
  intros Ho buf. pose proof (zlen_enc_neighbour _ _ Ho) as Hz. destruct Ho as (H1 & H2 & H3 & H4 & H5 & _).
  pose proof (zlen_nonneg (enc_attrs (nb_attrs n))) as Ha. pose proof (zlen_nonneg post).
  assert (forall h r k, enc_neighbour n = h ++ r -> zlen h = k -> buf = (pre ++ h) ++ r ++ post /\ zlen pre + k = zlen (pre ++ h) + 0) as Cut.
  { intros h r k E Hk. unfold buf. rewrite E, zlen_app, Hk, <- !app_assoc. split; [done|lia]. }
  unfold enc_neighbour in Cut. split_and!.
  - replace (zlen pre) with (zlen pre + 0) by lia. unfold buf. rewrite v32_app; [|lia|rewrite zlen_app; lia].
    unfold enc_neighbour. rewrite <- app_assoc. apply v32_le32'. lia.
  - destruct (Cut (le32' (28 + zlen (enc_attrs (nb_attrs n))) ++ nb_hdr n)
      ([nb_family n] ++ nb_mid n ++ le16 (nb_state n) ++ nb_end n ++ enc_attrs (nb_attrs n)) 16) as [-> ->].
    + by rewrite <- app_assoc.
    + by rewrite zlen_app, H1, zlen_le32'.
    + rewrite v8_app; [done|]. rewrite <- app_assoc. pose proof (zlen_app_le [nb_family n]
        ((nb_mid n ++ le16 (nb_state n) ++ nb_end n ++ enc_attrs (nb_attrs n)) ++ post)) as X.
      change (zlen [nb_family n]) with 1 in X. lia.
  - destruct (Cut (le32' (28 + zlen (enc_attrs (nb_attrs n))) ++ nb_hdr n ++ [nb_family n] ++ nb_mid n)
      (le16 (nb_state n) ++ nb_end n ++ enc_attrs (nb_attrs n)) 24) as [-> E].
    + by rewrite <- !app_assoc.
    + rewrite !zlen_app, H1, H2, zlen_le32'. done.
    + rewrite <- Z.add_assoc. change (16 + 8) with 24. rewrite E, v16_app, <- app_assoc; [by apply v16_le16|lia|].
      apply (zlen_app_le (le16 (nb_state n))).
Qed.

Definition enc_neighbours (l : list neighbour) : list Z := concat (enc_neighbour <$> l).

Lemma arp_loop_wp nda_max l done_ c pre fuel attr_fuel :
  Forall (neighbour_ok nda_max) l -> Forall (fun e => zlen (tb e) = nda_max + 1) c -> (length l <= length c)%nat ->
  (length l < fuel)%nat -> Forall (fun n => (length (nb_attrs n) < attr_fuel)%nat) l ->
  wp (arp_loop (pre ++ enc_neighbours l) fuel attr_fuel nda_max (zlen pre + zlen (enc_neighbours l)) (zlen done_) (zlen pre) (zlen done_))
    (fun r c' => r = zlen done_ + zlen l /\ c' = done_ ++ expected c l (zlen pre)) (done_ ++ c).
Proof.
  revert done_ c pre fuel. induction l as [|n l IH]; intros done_ c pre fuel Ho Hc Hlen Hf Haf;
    (destruct fuel as [|fuel]; [cbn in Hf; lia|]); cbn [arp_loop].
  { change (zlen (enc_neighbours [])) with 0. rewrite Z.add_0_r, Z.ltb_irrefl, Z.eqb_refl. apply wp_ret.
    split; [unfold zlen; cbn; lia|]. by destruct c. }
  apply Forall_cons in Ho as [Hn Ho]. apply Forall_cons in Haf as [Haf1 Haf]. destruct c as [|e c]; [cbn in Hlen; lia|].
  apply Forall_cons in Hc as [He Hc].
  assert (enc_neighbours (n :: l) = enc_neighbour n ++ enc_neighbours l) as -> by done.
  pose proof (zlen_enc_neighbour _ _ Hn) as Hz. pose proof (zlen_nonneg (enc_neighbours l)). pose proof (zlen_nonneg pre).
  pose proof (zlen_nonneg (enc_attrs (nb_attrs n))).
  destruct (enc_neighbour_fields nda_max pre n (enc_neighbours l) Hn) as (F1 & F2 & F3).
  destruct Hn as (N1 & N2 & N3 & N4 & N5 & N6 & N7).
  set (buf := pre ++ enc_neighbour n ++ enc_neighbours l) in *. rewrite zlen_app in *.
  assert (zlen buf = zlen pre + zlen (enc_neighbour n) + zlen (enc_neighbours l)) as Hlb by (unfold buf; rewrite !zlen_app; lia).
  rewrite (proj2 (Z.ltb_lt (zlen pre) _)) by lia. unfold NLMSG_HDRLEN. change (NLMSG_LENGTH sizeof_ndmsg) with 28.
  apply wp_bind, rd32_wp; [lia|lia|]. rewrite F1. apply wp_bind, rd8_wp; [lia|]. rewrite F2.
  apply wp_bind, rd16_wp; [lia|lia|]. rewrite F3. apply wp_bind, wp_gets.
  rewrite znth_middle. apply wp_bind, wp_ret. replace (u32 (28 + zlen (enc_attrs (nb_attrs n)) - 28)) with (zlen (enc_attrs (nb_attrs n)))
    by (rewrite wrap_small; lia).
  assert (exists h, zlen h = 28 /\ enc_neighbour n = h ++ enc_attrs (nb_attrs n)) as (h & Hh & Eh).
  { exists (le32' (28 + zlen (enc_attrs (nb_attrs n))) ++ nb_hdr n ++ [nb_family n] ++ nb_mid n ++ le16 (nb_state n) ++ nb_end n).
    split; [rewrite !zlen_app, N1, N2, N3; done|]. unfold enc_neighbour. by rewrite <- !app_assoc. }
  assert (buf = (pre ++ h) ++ enc_attrs (nb_attrs n) ++ enc_neighbours l) as Hbuf by (unfold buf; by rewrite Eh, <- !app_assoc).
  assert (zlen pre + 28 = zlen (pre ++ h)) as Hp by (rewrite zlen_app; lia).
  assert (forall (Q : list ptr -> list arp_cache -> Prop) m, Q (last_attrs (tb e) (nb_attrs n) (zlen (pre ++ h))) m ->
    wp (parse_rtattr buf attr_fuel (tb e) nda_max (zlen (pre ++ h)) (zlen (enc_attrs (nb_attrs n)))) Q m) as W.
  { intros Q m HQ. rewrite Hbuf. eapply arp_parse_rtattr_wp; [done|done|done|done|lia|done]. }
  rewrite Hp. apply wp_bind, W.
  apply wp_bind, wp_modify.
  assert (zset (done_ ++ e :: c) (zlen done_) (Arp (zlen pre) (last_attrs (tb e) (nb_attrs n) (zlen (pre ++ h))) (nb_family n) (nb_state n))
    = (done_ ++ [Arp (zlen pre) (last_attrs (tb e) (nb_attrs n) (zlen (pre ++ h))) (nb_family n) (nb_state n)]) ++ c) as ->.
  { by rewrite zset_middle, <- app_assoc. }
  set (x := Arp _ _ _ _). replace (zlen done_ + 1) with (zlen (done_ ++ [x])) by (rewrite zlen_app; done).
  replace (zlen (pre ++ h) + zlen (enc_attrs (nb_attrs n))) with (zlen (pre ++ enc_neighbour n)) by (rewrite !zlen_app; lia).
  replace (zlen pre + (zlen (enc_neighbour n) + zlen (enc_neighbours l))) with (zlen (pre ++ enc_neighbour n) + zlen (enc_neighbours l))
    by (rewrite zlen_app; lia).
  unfold buf. rewrite app_assoc. eapply wp_mono; [apply IH; [done|done|cbn in Hlen; lia|cbn in Hf; lia|done]|].
  intros r c' [-> ->]. rewrite zlen_app. split; [unfold zlen; cbn; lia|]. cbn [expected]. rewrite <- app_assoc, Hp.
  cbn [app]. unfold x. by rewrite (zlen_app pre (enc_neighbour n)).
Qed.

(** [parse_arp_cache] reads back a neighbour table: for any encoded
    neighbours (attributes padded and of types up to [NDA_MAX]) and a cache
    with room for them, it returns their number and the entries hold, in order,
    the position, family, state and, for each type, the last attribute. *)
Theorem parse_arp_cache_encode nda_max l cache fuel attr_fuel :
  Forall (neighbour_ok nda_max) l -> Forall (fun e => zlen (tb e) = nda_max + 1) cache -> (length l <= length cache)%nat ->
  (length l < fuel)%nat -> Forall (fun n => (length (nb_attrs n) < attr_fuel)%nat) l ->
  parse_arp_cache (enc_neighbours l) fuel attr_fuel nda_max (zlen (enc_neighbours l)) cache
    = Some (zlen l, expected cache l 0).
Proof.
  intros H1 H2 H3 H4 H5. pose proof (arp_loop_wp nda_max l [] cache [] fuel attr_fuel H1 H2 H3 H4 H5) as W.
  apply wp_run in W as (r & s & E & -> & ->). exact E.
Qed.

Definition one_neighbour : neighbour :=
  Nb 2 4 (replicate 12 0) (replicate 7 0) [0; 0] [(1, [10; 0; 0; 1]); (2, [2; 66; 172; 17; 0; 2])].
Definition empty_cache (n : nat) : list arp_cache := replicate n (Arp 0 (replicate 16 None) 0 0).

Lemma parse_arp_cache_encode_witness :
  let l := [one_neighbour; one_neighbour] in
  parse_arp_cache (enc_neighbours l) 3 3 15 (zlen (enc_neighbours l)) (empty_cache 2) = Some (2, expected (empty_cache 2) l 0).
Proof.
  apply (parse_arp_cache_encode 15 [one_neighbour; one_neighbour] (empty_cache 2) 3 3).
  - repeat constructor; vm_compute; done.
  - repeat constructor; vm_compute; done.
  - cbn. lia.
  - cbn. lia.
  - repeat constructor; cbn; lia.
Defined.

(** the attribute parser of the ARP cache trusts the message: a type above
    [NDA_MAX] is stored outside the table, and a last attribute without its
    padding makes the unsigned length wrap, so that the loop reads on beyond
    the message; both are undefined. *)
Theorem arp_parse_rtattr_unchecked :
  let tb := replicate 16 None in
  parse_rtattr (enc_attr (16, [])) 9 tb 15 0 4 tt = None
  /\ parse_rtattr (le16 5 ++ le16 1 ++ [7; 0; 0; 0] ++ le16 4 ++ le16 2) 9 tb 15 0 5 tt = None
  /\ exists t, parse_rtattr (le16 5 ++ le16 1 ++ [7; 0; 0; 0] ++ le16 4 ++ le16 2) 9 tb 15 0 8 tt = Some (t, tt).
Proof. split_and!; [vm_compute; reflexivity|vm_compute; reflexivity|]. eexists. vm_compute. reflexivity. Qed.
