(* ===== verification/ArpTransfer.v ===== *)
(** * netlink_arp_cache: what the transfer promises

    [send_recv] and [get_arp_cache] of [src/netlink_arp_cache/libnlarpcache.c]
    (the model is in NetlinkIO): the descriptors and buffers left on every
    branch, the two leaks included, and the answer of a kernel read back through
    [parse_arp_cache]. *)

From S2P Require Import Prelude Netlink NetlinkSafe NetlinkSpec NetlinkIO NetlinkIOSpec ArpCache.
Import Netlink NetlinkIO.

Section transfer.
Context {K : Type} {NK : NetKernel K} {L : NetLaws K}.
Implicit Types s : nw K.

(** A new block [p] besides those of [s]. *)
Definition one_more s s' (p : loc) (b : buffer) : Prop := bufs s !! p = None /\ bufs s' = <[p := b]> (bufs s).

(** How a step of [send_recv] after the socket leaves the rest. *)
Definition steady s s' : Prop := fds s' = fds s /\ devices s' = devices s /\ next_buf s <= next_buf s'.

Lemma steady_with s s' p b : with_buf s s' p b -> steady s s'.
Proof. intros (_ & _ & [A1 A2 A3 A4]). by split_and!. Qed.

(** What [*buf] holds: a new block [b], or nothing when it is null. *)
Definition slot s0 (q : ptr) (b : buffer) s : Prop :=
  match q with Some p => with_buf s0 s p b | None => after s0 s (fds s0) (bufs s0) end.

Lemma slot_fds s0 q b s : slot s0 q b s -> fds s = fds s0.
Proof. destruct q; [intros (_ & _ & [A1 A2 A3 A4])|intros [A1 A2 A3 A4]]; done. Qed.

Lemma slot_after s0 s s' q b : slot s0 q b s -> after s s' (fds s) (bufs s) -> slot s0 q b s'.
Proof. destruct q; cbn; intros H A; [by eapply with_buf_after|chain]. Qed.

Lemma slot_malloc size (Q : ptr -> nw K -> Prop) s :
  addresses_ok s ->
  (forall q s', slot s q (Buf size []) s' -> bool_decide (is_Some q) = fst (k_alloc size (kern s)) ->
     kern s' = snd (k_alloc size (kern s)) -> Q q s') ->
  wp (malloc size) Q s.
Proof.
  intros Ha HQ. apply wp_bind, net_sys_wp. intros s1 [A1 A2 A3 A4] Ek.
  destruct (fst (k_alloc size (kern s))) eqn:E; cbn [negb].
  - apply wp_bind, wp_gets, wp_bind, wp_gets, wp_bind, wp_modify, wp_ret, HQ; [|done|done]. split_and!; cbn.
    + apply eq_None_not_Some. intros Hp. specialize (Ha _ Hp). lia.
    + lia.
    + constructor; cbn; [done|by rewrite A2|done|lia].
  - apply wp_ret, HQ; [by constructor|done|done].
Qed.

(** What [recv] returns: it fails when there are bytes to store and no block. *)
Definition count_of (q : ptr) (a : Z * list Z) : Z := if bool_decide (is_Some q) || (zlen a.2 <=? 0) then fst a else -1.

Lemma slot_recv s s0 q b sd peek (Q : Z -> nw K -> Prop) :
  slot s0 q b s -> sd ∈ fds s0 -> 0 <= cap b ->
  (forall s', slot s0 q (stored b (fst (k_recv sd peek (cap b) (kern s))).2) s' ->
     kern s' = snd (k_recv sd peek (cap b) (kern s)) -> Q (count_of q (fst (k_recv sd peek (cap b) (kern s)))) s') ->
  wp (recv sd peek q (cap b)) Q s.
Proof.
  intros S Hsd Hc HQ. destruct q as [p|]; [by eapply recv_wp|]. cbn in S.
  apply wp_bind, on_fd_wp; [by rewrite (af_fds _ _ _ _ S)|]. apply wp_bind, net_sys_wp. intros s' A E. apply wp_ret.
  assert (slot s0 None (stored b (fst (k_recv sd peek (cap b) (kern s))).2) s') as S' by (cbn; chain).
  specialize (HQ s' S' E). unfold count_of in HQ. cbn in HQ. destruct (Z.leb_spec (zlen (fst (k_recv sd peek (cap b) (kern s))).2) 0);
    destruct (Z.ltb_spec 0 (zlen (fst (k_recv sd peek (cap b) (kern s))).2)); [lia|done|done|lia].
Qed.

(** The bytes of [*buf], none when it is null. *)
Definition held (q : ptr) (b : buffer) : list Z := if q is Some _ then bytes b else [].

(** A [realloc] that fails leaves the old block, which [*buf] no longer tells. *)
Lemma slot_realloc s s0 q b size (Q : ptr -> nw K -> Prop) :
  addresses_ok s0 -> slot s0 q b s -> zlen (held q b) <= size ->
  (forall q' s', fst (k_alloc size (kern s)) = true -> is_Some q' -> slot s0 q' (Buf size (held q b)) s' ->
     kern s' = snd (k_alloc size (kern s)) -> Q q' s') ->
  (forall s', fst (k_alloc size (kern s)) = false -> slot s0 q b s' -> kern s' = snd (k_alloc size (kern s)) -> Q None s') ->
  wp (realloc q size) Q s.
Proof.
  intros Ha S Hn H1 H2. destruct q as [p|].
  - apply wp_bind, wp_bind, wp_gets. destruct S as (W1 & W2 & [A1 A2 A3 A4]). rewrite A2, lookup_insert_eq. apply wp_ret.
    apply wp_bind, net_sys_wp. intros s1 [B1 B2 B3 B4] Ek. destruct (fst (k_alloc size (kern s))) eqn:E; cbn [negb].
    + apply wp_bind, wp_gets, wp_bind, wp_gets, wp_bind, wp_modify, wp_ret, H1; [done|done| |done]. split_and!; cbn.
      * apply eq_None_not_Some. intros Hp. specialize (Ha _ Hp). lia.
      * lia.
      * constructor; cbn; [congruence| |congruence|lia]. rewrite B2, A2, delete_insert_id by done.
        rewrite take_ge; [done|]. cbn in Hn. unfold zlen in Hn. lia.
    + apply wp_ret, H2; [done| |done]. split_and!; [done|lia|]. constructor; [congruence|congruence|congruence|lia].
  - cbn in S. destruct S as [A1 A2 A3 A4]. apply slot_malloc.
    { intros p Hp. rewrite A2 in Hp. specialize (Ha p Hp). lia. }
    intros q s' Sl Eq Ek. destruct q as [p|]; cbn in Eq, Sl.
    + apply H1; [done|done| |done]. destruct Sl as (W1 & W2 & [B1 B2 B3 B4]). split_and!; [congruence|done|].
      constructor; [congruence|cbn; congruence|congruence|lia].
    + apply H2; [done| |done]. destruct Sl. constructor; [congruence|congruence|congruence|lia].
Qed.

(** ** What each branch leaves *)

(** The pointer in [*buf] and the blocks: a new block with [b] told by [*buf],
    or, when [lost], told by nobody. *)
Definition leaves (granted lost : bool) (b : buffer) s (q : ptr) s' : Prop :=
  bool_decide (is_Some q) = granted && negb lost /\
  match granted, q with
  | true, Some p => one_more s s' p b
  | true, None => exists p, one_more s s' p b
  | false, _ => bufs s' = bufs s
  end.

(** Once a datagram of [n] bytes, more than 512, was seen, and its first bytes
    [d] stored: [*buf] is [realloc]'s result, and the datagram is received.  A
    refused [realloc] loses the block of 512 bytes. *)
Definition answer_left (sd n : Z) (granted : bool) (d : list Z) (k : K) s (r : Z * ptr) s' : Prop :=
  let '(grown, k) := k_alloc n k in
  let '(m, d') := fst (k_recv sd false n k) in
  let old := if granted then d else [] in
  if grown then fst r = m /\ leaves true false (Buf n (d' ++ drop (length d') old)) s (snd r) s'
  else fst r = (if zlen d' <=? 0 then m else -1) /\ leaves granted true (Buf 512 d) s (snd r) s'.

(** Once the request is sent: nothing arrives in time, or [select] fails; the
    peek fails, or the datagram fits in 512 bytes; or it is received. *)
Definition reply_left (sd : Z) (k : K) s (r : Z * ptr) s' : Prop :=
  let '(granted, k) := k_alloc 512 k in
  let '(ret, k) := k_select (sd + 1) k in
  if ret <=? 0 then fst r = ret /\ leaves granted false (Buf 512 []) s (snd r) s'
  else
    let '(n, d, k) := k_recv sd true 512 k in
    let status := if granted || (zlen d <=? 0) then n else -1 in
    if status <=? 512 then fst r = 0 /\ leaves granted false (Buf 512 d) s (snd r) s'
    else answer_left sd status granted d k s r s'.

(** [send_recv]: no socket; the socket options refused, when the socket is left
    open; or the socket closed. *)
Definition send_recv_left (send_buf : list Z) (buf0 : ptr) s (r : Z * ptr) s' : Prop :=
  let '(sd, k) := k_socket (fds s) (kern s) in
  if sd <? 0 then r = (-1, buf0) /\ fds s' = fds s /\ bufs s' = bufs s
  else
    let '(opt, k) := k_setsockopt sd (snd (k_fchmod sd k)) in
    if opt <? 0 then r = (-2, buf0) /\ fds s' = {[sd]} ∪ fds s /\ sd ∉ fds s /\ bufs s' = bufs s
    else fds s' = fds s /\ reply_left sd (snd (k_send sd send_buf k)) s r s'.

Lemma slot_leaves s0 s q b : slot s0 q b s -> leaves (bool_decide (is_Some q)) false b s0 q s.
Proof.
  destruct q as [p|]; cbn; [intros (W1 & W2 & [A1 A2 A3 A4])|intros [A1 A2 A3 A4]]; by split.
Qed.

Lemma slot_lost s0 s q b : slot s0 q b s -> leaves (bool_decide (is_Some q)) true b s0 None s.
Proof.
  destruct q as [p|]; cbn; [intros (W1 & W2 & [A1 A2 A3 A4])|intros [A1 A2 A3 A4]]; split; [done|by exists p|done|done].
Qed.

(** Closing the socket ends the call. *)
Lemma close_leaves sd s0 s s1 q b v (P : Z * ptr -> nw K -> Prop) :
  slot s q b s1 -> sd ∉ fds s0 -> fds s = {[sd]} ∪ fds s0 -> bufs s = bufs s0 -> devices s = devices s0 ->
  (forall s', fds s' = fds s0 -> devices s' = devices s0 -> bufs s' = bufs s1 -> P v s') -> wp (close sd;; mret v) P s1.
Proof.
  intros S Hf F B D HP. pose proof (slot_fds _ _ _ _ S) as F1. apply wp_bind, close_wp; [rewrite F1, F; set_solver +|].
  intros x s2 [C1 C2 C3 C4] _. apply wp_ret, HP; [rewrite C1, F1, F; clear -Hf; set_solver| |done].
  rewrite C3. destruct q as [p|]; [destruct S as (_ & _ & [A1 A2 A3 A4])|destruct S as [A1 A2 A3 A4]]; congruence.
Qed.

Lemma leaves_same granted lost b s s0 q s1 s' : leaves granted lost b s q s1 -> bufs s = bufs s0 -> bufs s' = bufs s1 ->
  leaves granted lost b s0 q s'.
Proof. unfold leaves, one_more. intros H E1 E2. by rewrite E2, <- E1. Qed.

(** The peek and what follows it. *)
Lemma peek_leaves sd s0 s s1 q (P : Z * ptr -> nw K -> Prop) :
  addresses_ok s -> slot s q (Buf 512 []) s1 -> sd ∉ fds s0 -> fds s = {[sd]} ∪ fds s0 -> bufs s = bufs s0 -> devices s = devices s0 ->
  (forall r s', devices s' = devices s0 -> fds s' = fds s0 ->
     (let '(n, d, k) := k_recv sd true 512 (kern s1) in
      let status := if bool_decide (is_Some q) || (zlen d <=? 0) then n else -1 in
      if status <=? 512 then fst r = 0 /\ leaves (bool_decide (is_Some q)) false (Buf 512 d) s0 (snd r) s'
      else answer_left sd status (bool_decide (is_Some q)) d k s0 r s') -> P r s') ->
  wp (status ← recv sd true q 512;
      r ← (if 512 <? status then
             buf ← realloc q status; status ← recv sd false buf status; mret (status, buf)
           else mret (0, q));
      close sd;; mret r) P s1.
Proof.
  intros Ha S Hf F B D HP. assert (sd ∈ fds s) as Hsd by (rewrite F; set_solver +).
  apply wp_bind. apply (slot_recv s1 s q (Buf 512 [])); [done|done|done|]. cbn [cap]. pose proof (nl_recv sd true 512 (kern s1)) as Hl.
  destruct (k_recv sd true 512 (kern s1)) as [[n d] k]. cbn [fst snd] in *. destruct Hl as [Hd _].
  assert (stored (Buf 512 []) d = Buf 512 d) as -> by (unfold stored; cbn; by rewrite drop_nil, app_nil_r).
  change (count_of q (n, d)) with (if bool_decide (is_Some q) || (zlen d <=? 0) then n else -1).
  set (status := if bool_decide (is_Some q) || (zlen d <=? 0) then n else -1) in *. intros s2 S2 E2.
  destruct (Z.leb_spec status 512); destruct (Z.ltb_spec 512 status); [lia| |  |lia].
  { apply wp_bind, wp_ret. eapply close_leaves; [exact S2|done..|]. intros s' F' D' B'. apply HP; [done|done|]. split; [done|].
    eapply leaves_same; [by apply slot_leaves|done|done]. }
  unfold answer_left in HP. apply wp_bind, wp_bind. eapply slot_realloc; [done|exact S2| | |].
  - clearbody status. destruct q; cbn [held bytes]; [lia|]. change (zlen []) with 0. lia.
  - intros q' s3 Eg Hq S3 E3. rewrite <- E2 in HP. destruct (k_alloc status (kern s2)) as [grown k3]. cbn [fst snd] in *. subst grown k3.
    apply wp_bind. change status with (cap (Buf status (held q (Buf 512 d)))) at 1.
    eapply slot_recv; [exact S3|done|cbn; lia|]. cbn [cap]. destruct (k_recv sd false status (kern s3)) as [[m d'] k4]. cbn [fst snd].
    intros s4 S4 E4. apply wp_ret. eapply close_leaves; [exact S4|done..|]. intros s' F' D' B'. apply HP; [done|done|]. cbn [fst snd].
    destruct Hq as [p ->]. split; [done|]. eapply leaves_same; [|exact B|exact B']. by destruct q; apply slot_leaves in S4.
  - intros s3 Eg S3 E3. rewrite <- E2 in HP. destruct (k_alloc status (kern s2)) as [grown k3]. cbn [fst snd] in *. subst grown k3.
    apply wp_bind. change status with (cap (Buf status [])) at 1.
    apply (slot_recv s3 s3 None); [apply after_refl|by rewrite (slot_fds _ _ _ _ S3)|cbn; lia|]. cbn [cap].
    destruct (k_recv sd false status (kern s3)) as [[m d'] k4]. cbn [fst snd]. intros s4 S4 E4.
    pose proof (slot_after _ _ _ _ _ S3 S4) as S5. apply wp_ret. eapply close_leaves; [exact S5|done..|]. intros s' F' D' B'. apply HP; [done|done|].
    cbn [fst snd]. split; [done|]. eapply leaves_same; [by eapply slot_lost|exact B|exact B'].
Qed.

(** C36: in a process with fewer than 1024 open descriptors, whatever the system
    calls and the allocator answer, [send_recv] ends without undefined behaviour
    and what it leaves is told branch by branch: without a socket nothing
    changes; with its options refused it returns -2 and the socket stays open;
    otherwise the socket is closed and, when [select] or the peek give nothing or
    the datagram fits in 512 bytes, [*buf] is the first block, with the value of
    [select] or 0; for a longer datagram [*buf] is a block with the datagram and
    the value is what [recv] counted, and when [realloc] fails [*buf] is null and
    the first block is left to nobody. *)
Theorem send_recv_leaves (send_buf : list Z) (buf0 : ptr) s :
  addresses_ok s -> Z.of_nat (size (fds s)) < FD_SETSIZE ->
  exists r s', send_recv send_buf buf0 s = Some (r, s') /\ devices s' = devices s /\ send_recv_left send_buf buf0 s r s'.
Proof.
  intros Ha Hsz. cut (wp (send_recv send_buf buf0) (fun r s' => devices s' = devices s /\ send_recv_left send_buf buf0 s r s') s).
  { intros (r & s' & E & P)%wp_run. eauto. }
  unfold send_recv_left. apply wp_bind, socket_wp; cbv zeta; [done| |]; destruct (k_socket (fds s) (kern s)) as [sd k1]; cbn [fst snd].
  { intros s1 Hn [A1 A2 A3 A4] _. rewrite (proj2 (Z.ltb_lt sd 0) Hn). by apply wp_ret. }
  intros s1 Hr Hf A1 E1. rewrite (proj2 (Z.ltb_ge sd 0)) by lia. subst k1.
  apply wp_bind, net_sys_wp. intros s2 A2 E2. rewrite <- E2. apply wp_bind, net_sys_wp. intros s3 A3 E3.
  assert (after s s3 ({[sd]} ∪ fds s) (bufs s)) as [B1 B2 B3 B4] by chain.
  destruct (k_setsockopt sd (kern s2)) as [o k3]. cbn [fst snd] in *. subst k3.
  destruct (o <? 0); [by apply wp_ret|].
  apply wp_bind, net_sys_wp. intros s4 [C1 C2 C3 C4] E4. rewrite B1 in C1. rewrite B2 in C2. rewrite B3 in C3. rewrite <- E4. unfold reply_left.
  assert (addresses_ok s4) as Ha4 by (intros p; rewrite C2; intros Hp; specialize (Ha p Hp); lia).
  apply wp_bind, slot_malloc; [done|]. intros q s5 S5 Eq E5. destruct (k_alloc 512 (kern s4)) as [granted k5]. cbn [fst snd] in *. subst granted k5.
  apply wp_bind, select_wp; [rewrite (slot_fds _ _ _ _ S5), C1; set_solver +|done|]. intros s6 A6 E6.
  destruct (k_select (sd + 1) (kern s5)) as [ret k6]. cbn [fst snd] in *. subst k6. pose proof (slot_after _ _ _ _ _ S5 A6) as S6.
  assert (ret <= 0 -> wp (close sd;; mret (ret, q)) (fun r s' => devices s' = devices s /\ fds s' = fds s /\
    ret = ret /\ fst r = ret /\ leaves (bool_decide (is_Some q)) false (Buf 512 []) s (snd r) s') s6) as Hc.
  { intros _. eapply close_leaves; [exact S6|done..|]. intros s' F' D' B'. split_and!; [done..|]. eapply leaves_same; [by apply slot_leaves|done|done]. }
  destruct (Z.leb_spec ret 0).
  - specialize (Hc ltac:(lia)). destruct (Z.eqb_spec ret 0); [|rewrite (proj2 (Z.ltb_lt ret 0)) by lia]; (eapply wp_mono; [exact Hc|tauto]).
  - rewrite (proj2 (Z.eqb_neq ret 0)), (proj2 (Z.ltb_ge ret 0)) by lia. by eapply peek_leaves.
Qed.
End transfer.

(** ** A granted request *)

Section granted.
Context {K : Type} {NK : NetKernel K} {L : NetLaws K} (queue : K -> list (list Z)) {D : NetDump K queue}.
Implicit Types s : nw K.

(** Reading the answer with a buffer from [malloc]. *)
Definition receive (sd : Z) (buf : ptr) : M (nw K) (Z * ptr) :=
  status ← recv sd true buf 512;
  if 512 <? status then
    buf ← realloc buf status; status ← recv sd false buf status; mret (status, buf)
  else mret (0, buf).

(** [receive] inlined before the socket is closed. *)
Lemma wp_receive_close sd buf s (Q : Z * ptr -> nw K -> Prop) :
  wp (receive sd buf) (fun r s' => wp (close sd;; mret r) Q s') s ->
  wp (status ← recv sd true buf 512;
      r ← (if 512 <? status then
             buf ← realloc buf status; status ← recv sd false buf status; mret (status, buf)
           else mret (0, buf));
      close sd;; mret r) Q s.
Proof.
  unfold receive, wp, mbind, M_bind. destruct (recv sd true buf 512 s) as [[status s1]|]; [|done].
  destruct (512 <? status); [|done]. destruct (realloc buf status s1) as [[b s2]|]; [|done].
  by destruct (recv sd false b status s2) as [[n s3]|].
Qed.

Lemma receive_answer sd s0 s p d q (Q : Z * ptr -> nw K -> Prop) :
  addresses_ok s0 -> with_buf s0 s p (Buf 512 []) -> sd ∈ fds s0 -> queue (kern s) = d :: q ->
  (forall p s' b, with_buf s0 s' p b -> bytes b = d ->
     queue (kern s') = (if 512 <? zlen d then q else d :: q) -> Q ((if 512 <? zlen d then zlen d else 0), Some p) s') ->
  wp (receive sd (Some p)) Q s.
Proof.
  intros Ha W Hsd Hq HQ. apply wp_bind, (recv_wp s s0 p (Buf 512 [])); [exact W|done|done|]. cbn [cap].
  rewrite (nd_peek sd 512 (kern s) d q Hq). cbn [fst snd]. intros s1 W1 E1. change (Z.to_nat 512) with 512%nat in W1.
  assert (bytes (stored (Buf 512 []) (take 512 d)) = take 512 d) as Hb by (cbn; by rewrite drop_nil, app_nil_r).
  assert (queue (kern s1) = d :: q) as Q1 by keeps Hq. destruct (Z.ltb_spec 512 (zlen d)).
  - apply wp_bind. eapply realloc_wp; [done|exact W1| |].
    { intros s' _ _ E. rewrite nd_alloc in E. done. }
    rewrite Hb. intros p2 s2 W2 E2. assert (queue (kern s2) = d :: q) as Q2 by keeps Q1. apply wp_bind, (recv_wp s2 s0 p2 (Buf (zlen d) (take (Z.to_nat (zlen d)) (take 512 d)))); [exact W2|done|cbn; lia|].
    cbn [cap]. destruct (nd_recv sd (zlen d) (kern s2) d q Q2 ltac:(lia)) as [R1 R2]. rewrite R1. cbn [fst snd]. intros s3 W3 E3.
    apply wp_ret. eapply HQ; [exact W3| |by rewrite E3]. cbn. rewrite take_take, drop_ge, app_nil_r; [done|]. rewrite length_take. lia.
  - apply wp_ret. eapply HQ; [exact W1| |done]. rewrite Hb. apply take_ge. unfold zlen in *. lia.
Qed.

(** C35: the answer of a kernel that grants the request, from the call to the
    entries: for a datagram of neighbours longer than 512 bytes, [get_arp_cache]
    returns its length and a block with its bytes, from which [parse_arp_cache]
    restores the neighbours; a datagram of up to 512 bytes is seen but not taken
    and the value is 0.  The socket is closed and one block is left, the
    caller's. *)
Theorem get_arp_cache_answers nda_max l cache q fuel attr_fuel buf0 s :
  addresses_ok s -> Z.of_nat (size (fds s)) < FD_SETSIZE -> queue (kern s) = enc_neighbours l :: q ->
  Forall (neighbour_ok nda_max) l -> Forall (fun e => zlen (ArpCache.tb e) = nda_max + 1) cache -> (length l <= length cache)%nat ->
  (length l < fuel)%nat -> Forall (fun n => (length (nb_attrs n) < attr_fuel)%nat) l ->
  let n := zlen (enc_neighbours l) in
  exists r p b s', get_arp_cache buf0 s = Some ((r, Some p), s') /\
    fds s' = fds s /\ devices s' = devices s /\ one_more s s' p b /\ bytes b = enc_neighbours l /\
    if 512 <? n then
      r = n /\ queue (kern s') = q /\
      ArpCache.parse_arp_cache (bytes b) fuel attr_fuel nda_max r cache = Some (zlen l, expected cache l 0)
    else r = 0 /\ queue (kern s') = enc_neighbours l :: q.
Proof.
  intros Ha Hsz Hq N1 N2 N3 N4 N5 n.
  cut (wp (get_arp_cache buf0) (fun r s' => exists p b, r = ((if 512 <? n then n else 0), Some p) /\
    fds s' = fds s /\ devices s' = devices s /\ one_more s s' p b /\ bytes b = enc_neighbours l /\
    queue (kern s') = if 512 <? n then q else enc_neighbours l :: q) s).
  { intros (r & s' & E & p & b & -> & F1 & F2 & F3 & F4 & F5)%wp_run. exists (if 512 <? n then n else 0), p, b, s'.
    split_and!; [done..|]. destruct (512 <? n); [|done]. split_and!; [done|done|]. rewrite F4.
    pose proof (arp_loop_wp nda_max l [] cache [] fuel attr_fuel N1 N2 N3 N4 N5) as W. by apply wp_run in W as (r & s2 & W & -> & ->). }
  clear N1 N2 N3 N4 N5. apply wp_bind, socket_wp; cbv zeta; [done| |].
  { intros s1 Hn. pose proof (nd_socket (fds s) (kern s) Hsz). lia. }
  intros s1 Hr Hf A1 E1. set (sd := fst (k_socket (fds s) (kern s))) in *. rewrite (proj2 (Z.ltb_ge sd 0)) by lia.
  apply wp_bind, net_sys_wp. intros s2 A2 E2. apply wp_bind, net_sys_wp. intros s3 A3 E3.
  pose proof (nd_setsockopt sd (kern s2)). rewrite (proj2 (Z.ltb_ge _ 0)) by lia. apply wp_bind, net_sys_wp. intros s4 A4 E4.
  assert (after s s4 ({[sd]} ∪ fds s) (bufs s)) as [B1 B2 B3 B4] by chain.
  assert (queue (kern s4) = enc_neighbours l :: q) as Q4 by keeps Hq.
  assert (addresses_ok s4) as Ha4 by (intros p; rewrite B2; intros Hp; specialize (Ha p Hp); lia).
  assert (sd ∈ fds s4) as Hsd by (rewrite B1; set_solver +).
  apply wp_bind, net_malloc_wp; [done| |].
  { intros s5 _ _ E. rewrite nd_alloc in E. done. }
  intros p s5 W5 E5. assert (queue (kern s5) = enc_neighbours l :: q) as Q5 by keeps Q4.
  apply wp_bind, select_wp; [by rewrite (proj1 (steady_with _ _ _ _ W5))|done|]. intros s6 A6 E6.
  pose proof (nd_select (sd + 1) (kern s5) ltac:(by rewrite Q5)). rewrite (proj2 (Z.eqb_neq _ 0)), (proj2 (Z.ltb_ge _ 0)) by lia.
  assert (queue (kern s6) = enc_neighbours l :: q) as Q6 by keeps Q5. pose proof (with_buf_after _ _ _ _ _ W5 A6) as W6.
  apply wp_receive_close.
  eapply receive_answer; [exact Ha4|exact W6|done|exact Q6|]. intros p' s7 b (V1 & V2 & [C1 C2 C3 C4]) Hb Hk. fold n in Hk |- *.
    apply wp_bind, close_wp; [by rewrite C1|]. intros r s8 [D1 D2 D3 D4] E8. apply wp_ret. exists p', b.
    split_and!; [done| |congruence| |done|keeps Hk].
    - rewrite D1, C1, B1. clear -Hf. set_solver.
    - split; [by rewrite <- B2|]. by rewrite D2, C2, B2.
Qed.
End granted.

(** ** Concrete runs *)

Import Loopback.

(** Twelve neighbours take 576 bytes. *)
Lemma get_arp_cache_answers_witness :
  let l := replicate 12 one_neighbour in
  exists p b s', get_arp_cache None (start [enc_neighbours l; [7]]) = Some ((576, Some p), s') /\
    fds s' = {[0; 1; 2]} /\ bytes b = enc_neighbours l /\ kern s' = [[7]] /\
    ArpCache.parse_arp_cache (bytes b) 13 3 15 576 (empty_cache 12) = Some (12, expected (empty_cache 12) l 0).
Proof.
  intros l. destruct (get_arp_cache_answers (fun q => q) 15 l (empty_cache 12) [[7]] 13 3 None (start [enc_neighbours l; [7]]))
    as (r & p & b & s' & H1 & H2 & H3 & H4 & H5 & H6).
  - apply start_ok.
  - vm_compute. reflexivity.
  - reflexivity.
  - repeat constructor; vm_compute; done.
  - repeat constructor; vm_compute; done.
  - cbn. lia.
  - cbn. lia.
  - repeat constructor; cbn; lia.
  - change (512 <? zlen (enc_neighbours l)) with true in H6. destruct H6 as (-> & H6 & H7).
    exists p, b, s'. split_and!; [exact H1|exact H2|exact H5|exact H6|exact H7].
Defined.

(** A datagram of twelve neighbours. *)
Lemma send_recv_leaves_witness :
  exists r s', send_recv getneigh_req None (start [enc_neighbours (replicate 12 one_neighbour)]) = Some (r, s') /\ devices s' = [] /\
    send_recv_left getneigh_req None (start [enc_neighbours (replicate 12 one_neighbour)]) r s'.
Proof.
  apply (send_recv_leaves getneigh_req None (start [enc_neighbours (replicate 12 one_neighbour)])); [apply start_ok|vm_compute; reflexivity].
Defined.

(** A kernel whose allocator grants up to 512 bytes. *)
Definition short_memory : NetKernel (list (list Z)) := {|
  k_socket := k_socket; k_fchmod := k_fchmod; k_getfl := k_getfl; k_setfl := k_setfl; k_setsockopt := k_setsockopt;
  k_send := k_send; k_select := k_select; k_recv := k_recv; k_close := k_close;
  k_alloc n q := (n <=? 512, q); k_calloc := k_calloc
|}.

(** The socket left open when its options are refused
    ([src/netlink_arp_cache/libnlarpcache.c], lines 104 to 107), the block of 512
    bytes left when [realloc] fails (line 154), the answer of one neighbour that is
    received and not reported, and [FD_SET] on the descriptor 1024. *)
Theorem arp_transfer_defects :
  (exists s', @get_arp_cache _ (loopback (-1) true) None (start []) = Some ((-2, None), s') /\ fds s' = {[0; 1; 2; 3]})
  /\ (exists s', @get_arp_cache _ short_memory None (start [enc_neighbours (replicate 12 one_neighbour)]) = Some ((-1, None), s')
       /\ bufs s' !! (100 : loc) = Some (Buf 512 (take 512 (enc_neighbours (replicate 12 one_neighbour)))))
  /\ (exists s', @get_arp_cache _ (loopback 0 true) None (start [enc_neighbour one_neighbour]) = Some ((0, Some 100), s')
       /\ bufs s' !! (100 : loc) = Some (Buf 512 (enc_neighbour one_neighbour)))
  /\ @get_arp_cache _ crowded None (NW [] (list_to_set (seqZ 0 FD_SETSIZE)) ∅ 100 []) = None.
Proof. split_and!; try (vm_compute; reflexivity); eexists; (split; [vm_compute; reflexivity|]); vm_compute; reflexivity. Qed.
