(* ===== verification/TimeUtil.v ===== *)
(** * timeutil: the time zone cache and time arithmetic

    Models [src/timeutil/timeutil.c]: the parser of TZif files, the cached
    zone, the offset of a date, [timespec] arithmetic and the public functions.
    The environment, the files and the clocks are arguments. *)

From S2P Require Import Prelude.

Module TimeUtil.

Definition MAX_TZDATA_SIZE : Z := 8192.
Definition MAX_TZ_NAME_LEN : Z := 64.
Definition NSEC_PER_SEC : Z := 1000000000.
Definition NSEC_PER_MSEC : Z := 1000000.
Definition MSEC_PER_SEC : Z := 1000.

(** ** Big-endian reads; a read outside the buffer is undefined *)

Section read.
Context {S : Type} (buf : list Z).
Definition byte (i : Z) : M S Z := of_option (znth buf i).

Definition rd_be32 (p : Z) : M S Z :=
  b0 ← byte p; b1 ← byte (p + 1); b2 ← byte (p + 2); b3 ← byte (p + 3);
  mret (Z.lor (Z.lor (Z.lor (Z.shiftl b0 24) (Z.shiftl b1 16)) (Z.shiftl b2 8)) b3).

Definition rd_be32s (p : Z) : M S Z := v ← rd_be32 p; mret (s32 v).

Definition rd_be64s (p : Z) : M S Z :=
  b0 ← byte p; b1 ← byte (p + 1); b2 ← byte (p + 2); b3 ← byte (p + 3);
  b4 ← byte (p + 4); b5 ← byte (p + 5); b6 ← byte (p + 6); b7 ← byte (p + 7);
  let v := Z.lor (Z.lor (Z.lor (Z.lor (Z.lor (Z.lor (Z.lor
             (Z.shiftl b0 56) (Z.shiftl b1 48)) (Z.shiftl b2 40)) (Z.shiftl b3 32))
             (Z.shiftl b4 24)) (Z.shiftl b5 16)) (Z.shiftl b6 8)) b7 in
  if Z.testbit v 63 then mret ((v - 2 ^ 63) + (- 2 ^ 63)) else mret v.

(** [memcmp(p, "TZif", 4) == 0] *)
Definition is_tzif (p : Z) : M S bool :=
  a ← byte p; b ← byte (p + 1); c ← byte (p + 2); d ← byte (p + 3);
  mret ((a =? 84) && (b =? 90) && (c =? 105) && (d =? 102)).
End read.

(** ** [timespec] *)

Record timespec := TS { tv_sec : Z; tv_nsec : Z }.

Definition timespec_add (a b : timespec) : timespec :=
  let s := s64 (tv_sec a + tv_sec b) in
  let n := s64 (tv_nsec a + tv_nsec b) in
  if NSEC_PER_SEC <=? n then TS (s64 (s + 1)) (s64 (n - NSEC_PER_SEC)) else TS s n.

Definition timespec_sub (a b : timespec) : timespec :=
  let s := s64 (tv_sec a - tv_sec b) in
  let n := s64 (tv_nsec a - tv_nsec b) in
  if n <? 0 then TS (s64 (s - 1)) (s64 (n + NSEC_PER_SEC)) else TS s n.

Definition tu_diff_ts (start fin : timespec) : timespec :=
  if tv_nsec fin <? tv_nsec start then
    TS (s64 (tv_sec fin - tv_sec start - 1)) (s64 (NSEC_PER_SEC + tv_nsec fin - tv_nsec start))
  else TS (s64 (tv_sec fin - tv_sec start)) (s64 (tv_nsec fin - tv_nsec start)).

(** ** [gmtime_r]: the day of the year, [None] where the year does not fit *)

Definition days_of (t : Z) : Z := t / 86400.

(** The Gregorian year and the day of that year, from 1 January = 0. *)
Definition civil (days : Z) : Z * Z :=
  let z := days + 719468 in
  let era := z / 146097 in
  let doe := z mod 146097 in
  let yoe := (doe - doe / 1460 + doe / 36524 - doe / 146096) / 365 in
  let doy := doe - (365 * yoe + yoe / 4 - yoe / 100) in
  let y := yoe + era * 400 in
  if 306 <=? doy then (y + 1, doy - 306)
  else
    let leap := ((y mod 4 =? 0) && negb (y mod 100 =? 0)) || (y mod 400 =? 0) in
    (y, doy + 59 + (if leap then 1 else 0)).

Definition gmtime_yday (t : Z) : option Z :=
  let c := civil (days_of t) in
  if (- 2 ^ 31 <=? fst c - 1900) && (fst c - 1900 <? 2 ^ 31) then Some (snd c) else None.

(** ** TZif files: [parse_tzdata] *)

Record tzif_header_t := Hdr {
  ttisgmtcnt : Z; ttisstdcnt : Z; leapcnt : Z; timecnt : Z; typecnt : Z; charcnt : Z
}.

Record parsed_tz_t := Tz {
  standard_offset : Z; daylight_offset : Z;
  summer_start_yday : Z; winter_start_yday : Z;
  has_dst : bool; valid : bool;
  zone_name : list Z; posix_tail : list Z
}.

Definition rd_header {S} (buf : list Z) (p : Z) : M S tzif_header_t :=
  a ← rd_be32 buf p; b ← rd_be32 buf (p + 4); c ← rd_be32 buf (p + 8);
  d ← rd_be32 buf (p + 12); e ← rd_be32 buf (p + 16); f ← rd_be32 buf (p + 20);
  mret (Hdr a b c d e f).

(** The sizes are [uint32_t]: they wrap. *)
Definition block_size (time_size leap_size : Z) (h : tzif_header_t) : Z :=
  u32 (timecnt h * time_size + timecnt h + typecnt h * 6 + charcnt h + leapcnt h * leap_size
       + ttisstdcnt h + ttisgmtcnt h).

Record scan := Scan { last_sum : Z; last_win : Z; off_sum : Z; off_win : Z; saw_dst : bool }.

(** The loop over the transitions, from index [i], [n] to go. *)
Fixpoint transitions {S} (buf : list Z) (ttimes types ttinfo typecnt : Z) (n : nat) (i : Z) (s : scan) : M S scan :=
  match n with
  | O => mret s
  | Datatypes.S n =>
      t ← rd_be64s buf (ttimes + i * 8);
      idx ← byte buf (types + i);
      if typecnt <=? idx then transitions buf ttimes types ttinfo typecnt n (i + 1) s
      else
        off ← rd_be32s buf (ttinfo + idx * 6);
        isdst ← byte buf (ttinfo + idx * 6 + 4);
        match gmtime_yday t with
        | None => transitions buf ttimes types ttinfo typecnt n (i + 1) s
        | Some yday =>
            let s := if negb (isdst =? 0) then Scan yday (last_win s) off (off_win s) true
                     else Scan (last_sum s) yday (off_sum s) off (saw_dst s) in
            transitions buf ttimes types ttinfo typecnt n (i + 1) s
        end
  end.

(** The bytes before the first newline ([memchr]), or all of them. *)
Fixpoint until_nl (l : list Z) : list Z :=
  match l with
  | [] => []
  | b :: l => if b =? 10 then [] else b :: until_nl l
  end.

(** The string up to its terminator. *)
Fixpoint cstr (l : list Z) : list Z :=
  match l with
  | [] => []
  | b :: l => if b =? 0 then [] else b :: cstr l
  end.

Definition parse_posix_tail (buf : list Z) (tail : Z) (out : parsed_tz_t) : parsed_tz_t :=
  match znth buf tail with
  | Some 10 =>
      let text := until_nl (drop (Z.to_nat (tail + 1)) buf) in
      let n := if 128 <=? zlen text then 127 else zlen text in
      let posix := take (Z.to_nat n) text in
      Tz (standard_offset out) (daylight_offset out) (summer_start_yday out) (winter_start_yday out)
        (bool_decide (44 ∈ cstr posix)) (valid out) (zone_name out) (cstr posix)
  | _ => out
  end.

Definition parse_tzdata {S} (buf : list Z) : M S (Z * option parsed_tz_t) :=
  let sz := zlen buf in
  if sz <? 44 then mret (-1, None)
  else
    magic ← is_tzif buf 0;
    if negb magic then mret (-1, None)
    else
      h ← rd_header buf 20;
      if (timecnt h =? 0) || (typecnt h =? 0) then mret (-1, None)
      else
        let skip := block_size 4 8 h in
        if sz <? 44 + skip then mret (-1, None)
        else
          let p := 44 + skip in
          magic ← is_tzif buf p;
          if negb magic then mret (-1, None)
          else
            h ← rd_header buf (p + 20);
            let p := p + 44 in
            if (timecnt h =? 0) || (typecnt h =? 0) then mret (-1, None)
            else
              let blk := block_size 8 12 h in
              if sz <? p + blk then mret (-1, None)
              else
                let ttimes := p in
                let types := p + u32 (timecnt h * 8) in
                let ttinfo := types + timecnt h in
                s ← transitions buf ttimes types ttinfo (typecnt h) (Z.to_nat (timecnt h)) 0 (Scan (-1) (-1) 0 0 false);
                let out := Tz (off_win s) (if saw_dst s then off_sum s else off_win s)
                             (if saw_dst s then s16 (last_sum s) else -1) (if saw_dst s then s16 (last_win s) else -1)
                             (saw_dst s) true [] [] in
                mret (0, Some (parse_posix_tail buf (p + blk) out)).

(** ** Finding and loading the zone *)

Section system.
(** [getenv("TZ")], the first line of [/etc/timezone] as [fgets] gives it, and
    the files by path: the size [fstat] reports and the bytes [read] gives. *)
Context (getenv_TZ : option (list Z)) (etc_timezone : option (list Z))
  (file : list Z -> option (Z * list Z)).

(** [strncpy] into [cap] bytes, the last one zeroed; as a string. *)
Definition strncpy0 (cap : Z) (s : list Z) : list Z := take (Z.to_nat (cap - 1)) (cstr s).

Definition UTC : list Z := [85; 84; 67].

Definition get_system_tz_name (cap : Z) : list Z :=
  match getenv_TZ with
  | Some tz => strncpy0 cap tz
  | None =>
      match etc_timezone with
      | Some line => until_nl (strncpy0 cap line)
      | None => strncpy0 cap UTC
      end
  end.

(** "/usr/share/zoneinfo/", "/usr/lib/zoneinfo/", "/etc/zoneinfo/" *)
Definition zone_paths : list (list Z) :=
  [[47;117;115;114;47;115;104;97;114;101;47;122;111;110;101;105;110;102;111;47];
   [47;117;115;114;47;108;105;98;47;122;111;110;101;105;110;102;111;47];
   [47;101;116;99;47;122;111;110;101;105;110;102;111;47]].

Fixpoint open_first (paths : list (list Z)) (name : list Z) : option (Z * list Z) :=
  match paths with
  | [] => None
  | p :: paths =>
      match file (take 255 (p ++ name)) with
      | Some f => Some f
      | None => open_first paths name
      end
  end.

Definition load_and_parse_tz {S} (name : list Z) : M S (option parsed_tz_t) :=
  match open_first zone_paths name with
  | None => mret None
  | Some (st_size, bytes) =>
      if MAX_TZDATA_SIZE <? st_size then mret None
      else if negb (zlen bytes =? st_size) then mret None
      else
        r ← parse_tzdata bytes;
        match r with
        | (0, Some tz) =>
            mret (Some (Tz (standard_offset tz) (daylight_offset tz) (summer_start_yday tz) (winter_start_yday tz)
                          (has_dst tz) (valid tz) (strncpy0 MAX_TZ_NAME_LEN name) (posix_tail tz)))
        | _ => mret None
        end
  end.

(** ** The cache *)

Record cache := Cache { g_tz : parsed_tz_t; g_tz_version : Z; g_ts_real_mono_off : timespec }.

Definition tu_update_offset : M cache unit :=
  let name := get_system_tz_name MAX_TZ_NAME_LEN in
  tz ← gets g_tz;
  if valid tz && bool_decide (name = zone_name tz) then mret tt
  else
    tmp ← load_and_parse_tz name;
    match tmp with
    | Some tmp => modify (fun c => Cache tmp (u32 (g_tz_version c + 1)) (g_ts_real_mono_off c))
    | None => mret tt
    end.

Definition tu_update_mono_real_offset (mono real : timespec) : M cache unit :=
  modify (fun c => Cache (g_tz c) (g_tz_version c) (timespec_sub real mono)).

Definition tu_init (mono real : timespec) : M cache unit :=
  tu_update_offset;; tu_update_mono_real_offset mono real.
End system.

Definition fast_calc_offset (tz : parsed_tz_t) (t : Z) : option Z :=
  if negb (has_dst tz) then Some (standard_offset tz)
  else
    yday ← gmtime_yday t;
    Some (if summer_start_yday tz <? winter_start_yday tz then
            if (summer_start_yday tz <=? yday) && (yday <? winter_start_yday tz) then daylight_offset tz
            else standard_offset tz
          else if (summer_start_yday tz <=? yday) || (yday <? winter_start_yday tz) then daylight_offset tz
          else standard_offset tz).

Definition tu_get_cached_tz_off : M cache Z := gets (fun c => standard_offset (g_tz c)).

Definition EINVAL : Z := 22.

(** [clock] is what [clock_gettime] gives, [None] when it fails. *)
Definition tu_clock_gettime_monotonic_ms (clock : option timespec) : Z :=
  match clock with
  | None => 0
  | Some ts => u64 (u64 (tv_sec ts) * MSEC_PER_SEC + u64 (Z.quot (tv_nsec ts) NSEC_PER_MSEC))
  end.

Definition tu_clock_gettime_local (clock : option timespec) : M cache (Z * option timespec) :=
  match clock with
  | None => mret (EINVAL, None)
  | Some ts =>
      tz ← gets g_tz;
      off ← of_option (fast_calc_offset tz (tv_sec ts));
      mret (0, Some (TS (s64 (tv_sec ts + off)) (tv_nsec ts)))
  end.

Definition tu_clock_gettime_local_mono (clock : option timespec) : M cache (Z * option timespec) :=
  match clock with
  | None => mret (EINVAL, None)
  | Some ts =>
      o ← gets g_ts_real_mono_off;
      let s := s64 (tv_sec ts + tv_sec o) in
      let n := s64 (tv_nsec ts + tv_nsec o) in
      let ts := if NSEC_PER_SEC <=? n then TS (s64 (s + 1)) (s64 (n - NSEC_PER_SEC)) else TS s n in
      tz ← gets g_tz;
      off ← of_option (fast_calc_offset tz (tv_sec ts));
      mret (0, Some (TS (s64 (tv_sec ts + off)) (tv_nsec ts)))
  end.

(** The [timespec] that [msleep] passes to [nanosleep]. *)
Definition msleep (ms : Z) : timespec := TS (ms / MSEC_PER_SEC) (ms mod MSEC_PER_SEC * NSEC_PER_MSEC).

Definition atomic_ts_load (src : timespec) : timespec := TS (tv_sec src) (tv_nsec src).
Definition atomic_ts_store (src : timespec) : timespec := TS (tv_sec src) (tv_nsec src).
Definition atomic_ts_cpy (src : timespec) : timespec := atomic_ts_store (atomic_ts_load src).

End TimeUtil.
