(* ===== verification/TimeUtilSpec.v ===== *)
(** * timeutil: what the module promises *)

From S2P Require Import Prelude TimeUtil.
Import TimeUtil.

(** ** Byte sequences inside a buffer *)

Definition has (buf : list Z) (p : Z) (l : list Z) : Prop := exists pre post, buf = pre ++ l ++ post /\ zlen pre = p.

Lemma has_app buf p l1 l2 : has buf p (l1 ++ l2) -> has buf p l1 /\ has buf (p + zlen l1) l2.
Proof.
  intros (pre & post & -> & <-). split.
  - exists pre, (l2 ++ post). by rewrite <- app_assoc.
  - exists (pre ++ l1), post. rewrite zlen_app. by rewrite <- !app_assoc.
Qed.

Lemma has_cons buf p b l : has buf p (b :: l) -> znth buf p = Some b /\ has buf (p + 1) l.
Proof.
  intros H. apply (has_app buf p [b] l) in H as [(pre & post & -> & <-) H2]. split; [|done].
  unfold znth, zlen. destruct (Z.ltb_spec (Z.of_nat (length pre)) 0); [lia|]. rewrite Nat2Z.id. cbn. by apply list_lookup_middle.
Qed.

Lemma has_nth buf p l i b : has buf p l -> znth l i = Some b -> znth buf (p + i) = Some b.
Proof.
  intros (pre & post & -> & <-) H. pose proof (znth_Some_range _ _ _ H). unfold znth, zlen in *.
  destruct (Z.ltb_spec (Z.of_nat (length pre) + i) 0), (Z.ltb_spec i 0); try lia.
  rewrite lookup_app_r by lia. replace (Z.to_nat (Z.of_nat (length pre) + i) - length pre)%nat with (Z.to_nat i) by lia.
  rewrite lookup_app_l by lia. done.
Qed.

Lemma has_hd buf p b l : has buf p (b :: l) -> znth buf p = Some b.
Proof. intros H. by apply has_cons in H as [H _]. Qed.

Lemma has_bound buf p l : has buf p l -> 0 <= p /\ p + zlen l <= zlen buf.
Proof. intros (pre & post & -> & <-). rewrite !zlen_app. pose proof (zlen_nonneg pre). pose proof (zlen_nonneg post). lia. Qed.

Lemma byte_wp {S} buf p b (Q : Z -> S -> Prop) m : znth buf p = Some b -> Q b m -> wp (byte buf p) Q m.
Proof. intros H HQ. unfold byte. rewrite H. by apply wp_ret. Qed.

(** ** Big-endian numbers *)

Definition be32 (v : Z) : list Z := [v / 2 ^ 24 mod 256; v / 2 ^ 16 mod 256; v / 2 ^ 8 mod 256; v mod 256].
Definition be64 (v : Z) : list Z := be32 (v / 2 ^ 32) ++ be32 v.

Lemma be_step x b n : 0 <= b < 256 -> 0 <= n -> Z.lor (Z.shiftl x (n + 8)) (Z.shiftl b n) = Z.shiftl (x * 256 + b) n.
Proof.
  intros Hb Hn. rewrite Z.add_comm, <- Z.shiftl_shiftl, <- Z.shiftl_lor by lia. f_equal.
  rewrite Z.shiftl_mul_pow2 by lia. change (2 ^ 8) with 256. symmetry.
  rewrite <- Z.lxor_lor, <- Z.add_nocarry_lxor; [done| |]; change 256 with (2 ^ 8); rewrite <- Z.shiftl_mul_pow2 by lia;
    apply Z.bits_inj'; intros i Hi; rewrite Z.land_spec, Z.bits_0; destruct (Z.lt_ge_cases i 8).
  - by rewrite Z.shiftl_spec_low.
  - rewrite (Z.bits_above_log2 b i), andb_false_r; [done|lia|].
    destruct (decide (b = 0)) as [->|]; [cbn; lia|]. apply Z.log2_lt_pow2; [lia|]. apply Z.lt_le_trans with (2 ^ 8); [lia|]. apply Z.pow_le_mono_r; lia.
  - by rewrite Z.shiftl_spec_low.
  - rewrite (Z.bits_above_log2 b i), andb_false_r; [done|lia|].
    destruct (decide (b = 0)) as [->|]; [cbn; lia|]. apply Z.log2_lt_pow2; [lia|]. apply Z.lt_le_trans with (2 ^ 8); [lia|]. apply Z.pow_le_mono_r; lia.
Qed.

Definition be_value (l : list Z) : Z := foldl (fun x b => x * 256 + b) 0 l.

Lemma lor_bytes4 b0 b1 b2 b3 :
  Forall (fun b => 0 <= b < 256) [b0; b1; b2; b3] ->
  Z.lor (Z.lor (Z.lor (Z.shiftl b0 24) (Z.shiftl b1 16)) (Z.shiftl b2 8)) b3 = be_value [b0; b1; b2; b3].
Proof.
  rewrite !Forall_cons. intros (H0 & H1 & H2 & H3 & _).
  change 24 with (16 + 8). rewrite be_step by lia. change 16 with (8 + 8) at 1. rewrite be_step by lia.
  replace b3 with (Z.shiftl b3 0) at 1 by apply Z.shiftl_0_r. change 8 with (0 + 8) at 1. rewrite be_step by lia.
  by rewrite Z.shiftl_0_r.
Qed.

Lemma lor_bytes8 b0 b1 b2 b3 b4 b5 b6 b7 :
  Forall (fun b => 0 <= b < 256) [b0; b1; b2; b3; b4; b5; b6; b7] ->
  Z.lor (Z.lor (Z.lor (Z.lor (Z.lor (Z.lor (Z.lor
    (Z.shiftl b0 56) (Z.shiftl b1 48)) (Z.shiftl b2 40)) (Z.shiftl b3 32))
    (Z.shiftl b4 24)) (Z.shiftl b5 16)) (Z.shiftl b6 8)) b7 = be_value [b0; b1; b2; b3; b4; b5; b6; b7].
Proof.
  rewrite !Forall_cons. intros (H0 & H1 & H2 & H3 & H4 & H5 & H6 & H7 & _).
  change 56 with (48 + 8). rewrite be_step by lia. change 48 with (40 + 8) at 1. rewrite be_step by lia.
  change 40 with (32 + 8) at 1. rewrite be_step by lia. change 32 with (24 + 8) at 1. rewrite be_step by lia.
  change 24 with (16 + 8) at 1. rewrite be_step by lia. change 16 with (8 + 8) at 1. rewrite be_step by lia.
  replace b7 with (Z.shiftl b7 0) at 1 by apply Z.shiftl_0_r. change 8 with (0 + 8) at 1. rewrite be_step by lia.
  by rewrite Z.shiftl_0_r.
Qed.

Lemma byte_range v : 0 <= v mod 256 < 256.
Proof. apply Z.mod_pos_bound. lia. Qed.

Lemma be32_value v : be_value (be32 v) = v mod 2 ^ 32.
Proof. unfold be_value, be32. cbn [foldl]. change (2 ^ 24) with 16777216. change (2 ^ 16) with 65536. change (2 ^ 8) with 256.
  change (2 ^ 32) with 4294967296. div_lia.
Qed.

Lemma rd_be32_wp {S} buf p v (Q : Z -> S -> Prop) m : has buf p (be32 v) -> Q (v mod 2 ^ 32) m -> wp (rd_be32 buf p) Q m.
Proof.
  intros H HQ. unfold be32 in H. pose proof (has_hd _ _ _ _ H) as H0.
  pose proof (has_nth _ _ _ 1 _ H eq_refl) as H1. pose proof (has_nth _ _ _ 2 _ H eq_refl) as H2.
  pose proof (has_nth _ _ _ 3 _ H eq_refl) as H3. unfold rd_be32.
  do 4 (apply wp_bind; eapply byte_wp; [done|]). apply wp_ret.
  rewrite lor_bytes4 by (repeat constructor; apply byte_range). pose proof (be32_value v) as E. unfold be32 in E. by rewrite E.
Qed.

Lemma s32_mod v : - 2 ^ 31 <= v < 2 ^ 31 -> s32 (v mod 2 ^ 32) = v.
Proof.
  intros H. unfold swrap. change (2 ^ (32 - 1)) with (2 ^ 31). rewrite Zplus_mod_idemp_l, Z.mod_small; lia.
Qed.

Lemma rd_be32s_wp {S} buf p v (Q : Z -> S -> Prop) m :
  has buf p (be32 v) -> - 2 ^ 31 <= v < 2 ^ 31 -> Q v m -> wp (rd_be32s buf p) Q m.
Proof. intros H Hv HQ. eapply wp_bind, rd_be32_wp; [done|]. rewrite s32_mod by done. by apply wp_ret. Qed.

Lemma be64_value v : be_value (be64 v) = v mod 2 ^ 64.
Proof.
  unfold be64, be_value. rewrite foldl_app. pose proof (be32_value (v / 2 ^ 32)) as H. unfold be_value in H. rewrite H.
  unfold be32. cbn [foldl]. pose proof (be32_value v) as H2. unfold be_value, be32 in H2. cbn [foldl] in H2.
  replace (v mod 2 ^ 64) with ((v / 2 ^ 32) mod 2 ^ 32 * 2 ^ 32 + v mod 2 ^ 32); [lia|].
  change (2 ^ 64) with (2 ^ 32 * 2 ^ 32). rewrite Z.rem_mul_r by lia. lia.
Qed.

Lemma testbit_63 v : 0 <= v < 2 ^ 64 -> Z.testbit v 63 = (2 ^ 63 <=? v).
Proof.
  intros H. rewrite Z.testbit_odd, Z.shiftr_div_pow2 by lia. destruct (Z.leb_spec (2 ^ 63) v).
  - replace (v / 2 ^ 63) with 1; [done|]. apply (Z.div_unique _ _ _ (v - 2 ^ 63)); lia.
  - by rewrite Z.div_small by lia.
Qed.

Lemma rd_be64s_wp {S} buf p v (Q : Z -> S -> Prop) m :
  has buf p (be64 v) -> - 2 ^ 63 <= v < 2 ^ 63 -> Q v m -> wp (rd_be64s buf p) Q m.
Proof.
  intros H Hv HQ. pose proof (be64_value v) as E. unfold be64, be32 in H, E. cbn [app] in H, E.
  pose proof (has_hd _ _ _ _ H) as H0. pose proof (has_nth _ _ _ 1 _ H eq_refl). pose proof (has_nth _ _ _ 2 _ H eq_refl).
  pose proof (has_nth _ _ _ 3 _ H eq_refl). pose proof (has_nth _ _ _ 4 _ H eq_refl). pose proof (has_nth _ _ _ 5 _ H eq_refl).
  pose proof (has_nth _ _ _ 6 _ H eq_refl). pose proof (has_nth _ _ _ 7 _ H eq_refl).
  unfold rd_be64s. do 8 (apply wp_bind; eapply byte_wp; [done|]).
  rewrite lor_bytes8 by (repeat constructor; apply byte_range). rewrite E.
  rewrite testbit_63 by (apply Z.mod_pos_bound; lia). destruct (Z.leb_spec (2 ^ 63) (v mod 2 ^ 64)); apply wp_ret.
  - replace (v mod 2 ^ 64 - 2 ^ 63 + - 2 ^ 63) with v; [done|].
    rewrite <- (Z.mod_add v 1 (2 ^ 64)) in * by lia.
    destruct (Z.le_gt_cases 0 v); [rewrite Z.mod_add, Z.mod_small in * by lia; lia|]. rewrite Z.mod_small by lia. lia.
  - destruct (Z.le_gt_cases 0 v); [by rewrite Z.mod_small by lia|].
    rewrite <- (Z.mod_add v 1 (2 ^ 64)), Z.mod_small in * by lia. lia.
Qed.

(** ** TZif files *)

(** Local time types: offset, whether it is daylight time, abbreviation index. *)
Record ttype := TT { tt_off : Z; tt_isdst : Z; tt_abbr : Z }.

Record tzfile := TzFile {
  v1_header : tzif_header_t; v1_body : list Z; version1 : list Z; version2 : list Z;
  leaps : Z; stds : Z; gmts : Z; chars : Z;
  times : list (Z * Z);       (* transition, index of its type *)
  ttypes : list ttype;
  rest : list Z;              (* abbreviations, leap seconds, indicators *)
  footer : list Z
}.

Definition magic : list Z := [84; 90; 105; 102].
Definition enc_header (version : list Z) (h : tzif_header_t) : list Z :=
  magic ++ version ++ be32 (ttisgmtcnt h) ++ be32 (ttisstdcnt h) ++ be32 (leapcnt h) ++ be32 (timecnt h)
  ++ be32 (typecnt h) ++ be32 (charcnt h).

Definition v2_header (f : tzfile) : tzif_header_t :=
  Hdr (gmts f) (stds f) (leaps f) (zlen (times f)) (zlen (ttypes f)) (chars f).

Definition enc_ttype (t : ttype) : list Z := be32 (tt_off t) ++ [tt_isdst t; tt_abbr t].

Definition enc_tzif (f : tzfile) : list Z :=
  enc_header (version1 f) (v1_header f) ++ v1_body f ++ enc_header (version2 f) (v2_header f)
  ++ concat ((fun x => be64 (fst x)) <$> times f) ++ (snd <$> times f) ++ concat (enc_ttype <$> ttypes f)
  ++ rest f ++ footer f.

Definition u32_ok (z : Z) : Prop := 0 <= z < 2 ^ 32.
Definition header_ok (h : tzif_header_t) : Prop :=
  u32_ok (ttisgmtcnt h) /\ u32_ok (ttisstdcnt h) /\ u32_ok (leapcnt h) /\ u32_ok (timecnt h) /\ u32_ok (typecnt h)
  /\ u32_ok (charcnt h).

(** The true size of a data block, which must not wrap. *)
Definition true_size (time_size leap_size : Z) (h : tzif_header_t) : Z :=
  timecnt h * time_size + timecnt h + typecnt h * 6 + charcnt h + leapcnt h * leap_size + ttisstdcnt h + ttisgmtcnt h.

Record tzfile_ok (f : tzfile) : Prop := {
  ok_h1 : header_ok (v1_header f);
  ok_h2 : header_ok (v2_header f);
  ok_v1 : zlen (version1 f) = 16;
  ok_v2 : zlen (version2 f) = 16;
  ok_b1 : zlen (v1_body f) = true_size 4 8 (v1_header f) /\ true_size 4 8 (v1_header f) < 2 ^ 32;
  ok_rest : zlen (rest f) = chars f + leaps f * 12 + stds f + gmts f /\ true_size 8 12 (v2_header f) < 2 ^ 32;
  ok_times : Forall (fun x => - 2 ^ 63 <= fst x < 2 ^ 63 /\ 0 <= snd x < 256) (times f);
  ok_types : Forall (fun t => - 2 ^ 31 <= tt_off t < 2 ^ 31) (ttypes f)
}.

(** The dates and offsets of the transitions to daylight time ([true]) or to
    standard time; a transition of an unknown type or year is skipped. *)
Definition transition (types : list ttype) (dst : bool) (x : Z * Z) : option (Z * Z) :=
  t ← znth types (snd x);
  yday ← gmtime_yday (fst x);
  if bool_decide (dst = negb (tt_isdst t =? 0)) then Some (yday, tt_off t) else None.

Definition switches (f : tzfile) (dst : bool) : list (Z * Z) := omap (transition (ttypes f) dst) (times f).

(** What the parser makes of the file: the last switch of each kind. *)
Definition expected_tz (f : tzfile) : parsed_tz_t :=
  let sum := last (switches f true) in
  let win := last (switches f false) in
  let off_win := default 0 (snd <$> win) in
  let tz :=
    Tz off_win (default off_win (snd <$> sum))
      (default (-1) (fst <$> sum))
      (if sum then default (-1) (fst <$> win) else -1)
      (bool_decide (is_Some sum)) true [] [] in
  match footer f with
  | 10 :: text =>
      let posix := cstr (take (if 128 <=? zlen (until_nl text) then 127 else Z.to_nat (zlen (until_nl text))) (until_nl text)) in
      Tz (standard_offset tz) (daylight_offset tz) (summer_start_yday tz) (winter_start_yday tz)
        (bool_decide (44 ∈ posix)) true [] posix
  | _ => tz
  end.

Lemma has_concat {A} (f : A -> list Z) k l buf p i x :
  (forall y, zlen (f y) = k) -> has buf p (concat (f <$> l)) -> znth l i = Some x -> has buf (p + i * k) (f x).
Proof.
  intros Hk. revert p i. induction l as [|y l IH]; intros p i H Hi; cbn in *.
  - unfold znth in Hi. by destruct (i <? 0).
  - apply has_app in H as [H1 H2]. unfold znth in Hi. destruct (Z.ltb_spec i 0); [done|].
    destruct (Z.eqb_spec i 0) as [->|].
    + injection Hi as <-. by rewrite Z.add_0_r.
    + replace (p + i * k) with (p + zlen (f y) + (i - 1) * k) by (rewrite Hk; lia). apply IH; [done|].
      unfold znth. destruct (Z.ltb_spec (i - 1) 0); [lia|]. by replace (Z.to_nat i) with (Datatypes.S (Z.to_nat (i - 1))) in Hi by lia.
Qed.

(** The state of the loop after the transitions [l]. *)
Definition scan_of (types : list ttype) (l : list (Z * Z)) : scan :=
  let sum := last (omap (transition types true) l) in
  let win := last (omap (transition types false) l) in
  Scan (default (-1) (fst <$> sum)) (default (-1) (fst <$> win)) (default 0 (snd <$> sum)) (default 0 (snd <$> win))
    (bool_decide (is_Some sum)).

Lemma omap_snoc {A B} (f : A -> option B) l x : omap f (l ++ [x]) = omap f l ++ option_list (f x).
Proof. rewrite omap_app. f_equal. Qed.

Lemma scan_of_skip types l x : transition types true x = None -> transition types false x = None ->
  scan_of types (l ++ [x]) = scan_of types l.
Proof. intros H1 H2. unfold scan_of. rewrite !omap_snoc, H1, H2. cbn. by rewrite !app_nil_r. Qed.

Lemma scan_of_switch types l x t yday :
  znth types (snd x) = Some t -> gmtime_yday (fst x) = Some yday ->
  scan_of types (l ++ [x]) =
    let s := scan_of types l in
    if negb (tt_isdst t =? 0) then Scan yday (last_win s) (tt_off t) (off_win s) true
    else Scan (last_sum s) yday (off_sum s) (tt_off t) (saw_dst s).
Proof.
  intros Ht Hy.
  assert (forall dst, transition types dst x = if Bool.eqb dst (negb (tt_isdst t =? 0)) then Some (yday, tt_off t) else None) as E.
  { intros dst. unfold transition. rewrite Ht, Hy. cbn. by destruct dst, (tt_isdst t =? 0). }
  unfold scan_of. rewrite !omap_snoc, !E. destruct (tt_isdst t =? 0); cbn; rewrite ?app_nil_r, ?last_snoc; done.
Qed.

Lemma transitions_wp {S} buf f ttimes tys ttinfo todo done_ (Q : scan -> S -> Prop) m :
  times f = done_ ++ todo -> Forall (fun x => - 2 ^ 63 <= fst x < 2 ^ 63 /\ 0 <= snd x < 256) (times f) ->
  Forall (fun t => - 2 ^ 31 <= tt_off t < 2 ^ 31) (ttypes f) ->
  has buf ttimes (concat ((fun x => be64 (fst x)) <$> times f)) -> has buf tys (snd <$> times f) ->
  has buf ttinfo (concat (enc_ttype <$> ttypes f)) ->
  Q (scan_of (ttypes f) (times f)) m ->
  wp (transitions buf ttimes tys ttinfo (zlen (ttypes f)) (length todo) (zlen done_) (scan_of (ttypes f) done_)) Q m.
Proof.
  intros E Ht Hty B1 B2 B3 HQ. revert done_ E. induction todo as [|x todo IH]; intros done_ E; cbn [length transitions].
  { apply wp_ret. by rewrite app_nil_r in E; subst. }
  assert (znth (times f) (zlen done_) = Some x) as Hx.
  { rewrite E. unfold znth, zlen. destruct (Z.ltb_spec (Z.of_nat (length done_)) 0); [lia|]. rewrite Nat2Z.id. by apply list_lookup_middle. }
  assert (x ∈ times f) as Hin by (rewrite E; set_solver).
  rewrite Forall_forall in Ht. destruct (Ht x Hin) as [Ht1 Ht2].
  pose proof (has_concat (fun x : Z * Z => be64 (fst x)) 8 _ _ _ _ _ (fun _ => eq_refl) B1 Hx) as C1.
  apply wp_bind. eapply rd_be64s_wp; [exact C1|done|].
  apply wp_bind. eapply byte_wp; [eapply (has_nth _ _ _ _ (snd x) B2)|].
  { unfold znth in *. destruct (zlen done_ <? 0); [done|]. by rewrite list_lookup_fmap, Hx. }
  assert (zlen done_ + 1 = zlen (done_ ++ [x])) as El by (rewrite zlen_app; done).
  rewrite El. assert (times f = (done_ ++ [x]) ++ todo) as E' by by rewrite <- app_assoc.
  destruct (Z.leb_spec (zlen (ttypes f)) (snd x)).
  - rewrite <- (scan_of_skip (ttypes f) done_ x); [by apply IH|..];
      unfold transition, znth; (destruct (Z.ltb_spec (snd x) 0); [done|]);
      unfold zlen in *; by rewrite lookup_ge_None_2 by lia.
  - destruct (znth_is_Some (ttypes f) (snd x)) as [t Htt]; [lia|].
    pose proof (has_concat enc_ttype 6 _ _ _ _ _ (fun _ => eq_refl) B3 Htt) as C2. unfold enc_ttype in C2.
    apply has_app in C2 as [C2 C3]. change (zlen (be32 (tt_off t))) with 4 in C3.
    assert (- 2 ^ 31 <= tt_off t < 2 ^ 31) as Hoff.
    { rewrite Forall_forall in Hty. apply Hty. unfold znth in Htt. destruct (_ <? 0); [done|]. by eapply list_elem_of_lookup_2. }
    apply wp_bind. eapply rd_be32s_wp; [exact C2|done|]. apply wp_bind. eapply byte_wp; [by eapply has_hd|].
    destruct (gmtime_yday (fst x)) as [yday|] eqn:Ey.
    + pose proof (scan_of_switch (ttypes f) done_ x t yday Htt Ey) as Es. cbn zeta in Es. rewrite <- Es. by apply IH.
    + rewrite <- (scan_of_skip (ttypes f) done_ x); [by apply IH|..]; unfold transition; rewrite Htt, Ey; done.
Qed.

Lemma has_all buf : has buf 0 buf.
Proof. exists [], []. by rewrite app_nil_r. Qed.

Lemma is_tzif_wp {S} buf p r (Q : bool -> S -> Prop) m : has buf p (magic ++ r) -> Q true m -> wp (is_tzif buf p) Q m.
Proof.
  intros H HQ. pose proof (has_hd _ _ _ _ H) as H0. unfold is_tzif.
  apply wp_bind. eapply byte_wp; [done|]. apply wp_bind. eapply byte_wp; [by apply (has_nth _ _ _ 1 _ H)|].
  apply wp_bind. eapply byte_wp; [by apply (has_nth _ _ _ 2 _ H)|]. apply wp_bind. eapply byte_wp; [by apply (has_nth _ _ _ 3 _ H)|].
  by apply wp_ret.
Qed.

Lemma rd_header_wp {S} buf p version h (Q : tzif_header_t -> S -> Prop) m :
  has buf p (enc_header version h) -> zlen version = 16 -> header_ok h -> Q h m -> wp (rd_header buf (p + 20)) Q m.
Proof.
  intros H Hv (H1 & H2 & H3 & H4 & H5 & H6) HQ. unfold enc_header in H.
  apply has_app in H as [_ H]. apply has_app in H as [_ H]. rewrite Hv in H. change (zlen magic) with 4 in H.
  replace (p + 4 + 16) with (p + 20) in H by lia. unfold u32_ok in *.
  apply has_app in H as [A1 H]. apply has_app in H as [A2 H]. apply has_app in H as [A3 H].
  apply has_app in H as [A4 H]. apply has_app in H as [A5 A6].
  assert (forall z, zlen (be32 z) = 4) as E by done. rewrite !E, <- !Z.add_assoc in *. cbn [Z.add Pos.add Pos.succ] in *. clear E.
  unfold rd_header. rewrite <- !Z.add_assoc. cbn [Z.add Pos.add Pos.succ].
  do 6 (apply wp_bind; eapply rd_be32_wp; [eassumption|]). apply wp_ret. rewrite !Z.mod_small by lia. by destruct h.
Qed.

Lemma block_size_true ts ls h : header_ok h -> 0 <= ts -> 0 <= ls -> true_size ts ls h < 2 ^ 32 ->
  block_size ts ls h = true_size ts ls h /\ 0 <= true_size ts ls h.
Proof.
  intros (H1 & H2 & H3 & H4 & H5 & H6) ?? H. unfold u32_ok in *. unfold block_size. fold (true_size ts ls h).
  assert (0 <= true_size ts ls h) by (unfold true_size; nia). split; [apply wrap_small; lia|done].
Qed.

Lemma zlen_concat {A} (f : A -> list Z) k l : (forall y, zlen (f y) = k) -> zlen (concat (f <$> l)) = zlen l * k.
Proof. intros H. induction l as [|x l IH]; cbn; [done|]. rewrite zlen_app, H, IH. unfold zlen. cbn. lia. Qed.

Lemma zlen_enc_header v h : zlen v = 16 -> zlen (enc_header v h) = 44.
Proof. intros H. unfold enc_header. rewrite !zlen_app, H. done. Qed.

(** Where the parts of an encoded file are. *)
Lemma enc_tzif_layout f : tzfile_ok f ->
  let buf := enc_tzif f in
  let p2 := 44 + true_size 4 8 (v1_header f) in
  let p := p2 + 44 in
  has buf 0 (enc_header (version1 f) (v1_header f)) /\ has buf p2 (enc_header (version2 f) (v2_header f)) /\
  has buf p (concat ((fun x => be64 (fst x)) <$> times f)) /\ has buf (p + zlen (times f) * 8) (snd <$> times f) /\
  has buf (p + zlen (times f) * 8 + zlen (times f)) (concat (enc_ttype <$> ttypes f)) /\
  has buf (p + true_size 8 12 (v2_header f)) (footer f) /\
  zlen buf = p + true_size 8 12 (v2_header f) + zlen (footer f).
Proof.
  intros O buf p2 p. destruct (ok_b1 _ O) as [B1 _], (ok_rest _ O) as [B2 _].
  pose proof (has_all buf) as H. unfold buf at 2, enc_tzif in H.
  apply has_app in H as [A1 H]. rewrite zlen_enc_header in H by apply O.
  apply has_app in H as [_ H]. rewrite B1 in H. replace (0 + 44 + true_size 4 8 (v1_header f)) with p2 in H by (unfold p2; lia).
  apply has_app in H as [A2 H]. rewrite zlen_enc_header in H by apply O. fold p in H.
  apply has_app in H as [A3 H]. rewrite (zlen_concat _ 8) in H by done.
  apply has_app in H as [A4 H]. assert (zlen (snd <$> times f) = zlen (times f)) as Hs by (unfold zlen; by rewrite length_fmap).
  rewrite Hs in H. apply has_app in H as [A5 H]. rewrite (zlen_concat _ 6) in H by done.
  apply has_app in H as [_ A6]. rewrite B2 in A6.
  replace (p + zlen (times f) * 8 + zlen (times f) + zlen (ttypes f) * 6 + (chars f + leaps f * 12 + stds f + gmts f))
    with (p + true_size 8 12 (v2_header f)) in A6 by (unfold true_size; cbn; lia).
  split_and!; [done..|]. unfold buf, enc_tzif. rewrite !zlen_app, !zlen_enc_header, B1, (zlen_concat _ 8), (zlen_concat _ 6), B2, Hs
    by (try done; apply O). unfold p, p2, true_size. cbn. lia.
Qed.

(** The day of a 400-year era falls in its March-based year. *)
Definition doy_ok (doe : Z) : bool :=
  let yoe := (doe - doe / 1460 + doe / 36524 - doe / 146096) / 365 in
  let doy := doe - (365 * yoe + yoe / 4 - yoe / 100) in
  (0 <=? doy) && (doy <=? 365).

Fixpoint all_below (p : Z -> bool) (n : nat) (i : Z) : bool :=
  match n with
  | O => true
  | Datatypes.S n => p i && all_below p n (i + 1)
  end.

Lemma all_below_spec p n i : all_below p n i = true -> forall j, i <= j < i + Z.of_nat n -> p j = true.
Proof.
  revert i. induction n as [|n IH]; intros i H j Hj; [lia|]. cbn in H. apply andb_prop in H as [H1 H2].
  destruct (decide (j = i)) as [->|]; [done|]. apply (IH (i + 1)); [done|lia].
Qed.

Lemma doy_range doe : 0 <= doe < 146097 -> doy_ok doe = true.
Proof.
  intros H. apply (all_below_spec doy_ok (Z.to_nat 146097) 0); [|lia]. vm_compute. reflexivity.
Qed.

Lemma yday_range t y : gmtime_yday t = Some y -> 0 <= y <= 365.
Proof.
  unfold gmtime_yday. destruct (_ && _); [|done]. intros [= <-]. unfold civil.
  pose proof (Z.mod_pos_bound (days_of t + 719468) 146097 ltac:(lia)) as Hd.
  set (doe := (days_of t + 719468) mod 146097) in *. pose proof (doy_range doe Hd) as H. unfold doy_ok in H.
  apply andb_prop in H as [H1%Z.leb_le H2%Z.leb_le].
  destruct (Z.leb_spec 306 (doe - (365 * ((doe - doe / 1460 + doe / 36524 - doe / 146096) / 365) + (doe - doe / 1460 + doe / 36524 - doe / 146096) / 365 / 4 - (doe - doe / 1460 + doe / 36524 - doe / 146096) / 365 / 100))); cbn [snd]; [lia|].
  match goal with |- context [if ?b then 1 else 0] => destruct b end; lia.
Qed.

Lemma parse_posix_tail_spec buf p f out :
  has buf p (footer f) -> zlen buf = p + zlen (footer f) -> zone_name out = [] -> posix_tail out = [] -> valid out = true ->
  parse_posix_tail buf p out =
    match footer f with
    | 10 :: text =>
        let posix := cstr (take (if 128 <=? zlen (until_nl text) then 127 else Z.to_nat (zlen (until_nl text))) (until_nl text)) in
        Tz (standard_offset out) (daylight_offset out) (summer_start_yday out) (winter_start_yday out)
          (bool_decide (44 ∈ posix)) true [] posix
    | _ => out
    end.
Proof.
  intros H Hz Hn Hp Hv. unfold parse_posix_tail. pose proof (has_bound _ _ _ H) as [H0 _]. destruct (footer f) as [|b text].
  - unfold znth, zlen in *. cbn in Hz. destruct (p <? 0); [done|]. by rewrite lookup_ge_None_2 by lia.
  - rewrite (has_hd _ _ _ _ H). destruct (decide (b = 10)) as [->|Hb].
    + assert (drop (Z.to_nat (p + 1)) buf = text) as ->.
      { destruct H as (pre & post & -> & <-). rewrite !zlen_app in Hz.
        assert (post = []) as -> by (destruct post; [done|unfold zlen in Hz; cbn in Hz; lia]).
        rewrite app_nil_r. replace (Z.to_nat (zlen pre + 1)) with (length pre + 1)%nat by (unfold zlen; lia).
        rewrite <- drop_drop, drop_app_length. done. }
      rewrite Hn, Hv. destruct (128 <=? zlen (until_nl text)); done.
    + destruct b as [|b|b]; [done| |done]. do 4 (try (destruct b as [b|b|]; [| |])); try done.
Qed.

Lemma switch_yday f dst x : last (switches f dst) = Some x -> 0 <= fst x <= 365.
Proof.
  intros H. apply last_Some_elem_of, list_elem_of_omap in H as (y & _ & Hy). unfold transition in Hy.
  destruct (znth (ttypes f) y.2); [|done]. cbn in Hy. destruct (gmtime_yday y.1) as [d|] eqn:E; [|done]. cbn in Hy.
  destruct (bool_decide _); [|done]. injection Hy as <-. by apply yday_range in E.
Qed.

Lemma s16_small z : -1 <= z <= 365 -> s16 z = z.
Proof. intros. apply swrap_small; lia. Qed.

(** What [parse_tzdata] asks of a header: some transition and some type. *)
Definition counted (h : tzif_header_t) : bool := negb ((timecnt h =? 0) || (typecnt h =? 0)).

(** C39: [parse_tzdata] on every well-formed TZif file of version 2 or later whose
    block sizes do not wrap: it stays inside the buffer, and when both headers
    count transitions and types it returns 0 and reads the file back: for any
    transitions, types and footer, the offsets and days of the last switch to
    daylight and to standard time (the default where there is none) and the
    footer's POSIX string, cut at 127 characters, whose comma decides [has_dst].
    Any other file is refused with -1: that of a zone that never changes, such as
    UTC, and a file whose first block is left empty ([fixed_zones_refused]). *)
Theorem parse_tzdata_encode {S} f (s : S) :
  tzfile_ok f ->
  parse_tzdata (enc_tzif f) s
    = Some (if counted (v1_header f) && counted (v2_header f) then (0, Some (expected_tz f)) else (-1, None), s).
Proof.
  intros O. destruct (enc_tzif_layout f O) as (A1 & A2 & A3 & A4 & A5 & A6 & Hz).
  pose proof (ok_h1 _ O) as H1. pose proof (ok_h2 _ O) as H2.
  destruct (block_size_true 4 8 _ H1) as [E1 P1]; [lia|lia|apply O|].
  destruct (block_size_true 8 12 _ H2) as [E2 P2]; [lia|lia|apply O|].
  pose proof (zlen_nonneg (footer f)) as Hf. pose proof (zlen_nonneg (times f)) as Ht. pose proof (zlen_nonneg (ttypes f)) as Hty.
  set (buf := enc_tzif f) in *.
  assert (wp (parse_tzdata buf) (fun r s' =>
    r = (if counted (v1_header f) && counted (v2_header f) then (0, Some (expected_tz f)) else (-1, None)) /\ s' = s) s) as W.
  { unfold parse_tzdata. rewrite (proj2 (Z.ltb_ge _ 44)) by lia.
    apply wp_bind. eapply is_tzif_wp; [exact A1|]. cbn [negb].
    apply wp_bind. change 20 with (0 + 20). eapply rd_header_wp; [exact A1|apply O|done|]. unfold counted at 1.
    destruct ((timecnt (v1_header f) =? 0) || (typecnt (v1_header f) =? 0)); [by apply wp_ret|]. cbn [negb andb]. rewrite E1.
    rewrite (proj2 (Z.ltb_ge _ _)) by lia. apply wp_bind. eapply is_tzif_wp; [exact A2|]. cbn [negb].
    apply wp_bind. eapply rd_header_wp; [exact A2|apply O|done|]. unfold counted.
    destruct ((timecnt (v2_header f) =? 0) || (typecnt (v2_header f) =? 0)); [by apply wp_ret|]. cbn [negb]. rewrite E2.
    rewrite (proj2 (Z.ltb_ge _ _)) by lia. cbn [timecnt typecnt v2_header].
    assert (u32 (zlen (times f) * 8) = zlen (times f) * 8) as E3.
    { apply wrap_small. pose proof (ok_rest _ O) as [_ K]. unfold true_size in K. cbn in K.
      destruct H2 as (K1 & K2 & K3 & K4 & K5 & K6). unfold u32_ok in *. cbn in *. lia. }
    rewrite E3. apply wp_bind. unfold zlen at 5. rewrite Nat2Z.id.
    change 0 with (zlen (@nil (Z * Z))) at 1. change (Scan (-1) (-1) 0 0 false) with (scan_of (ttypes f) []).
    eapply (transitions_wp buf f _ _ _ (times f) []); [done|apply O|apply O|exact A3|exact A4|exact A5|].
    apply wp_ret. split; [|done]. f_equal. f_equal.
    rewrite (parse_posix_tail_spec buf _ f); [|exact A6|exact Hz|done..]. unfold expected_tz, scan_of. fold (switches f true) (switches f false).
    pose proof (switch_yday f true) as Ys. pose proof (switch_yday f false) as Yw.
    destruct (last (switches f true)) as [[ys os]|]; [specialize (Ys _ eq_refl)|clear Ys];
      (destruct (last (switches f false)) as [[yw ow]|]; [specialize (Yw _ eq_refl)|clear Yw]); cbn in *;
      rewrite ?s16_small by lia; try done. }
  destruct (wp_run _ _ _ W) as (r & s' & E & -> & ->). exact E.
Qed.

(** A zone with one switch each way, and a footer. *)
Definition demo_zone : tzfile :=
  TzFile (Hdr 0 0 0 1 1 0) (replicate 11 0) (replicate 16 0) (replicate 16 0) 0 0 0 4
    [(1711846800, 1); (1729990800, 0)] [TT 3600 0 0; TT 7200 1 0] [67; 69; 84; 0]
    ([10; 67; 69; 84; 45; 49; 67; 69; 83; 84; 44; 77; 51; 10]).

Lemma demo_zone_ok : tzfile_ok demo_zone.
Proof.
  constructor; cbn; unfold header_ok, u32_ok; cbn; unfold zlen; cbn; try done; try lia.
  - repeat constructor; cbn; lia.
  - repeat constructor; cbn; lia.
Qed.

Lemma parse_tzdata_encode_witness :
  parse_tzdata (enc_tzif demo_zone) tt = Some ((0, Some (expected_tz demo_zone)), tt) /\
  (let tz := expected_tz demo_zone in
   standard_offset tz = 3600 /\ daylight_offset tz = 7200 /\ summer_start_yday tz = 90 /\ winter_start_yday tz = 300 /\ has_dst tz = true).
Proof.
  split; [exact (parse_tzdata_encode demo_zone tt demo_zone_ok)|]. vm_compute. repeat split.
Defined.

(** ** Files the parser misreads *)

(** UTC as zic writes it, and a file whose data are in the second block only: both
    are well formed and refused ([src/timeutil/timeutil.c], lines 100 and 116). *)
Definition utc : tzfile :=
  TzFile (Hdr 0 0 0 0 1 4) ([0; 0; 0; 0; 0; 0] ++ [85; 84; 67; 0]) (replicate 16 0) (replicate 16 0) 0 0 0 4
    [] [TT 0 0 0] [85; 84; 67; 0] ([10; 85; 84; 67; 48; 10]).
Definition slim_zone : tzfile :=
  TzFile (Hdr 0 0 0 0 1 1) (replicate 7 0) (replicate 16 0) (replicate 16 0) 0 0 0 4
    (times demo_zone) (ttypes demo_zone) (rest demo_zone) (footer demo_zone).

Theorem fixed_zones_refused :
  (tzfile_ok utc /\ parse_tzdata (enc_tzif utc) tt = Some ((-1, None), tt))
  /\ (tzfile_ok slim_zone /\ parse_tzdata (enc_tzif slim_zone) tt = Some ((-1, None), tt)).
Proof.
  split; (split; [|vm_compute; reflexivity]); constructor; cbn; unfold header_ok, u32_ok; cbn; unfold zlen; cbn; try done; try lia;
    repeat constructor; cbn; lia.
Qed.

(** [parse_tzdata] checks neither that a second header follows the first
    block nor that the block sizes fit 32 bits: a file with a first block only
    (a version 1 file), and a file whose abbreviation count makes the second
    block's size wrap to 0, are read beyond their end. *)
Theorem parse_tzdata_overread :
  let one := Hdr 0 0 0 1 1 0 in
  let wraps := Hdr 0 0 0 1 1 (2 ^ 32 - 15) in
  let v := replicate 16 0 in
  parse_tzdata (enc_header v one ++ replicate 11 0) tt = None
  /\ block_size 8 12 wraps = 0
  /\ parse_tzdata (enc_header v one ++ replicate 11 0 ++ enc_header v wraps) tt = None.
Proof. split_and!; vm_compute; reflexivity. Qed.
