(* ===== verification/TimeUtilClock.v ===== *)
(** * timeutil: clocks, daylight saving and the cache *)

From S2P Require Import Prelude TimeUtil TimeUtilSpec.
Import TimeUtil.

(** ** Time arithmetic *)

Definition nsecs (t : timespec) : Z := tv_sec t * NSEC_PER_SEC + tv_nsec t.
Definition normal (t : timespec) : Prop := 0 <= tv_nsec t < NSEC_PER_SEC /\ - 2 ^ 62 <= tv_sec t < 2 ^ 62.

Lemma s64_small z : - 2 ^ 63 <= z < 2 ^ 63 -> s64 z = z.
Proof. intros. by apply swrap_small. Qed.

Lemma timespec_add_eq a b :
  0 <= tv_nsec a < NSEC_PER_SEC -> 0 <= tv_nsec b < NSEC_PER_SEC -> - 2 ^ 63 <= tv_sec a + tv_sec b < 2 ^ 63 - 1 ->
  timespec_add a b =
    if NSEC_PER_SEC <=? tv_nsec a + tv_nsec b
    then TS (tv_sec a + tv_sec b + 1) (tv_nsec a + tv_nsec b - NSEC_PER_SEC)
    else TS (tv_sec a + tv_sec b) (tv_nsec a + tv_nsec b).
Proof.
  unfold timespec_add, NSEC_PER_SEC. intros. rewrite (s64_small (tv_sec a + tv_sec b)), (s64_small (tv_nsec a + tv_nsec b)) by lia.
  destruct (_ <=? _) eqn:E; [|done]. apply Z.leb_le in E. by rewrite !s64_small by lia.
Qed.

Lemma timespec_sub_eq a b :
  0 <= tv_nsec a < NSEC_PER_SEC -> 0 <= tv_nsec b < NSEC_PER_SEC -> - 2 ^ 63 < tv_sec a - tv_sec b < 2 ^ 63 ->
  timespec_sub a b =
    if tv_nsec a - tv_nsec b <? 0
    then TS (tv_sec a - tv_sec b - 1) (tv_nsec a - tv_nsec b + NSEC_PER_SEC)
    else TS (tv_sec a - tv_sec b) (tv_nsec a - tv_nsec b).
Proof.
  unfold timespec_sub, NSEC_PER_SEC. intros. rewrite (s64_small (tv_sec a - tv_sec b)), (s64_small (tv_nsec a - tv_nsec b)) by lia.
  destruct (_ <? _) eqn:E; [|done]. apply Z.ltb_lt in E. by rewrite !s64_small by lia.
Qed.

Lemma tu_diff_ts_eq a b :
  0 <= tv_nsec a < NSEC_PER_SEC -> 0 <= tv_nsec b < NSEC_PER_SEC -> - 2 ^ 63 < tv_sec a - tv_sec b < 2 ^ 63 ->
  tu_diff_ts b a = timespec_sub a b.
Proof.
  intros. rewrite timespec_sub_eq by done. unfold tu_diff_ts, NSEC_PER_SEC in *.
  destruct (Z.ltb_spec (tv_nsec a) (tv_nsec b)), (Z.ltb_spec (tv_nsec a - tv_nsec b) 0); try lia; rewrite !s64_small by lia; f_equal; lia.
Qed.

(** [timespec_sub] and [tu_diff_ts] give the exact, normalised difference
    in nanoseconds, the same one, and [timespec_add] the exact, normalised sum,
    so that adding back what was subtracted restores the time; no 64-bit
    overflow happens for seconds below 2^62 and results in range. *)
Theorem timespec_arithmetic a b :
  normal a -> normal b ->
  let d := timespec_sub a b in
  let c := timespec_add a b in
  nsecs d = nsecs a - nsecs b /\ 0 <= tv_nsec d < NSEC_PER_SEC /\ tu_diff_ts b a = d /\
  nsecs c = nsecs a + nsecs b /\ 0 <= tv_nsec c < NSEC_PER_SEC /\ timespec_add d b = a.
Proof.
  intros [Ha1 Ha2] [Hb1 Hb2] d c. subst d c. rewrite tu_diff_ts_eq by lia.
  assert (timespec_add (timespec_sub a b) b = a) as Hback.
  { rewrite timespec_sub_eq by lia. destruct (Z.ltb_spec (tv_nsec a - tv_nsec b) 0);
      (rewrite timespec_add_eq; cbn [tv_sec tv_nsec]; [|lia|lia|lia]);
      case_match; destruct a; cbn [tv_sec tv_nsec] in *; try lia; f_equal; lia. }
  rewrite Hback, timespec_sub_eq, timespec_add_eq by lia. unfold nsecs, NSEC_PER_SEC in *.
  destruct (Z.ltb_spec (tv_nsec a - tv_nsec b) 0), (Z.leb_spec 1000000000 (tv_nsec a + tv_nsec b)); cbn [tv_sec tv_nsec]; split_and!; try done; lia.
Qed.

Lemma timespec_arithmetic_witness :
  let a := TS 5 100 in let b := TS 3 999999999 in
  timespec_sub a b = TS 1 101 /\
  (let d := timespec_sub a b in
   let c := timespec_add a b in
   nsecs d = nsecs a - nsecs b /\ 0 <= tv_nsec d < NSEC_PER_SEC /\ tu_diff_ts b a = d /\
   nsecs c = nsecs a + nsecs b /\ 0 <= tv_nsec c < NSEC_PER_SEC /\ timespec_add d b = a).
Proof.
  intros a b. split; [reflexivity|]. apply (timespec_arithmetic a b); unfold normal; cbn; unfold NSEC_PER_SEC; lia.
Defined.

(** ** Clocks *)

(** [tu_clock_gettime_monotonic_ms] is the clock in whole milliseconds, and
    [msleep] sleeps exactly the milliseconds it is given, with a normalised
    argument, for every 64-bit count. *)
Theorem milliseconds_exact ts ms :
  0 <= tv_nsec ts < NSEC_PER_SEC -> 0 <= tv_sec ts < 2 ^ 53 -> 0 <= ms < 2 ^ 64 ->
  tu_clock_gettime_monotonic_ms (Some ts) = nsecs ts / NSEC_PER_MSEC /\
  nsecs (msleep ms) = ms * NSEC_PER_MSEC /\ 0 <= tv_nsec (msleep ms) < NSEC_PER_SEC /\ tv_sec (msleep ms) < 2 ^ 63.
Proof.
  intros Hn Hs Hm. unfold tu_clock_gettime_monotonic_ms, msleep, nsecs, NSEC_PER_MSEC, MSEC_PER_SEC, NSEC_PER_SEC in *. cbn [tv_sec tv_nsec].
  rewrite Z.quot_div_nonneg by lia.
  assert (0 <= tv_nsec ts / 1000000 < 1000) as Hq by (split; [apply Z.div_pos; lia|apply Z.div_lt_upper_bound; lia]).
  rewrite (wrap_small 64 (tv_sec ts)), (wrap_small 64 (tv_nsec ts / 1000000)), wrap_small by lia.
  pose proof (Z.div_mod ms 1000 ltac:(lia)). pose proof (Z.mod_pos_bound ms 1000 ltac:(lia)).
  split_and!; [|lia|lia|lia|apply Z.div_lt_upper_bound; lia].
  replace (tv_sec ts * 1000000000) with (tv_sec ts * 1000 * 1000000) by lia. rewrite Z.div_add_l; lia.
Qed.

Lemma milliseconds_exact_witness :
  tu_clock_gettime_monotonic_ms (Some (TS 12 345678901)) = nsecs (TS 12 345678901) / NSEC_PER_MSEC /\
  nsecs (msleep 2500) = 2500 * NSEC_PER_MSEC /\ 0 <= tv_nsec (msleep 2500) < NSEC_PER_SEC /\ tv_sec (msleep 2500) < 2 ^ 63.
Proof. apply (milliseconds_exact (TS 12 345678901) 2500); cbn; unfold NSEC_PER_SEC; lia. Defined.

(** ** Daylight saving *)

(** The days from [from] on, before [until], around the year. *)
Definition in_season (from until day : Z) : bool := (day - from) mod 366 <? (until - from) mod 366.

(** [fast_calc_offset] gives the daylight offset exactly on the days from
    the start of summer time to its end, going around the year where summer
    time spans the new year (the southern hemisphere), the standard offset on
    the other days and all year where the zone has no daylight time. *)
Theorem fast_calc_offset_season tz t yday :
  gmtime_yday t = Some yday -> 0 <= yday <= 365 ->
  (has_dst tz = true -> 0 <= summer_start_yday tz <= 365 /\ 0 <= winter_start_yday tz <= 365 /\
     summer_start_yday tz <> winter_start_yday tz) ->
  fast_calc_offset tz t =
    Some (if has_dst tz && in_season (summer_start_yday tz) (winter_start_yday tz) yday
          then daylight_offset tz else standard_offset tz).
Proof.
  intros Hy Hr Hd. unfold fast_calc_offset, in_season. destruct (has_dst tz); cbn [negb andb]; [|done].
  destruct (Hd eq_refl) as (H1 & H2 & H3). rewrite Hy. cbn [mbind option_bind]. f_equal.
  set (s := summer_start_yday tz) in *. set (w := winter_start_yday tz) in *.
  assert (forall x, -365 <= x <= 365 -> x mod 366 = if x <? 0 then x + 366 else x) as Hmod.
  { intros x Hx. destruct (Z.ltb_spec x 0); [rewrite <- (Z.mod_add x 1 366) by lia|]; apply Z.mod_small; lia. }
  rewrite !Hmod by lia.
  destruct (Z.ltb_spec s w), (Z.leb_spec s yday), (Z.ltb_spec yday w), (Z.ltb_spec (yday - s) 0), (Z.ltb_spec (w - s) 0); try lia;
    cbn [andb orb]; match goal with |- context [?a <? ?b] => destruct (Z.ltb_spec a b) end; try lia; done.
Qed.

Definition sydney : parsed_tz_t := Tz 36000 39600 280 96 true true [] [].

Lemma fast_calc_offset_season_witness :
  gmtime_yday 1704067200 = Some 0 /\
  fast_calc_offset sydney 1704067200 =
    Some (if has_dst sydney && in_season (summer_start_yday sydney) (winter_start_yday sydney) 0
          then daylight_offset sydney else standard_offset sydney).
Proof.
  split; [reflexivity|]. apply (fast_calc_offset_season sydney 1704067200 0); [reflexivity|lia|].
  intros _. cbn. lia.
Defined.

(** ** The cache *)

Section cache.
Context (getenv_TZ etc_timezone : option (list Z)) (file : list Z -> option (Z * list Z)).

Lemma cstr_cstr l : cstr (cstr l) = cstr l.
Proof. induction l as [|b l IH]; cbn; [done|]. destruct (b =? 0) eqn:E; cbn; [done|]. by rewrite E, IH. Qed.

Lemma cstr_take n l : cstr (take n (cstr l)) = take n (cstr l).
Proof.
  revert n. induction l as [|b l IH]; intros [|n]; cbn; try done. destruct (b =? 0) eqn:E; cbn; [done|]. by rewrite E, IH.
Qed.

Lemma cstr_until_nl l : cstr l = l -> cstr (until_nl l) = until_nl l.
Proof.
  induction l as [|b l IH]; cbn; [done|]. destruct (b =? 0) eqn:E; [done|]. intros [= H].
  destruct (b =? 10); cbn; [done|]. rewrite E. f_equal. auto.
Qed.

Lemma take_until_nl n l : (length l <= n)%nat -> take n (until_nl l) = until_nl l.
Proof.
  revert n. induction l as [|b l IH]; intros n H; cbn; [by destruct n|]. destruct (b =? 10); [by destruct n|].
  destruct n as [|n]; cbn in H; [lia|]. cbn. rewrite IH by lia. done.
Qed.

(** The name of the system zone fits the cache. *)
Lemma zone_name_kept : strncpy0 MAX_TZ_NAME_LEN (get_system_tz_name getenv_TZ etc_timezone MAX_TZ_NAME_LEN)
  = get_system_tz_name getenv_TZ etc_timezone MAX_TZ_NAME_LEN.
Proof.
  unfold get_system_tz_name. destruct getenv_TZ as [tz|]; [|destruct etc_timezone as [line|]; [|done]].
  - unfold strncpy0. by rewrite cstr_take, take_take, Nat.min_id.
  - unfold strncpy0 at 1. rewrite cstr_until_nl by (unfold strncpy0; apply cstr_take).
    apply take_until_nl. unfold strncpy0. rewrite length_take. unfold MAX_TZ_NAME_LEN. lia.
Qed.

(** A property of the value a computation returns, if it does. *)
Definition returns {S A} (m : M S A) (P : A -> Prop) : Prop := forall s a s', m s = Some (a, s') -> P a /\ s' = s.

Lemma returns_ret {S A} (a : A) (P : A -> Prop) : P a -> returns (S := S) (mret a) P.
Proof. by intros H s a' s' [= <- <-]. Qed.

Lemma returns_bind {S A B} (m : M S A) (k : A -> M S B) (P : B -> Prop) :
  returns m (fun _ => True) -> (forall a, returns (k a) P) -> returns (m ≫= k) P.
Proof.
  intros Hm Hk s b s' H. unfold mbind, M_bind in H. destruct (m s) as [[a s1]|] eqn:E; [|done].
  destruct (Hm _ _ _ E) as [_ ->]. by eapply Hk.
Qed.

Lemma returns_byte {S} buf p : returns (S := S) (byte buf p) (fun _ => True).
Proof. intros s a s' H. unfold byte in H. destruct (znth buf p); [by injection H as <- <-|done]. Qed.

Ltac returns_tac :=
  repeat first
    [ apply returns_byte | apply returns_ret; done | apply returns_bind; [|intros ?]
    | match goal with |- returns (if ?b then _ else _) _ => destruct b end ].

Lemma returns_be32 {S} buf p : returns (S := S) (rd_be32 buf p) (fun _ => True).
Proof. unfold rd_be32. returns_tac. Qed.
Lemma returns_be32s {S} buf p : returns (S := S) (rd_be32s buf p) (fun _ => True).
Proof. unfold rd_be32s. apply returns_bind; [apply returns_be32|intros; by apply returns_ret]. Qed.
Lemma returns_be64s {S} buf p : returns (S := S) (rd_be64s buf p) (fun _ => True).
Proof. unfold rd_be64s. returns_tac. Qed.
Lemma returns_tzif {S} buf p : returns (S := S) (is_tzif buf p) (fun _ => True).
Proof. unfold is_tzif. returns_tac. Qed.
Lemma returns_header {S} buf p : returns (S := S) (rd_header buf p) (fun _ => True).
Proof. unfold rd_header. do 6 (apply returns_bind; [apply returns_be32|intros ?]). by apply returns_ret. Qed.

Lemma returns_transitions {S} buf a b c d n i s : returns (S := S) (transitions buf a b c d n i s) (fun _ => True).
Proof.
  revert i s. induction n as [|n IH]; intros i s; cbn [transitions]; [by apply returns_ret|].
  apply returns_bind; [apply returns_be64s|intros t]. apply returns_bind; [apply returns_byte|intros idx].
  destruct (d <=? idx); [apply IH|]. apply returns_bind; [apply returns_be32s|intros off].
  apply returns_bind; [apply returns_byte|intros isdst]. destruct (gmtime_yday t); apply IH.
Qed.

Lemma posix_tail_valid buf p out : valid (parse_posix_tail buf p out) = valid out.
Proof.
  unfold parse_posix_tail. destruct (znth buf p) as [[|b|b]|]; try done.
  do 4 (try (destruct b as [b|b|]; [| |])); done.
Qed.

Lemma parse_tzdata_valid {S} buf :
  returns (S := S) (parse_tzdata buf) (fun r => forall tz, snd r = Some tz -> valid tz = true).
Proof.
  unfold parse_tzdata. destruct (_ <? 44); [by apply returns_ret|].
  apply returns_bind; [apply returns_tzif|intros m]. destruct (negb m); [by apply returns_ret|].
  apply returns_bind; [apply returns_header|intros h]. destruct (_ || _); [by apply returns_ret|].
  destruct (_ <? _); [by apply returns_ret|].
  apply returns_bind; [apply returns_tzif|intros m2]. destruct (negb m2); [by apply returns_ret|].
  apply returns_bind; [apply returns_header|intros h2]. destruct (_ || _); [by apply returns_ret|].
  destruct (_ <? _); [by apply returns_ret|].
  apply returns_bind; [apply returns_transitions|intros s]. apply returns_ret. cbn. intros tz [= <-]. by rewrite posix_tail_valid.
Qed.

Lemma load_valid {S} name : returns (S := S) (load_and_parse_tz file name)
  (fun r => forall tz, r = Some tz -> valid tz = true /\ zone_name tz = strncpy0 MAX_TZ_NAME_LEN name).
Proof.
  unfold load_and_parse_tz. destruct (open_first file zone_paths name) as [[sz bytes]|]; [|by apply returns_ret].
  destruct (_ <? _); [by apply returns_ret|]. destruct (negb _); [by apply returns_ret|].
  intros s a s' H. unfold mbind, M_bind in H. destruct (parse_tzdata bytes s) as [[[r o] s1]|] eqn:E; [|done].
  destruct (parse_tzdata_valid bytes _ _ _ E) as [V ->]. cbn in V.
  destruct r as [| |]; [destruct o as [tz|]|..]; injection H as <- <-; (split; [|done]); try done.
  intros tz' [= <-]. cbn. split; [by apply V|done].
Qed.

(** [tu_update_offset] either keeps the cache as it is or, with the next
    version number, replaces it by a valid zone of the system's name; called
    again in the same environment it changes nothing, so that the version
    counts the changes of zone. *)
Theorem tu_update_offset_idempotent c c1 :
  tu_update_offset getenv_TZ etc_timezone file c = Some (tt, c1) ->
  (c1 = c \/ g_tz_version c1 = u32 (g_tz_version c + 1) /\ valid (g_tz c1) = true /\
     zone_name (g_tz c1) = get_system_tz_name getenv_TZ etc_timezone MAX_TZ_NAME_LEN /\
     g_ts_real_mono_off c1 = g_ts_real_mono_off c) /\
  tu_update_offset getenv_TZ etc_timezone file c1 = Some (tt, c1).
Proof.
  unfold tu_update_offset. set (name := get_system_tz_name getenv_TZ etc_timezone MAX_TZ_NAME_LEN).
  intros H. pose proof H as H'. unfold mbind, M_bind, gets in H |- *.
  destruct (valid (g_tz c) && bool_decide (name = zone_name (g_tz c))) eqn:E.
  { injection H as <-. rewrite E. split; [by left|done]. }
  destruct (load_and_parse_tz file name c) as [[o s1]|] eqn:El; [|done].
  destruct (load_valid name _ _ _ El) as [V ->]. destruct o as [tz|].
  - injection H as <-. cbn. destruct (V tz eq_refl) as [V1 V2]. unfold name in V2. rewrite zone_name_kept in V2. fold name in V2.
    rewrite V1, V2, bool_decide_true by done. cbn. split; [right; done|done].
  - injection H as <-. rewrite E, El. split; [by left|done].
Qed.
End cache.

(** The zone is the file of every name. *)
Definition demo_files : list Z -> option (Z * list Z) := fun _ => Some (zlen (enc_tzif demo_zone), enc_tzif demo_zone).
Definition demo_cache : cache := Cache (Tz 0 0 (-1) (-1) false false [] []) 0 (TS 0 0).
Definition demo_tz : parsed_tz_t :=
  let tz := expected_tz demo_zone in
  Tz (standard_offset tz) (daylight_offset tz) (summer_start_yday tz) (winter_start_yday tz) (has_dst tz) (valid tz) UTC (posix_tail tz).

Lemma tu_update_offset_idempotent_witness :
  let c1 := Cache demo_tz 1 (TS 0 0) in
  (c1 = demo_cache \/ g_tz_version c1 = u32 (g_tz_version demo_cache + 1) /\ valid (g_tz c1) = true /\
     zone_name (g_tz c1) = get_system_tz_name None None MAX_TZ_NAME_LEN /\
     g_ts_real_mono_off c1 = g_ts_real_mono_off demo_cache) /\
  tu_update_offset None None demo_files c1 = Some (tt, c1).
Proof.
  intros c1. apply (tu_update_offset_idempotent None None demo_files demo_cache c1). vm_compute. reflexivity.
Defined.
