(* ===== verification/NlMon.v ===== *)
(** * nlmon: the interface monitor

    Models [src/nlmon/nlmon.c]: the published slot of filters, which is copied,
    changed and exchanged at every update, the dispatch of link messages to the
    callbacks, and the monitoring thread over the results of its system calls.
    The slots live in a store, so that a slot freed while a message is being
    dispatched is a dangling pointer; a callback is any action on the state. *)

From S2P Require Import Prelude Netlink.
Import Netlink.

Module NlMon.

Definition NLMON_MAX_FILTERS : Z := 5.
Definition NLMON_MAX_IFACES : Z := 5.
Definition DEFROUTE_BUF_SIZE : Z := 8192.
Definition IFF_UP : Z := 1.
Definition IFF_RUNNING : Z := 64.
Definition NLMON_EVENT_LINK_UP : Z := IFF_UP.
(** [!] is the logical negation. *)
Definition lnot_c (x : Z) : Z := if x =? 0 then 1 else 0.
Definition NLMON_EVENT_LINK_DOWN : Z := Z.lor (lnot_c IFF_UP) (lnot_c IFF_RUNNING).
Definition NLMON_EVENT_ALL : Z := 2 ^ 32 - 1.
Definition RTM_NEWLINK : Z := 16.
Definition ENOMEM : Z := 12.
Definition EEXIST : Z := 17.

Record nlmon_filter_t := Filter { idx : list Z; events : Z; cb : option Z; arg : Z }.
Record nlmon_filter_slot_t := Slot { filters : list nlmon_filter_t; count : Z }.

#[export] Instance nlmon_filter_t_eq : EqDecision nlmon_filter_t.
Proof. solve_decision. Defined.

Definition zero_filter : nlmon_filter_t := Filter (replicate (Z.to_nat NLMON_MAX_IFACES) 0) 0 None 0.
Definition zero_slot : nlmon_filter_slot_t := Slot (replicate (Z.to_nat NLMON_MAX_FILTERS) zero_filter) 0.

(** The globals, the allocated slots, the open descriptors and the state [W]
    of the application. [g_thread]: the handle names a thread to be joined. *)
Record nlmon {W : Type} := Nm {
  slots : gmap loc nlmon_filter_slot_t; g_filters : option loc; g_run : bool; g_thread : bool;
  errno : Z; fds : gset Z; world : W
}.
Arguments nlmon W : clear implicits.

Section nlmon.
Context {W : Type}.
Notation st := (nlmon W).

Definition put_slots (h : gmap loc nlmon_filter_slot_t) (s : st) : st :=
  Nm W h (g_filters s) (g_run s) (g_thread s) (errno s) (fds s) (world s).
Definition put_filters (p : option loc) (s : st) : st :=
  Nm W (slots s) p (g_run s) (g_thread s) (errno s) (fds s) (world s).
Definition put_run (b : bool) (s : st) : st :=
  Nm W (slots s) (g_filters s) b (g_thread s) (errno s) (fds s) (world s).
Definition put_thread (b : bool) (s : st) : st :=
  Nm W (slots s) (g_filters s) (g_run s) b (errno s) (fds s) (world s).
Definition put_errno (e : Z) (s : st) : st :=
  Nm W (slots s) (g_filters s) (g_run s) (g_thread s) e (fds s) (world s).
Definition put_fds (f : gset Z) (s : st) : st :=
  Nm W (slots s) (g_filters s) (g_run s) (g_thread s) (errno s) f (world s).

Definition get_slot (p : loc) : M st nlmon_filter_slot_t := s ← gets slots; of_option (s !! p).
Definition set_slot (p : loc) (x : nlmon_filter_slot_t) : M st unit :=
  _ ← get_slot p; modify (fun s => put_slots (<[p := x]> (slots s)) s).
Definition free (p : option loc) : M st unit :=
  match p with
  | None => mret tt
  | Some p => _ ← get_slot p; modify (fun s => put_slots (delete p (slots s)) s)
  end.
Definition exchange_filters (p : option loc) : M st (option loc) :=
  old ← gets g_filters; modify (put_filters p);; mret old.

(** ** The filters *)

Definition same_filter (a f : nlmon_filter_t) : bool :=
  bool_decide (cb a = cb f) && (arg a =? arg f) && (events a =? events f) && bool_decide (idx a = idx f).

(** The search for a duplicate, from index [i], [n] to go. *)
Fixpoint dup_loop (n : nat) (p : loc) (f : nlmon_filter_t) (i : Z) : M st bool :=
  match n with
  | O => mret false
  | S n =>
      x ← get_slot p;
      existing ← of_option (znth (filters x) i);
      if same_filter existing f then mret true else dup_loop n p f (i + 1)
  end.

Definition append_filter (p : loc) (f : nlmon_filter_t) : M st (option loc) :=
  x ← get_slot p;
  _ ← of_option (znth (filters x) (count x));
  set_slot p (Slot (zset (filters x) (count x) f) (count x + 1));;
  mret (Some p).

(** [calloc] is the block the allocator returns. *)
Definition filters_clone_and_add (calloc : option loc) (f : nlmon_filter_t) : M st (option loc) :=
  old ← gets g_filters;
  match calloc with
  | None => modify (put_errno ENOMEM);; mret None
  | Some new =>
      modify (fun s => put_slots (<[new := zero_slot]> (slots s)) s);;
      match old with
      | None => append_filter new f
      | Some old =>
          x ← get_slot old;
          set_slot new x;;
          dup ← dup_loop (Z.to_nat (count x)) new f 0;
          if (dup : bool) then free (Some new);; modify (put_errno EEXIST);; mret None
          else if NLMON_MAX_FILTERS <=? count x then free (Some new);; modify (put_errno EINVAL);; mret None
          else append_filter new f
      end
  end.

(** The loop of the removal; the result counts the removed filters. *)
Fixpoint remove_loop (n : nat) (old new : loc) (f : nlmon_filter_t) (i removed : Z) : M st Z :=
  match n with
  | O => mret removed
  | S n =>
      x ← get_slot old;
      e ← of_option (znth (filters x) i);
      if same_filter e f then remove_loop n old new f (i + 1) (removed + 1)
      else append_filter new e;; remove_loop n old new f (i + 1) removed
  end.

Definition filters_clone_and_remove (calloc : option loc) (f : nlmon_filter_t) : M st (option loc) :=
  old ← gets g_filters;
  match old with
  | None => mret None
  | Some old =>
      match calloc with
      | None => mret None
      | Some new =>
          modify (fun s => put_slots (<[new := zero_slot]> (slots s)) s);;
          x ← get_slot old;
          removed ← remove_loop (Z.to_nat (count x)) old new f 0 0;
          if removed =? 0 then free (Some new);; mret None else mret (Some new)
      end
  end.

Definition nlmon_add_filter (calloc : option loc) (filter : option nlmon_filter_t) : M st Z :=
  match filter with
  | None => mret EINVAL
  | Some f =>
      if bool_decide (cb f = None) then mret EINVAL
      else
        new ← filters_clone_and_add calloc f;
        match new with
        | None => mret EINVAL
        | Some new => old ← exchange_filters (Some new); free old;; mret 0
        end
  end.

Definition nlmon_remove_filter (calloc : option loc) (filter : option nlmon_filter_t) : M st Z :=
  match filter with
  | None => mret EINVAL
  | Some f =>
      if bool_decide (cb f = None) then mret EINVAL
      else
        new ← filters_clone_and_remove calloc f;
        match new with
        | None => mret EINVAL
        | Some new => old ← exchange_filters (Some new); free old;; mret 0
        end
  end.

Definition nlmon_clear_filters : M st unit := old ← exchange_filters None; free old.

(** The count; the filters are only logged. *)
Definition nlmon_list_filters : M st Z :=
  current ← gets g_filters;
  match current with None => mret 0 | Some p => x ← get_slot p; mret (count x) end.

(** ** Dispatching messages *)

(** The search among the interfaces of a filter, [n] entries to go. *)
Fixpoint idx_loop (n : nat) (l : list Z) (j ifidx : Z) : M st bool :=
  match n with
  | O => mret false
  | S n =>
      x ← of_option (znth l j);
      if x =? 0 then mret false else if x =? ifidx then mret true else idx_loop n l (j + 1) ifidx
  end.

Definition idx_match (l : list Z) (ifidx : Z) : M st bool :=
  b ← idx_loop (Z.to_nat NLMON_MAX_IFACES) l 0 ifidx;
  first ← of_option (znth l 0);
  mret (b || (first =? 0)).

Section dispatch.
(** [user_cb c name flags arg] runs the callback [c]. *)
Context (user_cb : Z -> list Z -> Z -> Z -> M st unit) (if_indextoname : Z -> option (list Z)).

Fixpoint filter_loop (fuel : nat) (current : loc) (ifname : list Z) (ifidx ifi_flags i : Z) : M st unit :=
  match fuel with
  | O => ub
  | S fuel =>
      x ← get_slot current;
      if i <? count x then
        f ← of_option (znth (filters x) i);
        (if Z.land (events f) ifi_flags =? 0 then mret tt
         else
           b ← idx_match (idx f) ifidx;
           match cb f with
           | Some c => if (b : bool) then user_cb c ifname ifi_flags (arg f) else mret tt
           | None => mret tt
           end);;
        filter_loop fuel current ifname ifidx ifi_flags (i + 1)
      else mret tt
  end.

Fixpoint msg_loop (fuel : nat) (buf : list Z) (current : loc) (nh len : Z) : M st unit :=
  match fuel with
  | O => ub
  | S fuel' =>
      ok ← NLMSG_OK buf nh len;
      if negb ok then mret tt
      else
        ty ← nlmsg_type buf nh;
        (if negb (ty =? RTM_NEWLINK) then mret tt
         else
           let ifi := NLMSG_DATA nh in
           ifidx ← ifi_index buf ifi;
           ifi_flags ← rd32 buf (ifi + 8);
           ifi_change ← rd32 buf (ifi + 12);
           match if_indextoname ifidx with
           | None => mret tt
           | Some ifname => filter_loop fuel current ifname ifidx ifi_flags 0
           end);;
        l ← nlmsg_len buf nh;
        msg_loop fuel' buf current (nh + align4 l) (len - align4 l)
  end.

(** [buf] is the receive buffer, of which [len] bytes were received. *)
Definition handle_netlink_msg (fuel : nat) (buf : list Z) (len : Z) : M st unit :=
  current ← gets g_filters;
  match current with None => mret tt | Some p => msg_loop fuel buf p 0 len end.

(** ** The thread *)

(** The results of the four system calls of [open_netlink_socket]. *)
Record socket_results := Sock { r_socket : Z; r_bind : Z; r_getfl : Z; r_setfl : Z }.

Definition close (fd : Z) : M st unit :=
  open ← gets fds; if decide (fd ∈ open) then modify (fun s => put_fds (fds s ∖ {[fd]}) s) else ub.

Definition open_netlink_socket (r : socket_results) : M st Z :=
  let fd := r_socket r in
  if fd <? 0 then mret (-1)
  else
    modify (fun s => put_fds (fds s ∪ {[fd]}) s);;
    if r_bind r <? 0 then close fd;; mret (-1)
    else if (r_getfl r <? 0) || (r_setfl r <? 0) then close fd;; mret (-1)
    else mret fd.

(** What one turn of the thread finds: [select] failed, timed out, or [recv]
    returned [len] after filling the buffer. *)
Inductive wake := SelectError (eintr : bool) | SelectTimeout | Received (buf : list Z) (len : Z).

(** The turns of the thread: before each test of [g_run] the other threads
    act. The result tells whether the loop has been left. *)
Fixpoint thread_loop (fuel : nat) (turns : list (M st unit * wake)) : M st bool :=
  match turns with
  | [] => mret false
  | (others, w) :: turns =>
      others;;
      run ← gets g_run;
      if negb run then mret true
      else
        match w with
        | SelectError true => thread_loop fuel turns
        | SelectError false => mret true
        | SelectTimeout => thread_loop fuel turns
        | Received buf len =>
            (if 0 <? len then handle_netlink_msg fuel buf len else mret tt);; thread_loop fuel turns
        end
  end.

Definition nlmon_thread (fuel : nat) (r : socket_results) (turns : list (M st unit * wake)) : M st bool :=
  fd ← open_netlink_socket r;
  if fd <? 0 then mret true
  else
    left ← thread_loop fuel turns;
    if (left : bool) then close fd;; mret true else mret false.
End dispatch.

(** [pthread_create] as its result: 0 when there is a new thread. *)
Definition nlmon_run (pthread_create : Z) : M st Z :=
  was ← gets g_run;
  modify (put_run true);;
  if (was : bool) then mret (-1)
  else modify (put_thread (pthread_create =? 0));; mret pthread_create.

(** Joining a handle that names no thread is undefined. *)
Definition pthread_join : M st unit :=
  t ← gets g_thread; if (t : bool) then modify (put_thread false) else ub.

Definition nlmon_stop : M st unit :=
  was ← gets g_run;
  modify (put_run false);;
  if negb was then mret tt
  else
    pthread_join;;
    old ← exchange_filters None;
    free old.
End nlmon.

End NlMon.
