(* ===== verification/NlMonSpec.v ===== *)
(** * nlmon: what the filters promise

    The published filters are a duplicate-free list of at most five; every
    update frees the slot it replaces, so that exactly one slot is allocated.
    The monitoring thread reads the slot it loaded while other threads update
    the filters. *)

From S2P Require Import Prelude Netlink NlMon.
Import Netlink NlMon.

Section store.
Context {W : Type}.
Notation st := (nlmon W).
Implicit Types (s : st) (l : list nlmon_filter_t).

Lemma wp_get_slot p x (Q : nlmon_filter_slot_t -> st -> Prop) s : slots s !! p = Some x -> Q x s -> wp (get_slot p) Q s.
Proof. intros H HQ. apply wp_bind, wp_gets. rewrite H. by apply wp_ret. Qed.

Lemma wp_set_slot p x y (Q : unit -> st -> Prop) s :
  slots s !! p = Some y -> Q tt (put_slots (<[p := x]> (slots s)) s) -> wp (set_slot p x) Q s.
Proof. intros H HQ. by eapply wp_bind, wp_get_slot. Qed.

Lemma wp_free p x (Q : unit -> st -> Prop) s :
  slots s !! p = Some x -> Q tt (put_slots (delete p (slots s)) s) -> wp (free (Some p)) Q s.
Proof. intros H HQ. by eapply wp_bind, wp_get_slot. Qed.

(** The slot of the filters [l], with the unused entries [rest]. *)
Definition slot_of l rest : nlmon_filter_slot_t := Slot (l ++ rest) (zlen l).

Lemma append_filter_wp p l x rest f (Q : option loc -> st -> Prop) s :
  slots s !! p = Some (slot_of l (x :: rest)) ->
  Q (Some p) (put_slots (<[p := slot_of (l ++ [f]) rest]> (slots s)) s) -> wp (append_filter p f) Q s.
Proof.
  intros Hp HQ. apply wp_bind. eapply wp_get_slot; [done|]. cbn.
  rewrite znth_middle. apply wp_bind, wp_ret. apply wp_bind. eapply wp_set_slot; [done|]. apply wp_ret.
  unfold slot_of in HQ. by rewrite zset_middle, <- zlen_snoc with (x := f), <- app_assoc in *.
Qed.

Lemma same_filter_spec a f : same_filter a f = bool_decide (a = f).
Proof.
  unfold same_filter. apply eq_true_iff_eq. rewrite !andb_true_iff, !bool_decide_eq_true, !Z.eqb_eq.
  destruct a, f. cbn. naive_solver.
Qed.

Lemma dup_loop_wp p f d l rest n (Q : bool -> st -> Prop) s :
  slots s !! p = Some (Slot (d ++ l ++ rest) n) -> Q (bool_decide (f ∈ l)) s ->
  wp (dup_loop (length l) p f (zlen d)) Q s.
Proof.
  revert d. induction l as [|a l IH]; intros d Hp HQ; cbn [length dup_loop]; [by apply wp_ret|].
  apply wp_bind. eapply wp_get_slot; [done|]. cbn. rewrite znth_middle. apply wp_bind, wp_ret.
  rewrite same_filter_spec. destruct (decide (a = f)) as [E|E].
  - rewrite bool_decide_eq_true_2 by done. apply wp_ret. rewrite bool_decide_eq_true_2 in HQ by set_solver. done.
  - rewrite bool_decide_eq_false_2 by done. rewrite <- zlen_snoc with (x := a). apply IH; [by rewrite <- app_assoc|].
    rewrite (bool_decide_ext _ (f ∈ a :: l)); [done|]. set_solver.
Qed.

(** The filters that a removal keeps. *)
Definition kept (f : nlmon_filter_t) l : list nlmon_filter_t := List.filter (fun a => negb (bool_decide (a = f))) l.

Lemma kept_length f l : (length (kept f l) <= length l)%nat.
Proof. unfold kept. induction l as [|a l IH]; cbn; [done|]. destruct (negb _); cbn; lia. Qed.

Lemma remove_loop_wp old new f d l rest n k free_ removed (Q : Z -> st -> Prop) s :
  old <> new -> slots s !! old = Some (Slot (d ++ l ++ rest) n) -> slots s !! new = Some (slot_of k free_) ->
  (length l <= length free_)%nat ->
  (forall free', length free' = (length free_ - length (kept f l))%nat ->
     Q (removed + (zlen l - zlen (kept f l))) (put_slots (<[new := slot_of (k ++ kept f l) free']> (slots s)) s)) ->
  wp (remove_loop (length l) old new f (zlen d) removed) Q s.
Proof.
  revert d k free_ removed s. induction l as [|a l IH]; intros d k free_ removed s Hne Ho Hn Hl HQ; cbn [length remove_loop].
  { apply wp_ret. specialize (HQ free_). cbn in HQ. rewrite app_nil_r, insert_id in HQ by done.
    destruct s. cbn in *. rewrite Z.add_0_r in HQ. apply HQ. lia. }
  apply wp_bind. eapply wp_get_slot; [done|]. cbn. rewrite znth_middle. apply wp_bind, wp_ret.
  rewrite same_filter_spec. unfold kept in HQ. cbn [List.filter] in HQ. fold (kept f l) in HQ.
  destruct (bool_decide (a = f)); cbn [negb] in HQ.
  - rewrite <- zlen_snoc with (x := a). eapply IH; [done|by rewrite <- app_assoc|done|cbn in Hl; lia|].
    intros free' Hf. specialize (HQ free' Hf). unfold zlen in *. cbn [length] in HQ.
    replace (removed + 1 + _) with (removed + (Z.of_nat (S (length l)) - Z.of_nat (length (kept f l)))) by lia. done.
  - destruct free_ as [|x free_]; [cbn in Hl; lia|]. apply wp_bind. eapply append_filter_wp; [done|].
    rewrite <- zlen_snoc with (x := a). eapply (IH _ (k ++ [a]) free_); cbn; [done| | |cbn in Hl; lia|].
    + rewrite lookup_insert_ne by done. by rewrite <- app_assoc.
    + by rewrite lookup_insert_eq.
    + intros free' Hf. rewrite insert_insert_eq, <- app_assoc. cbn. specialize (HQ free').
      unfold zlen in *. cbn [length] in HQ. replace (Z.of_nat (length l) - Z.of_nat (length (kept f l)))
        with (Z.of_nat (S (length l)) - Z.of_nat (S (length (kept f l)))) by lia. apply HQ. lia.
Qed.
End store.

(** ** The abstract monitor *)

(** Whether [g_run] is set, whether there is a thread to join, and whether the
    thread is dispatching a message: then, whether the filters it loaded are still
    the published ones. *)
Record status := Status { on : bool; thread : bool; reading : option bool }.

Definition mon : Type := status * list nlmon_filter_t.

(** The calls, [RunM] with the result of [pthread_create]; and the steps of the
    thread in [handle_netlink_msg]: it loads the filters, reads the slot it loaded
    any number of times, and is done. *)
Inductive ncommand :=
  | AddF (f : option nlmon_filter_t) | RemoveF (f : option nlmon_filter_t) | ClearF | ListF
  | RunM (pthread_create : Z) | StopM | LoadM | ReadM | DoneM.

Definition has_cb (f : nlmon_filter_t) : bool := negb (bool_decide (cb f = None)).
Definition wanted (f : option nlmon_filter_t) : option nlmon_filter_t := x ← f; if has_cb x then Some x else None.

(** Other filters are published. *)
Definition replaced (t : status) : status := Status (on t) (thread t) (if reading t then Some false else None).

(** The thread has ended. *)
Definition stopped : status := Status false false None.

Definition nspec (c : ncommand) (a : mon) : Z * mon :=
  match c with
  | AddF f =>
      match wanted f with
      | None => (EINVAL, a)
      | Some f =>
          if bool_decide (f ∈ snd a) || (NLMON_MAX_FILTERS <=? zlen (snd a)) then (EINVAL, a)
          else (0, (replaced (fst a), snd a ++ [f]))
      end
  | RemoveF f =>
      match wanted f with
      | None => (EINVAL, a)
      | Some f => if bool_decide (f ∈ snd a) then (0, (replaced (fst a), kept f (snd a))) else (EINVAL, a)
      end
  | ClearF => (0, (replaced (fst a), []))
  | ListF => (zlen (snd a), a)
  | RunM e => if on (fst a) then (-1, a) else (e, (Status true (e =? 0) (reading (fst a)), snd a))
  | StopM => (0, if on (fst a) then (stopped, []) else a)
  | LoadM => (0, if thread (fst a) then (Status (on (fst a)) true (Some true), snd a) else a)
  | ReadM => (if reading (fst a) is Some true then zlen (snd a) else 0, a)
  | DoneM => (0, (Status (on (fst a)) (thread (fst a)) None, snd a))
  end.

(** Where the code may be undefined: stopping a monitor whose thread could not be
    created, and reading filters that were replaced since they were loaded. *)
Definition unsafe (c : ncommand) (a : mon) : Prop :=
  c = StopM /\ on (fst a) = true /\ thread (fst a) = false \/ c = ReadM /\ reading (fst a) = Some false.

Definition allocates (c : ncommand) : bool := match c with AddF _ | RemoveF _ => true | _ => false end.

Section Client.
Context {W : Type} (calloc : nlmon W -> option loc).
Notation st := (nlmon W).

(** [cur] is the variable [current] of the thread. *)
Definition nexec (c : ncommand) (cur : option loc) : M st (Z * option loc) :=
  p ← gets calloc;
  match c with
  | AddF f => r ← nlmon_add_filter p f; mret (r, cur)
  | RemoveF f => r ← nlmon_remove_filter p f; mret (r, cur)
  | ClearF => nlmon_clear_filters;; mret (0, cur)
  | ListF => r ← nlmon_list_filters; mret (r, cur)
  | RunM e => r ← nlmon_run e; mret (r, cur)
  | StopM => was ← gets g_run; nlmon_stop;; mret (0, if (was : bool) then None else cur)
  | LoadM => t ← gets g_thread; if (t : bool) then p ← gets g_filters; mret (0, p) else mret (0, cur)
  | ReadM => match cur with None => mret (0, cur) | Some p => x ← get_slot p; mret (count x, cur) end
  | DoneM => mret (0, None)
  end.

Fixpoint nexec_all (cs : list ncommand) (cur : option loc) : M st (list Z) :=
  match cs with
  | [] => mret []
  | c :: cs => r ← nexec c cur; rs ← nexec_all cs r.2; mret (r.1 :: rs)
  end.

(** An update whose allocation fails is refused. *)
Inductive nstep : ncommand -> mon -> Z -> mon -> Prop :=
  | nstep_ok c a : nstep c a (fst (nspec c a)) (snd (nspec c a))
  | nstep_fails c a s : allocates c = true -> calloc s = None -> nstep c a EINVAL a.

Inductive nsteps : list ncommand -> mon -> list Z -> mon -> Prop :=
  | nsteps_nil a : nsteps [] a [] a
  | nsteps_cons c cs a r a1 rs a2 : nstep c a r a1 -> nsteps cs a1 rs a2 -> nsteps (c :: cs) a (r :: rs) a2.

(** The filters of the state: one slot is allocated, or none. *)
Definition rep (s : st) (a : mon) : Prop :=
  g_run s = on (fst a) /\ g_thread s = thread (fst a) /\ NoDup (snd a) /\ Forall (fun f => cb f <> None) (snd a) /\
  match g_filters s with
  | None => snd a = [] /\ slots s = ∅
  | Some p => exists rest, slots s = {[p := slot_of (snd a) rest]} /\ zlen (snd a ++ rest) = NLMON_MAX_FILTERS
  end.

(** What the thread has loaded. *)
Definition loaded (s : st) (cur : option loc) (a : mon) : Prop :=
  match reading (fst a) with
  | None => cur = None
  | Some true => cur = g_filters s
  | Some false => True
  end.

(** What no operation on the filters touches. *)
Definition same_app (s s' : st) : Prop := world s' = world s /\ fds s' = fds s.

(** A refused update. *)
Definition unmoved (s s' : st) : Prop := same_app s s' /\ g_filters s' = g_filters s.

Hypothesis fresh : forall s p, calloc s = Some p -> slots s !! p = None.

(** The slot [new] replaces the published one. *)
Lemma publish_wp new x (Q : Z -> st -> Prop) s a a' :
  rep s a -> NoDup (snd a') -> Forall (fun f => cb f <> None) (snd a') -> fst a' = fst a ->
  (g_filters s <> Some new) ->
  (exists rest, x = slot_of (snd a') rest /\ zlen (snd a' ++ rest) = NLMON_MAX_FILTERS) ->
  (forall s', rep s' a' -> same_app s s' -> Q 0 s') ->
  wp (old ← exchange_filters (Some new); free old;; mret 0) Q (put_slots (<[new := x]> (slots s)) s).
Proof.
  intros (R1 & R2 & R3 & R4 & R5) N C F Hne (rest & -> & Hr) HQ. unfold exchange_filters.
  apply wp_bind, wp_bind, wp_gets, wp_bind, wp_modify, wp_ret. cbn.
  assert (forall h, h = {[new := slot_of (snd a') rest]} -> rep (Nm W h (Some new) (g_run s) (g_thread s) (errno s) (fds s) (world s)) a') as HR.
  { intros h ->. unfold rep. cbn. rewrite F. eauto 10. }
  destruct (g_filters s) as [p|].
  - destruct R5 as (r0 & E & _). apply wp_bind. eapply wp_free; [cbn; rewrite lookup_insert_ne by congruence; by rewrite E, lookup_singleton_eq|].
    apply wp_ret, HQ; [|done]. apply HR. cbn. rewrite E. rewrite delete_insert_ne by congruence.
    by rewrite delete_singleton_eq.
  - destruct R5 as (_ & E). apply wp_bind, wp_ret, wp_ret, HQ; [|done]. apply HR. cbn. by rewrite E.
Qed.

(** Giving back the fresh block leaves the state as it was. *)
Lemma refuse_wp new x e (Q : option loc -> st -> Prop) s a :
  rep s a -> slots s !! new = None -> (forall s', rep s' a -> unmoved s s' -> Q None s') ->
  wp (free (Some new);; modify (put_errno e);; mret None) Q (put_slots (<[new := x]> (slots s)) s).
Proof.
  intros R Hf HQ. apply wp_bind. eapply wp_free; [cbn; by rewrite lookup_insert_eq|]. apply wp_bind, wp_modify, wp_ret, HQ; [|done].
  cbn. unfold rep, put_errno. cbn. rewrite delete_insert_id by done. exact R.
Qed.

(** A fresh slot differs from the published one. *)
Lemma fresh_unpublished s a new : rep s a -> slots s !! new = None -> g_filters s <> Some new.
Proof. intros (_ & _ & _ & _ & R) Hf E. rewrite E in R. destruct R as (r & E2 & _). by rewrite E2, lookup_singleton_eq in Hf. Qed.

(** The outcome of a copy with one filter more. *)
Definition cloned (s : st) (l l' : list nlmon_filter_t) (new : loc) (s' : st) : Prop :=
  exists rest, s' = put_slots (<[new := slot_of l' rest]> (slots s)) s /\ zlen (l' ++ rest) = NLMON_MAX_FILTERS /\
    g_filters s <> Some new.

Lemma clone_and_add_wp c f (Q : option loc -> st -> Prop) s a :
  rep s a -> calloc s = c ->
  (forall s', rep s' a -> unmoved s s' -> c = None \/ bool_decide (f ∈ snd a) || (NLMON_MAX_FILTERS <=? zlen (snd a)) = true -> Q None s') ->
  (forall new s', bool_decide (f ∈ snd a) || (NLMON_MAX_FILTERS <=? zlen (snd a)) = false -> cloned s (snd a) (snd a ++ [f]) new s' -> Q (Some new) s') ->
  wp (filters_clone_and_add c f) Q s.
Proof.
  intros R Hc HN HS. unfold filters_clone_and_add. apply wp_bind, wp_gets. pose proof R as (_ & _ & _ & _ & R5).
  destruct c as [new|]; [|apply wp_bind, wp_modify, wp_ret, HN; [done|done|by left]].
  apply wp_bind, wp_modify. pose proof (fresh _ _ Hc) as Hf. pose proof (fresh_unpublished _ _ _ R Hf) as Hne.
  destruct (g_filters s) as [old|] eqn:Hg.
  2:{ destruct R5 as (E3 & E4). rewrite E3 in *. eapply (append_filter_wp new []); [cbn; by rewrite lookup_insert_eq|].
      cbn. rewrite insert_insert_eq. apply HS; [done|]. eexists. rewrite Hg. by split_and!. }
  destruct R5 as (rest & E3 & Hl). apply wp_bind. eapply wp_get_slot.
  { cbn. rewrite lookup_insert_ne by congruence. by rewrite E3, lookup_singleton_eq. }
  apply wp_bind. eapply wp_set_slot; [cbn; by rewrite lookup_insert_eq|]. cbn. rewrite insert_insert_eq.
  set (s1 := put_slots (<[new:=slot_of (snd a) rest]> (slots s)) (put_slots (<[new:=zero_slot]> (slots s)) s)).
  change s1 with (put_slots (<[new:=slot_of (snd a) rest]> (slots s)) s). clear s1.
  apply wp_bind. replace (Z.to_nat (zlen (snd a))) with (length (snd a)) by (unfold zlen; lia).
  change 0 with (zlen (@nil nlmon_filter_t)) at 1. eapply (dup_loop_wp _ _ [] (snd a)); [cbn; by rewrite lookup_insert_eq|].
  destruct (bool_decide (f ∈ snd a)) eqn:D; [eapply refuse_wp; [done..|]; intros; apply HN; [done|done|by right]|].
  destruct (NLMON_MAX_FILTERS <=? zlen (snd a)) eqn:L; [eapply refuse_wp; [done..|]; intros; apply HN; [done|done|by right]|].
  destruct rest as [|x rest]; [rewrite app_nil_r in Hl; lia|].
  eapply append_filter_wp; [cbn; by rewrite lookup_insert_eq|]. cbn. rewrite insert_insert_eq.
  apply HS; [done|]. exists rest. rewrite <- app_assoc, Hg. split_and!; [done| |done]. by rewrite zlen_app in Hl |- *.
Qed.

Lemma publish_clone_wp new l' (Q : Z -> st -> Prop) s s0 a :
  rep s a -> NoDup l' -> Forall (fun f => cb f <> None) l' -> cloned s (snd a) l' new s0 ->
  (forall s', rep s' (fst a, l') -> same_app s s' -> Q 0 s') ->
  wp (old ← exchange_filters (Some new); free old;; mret 0) Q s0.
Proof. intros R N C (rest & -> & Hr & Hg) HQ. eapply (publish_wp new _ _ _ a (fst a, l')); eauto. Qed.

(** An update: refused, or the filters are replaced. *)
Definition moved (a a' : mon) (s s' : st) : Prop :=
  a' = a /\ unmoved s s' \/ fst a' = replaced (fst a) /\ same_app s s'.

Lemma add_wp c f (Q : Z -> st -> Prop) s a :
  rep s a -> calloc s = c ->
  (forall r a' s', nstep (AddF f) a r a' -> rep s' a' -> moved a a' s s' -> Q r s') -> wp (nlmon_add_filter c f) Q s.
Proof.
  intros R Hc HQ. pose proof (nstep_ok (AddF f) a) as Hok.
  destruct f as [f|]; [|apply wp_ret; eapply HQ; [apply Hok|done|by left]].
  unfold nlmon_add_filter. cbn in Hok. unfold has_cb in Hok.
  destruct (bool_decide (cb f = None)) eqn:E; cbn in Hok; [by apply wp_ret; eapply HQ; [apply Hok| |left]|].
  apply bool_decide_eq_false in E. apply wp_bind. eapply clone_and_add_wp; [done|done| |].
  - intros s' R' S' [Hn|Hb]; apply wp_ret; (eapply HQ; [|done|by left]).
    + eapply nstep_fails; [done|]. by rewrite Hc.
    + rewrite Hb in Hok. exact Hok.
  - intros new s' Hb Hcl. rewrite Hb in Hok. cbn in Hok. apply orb_false_iff in Hb as [Hb%bool_decide_eq_false _].
    pose proof R as (_ & _ & N & C & _). eapply publish_clone_wp; [exact R| | |exact Hcl|].
    + apply NoDup_app. split; [done|]. split; [set_solver|]. apply NoDup_singleton.
    + apply Forall_app. split; [done|]. by constructor.
    + intros s2 R2 S2. eapply HQ; [apply Hok|done|by right].
Qed.

Lemma kept_notin f l : f ∉ l -> kept f l = l.
Proof.
  unfold kept. induction l as [|a l IH]; intros H; cbn; [done|]. rewrite bool_decide_eq_false_2 by set_solver. cbn.
  f_equal. apply IH. set_solver.
Qed.

Lemma kept_in f l : f ∈ l -> (length (kept f l) < length l)%nat.
Proof.
  induction l as [|a l IH]; intros H; cbn; [set_solver|]. pose proof (kept_length f l).
  destruct (decide (a = f)) as [->|E]; [rewrite bool_decide_eq_true_2 by done; cbn; unfold kept in *; lia|].
  rewrite bool_decide_eq_false_2 by done. cbn. fold (kept f l). assert (f ∈ l) by set_solver.
  specialize (IH ltac:(done)). lia.
Qed.

Lemma kept_sublist f l : sublist (kept f l) l.
Proof. unfold kept. induction l as [|a l IH]; cbn; [done|]. destruct (negb _); by constructor. Qed.

Lemma clone_and_remove_wp c f (Q : option loc -> st -> Prop) s a :
  rep s a -> calloc s = c ->
  (forall s', rep s' a -> unmoved s s' -> c = None \/ f ∉ snd a -> Q None s') ->
  (forall new s', f ∈ snd a -> cloned s (snd a) (kept f (snd a)) new s' -> Q (Some new) s') ->
  wp (filters_clone_and_remove c f) Q s.
Proof.
  intros R Hc HN HS. unfold filters_clone_and_remove. apply wp_bind, wp_gets. pose proof R as (_ & _ & _ & _ & R5).
  destruct (g_filters s) as [old|] eqn:Hg.
  2:{ destruct R5 as (E & _). apply wp_ret, HN; [done|done|right]. rewrite E. set_solver. }
  destruct c as [new|]; [|by apply wp_ret, HN; [| |left]]. destruct R5 as (rest & E3 & Hl).
  apply wp_bind, wp_modify. pose proof (fresh _ _ Hc) as Hf. pose proof (fresh_unpublished _ _ _ R Hf) as Hne.
  assert (old <> new) as Hon by congruence. set (s1 := put_slots _ s).
  assert (slots s1 !! old = Some (Slot ([] ++ snd a ++ rest) (zlen (snd a)))) as Ho.
  { cbn. rewrite lookup_insert_ne by congruence. by rewrite E3, lookup_singleton_eq. }
  assert (slots s1 !! new = Some (slot_of [] (replicate (Z.to_nat NLMON_MAX_FILTERS) zero_filter))) as Hn by (cbn; by rewrite lookup_insert_eq).
  apply wp_bind. eapply wp_get_slot; [exact Ho|]. cbn [filters count]. apply wp_bind.
  replace (Z.to_nat (zlen (snd a))) with (length (snd a)) by (unfold zlen; lia).
  assert (length (snd a) <= 5)%nat as Hle by (rewrite zlen_app in Hl; unfold zlen, NLMON_MAX_FILTERS in *; lia).
  change 0 with (zlen (@nil nlmon_filter_t)) at 1. eapply (remove_loop_wp _ _ _ [] (snd a)); [done|exact Ho|exact Hn|rewrite length_replicate; exact Hle|].
  intros free' Hfree. pose proof (kept_length f (snd a)). unfold s1. cbn. rewrite insert_insert_eq, Z.add_0_l.
  destruct (decide (f ∈ snd a)) as [Hin|Hin].
  - pose proof (kept_in _ _ Hin). destruct (Z.eqb_spec (zlen (snd a) - zlen (kept f (snd a))) 0); [unfold zlen in *; lia|].
    apply wp_ret, HS; [done|]. exists free'. rewrite Hg. split_and!; [done| |congruence].
    rewrite zlen_app. unfold zlen. rewrite Hfree, length_replicate. change (Z.to_nat NLMON_MAX_FILTERS) with 5%nat. unfold NLMON_MAX_FILTERS. lia.
  - rewrite kept_notin, Z.sub_diag by done. cbn [Z.eqb]. apply wp_bind. eapply wp_free; [cbn; by rewrite lookup_insert_eq|].
    apply wp_ret, HN; [|done|by right]. cbn. unfold rep. cbn. rewrite delete_insert_id by done. exact R.
Qed.

Lemma remove_wp c f (Q : Z -> st -> Prop) s a :
  rep s a -> calloc s = c ->
  (forall r a' s', nstep (RemoveF f) a r a' -> rep s' a' -> moved a a' s s' -> Q r s') -> wp (nlmon_remove_filter c f) Q s.
Proof.
  intros R Hc HQ. pose proof (nstep_ok (RemoveF f) a) as Hok.
  destruct f as [f|]; [|apply wp_ret; eapply HQ; [apply Hok|done|by left]].
  unfold nlmon_remove_filter. cbn in Hok. unfold has_cb in Hok.
  destruct (bool_decide (cb f = None)) eqn:E; cbn in Hok; [by apply wp_ret; eapply HQ; [apply Hok| |left]|].
  apply wp_bind. eapply clone_and_remove_wp; [done|done| |].
  - intros s' R' S' [Hn|Hb]; apply wp_ret; (eapply HQ; [|done|by left]).
    + eapply nstep_fails; [done|]. by rewrite Hc.
    + rewrite bool_decide_eq_false_2 in Hok by done. exact Hok.
  - intros new s' Hb Hcl. rewrite bool_decide_eq_true_2 in Hok by done. cbn in Hok.
    pose proof R as (_ & _ & N & C & _). eapply publish_clone_wp; [exact R| | |exact Hcl|].
    + eapply sublist_NoDup; [done|]. apply kept_sublist.
    + apply Forall_forall. intros x Hx. eapply Forall_forall in C; [done|]. eapply elem_of_sublist; [done|]. apply kept_sublist.
    + intros s2 R2 S2. eapply HQ; [apply Hok|done|by right].
Qed.

Lemma clear_wp (Q : unit -> st -> Prop) s a :
  rep s a -> (forall s', rep s' (fst a, []) -> same_app s s' -> Q tt s') -> wp nlmon_clear_filters Q s.
Proof.
  intros (R1 & R2 & R3 & R4 & R5) HQ. unfold nlmon_clear_filters, exchange_filters.
  apply wp_bind, wp_bind, wp_gets, wp_bind, wp_modify, wp_ret. destruct (g_filters s) as [p|].
  - destruct R5 as (r & E & _). eapply wp_free; [cbn; by rewrite E, lookup_singleton_eq|]. apply HQ; [|done].
    unfold rep. cbn. rewrite E, delete_singleton_eq. split_and!; [done..|constructor|done|done|done].
  - apply wp_ret, HQ; [|done]. unfold rep. cbn. destruct R5 as (_ & ->). split_and!; [done..|constructor|done|done|done].
Qed.

Lemma loaded_moved s s' cur a a' : loaded s cur a -> moved a a' s s' -> loaded s' cur a'.
Proof.
  intros L [[-> [_ E]]|[E _]]; unfold loaded in *; [by rewrite E|]. rewrite E. cbn.
  by destruct (reading (fst a)) as [[]|].
Qed.

Lemma moved_app a a' s s' : moved a a' s s' -> same_app s s'.
Proof. by intros [[_ []]|[_ ?]]. Qed.

Lemma stop_wp (Q : unit -> st -> Prop) s a :
  rep s a -> (on (fst a) = true -> thread (fst a) = true) ->
  (forall s', rep s' (if on (fst a) then (stopped, []) else a) -> same_app s s' ->
     (on (fst a) = false -> g_filters s' = g_filters s) -> Q tt s') -> wp nlmon_stop Q s.
Proof.
  intros R Hth HQ. pose proof R as (R1 & R2 & R3 & R4 & R5). unfold nlmon_stop.
  apply wp_bind, wp_gets, wp_bind, wp_modify. rewrite R1. destruct (on (fst a)) eqn:Ea; cbn [negb].
  - unfold pthread_join. apply wp_bind, wp_bind, wp_gets. cbn. rewrite R2, Hth by done. apply wp_modify.
    fold (@nlmon_clear_filters W). eapply (clear_wp _ _ (stopped, snd a)); [unfold rep; cbn; by split_and!|].
    intros s' R' S'. by apply HQ.
  - apply wp_ret, HQ; [|done|done]. unfold rep. cbn. rewrite Ea. by split_and!.
Qed.

(** The slot the thread reads. *)
Lemma read_wp (Q : Z * option loc -> st -> Prop) s a cur :
  rep s a -> loaded s cur a -> reading (fst a) <> Some false ->
  Q (if reading (fst a) is Some true then zlen (snd a) else 0, cur) s ->
  wp (match cur with None => mret (0, cur) | Some p => x ← get_slot p; mret (count x, cur) end) Q s.
Proof.
  intros (R1 & R2 & R3 & R4 & R5) L Hr HQ. unfold loaded in L. destruct (reading (fst a)) as [[]|]; [|done|subst; by apply wp_ret].
  rewrite L. destruct (g_filters s) as [p|].
  - destruct R5 as (r & E & _). apply wp_bind. eapply wp_get_slot; [by rewrite E, lookup_singleton_eq|].
    apply wp_ret. by rewrite <- L.
  - apply wp_ret. destruct R5 as [E _]. rewrite E in HQ. by rewrite <- L.
Qed.

Lemma nexec_wp c cur (Q : Z * option loc -> st -> Prop) s a :
  rep s a -> loaded s cur a -> ~ unsafe c a ->
  (forall r cur' a' s', nstep c a r a' -> rep s' a' -> loaded s' cur' a' -> same_app s s' -> Q (r, cur') s') ->
  wp (nexec c cur) Q s.
Proof.
  intros R L Hs HQ. pose proof (nstep_ok c a) as Hok. pose proof R as (R1 & R2 & R3 & R4 & R5). apply wp_bind, wp_gets.
  destruct c as [f|f| | |e| | | |]; cbn in Hok.
  - apply wp_bind. eapply add_wp; [done..|]. intros r a' s' N R' Mv. apply wp_ret.
    eapply HQ; [done|done|by eapply loaded_moved|by eapply moved_app].
  - apply wp_bind. eapply remove_wp; [done..|]. intros r a' s' N R' Mv. apply wp_ret.
    eapply HQ; [done|done|by eapply loaded_moved|by eapply moved_app].
  - apply wp_bind. eapply clear_wp; [done|]. intros s' R' S'. apply wp_ret. eapply HQ; [done|exact R'| |done].
    unfold loaded in *. cbn. by destruct (reading (fst a)) as [[]|].
  - apply wp_bind. apply wp_bind, wp_gets. destruct (g_filters s) as [p|] eqn:Eg.
    + destruct R5 as (r & E & _). apply wp_bind. eapply wp_get_slot; [by rewrite E, lookup_singleton_eq|].
      apply wp_ret, wp_ret. by eapply HQ.
    + destruct R5 as (E & _). apply wp_ret, wp_ret. rewrite E in Hok. by eapply HQ.
  - apply wp_bind. apply wp_bind, wp_gets, wp_bind, wp_modify. rewrite R1. destruct (on (fst a)) eqn:Ea.
    + apply wp_ret, wp_ret. eapply HQ; [exact Hok| |done|done]. unfold rep. cbn. rewrite Ea. by split_and!.
    + apply wp_bind, wp_modify, wp_ret, wp_ret. eapply HQ; [exact Hok| |exact L|done]. unfold rep. cbn. by split_and!.
  - apply wp_bind, wp_gets, wp_bind. rewrite R1. eapply stop_wp; [done| |].
    { intros Ho. destruct (thread (fst a)) eqn:Et; [done|]. destruct Hs. by left. }
    intros s' R' S' Hg. apply wp_ret. eapply HQ; [exact Hok|exact R'| |done].
    destruct (on (fst a)); [done|]. unfold loaded in *. by rewrite Hg.
  - apply wp_bind, wp_gets. rewrite R2. destruct (thread (fst a)) eqn:Et.
    + apply wp_bind, wp_gets, wp_ret. eapply HQ; [exact Hok|unfold rep; cbn; by split_and!|done|done].
    + apply wp_ret. by eapply HQ.
  - eapply read_wp; [done..| |by eapply HQ]. intros Hr. apply Hs. by right.
  - apply wp_ret. eapply HQ; [exact Hok|unfold rep; cbn; by split_and!|done|done].
Qed.

#[export] Instance unsafe_dec c a : Decision (unsafe c a).
Proof.
  unfold unsafe. destruct c; try (right; by intros [(? & _)|(? & _)]).
  - destruct (on (fst a)) eqn:Ho; [|right; by intros [(_ & ? & _)|(? & _)]].
    destruct (thread (fst a)) eqn:Ht; [right; by intros [(_ & _ & ?)|(? & _)]|left; by left].
  - destruct (decide (reading (fst a) = Some false)); [left; by right|right; by intros [(? & _)|(_ & ?)]].
Defined.

(** C18: for every sequence of [nlmon_add_filter], [nlmon_remove_filter],
    [nlmon_clear_filters], [nlmon_list_filters], [nlmon_run] (with any result of
    [pthread_create]) and [nlmon_stop] calls, interleaved with the steps of the
    monitoring thread that dispatches messages (it loads the filters, reads the
    slot it loaded, and is done): the answers and error codes are those of a
    duplicate-free list of at most five filters with callbacks (an update is
    refused besides only where [calloc] failed), the thread reads the filters that
    are published, stopping drops the filters, and exactly the published slot is
    allocated: every replaced one is freed.  A freed slot is touched, or a thread
    that does not exist is joined, only where the sequence comes to one of the two
    steps the code does not protect: a read by the thread after the filters it
    loaded were replaced, or a stop after a failed [pthread_create]. *)
Theorem nlmon_refines_filter_list cs cur s a :
  rep s a -> loaded s cur a ->
  (exists answers s' a', nexec_all cs cur s = Some (answers, s') /\ nsteps cs a answers a' /\ rep s' a' /\ same_app s s') \/
  (exists cs1 c cs2 answers s1 a1, cs = cs1 ++ c :: cs2 /\ nexec_all cs1 cur s = Some (answers, s1) /\
     nsteps cs1 a answers a1 /\ rep s1 a1 /\ same_app s s1 /\ unsafe c a1).
Proof.
  revert cur s a. induction cs as [|c cs IH]; intros cur s a R L.
  { left. exists [], s, a. split; [done|]. by split; [constructor|]. }
  destruct (decide (unsafe c a)) as [Hu|Hu].
  { right. exists [], c, cs, [], s, a. split_and!; [done|done|constructor|done|done|done]. }
  edestruct (wp_run (nexec c cur) (fun r s' => exists a', nstep c a r.1 a' /\ rep s' a' /\ loaded s' r.2 a' /\ same_app s s') s)
    as ([r cur1] & s1 & E1 & a1 & N1 & R1 & L1 & S1).
  { eapply nexec_wp; [done..|]. eauto 10. }
  cbn [fst snd] in N1, L1. destruct (IH cur1 s1 a1 R1 L1) as [(rs & s2 & a2 & E2 & N2 & R2 & S2)
    |(cs1 & c' & cs2 & rs & s2 & a2 & -> & E2 & N2 & R2 & S2 & U2)].
  - left. exists (r :: rs), s2, a2. cbn [nexec_all]. rewrite (bind_run _ _ _ _ _ E1), (bind_run _ _ _ _ _ E2).
    split; [done|]. split; [by econstructor|]. split; [done|]. destruct S1, S2. split; congruence.
  - right. exists (c :: cs1), c', cs2, (r :: rs), s2, a2. cbn [nexec_all]. rewrite (bind_run _ _ _ _ _ E1), (bind_run _ _ _ _ _ E2).
    split_and!; [done|done|by econstructor|done| |done]. destruct S1, S2. split; congruence.
Qed.
End Client.
