(* ===== verification/NlMonDispatch.v ===== *)
(** * nlmon: which callbacks a message runs

    The bytes of a batch of messages, as the kernel lays them out, and the
    sequence of callbacks that [handle_netlink_msg] makes for them. *)

From S2P Require Import Prelude Netlink NetlinkSafe NetlinkSpec NlMon NlMonSpec.
Import Netlink NlMon.

(** ** Messages *)

Record message := Msg { m_type : Z; m_hdr : list Z; m_data : list Z }.

Definition msg_len (m : message) : Z := 16 + zlen (m_data m).
Definition enc_msg (m : message) : list Z :=
  le32' (msg_len m) ++ le16 (m_type m) ++ m_hdr m ++ m_data m
  ++ replicate (Z.to_nat (align4 (msg_len m) - msg_len m)) 0.
Definition enc_msgs (l : list message) : list Z := concat (enc_msg <$> l).

(** A link message carries a whole [struct ifinfomsg]. *)
Definition msg_ok (m : message) : Prop :=
  0 <= m_type m < 65536 /\ zlen (m_hdr m) = 10 /\ msg_len m < 2 ^ 32 /\
  (m_type m = RTM_NEWLINK -> sizeof_ifinfomsg <= zlen (m_data m)).

Definition link_index (m : message) : Z := s32 (v32 (m_data m) 4).
Definition link_flags (m : message) : Z := v32 (m_data m) 8.

Lemma align4_msg m : msg_len m <= align4 (msg_len m) < msg_len m + 4.
Proof. apply align4_range. unfold msg_len. pose proof (zlen_nonneg (m_data m)). lia. Qed.

Lemma zlen_enc_msg m : msg_ok m -> zlen (enc_msg m) = align4 (msg_len m).
Proof.
  intros (_ & H & _). unfold enc_msg. rewrite !zlen_app, H, zlen_le32'. pose proof (align4_msg m).
  rewrite zlen_replicate by lia. change (zlen (le16 (m_type m))) with 2. unfold msg_len in *. lia.
Qed.

Section fields.
Context (pre post : list Z) (m : message) (Hm : msg_ok m).
Let buf := pre ++ enc_msg m ++ post.

Lemma msg_header : v32 buf (zlen pre) = msg_len m /\ v16 buf (zlen pre + 4) = m_type m.
Proof.
  destruct Hm as (Ht & Hh & Hl & _). unfold buf, enc_msg.
  assert (0 <= msg_len m) by (unfold msg_len; pose proof (zlen_nonneg (m_data m)); lia). split.
  - replace (zlen pre) with (zlen pre + 0) by lia. rewrite v32_app; [|lia|].
    + rewrite <- app_assoc. apply v32_le32'. lia.
    + rewrite <- app_assoc. apply (zlen_app_le (le32' _)).
  - rewrite <- !app_assoc, app_assoc. replace (zlen pre + 4) with (zlen (pre ++ le32' (msg_len m)) + 0)
      by (rewrite zlen_app, zlen_le32'; lia).
    rewrite v16_app; [by apply v16_le16|lia|apply (zlen_app_le (le16 _))].
Qed.

Lemma msg_body i : 0 <= i -> i + 4 <= zlen (m_data m) -> v32 buf (zlen pre + 16 + i) = v32 (m_data m) i.
Proof.
  intros H1 H2. destruct Hm as (Ht & Hh & Hl & _). unfold buf, enc_msg.
  replace (pre ++ (le32' (msg_len m) ++ le16 (m_type m) ++ m_hdr m ++ m_data m ++ replicate _ 0) ++ post)
    with ((pre ++ le32' (msg_len m) ++ le16 (m_type m) ++ m_hdr m) ++ m_data m ++ replicate (Z.to_nat (align4 (msg_len m) - msg_len m)) 0 ++ post)
    by (by rewrite <- !app_assoc).
  replace (zlen pre + 16 + i) with (zlen (pre ++ le32' (msg_len m) ++ le16 (m_type m) ++ m_hdr m) + i)
    by (rewrite !zlen_app, Hh, zlen_le32'; change (zlen (le16 (m_type m))) with 2; lia).
  rewrite v32_app; [|lia|rewrite zlen_app; pose proof (zlen_nonneg (replicate (Z.to_nat (align4 (msg_len m) - msg_len m)) 0 ++ post)); lia].
  unfold v32, v16, v8, znth. assert (forall j, 0 <= j < zlen (m_data m) ->
    (if j <? 0 then None else (m_data m ++ replicate (Z.to_nat (align4 (msg_len m) - msg_len m)) 0 ++ post) !! Z.to_nat j)
      = (if j <? 0 then None else m_data m !! Z.to_nat j)) as E.
  { intros j Hj. unfold zlen in Hj. destruct (j <? 0); [done|]. apply lookup_app_l. lia. }
  by rewrite !E by lia.
Qed.
End fields.

(** ** Reads as equations *)

Lemma rd16_run {S} buf i (s : S) : 0 <= i -> i + 2 <= zlen buf -> rd16 buf i s = Some (v16 buf i, s).
Proof. intros H1 H2. destruct (wp_run (rd16 buf i) (fun v s' => v = v16 buf i /\ s' = s) s) as (v & s' & E & -> & ->); [by apply rd16_wp|done]. Qed.

Lemma rd32_run {S} buf i (s : S) : 0 <= i -> i + 4 <= zlen buf -> rd32 buf i s = Some (v32 buf i, s).
Proof. intros H1 H2. destruct (wp_run (rd32 buf i) (fun v s' => v = v32 buf i /\ s' = s) s) as (v & s' & E & -> & ->); [by apply rd32_wp|done]. Qed.

(** ** The filters a link event reaches *)

(** The interfaces a filter names end at the first 0; none means all. *)
Definition named (l : list Z) : list Z := take (Z.to_nat NLMON_MAX_IFACES) l.
Fixpoint until0 (l : list Z) : list Z := match l with [] => [] | x :: l => if x =? 0 then [] else x :: until0 l end.
Definition watches (f : nlmon_filter_t) (ifidx flags : Z) : bool :=
  negb (Z.land (events f) flags =? 0) && (bool_decide (until0 (idx f) = []) || bool_decide (ifidx ∈ until0 (idx f))).

Section run.
Context {W : Type} (user_cb : Z -> list Z -> Z -> Z -> M (nlmon W) unit) (if_indextoname : Z -> option (list Z)).
Notation st := (nlmon W).

Record call := Call { c_cb : Z; c_name : list Z; c_flags : Z; c_arg : Z }.

Fixpoint run_calls (l : list call) : M st unit :=
  match l with [] => mret tt | c :: l => user_cb (c_cb c) (c_name c) (c_flags c) (c_arg c);; run_calls l end.

(** The calls for one message, in the order of the filters. *)
Definition filter_call (name : list Z) (ifidx flags : Z) (f : nlmon_filter_t) : option call :=
  if watches f ifidx flags then c ← cb f; Some (Call c name flags (arg f)) else None.
Definition message_calls (l : list nlmon_filter_t) (m : message) : list call :=
  if m_type m =? RTM_NEWLINK then
    match if_indextoname (link_index m) with
    | None => []
    | Some name => omap (filter_call name (link_index m) (link_flags m)) l
    end
  else [].

Lemma run_calls_app l1 l2 (s : st) : run_calls (l1 ++ l2) s = (run_calls l1;; run_calls l2) s.
Proof.
  revert s. induction l1 as [|c l1 IH]; intros s; [by unfold mbind, M_bind|]. cbn [app run_calls]. unfold mbind, M_bind; cbv beta.
  destruct (user_cb _ _ _ _ s) as [[[] s1]|]; [|done]. apply IH.
Qed.

Lemma idx_loop_run l d ifidx n (s : st) : length l = n ->
  idx_loop n (d ++ l) (zlen d) ifidx s = Some (bool_decide (ifidx ∈ until0 l), s).
Proof.
  revert d n. induction l as [|x l IH]; intros d n <-; cbn [length idx_loop until0]; [done|].
  rewrite znth_middle. cbn. unfold mbind at 1, M_bind at 1. cbn. destruct (Z.eqb_spec x 0) as [->|Hx]; [done|].
  destruct (Z.eqb_spec x ifidx) as [->|Hne].
  - by rewrite bool_decide_eq_true_2 by set_solver.
  - rewrite <- zlen_snoc with (x := x). replace (d ++ x :: l) with ((d ++ [x]) ++ l) by (by rewrite <- app_assoc).
    rewrite IH by done. do 2 f_equal. apply bool_decide_ext. set_solver.
Qed.

Lemma idx_match_run l ifidx (s : st) : zlen l = NLMON_MAX_IFACES ->
  idx_match l ifidx s = Some (bool_decide (until0 l = []) || bool_decide (ifidx ∈ until0 l), s).
Proof.
  intros H. assert (length l = Z.to_nat NLMON_MAX_IFACES) as Hl by (unfold zlen in H; lia). unfold idx_match.
  rewrite (bind_run _ _ _ _ _ (idx_loop_run l [] ifidx _ s Hl)). destruct l as [|x l]; [done|]. cbn.
  destruct (Z.eqb_spec x 0) as [->|Hx]; [done|]. change (Z.to_nat 0) with 0%nat.
  cbn [lookup list_lookup of_option]. unfold mbind, M_bind, mret, M_ret. by rewrite (proj2 (Z.eqb_neq x 0) Hx), orb_false_r.
 
Qed.

(** Callbacks that leave the published slot [p] alone. *)
Context (p : loc) (l rest : list nlmon_filter_t).
Definition published (s : st) : Prop := g_filters s = Some p /\ slots s !! p = Some (slot_of l rest).
Hypothesis keeps : forall c n e a s s', published s -> user_cb c n e a s = Some (tt, s') -> published s'.
Hypothesis wf : Forall (fun f => cb f <> None /\ zlen (idx f) = NLMON_MAX_IFACES) l.

Lemma get_slot_run x (s : st) : slots s !! p = Some x -> get_slot p s = Some (x, s).
Proof. intros H. unfold get_slot. rewrite (bind_run _ _ s (slots s) s) by done. by rewrite H. Qed.

Lemma filter_loop_run d r name ifidx flags fuel (s : st) :
  l = d ++ r -> published s -> (length r < fuel)%nat ->
  filter_loop user_cb fuel p name ifidx flags (zlen d) s = run_calls (omap (filter_call name ifidx flags) r) s.
Proof.
  revert d fuel s. induction r as [|f r IH]; intros d fuel s E Hp Hf; (destruct fuel as [|fuel]; [cbn in Hf; lia|]);
    cbn [filter_loop]; rewrite (bind_run _ _ _ _ _ (get_slot_run _ s (proj2 Hp))); cbn [slot_of filters count].
  { rewrite E, app_nil_r, Z.ltb_irrefl. done. }
  rewrite (proj2 (Z.ltb_lt _ _)) by (rewrite E, zlen_app; unfold zlen; cbn; lia).
  assert (Forall (fun f => cb f <> None /\ zlen (idx f) = NLMON_MAX_IFACES) l) as wf' by exact wf.
  rewrite E in wf'. apply Forall_app in wf' as [_ [[Hcb Hi] _]%Forall_cons].
  rewrite (bind_run _ _ s f s) by (apply of_option_run; rewrite E, <- app_assoc; apply znth_middle).
  assert (forall s', published s' -> filter_loop user_cb fuel p name ifidx flags (zlen d + 1) s'
    = run_calls (omap (filter_call name ifidx flags) r) s') as IH'.
  { intros s' Hp'. rewrite <- zlen_snoc with (x := f). apply IH; [by rewrite <- app_assoc|done|cbn in Hf; lia]. }
  cbn [omap list_omap]. unfold filter_call at 1, watches.
  destruct (Z.land (events f) flags =? 0); cbn [negb andb]; [by apply IH'|].
  unfold mbind, M_bind. rewrite idx_match_run by done. destruct (cb f) as [c|]; [|done].
  destruct (_ || _); [|by apply IH']. cbn [option_bind mbind run_calls c_cb c_name c_flags c_arg].
  unfold mbind, M_bind. destruct (user_cb c name flags (arg f) s) as [[[] s1]|] eqn:Ec; [|done].
  apply IH'. by eapply keeps.
Qed.

Lemma run_calls_keeps cs (s s' : st) : published s -> run_calls cs s = Some (tt, s') -> published s'.
Proof.
  revert s. induction cs as [|c cs IH]; intros s Hp E; [by injection E as <-|]. cbn [run_calls] in E. unfold mbind, M_bind in E.
  destruct (user_cb _ _ _ _ s) as [[[] s1]|] eqn:Ec; [|done]. eapply IH; [|exact E]. by eapply keeps.
Qed.

(** The body of the loop over the messages, for one message. *)
Lemma message_run pre m post fuel (s : st) :
  msg_ok m -> published s -> (length l < fuel)%nat ->
  let buf := pre ++ enc_msg m ++ post in
  (if negb (m_type m =? RTM_NEWLINK) then mret tt
   else
     ifidx ← ifi_index buf (NLMSG_DATA (zlen pre));
     ifi_flags ← rd32 buf (NLMSG_DATA (zlen pre) + 8);
     ifi_change ← rd32 buf (NLMSG_DATA (zlen pre) + 12);
     match if_indextoname ifidx with
     | None => mret tt
     | Some ifname => filter_loop user_cb fuel p ifname ifidx ifi_flags 0
     end) s = run_calls (message_calls l m) s.
Proof.
  intros Hm Hp Hf buf. unfold message_calls. destruct (Z.eqb_spec (m_type m) RTM_NEWLINK) as [Ht|Ht]; cbn [negb]; [|done].
  pose proof (msg_body pre post m Hm) as B. fold buf in B. pose proof (zlen_enc_msg m Hm) as Z1. pose proof (align4_msg m) as [Z2 _].
  destruct Hm as (_ & _ & _ & Hd). specialize (Hd Ht). unfold sizeof_ifinfomsg in Hd. pose proof (zlen_nonneg pre). pose proof (zlen_nonneg post).
  assert (zlen pre + 32 <= zlen buf) by (unfold buf; rewrite !zlen_app, Z1; unfold msg_len in *; lia).
  unfold NLMSG_DATA, NLMSG_HDRLEN.
  assert (ifi_index buf (zlen pre + 16) s = Some (link_index m, s)) as E1.
  { unfold ifi_index. rewrite (bind_run _ _ _ _ _ (rd32_run buf (zlen pre + 16 + 4) s ltac:(lia) ltac:(lia))).
    unfold link_index. by rewrite <- B by lia. }
  rewrite (bind_run _ _ _ _ _ E1), (bind_run _ _ _ _ _ (rd32_run buf (zlen pre + 16 + 8) s ltac:(lia) ltac:(lia))).
  rewrite (bind_run _ _ _ _ _ (rd32_run buf (zlen pre + 16 + 12) s ltac:(lia) ltac:(lia))).
  rewrite (B 8) by lia. fold (link_flags m). destruct (if_indextoname (link_index m)) as [name|]; [|done].
  by apply (filter_loop_run [] l).
Qed.

Lemma msg_loop_run ms pre tail fuel (s : st) :
  Forall msg_ok ms -> published s -> (length ms + length l < fuel)%nat ->
  msg_loop user_cb if_indextoname fuel (pre ++ enc_msgs ms ++ tail) p (zlen pre) (zlen (enc_msgs ms)) s
    = run_calls (concat (message_calls l <$> ms)) s.
Proof.
  revert pre fuel s. induction ms as [|m ms IH]; intros pre fuel s Ho Hp Hf; (destruct fuel as [|fuel]; [cbn in Hf; lia|]);
    [done|]. cbn [msg_loop].
  apply Forall_cons in Ho as [Hm Ho]. change (enc_msgs (m :: ms)) with (enc_msg m ++ enc_msgs ms). rewrite <- app_assoc.
  destruct (msg_header pre (enc_msgs ms ++ tail) m Hm) as [H1 H2]. set (buf := pre ++ enc_msg m ++ enc_msgs ms ++ tail) in *.
  pose proof (zlen_enc_msg m Hm) as Hz. pose proof (align4_msg m) as Ha. pose proof (zlen_nonneg (enc_msgs ms)) as Hms.
  pose proof (zlen_nonneg pre). pose proof (zlen_nonneg tail). assert (16 <= msg_len m) by (unfold msg_len; pose proof (zlen_nonneg (m_data m)); lia).
  assert (zlen buf = zlen pre + align4 (msg_len m) + zlen (enc_msgs ms) + zlen tail) as Hb by (unfold buf; rewrite !zlen_app, Hz; lia).
  rewrite zlen_app, Hz. assert (forall s' : st, nlmsg_len buf (zlen pre) s' = Some (msg_len m, s')) as L.
  { intros s'. unfold nlmsg_len. rewrite rd32_run by lia. by rewrite H1. }
  assert (NLMSG_OK buf (zlen pre) (align4 (msg_len m) + zlen (enc_msgs ms)) s = Some (true, s)) as E1.
  { unfold NLMSG_OK. rewrite (proj2 (Z.leb_le _ _)) by lia. rewrite (bind_run _ _ _ _ _ (L s)).
    unfold mret, M_ret. do 2 f_equal. apply andb_true_iff. rewrite !Z.leb_le. lia. }
  assert (nlmsg_type buf (zlen pre) s = Some (m_type m, s)) as E2 by (unfold nlmsg_type; rewrite rd16_run by lia; by rewrite H2).
  rewrite (bind_run _ _ _ _ _ E1). cbn [negb]. rewrite (bind_run _ _ _ _ _ E2).
  cbn [fmap list_fmap concat]. rewrite run_calls_app. unfold mbind at 1, M_bind at 1.
  pose proof (message_run pre m (enc_msgs ms ++ tail) (Datatypes.S fuel) s Hm Hp ltac:(lia)) as E3. cbv zeta in E3. fold buf in E3.
  cbv zeta. rewrite E3. unfold mbind, M_bind.
  destruct (run_calls (message_calls l m) s) as [[[] s1]|] eqn:E4; [|done].
  rewrite L, <- Hz at 1. rewrite <- zlen_app.
  replace (align4 (msg_len m) + zlen (enc_msgs ms) - align4 (msg_len m)) with (zlen (enc_msgs ms)) by lia.
  unfold buf. rewrite app_assoc. 
  apply (IH (pre ++ enc_msg m)); [done|by eapply run_calls_keeps|cbn in Hf; lia].
Qed.
End run.

(** C19: for any batch of messages as the kernel lays them out (of any type, a
    link message with a whole header, with padding, in a larger buffer) and any
    callbacks that leave the published slot in place, [handle_netlink_msg] runs
    exactly these callbacks, in this order and with these arguments: for each
    link message whose interface has a name, those of the filters, in the order
    they were added, that share an event with its flags and name its interface
    or none at all. *)
Theorem handle_netlink_msg_calls {W} user_cb if_indextoname p l rest ms tail fuel (s : nlmon W) :
  published p l rest s ->
  (forall c n e a s s', published p l rest s -> user_cb c n e a s = Some (tt, s') -> published p l rest s') ->
  Forall (fun f => cb f <> None /\ zlen (idx f) = NLMON_MAX_IFACES) l ->
  Forall msg_ok ms -> (length ms + length l < fuel)%nat ->
  handle_netlink_msg user_cb if_indextoname fuel (enc_msgs ms ++ tail) (zlen (enc_msgs ms)) s
    = run_calls user_cb (concat (message_calls if_indextoname l <$> ms)) s.
Proof.
  intros Hp Hk Hw Ho Hf. unfold handle_netlink_msg.
  rewrite (bind_run _ _ s (Some p) s) by (unfold gets; by rewrite (proj1 Hp)).
  by apply (msg_loop_run user_cb if_indextoname p l rest Hk Hw ms []).
Qed.

(** ** A monitor with two filters *)

Definition log_cb (c : Z) (n : list Z) (e a : Z) : M (nlmon (list call)) unit :=
  modify (fun s => Nm _ (slots s) (g_filters s) (g_run s) (g_thread s) (errno s) (fds s) (world s ++ [Call c n e a])).
Definition lan (i : Z) : option (list Z) := if i =? 2 then Some [101; 116; 104; 48] else if i =? 3 then Some [108; 111] else None.
Definition on_any (e c : Z) : nlmon_filter_t := Filter (replicate 5 0) e (Some c) 7.
Definition on_iface (i e c : Z) : nlmon_filter_t := Filter (i :: replicate 4 0) e (Some c) 8.
Definition link_event (i flags : Z) : message :=
  Msg RTM_NEWLINK (replicate 10 0) ([0; 0; 1; 0] ++ le32' i ++ le32' flags ++ le32' 1 ++ [9]).
Definition monitor (l : list nlmon_filter_t) : nlmon (list call) :=
  Nm _ {[1 := slot_of l (replicate (5 - length l) zero_filter)]} (Some 1) true true 0 ∅ [].
Definition next_block {W} (s : nlmon W) : option loc := List.find (fun p => bool_decide (slots s !! p = None)) [1; 2; 3].

Lemma next_block_fresh {W} (s : nlmon W) p : next_block s = Some p -> slots s !! p = None.
Proof. intros H. apply List.find_some in H as [_ H]. by apply bool_decide_eq_true in H. Qed.

Lemma handle_netlink_msg_calls_witness :
  let l := [on_any IFF_RUNNING 100; on_iface 2 IFF_UP 200] in
  let ms := [link_event 2 65; Msg 24 (replicate 10 0) []; link_event 3 1; link_event 9 65] in
  concat (message_calls lan l <$> ms) = [Call 100 [101; 116; 104; 48] 65 7; Call 200 [101; 116; 104; 48] 65 8] /\
  handle_netlink_msg log_cb lan 9 (enc_msgs ms ++ [0]) (zlen (enc_msgs ms)) (monitor l)
    = run_calls log_cb (concat (message_calls lan l <$> ms)) (monitor l).
Proof.
  split; [vm_compute; reflexivity|].
  apply (handle_netlink_msg_calls log_cb lan 1 _ (replicate 3 zero_filter)).
  - split; reflexivity.
  - intros c n e a s s' Hp E. injection E as <-. exact Hp.
  - repeat constructor; done.
  - repeat constructor; done.
  - cbn. lia.
Defined.

Lemma nlmon_refines_filter_list_witness :
  let s := Nm unit ∅ None false false 0 ∅ tt in
  let f := on_any IFF_UP 1 in let g := on_iface 2 IFF_UP 2 in
  let cs := [AddF (Some f); AddF (Some f); AddF (Some g); ListF; RunM 0; RunM 0; LoadM; ReadM; ReadM; DoneM;
             RemoveF (Some f); LoadM; ReadM; DoneM; StopM; ListF; AddF None] in
  let a := (stopped, []) in
  fst <$> nexec_all next_block cs None s = Some [0; 22; 0; 2; 0; -1; 0; 2; 2; 0; 0; 0; 1; 0; 0; 0; 22] /\
  ((exists answers s' a', nexec_all next_block cs None s = Some (answers, s') /\ nsteps (next_block (W := unit)) cs a answers a' /\
      rep s' a' /\ same_app s s') \/
   (exists cs1 c cs2 answers s1 a1, cs = cs1 ++ c :: cs2 /\ nexec_all next_block cs1 None s = Some (answers, s1) /\
      nsteps (next_block (W := unit)) cs1 a answers a1 /\ rep s1 a1 /\ same_app s s1 /\ unsafe c a1)).
Proof.
  split; [vm_compute; reflexivity|].
  apply (nlmon_refines_filter_list next_block next_block_fresh); [|reflexivity].
  unfold rep. cbn. split_and!; [done|done|constructor|constructor|done|done].
Defined.

(** ** Limits of the code *)

(** A filter made with [NLMON_EVENT_LINK_DOWN] matches no event at all: the
    constant uses the logical negation and is 0. *)
Theorem link_down_matches_nothing f ifidx flags : events f = NLMON_EVENT_LINK_DOWN -> watches f ifidx flags = false.
Proof. intros E. unfold watches. by rewrite E. Qed.

(** A callback that removes its own filter frees the slot that is being read, and
    so does another thread that adds one while the monitoring thread dispatches a
    message; a link message shorter than its header is read beyond the end; after
    a failed [pthread_create] the monitor cannot be started again, and stopping
    it joins a thread that does not exist. *)
Theorem nlmon_unsafe_uses :
  let f := on_any IFF_UP 1 in
  let removing (c : Z) (n : list Z) (e a : Z) : M (nlmon (list call)) unit :=
    p ← gets next_block; nlmon_remove_filter p (Some f);; mret tt in
  let short := Msg RTM_NEWLINK (replicate 10 0) [] in
  handle_netlink_msg removing lan 9 (enc_msg (link_event 2 1)) (zlen (enc_msg (link_event 2 1))) (monitor [f]) = None /\
  nexec_all next_block [LoadM; AddF (Some (on_any IFF_UP 2)); ReadM] None (monitor [f]) = None /\
  handle_netlink_msg log_cb lan 9 (enc_msg short) 16 (monitor [f]) = None /\
  (fst <$> (r1 ← nlmon_run 11; r2 ← nlmon_run 0; mret (r1, r2)) (Nm unit ∅ None false false 0 ∅ tt)) = Some (11, -1) /\
  (nlmon_run 11;; nlmon_stop) (Nm unit ∅ None false false 0 ∅ tt) = None.
Proof. by vm_compute. Qed.
