(* ===== verification/PcapDhcp.v ===== *)
(** * libpcap-dhcp-capture: finding DHCP messages in captured frames

    Models [src/libpcap-dhcp-capture/pcap_dhcp.c]: the token table lookup with
    its four round-robin buffers, the packet handler, the search for the host
    name option, and the configuration of the capture handle, whose libpcap
    calls are given by their results.  A frame is the list of its captured
    bytes; reading beyond it is undefined behaviour. *)

From S2P Require Import Prelude.

Module PcapDhcp.

Definition TOKBUFSIZE : Z := 128.
Definition ETHERTYPE_VLAN : Z := 33024.
Definition IPPROTO_UDP : Z := 17.

(** The sizes of [struct bootp], the vendor area coming last. *)
Definition bootp_fixed : Z := 1 + 1 + 1 + 1 + 4 + 2 + 2 + 4 + 4 + 4 + 4 + 16 + 64 + 128.
Definition sizeof_bootp : Z := bootp_fixed + 64.

(** ** Tokens *)

Record tok := Tok { tok_v : Z; tok_s : option (list Z) }.

(** A string of the table, by its entry, or one of the buffers. *)
Inductive str := TokStr (i : Z) | BufStr (b : Z).

(** The static buffers and the index of the next one. *)
Record tok_state := TS { bufs : list (list Z); idx : Z }.

Section tokens.
(** [snprintf]: what a format makes of a value, before the truncation. *)
Context (render : list Z -> Z -> list Z).

(** The loop over the table, from entry [i]; running off its end is undefined. *)
Fixpoint tok_loop (lp : list tok) (i v : Z) : M tok_state (option Z) :=
  match lp with
  | [] => ub
  | t :: lp =>
      match tok_s t with
      | None => mret None
      | Some _ => if tok_v t =? v then mret (Some i) else tok_loop lp (i + 1) v
      end
  end.

Definition default_fmt : list Z := [35; 37; 100].

Definition tok2strbuf (lp : option (list tok)) (fmt : option (list Z)) (v b bufsize : Z) : M tok_state str :=
  found ← (match lp with Some l => tok_loop l 0 v | None => mret None end);
  match found with
  | Some i => mret (TokStr i)
  | None =>
      let fmt := default default_fmt fmt in
      s ← gets bufs;
      _ ← of_option (znth s b);
      modify (fun t => TS (zset (bufs t) b (take (Z.to_nat (bufsize - 1)) (render fmt v))) (idx t));;
      mret (BufStr b)
  end.

Definition tok2str (lp : option (list tok)) (fmt : option (list Z)) (v : Z) : M tok_state str :=
  ret ← gets idx;
  modify (fun t => TS (bufs t) (Z.land (idx t + 1) 3));;
  tok2strbuf lp fmt v ret TOKBUFSIZE.
End tokens.

(** ** Frames *)

Section handler.
Context {S : Type} (p : list Z).
Definition rd (i : Z) : M S Z := of_option (znth p i).
(** [ntohs] of the two bytes at [i]. *)
Definition rd_be16 (i : Z) : M S Z := a ← rd i; b ← rd (i + 1); mret (256 * a + b).

(** The loop over the VLAN tags: the length of the link header. *)
Fixpoint vlan_loop (fuel : nat) (ether_type ethernet_h_len cnt : Z) : M S Z :=
  match fuel with
  | O => ub
  | Datatypes.S fuel =>
      ty ← rd_be16 ether_type;
      if ty =? ETHERTYPE_VLAN then
        cnt ← cint (cnt + 1);
        len ← cint (ethernet_h_len + 4);
        vlan_loop fuel (ether_type + 4) len cnt
      else mret ethernet_h_len
  end.

(** [callback] gets the position of the payload. *)
Definition dhcp_packet_handler (fuel : nat) (callback : Z -> M S unit) (caplen : Z) : M S unit :=
  ethernet_h_len ← vlan_loop fuel 12 14 0;
  let ip_h := ethernet_h_len in
  first ← rd ip_h;
  let ip_h_len := Z.land first 15 * 4 in
  let udp_h_len := 8 in
  let total_headers_size := u32 (ethernet_h_len + ip_h_len + udp_h_len) in
  if caplen <? total_headers_size then mret tt
  else
    protocol ← rd (ip_h + 9);
    if negb (protocol =? IPPROTO_UDP) then mret tt
    else
      let payload_len := u32 (caplen - (ethernet_h_len + ip_h_len + udp_h_len)) in
      let payload := total_headers_size in
      if payload_len <? sizeof_bootp then mret tt else callback payload.
End handler.

(** ** The host name option *)

Definition vm_rfc1048 : list Z := [99; 130; 83; 99].

Section options.
Context {S : Type} (vend : list Z) (malloc : Z -> bool).

(** [memcpy] of [n] bytes from [i]. *)
Fixpoint copy (i : Z) (n : nat) : M S (list Z) :=
  match n with
  | O => mret []
  | Datatypes.S n => b ← rd vend i; rest ← copy (i + 1) n; mret (b :: rest)
  end.

(** The loop over the options; [vend_data] is the offset past the cookie. *)
Fixpoint option_loop (fuel : nat) (vend_data vend_len index : Z) : M S (option (list Z)) :=
  match fuel with
  | O => ub
  | Datatypes.S fuel =>
      if index <? vend_len then
        opt ← rd vend (vend_data + index);
        option_len ← rd vend (vend_data + u64 (index + 1));
        let index := u64 (index + 2) in
        if opt =? 255 then mret None
        else if opt =? 12 then
          if malloc (option_len + 1) then
            data ← copy (vend_data + index) (Z.to_nat option_len); mret (Some (data ++ [0]))
          else ub
        else option_loop fuel vend_data vend_len (u64 (index + option_len))
      else mret None
  end.

Definition parse_vendor_specific_option_12 (fuel : nat) (vend_len : Z) : M S (option (list Z)) :=
  cookie ← copy 0 4;
  if negb (bool_decide (cookie = vm_rfc1048)) then mret None
  else option_loop fuel 4 (u64 (vend_len - 4)) 0.
End options.

(** The offset of [bp_vend]. *)
Definition calc_vendor_specific_size : Z := bootp_fixed.

(** ** Opening the capture *)

Record pcap_t := Pcap {
  snaplen : Z; promisc : Z; timeout : Z; buffer_size : Z; immediate : Z; nonblock : Z;
  active : bool; filtered : bool
}.

(** The handle, [None] when there is none, and the compiled programs not freed. *)
Record capture := Cap { handle : option pcap_t; programs : Z }.

(** The result of each libpcap call, in the order of the calls. *)
Record pcap_results := Res {
  r_create : bool; r_snaplen : Z; r_promisc : Z; r_timeout : Z; r_buffer : Z; r_immediate : Z;
  r_nonblock : Z; r_activate : Z; r_compile : Z; r_setfilter : Z
}.

Definition with_handle (f : pcap_t -> pcap_t) : M capture unit :=
  h ← gets handle;
  match h with Some h => modify (fun c => Cap (Some (f h)) (programs c)) | None => ub end.
Definition pcap_close : M capture unit :=
  h ← gets handle;
  match h with Some _ => modify (fun c => Cap None (programs c)) | None => ub end.

(** A call that succeeds changes the handle; a failure closes it. *)
Definition configure (ok : bool) (f : pcap_t -> pcap_t) (next : M capture bool) : M capture bool :=
  if ok then with_handle f;; next else pcap_close;; mret false.

(** The calls after [pcap_create]. *)
Definition pcap_setup (r : pcap_results) : M capture bool :=
    configure (r_snaplen r =? 0) (fun h => Pcap 2048 (promisc h) (timeout h) (buffer_size h) (immediate h) (nonblock h) (active h) (filtered h)) (
    configure (r_promisc r =? 0) (fun h => Pcap (snaplen h) 1 (timeout h) (buffer_size h) (immediate h) (nonblock h) (active h) (filtered h)) (
    configure (r_timeout r =? 0) (fun h => Pcap (snaplen h) (promisc h) 1000 (buffer_size h) (immediate h) (nonblock h) (active h) (filtered h)) (
    configure (r_buffer r =? 0) (fun h => Pcap (snaplen h) (promisc h) (timeout h) (32 * 1024) (immediate h) (nonblock h) (active h) (filtered h)) (
    configure (r_immediate r =? 0) (fun h => Pcap (snaplen h) (promisc h) (timeout h) (buffer_size h) 1 (nonblock h) (active h) (filtered h)) (
    configure (negb (r_nonblock r =? -1)) (fun h => Pcap (snaplen h) (promisc h) (timeout h) (buffer_size h) (immediate h) 1 (active h) (filtered h)) (
    configure (r_activate r =? 0) (fun h => Pcap (snaplen h) (promisc h) (timeout h) (buffer_size h) (immediate h) (nonblock h) true (filtered h)) (
    configure (negb (r_compile r =? -1)) (fun h => h) (
    modify (fun c => Cap (handle c) (programs c + 1));;
    configure (negb (r_setfilter r =? -1)) (fun h => Pcap (snaplen h) (promisc h) (timeout h) (buffer_size h) (immediate h) (nonblock h) (active h) true) (
    mret true))))))))).

Definition dhcp_pcap_open_live (r : pcap_results) : M capture bool :=
  if negb (r_create r) then mret false
  else
    modify (fun c => Cap (Some (Pcap 0 0 0 0 0 0 false false)) (programs c));;
    pcap_setup r.

End PcapDhcp.
