(* ===== verification/PcapDhcpSpec.v ===== *)
(** * libpcap-dhcp-capture: frames, options and tokens *)

From S2P Require Import Prelude PcapDhcp.
Import PcapDhcp.

(** ** The packet handler *)

Definition be16 (p : list Z) (i : Z) : Z := 256 * v8 p i + v8 p (i + 1).

Section frame.
Context {S : Type} (p : list Z).

Lemma rd_run i (s : S) : 0 <= i < zlen p -> rd p i s = Some (v8 p i, s).
Proof. intros H. by apply of_option_run, znth_v8. Qed.

Lemma rd_be16_run i (s : S) : 0 <= i -> i + 2 <= zlen p -> rd_be16 p i s = Some (be16 p i, s).
Proof.
  intros H1 H2. unfold rd_be16. rewrite (bind_run _ _ _ _ _ (rd_run i s ltac:(lia))), (bind_run _ _ _ _ _ (rd_run (i + 1) s ltac:(lia))). done.
Qed.

Lemma cint_run z (s : S) : int_min <= z <= int_max -> cint z s = Some (z, s).
Proof. intros [H1%Z.leb_le H2%Z.leb_le]. unfold cint. by rewrite H1, H2. Qed.

Lemma cint_cases z (s : S) : cint z s = None \/ cint z s = Some (z, s).
Proof. unfold cint. destruct (_ && _); [by right|by left]. Qed.

(** [k] VLAN tags start at [t], and no more. *)
Definition tags (t : Z) (k : nat) : Prop :=
  (forall i, (i < k)%nat -> be16 p (t + 4 * Z.of_nat i) = ETHERTYPE_VLAN) /\ be16 p (t + 4 * Z.of_nat k) <> ETHERTYPE_VLAN.

Lemma vlan_loop_run k t len cnt fuel (s : S) :
  tags t k -> 0 <= t -> t + 4 * Z.of_nat k + 2 <= zlen p -> (k < fuel)%nat -> 0 <= len -> 0 <= cnt ->
  len + 4 * Z.of_nat k <= int_max -> cnt + Z.of_nat k <= int_max ->
  vlan_loop p fuel t len cnt s = Some (len + 4 * Z.of_nat k, s).
Proof.
  revert t len cnt fuel. induction k as [|k IH]; intros t len cnt fuel [T1 T2] Ht Hk Hf Hl Hc B1 B2;
    (destruct fuel as [|fuel]; [lia|]); cbn [vlan_loop];
    rewrite (bind_run _ _ _ _ _ (rd_be16_run t s ltac:(lia) ltac:(lia))).
  - rewrite (proj2 (Z.eqb_neq _ _)); [by rewrite Z.add_0_r|]. intros E. apply T2. by rewrite Z.add_0_r.
  - rewrite (proj2 (Z.eqb_eq _ _)) by (rewrite <- (T1 O ltac:(lia)); f_equal; lia).
    rewrite (bind_run _ _ _ _ _ (cint_run (cnt + 1) s ltac:(unfold int_min; lia))).
    rewrite (bind_run _ _ _ _ _ (cint_run (len + 4) s ltac:(unfold int_min; lia))).
    rewrite IH; [do 2 f_equal; lia| |lia..]. split.
    + intros i Hi. rewrite <- (T1 (Datatypes.S i)) by lia. f_equal. lia.
    + intros E. apply T2. rewrite <- E. f_equal. lia.
Qed.

(** The tags reach beyond the frame. *)
Lemma vlan_loop_outside k t len cnt fuel (s : S) : tags t k -> 0 <= t -> zlen p < t + 4 * Z.of_nat k + 2 -> vlan_loop p fuel t len cnt s = None.
Proof.
  intros [T1 T2] Ht Hk. revert t k T1 T2 Ht Hk len cnt. induction fuel as [|fuel IH]; intros t k T1 T2 Ht Hk len cnt; [done|].
  cbn [vlan_loop]. destruct (Z.leb_spec (t + 2) (zlen p)).
  - rewrite (bind_run _ _ _ _ _ (rd_be16_run t s ltac:(lia) ltac:(lia))). destruct k as [|k]; [lia|].
    rewrite (proj2 (Z.eqb_eq _ _)) by (rewrite <- (T1 O ltac:(lia)); f_equal; lia).
    destruct (cint_cases (cnt + 1) s) as [E|E]; [by apply bind_undefined|]. rewrite (bind_run _ _ _ _ _ E).
    destruct (cint_cases (len + 4) s) as [E'|E']; [by apply bind_undefined|]. rewrite (bind_run _ _ _ _ _ E'). apply (IH (t + 4) k); [| |lia|lia].
    + intros i Hi. rewrite <- (T1 (Datatypes.S i)) by lia. f_equal. lia.
    + intros X. apply T2. rewrite <- X. f_equal. lia.
  - unfold rd_be16, rd. destruct (znth p t) eqn:E; [|done].
    apply bind_undefined. rewrite (bind_run _ _ s z s) by done. apply bind_undefined. by rewrite znth_outside by lia.
Qed.
End frame.

(** Beyond the frame nothing reads as a tag, so the tags of a frame end. *)
Lemma tags_end p : exists k, tags p 12 k /\ 4 * Z.of_nat k <= zlen p.
Proof.
  assert (forall n, exists k, (k <= n)%nat /\ (forall i, (i < k)%nat -> be16 p (12 + 4 * Z.of_nat i) = ETHERTYPE_VLAN)
    /\ (k = n \/ be16 p (12 + 4 * Z.of_nat k) <> ETHERTYPE_VLAN)) as H.
  { induction n as [|n (k & Hk & H & [-> |H2])]; [exists O; split_and!; [done|intros; lia|by left]| |exists k; split_and!; [lia|done|by right]].
    destruct (decide (be16 p (12 + 4 * Z.of_nat n) = ETHERTYPE_VLAN)) as [E|E]; [|exists n; split_and!; [lia|done|by right]].
    exists (Datatypes.S n). split_and!; [done| |by left]. intros i Hi. destruct (decide (i = n)) as [-> |]; [done|]. apply H. lia. }
  destruct (H (Z.to_nat (zlen p / 4))) as (k & Hk & H1 & H2). pose proof (zlen_nonneg p). exists k. split; [|div_lia].
  split; [done|]. destruct H2 as [-> |H2]; [|done]. unfold be16, v8. rewrite !znth_outside by div_lia. done.
Qed.

(** What the handler reads is in the frame: the tags, the first byte of the IP
    header, and its protocol when the headers seem to be there. *)
Definition readable (p : list Z) (k : nat) : bool :=
  let ip := 14 + 4 * Z.of_nat k in
  (ip <? zlen p) && ((zlen p <? ip + 4 * (v8 p ip mod 16) + 8) || (ip + 10 <=? zlen p)).

(** C22: on every captured frame, with the VLAN tags it has, the handler reads
    only inside the frame, ends, and calls the callback exactly when the protocol
    is UDP and a whole BOOTP message follows the headers, at the position where
    they end, IP options included; or else does nothing.  The frames [readable]
    excludes, which end within the tags or the first ten bytes of the IP header,
    are read beyond their end: the code does not check. *)
Theorem dhcp_packet_handler_exact {S} p fuel callback (s : S) :
  Forall (fun b => 0 <= b < 256) p -> zlen p < 2 ^ 30 -> zlen p < 4 * Z.of_nat fuel ->
  exists k, tags p 12 k /\
    let ip := 14 + 4 * Z.of_nat k in
    let payload := ip + 4 * (v8 p ip mod 16) + 8 in
    dhcp_packet_handler p fuel callback (zlen p) s
      = if negb (readable p k) then None
        else if (v8 p (ip + 9) =? IPPROTO_UDP) && (payload + sizeof_bootp <=? zlen p) then callback payload s
        else Some (tt, s).
Proof.
  intros Hb Hz Hfz. destruct (tags_end p) as (k & T & Hk). exists k. split; [done|]. intros ip payload. unfold dhcp_packet_handler, readable.
  fold ip payload. assert (0 <= ip) by (unfold ip; lia).
  destruct (Z.ltb_spec (zlen p) (12 + 4 * Z.of_nat k + 2)).
  { rewrite (bind_undefined _ _ _ (vlan_loop_outside p k 12 14 0 fuel s T ltac:(lia) ltac:(lia))). rewrite (proj2 (Z.ltb_ge ip _)) by (unfold ip; lia). done. }
  rewrite (bind_run _ _ _ _ _ (vlan_loop_run p k 12 14 0 fuel s T ltac:(lia) ltac:(lia) ltac:(lia) ltac:(lia) ltac:(lia) ltac:(unfold int_max; lia) ltac:(unfold int_max; lia))).
  fold ip. destruct (Z.ltb_spec ip (zlen p)); cbn [andb].
  2: { apply bind_undefined. unfold rd. by rewrite znth_outside by lia. }
  rewrite (bind_run _ _ _ _ _ (rd_run p ip s ltac:(lia))). cbv zeta.
  change 15 with (Z.ones 4). rewrite Z.land_ones by lia. change (2 ^ 4) with 16.
  replace (ip + v8 p ip mod 16 * 4 + 8) with payload by (unfold payload; lia).
  pose proof (Z.mod_pos_bound (v8 p ip) 16 ltac:(lia)). assert (0 <= payload < 2 ^ 31) by (unfold payload; lia).
  rewrite (wrap_small 32 payload) by lia.
  destruct (Z.ltb_spec (zlen p) payload) as [Hlt|Hge]; cbn [orb negb].
  { rewrite (proj2 (Z.leb_gt (payload + sizeof_bootp) _)), andb_false_r; [done|]. unfold sizeof_bootp, bootp_fixed. lia. }
  destruct (Z.leb_spec (ip + 10) (zlen p)); cbn [negb].
  2: { apply bind_undefined. unfold rd. by rewrite (znth_outside p (ip + 9)) by lia. }
  rewrite (bind_run _ _ _ _ _ (rd_run p (ip + 9) s ltac:(lia))).
  destruct (v8 p (ip + 9) =? IPPROTO_UDP); cbn [negb andb]; [|done].
  rewrite wrap_small by lia.
  destruct (Z.ltb_spec (zlen p - payload) sizeof_bootp), (Z.leb_spec (payload + sizeof_bootp) (zlen p)); done || lia.
Qed.

(** ** The host name option *)

Definition enc_opt (o : Z * list Z) : list Z := fst o :: zlen (snd o) :: snd o.
Definition enc_opts (l : list (Z * list Z)) : list Z := concat (enc_opt <$> l).
Definition opt_ok (o : Z * list Z) : Prop := 0 <= fst o < 255 /\ zlen (snd o) < 256.

Section options.
Context {S : Type} (malloc : Z -> bool).

Lemma copy_run pre d post i (s : S) : i = zlen pre -> copy (pre ++ d ++ post) i (length d) s = Some (d, s).
Proof.
  revert pre i. induction d as [|b d IH]; intros pre i ->; cbn [length copy]; [done|].
  rewrite (bind_run _ _ s b s) by (apply of_option_run; apply znth_middle).
  replace (pre ++ (b :: d) ++ post) with ((pre ++ [b]) ++ d ++ post) by (by rewrite <- app_assoc).
  by rewrite (bind_run _ _ _ _ _ (IH (pre ++ [b]) (zlen pre + 1) ltac:(by rewrite zlen_snoc))).
Qed.

(** The options end with the area or with an end option. *)
Definition tail_ok (tail : list Z) : Prop := tail = [] \/ exists rest, tail = 255 :: rest.

(** The first host name, as a C string, or null; [None] for the two cases the
    code does not check: no memory for the name, and an end option that is the
    last byte, whose length would be read after it. *)
Definition host_name (l : list (Z * list Z)) (tail : list Z) : option (option (list Z)) :=
  match List.find (fun o => fst o =? 12) l with
  | Some o => if malloc (zlen (snd o) + 1) then Some (Some (snd o ++ [0])) else None
  | None => if bool_decide (tail = [255]) then None else Some None
  end.

(** The two bytes before the data of an option, after [q]. *)
Lemma option_bytes q c n r i (s : S) :
  zlen q = 4 + i -> 0 <= i < 2 ^ 63 ->
  rd (q ++ c :: n :: r) (4 + i) s = Some (c, s) /\ rd (q ++ c :: n :: r) (4 + u64 (i + 1)) s = Some (n, s) /\ u64 (i + 2) = i + 2.
Proof.
  intros Hq Hi. rewrite !wrap_small by lia. rewrite <- Hq. split_and!; [apply of_option_run, znth_middle| |done].
  replace (4 + (i + 1)) with (zlen (q ++ [c])) by (rewrite zlen_snoc; lia). rewrite cons_middle, app_assoc.
  apply of_option_run, znth_middle.
Qed.

(** An end option that is the last byte is read beyond it. *)
Lemma option_cut {A} q i (k : Z -> Z -> M S A) (s : S) :
  zlen q = 4 + i -> 0 <= i < 2 ^ 63 -> (opt ← rd (q ++ [255]) (4 + i); n ← rd (q ++ [255]) (4 + u64 (i + 1)); k opt n) s = None.
Proof.
  intros Hq Hi. rewrite (bind_run _ _ s 255 s) by (apply of_option_run; rewrite <- Hq; apply (znth_middle q 255 [])).
  apply bind_undefined. unfold rd. rewrite wrap_small by lia. by rewrite znth_outside by (rewrite zlen_snoc; lia).
Qed.

Lemma option_loop_run l pre tail fuel (s : S) :
  let vend := vm_rfc1048 ++ pre ++ enc_opts l ++ tail in
  Forall opt_ok l -> tail_ok tail -> zlen vend < 2 ^ 63 -> (length l < fuel)%nat ->
  option_loop vend malloc fuel 4 (zlen vend - 4) (zlen pre) s = (fun r => (r, s)) <$> host_name l tail.
Proof.
  revert pre fuel. induction l as [|[c d] l IH]; intros pre fuel vend Ho Ht Hz Hf; (destruct fuel as [|fuel]; [cbn in Hf; lia|]);
    cbn [option_loop]; unfold vend, host_name in *; rewrite !zlen_app in *; change (zlen vm_rfc1048) with 4 in *;
    pose proof (zlen_nonneg pre); pose proof (zlen_nonneg tail); rewrite (Z.add_comm 4), Z.add_simpl_r;
    (assert (zlen (vm_rfc1048 ++ pre) = 4 + zlen pre) as Hq by (by rewrite zlen_app)).
  - change (enc_opts []) with (@nil Z) in *. change (zlen (@nil Z)) with 0 in *. cbn [app]. destruct Ht as [->|([|x rest] & ->)].
    { change (zlen (@nil Z)) with 0. rewrite !Z.add_0_r, Z.ltb_irrefl. done. }
    { change (zlen [255]) with 1. rewrite (proj2 (Z.ltb_lt _ _)) by lia. cbn [List.find]. rewrite bool_decide_eq_true_2 by done. rewrite app_assoc. apply option_cut; [done|lia]. }
    assert (2 <= zlen (255 :: x :: rest)) by (unfold zlen; cbn [length]; lia).
    rewrite (proj2 (Z.ltb_lt _ _)) by lia. rewrite app_assoc.
    destruct (option_bytes (vm_rfc1048 ++ pre) 255 x rest (zlen pre) s Hq ltac:(lia)) as (E1 & E2 & _).
    rewrite (bind_run _ _ _ _ _ E1), (bind_run _ _ _ _ _ E2). cbn [List.find]. by rewrite bool_decide_eq_false_2.
  - apply Forall_cons in Ho as [[Hc Hd] Ho]. cbn [fst snd] in *. change (enc_opts ((c, d) :: l)) with (enc_opt (c, d) ++ enc_opts l) in *.
    rewrite zlen_app in Hz |- *. unfold enc_opt in *. cbn [fst snd] in *. pose proof (zlen_nonneg (enc_opts l)). pose proof (zlen_nonneg d).
    assert (zlen (c :: zlen d :: d) = 2 + zlen d) as Hc2 by (unfold zlen; cbn [length]; lia).
    rewrite (proj2 (Z.ltb_lt _ _)) by lia.
    destruct (option_bytes (vm_rfc1048 ++ pre) c (zlen d) (d ++ enc_opts l ++ tail) (zlen pre) s Hq ltac:(lia)) as (E1 & E2 & E3).
    set (vend2 := vm_rfc1048 ++ pre ++ ((c :: zlen d :: d) ++ enc_opts l) ++ tail).
    assert (vend2 = (vm_rfc1048 ++ pre) ++ c :: zlen d :: d ++ enc_opts l ++ tail) as Ev by (unfold vend2; rewrite <- !app_assoc; done).
    rewrite <- Ev in E1, E2. rewrite (bind_run _ _ _ _ _ E1), (bind_run _ _ _ _ _ E2), E3. cbv zeta.
    rewrite (proj2 (Z.eqb_neq c 255)) by lia. cbn [List.find fst].
    destruct (Z.eqb_spec c 12) as [->|Hn].
    + cbn [snd]. destruct (malloc (zlen d + 1)); [|done].
      assert (vend2 = ((vm_rfc1048 ++ pre) ++ [12; zlen d]) ++ d ++ enc_opts l ++ tail) as -> by (rewrite Ev, <- !app_assoc; done).
      replace (Z.to_nat (zlen d)) with (length d) by (unfold zlen; lia).
      rewrite (bind_run _ _ _ _ _ (copy_run ((vm_rfc1048 ++ pre) ++ [12; zlen d]) d (enc_opts l ++ tail) (4 + (zlen pre + 2)) s ltac:(rewrite zlen_app, Hq; change (zlen [12; zlen d]) with 2; lia))). done.
    + rewrite wrap_small by lia. specialize (IH (pre ++ c :: zlen d :: d) fuel). cbv zeta in IH.
      replace (vm_rfc1048 ++ (pre ++ c :: zlen d :: d) ++ enc_opts l ++ tail) with vend2 in IH by (unfold vend2; rewrite <- !app_assoc; done).
      assert (zlen vend2 = 4 + (zlen pre + (zlen (c :: zlen d :: d) + zlen (enc_opts l) + zlen tail))) as Hv2
        by (unfold vend2; rewrite !zlen_app; change (zlen vm_rfc1048) with 4; lia).
      rewrite Hv2, !zlen_app, Hc2, (Z.add_comm 4), Z.add_simpl_r in IH.
      rewrite Hc2. replace (zlen pre + 2 + zlen d) with (zlen pre + (2 + zlen d)) by lia.
      apply IH; [done|done|lia|cbn in Hf; lia].
Qed.
End options.

(** C23: [parse_vendor_specific_option_12] on any vendor area that encodes
    options, each with its length, after the magic cookie, up to the end of the
    area or an end option, and whatever the allocator answers: it returns the data
    of the first option 12 as a terminated string, or null when there is none,
    having read only the area.  The exceptions are told by [host_name]: without
    memory for the name a null pointer is written to, and when there is no
    option 12 and the end option is the last byte the byte after the area is
    read. *)
Theorem parse_vendor_option_12_encode {S} malloc l tail fuel (s : S) :
  let vend := vm_rfc1048 ++ enc_opts l ++ tail in
  Forall opt_ok l -> tail_ok tail -> zlen vend < 2 ^ 63 -> (length l < fuel)%nat ->
  parse_vendor_specific_option_12 vend malloc fuel (zlen vend) s = (fun r => (r, s)) <$> host_name malloc l tail.
Proof.
  intros vend Ho Ht Hz Hf. unfold parse_vendor_specific_option_12.
  rewrite (bind_run _ _ _ _ _ (copy_run [] vm_rfc1048 (enc_opts l ++ tail) 0 s eq_refl)). rewrite bool_decide_eq_true_2 by done. cbn [negb].
  assert (4 <= zlen vend) by (unfold vend; rewrite !zlen_app; pose proof (zlen_nonneg (enc_opts l)); pose proof (zlen_nonneg tail); change (zlen vm_rfc1048) with 4; lia).
  rewrite wrap_small by lia. by apply (option_loop_run malloc l []).
Qed.

(** ** Tokens *)

(** A table ends with an entry without a string. *)
Definition terminated (lp : list tok) : Prop := exists t, last lp = Some t /\ tok_s t = None.
Definition table_ok (lp : option (list tok)) : Prop := match lp with Some l => terminated l | None => True end.

(** The string of a value: that of the first entry with the value, before the
    terminating entry. *)
Fixpoint entry_of (lp : list tok) (v : Z) : option (list Z) :=
  match lp with
  | [] => None
  | t :: lp => match tok_s t with None => None | Some s => if tok_v t =? v then Some s else entry_of lp v end
  end.

Definition read_str (lp : option (list tok)) (st : tok_state) (r : str) : option (list Z) :=
  match r with
  | TokStr i => l ← lp; t ← znth l i; tok_s t
  | BufStr b => znth (bufs st) b
  end.

Section tokens.
Context (render : list Z -> Z -> list Z).
Implicit Types (st : tok_state).

Definition text (lp : option (list tok)) (fmt : option (list Z)) (v : Z) : list Z :=
  match (l ← lp; entry_of l v) with
  | Some s => s
  | None => take 127 (render (default default_fmt fmt) v)
  end.

Definition bufs_ok st : Prop := zlen (bufs st) = 4 /\ 0 <= idx st < 4.

Lemma tok_loop_run lp d v st : terminated lp ->
  exists r, tok_loop lp (zlen d) v st = Some (r, st) /\
    match r with
    | Some i => exists t s, znth (d ++ lp) i = Some t /\ tok_s t = Some s /\ entry_of lp v = Some s
    | None => entry_of lp v = None
    end.
Proof.
  revert d. induction lp as [|t lp IH]; intros d (e & H1 & H2); [done|]. cbn [tok_loop entry_of].
  destruct (tok_s t) as [s|] eqn:Es; [|by exists None]. destruct (tok_v t =? v).
  - exists (Some (zlen d)). split; [done|]. exists t, s. split; [apply znth_middle|done].
  - rewrite <- zlen_snoc with (x := t). replace (d ++ t :: lp) with ((d ++ [t]) ++ lp) by (by rewrite <- app_assoc).
    apply IH. exists e. destruct lp; [cbn in H1; congruence|done].
Qed.

(** One call writes at most the current buffer. *)
Lemma tok2str_wp lp fmt v st (Q : str -> tok_state -> Prop) :
  bufs_ok st -> table_ok lp ->
  (forall r st', bufs_ok st' -> idx st' = (idx st + 1) mod 4 -> read_str lp st' r = Some (text lp fmt v) ->
     (forall b, r = BufStr b -> b = idx st) ->
     (forall b, b <> idx st -> znth (bufs st') b = znth (bufs st) b) -> Q r st') ->
  wp (tok2str render lp fmt v) Q st.
Proof.
  intros [B1 B2] T HQ. apply wp_bind, wp_gets, wp_bind, wp_modify. change 3 with (Z.ones 2). rewrite Z.land_ones by lia. change (2 ^ 2) with 4.
  pose proof (Z.mod_pos_bound (idx st + 1) 4 ltac:(lia)).
  set (st1 := TS (bufs st) ((idx st + 1) mod 4)). unfold tok2strbuf.
  assert (exists found, (match lp with Some l => tok_loop l 0 v | None => mret None end) st1 = Some (found, st1) /\
    match found with
    | Some i => exists t s, (l ← lp; znth l i) = Some t /\ tok_s t = Some s /\ (l ← lp; entry_of l v) = Some s
    | None => (l ← lp; entry_of l v) = None
    end) as (found & E & HF).
  { destruct lp as [l|]; [|by exists None]. destruct (tok_loop_run l [] v st1 T) as (r & E & Hr). by exists r. }
  apply wp_bind. eapply wp_intro; [exact E|]. destruct found as [i|].
  - destruct HF as (t & s & H1 & H2 & H3). apply wp_ret, HQ; [done|done| |done|done]. unfold text. rewrite H3.
    unfold read_str. destruct lp as [l|]; [|done]. cbn in *. rewrite H1. done.
  - apply wp_bind, wp_gets. cbn [st1 bufs]. destruct (znth_is_Some (bufs st) (idx st)) as [x Hx]; [lia|]. rewrite Hx.
    apply wp_bind, wp_ret, wp_bind, wp_modify, wp_ret, HQ; cbn.
    + split; cbn; [by rewrite zlen_zset|done].
    + done.
    + rewrite znth_zset_eq by lia. unfold text. by rewrite HF.
    + by intros b [= ->].
    + intros b Hb. by rewrite znth_zset_ne by done.
Qed.

(** A call: table, format, value. *)
Definition tcall : Type := option (list tok) * option (list Z) * Z.
Fixpoint tok2str_all (cs : list tcall) : M tok_state unit :=
  match cs with [] => mret tt | (lp, fmt, v) :: cs => tok2str render lp fmt v;; tok2str_all cs end.

Lemma tok2str_all_wp cs st b (Q : unit -> tok_state -> Prop) :
  bufs_ok st -> Forall (fun c => table_ok (fst (fst c))) cs ->
  (forall i, 0 <= i < zlen cs -> b <> (idx st + i) mod 4) ->
  (forall st', znth (bufs st') b = znth (bufs st) b -> Q tt st') -> wp (tok2str_all cs) Q st.
Proof.
  revert st. induction cs as [|[[lp fmt] v] cs IH]; intros st B T Hb HQ; cbn [tok2str_all]; [by apply wp_ret, HQ|].
  apply Forall_cons in T as [T1 T]. apply wp_bind. eapply tok2str_wp; [done|done|].
  intros r st' B' E' _ _ K. assert (zlen ((lp, fmt, v) :: cs) = 1 + zlen cs) as Hl by (unfold zlen; cbn [length]; lia).
  pose proof (zlen_nonneg cs). apply IH; [done|done| |].
  - intros i Hi. rewrite E', Zplus_mod_idemp_l, <- Z.add_assoc. apply Hb. lia.
  - intros st2 K2. apply HQ. rewrite K2. apply K. specialize (Hb 0 ltac:(lia)). destruct B. rewrite Z.add_0_r, Z.mod_small in Hb; lia.
Qed.
End tokens.

(** [tok2str] returns the string of the value in the table, or the value
    formatted and cut at 127 characters, and what it returned is still there
    after up to three more calls on any tables: four results can be used at
    once. *)
Theorem tok2str_four_results render lp fmt v st :
  bufs_ok st -> table_ok lp ->
  exists r st1, tok2str render lp fmt v st = Some (r, st1) /\ bufs_ok st1 /\ read_str lp st1 r = Some (text render lp fmt v) /\
    forall cs, (length cs <= 3)%nat -> Forall (fun c => table_ok (fst (fst c))) cs ->
      exists st2, tok2str_all render cs st1 = Some (tt, st2) /\ read_str lp st2 r = Some (text render lp fmt v).
Proof.
  intros B T. edestruct (wp_run (tok2str render lp fmt v) (fun r st1 => bufs_ok st1 /\ idx st1 = (idx st + 1) mod 4 /\
    read_str lp st1 r = Some (text render lp fmt v) /\ (forall b, r = BufStr b -> b = idx st)) st) as (r & st1 & E & B1 & I1 & R1 & Hr).
  { eapply tok2str_wp; [done|done|]. eauto. }
  exists r, st1. split_and!; [done|done|done|]. intros cs Hl Tc.
  edestruct (wp_run (tok2str_all render cs) (fun _ st2 => znth (bufs st2) (idx st) = znth (bufs st1) (idx st)) st1) as ([] & st2 & E2 & K).
  { eapply tok2str_all_wp; [done|done| |done]. intros i Hi. rewrite I1, Zplus_mod_idemp_l. destruct B as [_ B2]. unfold zlen in Hi. div_lia. }
  exists st2. split; [done|]. destruct r as [i|b]; [done|]. rewrite (Hr b eq_refl) in *. cbn in *. by rewrite K.
Qed.

(** ** Opening the capture *)

Definition setup_succeeds (r : pcap_results) : bool :=
  (r_snaplen r =? 0) && ((r_promisc r =? 0) && ((r_timeout r =? 0) && ((r_buffer r =? 0) && ((r_immediate r =? 0)
  && (negb (r_nonblock r =? -1) && ((r_activate r =? 0) && (negb (r_compile r =? -1) && (negb (r_setfilter r =? -1) && true)))))))).
Definition all_succeed (r : pcap_results) : bool := r_create r && setup_succeeds r.

(** From the handle [h], [m] ends with [b], and with [h'] or with none. *)
Definition opens (m : M capture bool) (h : pcap_t) (b : bool) (h' : pcap_t) : Prop :=
  forall n, exists c, m (Cap (Some h) n) = Some (b, c) /\ handle c = if b then Some h' else None.

Lemma configure_opens ok f next h b h' : opens next (f h) b h' -> opens (configure ok f next) h (ok && b) h'.
Proof. intros H n. unfold configure. destruct ok; [apply H|]. by eexists. Qed.

Lemma pcap_setup_opens r : opens (pcap_setup r) (Pcap 0 0 0 0 0 0 false false) (setup_succeeds r) (Pcap 2048 1 1000 32768 1 1 true true).
Proof.
  unfold pcap_setup, setup_succeeds. do 8 (apply configure_opens; cbn [snaplen promisc timeout buffer_size immediate nonblock active filtered]). intros n.
  apply (configure_opens (negb (r_setfilter r =? -1)) _ (mret true) _ true). intros m. cbn [snaplen promisc timeout buffer_size immediate nonblock active filtered]. by eexists.
Qed.

(** C25: [dhcp_pcap_open_live] returns a handle exactly when every libpcap call
    succeeds; the handle then has all its settings and the filter, and when any
    call fails the handle created before is closed, so that none leaks. *)
Theorem dhcp_pcap_open_live_closes r n :
  exists b c, dhcp_pcap_open_live r (Cap None n) = Some (b, c) /\ b = all_succeed r /\
    handle c = (if b then Some (Pcap 2048 1 1000 32768 1 1 true true) else None).
Proof.
  unfold all_succeed, dhcp_pcap_open_live. destruct (r_create r); [|by exists false, (Cap None n)].
  destruct (pcap_setup_opens r n) as (c & E & Hc). by exists (setup_succeeds r), c.
Qed.

(** ** Examples *)

(** A tagged frame with a UDP packet that holds a BOOTP message. *)
Definition tagged_frame : list Z :=
  replicate 12 0 ++ [129; 0; 0; 1] ++ [8; 0] ++ [69] ++ replicate 8 0 ++ [17] ++ replicate 10 0 ++ replicate 8 0 ++ replicate 300 0.

Lemma dhcp_packet_handler_exact_witness :
  let run := dhcp_packet_handler tagged_frame 99 (fun at_ => modify (fun _ => Some at_)) (zlen tagged_frame) None in
  run = Some (tt, Some 46) /\
  exists k, tags tagged_frame 12 k /\
    run = if negb (readable tagged_frame k) then None
          else if (v8 tagged_frame (14 + 4 * Z.of_nat k + 9) =? IPPROTO_UDP)
            && (14 + 4 * Z.of_nat k + 4 * (v8 tagged_frame (14 + 4 * Z.of_nat k) mod 16) + 8 + sizeof_bootp <=? zlen tagged_frame)
          then modify (fun _ => Some (14 + 4 * Z.of_nat k + 4 * (v8 tagged_frame (14 + 4 * Z.of_nat k) mod 16) + 8)) None
          else Some (tt, None).
Proof.
  split; [vm_compute; reflexivity|]. apply (dhcp_packet_handler_exact tagged_frame 99 (fun at_ => modify (fun _ => Some at_)) None).
  - apply Forall_forall. intros x Hx. assert (forallb (fun b => (0 <=? b) && (b <? 256)) tagged_frame = true) as H by (vm_compute; reflexivity).
    apply List.forallb_forall with (x := x) in H; [lia|]. by apply list_elem_of_In.
  - vm_compute. reflexivity.
  - vm_compute. reflexivity.
Defined.

Lemma parse_vendor_option_12_encode_witness :
  let l := [(53, [1]); (12, [104; 111; 115; 116]); (61, [])] in
  let vend := vm_rfc1048 ++ enc_opts l ++ [255; 0; 0] in
  parse_vendor_specific_option_12 vend (fun _ => true) 9 (zlen vend) tt = Some (Some [104; 111; 115; 116; 0], tt).
Proof.
  apply (parse_vendor_option_12_encode (fun _ => true) [(53, [1]); (12, [104; 111; 115; 116]); (61, [])] [255; 0; 0] 9 tt).
  - repeat constructor; cbn; done.
  - right. by eexists.
  - vm_compute. reflexivity.
  - cbn. lia.
Defined.

(** "%u" of a number below ten. *)
Definition render_digit (fmt : list Z) (v : Z) : list Z := [48 + v].
Definition ops : list tok := [Tok 1 (Some [82; 113]); Tok 2 (Some [82; 112]); Tok 0 None].

Lemma tok2str_four_results_witness :
  let st := TS (replicate 4 []) 3 in
  exists r st1, tok2str render_digit (Some ops) None 7 st = Some (r, st1) /\ bufs_ok st1 /\ read_str (Some ops) st1 r = Some [55] /\
    forall cs, (length cs <= 3)%nat -> Forall (fun c => table_ok (fst (fst c))) cs ->
      exists st2, tok2str_all render_digit cs st1 = Some (tt, st2) /\ read_str (Some ops) st2 r = Some [55].
Proof.
  apply (tok2str_four_results render_digit (Some ops) None 7 (TS (replicate 4 []) 3)).
  - split; cbn; [done|lia].
  - by eexists.
Defined.

(** What is not checked: a frame of VLAN tags only is read beyond its end, and
    so is a vendor area whose length is below four, whose option is longer than
    what is left, or whose end option is its last byte; a padding byte is taken
    for an option with a length, so that the host name after it is missed. *)
Theorem dhcp_unchecked_lengths :
  let find := fun v n => parse_vendor_specific_option_12 v (fun _ => true) 99 n tt in
  dhcp_packet_handler (replicate 12 0 ++ concat (replicate 80 [129; 0; 0; 0])) 99 (fun _ => mret tt) 332 tt = None /\
  find (vm_rfc1048 ++ [1; 1; 0]) 2 = None /\ find (vm_rfc1048 ++ [12; 200; 65]) 7 = None /\ find (vm_rfc1048 ++ [255]) 5 = None /\
  find (vm_rfc1048 ++ [0; 12; 1; 65; 255; 0; 0; 0; 0; 0; 0; 0; 0; 0]) 18 = Some (None, tt).
Proof. by vm_compute. Qed.
