(* ===== verification/DbgTracer.v ===== *)
(** * dbg_tracer: trace points and crash dumps

    Models [src/dbg_tracer/dbg_tracer.c] on 64-bit glibc: the number printers
    with their digit buffers, the registry of threads with its rings of trace
    points, the search of the memory map, and the dump of a crash.  What the
    process writes is a log of descriptors and bytes; the files of [/proc], the
    clock and the crash context are arguments.  Strings are lists of non-zero
    bytes, written with Rocq's string literals where they are constants. *)

From Stdlib Require Import String Ascii.
From S2P Require Import Prelude.
#[local] Open Scope list_scope.
#[local] Open Scope Z_scope.

Module DbgTracer.

(** The bytes of a literal. *)
Fixpoint bytes (s : string) : list Z :=
  match s with EmptyString => [] | String c s => Z.of_nat (nat_of_ascii c) :: bytes s end.

Definition TRACE_N : Z := 256.
Definition MAX_THR : Z := 128.
Definition SIGSEGV : Z := 11.
Definition site_size : Z := 96.
Definition name_size : Z := 16.
Definition newline : list Z := [10].

Record trace_ent_t := Ent { site : list Z; t : Z }.
Record trace_slot_t := Slot { used : bool; idx : Z; tid : Z; name : list Z; ring : list trace_ent_t }.
Record trace_reg_t := Reg { inited : bool; next : Z; slots : list trace_slot_t }.

(** The registry, the slot of each thread, the names the kernel has for the
    threads, the writes, the installed handlers and the status of the process
    when it has ended. *)
Record tracer := Tr {
  gtr : option trace_reg_t; trace_slot : gmap Z Z; comm : gmap Z (list Z);
  out : list (Z * list Z); handled : bool; exited : option Z
}.

(** A computation that may end the process: [None] when it has ended. *)
Abbreviation X A := (M tracer (option A)).
Definition xret {A} (a : A) : X A := fun s => Some (Some a, s).
Definition xbind {A B} (c : X A) (k : A -> X B) : X B :=
  fun s => match c s with None => None | Some (None, s) => Some (None, s) | Some (Some a, s) => k a s end.
Definition lift {A} (c : M tracer A) : X A := fun s => match c s with None => None | Some (a, s) => Some (Some a, s) end.
Notation "x ⇐ c ; k" := (xbind c (fun x => k)) (at level 20, c at level 100, k at level 200, right associativity).
Notation "c ;;; k" := (xbind c (fun _ => k)) (at level 100, k at level 200, right associativity).

(** ** Output *)

Definition xwrite (fd : Z) (b : list Z) : M tracer unit :=
  modify (fun s => Tr (gtr s) (trace_slot s) (comm s) (out s ++ [(fd, b)]) (handled s) (exited s)).
Definition wrs (fd : Z) (s : list Z) : M tracer unit := xwrite fd s.

Definition set8 {S} (b : list Z) (i x : Z) : M S (list Z) := _ ← of_option (znth b i); mret (zset b i x).

Definition hexdigits : list Z := bytes "0123456789abcdef".

Fixpoint hex_loop {S} (fuel : nat) (b : list Z) (i v : Z) : M S (list Z * Z) :=
  match fuel with
  | O => ub
  | Datatypes.S fuel =>
      if negb (v =? 0) && (0 <=? i) then
        h ← of_option (znth hexdigits (Z.land v 15));
        b ← set8 b i h;
        hex_loop fuel b (i - 1) (Z.shiftr v 4)
      else mret (b, i)
  end.

Fixpoint dec_loop {S} (fuel : nat) (b : list Z) (i v : Z) : M S (list Z * Z) :=
  match fuel with
  | O => ub
  | Datatypes.S fuel =>
      if negb (v =? 0) && (0 <=? i) then
        b ← set8 b i (48 + v mod 10);
        dec_loop fuel b (i - 1) (v / 10)
      else mret (b, i)
  end.

Definition digit_buffer : list Z := replicate 32 0.
(** [b + i + 1] to the end. *)
Definition filled (b : list Z) (i : Z) : list Z := take (Z.to_nat (31 - i)) (drop (Z.to_nat (i + 1)) b).

Definition hex_bytes {S} (v : Z) : M S (list Z) :=
  r ← (if v =? 0 then b ← set8 digit_buffer 31 48; mret (b, 30) else hex_loop 33 digit_buffer 31 v);
  let '(b, i) := r in
  b ← set8 b i 120;
  b ← set8 b (i - 1) 48;
  mret (filled b (i - 2)).

Definition dec_bytes {S} (v : Z) : M S (list Z) :=
  r ← (if v =? 0 then b ← set8 digit_buffer 31 48; mret (b, 30) else dec_loop 33 digit_buffer 31 v);
  let '(b, i) := r in
  mret (filled b i).

Definition wrhex_u64 (fd v : Z) : M tracer unit := b ← hex_bytes v; xwrite fd b.
Definition wrdec_u64 (fd v : Z) : M tracer unit := b ← dec_bytes v; xwrite fd b.

(** ** Formatting: [%d] of an [int] and the formats of the file *)

Fixpoint dec_digits (fuel : nat) (v : Z) (acc : list Z) : list Z :=
  match fuel with
  | O => acc
  | Datatypes.S fuel => if v <? 10 then (48 + v) :: acc else dec_digits fuel (v / 10) ((48 + v mod 10) :: acc)
  end.
Definition percent_d (z : Z) : list Z := if z <? 0 then 45 :: dec_digits 20 (- z) [] else dec_digits 20 z [].

Definition site_of (file : list Z) (line : Z) (func : list Z) : list Z := file ++ [58] ++ percent_d line ++ [58] ++ func.

(** [snprintf]: the string the buffer holds. *)
Definition snprintf (cap : Z) (s : list Z) : list Z := take (Z.to_nat (cap - 1)) s.
Definition strncpy15 (s : list Z) : list Z := take 15 s.

Definition exit_with {A} (code : Z) : X A :=
  modify (fun s => Tr (gtr s) (trace_slot s) (comm s) (out s) (handled s) (Some code));; mret None.

(** ** The memory map *)

(** What [read] returns. *)
Inductive read_result := Data (l : list Z) | Eof | ReadError (eintr : bool).

Fixpoint dump_loop (fd : Z) (reads : list read_result) : M tracer unit :=
  match reads with
  | [] => mret tt
  | Data l :: reads => if 0 <? zlen l then xwrite fd l;; dump_loop fd reads else mret tt
  | Eof :: _ => mret tt
  | ReadError true :: reads => dump_loop fd reads
  | ReadError false :: _ => mret tt
  end.

Definition maps_buffer : Z := 65536.

(** The bytes read into the buffer, [got] so far. *)
Fixpoint fill_loop (reads : list read_result) (got : list Z) : list Z :=
  match reads with
  | Data l :: reads =>
      let n := take (Z.to_nat (maps_buffer - zlen got)) l in
      if zlen n <=? 0 then got
      else let got := got ++ n in if zlen got =? maps_buffer then got else fill_loop reads got
  | _ => got
  end.

Definition ET_DYN : Z := 3.
(** [/proc/self/exe]: the first [read], or [None] when it does not open. *)
Definition is_pie_binary (exe : option (list Z)) : bool :=
  match exe with
  | None => true
  | Some hdr =>
      if negb (zlen hdr =? 64) then true
      else v8 hdr 16 + 256 * v8 hdr 17 =? ET_DYN
  end.

Definition is_hex (c : Z) : bool := ((48 <=? c) && (c <=? 57)) || ((97 <=? c) && (c <=? 102)).
Definition hex_value (c : Z) : Z := if c <=? 57 then c - 48 else 10 + c - 97.

(** The loops over a line: what is left of it and the number read. *)
Fixpoint scan_hex (l : list Z) (acc : Z) : list Z * Z :=
  match l with
  | c :: l' => if is_hex c then scan_hex l' (u64 (Z.lor (Z.shiftl acc 4) (hex_value c))) else (l, acc)
  | [] => ([], acc)
  end.
Fixpoint skip (c : Z) (l : list Z) : list Z :=
  match l with x :: l' => if x =? c then skip c l' else l | [] => [] end.
Fixpoint skip_until (c : Z) (l : list Z) : list Z :=
  match l with x :: l' => if x =? c then l else skip_until c l' | [] => [] end.
Fixpoint before (c : Z) (l : list Z) : list Z :=
  match l with x :: l' => if x =? c then [] else x :: before c l' | [] => [] end.

(** The last word of a line. *)
Definition last_word (l : list Z) : list Z := rev (before 32 (skip 32 (rev l))).

Record mapping := Map { m_start : Z; m_end : Z; m_rxp : bool; m_pgoff : Z; m_path : list Z }.

(** A line of the map; [None] where the code goes on to the next line. *)
Definition parse_line (line : list Z) : option mapping :=
  let '(l, start) := scan_hex line 0 in
  match l with
  | 45 :: l =>
      let '(l, end_) := scan_hex l 0 in
      let l := skip 32 l in
      if zlen l <=? 3 then None
      else
        let r_xp := (v8 l 0 =? 114) && (v8 l 2 =? 120) && (v8 l 3 =? 112) in
        let l := skip 32 (skip_until 32 l) in
        if zlen l <=? 0 then None
        else Some (Map start end_ r_xp (snd (scan_hex (skip 48 l) 0)) (last_word line))
  | _ => None
  end.

Definition hit (pc : Z) (m : mapping) : bool :=
  m_rxp m && (m_start m <=? pc) && (pc <? m_end m) && negb (bool_decide (m_path m = [])).

Definition print_hint (fd pc : Z) (pie : bool) (m : mapping) : M tracer unit :=
  let file_off := if pie then u64 (pc - m_start m + m_pgoff m) else pc in
  wrs fd (bytes "addr2line_mod=");; xwrite fd (m_path m);; wrs fd newline;;
  wrs fd (bytes "addr2line_base=");; wrhex_u64 fd (m_start m);; wrs fd newline;;
  wrs fd (bytes "addr2line_pc=");; wrhex_u64 fd pc;; wrs fd newline;;
  wrs fd (bytes "addr2line_off=");; wrhex_u64 fd file_off;; wrs fd newline;;
  wrs fd (bytes "addr2line_cmd=addr2line -Cfie ");; xwrite fd (m_path m);; wrs fd (bytes " ");;
  wrhex_u64 fd file_off;; wrs fd newline.

(** The loop over the lines of what is left of the buffer. *)
Fixpoint hint_loop (fuel : nat) (fd pc : Z) (pie : bool) (buf : list Z) : M tracer unit :=
  match fuel with
  | O => ub
  | Datatypes.S fuel =>
      match buf with
      | [] => mret tt
      | _ =>
          let line := before 10 buf in
          match (if 0 <? zlen line then parse_line line else None) with
          | Some m => if hit pc m then print_hint fd pc pie m else hint_loop fuel fd pc pie (tail (skip_until 10 buf))
          | None => hint_loop fuel fd pc pie (tail (skip_until 10 buf))
          end
      end
  end.

Definition segv_print_addr2line_hint (fd pc : Z) (pie : bool) (maps : option (list read_result)) : M tracer unit :=
  match maps with
  | None => mret tt
  | Some reads => let buf := fill_loop reads [] in hint_loop (Datatypes.S (length buf)) fd pc pie buf
  end.

Definition dump_maps (fd : Z) (maps : option (list read_result)) : M tracer unit :=
  match maps with None => mret tt | Some reads => dump_loop fd reads end.

(** ** Dumping the trace points *)

(** The entries from [j], [n] of them. *)
Fixpoint ring_loop (n : nat) (fd : Z) (s : trace_slot_t) (j : Z) : M tracer unit :=
  match n with
  | O => mret tt
  | Datatypes.S n =>
      e ← of_option (znth (ring s) (j mod TRACE_N));
      (if bool_decide (site e = []) then mret tt
       else
         wrs fd (bytes "  ");; wrdec_u64 fd (t e);; wrs fd (bytes " ");; wrs fd (site e);; wrs fd newline);;
      ring_loop n fd s (j + 1)
  end.

Definition dump_slot (fd : Z) (s : trace_slot_t) : M tracer unit :=
  if used s then
    wrs fd (bytes "thr tid=");; wrdec_u64 fd (u64 (tid s));; wrs fd (bytes " name=");; wrs fd (name s);; wrs fd newline;;
    let n := idx s in
    let start := if TRACE_N <? n then n - TRACE_N else 0 in
    ring_loop (Z.to_nat (n - start)) fd s start
  else mret tt.

(** The slots of the registry in turn. *)
Fixpoint slots_loop (fd : Z) (l : list trace_slot_t) : M tracer unit :=
  match l with [] => mret tt | s :: l => dump_slot fd s;; slots_loop fd l end.

Definition trace_dump_all (fd : Z) : M tracer unit :=
  r ← gets gtr;
  match r with None => mret tt | Some r => slots_loop fd (take (Z.to_nat MAX_THR) (slots r)) end.

(** ** The crash dump, by the thread [self] *)

Section dump.
Context (self : Z) (exe : option (list Z)) (maps1 maps2 : option (list read_result)).

Definition tracer_do_dump (fd pc sp : Z) (addr : option Z) : M tracer unit :=
  names ← gets comm;
  wrs fd (bytes "trace tid=");; wrdec_u64 fd (u64 self);; wrs fd (bytes " name=");; wrs fd (default [] (names !! self));;
  match addr with Some a => wrs fd (bytes " addr=");; wrhex_u64 fd a | None => mret tt end;;
  wrs fd (bytes " pc=");; wrhex_u64 fd pc;; wrs fd (bytes " sp=");; wrhex_u64 fd sp;; wrs fd newline;;
  segv_print_addr2line_hint fd pc (is_pie_binary exe) maps1;;
  dump_maps fd maps2;;
  trace_dump_all fd.

(** The registers of the context. *)
Definition extract_pc_sp (rip rsp : Z) : M tracer (Z * Z) :=
  wrs 2 (bytes "[dbg] libc=glibc" ++ newline);; wrs 2 (bytes "[dbg] extract path: gregs[REG_RIP,REG_RSP]" ++ newline);;
  mret (rip, rsp).

Definition segv_handler (sig si_addr rip rsp : Z) : X unit :=
  lift (wrs 2 (bytes "[dbg] segv_handler enter" ++ newline);;
        r ← extract_pc_sp rip rsp;
        wrs 2 (bytes "[dbg] segv_handler values: pc=");; wrhex_u64 2 (fst r);; wrs 2 (bytes " sp=");; wrhex_u64 2 (snd r);;
        wrs 2 (bytes " si_addr=");; wrhex_u64 2 si_addr;; wrs 2 newline;;
        tracer_do_dump 2 (fst r) (snd r) (if si_addr =? 0 then None else Some si_addr));;;
  exit_with (128 + sig).

Definition tracer_dump_now_fd (fd return_address frame_address : Z) : M tracer unit :=
  wrs 2 (bytes "[dbg] tracer_dump_now_fd: 64-bit branch" ++ newline);;
  wrs 2 (bytes "[dbg] tracer_dump_now_fd values: pc=");; wrhex_u64 2 return_address;;
  wrs 2 (bytes " sp=");; wrhex_u64 2 frame_address;; wrs 2 newline;;
  tracer_do_dump fd return_address frame_address None.

Definition tracer_dump_now (return_address frame_address : Z) : M tracer unit :=
  tracer_dump_now_fd 2 return_address frame_address.

(** [raise(SIGSEGV)]: the handler when it is installed, with the context of
    the raise, or the death of the process. *)
Definition raise_segv {A} (rip rsp : Z) : X A :=
  h ← gets handled;
  if (h : bool) then
    modify (fun s => Tr (gtr s) (trace_slot s) (comm s) (out s) false (exited s));;
    segv_handler SIGSEGV 0 rip rsp;;; mret None
  else exit_with (128 + SIGSEGV).

(** The formatted text is the argument; the result is what the buffer holds. *)
Definition safe_snprintf (rip rsp : Z) (cap : Z) (text : list Z) : X (list Z) :=
  if cap <=? zlen text then lift (wrs 2 (bytes "snprintf_overflow" ++ newline));;; raise_segv rip rsp
  else xret (snprintf cap text).

(** ** The registry *)

Definition put_reg (r : option trace_reg_t) : M tracer unit :=
  modify (fun s => Tr r (trace_slot s) (comm s) (out s) (handled s) (exited s)).
Definition prctl_set_name (n : list Z) : M tracer unit :=
  modify (fun s => Tr (gtr s) (trace_slot s) (<[self := strncpy15 n]> (comm s)) (out s) (handled s) (exited s)).
Definition zero_ent : trace_ent_t := Ent [] 0.
Definition zero_slot : trace_slot_t := Slot false 0 0 [] (replicate (Z.to_nat TRACE_N) zero_ent).
Definition zero_reg : trace_reg_t := Reg false 0 (replicate (Z.to_nat MAX_THR) zero_slot).

(** [mmap] as its success. *)
Definition trace_reg_init (mmap : bool) : X unit :=
  r ← gets gtr;
  match r with
  | Some _ => xret tt
  | None => if mmap then lift (put_reg (Some (Reg true (next zero_reg) (slots zero_reg)))) else exit_with 111
  end.

Definition get_reg : M tracer trace_reg_t := r ← gets gtr; of_option r.
Definition get_slot (i : Z) : M tracer trace_slot_t := r ← get_reg; of_option (znth (slots r) i).
Definition set_slot (i : Z) (x : trace_slot_t) : M tracer unit :=
  r ← get_reg; _ ← of_option (znth (slots r) i); put_reg (Some (Reg (inited r) (next r) (zset (slots r) i x))).

(** The slot of the thread, when it is attached. *)
Definition my_slot : M tracer (option Z) :=
  m ← gets trace_slot;
  match m !! self with
  | None => mret None
  | Some i => s ← get_slot i; mret (if used s then Some i else None)
  end.

Definition nonempty (name : option (list Z)) : option (list Z) :=
  match name with Some (c :: l) => Some (c :: l) | _ => None end.

Definition trace_reg_attach_name (mmap : bool) (rip rsp : Z) (nm : option (list Z)) : X unit :=
  trace_reg_init mmap;;;
  mine ← my_slot;
  match mine with
  | Some i =>
      match nonempty nm with
      | Some n => lift (prctl_set_name n;; s ← get_slot i; set_slot i (Slot (used s) (idx s) (tid s) (strncpy15 n) (ring s)))
      | None => xret tt
      end
  | None =>
      r ← get_reg;
      let id := next r in
      put_reg (Some (Reg (inited r) (s32 (id + 1)) (slots r)));;
      let id := if MAX_THR <=? id then Z.rem id MAX_THR else id in
      set_slot id zero_slot;;
      tname ⇐ match nonempty nm with
               | Some n => xret (snprintf name_size n)
               | None => safe_snprintf rip rsp name_size (bytes "wrk" ++ percent_d id)
               end;
      lift (prctl_set_name tname;;
            set_slot id (Slot true 0 self (snprintf name_size tname) (ring zero_slot));;
            modify (fun s => Tr (gtr s) (<[self := id]> (trace_slot s)) (comm s) (out s) (handled s) (exited s)))
  end.

Definition trace_reg_attach (mmap : bool) (rip rsp : Z) : X unit := trace_reg_attach_name mmap rip rsp None.

Definition trace_set_thread_name (mmap : bool) (rip rsp : Z) (nm : option (list Z)) : X unit :=
  match nonempty nm with
  | None => xret tt
  | Some n =>
      m ← gets trace_slot;
      mine ← match m !! self with None => mret None | Some _ => my_slot end;
      match mine with
      | None => trace_reg_attach_name mmap rip rsp nm
      | Some i =>
          lift (prctl_set_name n;; s ← get_slot i; set_slot i (Slot (used s) (idx s) (tid s) (snprintf name_size n) (ring s)))
      end
  end.

(** The milliseconds of the monotonic clock. *)
Definition now_ms (tv_sec tv_nsec : Z) : Z := u64 (u64 (u64 tv_sec * 1000) + u64 tv_nsec / 1000000).

Definition tracer_mark_point (mmap : bool) (rip rsp : Z) (tv_sec tv_nsec : Z) (file : list Z) (line : Z) (func : list Z) : X unit :=
  mine ← my_slot;
  match mine with Some _ => xret tt | None => trace_reg_attach mmap rip rsp end;;;
  m ← gets trace_slot;
  i ← of_option (m !! self);
  s ← get_slot i;
  let k := idx s in
  set_slot i (Slot (used s) (u32 (k + 1)) (tid s) (name s) (ring s));;
  text ⇐ safe_snprintf rip rsp site_size (site_of file line func);
  lift (s ← get_slot i;
        _ ← of_option (znth (ring s) (k mod TRACE_N));
        set_slot i (Slot (used s) (idx s) (tid s) (name s) (zset (ring s) (k mod TRACE_N) (Ent text (now_ms tv_sec tv_nsec))))).

Definition tracer_install_segv : M tracer unit :=
  modify (fun s => Tr (gtr s) (trace_slot s) (comm s) (out s) true (exited s)).

Definition tracer_setup (mmap : bool) : X unit := trace_reg_init mmap;;; lift tracer_install_segv.
End dump.

End DbgTracer.
