(* ===== verification/DbgDigits.v ===== *)
(** * dbg_tracer: numbers printed and read back *)

From Stdlib Require Import String.
From S2P Require Import Prelude DbgTracer.
Import DbgTracer.
#[local] Open Scope list_scope.
#[local] Open Scope Z_scope.

(** ** Digits, the most significant first *)

Section base.
Context (base : Z) (Hb : 2 <= base).

Fixpoint digs (fuel : nat) (v : Z) (acc : list Z) : list Z :=
  match fuel with
  | O => acc
  | S fuel => if v <? base then v :: acc else digs fuel (v / base) (v mod base :: acc)
  end.

Definition value (acc : Z) (l : list Z) : Z := fold_left (fun a d => a * base + d) l acc.

Lemma digs_app fuel v acc : digs fuel v acc = digs fuel v [] ++ acc.
Proof.
  revert v acc. induction fuel as [|fuel IH]; intros v acc; cbn [digs]; [done|]. destruct (v <? base); [done|].
  rewrite IH, (IH _ [_]), <- app_assoc. done.
Qed.

Lemma digs_range fuel v : 0 <= v -> Forall (fun d => 0 <= d < base) (digs fuel v []).
Proof.
  revert v. induction fuel as [|fuel IH]; intros v Hv; cbn [digs]; [done|]. destruct (Z.ltb_spec v base); [by repeat constructor|].
  rewrite digs_app. apply Forall_app. split; [apply IH, Z.div_pos; lia|]. repeat constructor; apply Z.mod_pos_bound; lia.
Qed.

Lemma value_digs fuel v : 0 <= v < base ^ Z.of_nat fuel -> value 0 (digs fuel v []) = v.
Proof.
  revert v. induction fuel as [|fuel IH]; intros v Hv; cbn [digs]; [cbn in *; lia|].
  destruct (Z.ltb_spec v base); [done|]. rewrite digs_app. unfold value. rewrite fold_left_app. fold (value 0 (digs fuel (v / base) [])).
  rewrite Nat2Z.inj_succ, Z.pow_succ_r in Hv by lia.
  rewrite IH by (split; [apply Z.div_pos; lia|apply Z.div_lt_upper_bound; lia]). cbn. pose proof (Z.div_mod v base). lia.
Qed.

(** The number of digits. *)
Lemma digs_length fuel v n : 0 <= v < base ^ Z.of_nat n -> (0 < n)%nat -> (length (digs fuel v []) <= n)%nat.
Proof.
  revert v fuel. induction n as [|n IH]; intros v fuel Hv Hn; [lia|]. destruct fuel as [|fuel]; cbn [digs]; [cbn; lia|].
  destruct (Z.ltb_spec v base); [cbn; lia|]. rewrite digs_app, length_app. cbn [length].
  rewrite Nat2Z.inj_succ, Z.pow_succ_r in Hv by lia. destruct n as [|n]; [cbn in Hv; lia|].
  enough (length (digs fuel (v / base) []) <= S n)%nat by lia.
  apply IH; [|lia]. split; [apply Z.div_pos; lia|apply Z.div_lt_upper_bound; lia].
Qed.

(** ** The loop of the printers *)

Context {St : Type} (f : Z -> Z).

Fixpoint digit_loop (fuel : nat) (b : list Z) (i v : Z) : M St (list Z * Z) :=
  match fuel with
  | O => ub
  | S fuel =>
      if negb (v =? 0) && (0 <=? i) then b ← set8 b i (f (v mod base)); digit_loop fuel b (i - 1) (v / base)
      else mret (b, i)
  end.

Lemma filled_zset b i x : zlen b = 32 -> 0 <= i <= 31 -> filled (zset b i x) (i - 1) = x :: filled b i.
Proof.
  intros Hb32 Hi. unfold filled. assert (length b = 32)%nat by (unfold zlen in Hb32; lia).
  rewrite !take_ge by (rewrite length_drop; unfold zset; destruct (i <? 0); rewrite ?length_insert; lia).
  replace (Z.to_nat (i - 1 + 1)) with (Z.to_nat i) by lia. replace (Z.to_nat (i + 1)) with (S (Z.to_nat i)) by lia.
  unfold zset. destruct (Z.ltb_spec i 0); [lia|].
  rewrite (drop_S _ x) by (apply list_lookup_insert_eq; lia). f_equal. apply drop_insert_lt. lia.
Qed.

Lemma digit_loop_run n fuel b i v (s : St) :
  zlen b = 32 -> 0 < v < base ^ Z.of_nat n -> Z.of_nat n <= i + 1 -> i <= 31 -> (n < fuel)%nat ->
  exists b', digit_loop fuel b i v s = Some ((b', i - zlen (digs n v [])), s) /\ zlen b' = 32 /\
    filled b' (i - zlen (digs n v [])) = map f (digs n v []) ++ filled b i.
Proof.
  revert b i v fuel. induction n as [|n IH]; intros b i v fuel H32 Hv Hn Hi Hf; [cbn in Hv; lia|].
  destruct fuel as [|fuel]; [lia|]. cbn [digit_loop digs]. rewrite Nat2Z.inj_succ, Z.pow_succ_r in Hv by lia.
  rewrite (proj2 (Z.eqb_neq v 0)), (proj2 (Z.leb_le 0 i)) by lia. cbn [negb andb].
  assert (set8 b i (f (v mod base)) s = Some (zset b i (f (v mod base)), s)) as Es.
  { unfold set8. destruct (znth_is_Some b i) as [x Hx]; [lia|]. by rewrite Hx. }
  rewrite (bind_run _ _ _ _ _ Es). destruct (Z.ltb_spec v base).
  - destruct fuel as [|fuel]; [lia|]. cbn [digit_loop]. rewrite Z.div_small, Z.mod_small by lia. cbn [Z.eqb negb andb].
    exists (zset b i (f v)). change (zlen [v]) with 1. rewrite zlen_zset. split; [done|]. split; [done|]. cbn [map app].
    apply filled_zset; [done|lia].
  - assert (0 < v / base) by (apply Z.div_str_pos; lia). assert (v / base < base ^ Z.of_nat n) by (apply Z.div_lt_upper_bound; lia).
    destruct n as [|n]; [cbn in *; lia|].
    destruct (IH (zset b i (f (v mod base))) (i - 1) (v / base) fuel) as (b' & E & Hl & F); [by rewrite zlen_zset|lia..|].
    exists b'. rewrite digs_app, zlen_app. change (zlen [v mod base]) with 1.
    replace (i - (zlen (digs (S n) (v / base) []) + 1)) with (i - 1 - zlen (digs (S n) (v / base) [])) by lia.
    split; [done|]. split; [done|]. rewrite F, filled_zset, map_app, <- app_assoc by lia. done.
Qed.
End base.

(** ** The printers *)

Definition hexchar (d : Z) : Z := if d <? 10 then 48 + d else 87 + d.
Definition dec_text (v : Z) : list Z := map (Z.add 48) (digs 10 20 v []).
Definition hex_text (v : Z) : list Z := map hexchar (digs 16 16 v []).

Lemma hexdigits_lookup d : 0 <= d < 16 -> znth hexdigits d = Some (hexchar d).
Proof.
  intros H. assert (d ∈ seqZ 0 16) as Hin by (apply elem_of_seqZ; lia).
  assert (forallb (fun d => bool_decide (znth hexdigits d = Some (hexchar d))) (seqZ 0 16) = true) as F by (vm_compute; reflexivity).
  apply List.forallb_forall with (x := d) in F; [by apply bool_decide_eq_true in F|]. by apply list_elem_of_In.
Qed.

Lemma hex_loop_eq {S} fuel b i v (s : S) : 0 <= v -> hex_loop fuel b i v s = digit_loop 16 hexchar fuel b i v s.
Proof.
  revert b i v. induction fuel as [|fuel IH]; intros b i v Hv; cbn [hex_loop digit_loop]; [done|].
  destruct (negb (v =? 0) && (0 <=? i)); [|done]. change 15 with (Z.ones 4). rewrite Z.land_ones by lia. change (2 ^ 4) with 16.
  rewrite (bind_run _ _ s (hexchar (v mod 16)) s) by (apply of_option_run, hexdigits_lookup, Z.mod_pos_bound; lia).
  rewrite Z.shiftr_div_pow2 by lia. change (2 ^ 4) with 16. unfold mbind, M_bind.
  destruct (set8 b i (hexchar (v mod 16)) s) as [[b' s']|] eqn:E; [|done].
  assert (s' = s) as -> by (unfold set8, mbind, M_bind in E; destruct (znth b i); [by injection E|done]).
  apply IH, Z.div_pos; lia.
Qed.

Lemma dec_loop_eq {S} fuel b i v (s : S) : dec_loop fuel b i v s = digit_loop 10 (Z.add 48) fuel b i v s.
Proof. revert b i v s. induction fuel as [|fuel IH]; intros b i v s; cbn [dec_loop digit_loop]; [done|].
  destruct (negb (v =? 0) && (0 <=? i)); [|done]. unfold mbind, M_bind. destruct (set8 b i _ s) as [[b' s']|]; [|done]. apply IH.
Qed.

Lemma filled_31 b : filled b 31 = [].
Proof. done. Qed.

Lemma dec_bytes_run {S} v (s : S) : 0 <= v < 2 ^ 64 -> dec_bytes v s = Some (dec_text v, s).
Proof.
  intros Hv. unfold dec_bytes, dec_text. destruct (Z.eqb_spec v 0) as [->|Hn]; [reflexivity|].
  destruct (digit_loop_run 10 ltac:(lia) (Z.add 48) 20 33 digit_buffer 31 v s) as (b & E & Hl & F); [done|cbn; lia|lia..|].
  rewrite <- dec_loop_eq in E. rewrite (bind_run _ _ _ _ _ E). cbv beta iota. by rewrite F, filled_31, app_nil_r.
Qed.

Lemma hex_bytes_run {S} v (s : S) : 0 <= v < 2 ^ 64 -> hex_bytes v s = Some ([48; 120] ++ hex_text v, s).
Proof.
  intros Hv. unfold hex_bytes, hex_text. destruct (Z.eqb_spec v 0) as [->|Hn]; [reflexivity|].
  destruct (digit_loop_run 16 ltac:(lia) hexchar 16 33 digit_buffer 31 v s) as (b & E & Hl & F); [done|cbn; lia|lia..|].
  rewrite <- hex_loop_eq in E by lia. rewrite (bind_run _ _ _ _ _ E). cbv beta iota.
  pose proof (digs_length 16 ltac:(lia) 16 v 16 ltac:(cbn; lia) ltac:(lia)) as Hd. set (i := 31 - zlen (digs 16 16 v [])) in *.
  pose proof (zlen_nonneg (digs 16 16 v [])). assert (15 <= i <= 31) by (unfold i, zlen in *; lia).
  assert (forall b' j x, zlen b' = 32 -> 0 <= j <= 31 -> set8 b' j x s = Some (zset b' j x, s)) as W.
  { intros b' j x H1 H2. unfold set8. destruct (znth_is_Some b' j) as [y Hy]; [lia|]. by rewrite Hy. }
  rewrite (bind_run _ _ _ _ _ (W b i 120 Hl ltac:(lia))), (bind_run _ _ _ _ _ (W _ (i - 1) 48 ltac:(by rewrite zlen_zset) ltac:(lia))).
  replace (i - 2) with (i - 1 - 1) by lia. rewrite !filled_zset by (rewrite ?zlen_zset; lia). by rewrite F, filled_31, app_nil_r.
Qed.

(** ** Reading back *)

Lemma is_hex_hexchar d : 0 <= d < 16 -> is_hex (hexchar d) = true /\ hex_value (hexchar d) = d.
Proof.
  intros H. unfold is_hex, hex_value, hexchar. destruct (Z.ltb_spec d 10); (split; [lia|]).
  - destruct (Z.leb_spec (48 + d) 57); lia.
  - destruct (Z.leb_spec (87 + d) 57); lia.
Qed.

(** The text does not go on with a hexadecimal digit. *)
Definition stops (l : list Z) : Prop := match l with [] => True | c :: _ => is_hex c = false end.

Lemma value_mono base acc l : 2 <= base -> 0 <= acc -> Forall (fun d => 0 <= d < base) l -> acc <= value base acc l.
Proof.
  revert acc. induction l as [|d l IH]; intros acc Hb Ha Hl; cbn; [lia|]. apply Forall_cons in Hl as [Hd Hl].
  specialize (IH (acc * base + d) Hb ltac:(nia) Hl). unfold value in *. nia.
Qed.

Lemma lor_shiftl_add a d k : 0 <= k -> 0 <= d < 2 ^ k -> Z.lor (Z.shiftl a k) d = a * 2 ^ k + d.
Proof.
  intros Hk Hd. rewrite <- Z.add_nocarry_lor; [by rewrite Z.shiftl_mul_pow2|]. rewrite Z.shiftl_mul_pow2 by done.
  apply Z.bits_inj'. intros n Hn. rewrite Z.land_spec, Z.bits_0. destruct (Z.ltb_spec n k).
  - by rewrite Z.mul_pow2_bits_low.
  - destruct (Z.eq_dec d 0) as [->|]; [by rewrite Z.bits_0, andb_false_r|].
    rewrite (Z.bits_above_log2 d), andb_false_r; [done|lia|]. apply Z.lt_le_trans with k; [|lia]. apply Z.log2_lt_pow2; lia.
Qed.

Lemma scan_hex_digits ds acc rest :
  Forall (fun d => 0 <= d < 16) ds -> 0 <= acc -> value 16 acc ds < 2 ^ 64 -> stops rest ->
  scan_hex (map hexchar ds ++ rest) acc = (rest, value 16 acc ds).
Proof.
  revert acc. induction ds as [|d ds IH]; intros acc Hd Ha Hv Hs.
  { cbn. destruct rest as [|c rest]; [done|]. cbn in *. by rewrite Hs. }
  apply Forall_cons in Hd as [Hd Hds]. cbn [map app scan_hex]. destruct (is_hex_hexchar d Hd) as [-> ->].
  change (value 16 acc (d :: ds)) with (value 16 (acc * 16 + d) ds) in *.
  pose proof (value_mono 16 (acc * 16 + d) ds ltac:(lia) ltac:(lia) Hds).
  assert (Z.lor (Z.shiftl acc 4) d = acc * 16 + d) as ->.
  { rewrite lor_shiftl_add by lia. change (2 ^ 4) with 16. lia. }
  rewrite wrap_small by lia. by apply IH; [|lia|..].
Qed.

Lemma percent_d_text v : 0 <= v -> percent_d v = dec_text v.
Proof.
  intros Hv. unfold percent_d, dec_text. destruct (Z.ltb_spec v 0); [lia|].
  assert (forall fuel v acc, dec_digits fuel v (map (Z.add 48) acc) = map (Z.add 48) (digs 10 fuel v acc)) as E.
  { clear. induction fuel as [|fuel IH]; intros v acc; cbn [dec_digits digs]; [done|]. destruct (v <? 10); [done|]. apply (IH _ (_ :: _)). }
  apply (E 20%nat v []).
Qed.

(** C24: every 64-bit number is printed in full and without a write outside the
    digit buffer: [wrdec_u64] writes its decimal digits, the text that printf's
    [%d] gives, and [wrhex_u64] writes "0x" and its hexadecimal digits, which
    the reader of the memory map turns back into the number. *)
Theorem printed_numbers_read_back fd v rest s :
  0 <= v < 2 ^ 64 -> stops rest ->
  wrdec_u64 fd v s = xwrite fd (percent_d v) s /\
  wrhex_u64 fd v s = xwrite fd ([48; 120] ++ hex_text v) s /\
  value 10 0 (map (fun c => c - 48) (dec_text v)) = v /\
  scan_hex (hex_text v ++ rest) 0 = (rest, v).
Proof.
  intros Hv Hs. unfold wrdec_u64, wrhex_u64.
  rewrite (bind_run _ _ _ _ _ (dec_bytes_run v s Hv)), (bind_run _ _ _ _ _ (hex_bytes_run v s Hv)), percent_d_text by lia.
  split_and!; [done|done| |].
  - unfold dec_text. rewrite map_map. rewrite (map_ext _ (fun x => x)) by (intros; lia). rewrite map_id. apply value_digs; [lia|]. cbn. lia.
  - pose proof (value_digs 16 ltac:(lia) 16 v ltac:(cbn; lia)) as E. unfold hex_text. rewrite scan_hex_digits; [by rewrite E|apply digs_range; lia|lia|lia|done].
Qed.

Lemma printed_numbers_read_back_witness :
  percent_d 48879 = bytes "48879" /\ [48; 120] ++ hex_text 48879 = bytes "0xbeef" /\
  let s := Tr None ∅ ∅ [] false None in
  wrdec_u64 2 48879 s = xwrite 2 (percent_d 48879) s /\
  wrhex_u64 2 48879 s = xwrite 2 ([48; 120] ++ hex_text 48879) s /\
  value 10 0 (map (fun c => c - 48) (dec_text 48879)) = 48879 /\
  scan_hex (hex_text 48879 ++ [45]) 0 = ([45], 48879).
Proof.
  split; [vm_compute; reflexivity|]. split; [vm_compute; reflexivity|].
  apply (printed_numbers_read_back 2 48879 [45] (Tr None ∅ ∅ [] false None)); [lia|reflexivity].
Defined.
