(* ===== verification/DbgMaps.v ===== *)
(** * dbg_tracer: finding the module of an address in the memory map *)

From Stdlib Require Import String.
From S2P Require Import Prelude DbgTracer DbgDigits.
Import DbgTracer.
#[local] Open Scope list_scope.
#[local] Open Scope Z_scope.

(** ** Lines of the map *)

(** The digits of the addresses and the offset, the permissions, the device, the
    inode, the spaces after it, and the path, empty for an anonymous mapping. *)
Record map_line := ML {
  l_start : list Z; l_end : list Z; l_perms : list Z; l_off : list Z;
  l_dev : list Z; l_inode : list Z; l_pad : list Z; l_path : list Z
}.

Definition hexes (ds : list Z) : list Z := map hexchar ds.

Definition enc_line (m : map_line) : list Z :=
  hexes (l_start m) ++ [45] ++ hexes (l_end m) ++ [32] ++ l_perms m ++ [32] ++ hexes (l_off m) ++ [32] ++
  l_dev m ++ [32] ++ l_inode m ++ l_pad m ++ l_path m.

Definition digits_ok (ds : list Z) : Prop := Forall (fun d => 0 <= d < 16) ds /\ value 16 0 ds < 2 ^ 64.
Definition word (l : list Z) : Prop := l <> [] /\ Forall (fun c => c <> 32) l.
Definition spaces (l : list Z) : Prop := Forall (fun c => c = 32) l.

(** A line as the kernel prints it: the path may be missing and may hold spaces. *)
Record line_ok (m : map_line) : Prop := {
  lo_start : digits_ok (l_start m); lo_end : digits_ok (l_end m); lo_off : digits_ok (l_off m); lo_some : l_off m <> [];
  lo_four : length (l_perms m) = 4%nat; lo_perms : word (l_perms m); lo_inode : word (l_inode m); lo_pad : spaces (l_pad m);
  lo_path : l_path m = [] \/ (l_pad m <> [] /\ ~ spaces (l_path m));
  lo_line : Forall (fun c => c <> 10) (l_perms m ++ l_dev m ++ l_inode m ++ l_path m)
}.

(** What is taken for the module: the last word of the path, and the inode of a
    mapping without one. *)
Definition module_of (m : map_line) : list Z := if l_path m is [] then l_inode m else last_word (l_path m).

Definition mapping_of (m : map_line) : mapping :=
  Map (value 16 0 (l_start m)) (value 16 0 (l_end m))
    ((v8 (l_perms m) 0 =? 114) && (v8 (l_perms m) 2 =? 120) && (v8 (l_perms m) 3 =? 112))
    (value 16 0 (l_off m)) (module_of m).

(** ** The scanning loops *)

Lemma scan_hexes ds rest : digits_ok ds -> stops rest -> scan_hex (hexes ds ++ rest) 0 = (rest, value 16 0 ds).
Proof. intros [H1 H2] Hs. by apply scan_hex_digits. Qed.

Lemma skip_word c w rest : Forall (fun x => x <> c) w -> w <> [] -> skip c (w ++ rest) = w ++ rest.
Proof. intros Hw Hn. destruct w as [|x w]; [done|]. apply Forall_cons in Hw as [Hx _]. cbn. by rewrite (proj2 (Z.eqb_neq _ _)). Qed.

Lemma skip_until_app c w rest : Forall (fun x => x <> c) w -> skip_until c (w ++ c :: rest) = c :: rest.
Proof.
  induction w as [|x w IH]; intros Hw; cbn; [by rewrite Z.eqb_refl|]. apply Forall_cons in Hw as [Hx Hw].
  rewrite (proj2 (Z.eqb_neq _ _)) by done. by apply IH.
Qed.

Lemma before_app c w rest : Forall (fun x => x <> c) w -> before c (w ++ c :: rest) = w.
Proof.
  induction w as [|x w IH]; intros Hw; cbn; [by rewrite Z.eqb_refl|]. apply Forall_cons in Hw as [Hx Hw].
  rewrite (proj2 (Z.eqb_neq _ _)) by done. f_equal. by apply IH.
Qed.

Lemma spaces_rev l : spaces (rev l) <-> spaces l.
Proof. unfold spaces. rewrite !Forall_forall. setoid_rewrite list_elem_of_In. by setoid_rewrite <- in_rev. Qed.

Lemma skip_spaces l rest : spaces l -> skip 32 (l ++ rest) = skip 32 rest.
Proof. induction 1 as [|c l -> _ IH]; [done|]. exact IH. Qed.

Lemma skip_not_spaces l rest : ~ spaces l -> skip 32 (l ++ rest) = skip 32 l ++ rest.
Proof.
  induction l as [|c l IH]; intros H; [destruct H; constructor|]. cbn. destruct (Z.eqb_spec c 32); [|done].
  apply IH. intros Hl. apply H. by constructor.
Qed.

Lemma before_stops c w rest : before c (w ++ c :: rest) = before c w.
Proof. induction w as [|x w IH]; cbn; [by rewrite Z.eqb_refl|]. destruct (x =? c); by rewrite ?IH. Qed.

Lemma before_all c w : Forall (fun x => x <> c) w -> before c w = w.
Proof. induction 1 as [|x w Hx _ IH]; [done|]. cbn. rewrite (proj2 (Z.eqb_neq _ _)) by done. by f_equal. Qed.

(** What comes before the last word does not matter. *)
Lemma last_word_app l w : ~ spaces w -> last_word (l ++ [32] ++ w) = last_word w.
Proof.
  intros H. unfold last_word. rewrite !rev_app_distr, <- app_assoc. cbn [rev app].
  rewrite skip_not_spaces by (by rewrite spaces_rev). by rewrite before_stops.
Qed.

(** A word with spaces after it. *)
Lemma last_word_word w sp : word w -> spaces sp -> last_word (w ++ sp) = w.
Proof.
  intros [Hn Hw] Hs. unfold last_word. rewrite rev_app_distr, skip_spaces by (by rewrite spaces_rev).
  assert (Forall (fun c => c <> 32) (rev w)) as Hf.
  { apply Forall_forall. intros x Hx. eapply Forall_forall in Hw; [done|]. by apply list_elem_of_In, in_rev, list_elem_of_In. }
  rewrite <- (app_nil_r (rev w)), skip_word, app_nil_r, before_all, rev_involutive; [done|done|done|].
  intros E. apply Hn. by rewrite <- (rev_involutive w), E.
Qed.

Lemma word_not_spaces w sp : word w -> ~ spaces (w ++ sp).
Proof. intros [Hn Hw] [H _]%Forall_app. destruct w; [done|]. apply Forall_cons in Hw as [? _], H as [? _]. done. Qed.

Lemma last_word_line l m : line_ok m -> last_word (l ++ [32] ++ l_inode m ++ l_pad m ++ l_path m) = module_of m.
Proof.
  intros H. unfold module_of. destruct (l_path m) as [|c path] eqn:E.
  - rewrite app_nil_r, last_word_app; [by apply last_word_word; apply H|]. by apply word_not_spaces, H.
  - destruct (lo_path m H) as [X|[Hp Hs]]; [by rewrite E in X|]. rewrite E in Hs. clear E.
    pose proof (lo_pad m H) as Hsp. destruct (l_pad m) as [|x pad _] using rev_ind; [done|]. apply Forall_app in Hsp as [_ [-> _]%Forall_cons].
    rewrite <- app_assoc, !app_assoc, <- (app_assoc _ [32] (c :: path)). by apply last_word_app.
Qed.

Lemma hexchar_not_space d : 0 <= d < 16 -> hexchar d <> 32 /\ hexchar d <> 10 /\ hexchar d <> 45.
Proof. intros H. unfold hexchar. destruct (Z.ltb_spec d 10); lia. Qed.

Lemma hexes_not ds c : Forall (fun d => 0 <= d < 16) ds -> c = 32 \/ c = 10 -> Forall (fun x => x <> c) (hexes ds).
Proof. intros H Hc. apply Forall_map. eapply Forall_impl; [exact H|]. cbn. intros d Hd. pose proof (hexchar_not_space d Hd). destruct Hc; subst; tauto. Qed.

(** Leading zeros are skipped without changing the number. *)
Lemma scan_skip_zeros ds rest : digits_ok ds -> stops rest -> snd (scan_hex (skip 48 (hexes ds ++ rest)) 0) = value 16 0 ds.
Proof.
  intros [Hd Hv] Hs. induction ds as [|d ds IH].
  - cbn [hexes map app]. destruct rest as [|c rest]; [done|]. cbn in Hs. cbn [skip]. destruct (Z.eqb_spec c 48) as [->|Hc]; [done|].
    cbn. by rewrite Hs.
  - apply Forall_cons in Hd as [Hd1 Hd]. destruct (Z.eq_dec d 0) as [->|Hn].
    + cbn [hexes map app skip]. change (hexchar 0 =? 48) with true. cbv iota. by apply IH.
    + assert (hexchar d <> 48) as Hne by (unfold hexchar; destruct (Z.ltb_spec d 10); lia).
      assert (skip 48 (hexes (d :: ds) ++ rest) = hexes (d :: ds) ++ rest) as ->.
      { cbn [hexes map app skip]. by rewrite (proj2 (Z.eqb_neq _ _)). }
      rewrite scan_hexes; [done|split; [by constructor|done]|done].
Qed.

Lemma parse_line_encode m : line_ok m -> parse_line (enc_line m) = Some (mapping_of m).
Proof.
  intros H. pose proof H as [Hs He Ho Ho1 Hp4 [Hp1 Hp2] _ _ _ _]. unfold parse_line. set (rest := l_dev m ++ [32] ++ l_inode m ++ l_pad m ++ l_path m).
  set (tl1 := [32] ++ l_perms m ++ [32] ++ hexes (l_off m) ++ [32] ++ rest).
  assert (enc_line m = hexes (l_start m) ++ 45 :: hexes (l_end m) ++ tl1) as E by done.
  rewrite E at 1. rewrite scan_hexes by done. cbv beta iota. rewrite scan_hexes by done. cbv beta iota zeta.
  assert (skip 32 tl1 = l_perms m ++ [32] ++ hexes (l_off m) ++ [32] ++ rest) as ->.
  { unfold tl1. cbn [app skip]. change (32 =? 32) with true. cbv iota. by rewrite skip_word. }
  set (tl2 := hexes (l_off m) ++ [32] ++ rest).
  assert (3 < zlen (l_perms m ++ [32] ++ tl2)) as Hl by (rewrite zlen_app; unfold zlen; rewrite Hp4; cbn; lia).
  rewrite (proj2 (Z.leb_gt _ _)) by exact Hl. cbn [app]. rewrite skip_until_app by done.
  assert (skip 32 (32 :: tl2) = tl2) as ->.
  { cbn [skip]. change (32 =? 32) with true. cbv iota. unfold tl2. rewrite skip_word; [done|apply hexes_not; [apply Ho|by left]|].
    destruct (l_off m); done. }
  assert (0 < zlen tl2) as Hl2 by (unfold tl2; rewrite zlen_app; change (zlen ([32] ++ rest)) with (zlen (32 :: rest)); unfold zlen; cbn [length]; lia).
  rewrite (proj2 (Z.leb_gt _ _)) by exact Hl2. unfold mapping_of. f_equal. f_equal.
  - assert (forall i, 0 <= i < 4 -> v8 (l_perms m ++ 32 :: tl2) i = v8 (l_perms m) i) as V.
    { intros i Hi. unfold v8, znth. destruct (i <? 0); [done|]. by rewrite lookup_app_l by lia. }
    by rewrite !V by lia.
  - unfold tl2. by apply scan_skip_zeros.
  - rewrite <- (last_word_line (hexes (l_start m) ++ [45] ++ hexes (l_end m) ++ [32] ++ l_perms m ++ [32] ++ hexes (l_off m) ++ [32] ++ l_dev m) m H).
    unfold enc_line. by rewrite <- !app_assoc.
Qed.

(** ** The whole map *)

Definition enc_map (l : list map_line) : list Z := concat ((fun m => enc_line m ++ newline) <$> l).

Lemma enc_line_one_line m : line_ok m -> Forall (fun c => c <> 10) (enc_line m).
Proof.
  intros [Hs He Ho _ _ _ _ Hp _ [H1 [H2 [H3 H4]%Forall_app]%Forall_app]%Forall_app]. unfold enc_line.
  assert (Forall (fun c => c <> 10) (l_pad m)) as H5 by (eapply Forall_impl; [exact Hp|by intros c ->]).
  rewrite !Forall_app. split_and!; try done; try (by repeat constructor); apply hexes_not; try (by right); [apply Hs|apply He|apply Ho].
Qed.

Lemma enc_line_nonempty m : 0 < zlen (enc_line m).
Proof.
  unfold enc_line. rewrite zlen_app. pose proof (zlen_nonneg (hexes (l_start m))).
  pose proof (zlen_app_le [45] (hexes (l_end m) ++ [32] ++ l_perms m ++ [32] ++ hexes (l_off m) ++ [32] ++ l_dev m ++ [32] ++ l_inode m ++ l_pad m ++ l_path m)) as H1.
  change (zlen [45]) with 1 in H1. lia.
Qed.

Definition print_first (fd pc : Z) (pie : bool) (o : option mapping) : M tracer unit :=
  match o with Some m => print_hint fd pc pie m | None => mret tt end.

Lemma hint_loop_run fd pc pie l fuel s : Forall line_ok l -> (length l < fuel)%nat ->
  hint_loop fuel fd pc pie (enc_map l) s = print_first fd pc pie (List.find (hit pc) (mapping_of <$> l)) s.
Proof.
  revert fuel. induction l as [|m l IH]; intros fuel Ho Hf; (destruct fuel as [|fuel]; [cbn in Hf; lia|]); [done|].
  apply Forall_cons in Ho as [Hm Ho]. change (enc_map (m :: l)) with ((enc_line m ++ [10]) ++ enc_map l).
  rewrite <- app_assoc. cbn [app hint_loop]. pose proof (enc_line_one_line m Hm) as H1. pose proof (enc_line_nonempty m) as H2.
  destruct (enc_line m ++ 10 :: enc_map l) as [|c r] eqn:E; [by destruct (enc_line m)|]. rewrite <- E.
  rewrite before_app, skip_until_app by done. cbn [tail]. rewrite (proj2 (Z.ltb_lt _ _)) by done. rewrite parse_line_encode by done.
  cbn [fmap list_fmap List.find]. destruct (hit pc (mapping_of m)); [done|]. apply IH; [done|cbn in Hf; lia].
Qed.

(** Reading the file in pieces. *)
Lemma fill_loop_data chunks got tail_ :
  Forall (fun c => c <> []) chunks -> zlen got + zlen (concat chunks) <= maps_buffer -> (tail_ = [] \/ exists r, tail_ = Eof :: r) ->
  fill_loop (map Data chunks ++ tail_) got = got ++ concat chunks.
Proof.
  revert got. induction chunks as [|c chunks IH]; intros got Hc Hl Ht.
  { cbn [map app concat]. rewrite app_nil_r. by destruct Ht as [->|[r ->]]. }
  apply Forall_cons in Hc as [Hc Hcs]. cbn [map app fill_loop concat] in *. rewrite zlen_app in Hl.
  pose proof (zlen_nonneg (concat chunks)). pose proof (zlen_nonneg got).
  assert (0 < zlen c) by (destruct c; [done|unfold zlen; cbn; lia]).
  rewrite take_ge by (unfold zlen in *; lia). rewrite (proj2 (Z.leb_gt _ _)) by lia.
  destruct (Z.eqb_spec (zlen (got ++ c)) maps_buffer) as [E|E].
  - rewrite zlen_app in E. destruct (concat chunks) as [|x r] eqn:Ec; [by rewrite app_nil_r|]. unfold zlen in *. cbn [length] in *. lia.
  - rewrite IH by (rewrite ?zlen_app; done || lia). by rewrite app_assoc.
Qed.

(** C21: for every memory map of up to 64 kB as the kernel prints it, anonymous
    mappings and paths with spaces included, in whatever pieces the file is read,
    the hint tells the first executable mapping that holds the address (with its
    start, the address and its offset in the file), or prints nothing when there
    is none: the parser reads back the addresses, the permissions and the offset
    with its leading zeros.  The module it names is the last word of the path,
    which is the path when that has no space; for an anonymous mapping it is the
    inode ([hint_takes_the_inode_for_a_path]). *)
Theorem hint_names_the_mapping fd pc pie l chunks tail_ s :
  Forall line_ok l -> concat chunks = enc_map l -> Forall (fun c => c <> []) chunks -> zlen (enc_map l) <= maps_buffer ->
  (tail_ = [] \/ exists r, tail_ = Eof :: r) ->
  segv_print_addr2line_hint fd pc pie (Some (map Data chunks ++ tail_)) s
    = print_first fd pc pie (List.find (hit pc) (mapping_of <$> l)) s.
Proof.
  intros Ho Hc Hn Hl Ht. unfold segv_print_addr2line_hint. rewrite fill_loop_data, Hc by (rewrite ?Hc; done). cbn [app].
  apply hint_loop_run; [done|].
  assert (forall l, (length l <= length (enc_map l))%nat) as H.
  { clear. induction l as [|m l IH]; [done|]. change (enc_map (m :: l)) with ((enc_line m ++ [10]) ++ enc_map l). rewrite !length_app. cbn. lia. }
  specialize (H l). lia.
Qed.

(** ** An example *)

Definition demo_map : list map_line :=
  [ML [4; 0; 0] [5; 0; 0] (bytes "r--p") [0; 0] (bytes "08:02") (bytes "17") (bytes "      ") (bytes "/bin/demo");
   ML [4; 8; 0] [5; 0; 0] (bytes "rw-p") [0; 0] (bytes "00:00") (bytes "0") (bytes " ") [];
   ML [5; 0; 0] [7; 0; 0] (bytes "r-xp") [0; 1; 0; 0] (bytes "08:02") (bytes "17") (bytes "      ") (bytes "/bin/demo")].

(** [line_ok] of a given line. *)
Ltac known_line := constructor; first
  [solve [repeat constructor; cbn; first [lia|done]] | right; split; [done|intros [? _]%Forall_cons; done]].

Lemma hint_names_the_mapping_witness :
  let s := Tr None ∅ ∅ [] false None in
  concat (snd <$> default [] (out ∘ snd <$> segv_print_addr2line_hint 2 1552 true (Some (map Data [enc_map demo_map])) s))
    = bytes "addr2line_mod=/bin/demo" ++ newline ++ bytes "addr2line_base=0x500" ++ newline ++ bytes "addr2line_pc=0x610" ++ newline
      ++ bytes "addr2line_off=0x210" ++ newline ++ bytes "addr2line_cmd=addr2line -Cfie /bin/demo 0x210" ++ newline /\
  segv_print_addr2line_hint 2 1552 true (Some (map Data [enc_map demo_map] ++ [])) s
    = print_first 2 1552 true (List.find (hit 1552) (mapping_of <$> demo_map)) s.
Proof.
  split; [vm_compute; reflexivity|].
  apply (hint_names_the_mapping 2 1552 true demo_map [enc_map demo_map] []).
  - repeat (apply Forall_cons; split); [known_line..|constructor].
  - reflexivity.
  - repeat constructor; done.
  - vm_compute. discriminate.
  - by left.
Defined.

(** The module named for an executable mapping without a path is its inode
    ([src/dbg_tracer/dbg_tracer.c], line 314). *)
Theorem hint_takes_the_inode_for_a_path :
  let m := ML [7; 15; 0; 0; 0; 0] [7; 15; 1; 0; 0; 0] (bytes "r-xp") [0; 0] (bytes "00:00") (bytes "0") (bytes " ") [] in
  line_ok m /\ parse_line (enc_line m) = Some (Map 8323072 8327168 true 0 (bytes "0")).
Proof. split; [known_line|by vm_compute]. Qed.
