(* ===== verification/DbgRegistry.v ===== *)
(** * dbg_tracer: the rings of trace points

    The abstract registry is the list of attached threads with the history of
    their trace points; the dump shows, for each thread, the last 256. *)

From Stdlib Require Import String.
From S2P Require Import Prelude DbgTracer DbgDigits.
Import DbgTracer.
#[local] Open Scope list_scope.
#[local] Open Scope Z_scope.

(** ** The abstract registry *)

Record athread := ATh { a_tid : Z; a_name : list Z; a_hist : list trace_ent_t }.

Inductive tcommand :=
  | TAttach (nm : option (list Z))
  | TName (nm : option (list Z))
  | TMark (tv_sec tv_nsec : Z) (file : list Z) (line : Z) (func : list Z).

Fixpoint pos (th : Z) (l : list athread) : option nat :=
  match l with [] => None | a :: l => if a_tid a =? th then Some O else S <$> pos th l end.

Definition first_name (nm : option (list Z)) (l : list athread) : list Z :=
  take 15 (default (bytes "wrk" ++ percent_d (zlen l)) (nonempty nm)).
Definition rename (nm : list Z) (a : athread) : athread := ATh (a_tid a) (take 15 nm) (a_hist a).
Definition record (e : trace_ent_t) (a : athread) : athread := ATh (a_tid a) (a_name a) (a_hist a ++ [e]).
Definition on (i : nat) (f : athread -> athread) (l : list athread) : list athread := alter f i l.

Definition attach (self : Z) (nm : option (list Z)) (l : list athread) : list athread :=
  match pos self l with
  | Some i => match nonempty nm with Some n => on i (rename n) l | None => l end
  | None => l ++ [ATh self (first_name nm l) []]
  end.
Definition mark (self : Z) (e : trace_ent_t) (l : list athread) : list athread :=
  let l := match pos self l with Some _ => l | None => attach self None l end in
  match pos self l with Some i => on i (record e) l | None => l end.

Definition tstep (self : Z) (c : tcommand) (l : list athread) : list athread :=
  match c with
  | TAttach nm => attach self nm l
  | TName nm => match nonempty nm with Some _ => attach self nm l | None => l end
  | TMark sec nsec file line func => mark self (Ent (site_of file line func) (now_ms sec nsec)) l
  end.

(** A command the registry has room for: at most 128 threads, sites that fit
    their field, fewer than 2^32 marks. *)
Definition tcommand_ok (self : Z) (c : tcommand) (l : list athread) : bool :=
  (bool_decide (is_Some (pos self l)) || (zlen l <? MAX_THR)) &&
  match c with
  | TMark _ _ file line func =>
      (zlen (site_of file line func) <? site_size) && forallb (fun a => zlen (a_hist a) + 1 <? 2 ^ 32) l
  | _ => true
  end.

Fixpoint tadmissible (cs : list (Z * tcommand)) (l : list athread) : bool :=
  match cs with [] => true | (self, c) :: cs => tcommand_ok self c l && tadmissible cs (tstep self c l) end.
Fixpoint tsteps (cs : list (Z * tcommand)) (l : list athread) : list athread :=
  match cs with [] => l | (self, c) :: cs => tsteps cs (tstep self c l) end.

(** ** The same commands on the code *)

Section code.
(** The crash context and the files, which are not used here. *)
Context (exe : option (list Z)) (maps1 maps2 : option (list read_result)) (rip rsp : Z).

Definition texec (self : Z) (c : tcommand) : X unit :=
  match c with
  | TAttach nm => trace_reg_attach_name self exe maps1 maps2 true rip rsp nm
  | TName nm => trace_set_thread_name self exe maps1 maps2 true rip rsp nm
  | TMark sec nsec file line func => tracer_mark_point self exe maps1 maps2 true rip rsp sec nsec file line func
  end.
Fixpoint texec_all (cs : list (Z * tcommand)) : X unit :=
  match cs with [] => xret tt | (self, c) :: cs => xbind (texec self c) (fun _ => texec_all cs) end.
End code.

(** ** The invariant *)

(** The ring holds the last [TRACE_N] entries of the history. *)
Record ring_ok (r h : list trace_ent_t) : Prop := {
  rg_len : zlen r = TRACE_N;
  rg_last : forall j, zlen h - TRACE_N <= j -> 0 <= j < zlen h -> znth r (j mod TRACE_N) = znth h j
}.

Definition slot_ok (x : trace_slot_t) (a : athread) : Prop :=
  used x = true /\ tid x = a_tid a /\ name x = a_name a /\ idx x = zlen (a_hist a) /\ zlen (a_hist a) < 2 ^ 32 /\
  ring_ok (ring x) (a_hist a) /\ Forall (fun e => 0 <= t e < 2 ^ 64) (a_hist a).

Definition reg_ok (r : trace_reg_t) (l : list athread) : Prop :=
  exists xs n, slots r = xs ++ replicate n zero_slot /\ Forall2 slot_ok xs l /\ (length l + n = Z.to_nat MAX_THR)%nat /\ next r = zlen l.

Definition rep (s : tracer) (l : list athread) : Prop :=
  (forall th, trace_slot s !! th = Z.of_nat <$> pos th l) /\
  match gtr s with None => l = [] | Some r => reg_ok r l end.

(** ** Positions *)

Lemma pos_lookup th l i : pos th l = Some i -> exists a, l !! i = Some a /\ a_tid a = th.
Proof.
  revert i. induction l as [|a l IH]; intros i H; cbn in H; [done|]. destruct (Z.eqb_spec (a_tid a) th).
  - injection H as <-. by exists a.
  - apply fmap_Some in H as (j & Hj & ->). by apply IH.
Qed.

Lemma pos_snoc th l a : pos th (l ++ [a]) = match pos th l with Some i => Some i | None => if a_tid a =? th then Some (length l) else None end.
Proof.
  induction l as [|b l IH]; cbn; [done|]. destruct (a_tid b =? th); [done|]. rewrite IH. destruct (pos th l); [done|].
  by destruct (a_tid a =? th).
Qed.

Lemma pos_on th i f l : (forall a, a_tid (f a) = a_tid a) -> pos th (on i f l) = pos th l.
Proof.
  intros Hf. unfold on. revert i. induction l as [|a l IH]; intros [|i]; cbn; [done..| |].
  - by rewrite Hf.
  - by rewrite IH.
Qed.

Lemma length_on i f l : length (on i f l) = length l.
Proof. apply length_alter. Qed.

(** ** Rings *)

Lemma ring_ok_nil : ring_ok (ring zero_slot) [].
Proof. split; [done|]. intros j ? H. unfold zlen in H. cbn in H. lia. Qed.

Lemma ring_ok_record r h e : ring_ok r h -> ring_ok (zset r (zlen h mod TRACE_N) e) (h ++ [e]).
Proof.
  intros [H1 H2]. pose proof (Z.mod_pos_bound (zlen h) TRACE_N ltac:(done)). split; [by rewrite zlen_zset|].
  intros j Hj Hr. rewrite zlen_snoc in *. destruct (decide (j = zlen h)) as [->|Hn].
  - rewrite znth_zset_eq by lia. symmetry. apply znth_middle.
  - rewrite znth_zset_ne.
    + rewrite H2 by lia. unfold znth, zlen in *. destruct (j <? 0); [done|]. by rewrite lookup_app_l by lia.
    + unfold TRACE_N in *. div_lia.
Qed.

(** The invariant for one slot more, and for a changed one. *)
Lemma reg_ok_lookup r l i a : reg_ok r l -> l !! i = Some a -> exists x, znth (slots r) (Z.of_nat i) = Some x /\ slot_ok x a.
Proof.
  intros (xs & n & E & F & _) Ha. destruct (Forall2_lookup_r _ _ _ _ _ F Ha) as (x & Hx & Hok). exists x. split; [|done].
  unfold znth. destruct (Z.ltb_spec (Z.of_nat i) 0); [lia|]. rewrite Nat2Z.id, E. by apply lookup_app_l_Some.
Qed.

Lemma reg_ok_update r l i x a f b nx : reg_ok r l -> l !! i = Some a -> slot_ok x (f a) -> nx = next r ->
  reg_ok (Reg b nx (zset (slots r) (Z.of_nat i) x)) (on i f l).
Proof.
  intros (xs & n & E & F & L & N) Ha Hok ->. exists (<[i := x]> xs), n. cbn [slots next]. pose proof (Forall2_length _ _ _ F).
  apply lookup_lt_Some in Ha as Hlt. split_and!.
  - rewrite E. unfold zset. destruct (Z.ltb_spec (Z.of_nat i) 0); [lia|]. rewrite Nat2Z.id. apply insert_app_l. lia.
  - unfold on. replace (alter f i l) with (<[i := f a]> l); [by apply Forall2_insert|].
    apply list_eq. intros j. destruct (decide (i = j)) as [<-|].
    + by rewrite list_lookup_insert_eq, list_lookup_alter_eq, Ha by done.
    + by rewrite list_lookup_insert_ne, list_lookup_alter_ne by done.
  - by rewrite length_on.
  - unfold zlen. rewrite length_on. apply N.
Qed.

Lemma reg_ok_new r l x a b : reg_ok r l -> zlen l < MAX_THR -> slot_ok x a ->
  reg_ok (Reg b (zlen l + 1) (zset (slots r) (zlen l) x)) (l ++ [a]).
Proof.
  intros (xs & n & E & F & L & N) Hl Hok. pose proof (Forall2_length _ _ _ F) as Hx. unfold MAX_THR, zlen in Hl.
  destruct n as [|n]; [unfold MAX_THR in L; lia|]. exists (xs ++ [x]), n. cbn [slots next]. split_and!.
  - rewrite E. cbn [replicate]. replace (zlen l) with (zlen xs) by (unfold zlen; lia). by rewrite zset_middle, <- app_assoc.
  - by apply Forall2_app; [|constructor].
  - rewrite length_app. cbn. lia.
  - by rewrite zlen_snoc.
Qed.

(** ** Running the code *)

Definition with_reg (r : trace_reg_t) (s : tracer) : tracer := Tr (Some r) (trace_slot s) (comm s) (out s) (handled s) (exited s).

Lemma xbind_run {A B} (c : X A) (k : A -> X B) s a s' : c s = Some (Some a, s') -> xbind c k s = k a s'.
Proof. unfold xbind. by intros ->. Qed.

Lemma lift_run {A} (c : M tracer A) s a s' : c s = Some (a, s') -> lift c s = Some (Some a, s').
Proof. unfold lift. by intros ->. Qed.

Lemma get_reg_run s r : gtr s = Some r -> get_reg s = Some (r, s).
Proof. intros H. unfold get_reg. rewrite (bind_run _ _ s (gtr s) s) by done. by rewrite H. Qed.

Lemma get_trace_slot_run s r i x : gtr s = Some r -> znth (slots r) i = Some x -> get_slot i s = Some (x, s).
Proof. intros H Hx. unfold get_slot. rewrite (bind_run _ _ _ _ _ (get_reg_run s r H)). by rewrite Hx. Qed.

Lemma set_slot_run s r i x y : gtr s = Some r -> znth (slots r) i = Some y ->
  set_slot i x s = Some (tt, with_reg (Reg (inited r) (next r) (zset (slots r) i x)) s).
Proof. intros H Hy. unfold set_slot. rewrite (bind_run _ _ _ _ _ (get_reg_run s r H)). by rewrite Hy. Qed.

Lemma my_slot_run self s l : rep s l -> my_slot self s = Some (Z.of_nat <$> pos self l, s).
Proof.
  intros [R1 R2]. unfold my_slot. rewrite (bind_run _ _ s (trace_slot s) s) by done. rewrite R1.
  destruct (pos self l) as [i|] eqn:E; cbn [fmap option_fmap option_map]; [|done].
  destruct (pos_lookup _ _ _ E) as (a & Ha & _). destruct (gtr s) as [r|] eqn:Er; [|by subst].
  destruct (reg_ok_lookup _ _ _ _ R2 Ha) as (x & Hx & Hok). rewrite (bind_run _ _ _ _ _ (get_trace_slot_run _ _ _ _ Er Hx)).
  by destruct Hok as [-> _].
Qed.

Lemma zero_reg_ok b : reg_ok (Reg b 0 (slots zero_reg)) [].
Proof. exists [], (Z.to_nat MAX_THR). by split_and!. Qed.

Lemma trace_reg_init_run s l : rep s l ->
  exists r s1, trace_reg_init true s = Some (Some tt, s1) /\ gtr s1 = Some r /\ reg_ok r l /\ rep s1 l /\ out s1 = out s /\ trace_slot s1 = trace_slot s.
Proof.
  intros [R1 R2]. unfold trace_reg_init. rewrite (bind_run _ _ s (gtr s) s) by done. destruct (gtr s) as [r|] eqn:E.
  - exists r, s. split_and!; try done. split; [done|]. by rewrite E.
  - subst l. exists (Reg true 0 (slots zero_reg)). eexists. split; [done|]. split; [done|]. pose proof (zero_reg_ok true).
    by split_and!.
Qed.

(** A change of the slot of an attached thread. *)
Lemma update_run self s l i a f x' :
  rep s l -> pos self l = Some i -> l !! i = Some a -> (forall a, a_tid (f a) = a_tid a) -> slot_ok x' (f a) ->
  exists r, gtr s = Some r /\ exists x, znth (slots r) (Z.of_nat i) = Some x /\ slot_ok x a /\
    set_slot (Z.of_nat i) x' s = Some (tt, with_reg (Reg (inited r) (next r) (zset (slots r) (Z.of_nat i) x')) s) /\
    rep (with_reg (Reg (inited r) (next r) (zset (slots r) (Z.of_nat i) x')) s) (on i f l).
Proof.
  intros [R1 R2] Hp Ha Hf Hok. destruct (gtr s) as [r|] eqn:Er; [|by subst]. exists r. split; [done|].
  destruct (reg_ok_lookup _ _ _ _ R2 Ha) as (x & Hx & Hxo). exists x. split; [done|]. split; [done|].
  split; [by eapply set_slot_run|]. split; cbn.
  - intros th. by rewrite R1, pos_on.
  - by eapply reg_ok_update.
Qed.

Lemma rename_slot_ok n x a : slot_ok x a -> slot_ok (Slot (used x) (idx x) (tid x) (take 15 n) (ring x)) (rename n a).
Proof. by intros (? & ? & ? & ? & ? & ? & ?). Qed.

(** Giving a name to an attached thread. *)
Lemma name_run self s l i n : rep s l -> pos self l = Some i ->
  exists s', (prctl_set_name self n;; x ← get_slot (Z.of_nat i); set_slot (Z.of_nat i) (Slot (used x) (idx x) (tid x) (take 15 n) (ring x))) s
    = Some (tt, s') /\ rep s' (on i (rename n) l) /\ out s' = out s.
Proof.
  intros R Hp. destruct (pos_lookup _ _ _ Hp) as (a & Ha & _). pose proof R as [R1 R2].
  destruct (gtr s) as [r|] eqn:Er; [|by subst]. destruct (reg_ok_lookup _ _ _ _ R2 Ha) as (x & Hx & Hxo).
  set (s1 := Tr (gtr s) (trace_slot s) (<[self := strncpy15 n]> (comm s)) (out s) (handled s) (exited s)).
  rewrite (bind_run _ _ s tt s1) by done. assert (rep s1 l) as Rs1 by (split; [done|]; cbn; by rewrite Er).
  rewrite (bind_run _ _ _ _ _ (get_trace_slot_run s1 r (Z.of_nat i) x Er Hx)).
  destruct (update_run self s1 l i a (rename n) _ Rs1 Hp Ha ltac:(done) (rename_slot_ok n x a Hxo)) as (r' & Er' & y & Hy & _ & E & R').
  cbv zeta in *. eexists. split; [exact E|]. by split.
Qed.

Section run.
Context (exe : option (list Z)) (maps1 maps2 : option (list read_result)) (rip rsp : Z).

(** Printing the number of a slot takes at most three bytes. *)
Lemma slot_number_fits id : 0 <= id < MAX_THR -> zlen (bytes "wrk" ++ percent_d id) < name_size.
Proof.
  intros H. unfold MAX_THR in H. rewrite percent_d_text by lia. rewrite zlen_app. unfold dec_text, zlen at 2. rewrite length_map.
  pose proof (digs_length 10 ltac:(lia) 20 id 3 ltac:(cbn; lia) ltac:(lia)). change (zlen (bytes "wrk")) with 3. unfold name_size. lia.
Qed.

Lemma first_name_run self nm l s : 0 <= zlen l < MAX_THR ->
  exists n, (match nonempty nm with
             | Some n => xret (snprintf name_size n)
             | None => safe_snprintf self exe maps1 maps2 rip rsp name_size (bytes "wrk" ++ percent_d (zlen l))
             end) s = Some (Some n, s) /\ snprintf name_size n = first_name nm l.
Proof.
  intros Hl. unfold first_name. destruct (nonempty nm) as [n|].
  - exists (snprintf name_size n). split; [done|]. cbn. unfold snprintf. by rewrite take_take.
  - exists (snprintf name_size (bytes "wrk" ++ percent_d (zlen l))). split.
    + unfold safe_snprintf. by rewrite (proj2 (Z.leb_gt _ _)) by (by apply slot_number_fits).
    + unfold snprintf. by rewrite take_take.
Qed.

Lemma attach_run self nm s l :
  rep s l -> bool_decide (is_Some (pos self l)) || (zlen l <? MAX_THR) = true ->
  exists s', trace_reg_attach_name self exe maps1 maps2 true rip rsp nm s = Some (Some tt, s') /\ rep s' (attach self nm l) /\ out s' = out s.
Proof.
  intros R Hok. unfold trace_reg_attach_name, attach. destruct (trace_reg_init_run s l R) as (r & s1 & E1 & Er & Hr & R1 & O1 & T1).
  rewrite (xbind_run _ _ _ _ _ E1), (bind_run _ _ _ _ _ (my_slot_run self s1 l R1)).
  destruct (pos self l) as [i|] eqn:Hp; cbn [fmap option_fmap option_map].
  { destruct (nonempty nm) as [n|]; [|by exists s1]. destruct (name_run self s1 l i n R1 Hp) as (s' & E & R' & O).
    exists s'. unfold strncpy15. rewrite (lift_run _ _ _ _ E). split; [done|]. split; [done|congruence]. }
  rewrite bool_decide_eq_false_2 in Hok by (by intros [? ?]). cbn in Hok. apply Z.ltb_lt in Hok. pose proof (zlen_nonneg l) as Hl.
  pose proof Hr as (xs & n & Es & F & L & N). rewrite (bind_run _ _ _ _ _ (get_reg_run s1 r Er)), N.
  set (r1 := Reg (inited r) (s32 (zlen l + 1)) (slots r)). set (s2 := with_reg r1 s1).
  rewrite (bind_run _ _ s1 tt s2) by done. rewrite (proj2 (Z.leb_gt MAX_THR (zlen l))) by done.
  destruct (znth_is_Some (slots r) (zlen l)) as [y Hy].
  { rewrite Es, zlen_app. pose proof (Forall2_length _ _ _ F). unfold zlen in *. rewrite length_replicate. unfold MAX_THR in *. lia. }
  rewrite (bind_run _ _ _ _ _ (set_slot_run s2 r1 (zlen l) zero_slot y eq_refl Hy)). unfold s2, r1, with_reg. cbn.
  match goal with |- context [Tr (Some ?r') _ _ _ _ _] => set (r2 := r'); set (s3 := Tr (Some r2) (trace_slot s1) (comm s1) (out s1) (handled s1) (exited s1)) end.
  destruct (first_name_run self nm l s3 ltac:(lia)) as (tname & E2 & E3). rewrite (xbind_run _ _ _ _ _ E2).
  unfold lift. set (s4 := Tr (Some r2) (trace_slot s1) (<[self := strncpy15 tname]> (comm s1)) (out s1) (handled s1) (exited s1)).
  rewrite (bind_run _ _ s3 tt s4) by done. rewrite E3.
  rewrite (bind_run _ _ _ _ _ (set_slot_run s4 r2 (zlen l) (Slot true 0 self (first_name nm l) (ring zero_slot)) zero_slot eq_refl ltac:(cbn; apply znth_zset_eq; by eapply znth_Some_range))).
  cbn. rewrite zset_zset. rewrite swrap_small by (unfold MAX_THR in *; lia). eexists. split; [done|]. split; [|exact O1]. split; cbn.
  - intros th. rewrite pos_snoc. cbn [a_tid]. destruct (Z.eqb_spec self th) as [->|Hn].
    + rewrite Hp. cbn. by rewrite lookup_insert_eq.
    + rewrite lookup_insert_ne by done. rewrite T1, (proj1 R). by destruct (pos th l).
  - apply (reg_ok_new r l); [done|done|]. split_and!; try done. apply ring_ok_nil.
Qed.

Lemma set_name_run self nm s l :
  rep s l -> bool_decide (is_Some (pos self l)) || (zlen l <? MAX_THR) = true ->
  exists s', trace_set_thread_name self exe maps1 maps2 true rip rsp nm s = Some (Some tt, s') /\
    rep s' (tstep self (TName nm) l) /\ out s' = out s.
Proof.
  intros R Hok. unfold trace_set_thread_name. cbn [tstep]. destruct (nonempty nm) as [n|] eqn:En; [|by exists s].
  rewrite (bind_run _ _ s (trace_slot s) s) by done.
  assert ((match trace_slot s !! self with None => mret None | Some _ => my_slot self end) s = Some (Z.of_nat <$> pos self l, s)) as E.
  { rewrite <- (my_slot_run self s l R), (proj1 R). by destruct (pos self l) eqn:Hp; [|rewrite (my_slot_run self s l R), Hp]. }
  rewrite (bind_run _ _ _ _ _ E). destruct (pos self l) as [i|] eqn:Hp; cbn [fmap option_fmap option_map].
  - unfold attach. rewrite Hp, En. destruct (name_run self s l i n R Hp) as (s' & E' & R' & O').
    exists s'. unfold snprintf. change (Z.to_nat (name_size - 1)) with 15%nat. by rewrite (lift_run _ _ _ _ E').
  - destruct (attach_run self nm s l R) as (s' & E' & R' & O'); [by rewrite Hp|]. by exists s'.
Qed.

(** The position of a thread after it has been attached. *)
Definition attached (self : Z) (l : list athread) : list athread :=
  match pos self l with Some _ => l | None => attach self None l end.

Lemma attached_pos self l : exists i a, pos self (attached self l) = Some i /\ attached self l !! i = Some a /\
  (a ∈ l \/ a_hist a = []).
Proof.
  unfold attached, attach. destruct (pos self l) as [i|] eqn:Hp.
  - destruct (pos_lookup _ _ _ Hp) as (a & Ha & _). exists i, a. split_and!; [done|done|left]. by eapply list_elem_of_lookup_2.
  - exists (length l), (ATh self (first_name None l) []). rewrite pos_snoc, Hp. cbn [a_tid]. rewrite Z.eqb_refl.
    split_and!; [done| |by right]. by rewrite lookup_app_r, Nat.sub_diag by lia.
Qed.

Lemma attached_run self s l :
  rep s l -> bool_decide (is_Some (pos self l)) || (zlen l <? MAX_THR) = true ->
  exists s', (mine ← my_slot self; match mine with Some _ => xret tt | None => trace_reg_attach self exe maps1 maps2 true rip rsp end) s
    = Some (Some tt, s') /\ rep s' (attached self l) /\ out s' = out s.
Proof.
  intros R Hok. rewrite (bind_run _ _ _ _ _ (my_slot_run self s l R)). unfold attached. destruct (pos self l) as [i|] eqn:Hp; [by exists s|].
  cbn. unfold trace_reg_attach. apply attach_run; [done|]. by rewrite Hp.
Qed.

(** The part of [tracer_mark_point] after the thread is attached. *)
Definition put_mark (self sec nsec : Z) (file : list Z) (line : Z) (func : list Z) : X unit :=
  m ← gets trace_slot;
  i ← of_option (m !! self);
  s ← get_slot i;
  let k := idx s in
  set_slot i (Slot (used s) (u32 (k + 1)) (tid s) (name s) (ring s));;
  xbind (safe_snprintf self exe maps1 maps2 rip rsp site_size (site_of file line func)) (fun text =>
  lift (s ← get_slot i;
        _ ← of_option (znth (ring s) (k mod TRACE_N));
        set_slot i (Slot (used s) (idx s) (tid s) (name s) (zset (ring s) (k mod TRACE_N) (Ent text (now_ms sec nsec)))))).

Lemma slot_ok_record x a e : slot_ok x a -> zlen (a_hist a) + 1 < 2 ^ 32 -> 0 <= t e < 2 ^ 64 ->
  slot_ok (Slot (used x) (u32 (idx x + 1)) (tid x) (name x) (zset (ring x) (idx x mod TRACE_N) e)) (record e a).
Proof.
  intros (U & Ti & Nm & Ix & Hb & Rg & Ft) Hb1 He. unfold slot_ok, record. cbn [used tid name idx ring a_tid a_name a_hist].
  rewrite Ix, zlen_snoc, wrap_small by (pose proof (zlen_nonneg (a_hist a)); lia). split_and!; try done.
  - by apply ring_ok_record.
  - apply Forall_app. split; [done|]. by rewrite Forall_singleton.
Qed.

Lemma put_mark_run self sec nsec file line func s l i a :
  rep s l -> pos self l = Some i -> l !! i = Some a -> zlen (a_hist a) + 1 < 2 ^ 32 -> zlen (site_of file line func) < site_size ->
  exists s', put_mark self sec nsec file line func s = Some (Some tt, s') /\
    rep s' (on i (record (Ent (site_of file line func) (now_ms sec nsec))) l) /\ out s' = out s.
Proof.
  intros R Hp Ha Hb Hsz. pose proof R as [T1 G1]. unfold put_mark.
  rewrite (bind_run _ _ s (trace_slot s) s) by done. rewrite T1, Hp. rewrite (bind_run _ _ s (Z.of_nat i) s) by done.
  destruct (gtr s) as [r|] eqn:Er; [|by subst]. destruct (reg_ok_lookup _ _ _ _ G1 Ha) as (x & Hx & Hxo).
  rewrite (bind_run _ _ _ _ _ (get_trace_slot_run s r _ x Er Hx)). cbv zeta.
  rewrite (bind_run _ _ _ _ _ (set_slot_run s r _ _ x Er Hx)).
  set (s2 := with_reg _ s). set (x1 := Slot (used x) (u32 (idx x + 1)) (tid x) (name x) (ring x)) in *.
  assert (safe_snprintf self exe maps1 maps2 rip rsp site_size (site_of file line func) s2 = Some (Some (site_of file line func), s2)) as E.
  { unfold safe_snprintf. rewrite (proj2 (Z.leb_gt _ _)) by done. unfold snprintf. rewrite take_ge; [done|]. unfold zlen, site_size in Hsz |- *. lia. }
  rewrite (xbind_run _ _ _ _ _ E). set (e := Ent (site_of file line func) (now_ms sec nsec)).
  assert (znth (zset (slots r) (Z.of_nat i) x1) (Z.of_nat i) = Some x1) as Hx1 by (apply znth_zset_eq; by eapply znth_Some_range).
  assert (exists o, znth (ring x) (idx x mod TRACE_N) = Some o) as [o Ho].
  { apply znth_is_Some. destruct Hxo as (_ & _ & _ & _ & _ & Rg & _). rewrite (rg_len _ _ Rg). by apply Z.mod_pos_bound. }
  pose proof (slot_ok_record x a e Hxo Hb (wrap_range 64 _ ltac:(lia))) as Hx'.
  destruct (update_run self s l i a (record e) _ R Hp Ha ltac:(done) Hx') as (r' & Er' & y & _ & _ & _ & R').
  rewrite Er in Er'. injection Er' as <-.
  exists (with_reg (Reg (inited r) (next r) (zset (slots r) (Z.of_nat i) (Slot (used x) (u32 (idx x + 1)) (tid x) (name x) (zset (ring x) (idx x mod TRACE_N) e)))) s).
  split; [|done]. apply lift_run. rewrite (bind_run _ _ _ _ _ (get_trace_slot_run s2 _ _ x1 eq_refl Hx1)). cbn [ring x1].
  rewrite (bind_run _ _ s2 o s2) by (by rewrite Ho).
  rewrite (set_slot_run s2 _ _ _ x1 eq_refl Hx1). unfold s2, with_reg. cbn [slots inited next gtr trace_slot comm out handled exited used idx tid name x1].
  by rewrite zset_zset.
Qed.

Lemma mark_run self sec nsec file line func s l :
  rep s l -> tcommand_ok self (TMark sec nsec file line func) l = true ->
  exists s', tracer_mark_point self exe maps1 maps2 true rip rsp sec nsec file line func s = Some (Some tt, s') /\
    rep s' (tstep self (TMark sec nsec file line func) l) /\ out s' = out s.
Proof.
  intros R [Hok [Hsz Hh]%andb_true_iff]%andb_true_iff. apply Z.ltb_lt in Hsz.
  destruct (attached_run self s l R Hok) as (s1 & E1 & R1 & O1).
  destruct (attached_pos self l) as (i & a & Hp & Ha & Hin).
  assert (zlen (a_hist a) + 1 < 2 ^ 32) as Hb.
  { destruct Hin as [Hin| ->]; [|done]. apply list_elem_of_In in Hin. apply (proj1 (List.forallb_forall _ _) Hh) in Hin. lia. }
  destruct (put_mark_run self sec nsec file line func s1 _ i a R1 Hp Ha Hb Hsz) as (s' & E2 & R2 & O2).
  exists s'. cbn [tstep]. unfold mark. fold (attached self l). cbv zeta. rewrite Hp. split; [|split; [done|congruence]].
  unfold tracer_mark_point. rewrite (bind_run _ _ _ _ _ (my_slot_run self s l R)) in E1. rewrite (bind_run _ _ _ _ _ (my_slot_run self s l R)).
  rewrite (xbind_run _ _ _ _ _ E1). exact E2.
Qed.

Lemma texec_run self c s l : rep s l -> tcommand_ok self c l = true ->
  exists s', texec exe maps1 maps2 rip rsp self c s = Some (Some tt, s') /\ rep s' (tstep self c l) /\ out s' = out s.
Proof.
  intros R Hok. destruct c as [nm|nm|sec nsec file line func]; cbn [texec].
  - apply attach_run; [done|]. by apply andb_true_iff in Hok as [? _].
  - apply set_name_run; [done|]. by apply andb_true_iff in Hok as [? _].
  - by apply mark_run.
Qed.

Lemma texec_all_run cs s l : rep s l -> tadmissible cs l = true ->
  exists s', texec_all exe maps1 maps2 rip rsp cs s = Some (Some tt, s') /\ rep s' (tsteps cs l) /\ out s' = out s.
Proof.
  revert s l. induction cs as [|[self c] cs IH]; intros s l R Hok; [by exists s|].
  apply andb_true_iff in Hok as [H1 H2]. destruct (texec_run self c s l R H1) as (s1 & E1 & R1 & O1).
  destruct (IH s1 _ R1 H2) as (s2 & E2 & R2 & O2). exists s2. cbn [texec_all tsteps]. rewrite (xbind_run _ _ _ _ _ E1).
  split; [done|]. split; [done|congruence].
Qed.
End run.

(** ** The dump *)

(** [c] writes [text] to [fd], in any number of writes, and changes nothing else. *)
Definition prints (fd : Z) (text : list Z) (c : M tracer unit) : Prop := forall s, exists ws,
  c s = Some (tt, Tr (gtr s) (trace_slot s) (comm s) (out s ++ ((fun w => (fd, w)) <$> ws)) (handled s) (exited s)) /\ concat ws = text.

Lemma prints_ret fd : prints fd [] (mret tt).
Proof. intros [? ? ? o ? ?]. exists []. cbn. by rewrite app_nil_r. Qed.

Lemma prints_xwrite fd text : prints fd text (xwrite fd text).
Proof. intros s. exists [text]. cbn. by rewrite app_nil_r. Qed.

Lemma prints_seq fd t1 t2 c1 c2 : prints fd t1 c1 -> prints fd t2 c2 -> prints fd (t1 ++ t2) (c1;; c2).
Proof.
  intros H1 H2 s. destruct (H1 s) as (w1 & E1 & <-). rewrite (bind_run _ _ _ _ _ E1).
  match goal with |- context [c2 ?s1] => destruct (H2 s1) as (w2 & E2 & <-) end. exists (w1 ++ w2).
  rewrite E2. cbn. by rewrite concat_app, fmap_app, <- app_assoc.
Qed.

Lemma prints_dec fd v : 0 <= v < 2 ^ 64 -> prints fd (dec_text v) (wrdec_u64 fd v).
Proof. intros Hv s. unfold wrdec_u64. rewrite (bind_run _ _ _ _ _ (dec_bytes_run v s Hv)). apply prints_xwrite. Qed.

(** What the dump says of a thread. *)
Definition entry_text (e : trace_ent_t) : list Z :=
  if bool_decide (site e = []) then [] else bytes "  " ++ dec_text (t e) ++ bytes " " ++ site e ++ newline.
Definition last_marks (h : list trace_ent_t) : list trace_ent_t := drop (length h - Z.to_nat TRACE_N) h.
Definition thread_text (a : athread) : list Z :=
  bytes "thr tid=" ++ dec_text (u64 (a_tid a)) ++ bytes " name=" ++ a_name a ++ newline ++ concat (entry_text <$> last_marks (a_hist a)).

Lemma ring_loop_prints fd x h n j :
  ring_ok (ring x) h -> Forall (fun e => 0 <= t e < 2 ^ 64) h -> zlen h - TRACE_N <= j -> 0 <= j -> j + Z.of_nat n = zlen h ->
  prints fd (concat (entry_text <$> drop (Z.to_nat j) h)) (ring_loop n fd x j).
Proof.
  intros Rg Ft. revert j. induction n as [|n IH]; intros j Hj H0 Hn; cbn [ring_loop].
  { rewrite drop_ge by (unfold zlen in Hn; lia). apply prints_ret. }
  destruct (znth_is_Some h j) as [e He]; [lia|].
  assert (drop (Z.to_nat j) h = e :: drop (Z.to_nat (j + 1)) h) as ->.
  { unfold znth in He. destruct (j <? 0); [done|]. rewrite (drop_S _ _ _ He). do 2 f_equal. lia. }
  assert (0 <= t e < 2 ^ 64) as Ht.
  { unfold znth in He. destruct (j <? 0); [done|]. by apply (Forall_lookup_1 _ _ _ _ Ft He). }
  intros s. rewrite (bind_run _ _ s e s) by (apply of_option_run; rewrite (rg_last _ _ Rg) by lia; done).
  cbn [fmap list_fmap concat]. apply prints_seq; [|apply IH; lia]. unfold entry_text.
  case_bool_decide; [apply prints_ret|]. repeat apply prints_seq; try apply prints_xwrite. by apply prints_dec.
Qed.

Lemma dump_slot_prints fd x a : slot_ok x a -> prints fd (thread_text a) (dump_slot fd x).
Proof.
  intros (U & Ti & Nm & Ix & Hb & Rg & Ft). unfold dump_slot, thread_text. rewrite U, Ti, Nm, Ix. pose proof (zlen_nonneg (a_hist a)).
  repeat apply prints_seq; try apply prints_xwrite; [apply prints_dec, wrap_range; lia|].
  set (start := if TRACE_N <? zlen (a_hist a) then zlen (a_hist a) - TRACE_N else 0).
  assert (last_marks (a_hist a) = drop (Z.to_nat start) (a_hist a)) as ->.
  { unfold last_marks, start, zlen. f_equal. destruct (Z.ltb_spec TRACE_N (Z.of_nat (length (a_hist a)))); unfold TRACE_N in *; lia. }
  unfold start. destruct (Z.ltb_spec TRACE_N (zlen (a_hist a))); apply ring_loop_prints; (done || unfold TRACE_N in *; lia).
Qed.

Lemma slots_loop_prints fd xs l n : Forall2 slot_ok xs l ->
  prints fd (concat (thread_text <$> l)) (slots_loop fd (xs ++ replicate n zero_slot)).
Proof.
  induction 1 as [|x a xs l H F IH]; cbn [app slots_loop fmap list_fmap concat].
  - induction n as [|n IH]; [apply prints_ret|]. cbn [replicate slots_loop]. apply (prints_seq fd [] []); [apply prints_ret|apply IH].
  - apply prints_seq; [by apply dump_slot_prints|apply IH].
Qed.

(** C20: when at most 128 threads attach, the registry can be mapped, the text of
    every trace point is under 96 bytes (and each thread marks fewer than 2^32),
    then, whatever the threads do (attach, rename themselves, mark points), in any
    interleaving of whole calls, no call fails or ends the process, and the dump
    then shows each thread once, in the order they were attached, with its last
    name cut at 15 bytes and its last 256 marks, the oldest first.  The two bounds
    are needed: [trace_limits]. *)
Theorem trace_dump_shows_last_marks exe maps1 maps2 rip rsp fd cs names hs ex :
  tadmissible cs [] = true ->
  let s := Tr None ∅ names [] hs ex in
  exists s1, texec_all exe maps1 maps2 rip rsp cs s = Some (Some tt, s1) /\ out s1 = [] /\
    exists ws s2, trace_dump_all fd s1 = Some (tt, s2) /\ out s2 = (fun w => (fd, w)) <$> ws /\
      concat ws = concat (thread_text <$> tsteps cs []).
Proof.
  intros Hok s. destruct (texec_all_run exe maps1 maps2 rip rsp cs s []) as (s1 & E1 & R1 & O1); [by split|done|].
  exists s1. split; [done|]. split; [done|]. unfold trace_dump_all. rewrite (bind_run _ _ s1 (gtr s1) s1) by done.
  destruct R1 as [T1 G1]. destruct (gtr s1) as [r|] eqn:Er.
  - destruct G1 as (xs & n & Es & F & L & _). rewrite take_ge by (rewrite Es, length_app, length_replicate, (Forall2_length _ _ _ F); lia).
    rewrite Es. destruct (slots_loop_prints fd xs _ n F s1) as (ws & E & Hw). exists ws. eexists. split; [exact E|]. cbn. rewrite O1. by split.
  - exists [], s1. rewrite G1, O1. by split_and!.
Qed.

(** ** An example *)

Definition demo_trace : list (Z * tcommand) :=
  [(7, TMark 1 2000000 (bytes "a.c") 10 (bytes "f")); (8, TAttach (Some (bytes "worker"))); (7, TName (Some (bytes "main")));
   (8, TMark 2 0 (bytes "b.c") 5 (bytes "g")); (7, TMark 3 0 (bytes "a.c") 11 (bytes "f"))].

Lemma trace_dump_shows_last_marks_witness :
  concat (thread_text <$> tsteps demo_trace []) =
    bytes "thr tid=7 name=main" ++ newline ++ bytes "  1002 a.c:10:f" ++ newline ++ bytes "  3000 a.c:11:f" ++ newline
    ++ bytes "thr tid=8 name=worker" ++ newline ++ bytes "  2000 b.c:5:g" ++ newline /\
  exists s1, texec_all None None None 0 0 demo_trace (Tr None ∅ ∅ [] false None) = Some (Some tt, s1) /\ out s1 = [] /\
    exists ws s2, trace_dump_all 2 s1 = Some (tt, s2) /\ out s2 = (fun w => (2, w)) <$> ws /\
      concat ws = concat (thread_text <$> tsteps demo_trace []).
Proof.
  split; [vm_compute; reflexivity|].
  apply (trace_dump_shows_last_marks None None None 0 0 2 demo_trace ∅ false None). vm_compute. reflexivity.
Defined.

(** A source path of a hundred bytes makes a mere trace point end the process;
    the 129th thread takes over the slot of the first one. *)
Theorem trace_limits :
  let s := Tr None ∅ ∅ [] false None in
  (match tracer_mark_point 1 None None None true 0 0 0 0 (replicate 100 97) 1 (bytes "f") s with
   | Some (None, s') => exited s' = Some 139 | _ => False end) /\
  (match texec_all None None None 0 0 ((fun i => (i, TAttach None)) <$> seqZ 1 129) s with
   | Some (Some tt, s') => (r ← gtr s'; x ← znth (slots r) 0; Some (tid x)) = Some 129 /\ trace_slot s' !! 1 = trace_slot s' !! 129
   | _ => False end).
Proof. split; [vm_compute; reflexivity|]. vm_compute. by split. Qed.
