(* ===== verification/Syslog2.v ===== *)
(** * syslog2: the logger

    Models [src/syslog2/syslog2.c], and the logger that [src/uevent/uevent.c]
    and other modules fall back to without it.  The formatted text of a message
    ([vsnprintf]'s result) and what the clock and [gmtime_r] return are
    arguments; the calls to the C library that are seen outside the process are
    recorded in order. *)

From Stdlib Require Import String.
From S2P Require Import Prelude DbgTracer.
Import DbgTracer (bytes, percent_d, snprintf, before).
#[local] Open Scope list_scope.
#[local] Open Scope Z_scope.

Module Syslog2.

Definition MSG_BUF_SZ : Z := 16384.
Definition TIME_BUF_SZ : Z := 64.
Definition OUT_BUF_SZ : Z := MSG_BUF_SZ + TIME_BUF_SZ + 128.

Definition LOG_EMERG : Z := 0.
Definition LOG_INFO : Z := 6.
Definition LOG_DEBUG : Z := 7.

(** What the process does outside: [openlog] with its identity, [setlogmask],
    [tu_init], [syslog] and [write] to the standard output. *)
Inductive event :=
  | OpenLog (ident : list Z)
  | SetLogMask (mask : Z)
  | TuInit
  | SysLog (pri : Z) (text : list Z)
  | Write (text : list Z).

Record logger := Log {
  once : bool; syslog2_level : Z; log_syslog : bool; stdout_lock : bool; events : list event
}.

(** The static variables before the first call. *)
Definition logger0 : logger := Log false LOG_INFO true false [].

Definition emit (e : event) : M logger unit :=
  modify (fun s => Log (once s) (syslog2_level s) (log_syslog s) (stdout_lock s) (events s ++ [e])).

(** [1 << n] on [int]. *)
Definition shift1 (n : Z) : M logger Z := if (0 <=? n) && (n <=? 30) then mret (2 ^ n) else ub.
Definition LOG_MASK (pri : Z) : M logger Z := shift1 pri.
Definition LOG_UPTO (pri : Z) : M logger Z := m ← shift1 (pri + 1); mret (m - 1).

Definition syslog2_init_once : M logger unit :=
  emit (OpenLog (bytes "app"));;
  l ← gets syslog2_level; m ← LOG_UPTO l; emit (SetLogMask m);;
  emit TuInit.

Definition pthread_once (init : M logger unit) : M logger unit :=
  o ← gets once;
  if (o : bool) then mret tt
  else
    init;; modify (fun s => Log true (syslog2_level s) (log_syslog s) (stdout_lock s) (events s)).

(** The lock is only held within a call: another thread's turn is in the file
    SyslogLock. *)
Definition lock_stdout : M logger unit :=
  l ← gets stdout_lock;
  if (l : bool) then ub
  else modify (fun s => Log (once s) (syslog2_level s) (log_syslog s) true (events s)).
Definition unlock_stdout : M logger unit :=
  modify (fun s => Log (once s) (syslog2_level s) (log_syslog s) false (events s)).

Definition priority_texts : list (list Z) := [bytes "M"; bytes "A"; bytes "C"; bytes "E"; bytes "W"; bytes "N"; bytes "I"; bytes "D"].

Definition strprio (pri : Z) : list Z :=
  if (LOG_EMERG <=? pri) && (pri <=? LOG_DEBUG) then default [] (znth priority_texts pri) else bytes "?".

(** [%0nd] *)
Definition pad0 (n : nat) (z : Z) : list Z :=
  let d := percent_d (Z.abs z) in
  let sign := if z <? 0 then [45] else [] in
  sign ++ replicate (n - length sign - length d) 48 ++ d.

Record tm := Tm { tm_mday : Z; tm_mon : Z; tm_year : Z; tm_hour : Z; tm_min : Z; tm_sec : Z }.

(** The broken down local time and the nanoseconds. *)
Definition current_time_str (sz : Z) (t : tm) (tv_nsec pri : Z) : list Z :=
  snprintf sz (pad0 2 (tm_mday t) ++ bytes "-" ++ pad0 2 (tm_mon t + 1) ++ bytes "-" ++ pad0 4 (tm_year t + 1900) ++ bytes " "
    ++ pad0 2 (tm_hour t) ++ bytes ":" ++ pad0 2 (tm_min t) ++ bytes ":" ++ pad0 2 (tm_sec t) ++ bytes "."
    ++ pad0 3 (Z.quot tv_nsec 1000000) ++ bytes " " ++ strprio pri).

Definition setup_syslog2 (ident : option (list Z)) (level : Z) (use_syslog : bool) : M logger unit :=
  pthread_once syslog2_init_once;;
  emit (OpenLog (default (bytes "app") ident));;
  m ← LOG_UPTO level; emit (SetLogMask m);;
  modify (fun s => Log (once s) level (log_syslog s) (stdout_lock s) (events s));;
  modify (fun s => Log (once s) (syslog2_level s) use_syslog (stdout_lock s) (events s)).

(** [write] of [len] bytes of an array of [cap] that holds the string [s]. *)
Definition write_buffer (cap : Z) (s : list Z) (len : Z) : M logger unit :=
  if cap <? len then ub
  else if len <=? zlen s then emit (Write (take (Z.to_nat len) s))
  else if len =? zlen s + 1 then emit (Write (s ++ [0]))
  else ub.

Definition newline (nl : bool) : list Z := if nl then [10] else [].

(** [true] when the priority is masked out. *)
Definition masked (pri : Z) : M logger bool :=
  m ← LOG_MASK pri; l ← gets syslog2_level; u ← LOG_UPTO l; mret (Z.land m u =? 0).

Definition syslog_text (tid : Z) (file : list Z) (line : Z) (func msg : list Z) (nl : bool) : list Z :=
  bytes "[" ++ percent_d tid ++ bytes "] " ++ file ++ bytes ":" ++ percent_d line ++ bytes " " ++ func ++ bytes ": " ++ msg ++ newline nl.
Definition out_text (tbuf : list Z) (tid : Z) (file : list Z) (line : Z) (func msg : list Z) (nl : bool) : list Z :=
  bytes "[" ++ tbuf ++ bytes "] " ++ syslog_text tid file line func msg nl.

(** The two functions differ in when the thread asks for its number. *)
Definition syslog2_ (tid : Z) (t : tm) (tv_nsec : Z) (pri : Z) (func file : list Z) (line : Z) (text : list Z) (nl : bool) : M logger unit :=
  pthread_once syslog2_init_once;;
  out ← masked pri;
  if (out : bool) then mret tt
  else
    let msg := before 0 (snprintf MSG_BUF_SZ text) in
    ls ← gets log_syslog;
    (if ls : bool then emit (SysLog pri (syslog_text tid file line func msg nl)) else mret tt);;
    let tbuf := current_time_str TIME_BUF_SZ t tv_nsec pri in
    let outtext := out_text tbuf tid file line func msg nl in
    let outbuf := snprintf OUT_BUF_SZ outtext in
    let len := zlen outtext in
    if 0 <? len then
      lock_stdout;; write_buffer OUT_BUF_SZ outbuf len;; unlock_stdout
    else mret tt.

Definition syslog2_printf_ (pri : Z) (text : list Z) : M logger unit :=
  pthread_once syslog2_init_once;;
  out ← masked pri;
  if (out : bool) then mret tt
  else
    let msg := before 0 (snprintf MSG_BUF_SZ text) in
    ls ← gets log_syslog;
    (if ls : bool then emit (SysLog pri msg) else mret tt);;
    let len := zlen msg in
    if 0 <? len then
      lock_stdout;; write_buffer MSG_BUF_SZ msg len;; unlock_stdout
    else mret tt.

Definition syslog2_get_pri : M logger Z := gets syslog2_level.

(** ** The fallback of the other modules *)

(** [snprintf] of the header into 4096 bytes and of the text after it: [len] is
    the sum of the two full lengths, and the text has to start in the array. *)
Definition fallback_syslog2_ (pri : Z) (func file : list Z) (line : Z) (text : list Z) (nl : bool) : M logger unit :=
  let sz := 4096 in
  let header := bytes "[" ++ percent_d pri ++ bytes "] " ++ file ++ bytes ":" ++ percent_d line ++ bytes " " ++ func ++ bytes ": " in
  let len := zlen header in
  if sz <? len then ub
  else
    let buf := snprintf sz header ++ snprintf (sz - len) text in
    let len := len + zlen text in
    let len := if sz <=? len then sz - 1 else len in
    let nl' := nl && (len <? sz - 1) in
    let len := if nl' then len + 1 else len in
    emit (Write (take (Z.to_nat len) (buf ++ newline nl'))).

End Syslog2.
