(* ===== verification/Syslog2Spec.v ===== *)
(** * syslog2: what the logger emits

    Every sequence of calls emits the messages up to the level, each as one
    whole line, to the system log when that is on and to the standard output. *)

From Stdlib Require Import String ZifyBool.
From S2P Require Import Prelude DbgTracer DbgDigits Syslog2.
Import DbgTracer (bytes, percent_d, snprintf, before).
Import Syslog2.
#[local] Open Scope list_scope.
#[local] Open Scope Z_scope.

(** ** Lengths *)

Lemma percent_d_length z : int_min <= z <= int_max -> zlen (percent_d z) <= 11.
Proof.
  intros Hz. assert (forall v, 0 <= v <= 2 ^ 31 -> zlen (percent_d v) <= 10) as Hp.
  { intros v Hv. rewrite percent_d_text by lia. unfold dec_text, zlen. rewrite length_map.
    pose proof (digs_length 10 ltac:(lia) 20 v 10 ltac:(lia) ltac:(lia)). lia. }
  unfold int_min, int_max in Hz. destruct (Z.ltb_spec z 0) as [Hn|Hn].
  - assert (percent_d z = 45 :: percent_d (- z)) as ->.
    { unfold percent_d. rewrite (proj2 (Z.ltb_lt z 0) Hn), (proj2 (Z.ltb_ge (- z) 0)) by lia. done. }
    specialize (Hp (- z) ltac:(lia)). unfold zlen in *. cbn [length]. lia.
  - specialize (Hp z ltac:(lia)). lia.
Qed.

Lemma snprintf_length cap s : 0 < cap -> zlen (snprintf cap s) <= cap - 1.
Proof. intros H. unfold zlen, snprintf. rewrite length_take. lia. Qed.

Lemma snprintf_fits cap s : zlen s < cap -> snprintf cap s = s.
Proof. intros H. unfold snprintf. apply take_ge. unfold zlen in H. lia. Qed.

Lemma before_length c l : zlen (before c l) <= zlen l.
Proof. induction l as [|x l IH]; cbn; [done|]. unfold zlen in *. destruct (x =? c); cbn [length]; lia. Qed.

(** ** The mask *)

Lemma land_mask p n : 0 <= p -> 0 <= n -> (Z.land (2 ^ p) (2 ^ n - 1) =? 0) = (n <=? p).
Proof.
  intros Hp Hn. replace (2 ^ n - 1) with (Z.ones n) by (rewrite Z.ones_equiv; lia). rewrite Z.land_ones by done.
  destruct (Z.leb_spec n p).
  - replace p with (n + (p - n)) by lia. rewrite Z.pow_add_r, Z.mul_comm, Z.mod_mul by lia. done.
  - rewrite Z.mod_small; [apply Z.eqb_neq; pose proof (Z.pow_pos_nonneg 2 p); lia|]. split; [lia|]. apply Z.pow_lt_mono_r; lia.
Qed.

Lemma shift1_wp n (Q : Z -> logger -> Prop) s : 0 <= n <= 30 -> Q (2 ^ n) s -> wp (shift1 n) Q s.
Proof. intros H HQ. unfold shift1. rewrite (proj2 (Z.leb_le 0 n)), (proj2 (Z.leb_le n 30)) by lia. by apply wp_ret. Qed.

Lemma masked_wp pri (Q : bool -> logger -> Prop) s :
  0 <= pri <= 30 -> -1 <= syslog2_level s <= 29 -> Q (syslog2_level s <? pri) s -> wp (masked pri) Q s.
Proof.
  intros Hp Hl HQ. apply wp_bind, shift1_wp; [done|]. apply wp_bind, wp_gets, wp_bind, wp_bind, shift1_wp; [lia|].
  apply wp_ret, wp_ret. rewrite land_mask by lia.
  replace (syslog2_level s + 1 <=? pri) with (syslog2_level s <? pri); [done|].
  destruct (Z.ltb_spec (syslog2_level s) pri), (Z.leb_spec (syslog2_level s + 1) pri); lia || done.
Qed.

(** ** The calls *)

(** A message: the calling thread, the time, the place in the source and the
    formatted text. *)
Record message := Msg {
  m_tid : Z; m_tm : tm; m_nsec : Z; m_func : list Z; m_file : list Z; m_line : Z; m_text : list Z; m_nl : bool
}.

Inductive call :=
  | Setup (ident : option (list Z)) (level : Z) (use_syslog : bool)
  | Message (pri : Z) (m : message)
  | Print (pri : Z) (text : list Z)
  | GetPri.

Definition exec (c : call) : M logger (option Z) :=
  match c with
  | Setup i l u => setup_syslog2 i l u;; mret None
  | Message pri m => syslog2_ (m_tid m) (m_tm m) (m_nsec m) pri (m_func m) (m_file m) (m_line m) (m_text m) (m_nl m);; mret None
  | Print pri text => syslog2_printf_ pri text;; mret None
  | GetPri => l ← syslog2_get_pri; mret (Some l)
  end.

Fixpoint exec_all (l : list call) : M logger (list Z) :=
  match l with
  | [] => mret []
  | c :: l => r ← exec c; rest ← exec_all l; mret (option_list r ++ rest)
  end.

(** ** The specification: level and system log flag, and what is emitted *)

Definition init_events : list event := [OpenLog (bytes "app"); SetLogMask 127; TuInit].

(** The text of a message, up to its limit or to a null byte. *)
Definition text_of (text : list Z) : list Z := before 0 (take (Z.to_nat 16383) text).

Definition sys_line (m : message) : list Z :=
  bytes "[" ++ percent_d (m_tid m) ++ bytes "] " ++ m_file m ++ bytes ":" ++ percent_d (m_line m) ++ bytes " " ++ m_func m ++ bytes ": "
    ++ text_of (m_text m) ++ newline (m_nl m).
Definition out_line (pri : Z) (m : message) : list Z :=
  bytes "[" ++ current_time_str 64 (m_tm m) (m_nsec m) pri ++ bytes "] " ++ sys_line m.

(** What goes to the standard output: the line, which for one of exactly the
    buffer's size has its last byte replaced by the terminator. *)
Definition written (line : list Z) : list Z :=
  if zlen line <? OUT_BUF_SZ then line else take (Z.to_nat (OUT_BUF_SZ - 1)) line ++ [0].

(** The calls that have a meaning when [level] is in force: priorities without a
    facility, levels that can be shifted in an [int], and lines no longer than the
    buffer. *)
Definition call_ok (level : Z) (c : call) : bool :=
  match c with
  | Setup _ l _ => (-1 <=? l) && (l <=? 29)
  | Message pri m => (0 <=? pri) && (pri <=? 30) && ((level <? pri) || (zlen (out_line pri m) <=? OUT_BUF_SZ))
  | Print pri _ => (0 <=? pri) && (pri <=? 30)
  | GetPri => true
  end.
Definition level_after (level : Z) (c : call) : Z := if c is Setup _ l _ then l else level.
Fixpoint all_ok (level : Z) (l : list call) : bool :=
  match l with [] => true | c :: l => call_ok level c && all_ok (level_after level c) l end.

Definition spec_events (level : Z) (sys : bool) (c : call) : list event :=
  match c with
  | Setup i l u => [OpenLog (default (bytes "app") i); SetLogMask (2 ^ (l + 1) - 1)]
  | Message pri m =>
      if level <? pri then [] else (if sys then [SysLog pri (sys_line m)] else []) ++ [Write (written (out_line pri m))]
  | Print pri text =>
      if level <? pri then []
      else (if sys then [SysLog pri (text_of text)] else []) ++ (if 0 <? zlen (text_of text) then [Write (text_of text)] else [])
  | GetPri => []
  end.

Fixpoint spec_all (first : bool) (level : Z) (sys : bool) (l : list call) : list Z * list event :=
  match l with
  | [] => ([], [])
  | GetPri :: l => let '(r, ev) := spec_all first level sys l in (level :: r, ev)
  | c :: l =>
      let '(level', sys') := match c with Setup _ l u => (l, u) | _ => (level, sys) end in
      let '(r, ev) := spec_all false level' sys' l in
      (r, (if first then init_events else []) ++ spec_events level sys c ++ ev)
  end.

(** The variables of the logger. *)
Record vars (s : logger) (first : bool) (level : Z) (sys : bool) (ev : list event) : Prop := {
  va_state : s = Log (negb first) level sys false ev; va_level : -1 <= level <= 29; va_first : first = true -> level = LOG_INFO
}.

Lemma emit_wp e (Q : unit -> logger -> Prop) s :
  Q tt (Log (once s) (syslog2_level s) (log_syslog s) (stdout_lock s) (events s ++ [e])) -> wp (emit e) Q s.
Proof. intros H. by apply wp_modify. Qed.

Lemma pthread_once_wp s first level sys ev (Q : unit -> logger -> Prop) :
  vars s first level sys ev ->
  (forall s', vars s' false level sys (ev ++ if first then init_events else []) -> Q tt s') -> wp (pthread_once syslog2_init_once) Q s.
Proof.
  intros [-> Hl Hf] HQ. apply wp_bind, wp_gets. destruct first; cbn [once negb].
  - specialize (Hf eq_refl) as ->. apply wp_bind, wp_bind, emit_wp, wp_bind, wp_gets, wp_bind. cbn [syslog2_level].
    apply wp_bind, shift1_wp; [done|]. apply wp_ret, wp_bind, emit_wp, emit_wp, wp_modify, HQ. cbn.
    rewrite <- !app_assoc. by constructor.
  - apply wp_ret, HQ. rewrite app_nil_r. by constructor.
Qed.

Lemma write_line_wp cap s first level sys ev text len (Q : unit -> logger -> Prop) :
  vars s first level sys ev -> len <= cap -> zlen text = len \/ zlen text + 1 = len ->
  Q tt (Log (negb first) level sys false (ev ++ [Write (if zlen text =? len then text else text ++ [0])])) ->
  wp (lock_stdout;; write_buffer cap text len;; unlock_stdout) Q s.
Proof.
  intros [-> Hl Hf] Hc Hlen HQ. apply wp_bind, wp_bind, wp_gets. cbn [stdout_lock]. apply wp_modify, wp_bind.
  unfold write_buffer. rewrite (proj2 (Z.ltb_ge cap _)) by lia. destruct Hlen as [E|E].
  - rewrite (proj2 (Z.eqb_eq _ _) E) in HQ. rewrite (proj2 (Z.leb_le len _)) by lia. apply emit_wp, wp_modify.
    rewrite <- E. unfold zlen. by rewrite Nat2Z.id, firstn_all.
  - rewrite (proj2 (Z.eqb_neq _ len)) in HQ by lia. rewrite (proj2 (Z.leb_gt len _)), (proj2 (Z.eqb_eq len _)) by lia. by apply emit_wp, wp_modify.
Qed.

Lemma text_of_length text : zlen (text_of text) <= 16383.
Proof.
  unfold text_of. pose proof (before_length 0 (take (Z.to_nat 16383) text)). unfold zlen in *. rewrite length_take in H. lia.
Qed.

Lemma out_line_length pri m : 0 < zlen (out_line pri m).
Proof.
  unfold out_line. rewrite zlen_app. change (zlen (bytes "[")) with 1.
  pose proof (zlen_nonneg (current_time_str 64 (m_tm m) (m_nsec m) pri ++ bytes "] " ++ sys_line m)). lia.
Qed.

(** A line cut by [snprintf], up to one byte short. *)
Lemma snprintf_line line : zlen line <= OUT_BUF_SZ ->
  (zlen (snprintf OUT_BUF_SZ line) = zlen line \/ zlen (snprintf OUT_BUF_SZ line) + 1 = zlen line) /\
  (if zlen (snprintf OUT_BUF_SZ line) =? zlen line then snprintf OUT_BUF_SZ line else snprintf OUT_BUF_SZ line ++ [0]) = written line.
Proof.
  intros H. unfold written. destruct (Z.ltb_spec (zlen line) OUT_BUF_SZ).
  - rewrite snprintf_fits, Z.eqb_refl by done. auto.
  - assert (zlen (snprintf OUT_BUF_SZ line) + 1 = zlen line) as E.
    { change OUT_BUF_SZ with 16576 in *. unfold snprintf, zlen in *. rewrite length_take. lia. }
    split; [by right|]. by rewrite (proj2 (Z.eqb_neq _ _)) by lia.
Qed.

(** The calls to the system log, when it is on. *)
Lemma log_sys_wp first level sys ev (e : event) (k : M logger unit) (Q : unit -> logger -> Prop) s :
  vars s first level sys ev ->
  (forall s', vars s' first level sys (ev ++ if sys then [e] else []) -> wp k Q s') ->
  wp (ls ← gets log_syslog; (if (ls : bool) then emit e else mret tt);; k) Q s.
Proof.
  intros [-> Hl Hf] HQ. apply wp_bind, wp_gets. cbn [log_syslog]. apply wp_bind. destruct sys.
  - apply emit_wp, HQ. by constructor.
  - apply wp_ret, HQ. rewrite app_nil_r. by constructor.
Qed.

Lemma log_exec_wp c first level sys ev s :
  vars s first level sys ev -> call_ok level c = true -> c <> GetPri ->
  wp (exec c) (fun r s' => r = None /\
    vars s' false (level_after level c) (match c with Setup _ _ u => u | _ => sys end)
      (ev ++ (if first then init_events else []) ++ spec_events level sys c)) s.
Proof.
  intros V Hc Hn. rewrite app_assoc. set (ev1 := ev ++ _).
  destruct c as [i l u|pri m|pri text|]; [| | |done]; cbn [exec]; apply wp_bind, wp_bind; (eapply pthread_once_wp; [exact V|]);
    fold ev1; clear V; intros s1 V; cbn [spec_events].
  - destruct V as [-> Hl _]. cbn [call_ok] in Hc. apply wp_bind, emit_wp, wp_bind, wp_bind, shift1_wp; [lia|]. apply wp_ret, wp_bind, emit_wp.
    apply wp_bind, wp_modify, wp_modify, wp_ret. split; [done|]. cbn. rewrite <- app_assoc. constructor; [done|lia|done].
  - pose proof (out_line_length pri m) as Hlen. cbn [call_ok] in Hc. pose proof V as [-> Hl _].
    apply wp_bind, masked_wp; [lia|done|]. cbn [syslog2_level]. destruct (level <? pri); [apply wp_ret, wp_ret; by rewrite app_nil_r|].
    destruct (snprintf_line (out_line pri m)) as [Hs <-]; [lia|].
    cbv zeta. eapply log_sys_wp; [exact V|]. clear V. intros s2 V. change (out_text _ _ _ _ _ _ _) with (out_line pri m).
    rewrite (proj2 (Z.ltb_lt 0 _)) by lia. eapply write_line_wp; [exact V|lia|done|]. apply wp_ret. split; [done|].
    rewrite <- app_assoc. by constructor.
  - cbn [call_ok] in Hc. pose proof V as [-> Hl _]. apply wp_bind, masked_wp; [lia|done|]. cbn [syslog2_level].
    destruct (level <? pri); [apply wp_ret, wp_ret; by rewrite app_nil_r|].
    cbv zeta. eapply log_sys_wp; [exact V|]. clear V. intros s2 V. change (before 0 (snprintf MSG_BUF_SZ text)) with (text_of text).
    pose proof (text_of_length text). destruct (0 <? zlen (text_of text)).
    + eapply write_line_wp; [exact V|change MSG_BUF_SZ with 16384; lia|by left|]. rewrite Z.eqb_refl. apply wp_ret. split; [done|]. rewrite <- app_assoc. by constructor.
    + apply wp_ret, wp_ret. split; [done|]. by rewrite app_nil_r.
Qed.

Lemma log_exec_all_wp l first level sys ev s :
  vars s first level sys ev -> all_ok level l = true ->
  wp (exec_all l) (fun r s' => r = fst (spec_all first level sys l) /\ events s' = ev ++ snd (spec_all first level sys l)
    /\ stdout_lock s' = false) s.
Proof.
  revert first level sys ev s. induction l as [|c l IH]; intros first level sys ev s V Hl; cbn [exec_all].
  { apply wp_ret. destruct V as [-> _ _]. cbn. by rewrite app_nil_r. }
  cbn [all_ok] in Hl. apply andb_true_iff in Hl as [Hc Hl]. apply wp_bind.
  assert (c = GetPri \/ c <> GetPri) as [->|Hg] by (destruct c; auto).
  - apply wp_bind, wp_gets, wp_ret, wp_bind. pose proof V as [-> _ _]. eapply wp_mono; [by eapply IH|].
    intros r s' (-> & E & L). cbn [spec_all]. apply wp_ret. by destruct (spec_all first level sys l).
  - eapply wp_mono; [by eapply log_exec_wp|]. intros r s1 [-> V1]. apply wp_bind. eapply wp_mono; [by eapply IH|].
    intros r s' (-> & E & L). apply wp_ret. rewrite E. destruct c as [i l' u|pri m|pri text|]; [| | |done]; cbn [spec_all];
      destruct (spec_all _ _ _ l); by rewrite <- !app_assoc.
Qed.

(** ** Calls without a meaning *)

Lemma bind_fails {A B} (m : M logger A) (k : A -> M logger B) s : wp m (fun a s' => k a s' = None) s -> (m ≫= k) s = None.
Proof. intros (a & s' & E & H)%wp_run. by rewrite (bind_run _ _ _ _ _ E). Qed.

Lemma shift1_fails n s : (0 <=? n) && (n <=? 30) = false -> shift1 n s = None.
Proof. intros H. unfold shift1. by rewrite H. Qed.

Lemma write_line_fails line s : OUT_BUF_SZ < zlen line -> stdout_lock s = false ->
  (lock_stdout;; write_buffer OUT_BUF_SZ (snprintf OUT_BUF_SZ line) (zlen line);; unlock_stdout) s = None.
Proof.
  intros H Hl. apply bind_fails, wp_bind, wp_gets. rewrite Hl. apply wp_modify, bind_undefined.
  unfold write_buffer. by rewrite (proj2 (Z.ltb_lt _ _) H).
Qed.

(** A call outside of what is meant has no result. *)
Lemma log_exec_fails c first level sys ev s : vars s first level sys ev -> call_ok level c = false -> exec c s = None.
Proof.
  intros V Hc. assert (c <> GetPri) as Hg by (by intros ->).
  destruct c as [i l u|pri m|pri text|]; cbn [call_ok] in Hc; [| | |done]; cbn [exec]; apply bind_undefined, bind_fails;
    (eapply pthread_once_wp; [exact V|]); clear V; intros s1 V; pose proof V as [-> Hl _].
  - apply bind_fails, emit_wp, bind_undefined, bind_undefined, shift1_fails. lia.
  - destruct ((0 <=? pri) && (pri <=? 30)) eqn:Hp; cbn [andb] in Hc; [|by apply bind_undefined, bind_undefined, shift1_fails].
    apply orb_false_iff in Hc as [Hm Hlen%Z.leb_gt]. apply bind_fails, masked_wp; [lia|done|]. cbn [syslog2_level]. rewrite Hm.
    apply bind_fails, wp_gets, bind_fails. pose proof (out_line_length pri m). change (out_text _ _ _ _ _ _ _) with (out_line pri m).
    rewrite (proj2 (Z.ltb_lt 0 _)) by done. cbn [log_syslog]. destruct sys; [apply emit_wp|apply wp_ret]; by apply write_line_fails.
  - by apply bind_undefined, bind_undefined, shift1_fails.
Qed.

Lemma log_exec_all_fails l first level sys ev s : vars s first level sys ev -> all_ok level l = false -> exec_all l s = None.
Proof.
  revert first level sys ev s. induction l as [|c l IH]; intros first level sys ev s V Hl; cbn [exec_all all_ok] in *; [done|].
  destruct (call_ok level c) eqn:Hc; [|apply bind_undefined; by eapply log_exec_fails]. cbn [andb] in Hl.
  assert (c = GetPri \/ c <> GetPri) as [->|Hg] by (destruct c; auto).
  - apply bind_fails, wp_bind, wp_gets, wp_ret, bind_undefined. eapply IH; [exact V|]. by destruct V as [-> _ _].
  - apply bind_fails. eapply wp_mono; [by eapply log_exec_wp|]. intros r s1 [_ V1]. apply bind_undefined. by eapply IH.
Qed.

(** C37: every sequence of calls of the logger, from the start of the process,
    emits what the specification says: the first call opens the log, [setup] sets
    identity, mask and level, and a message is written if and only if its priority
    is at most the level in force, as one whole line with its time, thread, place,
    text (up to its limit) and newline, and to the system log as well when that is
    on; nothing is read or written outside the buffers and the lock is free at the
    end.  A sequence in which a priority or a level cannot be shifted in an [int],
    or a line is longer than its buffer, has no meaning: the code checks none of
    them. *)
Theorem syslog2_emits l :
  if all_ok LOG_INFO l then
    exists s', exec_all l logger0 = Some (fst (spec_all true LOG_INFO true l), s') /\
      events s' = snd (spec_all true LOG_INFO true l) /\ stdout_lock s' = false
  else exec_all l logger0 = None.
Proof.
  assert (vars logger0 true LOG_INFO true []) as V by by constructor. destruct (all_ok LOG_INFO l) eqn:Hl.
  - pose proof (log_exec_all_wp l true LOG_INFO true [] logger0 V Hl) as W. apply wp_run in W as (r & s' & E & -> & Hev & L). eauto.
  - by eapply log_exec_all_fails.
Qed.

Definition noon : tm := Tm 24 1 126 12 0 5.
Definition hello (nl : bool) : message := Msg 77 noon 6000000 (bytes "main") (bytes "a.c") 9 (bytes "hi") nl.

Lemma syslog2_emits_witness :
  let l := [Message 6 (hello true); GetPri; Setup None 3 false; Message 6 (hello true); Message 3 (hello false); Print 0 (bytes "bye"); GetPri] in
  exists s', exec_all l logger0 = Some ([6; 3], s') /\
    events s' = init_events ++ [SysLog 6 (bytes "[77] a.c:9 main: hi" ++ [10]);
      Write (bytes "[24-02-2026 12:00:05.006 I] [77] a.c:9 main: hi" ++ [10]); OpenLog (bytes "app"); SetLogMask 15;
      Write (bytes "[24-02-2026 12:00:05.006 E] [77] a.c:9 main: hi"); Write (bytes "bye")] /\ stdout_lock s' = false.
Proof.
  exact (syslog2_emits [Message 6 (hello true); GetPri; Setup None 3 false; Message 6 (hello true); Message 3 (hello false); Print 0 (bytes "bye"); GetPri]).
Defined.

(** A priority with a facility, or a level of 30 or more, is shifted out of an
    [int]; a long place and a full message make [write] read beyond the line's
    buffer; and the fallback logger overruns its buffer for a long place. *)
Theorem syslog2_limits :
  let long := replicate 200 97 in
  syslog2_ 1 noon 0 (8 * 17 + 3) (bytes "f") (bytes "a.c") 1 [] true logger0 = None
  /\ setup_syslog2 None 31 true logger0 = None
  /\ syslog2_ 1 noon 0 3 (bytes "f") long 1 (replicate (Z.to_nat 16383) 97) true logger0 = None
  /\ fallback_syslog2_ 3 (bytes "f") (replicate (Z.to_nat 4096) 97) 1 [] true logger0 = None.
Proof. split_and!; vm_compute; reflexivity. Qed.

(** The fallback writes one line of at most 4095 bytes: all of it, with its
    newline, when it fits, and its first 4095 bytes otherwise. *)
Theorem fallback_writes pri func file line text nl s :
  int_min <= pri <= int_max -> int_min <= line <= int_max -> zlen func + zlen file <= 4060 ->
  let header := bytes "[" ++ percent_d pri ++ bytes "] " ++ file ++ bytes ":" ++ percent_d line ++ bytes " " ++ func ++ bytes ": " in
  fallback_syslog2_ pri func file line text nl s = emit (Write (take (Z.to_nat 4095) (header ++ text ++ newline nl))) s.
Proof.
  intros H1 H2 H3 header. pose proof (percent_d_length _ H1) as P1. pose proof (percent_d_length _ H2) as P2.
  assert (zlen header <= 4089) as Hh.
  { unfold header. rewrite !zlen_app. change (zlen (bytes "[")) with 1. change (zlen (bytes "] ")) with 2. change (zlen (bytes ":")) with 1.
    change (zlen (bytes " ")) with 1. change (zlen (bytes ": ")) with 2. lia. }
  unfold fallback_syslog2_. fold header. cbv zeta. rewrite (proj2 (Z.ltb_ge 4096 _)), (snprintf_fits 4096 header) by lia.
  pose proof (zlen_nonneg header). pose proof (zlen_nonneg text). do 2 f_equal.
  destruct (Z.leb_spec 4096 (zlen header + zlen text)).
  - change (4096 - 1 <? 4096 - 1) with false. rewrite andb_false_r. cbn [newline]. rewrite app_nil_r. unfold snprintf, zlen in *.
    rewrite (take_app_ge header), (take_app_ge header) by lia. f_equal. rewrite take_app_le by lia. rewrite take_ge; [f_equal; lia|].
    rewrite length_take. lia.
  - rewrite (snprintf_fits _ text) by lia. destruct nl; cbn [andb newline].
    + destruct (Z.ltb_spec (zlen header + zlen text) (4096 - 1)); cbn [newline].
      * rewrite <- app_assoc. rewrite !take_ge; [done|..]; unfold zlen in *; rewrite !length_app; cbn [length]; lia.
      * rewrite app_nil_r, app_assoc, (take_app_le (header ++ text)) by (unfold zlen in *; rewrite length_app; lia). f_equal. lia.
    + rewrite !app_nil_r, !take_ge; [done|..]; unfold zlen in *; rewrite length_app; lia.
Qed.
