(* ===== verification/SyslogLock.v ===== *)
(** * syslog2: the lock around the standard output

    [lock_stdout], [unlock_stdout] and the [write] between them of
    [src/syslog2/syslog2.c], by any number of threads: a step relation whose
    steps are the test-and-set that succeeds, the one that fails, a piece of the
    line going out, and the release.  The [write] takes the whole line: one that
    fails or is cut short, whose result the code ignores, is not a step. *)

From S2P Require Import Prelude.

Module SyslogLock.

(** A thread in [syslog2_] or [syslog2_printf_] from [lock_stdout] on. *)
Inductive phase := Spinning | Writing (rest : list Z) | Left.

(** The flag [stdout_lock], the line and phase of each thread, the output. *)
Record shared := Sh { stdout_lock : bool; threads : list (list Z * phase); output : list Z }.

Inductive step : shared -> shared -> Prop :=
  | step_test_and_set t1 t2 l out :
      step (Sh false (t1 ++ (l, Spinning) :: t2) out) (Sh true (t1 ++ (l, Writing l) :: t2) out)
  | step_spin t1 t2 l out :
      step (Sh true (t1 ++ (l, Spinning) :: t2) out) (Sh true (t1 ++ (l, Spinning) :: t2) out)
  | step_write k t1 t2 l a b out :
      a <> [] -> step (Sh k (t1 ++ (l, Writing (a ++ b)) :: t2) out) (Sh k (t1 ++ (l, Writing b) :: t2) (out ++ a))
  | step_clear k t1 t2 l out :
      step (Sh k (t1 ++ (l, Writing []) :: t2) out) (Sh false (t1 ++ (l, Left) :: t2) out).

Definition all_left (s : shared) : Prop := Forall (fun t => snd t = Left) (threads s).

(** Every thread about to take the lock. *)
Definition start (lines : list (list Z)) : shared := Sh false ((fun l => (l, Spinning)) <$> lines) [].

End SyslogLock.
Import SyslogLock.

(** The line of a thread that has left. *)
Definition left_line (t : list Z * phase) : option (list Z) := if snd t is Left then Some (fst t) else None.
Definition quiet_thread (t : list Z * phase) : Prop := forall r, snd t <> Writing r.

(** One thread writes: [a] of its line is out and [b] is to come. *)
Definition writer (ts : list (list Z * phase)) (a : list Z) : Prop :=
  exists t1 t2 b, ts = t1 ++ (a ++ b, Writing b) :: t2 /\ Forall quiet_thread t1 /\ Forall quiet_thread t2.

(** The lines of the threads that have left are out, each in one piece, and the
    lock is held by the one thread that writes. *)
Definition lock_inv (lines : list (list Z)) (s : shared) : Prop :=
  fst <$> threads s = lines /\
  exists fin, fin ≡ₚ omap left_line (threads s) /\
    if stdout_lock s then exists a, writer (threads s) a /\ output s = concat fin ++ a
    else Forall quiet_thread (threads s) /\ output s = concat fin.

Lemma not_quiet l r : ~ quiet_thread (l, Writing r).
Proof. intros H. by apply (H r). Qed.

(** There is one way to point at the only thread that writes. *)
Lemma split_unique t1 t2 b1 b2 l r l' r' :
  t1 ++ (l, Writing r) :: t2 = b1 ++ (l', Writing r') :: b2 -> Forall quiet_thread b1 -> Forall quiet_thread b2 ->
  t1 = b1 /\ l = l' /\ r = r' /\ t2 = b2.
Proof.
  revert b1. induction t1 as [|x t1 IH]; intros [|y b1] E B1 B2; cbn in E.
  - by injection E as -> -> ->.
  - injection E as <- E. apply Forall_cons in B1 as [Hq _]. by apply not_quiet in Hq.
  - injection E as -> E. rewrite <- E, Forall_app, Forall_cons in B2. destruct B2 as (_ & Hq & _). by apply not_quiet in Hq.
  - injection E as -> E. apply Forall_cons in B1 as [_ B1]. destruct (IH b1 E B1 B2) as (-> & -> & -> & ->). done.
Qed.

Lemma writer_is t1 t2 l r a :
  writer (t1 ++ (l, Writing r) :: t2) a -> l = a ++ r /\ Forall quiet_thread t1 /\ Forall quiet_thread t2.
Proof.
  intros (b1 & b2 & b & E & B1 & B2). destruct (split_unique _ _ _ _ _ _ _ _ E B1 B2) as (-> & -> & -> & ->). done.
Qed.

Lemma quiet_split t1 x t2 : Forall quiet_thread (t1 ++ x :: t2) <-> Forall quiet_thread t1 /\ quiet_thread x /\ Forall quiet_thread t2.
Proof. by rewrite Forall_app, Forall_cons. Qed.

Lemma left_split t1 x t2 : omap left_line (t1 ++ x :: t2) = omap left_line t1 ++ option_list (left_line x) ++ omap left_line t2.
Proof. rewrite omap_app. f_equal. cbn [omap list_omap]. by destruct (left_line x). Qed.

Lemma step_inv lines s s' : step s s' -> lock_inv lines s -> lock_inv lines s'.
Proof.
  intros H [L (fin & P & I)]. destruct H as [t1 t2 l out|t1 t2 l out|k t1 t2 l a b out Ha|k t1 t2 l out]; cbn in *.
  - split; cbn; [by rewrite <- L, !fmap_app|]. destruct I as [Q ->]. apply quiet_split in Q as (Q1 & _ & Q2).
    exists fin. split; [by rewrite left_split in *|]. exists []. split; [exists t1, t2, l; by split_and!|by rewrite app_nil_r].
  - split; [done|]. by exists fin.
  - split; cbn; [by rewrite <- L, !fmap_app|]. destruct k; [|destruct I as [Q _]; apply quiet_split in Q as (_ & Q & _); by apply not_quiet in Q].
    destruct I as (c & W & ->). apply writer_is in W as (-> & Q1 & Q2). exists fin. split; [by rewrite left_split in *|].
    exists (c ++ a). split; [|by rewrite app_assoc]. exists t1, t2, b. rewrite <- app_assoc. by split_and!.
  - split; cbn; [by rewrite <- L, !fmap_app|]. destruct k; [|destruct I as [Q _]; apply quiet_split in Q as (_ & Q & _); by apply not_quiet in Q].
    destruct I as (c & W & ->). apply writer_is in W as (-> & Q1 & Q2). rewrite app_nil_r.
    exists (fin ++ [c]). split; [|split].
    + rewrite left_split in *. cbn in *. rewrite P, <- Permutation_cons_append. apply Permutation_middle.
    + apply quiet_split. split_and!; [done| |done]. by intros r.
    + rewrite concat_app. cbn. by rewrite app_nil_r.
Qed.

Lemma start_inv lines : lock_inv lines (start lines).
Proof.
  split; cbn.
  - rewrite <- list_fmap_compose. by apply list_fmap_id.
  - exists []. split.
    + induction lines as [|l lines IH]; [done|]. exact IH.
    + split; [|done]. apply Forall_fmap, Forall_true. by intros l r.
Qed.

Lemma reachable_inv lines s : rtc step (start lines) s -> lock_inv lines s.
Proof.
  intros H. pose proof (start_inv lines) as I. revert I. induction H as [|s1 s2 s3 Hs _ IH]; [done|]. intros I. by eapply IH, step_inv.
Qed.

(** ** Progress *)

Definition weight (t : list Z * phase) : nat :=
  match snd t with Spinning => 2 + length (fst t) | Writing r => 1 + length r | Left => 0 end.
Definition total (ts : list (list Z * phase)) : nat := sum_list_with weight ts.

Lemma total_split t1 x t2 : total (t1 ++ x :: t2) = (total t1 + (weight x + total t2))%nat.
Proof. unfold total. by rewrite sum_list_with_app. Qed.

(** A thread that has not left. *)
Lemma unfinished (ts : list (list Z * phase)) : Forall (fun t => snd t = Left) ts \/ exists t1 l p t2, ts = t1 ++ (l, p) :: t2 /\ p <> Left.
Proof.
  induction ts as [|[l p] ts [IH|(t1 & l' & p' & t2 & -> & Hp)]]; [by left| |].
  - assert (p = Left \/ p <> Left) as [->|Hp] by (destruct p; auto); [left; by constructor|]. right. by exists [], l, p, ts.
  - right. by exists ((l, p) :: t1), l', p', t2.
Qed.

(** While a thread has not left, some step brings the end nearer. *)
Lemma progress lines s : lock_inv lines s -> all_left s \/ exists s', step s s' /\ (total (threads s') < total (threads s))%nat.
Proof.
  intros [L (fin & P & I)]. destruct s as [k ts out]. cbn in *. destruct k.
  - right. destruct I as (a & (t1 & t2 & b & -> & Q1 & Q2) & ->). destruct b as [|x b].
    + eexists. split; [apply step_clear|]. cbn. rewrite !total_split. cbn. lia.
    + eexists. split; [apply (step_write true t1 t2 _ [x] b); done|]. cbn. rewrite !total_split. cbn. lia.
  - destruct (unfinished ts) as [H|(t1 & l & p & t2 & -> & Hp)]; [by left|]. right.
    destruct I as [Q ->]. apply quiet_split in Q as (_ & Q & _). destruct p as [|r|]; [|by apply not_quiet in Q|done].
    eexists. split; [apply step_test_and_set|]. cbn. rewrite !total_split. cbn. lia.
Qed.

Lemma finishes lines s : lock_inv lines s -> exists s', rtc step s s' /\ all_left s'.
Proof.
  remember (total (threads s)) as n eqn:En. revert s En. induction (lt_wf n) as [n _ IH]. intros s -> I.
  destruct (progress _ _ I) as [H|(s1 & H1 & H2)]; [by exists s|].
  destruct (IH _ H2 s1 eq_refl (step_inv _ _ _ H1 I)) as (s2 & H3 & H4). exists s2. split; [|done]. by eapply rtc_l.
Qed.

(** C38: whatever the threads and the order of their steps, the lock keeps lines
    whole and is never lost: at every moment the output is the lines of the
    threads that have left, each in one piece and in the order they left,
    followed by a first part of the line of the one thread that holds the lock;
    from every such moment all threads can still leave, and when they have the
    output is their lines in some order and the lock is free. *)
Theorem stdout_lines_whole lines s :
  rtc step (start lines) s ->
  (exists fin a b, fin ≡ₚ omap left_line (threads s) /\ output s = concat fin ++ a /\
     (if stdout_lock s then exists t1 t2, threads s = t1 ++ (a ++ b, Writing b) :: t2 else a = [])) /\
  (exists s', rtc step s s' /\ all_left s') /\
  (all_left s -> stdout_lock s = false /\ exists fin, fin ≡ₚ lines /\ output s = concat fin).
Proof.
  intros H. pose proof (reachable_inv _ _ H) as I. split_and!.
  - destruct I as [_ (fin & P & I)]. destruct (stdout_lock s).
    + destruct I as (a & (t1 & t2 & b & E & _) & Eo). exists fin, a, b. split_and!; [done|done|]. by exists t1, t2.
    + destruct I as [_ Eo]. exists fin, [], []. by rewrite app_nil_r.
  - by eapply finishes.
  - intros Hd. destruct I as [L (fin & P & I)]. unfold all_left in Hd. destruct (stdout_lock s).
    + destruct I as (a & (t1 & t2 & b & E & _) & _). rewrite E, Forall_app, Forall_cons in Hd. by destruct Hd as (_ & Hp & _).
    + split; [done|]. exists fin. split; [|by destruct I]. rewrite P, <- L. clear -Hd.
      induction (threads s) as [|[l p] ts IH]; [done|]. apply Forall_cons in Hd as [Hp Hd]. cbn in Hp |- *. subst p. cbn. f_equiv. by apply IH.
Qed.

Lemma stdout_lines_whole_witness :
  let s := Sh true [([1; 2], Writing [2]); ([3], Spinning)] [1] in
  rtc step (start [[1; 2]; [3]]) s /\
  (exists fin a b, fin ≡ₚ omap left_line (threads s) /\ output s = concat fin ++ a /\
     (if stdout_lock s then exists t1 t2, threads s = t1 ++ (a ++ b, Writing b) :: t2 else a = [])) /\
  (exists s', rtc step s s' /\ all_left s') /\
  (all_left s -> stdout_lock s = false /\ exists fin, fin ≡ₚ [[1; 2]; [3]] /\ output s = concat fin).
Proof.
  intros s. assert (rtc step (start [[1; 2]; [3]]) s) as H.
  { eapply rtc_l; [apply (step_test_and_set [] [([3], Spinning)] [1; 2] [])|]. cbn [app].
    eapply rtc_l; [apply (step_spin [([1; 2], Writing [1; 2])] [] [3] [])|]. cbn [app].
    eapply rtc_l; [apply (step_write true [] [([3], Spinning)] [1; 2] [1] [2] []); done|]. apply rtc_refl. }
  split; [exact H|]. apply (stdout_lines_whole [[1; 2]; [3]] s H).
Defined.
