(* ===== verification/UeventLog.v ===== *)
(** * uevent: the reports of late timers

    [log_timer_delay_if_needed] of [src/uevent/uevent.c] and the macros [TINIT]
    and [TMARK] of [src/uevent/uevent.h], over the logger of
    [src/syslog2/syslog2.c]: what they find worth reporting.  The text of a
    report is left out; the clock's value is an argument. *)

From Stdlib Require Import String.
From S2P Require Import Prelude.
From S2P Require Import Uevent.
From S2P Require Import Syslog2.
Import Syslog2 (logger, logger0, syslog2_level, syslog2_get_pri, LOG_MASK, LOG_DEBUG, setup_syslog2).
#[local] Open Scope list_scope.
#[local] Open Scope Z_scope.

Module UeventLog.

Definition LOG_WARNING : Z := 4.

(** A message: its priority and the delay it gives, in milliseconds. *)
Record report := Report { r_pri : Z; r_delay : Z }.

(** [syslog2_get_pri() & LOG_MASK(LOG_DEBUG)]. *)
Definition debugging : M logger bool :=
  l ← syslog2_get_pri; m ← LOG_MASK LOG_DEBUG; mret (negb (Z.land l m =? 0)).

(** The difference of two [int64_t]; overflow is undefined. *)
Definition diff64 (a b : Z) : M logger Z :=
  let d := s64 a - s64 b in
  if (- 2 ^ 63 <=? d) && (d <? 2 ^ 63) then mret d else ub.

Definition log_timer_delay_if_needed (triggered_events cron_time now_ms : Z) : M logger (option report) :=
  if negb (Uevent.has triggered_events Uevent.UEV_TIMEOUT) then mret None
  else
    diff_ms ← diff64 now_ms cron_time;
    d ← debugging;
    if (d : bool) then mret (Some (Report LOG_DEBUG diff_ms))
    else if 1000 <? diff_ms then mret (Some (Report LOG_WARNING diff_ms))
    else mret None.

(** [__t_start] and [__t_mark]. *)
Record stopwatch := Stopwatch { t_start : Z; t_mark : Z }.

Definition TINIT (clock : Z) : M logger stopwatch :=
  d ← debugging;
  if negb d then mret (Stopwatch 0 0) else mret (Stopwatch clock clock).

Definition TMARK (thr_ms clock : Z) (w : stopwatch) : M logger (option report * stopwatch) :=
  d ← debugging;
  if negb d then mret (None, w)
  else
    let t_diff := u64 (clock - t_mark w) in
    mret (if (thr_ms =? 0) || (u64 thr_ms <? t_diff) then Some (Report LOG_DEBUG t_diff) else None,
          Stopwatch (t_start w) clock).

End UeventLog.
Import UeventLog.

Lemma debugging_never (s : logger) : 0 <= syslog2_level s <= 7 -> debugging s = Some (false, s).
Proof.
  destruct s as [o l ls k es]. cbn. intros Hl.
  assert (l = 0 \/ l = 1 \/ l = 2 \/ l = 3 \/ l = 4 \/ l = 5 \/ l = 6 \/ l = 7) as H by lia.
  by repeat destruct H as [->|H]; subst; vm_compute.
Qed.

(** a timer that fired more than a second late is reported with its delay, no
    other; whatever priority the logger was set up with, [LOG_DEBUG] included,
    the tests for debugging are false, since they compare the number of the
    priority with a mask: no debug report is made and no stopwatch runs. *)
Theorem late_timers_reported (s : logger) trig cron now thr clock w :
  0 <= syslog2_level s <= 7 -> 0 <= now < 2 ^ 63 -> 0 <= cron < 2 ^ 63 ->
  log_timer_delay_if_needed trig cron now s =
    Some (if Uevent.has trig Uevent.UEV_TIMEOUT && (1000 <? now - cron)
          then Some (Report LOG_WARNING (now - cron)) else None, s) /\
  TINIT clock s = Some (Stopwatch 0 0, s) /\ TMARK thr clock w s = Some ((None, w), s).
Proof.
  intros Hl Hn Hc. pose proof (debugging_never s Hl) as Hd. split_and!.
  - unfold log_timer_delay_if_needed. destruct (Uevent.has _ _); [|done]. cbn [negb andb].
    unfold diff64. rewrite !swrap_small by lia.
    replace ((- 2 ^ 63 <=? now - cron) && (now - cron <? 2 ^ 63)) with true by lia.
    rewrite (bind_run _ _ _ (now - cron) s) by done. rewrite (bind_run _ _ _ _ _ Hd).
    by destruct (1000 <? now - cron).
  - unfold TINIT. by rewrite (bind_run _ _ _ _ _ Hd).
  - unfold TMARK. by rewrite (bind_run _ _ _ _ _ Hd).
Qed.

(** At the level [LOG_DEBUG], a timer due at 1000 that fires at 3500. *)
Lemma late_timers_reported_witness :
  exists s, setup_syslog2 None LOG_DEBUG false logger0 = Some (tt, s) /\
  log_timer_delay_if_needed 16 1000 3500 s = Some (Some (Report LOG_WARNING 2500), s) /\
  TINIT 3500 s = Some (Stopwatch 0 0, s) /\ TMARK 0 3500 (Stopwatch 0 0) s = Some ((None, Stopwatch 0 0), s).
Proof.
  eexists. split; [vm_compute; reflexivity|].
  apply (late_timers_reported _ 16 1000 3500 0 3500 (Stopwatch 0 0)); [cbn|lia|lia].
  split; vm_compute; discriminate.
Defined.
