(* ===== verification/KHash.v ===== *)
(** * hashtable-linux-kernel: hash functions and logarithms

    Models [src/hashtable-linux-kernel/hash.h] (its first half: the second one
    is behind the same include guard), [log2.h] and [calc_bkt] of [hashtable.h],
    on a 64-bit little endian host.  A string is the list of its bytes; reading
    beyond it, a shift by the width or more and signed overflow are undefined. *)

From S2P Require Import Prelude.

Module KHash.

Definition GOLDEN_RATIO_PRIME_32 : Z := 0x9e370001.
Definition GOLDEN_RATIO_PRIME_64 : Z := 0x9e37fffffffc0001.

Section hash.
Context {S : Type}.

(** [x >> n] of a [w]-bit unsigned number. *)
Definition shr (w x n : Z) : M S Z := if (0 <=? n) && (n <? w) then mret (Z.shiftr x n) else ub.

Definition hash_64 (val bits : Z) : M S Z :=
  let hash := val in
  let n := hash in
  let n := u64 (Z.shiftl n 18) in
  let hash := u64 (hash - n) in
  let n := u64 (Z.shiftl n 33) in
  let hash := u64 (hash - n) in
  let n := u64 (Z.shiftl n 3) in
  let hash := u64 (hash + n) in
  let n := u64 (Z.shiftl n 3) in
  let hash := u64 (hash - n) in
  let n := u64 (Z.shiftl n 4) in
  let hash := u64 (hash + n) in
  let n := u64 (Z.shiftl n 2) in
  let hash := u64 (hash + n) in
  shr 64 hash (u32 (64 - bits)).

Definition hash_32 (val bits : Z) : M S Z :=
  let hash := u32 (u64 (val * GOLDEN_RATIO_PRIME_32)) in
  shr 32 hash (u32 (32 - bits)).

Definition hash_ptr (ptr bits : Z) : M S Z := hash_64 ptr bits.

Definition hash32_ptr (ptr : Z) : Z := u32 (Z.lxor ptr (Z.shiftr ptr 32)).

(** [x << n] of an [int]. *)
Definition shl_int (x n : Z) : M S Z := if 0 <=? x then cint (x * 2 ^ n) else ub.

Definition byte_at (str : list Z) (p : Z) : M S Z := of_option (znth str p).
Definition char_at (str : list Z) (p : Z) : M S Z := b ← byte_at str p; mret (swrap 8 b).

Definition jenkins_step (hash b : Z) : M S Z :=
  hash ← cint (hash + b);
  t ← shl_int hash 10;
  hash ← cint (hash + t);
  mret (Z.lxor hash (Z.shiftr hash 6)).

Fixpoint jenkins_loop (n : nat) (key : list Z) (i hash : Z) : M S Z :=
  match n with
  | O => mret hash
  | Datatypes.S n => b ← byte_at key i; hash ← jenkins_step hash b; jenkins_loop n key (i + 1) hash
  end.

Definition hash_jenkins (key : list Z) (len : Z) : M S Z :=
  hash ← jenkins_loop (Z.to_nat len) key 0 0;
  t ← shl_int hash 3;
  hash ← cint (hash + t);
  let hash := Z.lxor hash (Z.shiftr hash 11) in
  t ← shl_int hash 15;
  cint (hash + t).

(** [hash = ((hash << 5) + hash) + *str++] *)
Definition time33_step (str : list Z) (h : Z * Z) : M S (Z * Z) :=
  let (hash, p) := h in
  t ← shl_int hash 5;
  t ← cint (t + hash);
  c ← char_at str p;
  hash ← cint (t + c);
  mret (hash, p + 1).

(** The loop unrolled eight times. *)
Fixpoint time33_loop (fuel : nat) (str : list Z) (h : Z * Z) (len : Z) : M S (Z * Z * Z) :=
  match fuel with
  | O => ub
  | Datatypes.S fuel =>
      if 8 <=? len then
        h ← time33_step str h; h ← time33_step str h; h ← time33_step str h; h ← time33_step str h;
        h ← time33_step str h; h ← time33_step str h; h ← time33_step str h; h ← time33_step str h;
        time33_loop fuel str h (len - 8)
      else mret (h, len)
  end.

(** The [switch]: every case falls through to the next. *)
Definition time33_switch (str : list Z) (h : Z * Z) (len : Z) : M S (Z * Z) :=
  h ← (if len =? 7 then time33_step str h else mret h);
  h ← (if (6 <=? len) && (len <=? 7) then time33_step str h else mret h);
  h ← (if (5 <=? len) && (len <=? 7) then time33_step str h else mret h);
  h ← (if (4 <=? len) && (len <=? 7) then time33_step str h else mret h);
  h ← (if (3 <=? len) && (len <=? 7) then time33_step str h else mret h);
  h ← (if (2 <=? len) && (len <=? 7) then time33_step str h else mret h);
  if (1 <=? len) && (len <=? 7) then time33_step str h else mret h.

Definition hash_time33 (fuel : nat) (str : list Z) (len : Z) : M S Z :=
  r ← time33_loop fuel str (5381, 0) len;
  h ← time33_switch str (fst r) (snd r);
  mret (fst h).

(** [0x811C9DC5] converted to [int]. *)
Definition fnv_prime : Z := s32 0x811C9DC5.

Fixpoint fnv_loop (n : nat) (str : list Z) (i hash : Z) : M S Z :=
  match n with
  | O => mret hash
  | Datatypes.S n =>
      hash ← cint (hash * fnv_prime);
      c ← char_at str i;
      fnv_loop n str (i + 1) (Z.lxor hash c)
  end.

Definition hash_fnv (str : list Z) (len : Z) : M S Z := fnv_loop (Z.to_nat len) str 0 0.

(** The little endian number at [p]. *)
Fixpoint load (n : nat) (str : list Z) (p : Z) : M S Z :=
  match n with
  | O => mret 0
  | Datatypes.S n => b ← byte_at str p; r ← load n str (p + 1); mret (b + 256 * r)
  end.

Fixpoint str_loop (fuel : nat) (str : list Z) (p len hash : Z) : M S Z :=
  match fuel with
  | O => ub
  | Datatypes.S fuel =>
      if 0 <? len then
        if 8 <=? len then value ← load 8 str p; str_loop fuel str (p + 8) (len - 8) (u64 (hash + value))
        else if 4 <=? len then value ← load 4 str p; str_loop fuel str (p + 4) (len - 4) (u64 (hash + value))
        else value ← load 1 str p; str_loop fuel str (p + 1) (len - 1) (u64 (hash + value))
      else mret hash
  end.

Definition hash_str (fuel : nat) (str : list Z) (len bits : Z) : M S Z :=
  hash ← str_loop fuel str 0 len 0;
  if bits <=? 32 then hash_32 (u32 hash) bits else hash_64 hash bits.

Definition hash64_str (fuel : nat) (str : list Z) (len : Z) : M S Z := hash_str fuel str len 64.
Definition hash32_str (fuel : nat) (str : list Z) (len : Z) : M S Z := hash_str fuel str len 32.

End hash.

Definition calc_bkt (num divisor : Z) : Z := Z.land (u32 num) (u32 (divisor - 1)).

(** ** log2.h *)

(** [__builtin_clz]: the leading zeros of a non-zero 32-bit number. *)
Definition clz (x : Z) : Z := 31 - Z.log2 (u32 x).
Definition fls (x : Z) : Z := if x =? 0 then 0 else 32 - clz x.
Definition __ilog2_u32 (n : Z) : Z := fls n - 1.
(** The argument is converted to the [int] of [fls]. *)
Definition __ilog2_u64 (n : Z) : Z := fls (s32 n) - 1.
Definition is_power_of_2 (n : Z) : bool := negb (n =? 0) && (Z.land n (n - 1) =? 0).

(** The macro for a constant tests the bits from 63 down; [____ilog2_NaN] has no
    definition. *)
Fixpoint ilog2_bits {S} (k : nat) (n : Z) : M S Z :=
  if negb (Z.land n (Z.shiftl 1 (Z.of_nat k)) =? 0) then mret (Z.of_nat k)
  else match k with O => ub | Datatypes.S k => ilog2_bits k n end.

(** [constant]: what [__builtin_constant_p] says; [n] is an unsigned number of
    [sizeof_n] bytes. *)
Definition ilog2 {S} (constant : bool) (sizeof_n n : Z) : M S Z :=
  if constant then if n <? 1 then ub else ilog2_bits 63 n
  else if sizeof_n <=? 4 then mret (__ilog2_u32 (s32 n)) else mret (__ilog2_u64 n).

(** [1UL << n] *)
Definition one_shl_ul {S} (n : Z) : M S Z := if (0 <=? n) && (n <? 64) then mret (Z.shiftl 1 n) else ub.

(** Of constants of type [unsigned long]; for other arguments the macros name
    functions nobody defines. *)
Definition roundup_pow_of_two {S} (n : Z) : M S Z :=
  if n =? 1 then mret 1 else k ← ilog2 true 8 (u64 (n - 1)); one_shl_ul (k + 1).
Definition rounddown_pow_of_two {S} (n : Z) : M S Z := k ← ilog2 true 8 n; one_shl_ul k.
Definition order_base_2 {S} (n : Z) : M S Z := r ← roundup_pow_of_two n; ilog2 true 8 r.

End KHash.
Import KHash.
