(* ===== verification/KHashSpec.v ===== *)
(** * hashtable-linux-kernel: what the hash functions compute *)

From S2P Require Import Prelude KHash.
Import KHash.

(** ** The 64-bit hash *)

(** Congruence modulo 2^64, to rewrite with. *)
#[local] Existing Instances eqm_setoid Zplus_eqm Zminus_eqm Zmult_eqm.

Lemma eqm_u64 x : eqm (2 ^ 64) (u64 x) x.
Proof. apply Zmod_eqm. Qed.

Lemma u64_eqm x y : eqm (2 ^ 64) x y -> u64 x = u64 y.
Proof. done. Qed.

Lemma shr_run {S} w x k (s : S) : 0 <= k < w -> shr w x k s = Some (Z.shiftr x k, s).
Proof. intros H. unfold shr. destruct (Z.leb_spec 0 k), (Z.ltb_spec k w); [done|lia..]. Qed.

(** The high bits of a [w]-bit number. *)
Lemma high_bits w x bits : 0 <= bits <= w -> 0 <= x < 2 ^ w -> 0 <= Z.shiftr x (w - bits) < 2 ^ bits.
Proof.
  intros Hb Hx. rewrite Z.shiftr_div_pow2 by lia. split; [apply Z.div_pos; lia|].
  apply Z.div_lt_upper_bound; [lia|]. rewrite <- Z.pow_add_r by lia.
  replace (w - bits + bits) with w by lia. lia.
Qed.

(** C40: The prime is the one of the comment, and the shifts and additions multiply
    by it: for every 64-bit number and every number of bits from 1 to 64,
    [hash_64] is defined, is the high bits of the product modulo 2^64, and is
    below 2^bits. *)
Theorem hash_64_multiplies {S} val bits (s : S) :
  0 <= val < 2 ^ 64 -> 1 <= bits <= 64 ->
  GOLDEN_RATIO_PRIME_64 = 2 ^ 63 + 2 ^ 61 - 2 ^ 57 + 2 ^ 54 - 2 ^ 51 - 2 ^ 18 + 1 /\
  exists h, hash_64 val bits s = Some (h, s) /\ 0 <= h < 2 ^ bits /\
    h = Z.shiftr (u64 (val * GOLDEN_RATIO_PRIME_64)) (64 - bits).
Proof.
  intros Hv Hb. split; [done|]. exists (Z.shiftr (u64 (val * GOLDEN_RATIO_PRIME_64)) (64 - bits)).
  split_and!; [|by apply high_bits; [lia|apply wrap_range]..|done].
  unfold hash_64. replace (u32 (64 - bits)) with (64 - bits) by (symmetry; apply wrap_small; lia).
  rewrite shr_run by lia. apply (f_equal (fun x => Some (Z.shiftr x (64 - bits), s))).
  rewrite !Z.shiftl_mul_pow2 by lia. apply u64_eqm. repeat setoid_rewrite eqm_u64.
  apply (f_equal (fun x => x mod 2 ^ 64)). unfold GOLDEN_RATIO_PRIME_64. lia.
Qed.

Lemma hash_64_multiplies_witness :
  GOLDEN_RATIO_PRIME_64 = 2 ^ 63 + 2 ^ 61 - 2 ^ 57 + 2 ^ 54 - 2 ^ 51 - 2 ^ 18 + 1 /\
  exists h, hash_64 12345 10 tt = Some (h, tt) /\ 0 <= h < 2 ^ 10 /\
    h = Z.shiftr (u64 (12345 * GOLDEN_RATIO_PRIME_64)) (64 - 10).
Proof. apply (hash_64_multiplies 12345 10 tt); lia. Defined.

(** ** The hash of a string *)

(** The value of a byte depends on its place in its chunk: eight bytes while
    there are eight, then four, then single bytes. *)
Definition place (n i : Z) : Z := if i <? n / 8 * 8 then i mod 8 else if i <? n / 4 * 4 then i mod 4 else 0.

Fixpoint chunk_sum (str : list Z) (n : Z) (k : nat) : Z :=
  match k with
  | O => 0
  | Datatypes.S k => chunk_sum str n k + v8 str (Z.of_nat k) * 256 ^ place n (Z.of_nat k)
  end.

Lemma byte_at_run {S} str p (s : S) : 0 <= p < zlen str -> byte_at str p s = Some (v8 str p, s).
Proof. intros H. by apply of_option_run, znth_v8. Qed.

Lemma load_value {S} n str p (s : S) len k :
  0 <= p -> p + Z.of_nat n <= zlen str -> Z.to_nat p = k ->
  (forall i, 0 <= i < Z.of_nat n -> place len (p + i) = i) ->
  exists v, load n str p s = Some (v, s) /\ chunk_sum str len (n + k) = chunk_sum str len k + v.
Proof.
  intros Hp Hl <- Hpl.
  assert (forall j, (j <= n)%nat -> exists v, load j str (p + Z.of_nat (n - j)) s = Some (v, s) /\
    chunk_sum str len (n + Z.to_nat p) = chunk_sum str len (n - j + Z.to_nat p) + v * 256 ^ Z.of_nat (n - j)) as H.
  - induction j as [|j IH]; intros Hj.
    + exists 0. split; [done|]. rewrite Nat.sub_0_r. lia.
    + destruct IH as (v & E & Hs); [lia|]. exists (v8 str (p + Z.of_nat (n - Datatypes.S j)) + 256 * v). split.
      * cbn [load]. erewrite bind_run by (apply byte_at_run; lia).
        replace (p + Z.of_nat (n - Datatypes.S j) + 1) with (p + Z.of_nat (n - j)) by lia.
        by rewrite (bind_run _ _ _ _ _ E).
      * rewrite Hs. replace (n - j)%nat with (Datatypes.S (n - Datatypes.S j)) by lia. cbn [Nat.add chunk_sum].
        replace (Z.of_nat (n - Datatypes.S j + Z.to_nat p)) with (p + Z.of_nat (n - Datatypes.S j)) by lia.
        rewrite Hpl by lia. rewrite Nat2Z.inj_succ, Z.pow_succ_r by lia. lia.
  - destruct (H n) as (v & E & Hs); [lia|]. exists v. rewrite Nat.sub_diag in E, Hs. cbn in Hs. rewrite Z.add_0_r in E.
    split; [done|]. lia.
Qed.

Definition at_chunk (n p : Z) : Prop :=
  0 <= p <= n /\ (p mod 8 = 0 \/ p mod 4 = 0 /\ n / 8 * 8 <= p \/ n / 4 * 4 <= p).

Lemma place_chunk n p : at_chunk n p -> 
  (8 <= n - p -> at_chunk n (p + 8) /\ forall i, 0 <= i < 8 -> place n (p + i) = i) /\
  (4 <= n - p < 8 -> at_chunk n (p + 4) /\ forall i, 0 <= i < 4 -> place n (p + i) = i) /\
  (1 <= n - p < 4 -> at_chunk n (p + 1) /\ forall i, 0 <= i < 1 -> place n (p + i) = i).
Proof.
  unfold at_chunk, place. intros [H1 H2]. split_and!; intros H; (split; [div_lia|]); intros i Hi;
    destruct (Z.ltb_spec (p + i) (n / 8 * 8)), (Z.ltb_spec (p + i) (n / 4 * 4)); div_lia.
Qed.

Lemma str_loop_run {S} fuel str n p (s : S) :
  at_chunk n p -> n <= zlen str -> (Z.to_nat (n - p) < fuel)%nat ->
  str_loop fuel str p (n - p) (u64 (chunk_sum str n (Z.to_nat p))) s = Some (u64 (chunk_sum str n (Z.to_nat n)), s).
Proof.
  intros Hc Hl. revert p Hc. induction fuel as [|fuel IH]; intros p Hc Hf; [lia|]. cbn [str_loop].
  destruct (place_chunk n p Hc) as (P8 & P4 & P1). pose proof Hc as [Hp _].
  assert (forall m v, chunk_sum str n (m + Z.to_nat p) = chunk_sum str n (Z.to_nat p) + v ->
    u64 (u64 (chunk_sum str n (Z.to_nat p)) + v) = u64 (chunk_sum str n (Z.to_nat (p + Z.of_nat m)))) as Hadd.
  { intros m v E. replace (Z.to_nat (p + Z.of_nat m)) with (m + Z.to_nat p)%nat by lia. rewrite E.
    unfold wrap. by rewrite Zplus_mod_idemp_l. }
  destruct (Z.ltb_spec 0 (n - p)); [|by replace p with n by lia].
  destruct (Z.leb_spec 8 (n - p)); [|destruct (Z.leb_spec 4 (n - p))].
  1: destruct (P8 ltac:(lia)) as [Hc' Hpl]; destruct (load_value 8 str p s n _ ltac:(lia) ltac:(lia) eq_refl Hpl) as (v & E & Hs).
  2: destruct (P4 ltac:(lia)) as [Hc' Hpl]; destruct (load_value 4 str p s n _ ltac:(lia) ltac:(lia) eq_refl Hpl) as (v & E & Hs).
  3: destruct (P1 ltac:(lia)) as [Hc' Hpl]; destruct (load_value 1 str p s n _ ltac:(lia) ltac:(lia) eq_refl Hpl) as (v & E & Hs).
  all: rewrite (bind_run _ _ _ _ _ E), (Hadd _ _ Hs), <- Z.sub_add_distr; cbn [Z.of_nat]; apply IH; [done|lia].
Qed.

(** The multiplier is odd, so it has an inverse modulo 2^32. *)
Lemma golden_32_injective x y : 0 <= x < 2 ^ 32 -> 0 <= y < 2 ^ 32 ->
  u32 (x * GOLDEN_RATIO_PRIME_32) = u32 (y * GOLDEN_RATIO_PRIME_32) -> x = y.
Proof.
  intros Hx Hy H.
  assert (forall z, 0 <= z < 2 ^ 32 -> u32 (u32 (z * GOLDEN_RATIO_PRIME_32) * 0x61c90001) = z) as Hinv.
  { intros z Hz. unfold wrap, GOLDEN_RATIO_PRIME_32. rewrite Zmult_mod_idemp_l, <- Z.mul_assoc, <- Zmult_mod_idemp_r.
    replace ((2654404609 * 0x61c90001) mod 2 ^ 32) with 1 by reflexivity. rewrite Z.mul_1_r. by apply Z.mod_small. }
  rewrite <- (Hinv x), <- (Hinv y) by done. by rewrite H.
Qed.

Lemma u32_u64 z : u32 (u64 z) = u32 z.
Proof. unfold wrap. apply Z.mod_mod_divide. by exists (2 ^ 32). Qed.

Lemma hash_32_run {S} val bits (s : S) : 1 <= bits <= 32 ->
  hash_32 val bits s = Some (Z.shiftr (u32 (val * GOLDEN_RATIO_PRIME_32)) (32 - bits), s).
Proof.
  intros Hb. unfold hash_32. replace (u32 (32 - bits)) with (32 - bits) by (symmetry; apply wrap_small; lia).
  by rewrite shr_run, u32_u64 by lia.
Qed.

Definition str_sum (str : list Z) (len : Z) : Z := u32 (chunk_sum str len (Z.to_nat len)).

Lemma hash_str_run {S} fuel str len bits (s : S) :
  0 <= len <= zlen str -> 1 <= bits <= 32 -> (Z.to_nat len < fuel)%nat ->
  hash_str fuel str len bits s = Some (Z.shiftr (u32 (str_sum str len * GOLDEN_RATIO_PRIME_32)) (32 - bits), s).
Proof.
  intros Hl Hb Hf. unfold hash_str.
  assert (str_loop fuel str 0 len 0 s = Some (u64 (chunk_sum str len (Z.to_nat len)), s)) as E.
  { pose proof (str_loop_run fuel str len 0 s) as E. rewrite Z.sub_0_r in E. apply E; [|lia|lia].
    split; [lia|]. by left. }
  rewrite (bind_run _ _ _ _ _ E). destruct (Z.leb_spec bits 32); [|lia]. rewrite hash_32_run by done.
  by rewrite u32_u64.
Qed.

(** For every key of any length, [hash_str] reads each of its bytes and nothing
    beyond, ends, and gives a number below 2^bits; with all 32 bits, two keys
    have the same hash exactly when the sums of their chunks agree modulo 2^32:
    the multiplication adds no collision. *)
Theorem hash_str_collisions {S} fuel a b la lb bits (s : S) :
  0 <= la <= zlen a -> 0 <= lb <= zlen b -> 1 <= bits <= 32 -> (Z.to_nat la < fuel)%nat -> (Z.to_nat lb < fuel)%nat ->
  exists ha hb : Z, hash_str fuel a la bits s = Some (ha, s) /\ hash_str fuel b lb bits s = Some (hb, s) /\
    0 <= ha < 2 ^ bits /\ (bits = 32 -> (ha = hb <-> str_sum a la = str_sum b lb)).
Proof.
  intros Ha Hb Hbits Fa Fb. eexists _, _. split_and!; [by apply hash_str_run|by apply hash_str_run|..].
  - by apply high_bits; [lia|apply wrap_range].
  - by apply high_bits; [lia|apply wrap_range].
  - intros ->. rewrite !Z.shiftr_0_r. split; [|by intros ->]. apply golden_32_injective; by apply wrap_range.
Qed.

Lemma hash_str_collisions_witness :
  exists ha hb, hash_str 20 [1; 2; 3; 4; 5; 6; 7; 8; 9] 9 32 tt = Some (ha, tt) /\
    hash_str 20 [10; 2; 3; 4; 5; 6; 7; 8; 0] 9 32 tt = Some (hb, tt) /\
    0 <= ha < 2 ^ 32 /\ (32 = 32 -> (ha = hb <-> str_sum [1; 2; 3; 4; 5; 6; 7; 8; 9] 9 = str_sum [10; 2; 3; 4; 5; 6; 7; 8; 0] 9)).
Proof. apply (hash_str_collisions 20 _ _ 9 9 32 tt); [split; vm_compute; discriminate..|lia|lia]. Defined.

(** ** Buckets and logarithms *)

(** With a power of two, the bucket is the remainder. *)
Lemma calc_bkt_mod num bits : 0 <= bits < 31 -> calc_bkt num (2 ^ bits) = u32 num mod 2 ^ bits.
Proof.
  intros Hb. unfold calc_bkt.
  assert (1 <= 2 ^ bits <= 2 ^ 30) by (split; [apply (Z.pow_le_mono_r 2 0); lia|apply Z.pow_le_mono_r; lia]).
  rewrite (wrap_small 32 (2 ^ bits - 1)) by lia. rewrite <- Z.land_ones by lia. by rewrite Z.ones_equiv, Z.sub_1_r.
Qed.

Lemma calc_bkt_range num bits : 0 <= bits < 31 -> 0 <= calc_bkt num (2 ^ bits) < 2 ^ bits.
Proof. intros Hb. rewrite calc_bkt_mod by done. apply Z.mod_pos_bound. lia. Qed.

(** [fls] and the 32-bit logarithm are exact; so is the test for a power of two. *)
Lemma fls_exact n : 0 < n <= int_max -> fls n = Z.log2 n + 1 /\ __ilog2_u32 n = Z.log2 n.
Proof.
  intros Hn. unfold __ilog2_u32, fls, clz, int_max in *. rewrite wrap_small by lia.
  destruct (Z.eqb_spec n 0); lia.
Qed.

Lemma land_pred_power k : 0 <= k -> Z.land (2 ^ k) (2 ^ k - 1) = 0.
Proof.
  intros Hk. rewrite Z.sub_1_r, <- Z.ones_equiv, Z.land_ones by lia. apply Z.mod_same. lia.
Qed.

Lemma is_power_of_2_exact n : 0 <= n -> is_power_of_2 n = true <-> exists k, 0 <= k /\ n = 2 ^ k.
Proof.
  intros Hn. unfold is_power_of_2. rewrite andb_true_iff, negb_true_iff, Z.eqb_neq, Z.eqb_eq. split.
  - intros [H0 H]. exists (Z.log2 n). split; [apply Z.log2_nonneg|]. pose proof (Z.log2_spec n ltac:(lia)) as [L U].
    destruct (Z.eq_dec n (2 ^ Z.log2 n)) as [|Hne]; [done|exfalso].
    assert (Z.log2 (n - 1) = Z.log2 n) as El.
    { apply Z.log2_unique; [apply Z.log2_nonneg|lia]. }
    assert (Z.testbit (Z.land n (n - 1)) (Z.log2 n) = true) as Hb; [|by rewrite H, Z.bits_0 in Hb].
    rewrite Z.land_spec, Z.bit_log2, <- El, Z.bit_log2; [done| |lia].
    pose proof (Z.pow_pos_nonneg 2 (Z.log2 n)). pose proof (Z.log2_nonneg n). lia.
  - intros (k & Hk & ->). split; [lia|by apply land_pred_power].
Qed.

Lemma land_bit n k : 0 <= k -> (Z.land n (Z.shiftl 1 k) =? 0) = negb (Z.testbit n k).
Proof.
  intros Hk. rewrite Z.shiftl_1_l. destruct (Z.testbit n k) eqn:E; cbn [negb].
  - apply Z.eqb_neq. intros H. pose proof (Z.land_spec n (2 ^ k) k) as Hb.
    rewrite H, Z.bits_0, E, Z.pow2_bits_true in Hb by lia. discriminate Hb.
  - apply Z.eqb_eq, Z.bits_inj'. intros j Hj. rewrite Z.bits_0, Z.land_spec.
    destruct (Z.eq_dec j k) as [->|Hne]; [by rewrite E|]. rewrite Z.pow2_bits_false by lia. apply andb_false_r.
Qed.

(** Testing the bits from above finds the logarithm. *)
Lemma ilog2_bits_run {S} k n (s : S) : 0 < n < 2 ^ (Z.of_nat k + 1) -> ilog2_bits k n s = Some (Z.log2 n, s).
Proof.
  induction k as [|k IH]; intros Hn; cbn [ilog2_bits]; rewrite land_bit, negb_involutive by lia.
  - assert (n = 1) as -> by lia. done.
  - destruct (Z.testbit n (Z.of_nat (Datatypes.S k))) eqn:E.
    + rewrite (Z.log2_unique n (Z.of_nat (Datatypes.S k))); [done|lia|]. split; [|apply Hn].
      destruct (Z.le_gt_cases (2 ^ Z.of_nat (Datatypes.S k)) n) as [|Hlt]; [done|].
      assert (Z.log2 n < Z.of_nat (Datatypes.S k)) by (apply Z.log2_lt_pow2; lia).
      rewrite Z.bits_above_log2 in E by lia. done.
    + apply IH. split; [lia|]. destruct (Z.le_gt_cases (2 ^ (Z.of_nat k + 1)) n) as [Hle|]; [|done]. exfalso.
      assert (Z.log2 n = Z.of_nat (Datatypes.S k)) as El.
      { apply Z.log2_unique; [lia|]. split; [|apply Hn]. by rewrite Nat2Z.inj_succ, <- Z.add_1_r. }
      pose proof (Z.bit_log2 n ltac:(lia)) as Hbit. rewrite El in Hbit. congruence.
Qed.

Lemma ilog2_constant {S} sz n (s : S) : 1 <= n < 2 ^ 64 -> ilog2 true sz n s = Some (Z.log2 n, s).
Proof. intros Hn. unfold ilog2. destruct (Z.ltb_spec n 1); [lia|]. apply ilog2_bits_run. cbn. lia. Qed.

Lemma one_shl_ul_run {S} k (s : S) : 0 <= k < 64 -> one_shl_ul k s = Some (2 ^ k, s).
Proof.
  intros H. unfold one_shl_ul. destruct (Z.leb_spec 0 k), (Z.ltb_spec k 64); [|lia..]. cbn. by rewrite Z.shiftl_1_l.
Qed.

Lemma log2_below n k : 0 <= k -> 0 < n -> n < 2 ^ k -> Z.log2 n < k.
Proof. intros. apply Z.log2_lt_pow2; lia. Qed.

(** The logarithm macros, for a number [n] from 1: [ilog2] is the logarithm
    rounded down, for every constant of 64 bits and for every variable below
    2^31; [rounddown_pow_of_two] is the greatest power of two up to [n], and, up
    to 2^63, [roundup_pow_of_two] the least one from [n] on, with its exponent
    as [order_base_2]. *)
Theorem log2_macros_exact {S} n (s : S) : 1 <= n < 2 ^ 64 ->
  ilog2 true 8 n s = Some (Z.log2 n, s) /\
  (n < 2 ^ 31 -> ilog2 false 4 n s = Some (Z.log2 n, s) /\ ilog2 false 8 n s = Some (Z.log2 n, s)) /\
  (exists k, 0 <= k /\ rounddown_pow_of_two n s = Some (2 ^ k, s) /\ 2 ^ k <= n < 2 ^ (k + 1)) /\
  (n <= 2 ^ 63 -> exists k, 0 <= k /\ roundup_pow_of_two n s = Some (2 ^ k, s) /\ order_base_2 n s = Some (k, s) /\
     n <= 2 ^ k /\ (k = 0 \/ 2 ^ (k - 1) < n)).
Proof.
  intros Hn. pose proof (Z.log2_spec n ltac:(lia)) as Hl. pose proof (Z.log2_nonneg n).
  pose proof (log2_below n 64 ltac:(lia) ltac:(lia) ltac:(lia)). split_and!.
  - by apply ilog2_constant.
  - intros H31. destruct (fls_exact n ltac:(unfold int_max; lia)) as [E1 E2]. unfold __ilog2_u32 in E2.
    unfold ilog2, __ilog2_u32, __ilog2_u64. rewrite swrap_small by lia. cbn [Z.leb Z.compare Pos.compare Pos.compare_cont]. by rewrite E2.
  - exists (Z.log2 n). unfold rounddown_pow_of_two. rewrite (bind_run _ _ _ _ _ (ilog2_constant 8 n s Hn)).
    split_and!; [done|by apply one_shl_ul_run|lia..].
  - intros H63. exists (Z.log2_up n). pose proof (Z.log2_up_nonneg n).
    assert (roundup_pow_of_two n s = Some (2 ^ Z.log2_up n, s)) as E.
    { unfold roundup_pow_of_two. destruct (Z.eqb_spec n 1) as [->|Hne]; [done|].
      rewrite wrap_small by lia. rewrite (bind_run _ _ _ _ _ (ilog2_constant 8 (n - 1) s ltac:(lia))).
      rewrite Z.log2_up_eqn, <- Z.sub_1_r, Z.add_1_r by lia. pose proof (Z.log2_nonneg (n - 1)).
      rewrite <- Z.add_1_r. pose proof (log2_below (n - 1) 63 ltac:(lia) ltac:(lia) ltac:(lia)). apply one_shl_ul_run. lia. }
    assert (Z.log2_up n <= 63) by (rewrite <- (Z.log2_up_pow2 63) by lia; by apply Z.log2_up_le_mono).
    assert (0 < 2 ^ Z.log2_up n <= 2 ^ 63) by (split; [lia|apply Z.pow_le_mono_r; lia]).
    split_and!; [done|done| |..].
    + unfold order_base_2. rewrite (bind_run _ _ _ _ _ E), ilog2_constant by lia. by rewrite Z.log2_pow2.
    + destruct (Z.eq_dec n 1) as [->|]; [done|]. apply (Z.log2_up_spec n). lia.
    + destruct (Z.eq_dec n 1) as [->|]; [by left|]. right. rewrite Z.sub_1_r. apply (Z.log2_up_spec n). lia.
Qed.

Lemma log2_macros_exact_witness :
  ilog2 true 8 1000 tt = Some (Z.log2 1000, tt) /\
  (1000 < 2 ^ 31 -> ilog2 false 4 1000 tt = Some (Z.log2 1000, tt) /\ ilog2 false 8 1000 tt = Some (Z.log2 1000, tt)) /\
  (exists k, 0 <= k /\ rounddown_pow_of_two 1000 tt = Some (2 ^ k, tt) /\ 2 ^ k <= 1000 < 2 ^ (k + 1)) /\
  (1000 <= 2 ^ 63 -> exists k, 0 <= k /\ roundup_pow_of_two 1000 tt = Some (2 ^ k, tt) /\ order_base_2 1000 tt = Some (k, tt) /\
     1000 <= 2 ^ k /\ (k = 0 \/ 2 ^ (k - 1) < 1000)).
Proof. apply (log2_macros_exact 1000 tt). lia. Defined.

(** The comment's table of [order_base_2] begins with 0 for 0, which the macro
    shifts out of the word; and it has no answer above 2^63. *)
Lemma order_base_2_undefined : order_base_2 0 tt = None /\ order_base_2 (2 ^ 63 + 1) tt = None /\ ilog2 false 8 (2 ^ 32) tt = Some (-1, tt).
Proof. by vm_compute. Qed.

(** ** The hashes over a signed [int] *)

Lemma shl_int_inv {S} x n (s s' : S) r : shl_int x n s = Some (r, s') -> 0 <= x /\ x * 2 ^ n <= int_max /\ r = x * 2 ^ n.
Proof.
  unfold shl_int, cint. destruct (Z.leb_spec 0 x); [|done].
  destruct (_ && _) eqn:E; [|done]. intros [= <- _]. lia.
Qed.

Lemma cint_inv {S} x (s s' : S) r : cint x s = Some (r, s') -> int_min <= x <= int_max /\ r = x.
Proof. unfold cint. destruct (_ && _) eqn:E; [|done]. intros [= <- _]. lia. Qed.

Lemma bind_inv {S A B} (m : M S A) (k : A -> M S B) s r : (a ← m; k a) s = Some r -> exists a s', m s = Some (a, s') /\ k a s' = Some r.
Proof. unfold mbind, M_bind. destruct (m s) as [[a s']|]; [eauto|done]. Qed.

Lemma time33_step_inv {S} str h p h' (s s' : S) :
  time33_step str (h, p) s = Some (h', s') -> exists c, -128 <= c <= 127 /\ fst h' = 33 * h + c /\ h * 32 <= int_max.
Proof.
  cbn [time33_step]. intros (t & s1 & (H1 & H2 & ->)%shl_int_inv & H)%bind_inv.
  apply bind_inv in H as (u & s2 & (_ & ->)%cint_inv & H). apply bind_inv in H as (c & s3 & Hc & H).
  apply bind_inv in H as (v & s4 & (_ & ->)%cint_inv & [= <- _]). exists c.
  apply bind_inv in Hc as (b & s5 & _ & [= <- _]). pose proof (swrap_range 8 b). cbn [fst]. lia.
Qed.

(** The fourth shift overflows whatever the characters are. *)
Lemma hash_time33_undefined {S} fuel str len (s : S) : 4 <= len -> hash_time33 fuel str len s = None.
Proof.
  intros Hl. destruct (hash_time33 fuel str len s) as [r|] eqn:E; [exfalso|done].
  assert (forall s s' p h1 h2 h3 h4 (s1 s2 s3 : S), time33_step str (5381, p) s = Some (h1, s1) -> time33_step str h1 s1 = Some (h2, s2) ->
    time33_step str h2 s2 = Some (h3, s3) -> time33_step str h3 s3 = Some (h4, s') -> False) as Hfour.
  { intros ???[][][]???? (c1 & ? & ? & ?)%time33_step_inv (c2 & ? & ? & ?)%time33_step_inv (c3 & ? & ? & ?)%time33_step_inv
      (c4 & ? & ? & ?)%time33_step_inv. cbn [fst] in *. unfold int_max in *. lia. }
  apply bind_inv in E as ([h l] & s1 & E & (h' & s2 & E' & _)%bind_inv).
  destruct fuel as [|fuel]; [done|]. cbn [time33_loop] in E. destruct (Z.leb_spec 8 len).
  - do 4 (apply bind_inv in E as (? & ? & ? & E)). eauto.
  - injection E as <- <- <-. cbn [fst snd] in E'. unfold time33_switch in E'.
    assert (len = 4 \/ len = 5 \/ len = 6 \/ len = 7) as [->|[->|[->| ->]]] by lia; cbn in E'.
    all: repeat (apply bind_inv in E' as (? & ? & ? & E')); cbv [mret M_ret] in *; simplify_eq; eauto.
Qed.

(** The 64-bit logarithm truncates its argument to an [int]; [hash_time33] is
    undefined from four characters on, and [hash_fnv] and [hash_jenkins] on
    ordinary strings: they compute with a signed [int]. *)
Lemma signed_hash_limits :
  __ilog2_u64 (2 ^ 32) = -1 /\ __ilog2_u64 (2 ^ 33 + 1) = 0 /\
  hash_time33 9 [102; 111; 111] 3 tt = Some (193491849, tt) /\ hash_time33 9 [102; 111; 111; 46] 4 tt = None /\
  hash_fnv [102; 111] 2 tt = None /\ hash_jenkins [255; 255; 255] 3 tt = None.
Proof. by vm_compute. Qed.
