(* ===== verification/LeakDetector.v ===== *)
(** * leak_detector: the list of outstanding allocations

    Models [src/leak_detector_c/leak_detector.c].  The records are nodes of a
    circular list with the static head [_head], which is all zeros until the
    first record is added; a null pointer is 0.  [heap] holds the client's
    blocks; the results of [malloc], [calloc] and [realloc] are arguments, null
    for a failure, and [malloc] of a record is a function of the state.  What
    [fwrite] writes to the report is a list of byte strings. *)

From Stdlib Require Import String.
From S2P Require Import Prelude KList DbgTracer.
Import KList DbgTracer(bytes, newline, percent_d).
#[local] Open Scope list_scope.
#[local] Open Scope Z_scope.

Module LeakDetector.

Definition FILE_NAME_LENGTH : Z := 512.

Record mem_info := Info { address : loc; size : Z; file_name : list Z; line : Z }.

Record leaks := Leaks {
  links_of : store;              (* [next] and [prev] of the head and the records *)
  infos : gmap loc mem_info;     (* [mem_info] of the records *)
  memleak_flag : bool;
  heap : gset loc;
  report : list (list Z)
}.

Definition on_links {A} (c : M store A) : M leaks A :=
  zoom links_of (fun l s => Leaks l (infos s) (memleak_flag s) (heap s) (report s)) c.
Definition get_info (e : loc) : M leaks mem_info := m ← gets infos; of_option (m !! e).
Definition set_info (e : loc) (i : mem_info) : M leaks unit :=
  _ ← get_info e; modify (fun s => Leaks (links_of s) (<[e := i]> (infos s)) (memleak_flag s) (heap s) (report s)).
Definition set_heap (h : gset loc) : M leaks unit :=
  modify (fun s => Leaks (links_of s) (infos s) (memleak_flag s) h (report s)).

(** [malloc(sizeof(MEMLEAK))] returned [e]; [free] of a record. *)
Definition new_record (e : loc) : M leaks unit :=
  modify (fun s => Leaks (<[e := LH 0 0]> (links_of s)) (<[e := Info 0 0 [] 0]> (infos s)) (memleak_flag s) (heap s) (report s)).
Definition free_record (e : loc) : M leaks unit :=
  _ ← get_info e;
  modify (fun s => Leaks (delete e (links_of s)) (delete e (infos s)) (memleak_flag s) (heap s) (report s)).

Definition __add_memleak_list (new prev next : loc) : M store unit :=
  set_prev next new;;
  set_next new next;;
  set_prev new prev;;
  set_next prev new.

Definition memleak_add_list_tail (new head : loc) : M store unit :=
  h ← get head; __add_memleak_list new (prev h) head.

Definition ht_list_add (new head : loc) : M store unit :=
  h ← get head; __add_memleak_list new head (next h).

Definition __del_memleak_list (prev next : loc) : M store unit := set_prev next prev;; set_next prev next.

Definition del_memleak_list (entry : loc) : M leaks unit :=
  on_links (e ← get entry; __del_memleak_list (prev e) (next e));;
  free_record entry.

(** The hooks are kept and never called. *)
Record mod_init_args := Args { log : option Z; get_time : option Z }.

Definition leak_detector_mod_init (args : option mod_init_args) : mod_init_args * Z :=
  match args with
  | None => (Args None None, 0)
  | Some args => (args, 0)
  end.

Section head.
Context (head : loc) (malloc : leaks -> loc).

(** The allocation is not checked; [strcpy] needs the terminator that [strncpy]
    leaves out of a long name. *)
Definition add (alloc_info : mem_info) : M leaks unit :=
  node ← gets malloc;
  if node =? 0 then ub
  else
    new_record node;;
    (if zlen (file_name alloc_info) <? FILE_NAME_LENGTH then set_info node alloc_info else ub);;
    flag ← gets memleak_flag;
    (if (flag : bool) then mret tt
     else
       on_links (set_prev head head;; set_next head head);;
       modify (fun s => Leaks (links_of s) (infos s) true (heap s) (report s)));;
    on_links (memleak_add_list_tail node head).

Fixpoint clear_loop (fuel : nat) (curr : loc) : M leaks unit :=
  match fuel with
  | O => ub
  | S fuel =>
      n ← on_links (get curr);
      if next n =? head then mret tt
      else
        let next_node := next n in
        free_record curr;;
        clear_loop fuel next_node
  end.

Definition clear (fuel : nat) : M leaks unit := clear_loop fuel head.

Definition add_mem_info (mem_ref : loc) (size : Z) (file : list Z) (line : Z) : M leaks unit :=
  add (Info mem_ref size (take (Z.to_nat FILE_NAME_LENGTH) file) line).

Fixpoint remove_loop (fuel : nat) (curr mem_ref : loc) : M leaks unit :=
  match fuel with
  | O => ub
  | S fuel =>
      n ← on_links (get curr);
      if next n =? head then mret tt
      else
        let curr := next n in
        i ← get_info curr;
        if address i =? mem_ref then del_memleak_list curr else remove_loop fuel curr mem_ref
  end.

Definition remove_mem_info (fuel : nat) (mem_ref : loc) : M leaks unit := remove_loop fuel head mem_ref.

Definition xmalloc (ptr size : Z) (file : list Z) (line : Z) : M leaks loc :=
  if ptr =? 0 then mret ptr
  else
    h ← gets heap; set_heap ({[ptr]} ∪ h);;
    add_mem_info ptr size file line;;
    mret ptr.

Definition xcalloc (ptr elements size : Z) (file : list Z) (line : Z) : M leaks loc :=
  if ptr =? 0 then mret ptr
  else
    h ← gets heap; set_heap ({[ptr]} ∪ h);;
    let total_size := u32 (elements * size) in
    add_mem_info ptr total_size file line;;
    mret ptr.

(** [realloc] frees the old block exactly when it returns a new one. *)
Definition realloc (ptr result : loc) : M leaks unit :=
  h ← gets heap;
  if negb (ptr =? 0) && negb (bool_decide (ptr ∈ h)) then ub
  else if result =? 0 then mret tt
  else set_heap ({[result]} ∪ (h ∖ {[ptr]})).

Definition xrealloc (fuel : nat) (ptr result size : Z) (file : list Z) (line : Z) : M leaks loc :=
  remove_mem_info fuel ptr;;
  realloc ptr result;;
  add_mem_info result size file line;;
  mret result.

Definition xfree (fuel : nat) (mem_ref : loc) : M leaks unit :=
  remove_mem_info fuel mem_ref;;
  h ← gets heap;
  if mem_ref =? 0 then mret tt
  else if bool_decide (mem_ref ∈ h) then set_heap (h ∖ {[mem_ref]})
  else ub.

(** [sprintf] and [fwrite(info, strlen(info) + 1, 1, fp_write)]: the terminator is written too. *)
Definition fwrite (text : list Z) : M leaks unit :=
  modify (fun s => Leaks (links_of s) (infos s) (memleak_flag s) (heap s) (report s ++ [text ++ newline ++ [0]])).

Definition rule : list Z := bytes "-----------------------------------".

Definition print_record (i : mem_info) : M leaks unit :=
  fwrite (bytes "address : " ++ percent_d (address i));;
  fwrite (bytes "size    : " ++ percent_d (size i) ++ bytes " bytes");;
  fwrite (bytes "file    : " ++ file_name i);;
  fwrite (bytes "line    : " ++ percent_d (s32 (line i)));;
  fwrite rule.

Fixpoint report_loop (fuel : nat) (curr : loc) : M leaks unit :=
  match fuel with
  | O => ub
  | S fuel =>
      n ← on_links (get curr);
      if next n =? head then mret tt
      else i ← get_info curr; print_record i;; report_loop fuel (next n)
  end.

Definition report_mem_leak (fuel : nat) (fopen : bool) : M leaks unit :=
  h ← on_links (get head);
  let curr := next h in
  (if fopen then
     fwrite (bytes "Memory Leak Summary");;
     fwrite rule;;
     report_loop fuel curr
   else mret tt);;
  clear fuel.

End head.
End LeakDetector.
