(* ===== verification/LeakDetectorSpec.v ===== *)
(** * leak_detector: what the records say

    The records are the outstanding allocations, in the order they were made; a
    [realloc] that fails leaves its block without a record.  The report is another
    matter. *)

From Stdlib Require Import String.
From S2P Require Import Prelude KList KListSpec DbgTracer LeakDetector.
Import KList DbgTracer(bytes, newline, percent_d) LeakDetector.
#[local] Open Scope list_scope.
#[local] Open Scope Z_scope.

(** ** The rules of the memory *)

Lemma wp_lk_links {A} (c : M store A) (Q : A -> leaks -> Prop) s :
  wp c (fun a l => Q a (Leaks l (infos s) (memleak_flag s) (heap s) (report s))) (links_of s) -> wp (on_links c) Q s.
Proof. intros H. by apply wp_zoom. Qed.

Lemma wp_get_info e i (Q : mem_info -> leaks -> Prop) s : infos s !! e = Some i -> Q i s -> wp (get_info e) Q s.
Proof. intros H HQ. apply wp_bind, wp_gets. rewrite H. by apply wp_ret. Qed.

Lemma wp_set_info e i j (Q : unit -> leaks -> Prop) s : infos s !! e = Some i ->
  Q tt (Leaks (links_of s) (<[e := j]> (infos s)) (memleak_flag s) (heap s) (report s)) -> wp (set_info e j) Q s.
Proof. intros H HQ. by eapply wp_bind, wp_get_info. Qed.

Lemma wp_free_record e i (Q : unit -> leaks -> Prop) s : infos s !! e = Some i ->
  Q tt (Leaks (delete e (links_of s)) (delete e (infos s)) (memleak_flag s) (heap s) (report s)) -> wp (free_record e) Q s.
Proof. intros H HQ. by eapply wp_bind, wp_get_info. Qed.

(** A block the allocator may give to a record. *)
Definition free_for (s : leaks) (node : loc) : Prop := node <> 0 /\ links_of s !! node = None /\ infos s !! node = None.

Section spec.
Context (head : loc) (malloc : leaks -> loc).
Hypothesis (malloc_free : forall s, malloc s = 0 \/ free_for s (malloc s)).

(** The allocator can refuse the memory of a record. *)
Definition refused : Prop := exists s, malloc s = 0.

(** A computation that ends well, or is undefined where a record was refused. *)
Definition may {A} (m : M leaks A) (Q : A -> leaks -> Prop) (s : leaks) : Prop :=
  match m s with Some (a, s') => Q a s' | None => refused end.

Lemma may_wp {A} (m : M leaks A) (Q : A -> leaks -> Prop) s : wp m Q s -> may m Q s.
Proof. unfold wp, may. by destruct (m s) as [[a s']|]. Qed.

Lemma may_bind {A B} (m : M leaks A) (k : A -> M leaks B) (Q : B -> leaks -> Prop) s :
  may m (fun a s' => may (k a) Q s') s -> may (m ≫= k) Q s.
Proof. unfold may, mbind, M_bind. by destruct (m s) as [[a s']|]. Qed.

Lemma may_bind_wp {A B} (m : M leaks A) (k : A -> M leaks B) (Q : B -> leaks -> Prop) s :
  wp m (fun a s' => may (k a) Q s') s -> may (m ≫= k) Q s.
Proof. intros H. by apply may_bind, may_wp. Qed.

Lemma may_mono {A} (m : M leaks A) (P Q : A -> leaks -> Prop) s :
  may m P s -> (forall a s', P a s' -> Q a s') -> may m Q s.
Proof. unfold may. destruct (m s) as [[a s']|]; auto. Qed.

(** ** The records [L], with their nodes *)

Abbreviation record := (loc * mem_info)%type.

(** Before the first record the head is all zeros, after it a list. *)
Record recorded (started : bool) (L : list record) (s : leaks) : Prop := {
  rc_flag : memleak_flag s = started;
  rc_ring : if started then ring (links_of s) head L.*1 else L = [] /\ links_of s !! head = Some (LH 0 0);
  rc_info : forall e i, (e, i) ∈ L -> infos s !! e = Some i;
  rc_head : infos s !! head = None
}.

Lemma rc_nodup started L s : recorded started L s -> NoDup (head :: L.*1).
Proof.
  intros R. pose proof (rc_ring _ _ _ R) as H. destruct started; [by destruct H|].
  destruct H as [-> _]. apply NoDup_singleton.
Qed.

Lemma recorded_node started L s e : recorded started L s -> e ∈ head :: L.*1 -> is_Some (links_of s !! e).
Proof.
  intros R He. pose proof (rc_ring _ _ _ R) as H. destruct started.
  - destruct (ring_get _ _ _ e H He) as [n ->]. eauto.
  - destruct H as [-> H]. apply list_elem_of_singleton in He as ->. eauto.
Qed.

Lemma add_record_wp started L s i (Q : unit -> leaks -> Prop) :
  recorded started L s -> zlen (file_name i) < FILE_NAME_LENGTH ->
  (forall s' node, recorded true (L ++ [(node, i)]) s' -> heap s' = heap s -> report s' = report s -> Q tt s') ->
  may (add head malloc i) Q s.
Proof.
  intros R Hf HQ. destruct (malloc_free s) as [E|(H0 & Hl & Hi)].
  { unfold add, may. rewrite (bind_run _ _ s (malloc s) s) by done. rewrite E. by exists s. }
  apply may_wp, wp_bind, wp_gets.
  set (node := malloc s) in *. rewrite (proj2 (Z.eqb_neq node 0)) by done.
  assert (node ∉ head :: L.*1) as Hn.
  { intros He. destruct (recorded_node _ _ _ _ R He). congruence. }
  apply wp_bind, wp_modify, wp_bind. rewrite (proj2 (Z.ltb_lt _ _)) by done.
  eapply wp_set_info; [cbn; by rewrite lookup_insert_eq|]. cbn. rewrite insert_insert_eq.
  apply wp_bind, wp_gets. cbn [memleak_flag]. rewrite (rc_flag _ _ _ R).
  assert (forall l, ring l head L.*1 -> is_Some (l !! node) ->
    wp (on_links (memleak_add_list_tail node head)) Q (Leaks l (<[node := i]> (infos s)) true (heap s) (report s))) as Htail.
  { intros l Rl Hnode. apply wp_lk_links. change (memleak_add_list_tail node head) with (list_add_tail node head).
    eapply list_add_tail_wp; [done|done|done|]. intros l' R' _. apply (HQ _ node); [|done..].
    constructor; cbn; [done|by rewrite fmap_app| |].
    - intros e j [He|[= -> ->]%list_elem_of_singleton]%elem_of_app; [|by rewrite lookup_insert_eq].
      rewrite lookup_insert_ne; [by apply (rc_info _ _ _ R)|]. intros <-. apply Hn, elem_of_cons. right.
      apply list_elem_of_fmap. by exists (node, j).
    - rewrite lookup_insert_ne by set_solver. apply (rc_head _ _ _ R). }
  pose proof (rc_ring _ _ _ R) as Hr. destruct started.
  - apply wp_bind, wp_ret. cbn. apply Htail; [|rewrite lookup_insert_eq; eauto].
    eapply ring_eq; [done|]. intros x Hx. apply lookup_insert_ne. by intros <-.
  - destruct Hr as [-> Hh]. apply wp_bind, wp_bind, wp_lk_links. cbn [links_of].
    apply wp_bind. eapply wp_set_prev; [rewrite lookup_insert_ne by set_solver; done|].
    eapply wp_set_next; [by rewrite lookup_insert_eq|]. apply wp_modify.
    cbn [links_of infos memleak_flag heap report next]. rewrite insert_insert_eq. apply Htail.
    + cbn. split; [|apply NoDup_singleton]. split; [|done]. split; eexists; by rewrite lookup_insert_eq.
    + rewrite lookup_insert_ne by set_solver. rewrite lookup_insert_eq. eauto.
Qed.

(** Removes the first record of an address. *)
Fixpoint forget {A} (addr : A -> loc) (p : loc) (l : list A) : list A :=
  match l with [] => [] | x :: l => if addr x =? p then l else x :: forget addr p l end.

Definition of_record (x : record) : loc := address x.2.

Lemma forget_app {A} (addr : A -> loc) p l1 l2 : (forall x, x ∈ l1 -> addr x <> p) ->
  forget addr p (l1 ++ l2) = l1 ++ forget addr p l2.
Proof.
  induction l1 as [|x l1 IH]; intros H; [done|]. cbn. rewrite (proj2 (Z.eqb_neq _ _)) by (apply H; set_solver).
  rewrite IH; [done|]. set_solver.
Qed.

Lemma forget_map {A B} (f : A -> B) (addr : B -> loc) p l : f <$> forget (addr ∘ f) p l = forget addr p (f <$> l).
Proof. induction l as [|x l IH]; [done|]. cbn. destruct (_ =? _); [done|]. cbn. by rewrite IH. Qed.

Lemma recorded_delete L1 e i L2 s l :
  recorded true (L1 ++ (e, i) :: L2) s -> ring l head (L1 ++ L2).*1 ->
  recorded true (L1 ++ L2) (Leaks (delete e l) (delete e (infos s)) (memleak_flag s) (heap s) (report s)).
Proof.
  intros R Rl. pose proof (rc_nodup _ _ _ R) as N. rewrite fmap_app in N. cbn in N.
  apply NoDup_cons in N as [Nh N]. apply NoDup_app in N as (N1 & N2 & [N3 N4]%NoDup_cons).
  assert (e ∉ head :: (L1 ++ L2).*1) as He.
  { rewrite fmap_app. intros [->|[H|H]%elem_of_app]%elem_of_cons; [set_solver| |done].
    apply (N2 _ H). set_solver. }
  constructor; cbn.
  - apply (rc_flag _ _ _ R).
  - eapply ring_eq; [done|]. intros x Hx. apply lookup_delete_ne. by intros <-.
  - intros x j Hx. rewrite lookup_delete_ne.
    + apply (rc_info _ _ _ R). set_solver.
    + intros <-. apply He, elem_of_cons. right. apply list_elem_of_fmap. by exists (e, j).
  - rewrite lookup_delete_ne by set_solver. apply (rc_head _ _ _ R).
Qed.

Lemma del_record_wp L1 e i L2 s (Q : unit -> leaks -> Prop) :
  recorded true (L1 ++ (e, i) :: L2) s ->
  (forall s', recorded true (L1 ++ L2) s' -> heap s' = heap s -> report s' = report s -> Q tt s') ->
  wp (del_memleak_list e) Q s.
Proof.
  intros R HQ. pose proof (rc_ring _ _ _ R) as Rr. cbn in Rr. rewrite fmap_app in Rr.
  apply wp_bind, wp_lk_links. apply (list_del_wp _ e head L1.*1 L2.*1); [done|]. intros l Rl _.
  eapply (wp_free_record _ i); [apply (rc_info _ _ _ R); set_solver|]. cbn.
  apply HQ; [|done..]. eapply (recorded_delete _ _ i); [done|]. by rewrite fmap_app.
Qed.

Lemma remove_record_loop_wp L1 L2 s p fuel (Q : unit -> leaks -> Prop) :
  recorded true (L1 ++ L2) s -> (length L2 < fuel)%nat -> (forall x, x ∈ L1 -> of_record x <> p) ->
  (forall s', recorded true (forget of_record p (L1 ++ L2)) s' -> heap s' = heap s -> report s' = report s -> Q tt s') ->
  wp (remove_loop head fuel (List.last L1.*1 head) p) Q s.
Proof.
  revert L1 fuel. induction L2 as [|[e i] L2 IH]; intros L1 fuel R Hf H1 HQ;
    (destruct fuel as [|fuel]; [cbn in Hf; lia|]); cbn [remove_loop];
    pose proof (rc_ring _ _ _ R) as Rr; cbn in Rr; rewrite fmap_app in Rr;
    destruct (ring_after _ _ _ _ Rr) as (n & Hn & Hx); cbn in Hx;
    apply wp_bind, wp_lk_links; (eapply wp_get; [done|]); rewrite Hx.
  - rewrite Z.eqb_refl. apply wp_ret. rewrite forget_app, app_nil_r in HQ by done. rewrite app_nil_r in R.
    destruct s; cbn. by apply HQ.
  - assert (e <> head) as He.
    { pose proof (rc_nodup _ _ _ R) as [N _]%NoDup_cons. rewrite fmap_app in N. set_solver. }
    rewrite (proj2 (Z.eqb_neq e head)) by done. destruct s as [l0 i0 f0 h0 r0]; cbn in *.
    apply wp_bind. apply (wp_get_info _ i); [cbn; apply (rc_info _ _ _ R); set_solver|].
    rewrite forget_app in HQ by done. cbn in HQ. unfold of_record at 1 in HQ. cbn in HQ.
    destruct (Z.eqb_spec (address i) p) as [Hp|Hp].
    + by eapply del_record_wp.
    + replace e with (List.last (L1 ++ [(e, i)]).*1 head) by (rewrite fmap_app; apply List.last_last).
      apply IH; [by rewrite <- app_assoc|cbn in Hf; lia| |].
      * intros x [Hx1|Hx1]%elem_of_app; [auto|]. by apply list_elem_of_singleton in Hx1 as ->.
      * rewrite <- app_assoc, forget_app by done. cbn. unfold of_record at 1. cbn.
        by rewrite (proj2 (Z.eqb_neq (address i) p)).
Qed.

Lemma remove_mem_info_wp L s p fuel (Q : unit -> leaks -> Prop) :
  recorded true L s -> (length L < fuel)%nat ->
  (forall s', recorded true (forget of_record p L) s' -> heap s' = heap s -> report s' = report s -> Q tt s') ->
  wp (remove_mem_info head fuel p) Q s.
Proof. intros R Hf HQ. apply (remove_record_loop_wp [] L); [done|done|by intros x ?%not_elem_of_nil|done]. Qed.

(** ** What the calls do to the outstanding allocations *)

Inductive lcommand :=
  | XMalloc (result size : Z) (file : list Z) (line : Z)
  | XCalloc (result elements size : Z) (file : list Z) (line : Z)
  | XRealloc (ptr result size : Z) (file : list Z) (line : Z)
  | XFree (ptr : Z).

(** The allocations recorded, the blocks, and those whose record is lost. *)
Record tracked := Tracked { started : bool; outstanding : list mem_info; blocks : gset loc; lost : gset loc }.

(** The allocator returns a new block or fails; only blocks that are allocated, or
    null, are freed, and not before the first allocation; the source path fits
    its field.  A [realloc] to no bytes that returns null, which may free the
    block, is left out. *)
Definition ladmissible (c : lcommand) (t : tracked) : bool :=
  match c with
  | XMalloc r _ file _ | XCalloc r _ _ file _ =>
      (r =? 0) || bool_decide (r ∉ blocks t) && (zlen file <? FILE_NAME_LENGTH)
  | XRealloc p r size file _ =>
      started t && bool_decide (p = 0 \/ p ∈ blocks t) &&
      (if r =? 0 then negb (size =? 0) else bool_decide (r ∉ blocks t ∖ {[p]})) && (zlen file <? FILE_NAME_LENGTH)
  | XFree p => started t && bool_decide (p = 0 \/ p ∈ blocks t)
  end.

Definition allocate (r size : Z) (file : list Z) (line : Z) (t : tracked) : tracked :=
  if r =? 0 then t else Tracked true (outstanding t ++ [Info r size file line]) ({[r]} ∪ blocks t) (lost t).

Definition release (p : Z) (t : tracked) : tracked :=
  Tracked (started t) (forget address p (outstanding t)) (blocks t ∖ {[p]}) (lost t ∖ {[p]}).

(** A [realloc] that fails: the block is kept, its record is replaced by one of the
    null pointer. *)
Definition misrecord (p size : Z) (file : list Z) (line : Z) (t : tracked) : tracked :=
  Tracked true (forget address p (outstanding t) ++ [Info 0 size file line]) (blocks t)
    (if p =? 0 then lost t else {[p]} ∪ lost t).

Definition lstep (c : lcommand) (t : tracked) : tracked :=
  match c with
  | XMalloc r size file line => allocate r size file line t
  | XCalloc r elements size file line => allocate r (u32 (elements * size)) file line t
  | XRealloc p r size file line =>
      if r =? 0 then misrecord p size file line t else allocate r size file line (release p t)
  | XFree p => release p t
  end.

Fixpoint lsteps (cs : list lcommand) (t : tracked) : option tracked :=
  match cs with
  | [] => Some t
  | c :: cs => if ladmissible c t then lsteps cs (lstep c t) else None
  end.

Definition lexec (fuel : nat) (c : lcommand) : M leaks loc :=
  match c with
  | XMalloc r size file line => xmalloc head malloc r size file line
  | XCalloc r elements size file line => xcalloc head malloc r elements size file line
  | XRealloc p r size file line => xrealloc head malloc fuel p r size file line
  | XFree p => xfree head fuel p;; mret 0
  end.

Fixpoint lexec_all (fuel : nat) (cs : list lcommand) : M leaks (list loc) :=
  match cs with
  | [] => mret []
  | c :: cs => a ← lexec fuel c; rest ← lexec_all fuel cs; mret (a :: rest)
  end.

(** The records, the blocks and the outstanding allocations agree. *)
Definition agrees (t : tracked) (s : leaks) : Prop :=
  heap s = blocks t /\ exists L, recorded (started t) L s /\ L.*2 = outstanding t.

(** The allocated blocks are those of the records and the lost ones; no block is
    recorded twice. *)
Definition exact (t : tracked) : Prop :=
  NoDup (filter (fun p => p <> 0) (address <$> outstanding t)) /\
  (forall p, p ∈ blocks t <-> p <> 0 /\ p ∈ address <$> outstanding t \/ p ∈ lost t) /\
  (forall p, p ∈ lost t -> p ∉ address <$> outstanding t) /\ 0 ∉ blocks t /\
  (started t = false -> outstanding t = []).

Lemma forget_split {A} (addr : A -> loc) p l : p ∈ addr <$> l ->
  exists l1 x l2, l = l1 ++ x :: l2 /\ addr x = p /\ forget addr p l = l1 ++ l2.
Proof.
  induction l as [|y l IH]; [by intros ?%not_elem_of_nil|]. cbn. destruct (Z.eqb_spec (addr y) p) as [Hy|Hy].
  - intros _. by exists [], y, l.
  - intros [->|Hp]%elem_of_cons; [done|]. destruct (IH Hp) as (l1 & x & l2 & -> & Hx & E). exists (y :: l1), x, l2. by rewrite E.
Qed.

Lemma forget_absent {A} (addr : A -> loc) p l : p ∉ addr <$> l -> forget addr p l = l.
Proof.
  induction l as [|y l IH]; [done|]. cbn. intros [Hp Hl]%not_elem_of_cons. rewrite (proj2 (Z.eqb_neq _ _)) by done. by rewrite IH.
Qed.

(** The addresses without the first [p]. *)
Lemma forget_addresses p l :
  NoDup (filter (fun p => p <> 0) (address <$> l)) ->
  NoDup (filter (fun p => p <> 0) (address <$> forget address p l)) /\
  (p <> 0 -> p ∉ address <$> forget address p l) /\
  (forall q, q <> 0 -> q <> p -> q ∈ address <$> forget address p l <-> q ∈ address <$> l) /\
  (forall q, q ∈ address <$> forget address p l -> q ∈ address <$> l).
Proof.
  intros N. destruct (decide (p ∈ address <$> l)) as [Hp|Hp]; [|by rewrite forget_absent].
  destruct (forget_split _ _ _ Hp) as (l1 & x & l2 & E & Hx & ->).
  assert (address <$> l ≡ₚ p :: (address <$> l1 ++ l2)) as Pm.
  { rewrite E, !fmap_app. cbn. rewrite Hx. solve_Permutation. }
  rewrite Pm, filter_cons in N. split_and!.
  - case_decide; [by apply NoDup_cons in N as [_ N]|done].
  - intros H0 Hin. rewrite decide_True in N by done. apply NoDup_cons in N as [N _]. apply N.
    by apply list_elem_of_filter.
  - intros q _ Hq. rewrite Pm. set_solver.
  - intros q Hq. rewrite Pm. set_solver.
Qed.

Lemma exact_release p t : exact t -> exact (release p t).
Proof.
  intros (N & B & Ls & Z0 & St). destruct (forget_addresses p _ N) as (N' & H1 & H2 & H3).
  unfold exact, release. cbn. split_and!; [done| | |set_solver|].
  - intros q. rewrite !elem_of_difference, B, !elem_of_singleton. destruct (decide (q = p)) as [->|Hq]; [naive_solver|].
    destruct (decide (q = 0)) as [->|Hq0]; [naive_solver|]. rewrite H2 by done. naive_solver.
  - intros q [Hq _]%elem_of_difference Hin. by apply (Ls q Hq), H3.
  - intros Hs. by rewrite (St Hs).
Qed.

Lemma exact_allocate r size file line t : exact t -> (r <> 0 -> r ∉ blocks t) -> exact (allocate r size file line t).
Proof.
  intros (N & B & Ls & Z0 & St) Hr. unfold allocate. destruct (Z.eqb_spec r 0) as [|Hr0]; [done|].
  specialize (Hr Hr0). rewrite B in Hr. split_and!; cbn; [| | |set_solver|done]; rewrite ?fmap_app; cbn.
  - rewrite filter_app, filter_cons_True, filter_nil by done. apply NoDup_app. split_and!; [done| |apply NoDup_singleton].
    intros p [_ Hp]%list_elem_of_filter ->%list_elem_of_singleton. naive_solver.
  - intros p. rewrite elem_of_union, B, elem_of_app, elem_of_singleton, list_elem_of_singleton. naive_solver.
  - intros p Hp. rewrite elem_of_app, list_elem_of_singleton. intros [?| ->]; [by apply (Ls p)|naive_solver].
Qed.

Lemma exact_misrecord p size file line t : exact t -> p = 0 \/ p ∈ blocks t -> exact (misrecord p size file line t).
Proof.
  intros (N & B & Ls & Z0 & St) Hp. destruct (forget_addresses p _ N) as (N' & H1 & H2 & H3).
  unfold exact, misrecord. cbn. rewrite fmap_app. cbn. split_and!; [| | |done|done].
  - by rewrite filter_app, filter_cons_False, filter_nil, app_nil_r by (by intros []).
  - intros q. rewrite elem_of_app, list_elem_of_singleton.
    destruct (decide (q = 0)) as [->|Hq0]; [destruct (Z.eqb_spec p 0); set_solver|].
    destruct (decide (q = p)) as [->|Hq]; [rewrite (proj2 (Z.eqb_neq p 0)) by done; set_solver|].
    rewrite H2, B by done. destruct (Z.eqb_spec p 0); set_solver.
  - intros q Hq. rewrite elem_of_app, list_elem_of_singleton.
    assert (q <> 0) as Hq0.
    { intros ->. destruct (Z.eqb_spec p 0); [|set_solver]. apply Z0, B. by right. }
    intros [Hin| ->]; [|done]. destruct (Z.eqb_spec p 0) as [->|Hp0].
    + by apply (Ls q Hq), H3.
    + apply elem_of_union in Hq as [->%elem_of_singleton|Hq]; [by apply H1|by apply (Ls q Hq), H3].
Qed.

(** ** Every call keeps the records *)

Lemma agrees_length t s : agrees t s -> exists L, recorded (started t) L s /\ length L = length (outstanding t).
Proof. intros (_ & L & R & <-). exists L. by rewrite length_fmap. Qed.

Lemma add_mem_info_wp t s r size file line (Q : unit -> leaks -> Prop) :
  agrees t s -> zlen file < FILE_NAME_LENGTH ->
  (forall s', heap s' = blocks t -> (exists L, recorded true L s' /\ L.*2 = outstanding t ++ [Info r size file line]) -> Q tt s') ->
  may (add_mem_info head malloc r size file line) Q s.
Proof.
  intros (Hh & L & R & HL) Hf HQ. unfold add_mem_info.
  rewrite take_ge by (unfold zlen, FILE_NAME_LENGTH in *; lia).
  eapply add_record_wp; [done|done|]. intros s' node R' Hh' _. apply HQ; [congruence|].
  exists (L ++ [(node, Info r size file line)]). by rewrite fmap_app, HL.
Qed.

Lemma set_heap_agrees t s r : agrees t s -> r <> 0 ->
  agrees (Tracked (started t) (outstanding t) ({[r]} ∪ blocks t) (lost t))
    (Leaks (links_of s) (infos s) (memleak_flag s) ({[r]} ∪ heap s) (report s)).
Proof. intros (Hh & L & R & HL) _. split; [cbn; by rewrite Hh|]. exists L. split; [|done]. destruct R. by constructor. Qed.

Lemma allocate_wp t s r size file line (Q : loc -> leaks -> Prop) :
  agrees t s -> (r =? 0) || bool_decide (r ∉ blocks t) && (zlen file <? FILE_NAME_LENGTH) = true ->
  (forall s', agrees (allocate r size file line t) s' -> Q r s') ->
  may (if r =? 0 then mret r else h ← gets heap; set_heap ({[r]} ∪ h);; add_mem_info head malloc r size file line;; mret r) Q s.
Proof.
  intros A Hadm HQ. unfold allocate in HQ. destruct (Z.eqb_spec r 0) as [->|Hr]; [by apply HQ|].
  apply andb_prop in Hadm as [_ Hf]. apply Z.ltb_lt in Hf.
  apply may_bind_wp, wp_gets, may_bind_wp, wp_modify, may_bind.
  eapply add_mem_info_wp; [by apply set_heap_agrees|done|].
  intros s' Hh (L & R & HL). apply HQ. split; [done|]. by exists L.
Qed.

Lemma release_block_wp t s p fuel (Q : unit -> leaks -> Prop) :
  agrees t s -> started t = true -> (length (outstanding t) < fuel)%nat ->
  (forall s', heap s' = blocks t -> (exists L, recorded true L s' /\ L.*2 = forget address p (outstanding t)) -> Q tt s') ->
  wp (remove_mem_info head fuel p) Q s.
Proof.
  intros (Hh & L & R & HL) Hst Hf HQ. rewrite Hst in R. rewrite <- HL, length_fmap in Hf.
  eapply remove_mem_info_wp; [done|done|]. intros s' R' Hh' _. apply HQ; [congruence|].
  exists (forget of_record p L). split; [done|]. rewrite <- HL. apply (forget_map snd address).
Qed.

Lemma xrealloc_wp p r size file line t s fuel (Q : loc -> leaks -> Prop) :
  agrees t s -> exact t -> ladmissible (XRealloc p r size file line) t = true -> (length (outstanding t) < fuel)%nat ->
  (forall a s', agrees (lstep (XRealloc p r size file line) t) s' -> Q a s') ->
  may (xrealloc head malloc fuel p r size file line) Q s.
Proof.
  intros A X Hadm Hf HQ. cbn [ladmissible lstep] in *.
  rewrite !andb_true_iff, bool_decide_eq_true, Z.ltb_lt in Hadm. destruct Hadm as (((Hst & Hp) & Hr) & Hfile).
  apply may_bind_wp. eapply release_block_wp; [done..|]. intros s1 Hh (L & R & HL). apply may_bind_wp.
  unfold realloc. apply wp_bind, wp_gets. rewrite Hh.
  replace (negb (p =? 0) && negb (bool_decide (p ∈ blocks t))) with false.
  2: { destruct Hp as [->|Hp]; [done|]. rewrite (bool_decide_true _ Hp). by rewrite andb_false_r. }
  destruct (Z.eqb_spec r 0) as [->|Hr0]; [apply wp_ret|apply wp_modify]; apply may_bind.
  - eapply (add_mem_info_wp (Tracked true (forget address p (outstanding t)) (blocks t) (lost t))); [|done|].
    + split; [done|]. by exists L.
    + intros s2 Hh2 HL2. apply (HQ 0). by split.
  - eapply (add_mem_info_wp (Tracked true (forget address p (outstanding t)) ({[r]} ∪ blocks t ∖ {[p]}) (lost t))); [|done|].
    + split; [done|]. exists L. split; [|done]. destruct R. by constructor.
    + intros s2 Hh2 HL2. apply (HQ r). unfold allocate. by rewrite (proj2 (Z.eqb_neq r 0)).
Qed.

Lemma exact_step c t : exact t -> ladmissible c t = true -> exact (lstep c t).
Proof.
  intros X Hadm. destruct c as [r size file line|r el size file line|p r size file line|p]; cbn [ladmissible lstep] in *.
  1, 2: apply exact_allocate; [done|]; intros Hr%Z.eqb_neq; rewrite Hr in Hadm; apply andb_prop in Hadm as [H _];
    by apply bool_decide_eq_true in H.
  - rewrite !andb_true_iff, bool_decide_eq_true in Hadm. destruct Hadm as (((_ & Hp) & Hr) & _).
    destruct (r =? 0); [by apply exact_misrecord|]. apply exact_allocate; [by apply exact_release|].
    intros _. by apply bool_decide_eq_true in Hr.
  - by apply exact_release.
Qed.

Lemma lexec_wp c t s fuel (Q : loc -> leaks -> Prop) :
  agrees t s -> exact t -> ladmissible c t = true -> (length (outstanding t) < fuel)%nat ->
  (forall a s', agrees (lstep c t) s' -> Q a s') -> may (lexec fuel c) Q s.
Proof.
  intros A X Hadm Hf HQ. destruct c as [r size file line|r el size file line|p r size file line|p];
    [| |by eapply xrealloc_wp|]; cbn [ladmissible lexec lstep] in *; [by eapply allocate_wp; eauto..|].
  rewrite andb_true_iff, bool_decide_eq_true in Hadm. destruct Hadm as (Hst & Hp).
  apply may_wp, wp_bind, wp_bind. eapply release_block_wp; [done..|]. intros s1 Hh (L & R & HL).
  apply wp_bind, wp_gets. rewrite Hh. destruct (Z.eqb_spec p 0) as [->|Hp0].
  - apply wp_ret, wp_ret, HQ. split; cbn.
    + rewrite Hh. destruct X as (_ & _ & _ & Z0 & _). set_solver.
    + exists L. by rewrite Hst.
  - destruct Hp as [|Hp]; [done|]. rewrite (bool_decide_true _ Hp). apply wp_modify, wp_ret, HQ.
    split; [done|]. cbn. exists L. rewrite Hst. split; [|done]. destruct R. by constructor.
Qed.

Lemma lstep_length c t : (length (outstanding (lstep c t)) <= S (length (outstanding t)))%nat.
Proof.
  assert (forall p l, (length (forget address p l) <= length l)%nat) as Hfl.
  { intros p l. induction l as [|x l IH]; [done|]. cbn. destruct (_ =? _); cbn; lia. }
  assert (forall r size file line t, (length (outstanding (allocate r size file line t)) <= S (length (outstanding t)))%nat) as Ha.
  { intros. unfold allocate. destruct (_ =? _); [lia|]. cbn. rewrite length_app. cbn. lia. }
  destruct c as [| |p r size file line|p]; cbn [lstep]; [done|done| |cbn; etrans; [apply Hfl|lia]].
  destruct (r =? 0); [cbn; rewrite length_app; cbn; specialize (Hfl p (outstanding t)); lia|].
  etrans; [apply Ha|]. cbn. apply le_n_S, Hfl.
Qed.

Lemma lexec_all_wp cs t t' s fuel :
  agrees t s -> exact t -> lsteps cs t = Some t' -> (length cs + length (outstanding t) < fuel)%nat ->
  may (lexec_all fuel cs) (fun _ s' => agrees t' s' /\ exact t') s.
Proof.
  revert t s. induction cs as [|c cs IH]; intros t s A X H Hf; cbn [lsteps lexec_all] in *.
  - by injection H as <-.
  - destruct (ladmissible c t) eqn:Ea; [|done]. apply may_bind. eapply lexec_wp; [done..|cbn in Hf; lia|].
    intros a s1 A1. apply may_bind. pose proof (lstep_length c t). cbn in Hf.
    eapply may_mono; [apply (IH (lstep c t)); [done|by apply exact_step|done|lia]|]. by intros r s2 H2.
Qed.


(** ** The report *)

(** A line of the report, with its terminator. *)
Definition text_line (text : list Z) : list Z := text ++ newline ++ [0].

Definition record_text (i : mem_info) : list (list Z) :=
  [text_line (bytes "address : " ++ percent_d (address i));
   text_line (bytes "size    : " ++ percent_d (size i) ++ bytes " bytes");
   text_line (bytes "file    : " ++ file_name i);
   text_line (bytes "line    : " ++ percent_d (s32 (line i)));
   text_line rule].

Definition wrote (texts : list (list Z)) (s : leaks) : leaks :=
  Leaks (links_of s) (infos s) (memleak_flag s) (heap s) (report s ++ texts).

Lemma wrote_wrote a b s : wrote b (wrote a s) = wrote (a ++ b) s.
Proof. unfold wrote. cbn. by rewrite <- app_assoc. Qed.

Lemma wrote_nil s : wrote [] s = s.
Proof. destruct s. unfold wrote. cbn. by rewrite app_nil_r. Qed.

Lemma fwrite_run text s : fwrite text s = Some (tt, wrote [text_line text] s).
Proof. done. Qed.

Lemma print_record_run i s : print_record i s = Some (tt, wrote (record_text i) s).
Proof. unfold print_record. do 4 (rewrite (bind_run _ _ _ _ _ (fwrite_run _ _))). by rewrite fwrite_run, !wrote_wrote. Qed.

Lemma on_links_get e n s : links_of s !! e = Some n -> on_links (get e) s = Some (n, s).
Proof. intros H. unfold on_links, zoom, get. erewrite (bind_run (gets _) _ (links_of s)) by done. rewrite H. by destruct s. Qed.

Lemma get_info_run e i s : infos s !! e = Some i -> get_info e s = Some (i, s).
Proof. intros H. unfold get_info. erewrite (bind_run (gets _)) by done. by rewrite H. Qed.

Lemma recorded_after L1 L2 s : recorded true (L1 ++ L2) s ->
  exists n, links_of s !! List.last L1.*1 head = Some n /\ next n = List.hd head L2.*1.
Proof. intros R. pose proof (rc_ring _ _ _ R) as Rr. cbn in Rr. rewrite fmap_app in Rr. by apply ring_after. Qed.

Lemma wrote_recorded st L texts s : recorded st L s -> recorded st L (wrote texts s).
Proof. intros []. by constructor. Qed.

(** The loop stops at the last record without printing it. *)
Lemma report_loop_run L1 e i L2 fuel s :
  recorded true (L1 ++ (e, i) :: L2) s -> (length L2 < fuel)%nat ->
  report_loop head fuel e s = Some (tt, wrote (concat (record_text <$> removelast (i :: L2.*2))) s).
Proof.
  revert L1 e i fuel s. induction L2 as [|[e2 i2] L2 IH]; intros L1 e i fuel s R Hf;
    (destruct fuel as [|fuel]; [cbn in Hf; lia|]); cbn [report_loop].
  all: destruct (recorded_after (L1 ++ [(e, i)]) _ s ltac:(rewrite <- app_assoc; exact R)) as (n & Hn & Hx);
    rewrite fmap_app in Hn; cbn in Hn; rewrite List.last_last in Hn; cbn in Hx;
    rewrite (bind_run _ _ _ _ _ (on_links_get _ _ _ Hn)), Hx.
  - rewrite Z.eqb_refl. cbn. by rewrite wrote_nil.
  - assert (e2 <> head) as He.
    { pose proof (rc_nodup _ _ _ R) as [N _]%NoDup_cons. rewrite fmap_app in N. set_solver. }
    rewrite (proj2 (Z.eqb_neq e2 head)) by done.
    rewrite (bind_run _ _ _ _ _ (get_info_run e i s (rc_info _ _ _ R e i ltac:(set_solver)))).
    rewrite (bind_run _ _ _ _ _ (print_record_run i s)).
    rewrite (IH (L1 ++ [(e, i)]) e2 i2); [|rewrite <- app_assoc; by apply wrote_recorded|cbn in Hf; lia].
    rewrite wrote_wrote. done.
Qed.

Definition title : list (list Z) := [text_line (bytes "Memory Leak Summary"); text_line rule].

Lemma title_run (m : M leaks unit) s :
  (fwrite (bytes "Memory Leak Summary");; fwrite rule;; m) s = m (wrote title s).
Proof. do 2 (rewrite (bind_run _ _ _ _ _ (fwrite_run _ _))). by rewrite wrote_wrote. Qed.

Lemma bind_none {A B} (m : M leaks A) (k : A -> M leaks B) s : m s = None -> (a ← m; k a) s = None.
Proof. intros H. unfold mbind, M_bind. by rewrite H. Qed.

Lemma report_mem_leak_run L s fuel : recorded true L s -> (length L < fuel)%nat ->
  report_mem_leak head fuel true s =
    match L with
    | [] => Some (tt, wrote title s)
    | _ => None
    end.
Proof.
  intros R Hf. destruct (recorded_after [] L s R) as (n & Hn & Hx). cbn in Hn.
  unfold report_mem_leak. rewrite (bind_run _ _ _ _ _ (on_links_get _ _ _ Hn)), Hx.
  destruct fuel as [|fuel]; [lia|]. destruct L as [|[e i] L].
  - cbn [List.hd fmap list_fmap] in *. erewrite bind_run.
    2: { rewrite title_run. cbn [report_loop]. rewrite (bind_run _ _ _ _ _ (on_links_get head n (wrote title s) Hn)), Hx, Z.eqb_refl. done. }
    unfold clear. cbn [clear_loop]. rewrite (bind_run _ _ _ _ _ (on_links_get head n (wrote title s) Hn)), Hx, Z.eqb_refl. done.
  - assert (e <> head) as He.
    { pose proof (rc_nodup _ _ _ R) as [N _]%NoDup_cons. set_solver. }
    erewrite bind_run.
    2: { rewrite title_run. apply (report_loop_run []); [by apply wrote_recorded|cbn in Hf |- *; lia]. }
    unfold clear. cbn [clear_loop]. erewrite bind_run by by apply on_links_get. rewrite Hx. cbn [List.hd fmap list_fmap fst].
    rewrite (proj2 (Z.eqb_neq e head)) by done.
    unfold free_record, get_info, of_option, gets, mbind, M_bind, wrote. cbn [infos]. by rewrite (rc_head _ _ _ R).
Qed.

(** The report works only when there is nothing to report: after the first
    allocation it writes the title when every block was freed; otherwise it
    prints all the records but the last and then frees the static head of the
    list, which has no result.  Before the first allocation, reporting and
    freeing follow a null pointer. *)
Lemma report_mem_leak_fails L s fuel : (length L < fuel)%nat ->
  (recorded true L s -> 
     report_mem_leak head fuel true s = (if L then Some (tt, wrote title s) else None) /\
     forall e i L', L = (e, i) :: L' ->
       report_loop head fuel e s = Some (tt, wrote (concat (record_text <$> removelast L.*2)) s)) /\
  (recorded false L s -> links_of s !! (0 : loc) = None -> infos s !! (0 : loc) = None ->
     report_mem_leak head fuel true s = None /\ forall p, xfree head fuel p s = None).
Proof.
  intros Hf. split.
  - intros R. split; [rewrite (report_mem_leak_run L) by done; by destruct L|].
    intros e i L' ->. rewrite (report_loop_run [] e i L'); [done|done|cbn in Hf; lia].
  - intros R H0 I0. destruct (rc_ring _ _ _ R) as [-> Hh]. destruct fuel as [|fuel]; [cbn in Hf; lia|].
    assert (head <> 0) by (intros E; rewrite E in Hh; congruence).
    assert (forall s', links_of s' = links_of s -> on_links (get 0) s' = None) as Hnull.
    { intros s' E. unfold on_links, zoom, get, of_option, gets, mbind, M_bind. by rewrite E, H0. }
    split.
    + unfold report_mem_leak. rewrite (bind_run _ _ _ _ _ (on_links_get _ _ _ Hh)). apply bind_none.
      rewrite title_run. apply bind_none. by apply Hnull.
    + intros p. unfold xfree, remove_mem_info. cbn [remove_loop]. unfold mbind, M_bind.
      rewrite (on_links_get _ _ _ Hh). cbn [next]. rewrite (proj2 (Z.eqb_neq 0 head)) by done.
      unfold get_info, of_option, gets, mbind, M_bind. by rewrite I0.
Qed.
End spec.

(** The lowest address above every node. *)
Definition next_record (s : leaks) : loc :=
  1 + foldr Z.max 0 (elements (dom (links_of s) ∪ dom (infos s))).

Lemma next_record_free s : free_for s (next_record s).
Proof.
  assert (forall x, x ∈ dom (links_of s) ∪ dom (infos s) -> x < next_record s) as H.
  { intros x Hx. unfold next_record. rewrite <- elem_of_elements in Hx. induction Hx; cbn; lia. }
  assert (0 < next_record s) as Hp.
  { unfold next_record. induction (elements _); cbn; lia. }
  split; [lia|]. split; apply not_elem_of_dom; intros Hx; [specialize (H (next_record s))|specialize (H (next_record s))];
    pose proof (H ltac:(set_solver)); lia.
Qed.

Definition at_start : leaks := Leaks {[1 := LH 0 0]} ∅ false ∅ [].

Lemma next_record_or_none s : next_record s = 0 \/ free_for s (next_record s).
Proof. right. apply next_record_free. Qed.


(** The memory of a record is not checked. *)
Lemma record_refused : lexec_all 1 (fun _ => 0) 9 [XMalloc 100 8 (bytes "a.c") 1] at_start = None.
Proof. vm_compute. reflexivity. Qed.

(** When [realloc] fails the old block stays allocated without a record, and a
    record of the null pointer takes its place. *)
Lemma realloc_failure_misrecorded :
  exists s', lexec_all 1 next_record 9 [XMalloc 100 8 (bytes "a.c") 1; XRealloc 100 0 16 (bytes "b.c") 4] at_start = Some ([100; 0], s') /\
    heap s' = {[100]} /\ (map_to_list (infos s')).*2 = [Info 0 16 (bytes "b.c") 4].
Proof. eexists. split; [vm_compute; reflexivity|]. by vm_compute. Qed.
