(* ===== verification/KHlist.v ===== *)
(** * hashtable-linux-kernel: the hash lists of the kernel

    Models the [hlist] part of [src/hashtable-linux-kernel/list.h].  The
    [pprev] member of a node is the address of the pointer that points to it: a
    bucket of a table or the [next] member of another node.  A deleted node is
    poisoned: its [next] is an address where nothing is. *)

From S2P Require Import Prelude.

Module KHlist.

Inductive slot :=
  | Bucket (table : loc) (i : Z)   (* &table[i].first *)
  | NextOf (n : loc)               (* &n->next *)
  | Poison2.                       (* LIST_POISON2 *)

#[export] Instance slot_eq_dec : EqDecision slot.
Proof. solve_decision. Defined.

Definition LIST_POISON1 : loc := 0x100.

Record hlist_node := HN { hnext : ptr; pprev : option slot }.
Record hstore := HS { hnodes : gmap loc hlist_node; tables : gmap loc (list ptr) }.

Definition get_node (n : loc) : M hstore hlist_node := m ← gets hnodes; of_option (m !! n).
Definition put_node (n : loc) (x : hlist_node) : M hstore unit :=
  _ ← get_node n; modify (fun s => HS (<[n := x]> (hnodes s)) (tables s)).
Definition set_next (n : loc) (p : ptr) : M hstore unit := x ← get_node n; put_node n (HN p (pprev x)).
Definition set_pprev (n : loc) (p : option slot) : M hstore unit := x ← get_node n; put_node n (HN (hnext x) p).

Definition get_bucket (t : loc) (i : Z) : M hstore ptr :=
  m ← gets tables; bs ← of_option (m !! t); of_option (znth bs i).
Definition set_bucket (t : loc) (i : Z) (p : ptr) : M hstore unit :=
  m ← gets tables; bs ← of_option (m !! t); _ ← of_option (znth bs i);
  modify (fun s => HS (hnodes s) (<[t := zset bs i p]> (tables s))).

(** [*s = p] and [*s] *)
Definition store_slot (s : slot) (p : ptr) : M hstore unit :=
  match s with Bucket t i => set_bucket t i p | NextOf n => set_next n p | Poison2 => ub end.

Definition INIT_HLIST_HEAD (t : loc) (i : Z) : M hstore unit := set_bucket t i None.
Definition INIT_HLIST_NODE (h : loc) : M hstore unit := set_next h None;; set_pprev h None.
Definition hlist_unhashed (h : loc) : M hstore bool := x ← get_node h; mret (bool_decide (pprev x = None)).
Definition hlist_empty (t : loc) (i : Z) : M hstore bool := first ← get_bucket t i; mret (bool_decide (first = None)).

Definition __hlist_del (n : loc) : M hstore unit :=
  x ← get_node n;
  let next := hnext x in
  let pprev := pprev x in
  sl ← of_option pprev;
  store_slot sl next;;
  match next with
  | Some next => set_pprev next pprev
  | None => mret tt
  end.

Definition hlist_del (n : loc) : M hstore unit :=
  __hlist_del n;;
  set_next n (Some LIST_POISON1);;
  set_pprev n (Some Poison2).

Definition hlist_del_init (n : loc) : M hstore unit :=
  u ← hlist_unhashed n;
  if (u : bool) then mret tt else __hlist_del n;; INIT_HLIST_NODE n.

Definition hlist_add_head (n t : loc) (i : Z) : M hstore unit :=
  first ← get_bucket t i;
  set_next n first;;
  match first with
  | Some first => set_pprev first (Some (NextOf n))
  | None => mret tt
  end;;
  set_bucket t i (Some n);;
  set_pprev n (Some (Bucket t i)).

Definition hlist_add_before (n next : loc) : M hstore unit :=
  x ← get_node next;
  set_pprev n (pprev x);;
  set_next n (Some next);;
  set_pprev next (Some (NextOf n));;
  y ← get_node n;
  sl ← of_option (pprev y);
  store_slot sl (Some n).

Definition hlist_add_behind (n prev : loc) : M hstore unit :=
  x ← get_node prev;
  set_next n (hnext x);;
  set_next prev (Some n);;
  set_pprev n (Some (NextOf prev));;
  y ← get_node n;
  match hnext y with
  | Some next => set_pprev next (Some (NextOf n))
  | None => mret tt
  end.

Definition hlist_add_fake (n : loc) : M hstore unit := set_pprev n (Some (NextOf n)).
Definition hlist_fake (h : loc) : M hstore bool := x ← get_node h; mret (bool_decide (pprev x = Some (NextOf h))).

Definition hlist_move_list (old : loc) (i : Z) (new : loc) (j : Z) : M hstore unit :=
  first ← get_bucket old i;
  set_bucket new j first;;
  match first with
  | Some first => set_pprev first (Some (Bucket new j))
  | None => mret tt
  end;;
  set_bucket old i None.

End KHlist.
Import KHlist.

(** ** Segments

  The nodes [c] from the pointer [first], which is stored at [s], to the pointer
  [first'], which is stored at [s']. *)
Fixpoint hseg (m : gmap loc hlist_node) (s : slot) (first : ptr) (c : list loc) (s' : slot) (first' : ptr) : Prop :=
  match c with
  | [] => s' = s /\ first' = first
  | p :: c => first = Some p /\ exists nx, m !! p = Some (HN nx (Some s)) /\ hseg m (NextOf p) nx c s' first'
  end.

Definition hchain (m : gmap loc hlist_node) (s : slot) (first : ptr) (c : list loc) : Prop :=
  exists s', hseg m s first c s' None.

Lemma hseg_app m s f c1 c2 s' f' :
  hseg m s f (c1 ++ c2) s' f' <-> exists s1 f1, hseg m s f c1 s1 f1 /\ hseg m s1 f1 c2 s' f'.
Proof.
  revert s f. induction c1 as [|p c1 IH]; intros s f; cbn.
  - split; [by exists s, f|]. by intros (s1 & f1 & [-> ->] & H).
  - split.
    + intros (-> & nx & H1 & (s1 & f1 & H2 & H3)%IH). exists s1, f1. split; [|done]. split; [done|]. by exists nx.
    + intros (s1 & f1 & (-> & nx & H1 & H2) & H3). split; [done|]. exists nx. split; [done|]. apply IH. by exists s1, f1.
Qed.

Lemma hseg_eq m m' s f c s' f' :
  hseg m s f c s' f' -> (forall x, x ∈ c -> m' !! x = m !! x) -> hseg m' s f c s' f'.
Proof.
  revert s f. induction c as [|p c IH]; intros s f H E; [done|]. destruct H as (-> & nx & H1 & H2).
  split; [done|]. exists nx. rewrite E by set_solver. split; [done|]. apply IH; [done|]. set_solver.
Qed.

Lemma hseg_lookup m s f c s' f' x : hseg m s f c s' f' -> x ∈ c -> is_Some (m !! x).
Proof.
  revert s f. induction c as [|p c IH]; intros s f H Hx; [by apply not_elem_of_nil in Hx|].
  destruct H as (-> & nx & H1 & H2). apply elem_of_cons in Hx as [->|Hx]; eauto.
Qed.

(** The slot where a segment ends is its start or in its last node. *)
Lemma hseg_end m s f c s' f' : hseg m s f c s' f' ->
  (c = [] /\ s' = s /\ f' = f) \/ exists c' q, c = c' ++ [q] /\ s' = NextOf q.
Proof.
  destruct c as [|q c _] using rev_ind; [by left|]. intros (s1 & f1 & _ & H)%hseg_app. right.
  exists c, q. split; [done|]. by destruct H as (_ & nx & _ & [-> _]).
Qed.

(** A write of the last node's [next]. *)
Lemma hseg_set_end m s f c q f' nx pp :
  hseg m s f (c ++ [q]) (NextOf q) f' -> NoDup (c ++ [q]) -> m !! q = Some (HN f' pp) ->
  hseg (<[q := HN nx pp]> m) s f (c ++ [q]) (NextOf q) nx.
Proof.
  intros (s1 & f1 & H1 & (-> & nx' & H2 & _))%hseg_app N Hq. rewrite H2 in Hq. injection Hq as -> <-.
  apply hseg_app. exists s1, (Some q). split.
  - eapply hseg_eq; [done|]. intros x Hx. apply lookup_insert_ne. intros ->.
    apply NoDup_app in N as (_ & N & _). by apply (N x Hx), list_elem_of_singleton.
  - split; [done|]. exists nx. by rewrite lookup_insert_eq.
Qed.

(** A redirection of the first node's [pprev]. *)
Lemma hseg_move m s s2 f c s' f' nx :
  hseg m s (Some f) (f :: c) s' f' -> NoDup (f :: c) -> m !! f = Some (HN nx (Some s)) ->
  exists m', m' = <[f := HN nx (Some s2)]> m /\ hseg m' s2 (Some f) (f :: c) s' f'.
Proof.
  intros (_ & nx' & H1 & H2) [N _]%NoDup_cons Hf. rewrite H1 in Hf. injection Hf as ->. eexists. split; [done|].
  split; [done|]. exists nx. rewrite lookup_insert_eq. split; [done|]. eapply hseg_eq; [done|].
  intros x Hx. apply lookup_insert_ne. by intros ->.
Qed.

(** ** The primitive accesses *)

Lemma wp_hget n x (Q : hlist_node -> hstore -> Prop) s : hnodes s !! n = Some x -> Q x s -> wp (get_node n) Q s.
Proof. intros H HQ. apply wp_bind, wp_gets. rewrite H. by apply wp_ret. Qed.

Lemma wp_hput n x y (Q : unit -> hstore -> Prop) s : hnodes s !! n = Some x ->
  Q tt (HS (<[n := y]> (hnodes s)) (tables s)) -> wp (put_node n y) Q s.
Proof. intros H HQ. by eapply wp_bind, wp_hget. Qed.

Lemma wp_hset_next n x p (Q : unit -> hstore -> Prop) s : hnodes s !! n = Some x ->
  Q tt (HS (<[n := HN p (pprev x)]> (hnodes s)) (tables s)) -> wp (set_next n p) Q s.
Proof. intros H HQ. eapply wp_bind, wp_hget; [done|]. by eapply wp_hput. Qed.

Lemma wp_hset_pprev n x p (Q : unit -> hstore -> Prop) s : hnodes s !! n = Some x ->
  Q tt (HS (<[n := HN (hnext x) p]> (hnodes s)) (tables s)) -> wp (set_pprev n p) Q s.
Proof. intros H HQ. eapply wp_bind, wp_hget; [done|]. by eapply wp_hput. Qed.

Lemma wp_hget_bucket t i bs p (Q : ptr -> hstore -> Prop) s :
  tables s !! t = Some bs -> znth bs i = Some p -> Q p s -> wp (get_bucket t i) Q s.
Proof. intros H Hi HQ. apply wp_bind, wp_gets. rewrite H. apply wp_bind, wp_ret. rewrite Hi. by apply wp_ret. Qed.

Lemma wp_hset_bucket t i bs p q (Q : unit -> hstore -> Prop) s :
  tables s !! t = Some bs -> znth bs i = Some p ->
  Q tt (HS (hnodes s) (<[t := zset bs i q]> (tables s))) -> wp (set_bucket t i q) Q s.
Proof.
  intros H Hi HQ. apply wp_bind, wp_gets. rewrite H. apply wp_bind, wp_ret. rewrite Hi. by apply wp_bind, wp_ret.
Qed.

(** ** Tables

  The table [t] has [n] buckets, whose chains are [f 0], ..., [f (n - 1)]. *)
Record hashed (s : hstore) (t : loc) (n : Z) (f : Z -> list loc) : Prop := {
  hd_table : exists bs, tables s !! t = Some bs /\ zlen bs = n /\
    forall i, 0 <= i < n -> exists first, znth bs i = Some first /\ hchain (hnodes s) (Bucket t i) first (f i);
  hd_nodup : forall i, 0 <= i < n -> NoDup (f i);
  hd_disj : forall i j x, 0 <= i < n -> 0 <= j < n -> i <> j -> x ∈ f i -> x ∉ f j
}.

(** What an operation on the table [t] leaves alone. *)
Definition hothers (s s' : hstore) (t : loc) (X : list loc) : Prop :=
  dom (hnodes s') = dom (hnodes s) /\ (forall x, x ∉ X -> hnodes s' !! x = hnodes s !! x) /\
  dom (tables s') = dom (tables s) /\ (forall u, u <> t -> tables s' !! u = tables s !! u).

Lemma dom_insert_same {A} (m : gmap loc A) k x y : m !! k = Some y -> dom (<[k := x]> m) = dom m.
Proof. intros H. apply leibniz_equiv. rewrite dom_insert. apply elem_of_dom_2 in H. set_solver. Qed.

Section table.
Context {s : hstore} {t : loc} {n : Z} {f : Z -> list loc}.
Hypothesis (H : hashed s t n f).

Lemma hashed_bucket i : 0 <= i < n -> exists bs first, tables s !! t = Some bs /\ zlen bs = n /\
  znth bs i = Some first /\ hchain (hnodes s) (Bucket t i) first (f i).
Proof.
  intros Hi. destruct (hd_table _ _ _ _ H) as (bs & Ht & Hl & Hc). destruct (Hc i Hi) as (first & ? & ?).
  by exists bs, first.
Qed.

Lemma hashed_node i x : 0 <= i < n -> x ∈ f i -> is_Some (hnodes s !! x).
Proof. intros Hi Hx. destruct (hashed_bucket i Hi) as (bs & first & _ & _ & _ & sl & C). by eapply hseg_lookup. Qed.

(** One chain changes, with nodes of its own or of no chain. *)
Lemma hashed_update i f' hn' bs bs' first' :
  0 <= i < n -> tables s !! t = Some bs -> bs' = zset bs i first' ->
  hchain hn' (Bucket t i) first' (f' i) -> NoDup (f' i) ->
  (forall j, j <> i -> f' j = f j) ->
  (forall x, x ∈ f' i -> forall j, 0 <= j < n -> j <> i -> x ∉ f j) ->
  (forall j x, 0 <= j < n -> j <> i -> x ∈ f j -> hn' !! x = hnodes s !! x) ->
  hashed (HS hn' (<[t := bs']> (tables s))) t n f'.
Proof.
  intros Hi Ht -> C N Hf Hd He. destruct (hd_table _ _ _ _ H) as (bs0 & Ht' & Hl & Hc).
  rewrite Ht in Ht'. injection Ht' as <-. constructor; cbn.
  - exists (zset bs i first'). rewrite lookup_insert_eq, zlen_zset. split_and!; [done|done|].
    intros j Hj. destruct (decide (j = i)) as [->|Hne].
    + exists first'. rewrite znth_zset_eq by lia. done.
    + destruct (Hc j Hj) as (first & Hfi & sl & Cj). exists first. rewrite znth_zset_ne, Hf by done.
      split; [done|]. exists sl. eapply hseg_eq; [done|]. intros x Hx. by eapply He.
  - intros j Hj. destruct (decide (j = i)) as [->|Hne]; [done|]. rewrite Hf by done. by apply (hd_nodup _ _ _ _ H).
  - intros j k x Hj Hk Hjk Hx Hxk. destruct (decide (j = i)) as [->|Hji], (decide (k = i)) as [->|Hki]; [done| | |].
    + rewrite (Hf k) in Hxk by done. by apply (Hd x Hx k Hk Hki).
    + rewrite (Hf j) in Hx by done. by apply (Hd x Hxk j Hj Hji).
    + rewrite Hf in Hx, Hxk by done. by apply (hd_disj _ _ _ _ H j k x).
Qed.

Lemma k_hlist_add_head_wp p i f' (Q : unit -> hstore -> Prop) :
  0 <= i < n -> is_Some (hnodes s !! p) -> (forall j, 0 <= j < n -> p ∉ f j) ->
  f' i = p :: f i -> (forall j, j <> i -> f' j = f j) ->
  (forall s', hashed s' t n f' -> hothers s s' t (p :: f i) -> Q tt s') ->
  wp (hlist_add_head p t i) Q s.
Proof.
  intros Hi [x Hx] Hp Hfi Hf HQ. destruct (hashed_bucket i Hi) as (bs & first & Ht & Hl & Hb & sl & C).
  pose proof (hd_nodup _ _ _ _ H i Hi) as N. pose proof (Hp i Hi) as Hpi.
  apply wp_bind. eapply wp_hget_bucket; [done..|]. apply wp_bind. eapply wp_hset_next; [done|].
  set (hn1 := <[p := HN first (pprev x)]> (hnodes s)).
  assert (exists hn2, wp (match first with Some first => set_pprev first (Some (NextOf p)) | None => mret tt end)
      (fun _ s' => s' = HS hn2 (tables s)) (HS hn1 (tables s)) /\ hchain hn2 (NextOf p) first (f i) /\
      dom hn2 = dom (hnodes s) /\ (forall y, y ∉ f i -> hn2 !! y = hn1 !! y)) as (hn2 & W & C2 & D2 & E2).
  { assert (dom hn1 = dom (hnodes s)) as D1 by by eapply dom_insert_same.
    assert (forall y, y ∈ f i -> hn1 !! y = hnodes s !! y) as E1.
    { intros y Hy. unfold hn1. apply lookup_insert_ne. by intros ->. }
    destruct (f i) as [|q c] eqn:Ec.
    - destruct C as [_ <-]. exists hn1. split; [by apply wp_ret|]. split; [by exists (NextOf p)|done].
    - pose proof C as (-> & nx & Hq & _). 
      destruct (hseg_move hn1 (Bucket t i) (NextOf p) q c sl None nx) as (m' & -> & C').
      + eapply hseg_eq; [done|]. intros y Hy. by apply E1.
      + done.
      + rewrite E1 by set_solver. done.
      + eexists. split; [eapply wp_hset_pprev; [cbn; rewrite E1 by set_solver; done|done]|].
        split; [by exists sl|]. split; [rewrite (dom_insert_same _ _ _ (HN nx (Some (Bucket t i)))); [done|by rewrite E1 by set_solver]|].
        intros y Hy. apply lookup_insert_ne. set_solver. }
  apply wp_bind. eapply wp_mono; [exact W|]. intros [] s2 ->.
  apply wp_bind. eapply wp_hset_bucket; [done|done|]. eapply wp_hset_pprev; [cbn; rewrite E2 by done; by unfold hn1; rewrite lookup_insert_eq|].
  cbn. apply HQ.
  - eapply (hashed_update i); [done|done|done| |rewrite Hfi; by apply NoDup_cons|done| |].
    + rewrite Hfi. destruct C2 as [sl2 C2]. exists sl2. split; [done|]. exists first. rewrite lookup_insert_eq. split; [done|].
      eapply hseg_eq; [done|]. intros y Hy. apply lookup_insert_ne. by intros ->.
    + rewrite Hfi. intros y [->|Hy]%elem_of_cons j Hj Hji; [by apply Hp|by apply (hd_disj _ _ _ _ H i j)].
    + intros j y Hj Hji Hy. assert (y ∉ p :: f i).
      { intros [->|Hyi]%elem_of_cons; [by apply (Hp j Hj)|by apply (hd_disj _ _ _ _ H i j y)]. }
      rewrite lookup_insert_ne, E2 by set_solver. apply lookup_insert_ne. set_solver.
  - split_and!; cbn.
    + erewrite dom_insert_same; [done|]. rewrite E2 by done. unfold hn1. by rewrite lookup_insert_eq.
    + intros y Hy. rewrite lookup_insert_ne, E2 by set_solver. apply lookup_insert_ne. set_solver.
    + by eapply dom_insert_same.
    + intros u Hu. by apply lookup_insert_ne.
Qed.

(** The two pointers to a node and from it are joined. *)
Lemma raw_hlist_del_wp p i c1 c2 f' (Q : unit -> hstore -> Prop) :
  0 <= i < n -> f i = c1 ++ p :: c2 -> f' i = c1 ++ c2 -> (forall j, j <> i -> f' j = f j) ->
  (forall s', hashed s' t n f' -> hothers s s' t (f' i) -> (exists sl, option_map pprev (hnodes s' !! p) = Some (Some sl)) -> Q tt s') ->
  wp (__hlist_del p) Q s.
Proof.
  intros Hi Hfi Hfi' Hf HQ. destruct (hashed_bucket i Hi) as (bs & first & Ht & Hl & Hb & sl & C).
  pose proof (hd_nodup _ _ _ _ H i Hi) as N. rewrite Hfi in C, N.
  apply hseg_app in C as (s1 & f1 & C1 & (-> & nx & Hp & C2)).
  pose proof N as (N1 & Np & [N2 N3]%NoDup_cons)%NoDup_app.
  apply wp_bind. eapply wp_hget; [done|]. cbn [pprev hnext]. apply wp_bind, wp_ret.
  (* the store through [pprev] *)
  assert (exists first' hn1, wp (store_slot s1 nx) (fun _ s' => s' = HS hn1 (<[t := zset bs i first']> (tables s))) s /\
    hseg hn1 (Bucket t i) first' c1 s1 nx /\ dom hn1 = dom (hnodes s) /\
    (forall x, x ∉ c1 -> hn1 !! x = hnodes s !! x)) as (first' & hn1 & W & C1' & D1 & E1).
  { destruct (hseg_end _ _ _ _ _ _ C1) as [(-> & -> & <-)|(c' & q & -> & ->)].
    - exists nx, (hnodes s). split; [by eapply wp_hset_bucket|]. split; [done|done].
    - pose proof C1 as (s2 & f2 & _ & (-> & nxq & Hq & [_ <-]))%hseg_app.
      exists first, (<[q := HN nx (Some s2)]> (hnodes s)). split.
      + eapply wp_hset_next; [done|]. rewrite zset_id by done. rewrite (insert_id (tables s)) by done. done.
      + split; [by eapply hseg_set_end|]. split; [by eapply dom_insert_same|].
        intros x Hx. apply lookup_insert_ne. set_solver. }
  apply wp_bind. eapply wp_mono; [exact W|]. intros [] s2 ->.
  (* the next node's [pprev] *)
  assert (exists hn2, wp (match nx with Some next => set_pprev next (Some s1) | None => mret tt end)
      (fun _ s' => s' = HS hn2 (<[t := zset bs i first']> (tables s))) (HS hn1 (<[t := zset bs i first']> (tables s))) /\
    hseg hn2 s1 nx c2 (if c2 then s1 else sl) None /\ dom hn2 = dom hn1 /\ (forall x, x ∉ c2 -> hn2 !! x = hn1 !! x))
    as (hn2 & W2 & C2' & D2 & E2).
  { destruct c2 as [|q c2].
    - destruct C2 as [_ <-]. exists hn1. split; [by apply wp_ret|done].
    - pose proof C2 as (-> & nxq & Hq & _).
      assert (forall y, y ∈ q :: c2 -> hn1 !! y = hnodes s !! y) as E1'.
      { intros y Hy. apply E1. intros Hy1. apply (Np y Hy1). set_solver. }
      destruct (hseg_move hn1 (NextOf p) s1 q c2 sl None nxq) as (m' & -> & C').
      + eapply hseg_eq; [done|]. intros y Hy. by apply E1'.
      + done.
      + by rewrite E1' by set_solver.
      + eexists. split; [eapply wp_hset_pprev; [cbn; rewrite E1' by set_solver; done|done]|].
        split; [done|]. split; [eapply dom_insert_same; by rewrite E1' by set_solver|].
        intros y Hy. apply lookup_insert_ne. set_solver. }
  eapply wp_mono; [exact W2|]. intros [] s3 ->. apply HQ.
  - eapply (hashed_update i); [done|done|done| |rewrite Hfi'|done| |].
    + rewrite Hfi'. eexists. apply hseg_app. exists s1, nx. split; [|done].
      eapply hseg_eq; [done|]. intros x Hx. apply E2. intros Hx2. apply (Np x Hx). set_solver.
    + apply NoDup_app. split_and!; [done| |done]. intros x Hx Hx2. apply (Np x Hx). set_solver.
    + rewrite Hfi'. intros x Hx j Hj Hji. apply (hd_disj _ _ _ _ H i j); [done..|]. rewrite Hfi. set_solver.
    + intros j x Hj Hji Hx. assert (x ∉ f i) as Hxi.
      { intros Hxi. by apply (hd_disj _ _ _ _ H i j x). }
      rewrite Hfi in Hxi. rewrite E2, E1 by set_solver. done.
  - rewrite Hfi'. split_and!; cbn; [congruence| |by eapply dom_insert_same|intros u Hu; by apply lookup_insert_ne].
    intros x Hx. rewrite E2, E1 by set_solver. done.
  - exists s1. cbn. rewrite E2 by done. rewrite E1; [by rewrite Hp|]. intros Hx. apply (Np p Hx). set_solver.
Qed.

(** A write of a node that is in no chain. *)
Lemma hashed_outside p x :
  is_Some (hnodes s !! p) -> (forall j, 0 <= j < n -> p ∉ f j) -> hashed (HS (<[p := x]> (hnodes s)) (tables s)) t n f.
Proof.
  intros Hp Ho. destruct (hd_table _ _ _ _ H) as (bs & Ht & Hl & Hc). constructor; cbn; [|apply H..].
  exists bs. split_and!; [done|done|]. intros i Hi. destruct (Hc i Hi) as (first & Hfi & sl & C). exists first.
  split; [done|]. exists sl. eapply hseg_eq; [done|]. intros y Hy. apply lookup_insert_ne. intros ->. by apply (Ho i Hi).
Qed.
End table.

Lemma hothers_node s s' t X p x :
  hothers s s' t X -> is_Some (hnodes s' !! p) -> hothers s (HS (<[p := x]> (hnodes s')) (tables s')) t (p :: X).
Proof.
  intros (A & B & C & D) [y Hy]. split_and!; cbn; [by rewrite (dom_insert_same _ _ _ _ Hy)| |done|done].
  intros z Hz. rewrite lookup_insert_ne by set_solver. apply B. set_solver.
Qed.

(** The node is taken out; then both its members are written. *)
Lemma unlink_wp s t n f p i c1 c2 f' a b (Q : unit -> hstore -> Prop) :
  hashed s t n f -> 0 <= i < n -> f i = c1 ++ p :: c2 -> f' i = c1 ++ c2 -> (forall j, j <> i -> f' j = f j) ->
  (forall s', hashed s' t n f' -> hothers s s' t (p :: f' i) -> Q tt s') ->
  wp (__hlist_del p;; set_next p a;; set_pprev p b) Q s.
Proof.
  intros H Hi Hfi Hfi' Hf HQ. apply wp_bind. eapply (raw_hlist_del_wp H); [done..|].
  intros s' H' O [sl Hsl]. destruct (hnodes s' !! p) as [x|] eqn:Hx; [|done].
  assert (forall j, 0 <= j < n -> p ∉ f' j) as Ho.
  { pose proof (hd_nodup _ _ _ _ H i Hi) as N. rewrite Hfi in N. apply NoDup_app in N as (_ & N & [N2 _]%NoDup_cons).
    intros j Hj Hp. destruct (decide (j = i)) as [->|Hji].
    - rewrite Hfi' in Hp. apply elem_of_app in Hp as [Hp|Hp]; [|done]. apply (N p Hp). set_solver.
    - rewrite Hf in Hp by done. apply (hd_disj _ _ _ _ H j i p); [done..|]. rewrite Hfi. set_solver. }
  apply wp_bind. eapply wp_hset_next; [done|]. eapply wp_hset_pprev; [cbn; by rewrite lookup_insert_eq|]. cbn.
  rewrite insert_insert_eq. apply HQ; [by apply (hashed_outside H')|by apply hothers_node].
Qed.

Lemma k_hlist_del_wp s t n f p i c1 c2 f' (Q : unit -> hstore -> Prop) :
  hashed s t n f -> 0 <= i < n -> f i = c1 ++ p :: c2 -> f' i = c1 ++ c2 -> (forall j, j <> i -> f' j = f j) ->
  (forall s', hashed s' t n f' -> hothers s s' t (p :: f' i) -> Q tt s') ->
  wp (hlist_del p) Q s.
Proof. apply unlink_wp. Qed.

Lemma k_hlist_del_init_wp s t n f p i c1 c2 f' (Q : unit -> hstore -> Prop) :
  hashed s t n f -> 0 <= i < n -> f i = c1 ++ p :: c2 -> f' i = c1 ++ c2 -> (forall j, j <> i -> f' j = f j) ->
  (forall s', hashed s' t n f' -> hothers s s' t (p :: f' i) -> Q tt s') ->
  wp (hlist_del_init p) Q s.
Proof.
  intros H Hi Hfi Hfi' Hf HQ. destruct (hashed_bucket H i Hi) as (bs & first & _ & _ & _ & sl & C). rewrite Hfi in C.
  apply hseg_app in C as (s1 & f1 & _ & (_ & nx & Hp & _)).
  apply wp_bind, wp_bind. eapply wp_hget; [done|]. apply wp_ret. rewrite bool_decide_false by done.
  by eapply unlink_wp.
Qed.

(** Nodes of no chain, and other tables, may come and go. *)
Lemma hashed_frame s s' t n f :
  hashed s t n f -> (forall j x, 0 <= j < n -> x ∈ f j -> hnodes s' !! x = hnodes s !! x) ->
  tables s' !! t = tables s !! t -> hashed s' t n f.
Proof.
  intros H Hn Ht. destruct (hd_table _ _ _ _ H) as (bs & Hb & Hl & Hc). constructor; [|apply H..].
  exists bs. split_and!; [by rewrite Ht|done|]. intros i Hi. destruct (Hc i Hi) as (first & Hfi & sl & C).
  exists first. split; [done|]. exists sl. eapply hseg_eq; [done|]. intros x Hx. by apply (Hn i).
Qed.
