(* ===== verification/KernelList.v ===== *)
(** * hashtable-linux-kernel: the doubly linked lists of the kernel

    Models the [k_list_head] part of [src/hashtable-linux-kernel/list.h] over
    the store and the representation of [KList]: the header is another one, with
    more operations, and a deleted node is poisoned. *)

From S2P Require Import Prelude KList KListSpec.
Import KList.

Module KernelList.

Definition LIST_POISON1 : loc := 0x100.
Definition LIST_POISON2 : loc := 0x200.

Definition K_INIT_LIST_HEAD (list : loc) : M store unit := set_next list list;; set_prev list list.

Definition __list_add (new prev next : loc) : M store unit :=
  set_prev next new;;
  set_next new next;;
  set_prev new prev;;
  set_next prev new.

Definition k_list_add (new head : loc) : M store unit :=
  h ← get head; __list_add new head (next h).

Definition k_list_add_tail (new head : loc) : M store unit :=
  h ← get head; __list_add new (prev h) head.

Definition __list_del (prev next : loc) : M store unit := set_prev next prev;; set_next prev next.

Definition __list_del_entry (entry : loc) : M store unit :=
  e ← get entry; __list_del (prev e) (next e).

Definition k_list_del (entry : loc) : M store unit :=
  e ← get entry;
  __list_del (prev e) (next e);;
  set_next entry LIST_POISON1;;
  set_prev entry LIST_POISON2.

Definition k_list_replace (old new : loc) : M store unit :=
  o ← get old; set_next new (next o);;
  n ← get new; set_prev (next n) new;;
  o ← get old; set_prev new (prev o);;
  n ← get new; set_next (prev n) new.

Definition k_list_replace_init (old new : loc) : M store unit :=
  k_list_replace old new;; K_INIT_LIST_HEAD old.

Definition k_list_del_init (entry : loc) : M store unit :=
  __list_del_entry entry;; K_INIT_LIST_HEAD entry.

Definition k_list_move (list head : loc) : M store unit :=
  __list_del_entry list;; k_list_add list head.

Definition k_list_move_tail (list head : loc) : M store unit :=
  __list_del_entry list;; k_list_add_tail list head.

Definition k_list_is_last (list head : loc) : M store bool :=
  n ← get list; mret (next n =? head).

Definition k_list_empty (head : loc) : M store bool := h ← get head; mret (next h =? head).

Definition k_list_empty_careful (head : loc) : M store bool :=
  h ← get head;
  let next := next h in
  mret ((next =? head) && (next =? prev h)).

Definition k_list_rotate_left (head : loc) : M store unit :=
  e ← k_list_empty head;
  if (e : bool) then mret tt
  else h ← get head; k_list_move_tail (next h) head.

Definition k_list_is_singular (head : loc) : M store bool :=
  e ← k_list_empty head;
  h ← get head;
  mret (negb e && (next h =? prev h)).

Definition __list_cut_position (list head entry : loc) : M store unit :=
  e ← get entry;
  let new_first := next e in
  h ← get head; set_next list (next h);;
  l ← get list; set_prev (next l) list;;
  set_prev list entry;;
  set_next entry list;;
  set_next head new_first;;
  set_prev new_first head.

Definition k_list_cut_position (list head entry : loc) : M store unit :=
  e ← k_list_empty head;
  if (e : bool) then mret tt
  else
    s ← k_list_is_singular head;
    h ← get head;
    if (s : bool) && (negb (next h =? entry) && negb (head =? entry)) then mret tt
    else if entry =? head then K_INIT_LIST_HEAD list
    else __list_cut_position list head entry.

Definition __list_splice (list prev' next' : loc) : M store unit :=
  l ← get list;
  let first := next l in
  let last := prev l in
  set_prev first prev';;
  set_next prev' first;;
  set_next last next';;
  set_prev next' last.

Definition k_list_splice (list head : loc) : M store unit :=
  e ← k_list_empty list;
  if (e : bool) then mret tt else h ← get head; __list_splice list head (next h).

Definition k_list_splice_tail (list head : loc) : M store unit :=
  e ← k_list_empty list;
  if (e : bool) then mret tt else h ← get head; __list_splice list (prev h) head.

Definition k_list_splice_init (list head : loc) : M store unit :=
  e ← k_list_empty list;
  if (e : bool) then mret tt
  else h ← get head; __list_splice list head (next h);; K_INIT_LIST_HEAD list.

Definition k_list_splice_tail_init (list head : loc) : M store unit :=
  e ← k_list_empty list;
  if (e : bool) then mret tt
  else h ← get head; __list_splice list (prev h) head;; K_INIT_LIST_HEAD list.

Definition k_list_first_entry (head : loc) : M store loc := h ← get head; mret (next h).
Definition k_list_last_entry (head : loc) : M store loc := h ← get head; mret (prev h).

Definition list_del_range (begin_ end_ : loc) : M store unit :=
  b ← get begin_;
  e ← get end_;
  set_next (prev b) (next e);;
  e ← get end_;
  b ← get begin_;
  set_prev (next e) (prev b).

(** The loops, with the calls of a body that lists the nodes: [k_list_for_each],
    [k_list_for_each_prev], and [k_list_for_each_safe] with a body that takes
    every node out, as when a list is freed. *)
Fixpoint for_each (fuel : nat) (pos head : loc) : M store (list loc) :=
  match fuel with
  | O => ub
  | S fuel => if pos =? head then mret [] else p ← get pos; rest ← for_each fuel (next p) head; mret (pos :: rest)
  end.
Definition k_list_for_each (fuel : nat) (head : loc) : M store (list loc) :=
  h ← get head; for_each fuel (next h) head.

Fixpoint for_each_prev (fuel : nat) (pos head : loc) : M store (list loc) :=
  match fuel with
  | O => ub
  | S fuel => if pos =? head then mret [] else p ← get pos; rest ← for_each_prev fuel (prev p) head; mret (pos :: rest)
  end.
Definition k_list_for_each_prev (fuel : nat) (head : loc) : M store (list loc) :=
  h ← get head; for_each_prev fuel (prev h) head.

Fixpoint for_each_safe (fuel : nat) (body : loc -> M store unit) (pos n head : loc) : M store (list loc) :=
  match fuel with
  | O => ub
  | S fuel =>
      if pos =? head then mret []
      else body pos;; x ← get n; rest ← for_each_safe fuel body n (next x) head; mret (pos :: rest)
  end.
Definition k_list_for_each_safe (fuel : nat) (body : loc -> M store unit) (head : loc) : M store (list loc) :=
  h ← get head; p ← get (next h); for_each_safe fuel body (next h) (next p) head.

End KernelList.
Import KernelList.

(** ** The rules shared with list/list.h *)

Lemma k_list_add_tail_wp m new h l (Q : unit -> store -> Prop) :
  ring m h l -> is_Some (m !! new) -> new ∉ h :: l ->
  (forall m', ring m' h (l ++ [new]) -> others m m' (h :: new :: l) -> Q tt m') ->
  wp (k_list_add_tail new h) Q m.
Proof. apply list_add_tail_wp. Qed.

Lemma others_write m m' X e x : others m m' X -> is_Some (m !! e) -> others m (<[e := x]> m') (e :: X).
Proof.
  intros [A B] He. split.
  - apply leibniz_equiv. rewrite dom_insert, A. apply elem_of_dom in He. set_solver.
  - intros y Hy. rewrite lookup_insert_ne by set_solver. apply B. set_solver.
Qed.

Lemma k_list_del_wp m e h l1 l2 (Q : unit -> store -> Prop) :
  ring m h (l1 ++ e :: l2) ->
  (forall m', ring m' h (l1 ++ l2) -> others m m' (e :: h :: l1 ++ l2) -> Q tt m') ->
  wp (k_list_del e) Q m.
Proof.
  intros R HQ. destruct (ring_get _ _ _ e R) as [n Hn]; [set_solver|].
  pose proof R as [_ [N1 (_ & N2 & [N3 _]%NoDup_cons)%NoDup_app]%NoDup_cons].
  assert (e ∉ h :: l1 ++ l2) as He.
  { intros [->|[H|H]%elem_of_app]%elem_of_cons; [set_solver|by apply (N2 _ H); set_solver|done]. }
  apply wp_bind. eapply wp_get; [done|]. apply wp_bind.
  assert (wp (list_del e) (fun _ m' => ring m' h (l1 ++ l2) /\ others m m' (h :: l1 ++ l2)) m) as W by by eapply list_del_wp.
  eapply wp_mono.
  { unfold list_del, wp, mbind, M_bind in W. destruct (get e m) as [[n' m'']|] eqn:E; [|done].
    unfold get in E. cbn in E. unfold mbind, M_bind, gets in E. rewrite Hn in E. injection E as <- <-. exact W. }
  intros [] m' [R' O]. pose proof (proj2 O e He) as Hn'. rewrite Hn in Hn'.
  apply wp_bind. eapply wp_set_next; [done|]. eapply wp_set_prev; [by rewrite lookup_insert_eq|].
  rewrite insert_insert_eq. apply HQ.
  - eapply ring_eq; [done|]. intros x Hx. apply lookup_insert_ne. by intros <-.
  - apply others_write; [done|eauto].
Qed.
