(* ===== verification/KernelListOps.v ===== *)
(** * hashtable-linux-kernel: what the list operations do to a ring

    The rules of [KernelList]'s operations over the rings of [KList].  A ring
    has no first node but its head, so a statement about the place after the
    head holds at any place ([ring_rotate]). *)

From S2P Require Import Prelude KList KListSpec KernelList.
Import KList KernelList.

(** ** Rings *)

Lemma ring_rotate m h l1 x l2 : ring m h (l1 ++ x :: l2) -> ring m x (l2 ++ h :: l1).
Proof.
  intros [L N]. split.
  - rewrite <- app_assoc, app_comm_cons in L. apply links_app in L as [L1 L2].
    rewrite <- app_assoc, app_comm_cons. by apply links_app.
  - assert (x :: l2 ++ h :: l1 ≡ₚ h :: l1 ++ x :: l2) as -> by solve_Permutation. exact N.
Qed.

(** The nodes linked among themselves, and the head with both ends. *)
Lemma ring_intro m h l : links m l -> NoDup (h :: l) -> link m h (List.hd h l) -> link m (List.last l h) h -> ring m h l.
Proof.
  intros L N H1 H2. split; [|done]. destruct l as [|x l]; [done|]. cbn [List.hd] in H1. cbn [app].
  apply links_cons. split; [done|]. destruct (exists_last (l := x :: l)) as (l' & y & E); [done|].
  rewrite app_comm_cons, E in *. rewrite List.last_last in H2. rewrite <- app_assoc. apply links_app. by split.
Qed.

Lemma ring_links m h l : ring m h l -> links m l.
Proof. intros [L _]. by eapply links_of_ring. Qed.

Lemma ring_first_link m h l : ring m h l -> link m h (List.hd h l).
Proof. intros [L _]. destruct l; cbn in *; tauto. Qed.

Lemma ring_last_link m h l : ring m h l -> link m (List.last l h) h.
Proof.
  intros [L _]. destruct l as [|x l _] using rev_ind; [cbn in *; tauto|]. rewrite List.last_last.
  rewrite <- app_assoc, app_comm_cons in L. apply links_app in L as [_ L]. cbn in L. tauto.
Qed.

Lemma ring_prev m h l1 x l2 : ring m h (l1 ++ x :: l2) -> exists n, m !! x = Some n /\ prev n = List.last l1 h.
Proof.
  intros R. apply ring_rotate in R. destruct (ring_link_head _ _ _ R) as (n & Hn & _ & E). exists n. split; [done|].
  rewrite E. destruct l1 as [|y l1 _] using rev_ind; [by rewrite List.last_last|].
  by rewrite app_comm_cons, app_assoc, !List.last_last.
Qed.

(** A ring whose links the writes did not touch, but for its two ends. *)
Lemma ring_rebuilt m m' h l N P :
  links m l -> NoDup (h :: l) -> differ m m' N P ->
  (forall a, a ∈ removelast l -> a ∉ N) -> (forall b, b ∈ tail l -> b ∉ P) ->
  link m' h (List.hd h l) -> link m' (List.last l h) h -> ring m' h l.
Proof. intros L ND D HN HP H1 H2. apply ring_intro; [|done..]. by eapply links_inside. Qed.

Lemma wp_get_inv {A} m x n (k : list_head -> M store A) Q : m !! x = Some n -> wp (n ← get x; k n) Q m -> wp (k n) Q m.
Proof. intros Hx. unfold wp, get, mbind, M_bind, gets. by rewrite Hx. Qed.

Lemma others_mono m m' X Y : others m m' X -> X ⊆ Y -> others m m' Y.
Proof. intros [A B] H. split; [done|]. intros x Hx. apply B. set_solver. Qed.

Lemma others_trans m m1 m2 X : others m m1 X -> others m1 m2 X -> others m m2 X.
Proof. intros [A B] [C D]. split; [congruence|]. intros x Hx. by rewrite D, B. Qed.

Lemma differ_others m m' N P X : differ m m' N P -> N ++ P ⊆ X -> others m m' X.
Proof. intros D H. split; [apply D|]. intros x Hx. apply (df_other _ _ _ _ D); set_solver. Qed.

Lemma last_in (l : list loc) d : l <> [] -> List.last l d ∈ l.
Proof. intros H. rewrite (removelast_hd _ l d H) at 2. set_solver. Qed.

Lemma last_app (r l : list loc) d : l <> [] -> List.last (r ++ l) d = List.last l d.
Proof. intros H. rewrite (removelast_hd _ l d H), app_assoc at 1. by rewrite List.last_last. Qed.

Lemma hd_in (l : list loc) d : l <> [] -> List.hd d l ∈ l.
Proof. destruct l; [done|]. set_solver. Qed.

(** A pointer after the writes [list_write] remembered. *)
Ltac list_read :=
  repeat match goal with
  | H : forall z w, nxt ?m z w <-> nxt _ z w |- nxt ?m _ _ => apply H
  | H : forall z w, prv ?m z w <-> prv _ z w |- prv ?m _ _ => apply H
  | H : forall z w, _ ?m z w <-> (_ \/ _) |- _ ?m _ _ =>
      apply H; first [left; split; reflexivity | right; split; [first [assumption | apply not_eq_sym; assumption]|]]
  end.

(** ** Deletion *)

Lemma list_del_entry_wp m e h l1 l2 (Q : unit -> store -> Prop) :
  ring m h (l1 ++ e :: l2) ->
  (forall m', ring m' h (l1 ++ l2) -> others m m' (h :: l1 ++ l2) -> Q tt m') ->
  wp (__list_del_entry e) Q m.
Proof. apply list_del_wp. Qed.

Lemma ring_mid_fresh m h l1 e l2 : ring m h (l1 ++ e :: l2) -> e ∉ h :: l1 ++ l2.
Proof.
  intros [_ [N1 (_ & N2 & [N3 _]%NoDup_cons)%NoDup_app]%NoDup_cons].
  intros [->|[H|H]%elem_of_app]%elem_of_cons; [set_solver|by apply (N2 _ H); set_solver|done].
Qed.

Lemma k_init_wp m h (Q : unit -> store -> Prop) :
  is_Some (m !! h) -> (forall m', ring m' h [] -> others m m' [h] -> Q tt m') -> wp (K_INIT_LIST_HEAD h) Q m.
Proof. apply INIT_LIST_HEAD_wp. Qed.

(** A ring and an initialised node that is not in it. *)
Lemma then_init_wp m e h l (Q : unit -> store -> Prop) :
  ring m h l -> is_Some (m !! e) -> e ∉ h :: l ->
  (forall m', ring m' h l -> ring m' e [] -> others m m' [e] -> Q tt m') -> wp (K_INIT_LIST_HEAD e) Q m.
Proof.
  intros R He Hn HQ. apply k_init_wp; [done|]. intros m' R' O. apply HQ; [|done|done].
  eapply ring_frame; [exact R|exact O|]. intros x Hx ->%list_elem_of_singleton. done.
Qed.

Lemma k_list_del_init_wp m e h l1 l2 (Q : unit -> store -> Prop) :
  ring m h (l1 ++ e :: l2) ->
  (forall m', ring m' h (l1 ++ l2) -> ring m' e [] -> others m m' (e :: h :: l1 ++ l2) -> Q tt m') ->
  wp (k_list_del_init e) Q m.
Proof.
  intros R HQ. pose proof (ring_mid_fresh _ _ _ _ _ R) as He. destruct (ring_get _ _ _ e R) as [n Hn]; [set_solver +|].
  apply wp_bind. eapply list_del_entry_wp; [exact R|]. intros m1 R1 O1.
  eapply then_init_wp; [exact R1| |exact He|]. { rewrite (proj2 O1) by done. eauto. }
  intros m2 R2 Re O2. apply HQ; [done|done|].
  eapply others_trans; eapply others_mono; [exact O1| |exact O2|]; set_solver +.
Qed.

(** The nodes [r] after the head are cut out together. *)
Lemma first_range_wp m h r l d (Q : unit -> store -> Prop) :
  ring m h (r ++ l) -> r <> [] ->
  (forall m', ring m' h l -> others m m' (h :: l) -> Q tt m') ->
  wp (list_del_range (List.hd d r) (List.last r d)) Q m.
Proof.
  intros R Hr HQ. pose proof (hd_in r d Hr) as Hb. pose proof (last_in r d Hr) as He.
  assert (exists nb, m !! List.hd d r = Some nb /\ prev nb = h) as (nb & Hnb & Hpb).
  { destruct r as [|b r]; [done|]. apply (ring_prev m h [] b (r ++ l)). exact R. }
  assert (exists ne, m !! List.last r d = Some ne /\ next ne = List.hd h l) as (ne & Hne & Hnxe).
  { rewrite (removelast_hd _ r d Hr), <- app_assoc in R. by apply ring_next in R. }
  revert Hb He Hnb Hne. generalize (List.hd d r), (List.last r d). intros b e Hb He Hnb Hne.
  destruct (ring_get _ _ _ h R) as [nh Hnh]; [set_solver +|].
  assert (exists nq, m !! List.hd h l = Some nq) as [nq Hnq] by (eapply ring_get; [exact R|]; destruct l; set_solver +).
  pose proof R as [L N]. pose proof N as [N1 N2]%NoDup_cons. rewrite elem_of_app in N1.
  assert (h <> b /\ h <> e) as [Hhb Hhe] by (split; intros E; subst; tauto).
  pose proof (differ_refl m [h] [List.hd h l]) as D. unfold list_del_range.
  apply wp_bind. eapply wp_get; [exact Hnb|]. apply wp_bind. eapply wp_get; [exact Hne|]. rewrite Hpb, Hnxe.
  list_write D. apply wp_bind. eapply wp_get; [rewrite lookup_insert_ne by done; exact Hne|].
  apply wp_bind. eapply wp_get; [rewrite lookup_insert_ne by done; exact Hnb|]. rewrite Hpb, Hnxe. list_write D.
  apply NoDup_app in N2 as (_ & N3 & N4).
  apply HQ; [|eapply differ_others; [exact D|]; destruct l; set_solver +].
  eapply ring_rebuilt; [|apply NoDup_cons; split; [tauto|exact N4]|exact D|..].
  - apply ring_links in R. destruct r as [|x r]; [done|]. cbn [app] in R. destruct l as [|y l]; [done|].
    rewrite app_comm_cons in R. by apply links_app in R as [_ R].
  - intros a Ha%in_removelast ->%list_elem_of_singleton. tauto.
  - intros c Hc ->%list_elem_of_singleton. destruct l as [|y l]; [by apply not_elem_of_nil in Hc|]. cbn in Hc.
    by apply NoDup_cons in N4 as [N4 _].
  - apply link_alt; split; naive_solver.
  - destruct (decide (l = [])) as [->|Hl]; [apply link_alt; split; naive_solver|].
    pose proof (last_in l h Hl). apply (link_same m); [|apply (df_next _ _ _ _ D)|apply (df_prev _ _ _ _ D)].
    + rewrite <- (last_app r l h Hl). by apply ring_last_link.
    + intros E%list_elem_of_singleton. rewrite <- E in N1. tauto.
    + intros E%list_elem_of_singleton. pose proof (hd_in l h Hl) as Hh. rewrite <- E in Hh. tauto.
Qed.

Lemma rotate_at m h l1 l2 : ring m h (l1 ++ l2) ->
  l1 = [] \/ exists l x, l1 = l ++ [x] /\ ring m x (l2 ++ h :: l).
Proof.
  intros R. destruct l1 as [|x l _] using rev_ind; [by left|]. right. exists l, x. split; [done|].
  rewrite <- app_assoc in R. by apply ring_rotate in R.
Qed.

Lemma list_del_range_wp m h l1 r l2 d (Q : unit -> store -> Prop) :
  ring m h (l1 ++ r ++ l2) -> r <> [] ->
  (forall m', ring m' h (l1 ++ l2) -> others m m' (h :: l1 ++ l2) -> Q tt m') ->
  wp (list_del_range (List.hd d r) (List.last r d)) Q m.
Proof.
  intros R Hr HQ. pose proof (rotate_at _ _ _ _ R) as [->|(l & x & -> & R')].
  - by eapply first_range_wp.
  - rewrite <- app_assoc in R'. eapply first_range_wp; [exact R'|done|]. intros m' R2 O. apply HQ.
    + rewrite <- app_assoc. by apply ring_rotate.
    + eapply others_mono; [exact O|]. set_solver +.
Qed.

(** ** Replacement *)

(** A head of a list that is not empty is replaced. *)
Lemma replace_head_wp m old new l (Q : unit -> store -> Prop) :
  ring m old l -> l <> [] -> is_Some (m !! new) -> new ∉ old :: l ->
  (forall m', ring m' new l -> m' !! old = m !! old -> others m m' (new :: l) -> Q tt m') ->
  wp (k_list_replace old new) Q m.
Proof.
  intros R Hl [nn Hnn] Hnew HQ. destruct (ring_link_head _ _ _ R) as (no & Hno & Hf & Hla).
  apply not_elem_of_cons in Hnew as [Hne Hnew].
  pose proof R as [L N]. pose proof N as [N1 N2]%NoDup_cons.
  pose proof (hd_in l old Hl) as Hfi. pose proof (last_in l old Hl) as Hli.
  destruct (ring_get _ _ _ (List.hd old l) R) as [nf Hnf]; [set_solver +Hfi|].
  destruct (ring_get _ _ _ (List.last l old) R) as [nl Hnl]; [set_solver +Hli|].
  assert (forall x, List.hd x l = List.hd old l /\ List.last l x = List.last l old) as Hd.
  { intros x. destruct l as [|y l']; [done|]. split; [done|]. destruct (exists_last (l := y :: l')) as (? & ? & ->); [done|].
    by rewrite !List.last_last. }
  revert Hf Hla Hfi Hli Hnf Hnl Hd. generalize (List.hd old l), (List.last l old). intros f la Hf Hla Hfi Hli Hnf Hnl Hd.
  assert (f <> old /\ la <> old /\ f <> new /\ la <> new) as (F1 & F2 & F3 & F4) by (split_and!; intros ->; done).
  pose proof (differ_refl m [new; la] [new; f]) as D. unfold k_list_replace.
  apply wp_bind. eapply wp_get; [exact Hno|]. rewrite Hf. list_write D.
  apply wp_bind. eapply wp_get; [by rewrite lookup_insert_eq|]. cbn [next]. list_write D.
  apply wp_bind. eapply wp_get; [rewrite !lookup_insert_ne by done; exact Hno|]. rewrite Hla. list_write D.
  apply wp_bind. eapply wp_get; [by rewrite lookup_insert_eq|]. cbn [prev]. list_write D.
  apply HQ.
  - destruct (Hd new) as [E1 E2]. apply (ring_rebuilt m _ new l [new; la] [new; f]).
    + by apply ring_links in R.
    + by apply NoDup_cons.
    + exact D.
    + intros a Ha. pose proof (in_removelast _ _ Ha) as Hin. pose proof (not_in_removelast l a old N2 Hl Ha) as Ha2.
      rewrite (proj2 (Hd old)) in Ha2. set_solver +Hin Ha2 Hnew.
    + intros b Hb. destruct l as [|y l]; [done|]. destruct (Hd 0) as [E3 _]. cbn in E3, Hb. subst y.
      apply NoDup_cons in N2 as [N2 _]. set_solver +N2 Hb Hnew.
    + rewrite E1. apply link_alt; split; list_read.
    + rewrite E2. apply link_alt; split; list_read.
  - rewrite !lookup_insert_ne by done. done.
  - eapply differ_others; [exact D|]. set_solver +Hfi Hli.
Qed.

(** A node of a list is replaced. *)
Lemma k_list_replace_wp m h l1 old l2 new (Q : unit -> store -> Prop) :
  ring m h (l1 ++ old :: l2) -> is_Some (m !! new) -> new ∉ h :: l1 ++ old :: l2 ->
  (forall m', ring m' h (l1 ++ new :: l2) -> m' !! old = m !! old -> others m m' (new :: h :: l1 ++ l2) -> Q tt m') ->
  wp (k_list_replace old new) Q m.
Proof.
  intros R Hnew Hn HQ. eapply replace_head_wp; [by apply ring_rotate|by destruct l2|done|set_solver +Hn|].
  intros m' R' Hold O. apply HQ; [by apply ring_rotate|done|]. eapply others_mono; [exact O|]. set_solver +.
Qed.

(** ** Splicing *)

Lemma splice_after_wp m hl l h t (Q : unit -> store -> Prop) :
  ring m hl l -> ring m h t -> NoDup (hl :: h :: l ++ t) -> l <> [] ->
  (forall m', ring m' h (l ++ t) -> m' !! hl = m !! hl -> others m m' (h :: l ++ t) -> Q tt m') ->
  wp (__list_splice hl h (List.hd h t)) Q m.
Proof.
  intros R1 R2 N E HQ. destruct (ring_link_head _ _ _ R2) as (n & Hn & <- & _).
  apply (wp_get_inv m h n (fun n => __list_splice hl h (next n))); [exact Hn|]. by eapply __list_splice_wp.
Qed.

Lemma splice_before_wp m hl l h t (Q : unit -> store -> Prop) :
  ring m hl l -> ring m h t -> NoDup (hl :: h :: l ++ t) -> l <> [] ->
  (forall m', ring m' h (t ++ l) -> m' !! hl = m !! hl -> others m m' (h :: l ++ t) -> Q tt m') ->
  wp (__list_splice hl (List.last t h) h) Q m.
Proof.
  intros R1 R2 N E HQ. destruct t as [|x t _] using rev_ind.
  - eapply (splice_after_wp m hl l h []); [done..|]. intros m' R O. rewrite app_nil_r in *. by apply HQ.
  - rewrite List.last_last. apply ring_rotate in R2. eapply (splice_after_wp m hl l x ([] ++ h :: t)); [done|done| |done|].
    + assert (hl :: x :: l ++ [] ++ h :: t ≡ₚ hl :: h :: l ++ t ++ [x]) as -> by solve_Permutation. exact N.
    + intros m' R Hh O. apply HQ; [|done|eapply others_mono; [exact O|set_solver +]].
      rewrite <- app_assoc. apply ring_rotate. exact R.
Qed.

Section splices.
Context {m : store} {s h : loc} {l t : list loc}.
Hypotheses (Rs : ring m s l) (Rh : ring m h t) (N : NoDup (s :: h :: l ++ t)).

Lemma k_list_splice_wp (Q : unit -> store -> Prop) :
  (forall m', ring m' h (l ++ t) -> others m m' (s :: h :: l ++ t) -> Q tt m') -> wp (k_list_splice s h) Q m.
Proof using Rs Rh N.
  intros HQ. apply (list_splice_wp m s l h t); [done..|]. intros m' R _ O. apply HQ; [done|].
  eapply others_mono; [exact O|set_solver +].
Qed.

Lemma k_list_splice_init_wp (Q : unit -> store -> Prop) :
  (forall m', ring m' h (l ++ t) -> ring m' s [] -> others m m' (s :: h :: l ++ t) -> Q tt m') ->
  wp (k_list_splice_init s h) Q m.
Proof using Rs Rh N. intros HQ. by apply (list_splice_init_wp m s l h t). Qed.

Lemma k_list_empty_wp x lx (Q : bool -> store -> Prop) :
  ring m x lx -> Q (bool_decide (lx = [])) m -> wp (k_list_empty x) Q m.
Proof. apply list_empty_wp. Qed.

(** Splicing before the head, then [k]. *)
Lemma splice_tail_then (k : M store unit) (Q : unit -> store -> Prop) :
  (l = [] -> Q tt m) ->
  (forall m', l <> [] -> ring m' h (t ++ l) -> m' !! s = m !! s -> others m m' (h :: l ++ t) -> wp k Q m') ->
  wp (e ← k_list_empty s; if (e : bool) then mret tt else n ← get h; __list_splice s (prev n) h;; k) Q m.
Proof using Rs Rh N.
  intros H0 H1. apply wp_bind. eapply k_list_empty_wp; [exact Rs|]. case_bool_decide as E; [by apply wp_ret, H0|].
  destruct (ring_link_head _ _ _ Rh) as (n & Hn & _ & Hp). apply wp_bind. eapply wp_get; [exact Hn|]. rewrite Hp.
  apply wp_bind. eapply splice_before_wp; [exact Rs|exact Rh|exact N|done|]. intros m' R Hs O. by apply H1.
Qed.

Lemma k_list_splice_tail_init_wp (Q : unit -> store -> Prop) :
  (forall m', ring m' h (t ++ l) -> ring m' s [] -> others m m' (s :: h :: l ++ t) -> Q tt m') ->
  wp (k_list_splice_tail_init s h) Q m.
Proof using Rs Rh N.
  intros HQ. apply splice_tail_then; [intros E; apply HQ; [by rewrite E, app_nil_r|by rewrite <- E|done]|].
  intros m1 E R Hs O. destruct (ring_get _ _ _ s Rs) as [ns Hns]; [set_solver +|].
  eapply then_init_wp; [exact R|rewrite Hs; eauto| |].
  - apply NoDup_cons in N as [N1 _]. set_solver +N1.
  - intros m2 R2 Rs2 O2. apply HQ; [done|done|].
    eapply others_trans; eapply others_mono; [exact O| |exact O2|]; set_solver +.
Qed.

Lemma k_list_splice_tail_wp (Q : unit -> store -> Prop) :
  (forall m', ring m' h (t ++ l) -> others m m' (s :: h :: l ++ t) -> Q tt m') -> wp (k_list_splice_tail s h) Q m.
Proof using Rs Rh N.
  intros HQ. apply wp_bind. eapply k_list_empty_wp; [exact Rs|].
  case_bool_decide as E; [apply wp_ret, HQ; [by rewrite E, app_nil_r|done]|].
  destruct (ring_link_head _ _ _ Rh) as (n & Hn & _ & Hp). apply wp_bind. eapply wp_get; [exact Hn|]. rewrite Hp.
  eapply splice_before_wp; [exact Rs|exact Rh|exact N|done|]. intros m' R Hs O. apply HQ; [done|].
  eapply others_mono; [exact O|set_solver +].
Qed.
End splices.

(** ** Queries *)

Lemma head_first m h l : ring m h l -> (List.hd h l =? h) = bool_decide (l = []).
Proof.
  intros [_ N]. destruct l as [|x l]; cbn [List.hd]; [by rewrite Z.eqb_refl|]. apply NoDup_cons in N as [N _].
  rewrite bool_decide_false by done. apply Z.eqb_neq. set_solver.
Qed.

Lemma first_is_last m h l : ring m h l -> (List.hd h l =? List.last l h) = bool_decide (length l <= 1)%nat.
Proof.
  intros [_ [_ N]%NoDup_cons]. destruct l as [|x l]; cbn [List.hd]; [by rewrite Z.eqb_refl|].
  destruct (decide (l = [])) as [->|Hl]; [cbn; by rewrite Z.eqb_refl|].
  change (x :: l) with ([x] ++ l). rewrite last_app by done. apply NoDup_cons in N as [N _].
  rewrite bool_decide_false by (destruct l; [done|cbn; lia]). apply Z.eqb_neq. intros E. pose proof (last_in l h Hl). by rewrite <- E in *.
Qed.

Lemma k_list_is_last_wp m h l e (Q : bool -> store -> Prop) :
  ring m h l -> e ∈ h :: l -> Q (bool_decide (e = List.last l h)) m -> wp (k_list_is_last e h) Q m.
Proof.
  intros R He HQ.
  assert (exists n, m !! e = Some n /\ (next n =? h) = bool_decide (e = List.last l h)) as (n & Hn & E).
  { pose proof R as [_ N]. apply elem_of_cons in He as [->|(l1 & l2 & ->)%list_elem_of_split].
    - destruct (ring_link_head _ _ _ R) as (n & Hn & Hx & _). exists n. split; [done|]. rewrite Hx, (head_first _ _ _ R).
      apply bool_decide_ext. split; [by intros ->|]. intros E. destruct (decide (l = [])) as [|Hl]; [done|].
      pose proof (last_in l h Hl) as Hi. rewrite <- E in Hi. apply NoDup_cons in N as [N _]. done.
    - destruct (ring_next _ _ _ _ _ R) as (n & Hn & Hx). exists n. split; [done|]. rewrite Hx.
      apply NoDup_cons in N as [N1 (_ & _ & [N2 _]%NoDup_cons)%NoDup_app]. rewrite last_app by done.
      destruct (decide (l2 = [])) as [->|Hl]; [cbn; by rewrite Z.eqb_refl, bool_decide_true|].
      change (e :: l2) with ([e] ++ l2). rewrite last_app by done. pose proof (last_in l2 h Hl). pose proof (hd_in l2 h Hl).
      rewrite bool_decide_false by (intros ->; done). apply Z.eqb_neq. intros E. rewrite E in *. set_solver. }
  apply wp_bind. eapply wp_get; [exact Hn|]. apply wp_ret. by rewrite E.
Qed.

Lemma k_list_empty_careful_wp m h l (Q : bool -> store -> Prop) :
  ring m h l -> Q (bool_decide (l = [])) m -> wp (k_list_empty_careful h) Q m.
Proof.
  intros R HQ. destruct (ring_link_head _ _ _ R) as (n & Hn & Hf & Hp). apply wp_bind. eapply wp_get; [exact Hn|].
  apply wp_ret. rewrite Hf, Hp, (head_first _ _ _ R), (first_is_last _ _ _ R). by destruct l.
Qed.

Lemma k_list_is_singular_wp m h l (Q : bool -> store -> Prop) :
  ring m h l -> Q (bool_decide (length l = 1%nat)) m -> wp (k_list_is_singular h) Q m.
Proof.
  intros R HQ. destruct (ring_link_head _ _ _ R) as (n & Hn & Hf & Hp). apply wp_bind.
  eapply k_list_empty_wp; [exact R|]. apply wp_bind. eapply wp_get; [exact Hn|].
  apply wp_ret. rewrite Hf, Hp, (first_is_last _ _ _ R). by destruct l as [|x [|y l]].
Qed.

(** ** Cutting *)

Lemma cut_position_wp m head l1 entry l2 list (Q : unit -> store -> Prop) :
  ring m head (l1 ++ entry :: l2) -> is_Some (m !! list) -> list ∉ head :: l1 ++ entry :: l2 ->
  (forall m', ring m' list (l1 ++ [entry]) -> ring m' head l2 -> others m m' (list :: head :: l1 ++ entry :: l2) -> Q tt m') ->
  wp (__list_cut_position list head entry) Q m.
Proof.
  intros R [nl Hnl] Hlist HQ. set (l := l1 ++ [entry]).
  assert (l1 ++ entry :: l2 = l ++ l2) as El by (unfold l; by rewrite <- app_assoc). rewrite El in *.
  destruct (ring_link_head _ _ _ R) as (nh & Hnh & Hf & _).
  assert (l <> []) as Hl by (unfold l; by destruct l1).
  assert (List.hd head (l ++ l2) = List.hd head l) as Ehd by by destruct l. rewrite Ehd in Hf.
  assert (entry ∈ l) as Hen by (unfold l; set_solver +).
  assert (exists ne, m !! entry = Some ne /\ next ne = List.hd head l2) as (ne & Hne & Hnx).
  { rewrite <- El in R. by apply ring_next in R. }
  pose proof R as [_ N]. apply NoDup_cons in N as [N1 (N2 & N3 & N4)%NoDup_app]. rewrite elem_of_app in N1.
  apply not_elem_of_cons in Hlist as [L1 L2]. rewrite elem_of_app in L2.
  pose proof (hd_in l head Hl) as Hfi. destruct (ring_get _ _ _ (List.hd head l) R) as [nf Hnf]; [set_solver +Hfi|].
  destruct (ring_get _ _ _ (List.hd head l2) R) as [nq Hnq]; [destruct l2; set_solver +|].
  assert (links m l /\ links m l2) as [Ll Ll2].
  { pose proof (ring_links _ _ _ R) as Lm. split; [by eapply links_app_l|]. destruct l2 as [|y l2]; [done|].
    by apply links_app in Lm as [_ Lm]. }
  assert (List.hd list l = List.hd head l) as Eh by by destruct l.
  assert (forall d, List.last l d = entry) as Ela by (intros d; unfold l; apply List.last_last).
  assert (List.hd head l2 ∈ head :: l2) as Hq by (destruct l2; set_solver +).
  assert (forall b, b ∈ tail l -> b ∈ l /\ b <> List.hd head l) as Htl.
  { destruct l as [|y l']; [done|]. apply NoDup_cons in N2 as [N2 _]. cbn. intros b Hb. split; [set_solver +Hb|]. by intros ->. }
  assert (forall b, b ∈ tail l2 -> b ∈ l2 /\ b <> List.hd head l2) as Htl2.
  { destruct l2 as [|y l']; [by intros ? ?%not_elem_of_nil|]. apply NoDup_cons in N4 as [N4 _]. cbn. intros b Hb.
    split; [set_solver +Hb|]. by intros ->. }
  assert (l2 <> [] -> link m (List.last l2 head) head) as Hlast.
  { intros E. rewrite <- (last_app l l2 head E). by apply ring_last_link. }
  assert (l2 <> [] -> List.hd head l2 ∈ l2) as Hq2 by apply hd_in.
  remember (List.hd head l) as f eqn:Ef. remember (List.hd head l2) as q eqn:Eq.
  assert (f <> head /\ f <> list /\ entry <> head /\ entry <> list /\ q <> list) as (F1 & F2 & F3 & F4 & F5)
    by (split_and!; intros ->; set_solver).
  assert (f <> q) as F6 by (intros ->; set_solver).
  pose proof (differ_refl m [list; entry; head] [f; list; q]) as D. unfold __list_cut_position.
  apply wp_bind. eapply wp_get; [exact Hne|]. rewrite Hnx. apply wp_bind. eapply wp_get; [exact Hnh|]. rewrite Hf.
  list_write D. apply wp_bind. eapply wp_get; [by rewrite lookup_insert_eq|]. cbn [next].
  list_write D. list_write D. list_write D. list_write D. list_write D.
  match type of D with differ _ ?m1 _ _ => assert (link m1 list f /\ link m1 entry list /\ link m1 head q) as (K1 & K2 & K3)
    by (split_and!; apply link_alt; split; list_read) end.
  match type of D with differ _ ?m1 _ _ => revert D K1 K2 K3; generalize m1; clear -HQ N1 N2 N3 N4 L1 L2 Ll Ll2 Eh Ela Eq Htl Htl2 Hlast Hq Hq2 Hen Hfi Hl F3 F4 end.
  intros m' D K1 K2 K3. rewrite <- (Ela head) in K2. apply HQ.
  - apply (ring_rebuilt m m' list l [list; entry; head] [f; list; q]); [done|apply NoDup_cons; tauto|exact D| | |by rewrite Eh|by rewrite Ela in *].
    + intros a Ha. pose proof (in_removelast _ _ Ha). pose proof (not_in_removelast l a head N2 Hl Ha) as Hne. rewrite Ela in Hne.
      rewrite !not_elem_of_cons. split_and!; [by intros ->; tauto|done|by intros ->; tauto|apply not_elem_of_nil].
    + intros b [Hb1 Hb2]%Htl. rewrite !not_elem_of_cons. split_and!; [done|by intros ->; tauto| |apply not_elem_of_nil].
      intros ->. apply elem_of_cons in Hq as [->|Hq]; [tauto|by apply (N3 q)].
  - apply (ring_rebuilt m m' head l2 [list; entry; head] [f; list; q]); [done|apply NoDup_cons; tauto|exact D| | |by rewrite <- Eq|].
    + intros a Ha%in_removelast. rewrite !not_elem_of_cons. split_and!; [by intros ->; tauto|by intros ->; apply (N3 entry)|by intros ->; tauto|apply not_elem_of_nil].
    + intros b [Hb1 Hb2]%Htl2. rewrite !not_elem_of_cons. split_and!; [by intros ->; apply (N3 f)|by intros ->; tauto|done|apply not_elem_of_nil].
    + destruct (decide (l2 = [])) as [E|E]; [rewrite E in *; cbn in *; congruence|]. pose proof (last_in l2 head E) as Hi.
      apply (link_same m); [by apply Hlast|apply (df_next _ _ _ _ D)|apply (df_prev _ _ _ _ D)]; rewrite !not_elem_of_cons.
      * split_and!; [intros E2; rewrite E2 in Hi; tauto|intros E2; rewrite E2 in Hi; by apply (N3 entry)|intros E2; rewrite E2 in Hi; tauto|apply not_elem_of_nil].
      * split_and!; [by intros ->; tauto|done|intros ->; tauto|apply not_elem_of_nil].
  - eapply differ_others; [exact D|]. intros x. rewrite !elem_of_app, !elem_of_cons, !elem_of_nil, elem_of_app.
    apply elem_of_cons in Hq. naive_solver.
Qed.

(** ** The loops *)

Lemma for_each_wp m h l1 l2 fuel (Q : list loc -> store -> Prop) :
  ring m h (l1 ++ l2) -> (length l2 < fuel)%nat -> Q l2 m -> wp (for_each fuel (List.hd h l2) h) Q m.
Proof.
  revert l1 fuel Q. induction l2 as [|x l2 IH]; intros l1 fuel Q R Hf HQ;
    (destruct fuel as [|fuel]; [cbn in Hf; lia|]); cbn [for_each List.hd].
  - rewrite Z.eqb_refl. by apply wp_ret.
  - rewrite (proj2 (Z.eqb_neq x h)).
    2: { destruct R as [_ [N _]%NoDup_cons]. set_solver +N. }
    destruct (ring_next _ _ _ _ _ R) as (n & Hn & Hx). apply wp_bind. eapply wp_get; [exact Hn|]. rewrite Hx.
    apply wp_bind. eapply (IH (l1 ++ [x])); [by rewrite <- app_assoc|cbn in Hf; lia|]. by apply wp_ret.
Qed.

Lemma k_list_for_each_wp m h l fuel (Q : list loc -> store -> Prop) :
  ring m h l -> (length l < fuel)%nat -> Q l m -> wp (k_list_for_each fuel h) Q m.
Proof.
  intros R Hf HQ. destruct (ring_link_head _ _ _ R) as (n & Hn & Hx & _). apply wp_bind. eapply wp_get; [exact Hn|].
  rewrite Hx. by apply (for_each_wp m h []).
Qed.

Lemma for_each_prev_wp m h l1 l2 fuel (Q : list loc -> store -> Prop) :
  ring m h (l1 ++ l2) -> (length l1 < fuel)%nat -> Q (reverse l1) m -> wp (for_each_prev fuel (List.last l1 h) h) Q m.
Proof.
  revert l2 fuel Q. induction l1 as [|x l1 IH] using rev_ind; intros l2 fuel Q R Hf HQ;
    (destruct fuel as [|fuel]; [cbn in Hf; lia|]); cbn [for_each_prev].
  - cbn. rewrite Z.eqb_refl. by apply wp_ret.
  - rewrite List.last_last, (proj2 (Z.eqb_neq x h)).
    2: { destruct R as [_ [N _]%NoDup_cons]. set_solver +N. }
    rewrite <- app_assoc in R. destruct (ring_prev _ _ _ _ _ R) as (n & Hn & Hx).
    apply wp_bind. eapply wp_get; [exact Hn|]. rewrite Hx. rewrite length_app in Hf. cbn in Hf.
    apply wp_bind. eapply (IH ([x] ++ l2)); [exact R|lia|]. apply wp_ret. by rewrite reverse_snoc in HQ.
Qed.

Lemma k_list_for_each_prev_wp m h l fuel (Q : list loc -> store -> Prop) :
  ring m h l -> (length l < fuel)%nat -> Q (reverse l) m -> wp (k_list_for_each_prev fuel h) Q m.
Proof.
  intros R Hf HQ. destruct (ring_link_head _ _ _ R) as (n & Hn & _ & Hx). apply wp_bind. eapply wp_get; [exact Hn|].
  rewrite Hx. eapply (for_each_prev_wp m h l []); [by rewrite app_nil_r|done|done].
Qed.

(** The successor is read before the body takes the node out. *)
Lemma for_each_safe_wp m h l fuel (Q : list loc -> store -> Prop) n nn :
  ring m h l -> (length l < fuel)%nat -> m !! List.hd h l = Some nn -> next nn = n ->
  (forall m', ring m' h [] -> others m m' (h :: l) -> Q l m') ->
  wp (for_each_safe fuel k_list_del_init (List.hd h l) n h) Q m.
Proof.
  revert m fuel Q n nn. induction l as [|x l IH]; intros m fuel Q n nn R Hf Hn <- HQ;
    (destruct fuel as [|fuel]; [cbn in Hf; lia|]); cbn [for_each_safe List.hd].
  - rewrite Z.eqb_refl. apply wp_ret. by apply HQ.
  - rewrite (proj2 (Z.eqb_neq x h)).
    2: { destruct R as [_ [N _]%NoDup_cons]. set_solver +N. }
    destruct (ring_next m h [] x l R) as (n' & Hn' & Hx). cbn in Hn. rewrite Hn in Hn'. injection Hn' as <-. rewrite Hx.
    apply wp_bind. eapply (k_list_del_init_wp m x h [] l); [exact R|]. intros m1 R1 _ O1. cbn in R1, O1.
    destruct (ring_get m1 h l (List.hd h l) R1) as [k Hk]; [destruct l; set_solver +|].
    apply wp_bind. eapply wp_get; [exact Hk|]. apply wp_bind. eapply IH; [exact R1|cbn in Hf; lia|exact Hk|done|].
    intros m2 R2 O2. apply wp_ret. apply HQ; [done|].
    eapply others_trans; eapply others_mono; [exact O1| |exact O2|]; set_solver +.
Qed.

Lemma k_list_for_each_safe_wp m h l fuel (Q : list loc -> store -> Prop) :
  ring m h l -> (length l < fuel)%nat -> (forall m', ring m' h [] -> others m m' (h :: l) -> Q l m') ->
  wp (k_list_for_each_safe fuel k_list_del_init h) Q m.
Proof.
  intros R Hf HQ. destruct (ring_link_head _ _ _ R) as (n & Hn & Hx & _). apply wp_bind. eapply wp_get; [exact Hn|].
  rewrite Hx. destruct (ring_get m h l (List.hd h l) R) as [k Hk]; [destruct l; set_solver +|].
  apply wp_bind. eapply wp_get; [exact Hk|]. by eapply for_each_safe_wp.
Qed.
