(* ===== verification/KernelLoops.v ===== *)
(** * hashtable-linux-kernel: the loops over entries

    The loop macros of [src/hashtable-linux-kernel/list.h] over the structures a
    list links: an entry is the address of a structure whose [k_list_head] is
    [off] bytes into it.  The loops of both directions have one proof. *)

From S2P Require Import Prelude KList KListSpec KernelList KernelListOps.
Import KList KernelList.

Module KernelLoops.
Section entries.
Context (off : Z).

(** [k_container_of(ptr, type, member)], and [&pos->member]. *)
Definition k_list_entry (ptr : loc) : loc := ptr - off.
Definition member_of (pos : loc) : loc := pos + off.

Definition k_list_next_entry (pos : loc) : M store loc := n ← get (member_of pos); mret (k_list_entry (next n)).
Definition k_list_prev_entry (pos : loc) : M store loc := n ← get (member_of pos); mret (k_list_entry (prev n)).
Definition first_entry (head : loc) : M store loc := x ← k_list_first_entry head; mret (k_list_entry x).
Definition last_entry (head : loc) : M store loc := x ← k_list_last_entry head; mret (k_list_entry x).

Definition k_list_first_entry_or_null (head : loc) : M store ptr :=
  e ← k_list_empty head;
  if (e : bool) then mret None else x ← first_entry head; mret (Some x).
Definition k_list_last_entry_or_null (head : loc) : M store ptr :=
  e ← k_list_empty head;
  if (e : bool) then mret None else x ← last_entry head; mret (Some x).

(** [for (; &pos->member != (head); pos = step(pos))] with a body that lists the
    entries, and the loop that has the entry after [pos] in [n] before the body
    runs. *)
Fixpoint entry_loop (fuel : nat) (step : loc -> M store loc) (pos head : loc) : M store (list loc) :=
  match fuel with
  | O => ub
  | S fuel =>
      if member_of pos =? head then mret []
      else p ← step pos; rest ← entry_loop fuel step p head; mret (pos :: rest)
  end.

Fixpoint safe_loop (fuel : nat) (step : loc -> M store loc) (body : loc -> M store unit) (pos n head : loc) : M store (list loc) :=
  match fuel with
  | O => ub
  | S fuel =>
      if member_of pos =? head then mret []
      else body pos;; x ← step n; rest ← safe_loop fuel step body n x head; mret (pos :: rest)
  end.

Definition k_list_for_each_entry (fuel : nat) (head : loc) : M store (list loc) :=
  pos ← first_entry head; entry_loop fuel k_list_next_entry pos head.
Definition k_list_for_each_entry_reverse (fuel : nat) (head : loc) : M store (list loc) :=
  pos ← last_entry head; entry_loop fuel k_list_prev_entry pos head.

Definition k_list_prepare_entry (pos : ptr) (head : loc) : loc :=
  match pos with Some p => p | None => k_list_entry head end.
Definition k_list_for_each_entry_continue (fuel : nat) (pos head : loc) : M store (list loc) :=
  pos ← k_list_next_entry pos; entry_loop fuel k_list_next_entry pos head.
Definition k_list_for_each_entry_continue_reverse (fuel : nat) (pos head : loc) : M store (list loc) :=
  pos ← k_list_prev_entry pos; entry_loop fuel k_list_prev_entry pos head.
Definition k_list_for_each_entry_from (fuel : nat) (pos head : loc) : M store (list loc) :=
  entry_loop fuel k_list_next_entry pos head.

Definition k_list_for_each_entry_safe (fuel : nat) (body : loc -> M store unit) (head : loc) : M store (list loc) :=
  pos ← first_entry head; n ← k_list_next_entry pos; safe_loop fuel k_list_next_entry body pos n head.
Definition k_list_for_each_entry_safe_continue (fuel : nat) (body : loc -> M store unit) (pos head : loc) : M store (list loc) :=
  pos ← k_list_next_entry pos; n ← k_list_next_entry pos; safe_loop fuel k_list_next_entry body pos n head.
Definition k_list_for_each_entry_safe_from (fuel : nat) (body : loc -> M store unit) (pos head : loc) : M store (list loc) :=
  n ← k_list_next_entry pos; safe_loop fuel k_list_next_entry body pos n head.
Definition k_list_for_each_entry_safe_reverse (fuel : nat) (body : loc -> M store unit) (head : loc) : M store (list loc) :=
  pos ← last_entry head; n ← k_list_prev_entry pos; safe_loop fuel k_list_prev_entry body pos n head.
End entries.

(** The loops over the list heads themselves. *)
Definition list_for_each_from (fuel : nat) (pos head : loc) : M store (list loc) := for_each fuel pos head.

Fixpoint for_each_prev_safe (fuel : nat) (body : loc -> M store unit) (pos n head : loc) : M store (list loc) :=
  match fuel with
  | O => ub
  | S fuel =>
      if pos =? head then mret []
      else body pos;; x ← get n; rest ← for_each_prev_safe fuel body n (prev x) head; mret (pos :: rest)
  end.
Definition k_list_for_each_prev_safe (fuel : nat) (body : loc -> M store unit) (head : loc) : M store (list loc) :=
  h ← get head; p ← get (prev h); for_each_prev_safe fuel body (prev h) (prev p) head.

(** ** One use of a loop *)

(** [f] says which entries the body of a safe loop takes out. *)
Inductive loop :=
  | LFirst | LLast
  | LNext (pos : loc) | LPrev (pos : loc)
  | LEach | LReverse
  | LContinue (pos : ptr) | LContinueReverse (pos : ptr) | LFrom (pos : loc)
  | LSafe (f : loc -> bool) | LSafeReverse (f : loc -> bool)
  | LSafeContinue (f : loc -> bool) (pos : ptr) | LSafeFrom (f : loc -> bool) (pos : loc)
  | LNodesFrom (pos : loc) | LNodesPrevSafe (f : loc -> bool).

Definition take_out (off : Z) (f : loc -> bool) (pos : loc) : M store unit :=
  if f pos then k_list_del_init (member_of off pos) else mret tt.

Definition lexec (fuel : nat) (off : Z) (c : loop) (h : loc) : M store (list Z) :=
  match c with
  | LFirst => x ← k_list_first_entry_or_null off h; mret (option_list x)
  | LLast => x ← k_list_last_entry_or_null off h; mret (option_list x)
  | LNext pos => x ← k_list_next_entry off pos; mret [x]
  | LPrev pos => x ← k_list_prev_entry off pos; mret [x]
  | LEach => k_list_for_each_entry off fuel h
  | LReverse => k_list_for_each_entry_reverse off fuel h
  | LContinue pos => k_list_for_each_entry_continue off fuel (k_list_prepare_entry off pos h) h
  | LContinueReverse pos => k_list_for_each_entry_continue_reverse off fuel (k_list_prepare_entry off pos h) h
  | LFrom pos => k_list_for_each_entry_from off fuel pos h
  | LSafe f => k_list_for_each_entry_safe off fuel (take_out off f) h
  | LSafeReverse f => k_list_for_each_entry_safe_reverse off fuel (take_out off f) h
  | LSafeContinue f pos => k_list_for_each_entry_safe_continue off fuel (take_out off f) (k_list_prepare_entry off pos h) h
  | LSafeFrom f pos => k_list_for_each_entry_safe_from off fuel (take_out off f) pos h
  | LNodesFrom pos => list_for_each_from fuel pos h
  | LNodesPrevSafe f => k_list_for_each_prev_safe fuel (fun x => if f x then k_list_del_init x else mret tt) h
  end.
End KernelLoops.
Import KernelLoops.

(** ** On sequences *)

Fixpoint split_at (e : loc) (l : list loc) : option (list loc * list loc) :=
  match l with
  | [] => None
  | x :: l => if x =? e then Some ([], l) else r ← split_at e l; Some (x :: fst r, snd r)
  end.

Lemma split_at_spec e l r : split_at e l = Some r -> l = fst r ++ e :: snd r.
Proof.
  revert r. induction l as [|x l IH]; intros r; cbn; [done|]. destruct (Z.eqb_spec x e) as [->|Hne]; [by intros [= <-]|].
  destruct (split_at e l) as [[a b]|]; [|done]. cbn. intros [= <-]. cbn. by rewrite (IH _ eq_refl) at 1.
Qed.

(** What a loop has passed and what it is to visit, from [e], which may be the
    head, on; and from the one after it. *)
Definition from (e h : loc) (l : list loc) : option (list loc * list loc) :=
  if e =? h then Some (l, []) else r ← split_at e l; Some (fst r, e :: snd r).
Definition after (e h : loc) (l : list loc) : option (list loc * list loc) :=
  if e =? h then Some ([], l) else r ← split_at e l; Some (fst r ++ [e], snd r).

(** The sequence in the direction of the loop. *)
Definition along (back : bool) (l : list loc) : list loc := if back then reverse l else l.

Definition kept (off : Z) (f : loc -> bool) (l : list loc) : list loc := filter (fun x => f (k_list_entry off x) = false) l.

(** The entries of [r] are visited, and those [f] takes out are gone. *)
Definition visited (off : Z) (back : bool) (f : loc -> bool) (r : list loc * list loc) : list Z * list loc :=
  (k_list_entry off <$> snd r, along back (fst r ++ kept off f (snd r))).
Definition none (_ : loc) : bool := false.

Definition start (off : Z) (pos : ptr) (h : loc) : loc := from_option (member_of off) h pos.

Definition lspec (off : Z) (c : loop) (h : loc) (l : list loc) : option (list Z * list loc) :=
  match c with
  | LFirst => Some (option_list (k_list_entry off <$> head l), l)
  | LLast => Some (option_list (k_list_entry off <$> last l), l)
  | LNext pos => r ← after (member_of off pos) h l; Some ([k_list_entry off (List.hd h (snd r))], l)
  | LPrev pos => r ← after (member_of off pos) h (reverse l); Some ([k_list_entry off (List.hd h (snd r))], l)
  | LEach => Some (visited off false none ([], l))
  | LReverse => Some (visited off true none ([], reverse l))
  | LContinue pos => r ← after (start off pos h) h l; Some (visited off false none r)
  | LContinueReverse pos => r ← after (start off pos h) h (reverse l); Some (visited off true none r)
  | LFrom pos => r ← from (member_of off pos) h l; Some (visited off false none r)
  | LSafe f => Some (visited off false f ([], l))
  | LSafeReverse f => Some (visited off true f ([], reverse l))
  | LSafeContinue f pos => r ← after (start off pos h) h l; Some (visited off false f r)
  | LSafeFrom f pos => r ← from (member_of off pos) h l; Some (visited off false f r)
  | LNodesFrom pos => r ← from pos h l; Some (visited 0 false none r)
  | LNodesPrevSafe f => Some (visited 0 true f ([], reverse l))
  end.

Lemma after_spec e h l r : after e h l = Some r -> l = fst r ++ snd r /\ e = List.last (fst r) h.
Proof.
  unfold after. destruct (Z.eqb_spec e h) as [->|_]; [by intros [= <-]|].
  destruct (split_at e l) as [[a b]|] eqn:E; [|done]. cbn. intros [= <-]. apply split_at_spec in E as ->. cbn [fst snd].
  by rewrite <- app_assoc, List.last_last.
Qed.

Lemma from_spec e h l r : from e h l = Some r -> l = fst r ++ snd r /\ e = List.hd h (snd r).
Proof.
  unfold from. destruct (Z.eqb_spec e h) as [->|_]; [intros [= <-]; cbn; by rewrite app_nil_r|].
  destruct (split_at e l) as [[a b]|] eqn:E; [|done]. cbn. intros [= <-]. by apply split_at_spec in E as ->.
Qed.

Lemma along_along back l : along back (along back l) = l.
Proof. destruct back; [apply reverse_involutive|done]. Qed.

Lemma along_elem back l x : x ∈ along back l <-> x ∈ l.
Proof. destruct back; [apply elem_of_reverse|done]. Qed.

Lemma last_reverse (l : list loc) h : List.last (reverse l) h = List.hd h l.
Proof. destruct l; [done|]. by rewrite reverse_cons, List.last_last. Qed.

Lemma kept_none off l : kept off none l = l.
Proof. unfold kept. induction l as [|x l IH]; [done|]. by rewrite filter_cons_True, IH. Qed.

(** ** Steps in either direction *)

Definition to (back : bool) (n : list_head) : loc := if back then prev n else next n.
Definition step_entry (back : bool) (off : Z) (pos : loc) : M store loc :=
  n ← get (member_of off pos); mret (k_list_entry off (to back n)).

Lemma member_entry off x : member_of off (k_list_entry off x) = x.
Proof. unfold member_of, k_list_entry. lia. Qed.

Lemma entry_member off pos : k_list_entry off (member_of off pos) = pos.
Proof. unfold member_of, k_list_entry. lia. Qed.

Lemma prepare_start off pos h : k_list_prepare_entry off pos h = k_list_entry off (start off pos h).
Proof. destruct pos as [p|]; cbn; [by rewrite entry_member|done]. Qed.

Lemma ring_along back m h l l1 x l2 : ring m h l -> along back l = l1 ++ x :: l2 ->
  exists n, m !! x = Some n /\ to back n = List.hd h l2.
Proof.
  intros R E. destruct back; cbn [along to] in *; [|subst; by eapply ring_next].
  apply (f_equal reverse) in E. rewrite reverse_involutive, reverse_app, reverse_cons, <- app_assoc in E. subst.
  destruct (ring_prev _ _ _ _ _ R) as (n & Hn & Hx). exists n. by rewrite <- last_reverse.
Qed.

Lemma ring_start back m h l : ring m h l -> exists n, m !! h = Some n /\ to back n = List.hd h (along back l).
Proof.
  intros R. destruct (ring_link_head _ _ _ R) as (n & Hn & H1 & H2). exists n. split; [done|].
  destruct back; cbn [to along]; [|done]. by rewrite H2, <- (reverse_involutive l), last_reverse, reverse_involutive.
Qed.

(** From the node before [l2], which may be the head. *)
Lemma ring_after_along back m h l l1 l2 : ring m h l -> along back l = l1 ++ l2 ->
  exists n, m !! List.last l1 h = Some n /\ to back n = List.hd h l2.
Proof.
  intros R E. destruct l1 as [|x l1 _] using rev_ind; [cbn in *; subst l2; by apply ring_start|].
  rewrite List.last_last, <- app_assoc in *. by eapply ring_along.
Qed.

Section loops.
Context (back : bool) (off : Z) (h : loc).

Lemma step_entry_wp m pos n (Q : loc -> store -> Prop) :
  m !! member_of off pos = Some n -> Q (k_list_entry off (to back n)) m -> wp (step_entry back off pos) Q m.
Proof. intros Hn HQ. apply wp_bind. eapply wp_get; [exact Hn|]. by apply wp_ret. Qed.

Lemma not_head m l l1 x l2 : ring m h l -> along back l = l1 ++ x :: l2 -> x =? h = false.
Proof.
  intros [_ [N _]%NoDup_cons] E. apply Z.eqb_neq. intros ->. apply N, (along_elem back). rewrite E. set_solver +.
Qed.

Lemma entry_loop_wp m l l1 l2 fuel (Q : list loc -> store -> Prop) :
  ring m h l -> along back l = l1 ++ l2 -> (length l2 < fuel)%nat -> Q (k_list_entry off <$> l2) m ->
  wp (entry_loop off fuel (step_entry back off) (k_list_entry off (List.hd h l2)) h) Q m.
Proof.
  revert l1 fuel Q. induction l2 as [|x l2 IH]; intros l1 fuel Q R E Hf HQ;
    (destruct fuel as [|fuel]; [cbn in Hf; lia|]); cbn [entry_loop List.hd]; rewrite member_entry.
  - rewrite Z.eqb_refl. by apply wp_ret.
  - rewrite (not_head m l l1 x l2 R E). destruct (ring_along _ _ _ _ _ _ _ R E) as (n & Hn & Hx).
    apply wp_bind. eapply step_entry_wp; [by rewrite member_entry|]. rewrite Hx.
    apply wp_bind. eapply (IH (l1 ++ [x])); [done|by rewrite <- app_assoc|cbn in Hf; lia|]. by apply wp_ret.
Qed.

(** The body may take the entry out: the loop has the next one. *)
Lemma take_entry_out_wp f m l l1 x l2 (Q : unit -> store -> Prop) :
  ring m h l -> along back l = l1 ++ x :: l2 ->
  (forall m', ring m' h (along back (l1 ++ kept off f [x] ++ l2)) -> others m m' (h :: l) -> Q tt m') ->
  wp (take_out off f (k_list_entry off x)) Q m.
Proof.
  intros R E HQ. unfold take_out. destruct (f (k_list_entry off x)) eqn:Ef; rewrite ?member_entry.
  - assert (exists a b, l = a ++ x :: b /\ along back (l1 ++ l2) = a ++ b) as (a & b & -> & Hab).
    { rewrite <- (along_along back l), E. destruct back; cbn [along]; [|by exists l1, l2].
      exists (reverse l2), (reverse l1). by rewrite !reverse_app, reverse_cons, <- app_assoc. }
    eapply k_list_del_init_wp; [exact R|]. intros m' R' _ O. apply HQ.
    + unfold kept. rewrite filter_cons_False by congruence. cbn. by rewrite Hab.
    + eapply others_mono; [exact O|]. set_solver +.
  - apply wp_ret, HQ; [|done]. unfold kept. rewrite filter_cons_True by done. cbn. by rewrite <- E, along_along.
Qed.

Lemma safe_loop_wp f m l l1 l2 fuel nn (Q : list loc -> store -> Prop) :
  ring m h l -> along back l = l1 ++ l2 -> (length l2 < fuel)%nat -> m !! List.hd h l2 = Some nn ->
  (forall m', ring m' h (along back (l1 ++ kept off f l2)) -> others m m' (h :: l) -> Q (k_list_entry off <$> l2) m') ->
  wp (safe_loop off fuel (step_entry back off) (take_out off f) (k_list_entry off (List.hd h l2)) (k_list_entry off (to back nn)) h) Q m.
Proof.
  revert m l l1 fuel nn Q. induction l2 as [|x l2 IH]; intros m l l1 fuel nn Q R E Hf Hn HQ;
    (destruct fuel as [|fuel]; [cbn in Hf; lia|]); cbn [safe_loop List.hd] in *; rewrite member_entry.
  - rewrite Z.eqb_refl. apply wp_ret, HQ; [|done]. change (kept off f []) with (@nil loc). by rewrite <- E, along_along.
  - rewrite (not_head m l l1 x l2 R E). destruct (ring_along _ _ _ _ _ _ _ R E) as (n & Hn' & Hx). simplify_eq. rewrite Hx.
    apply wp_bind. eapply take_entry_out_wp; [exact R|exact E|]. intros m1 R1 O1.
    destruct (ring_get _ _ _ (List.hd h l2) R1) as [k Hk].
    { destruct l2 as [|y l2]; [set_solver +|]. apply elem_of_cons. right. apply along_elem. set_solver +. }
    apply wp_bind. eapply step_entry_wp; [by rewrite member_entry|]. apply wp_bind.
    eapply (IH m1 _ (l1 ++ kept off f [x])); [exact R1|by rewrite along_along, app_assoc|cbn in Hf; lia|exact Hk|].
    intros m2 R2 O2. apply wp_ret, HQ.
    + rewrite <- app_assoc in R2. unfold kept in *. by rewrite (filter_app _ [x] l2 : filter _ (x :: l2) = _).
    + eapply others_trans; eapply others_mono; [exact O1|done|exact O2|]. intros y. rewrite !elem_of_cons, along_elem.
      assert (forall z, z ∈ l1 ++ x :: l2 -> z ∈ l) as Hl by (intros z; rewrite <- E; apply along_elem).
      intros [->|Hy]; [by left|]. right. apply Hl. unfold kept in Hy. rewrite !elem_of_app, list_elem_of_filter in Hy. set_solver +Hy.
Qed.
End loops.

(** ** What every loop does *)

Section one.
Context (off : Z) (h : loc) (m : store) (l : list loc) (fuel : nat).
Hypothesis (R : ring m h l) (Hf : (length l < fuel)%nat).

Abbreviation gives v := (fun r m' => r = fst v /\ ring m' h (snd v) /\ others m m' (h :: l)).

Lemma along_length back r : along back l = fst r ++ snd r -> (length (snd r) < fuel)%nat.
Proof using Hf.
  intros E. apply (f_equal length) in E. rewrite length_app in E. destruct back; cbn [along] in E; rewrite ?length_reverse in E; lia.
Qed.

Lemma entries_wp back r : along back l = fst r ++ snd r ->
  wp (entry_loop off fuel (step_entry back off) (k_list_entry off (List.hd h (snd r))) h) (gives (visited off back none r)) m.
Proof using R Hf.
  intros E. eapply entry_loop_wp; [exact R|exact E|by eapply along_length|]. split_and!; [done| |done].
  unfold visited. cbn [snd]. by rewrite kept_none, <- E, along_along.
Qed.

Lemma safe_wp back f r nn : along back l = fst r ++ snd r -> m !! List.hd h (snd r) = Some nn ->
  wp (safe_loop off fuel (step_entry back off) (take_out off f) (k_list_entry off (List.hd h (snd r))) (k_list_entry off (to back nn)) h)
    (gives (visited off back f r)) m.
Proof using R Hf.
  intros E Hn. eapply safe_loop_wp; [exact R|exact E|by eapply along_length|exact Hn|]. intros m' R' O. by split_and!.
Qed.

(** The step to the entry after a position, and to the one after that. *)
Lemma after_wp {A} back r (k : loc -> M store A) (Q : A -> store -> Prop) :
  along back l = fst r ++ snd r -> wp (k (k_list_entry off (List.hd h (snd r)))) Q m ->
  wp (p ← step_entry back off (k_list_entry off (List.last (fst r) h)); k p) Q m.
Proof using R.
  intros E HQ. destruct (ring_after_along _ _ _ _ _ _ R E) as (n & Hn & Hx).
  apply wp_bind. eapply step_entry_wp; [by rewrite member_entry|]. by rewrite Hx.
Qed.

Lemma ahead_wp {A} back r (k : loc -> M store A) (Q : A -> store -> Prop) :
  along back l = fst r ++ snd r ->
  (forall nn, m !! List.hd h (snd r) = Some nn -> wp (k (k_list_entry off (to back nn))) Q m) ->
  wp (n ← step_entry back off (k_list_entry off (List.hd h (snd r))); k n) Q m.
Proof using R.
  intros E HQ. destruct (ring_get _ _ _ (List.hd h (snd r)) R) as [nn Hn].
  { destruct r as [a [|x b]]; [set_solver +|]. apply elem_of_cons. right. apply (along_elem back). rewrite E. set_solver +. }
  apply wp_bind. eapply step_entry_wp; [by rewrite member_entry|]. by apply HQ.
Qed.

Lemma edge_wp {A} back (k : loc -> M store A) (Q : A -> store -> Prop) :
  wp (k (k_list_entry off (List.hd h (along back l)))) Q m ->
  wp (p ← (if back then last_entry off h else first_entry off h); k p) Q m.
Proof using R.
  intros HQ. destruct (ring_start back m h l R) as (n & Hn & Hx). rewrite <- Hx in HQ.
  apply wp_bind. destruct back; apply wp_bind, wp_bind; (eapply wp_get; [exact Hn|]); by apply wp_ret, wp_ret.
Qed.

End one.

(** The loop over the heads is the loop over entries at offset 0. *)
Lemma for_each_prev_safe_entries fuel (f : loc -> bool) pos n h m :
  for_each_prev_safe fuel (fun x => if f x then k_list_del_init x else mret tt) pos n h m =
  safe_loop 0 fuel (step_entry true 0) (take_out 0 f) pos n h m.
Proof.
  revert pos n m. induction fuel as [|fuel IH]; intros pos n m; cbn [for_each_prev_safe safe_loop]; [done|].
  unfold step_entry, take_out, member_of, k_list_entry. rewrite !Z.add_0_r. destruct (pos =? h); [done|].
  unfold mbind, M_bind. destruct ((if f pos then k_list_del_init pos else mret tt) m) as [[u m1]|]; [|done].
  destruct (get n m1) as [[x m2]|]; [|done]. cbn [to mret M_ret]. rewrite Z.sub_0_r.
  cbv beta iota. by rewrite IH.
Qed.

(** Where a loop starts, and what it answers. *)
Ltac loop_case H :=
  repeat match type of H with (?o ≫= _) = Some _ => let r := fresh "r" in let E := fresh "E" in
    destruct o as [r|] eqn:E; [|discriminate]; cbn [mbind option_bind] in H;
    first [apply after_spec in E as [E Es]|apply from_spec in E as [E Es]] end; injection H as <- <-.

Lemma loop_wp fuel off c h l a l' m : ring m h l -> (length l < fuel)%nat -> lspec off c h l = Some (a, l') ->
  wp (lexec fuel off c h) (fun r m' => r = a /\ ring m' h l' /\ others m m' (h :: l)) m.
Proof.
  intros R Hf H. destruct c; cbn [lspec lexec] in *;
    loop_case H.
  - apply wp_bind, wp_bind. eapply k_list_empty_wp; [exact R|]. destruct l as [|x l]; [by apply wp_ret, wp_ret|].
    rewrite bool_decide_false by done. by apply (edge_wp off h m (x :: l) R false), wp_ret, wp_ret.
  - apply wp_bind, wp_bind. eapply k_list_empty_wp; [exact R|]. destruct l as [|x l _] using rev_ind; [by apply wp_ret, wp_ret|].
    rewrite bool_decide_false by (by destruct l). apply (edge_wp off h m (l ++ [x]) R true), wp_ret, wp_ret. cbn [along].
    by rewrite reverse_snoc, last_snoc.
  - rewrite <- (entry_member off pos), Es. by eapply (after_wp off h m l R false r); [|apply wp_ret].
  - rewrite <- (entry_member off pos), Es. by eapply (after_wp off h m l R true r); [|apply wp_ret].
  - by eapply (edge_wp off h m l R false), (entries_wp off h m l fuel R Hf false ([], l)).
  - by eapply (edge_wp off h m l R true), (entries_wp off h m l fuel R Hf true ([], reverse l)).
  - rewrite prepare_start, Es. by eapply (after_wp off h m l R false r), (entries_wp off h m l fuel R Hf false r).
  - rewrite prepare_start, Es. by eapply (after_wp off h m l R true r), (entries_wp off h m l fuel R Hf true r).
  - rewrite <- (entry_member off pos), Es. by apply (entries_wp off h m l fuel R Hf false r).
  - eapply (edge_wp off h m l R false), (ahead_wp off h m l R false ([], l)); [done|]. intros nn Hn.
    by apply (safe_wp off h m l fuel R Hf false f ([], l)).
  - eapply (edge_wp off h m l R true), (ahead_wp off h m l R true ([], reverse l)); [done|]. intros nn Hn.
    by apply (safe_wp off h m l fuel R Hf true f ([], reverse l)).
  - rewrite prepare_start, Es. eapply (after_wp off h m l R false r); [done|]. eapply (ahead_wp off h m l R false r); [done|].
    intros nn Hn. by apply (safe_wp off h m l fuel R Hf false f r).
  - rewrite <- (entry_member off pos), Es. eapply (ahead_wp off h m l R false r); [done|]. intros nn Hn.
    by apply (safe_wp off h m l fuel R Hf false f r).
  - destruct r as [l1 l2]. cbn [fst snd] in *. subst. apply (for_each_wp m h l1 l2); [done|rewrite length_app in Hf; lia|].
    unfold visited. cbn [fst snd along]. rewrite kept_none. split_and!; [|done..].
    unfold k_list_entry. rewrite <- (list_fmap_id l2) at 1. apply list_fmap_ext. intros i x _. cbn. lia.
  - pose proof (ring_start true m h l R) as (n & Hn & Hx). apply wp_bind. eapply wp_get; [exact Hn|]. cbn [to along] in Hx.
    rewrite Hx. destruct (ring_get m h l (List.hd h (reverse l)) R) as [nn Hnn].
    { destruct (reverse l) as [|x l'] eqn:E; [set_solver +|]. apply elem_of_cons. right. apply elem_of_reverse. rewrite E. set_solver +. }
    apply wp_bind. eapply wp_get; [exact Hnn|]. unfold wp. rewrite for_each_prev_safe_entries.
    pose proof (safe_wp 0 h m l fuel R Hf true f ([], reverse l) nn eq_refl Hnn) as W. unfold wp, k_list_entry in W.
    cbn [fst snd to] in W. rewrite !Z.sub_0_r in W. exact W.
Qed.

(** No loop adds a node. *)
Lemma lspec_sub off c h l a l' : lspec off c h l = Some (a, l') -> forall x, x ∈ l' -> x ∈ l.
Proof.
  assert (forall o back f r, along back l = fst r ++ snd r -> forall x, x ∈ along back (fst r ++ kept o f (snd r)) -> x ∈ l) as V.
  { intros o back f r E x. unfold kept. rewrite along_elem, <- (along_elem back l), E, !elem_of_app, list_elem_of_filter. tauto. }
  intros H. destruct c; cbn [lspec] in *;
    loop_case H;
    first [done|by apply (V off false none ([], l))|by apply (V off true none ([], reverse l))|by apply (V off false f ([], l))
      |by apply (V off true f ([], reverse l))|by apply (V 0 true f ([], reverse l))|by apply (V off false none r)
      |by apply (V off true none r)|by apply (V 0 false none r)|by apply (V off false f r)].
Qed.
