(* ===== verification/KernelListSpec.v ===== *)
(** * hashtable-linux-kernel: what the kernel lists promise

    The abstract state is that of [KListSpec]: the head of each list with the
    sequence of its nodes.  An allocated node is in a list, is the head of one
    or is in none; a node in none may hold anything, for instance the poison of
    a deleted one. *)

From S2P Require Import Prelude KList KListSpec KernelList KernelListOps KernelLoops.
Import KList KernelList KernelLoops.

Inductive kcommand :=
  | KInit (h : loc)
  | KAdd (new h : loc)
  | KAddTail (new h : loc)
  | KDel (e : loc)
  | KDelInit (e : loc)
  | KReplace (old new : loc)
  | KReplaceInit (old new : loc)
  | KMove (e h : loc)
  | KMoveTail (e h : loc)
  | KIsLast (e h : loc)
  | KEmpty (h : loc)
  | KEmptyCareful (h : loc)
  | KIsSingular (h : loc)
  | KRotateLeft (h : loc)
  | KCut (list head entry : loc)
  | KSplice (s h : loc)
  | KSpliceTail (s h : loc)
  | KSpliceInit (s h : loc)
  | KSpliceTailInit (s h : loc)
  | KFirst (h : loc)
  | KLast (h : loc)
  | KDelRange (h begin_ end_ : loc)
  | KForEach (h : loc)
  | KForEachPrev (h : loc)
  | KDrain (h : loc)
  | KLoop (off : Z) (c : loop) (h : loc).

Definition of_bool (b : bool) : list Z := [if b then 1 else 0].
Definition void (c : M store unit) : M store (list Z) := c;; mret [].
Definition asks (c : M store bool) : M store (list Z) := b ← c; mret (of_bool b).

(** The calls; a range is given to the code without the head of its list. *)
Definition kexec (fuel : nat) (c : kcommand) : M store (list Z) :=
  match c with
  | KInit h => void (K_INIT_LIST_HEAD h)
  | KAdd new h => void (k_list_add new h)
  | KAddTail new h => void (k_list_add_tail new h)
  | KDel e => void (k_list_del e)
  | KDelInit e => void (k_list_del_init e)
  | KReplace old new => void (k_list_replace old new)
  | KReplaceInit old new => void (k_list_replace_init old new)
  | KMove e h => void (k_list_move e h)
  | KMoveTail e h => void (k_list_move_tail e h)
  | KIsLast e h => asks (k_list_is_last e h)
  | KEmpty h => asks (k_list_empty h)
  | KEmptyCareful h => asks (k_list_empty_careful h)
  | KIsSingular h => asks (k_list_is_singular h)
  | KRotateLeft h => void (k_list_rotate_left h)
  | KCut list head entry => void (k_list_cut_position list head entry)
  | KSplice s h => void (k_list_splice s h)
  | KSpliceTail s h => void (k_list_splice_tail s h)
  | KSpliceInit s h => void (k_list_splice_init s h)
  | KSpliceTailInit s h => void (k_list_splice_tail_init s h)
  | KFirst h => x ← k_list_first_entry h; mret [x]
  | KLast h => x ← k_list_last_entry h; mret [x]
  | KDelRange _ first last => void (list_del_range first last)
  | KForEach h => k_list_for_each fuel h
  | KForEachPrev h => k_list_for_each_prev fuel h
  | KDrain h => k_list_for_each_safe fuel k_list_del_init h
  | KLoop off c h => lexec fuel off c h
  end.

(** ** The sequences *)

(** A node that may be added: allocated and in no list, or the head of an empty one. *)
Definition room (nodes : gset loc) (x : loc) (A : lists) : option lists :=
  let A' := match A !! x with Some [] => delete x A | _ => A end in
  if fresh A' x && bool_decide (x ∈ nodes) then Some A' else None.

(** [e] is a node of a list, not a head. *)
Definition member (e : loc) (A : lists) : bool := bool_decide (A !! e = None) && negb (fresh A e).
Definition gone (e : loc) (A : lists) : lists := filter (fun x => x <> e) <$> A.

Definition rotate_left (l : list loc) : list loc := match l with [] => [] | x :: l => l ++ [x] end.

(** [f] of the two sequences for [h], and [s] left empty or without a list. *)
Definition joined (f : list loc -> list loc -> list loc) (keep : bool) (s h : loc) (A : lists) : option lists :=
  l ← A !! s; t ← A !! h;
  if bool_decide (s <> h) then
    let A' := <[h := f l t]> (delete s A) in Some (if keep then <[s := []]> A' else A')
  else None.

Definition swap (old new : loc) (l : list loc) : list loc := (fun x => if x =? old then new else x) <$> l.

Definition replaced (nodes : gset loc) (old new : loc) (A : lists) : option lists :=
  A ← room nodes new A;
  if member old A then Some (swap old new <$> A)
  else l ← A !! old; if bool_decide (l <> []) then Some (<[new := l]> (delete old A)) else None.

Definition kspec (nodes : gset loc) (c : kcommand) (A : lists) : option (list Z * lists) :=
  match c with
  | KInit h => A ← room nodes h A; Some ([], <[h := []]> A)
  | KAdd new h => A ← room nodes new A; l ← A !! h; Some ([], <[h := new :: l]> A)
  | KAddTail new h => A ← room nodes new A; l ← A !! h; Some ([], <[h := l ++ [new]]> A)
  | KDel e => if member e A then Some ([], gone e A) else None
  | KDelInit e => if member e A then Some ([], <[e := []]> (gone e A)) else None
  | KReplace old new => A ← replaced nodes old new A; Some ([], A)
  | KReplaceInit old new => A ← replaced nodes old new A; Some ([], <[old := []]> A)
  | KMove e h => if member e A then l ← gone e A !! h; Some ([], <[h := e :: l]> (gone e A)) else None
  | KMoveTail e h => if member e A then l ← gone e A !! h; Some ([], <[h := l ++ [e]]> (gone e A)) else None
  | KIsLast e h => l ← A !! h; if bool_decide (e ∈ h :: l) then Some (of_bool (bool_decide (e = List.last l h)), A) else None
  | KEmpty h | KEmptyCareful h => l ← A !! h; Some (of_bool (bool_decide (l = [])), A)
  | KIsSingular h => l ← A !! h; Some (of_bool (bool_decide (length l = 1%nat)), A)
  | KRotateLeft h => l ← A !! h; Some ([], <[h := rotate_left l]> A)
  | KCut list head entry =>
      l ← A !! head;
      if bool_decide (l = []) then Some ([], A)
      else
        A ← room nodes list A;
        if entry =? head then Some ([], <[list := []]> A)
        else r ← split_at entry l; Some ([], <[list := fst r ++ [entry]]> (<[head := snd r]> A))
  | KSplice s h => A ← joined (fun l t => l ++ t) false s h A; Some ([], A)
  | KSpliceTail s h => A ← joined (fun l t => t ++ l) false s h A; Some ([], A)
  | KSpliceInit s h => A ← joined (fun l t => l ++ t) true s h A; Some ([], A)
  | KSpliceTailInit s h => A ← joined (fun l t => t ++ l) true s h A; Some ([], A)
  | KFirst h => l ← A !! h; Some ([List.hd h l], A)
  | KLast h => l ← A !! h; Some ([List.last l h], A)
  | KDelRange h first last =>
      l ← A !! h;
      r ← split_at first l;
      if first =? last then Some ([], <[h := fst r ++ snd r]> A)
      else q ← split_at last (snd r); Some ([], <[h := fst r ++ snd q]> A)
  | KForEach h => l ← A !! h; Some (l, A)
  | KForEachPrev h => l ← A !! h; Some (reverse l, A)
  | KDrain h => l ← A !! h; Some (l, <[h := []]> A)
  | KLoop off c h => l ← A !! h; r ← lspec off c h l; Some (fst r, <[h := snd r]> A)
  end.

Fixpoint kexec_all (fuel : nat) (cs : list kcommand) : M store (list (list Z)) :=
  match cs with
  | [] => mret []
  | c :: cs => a ← kexec fuel c; rest ← kexec_all fuel cs; mret (a :: rest)
  end.

Fixpoint kspec_all (nodes : gset loc) (cs : list kcommand) (A : lists) : option (list (list Z) * lists) :=
  match cs with
  | [] => Some ([], A)
  | c :: cs => r ← kspec nodes c A; r' ← kspec_all nodes cs (snd r); Some (fst r :: fst r', snd r')
  end.

(** ** Representations *)

Definition free (A : lists) (x : loc) : Prop := forall h l, A !! h = Some l -> x ∉ h :: l.

Lemma rep_sub m A A' : rep m A -> A' ⊆ A -> rep m A'.
Proof.
  intros [R D] H. constructor; [intros h l Hl; eapply R, lookup_weaken; eauto|].
  intros h1 h2 l1 l2 H1 H2. apply (D h1 h2 l1 l2); by eapply lookup_weaken.
Qed.

Lemma free_sub A A' x : free A x -> A' ⊆ A -> free A' x.
Proof. intros F H h l Hh. eapply F, lookup_weaken; eauto. Qed.

(** The lists the writes do not touch stay. *)
Lemma rep_frame m m' A X : rep m A -> others m m' X -> (forall x, x ∈ X -> free A x) -> rep m' A.
Proof.
  intros [R D] O F. constructor; [|exact D]. intros h l Hh. eapply ring_frame; [by apply R|exact O|].
  intros x Hx HX. by apply (F x HX h l).
Qed.

Lemma rep_new m A h l : rep m A -> ring m h l -> (forall x, x ∈ h :: l -> free A x) -> rep m (<[h := l]> A).
Proof.
  intros [R D] Rh F. constructor.
  - intros h1 l1 [[<- <-]|[Hne H1]]%lookup_insert_Some; [done|by apply R].
  - intros h1 h2 l1 l2 [[<- <-]|[N1 H1]]%lookup_insert_Some [[<- <-]|[N2 H2]]%lookup_insert_Some Hne x Hx Hx2;
      [done|by apply (F x Hx h2 l2)|by apply (F x Hx2 h1 l1)|by apply (D h1 h2 l1 l2 H1 H2 Hne x)].
Qed.

(** The nodes of a list are free once the list is left out. *)
Lemma free_own m A h l x : rep m A -> A !! h = Some l -> x ∈ h :: l -> free (delete h A) x.
Proof. intros [_ D] H Hx h2 l2 [Hne H2]%lookup_delete_Some. by apply (D h h2 l l2 H H2 Hne). Qed.

Lemma free_delete A h x : free A x -> free (delete h A) x.
Proof. intros F. eapply free_sub; [exact F|apply delete_subseteq]. Qed.

Lemma free_insert A h l x : free A x -> x ∉ h :: l -> free (<[h := l]> A) x.
Proof. intros F Hx h2 l2 [[<- <-]|[_ H]]%lookup_insert_Some; [done|by eapply F]. Qed.

(** One list changes, with nodes of its own or free ones. *)
Lemma rep_change m m' A h l l' X :
  rep m A -> A !! h = Some l -> ring m' h l' -> others m m' X ->
  (forall x, x ∈ X ++ l' -> x ∈ h :: l \/ free A x) -> rep m' (<[h := l']> A).
Proof.
  intros R H R' O HX. rewrite <- insert_delete_eq.
  assert (forall x, x ∈ X ++ l' -> free (delete h A) x) as F.
  { intros x [Hx|Hx]%HX; [by eapply free_own|by apply free_delete]. }
  eapply rep_new; [eapply rep_frame; [eapply rep_sub; [exact R|apply delete_subseteq]|exact O|]|exact R'|].
  - intros x Hx. apply F. set_solver +Hx.
  - intros x [->|Hx]%elem_of_cons; [eapply free_own; [exact R|exact H|set_solver +]|]. apply F. set_solver +Hx.
Qed.

Lemma free_spec A x : fresh A x = true <-> free A x.
Proof. apply fresh_spec. Qed.

Lemma room_spec nodes x A A' : room nodes x A = Some A' -> A' ⊆ A /\ free A' x /\ x ∈ nodes.
Proof.
  unfold room. set (B := match A !! x with Some [] => delete x A | _ => A end).
  destruct (fresh B x && bool_decide (x ∈ nodes)) eqn:E; [|done]. intros [= <-].
  apply andb_prop in E as [E1%free_spec E2%bool_decide_eq_true]. split_and!; [|done|done].
  unfold B. destruct (A !! x) as [[|]|]; [apply delete_subseteq|done|done].
Qed.

Lemma member_spec m A e : rep m A -> member e A = true ->
  exists h l1 l2, A !! h = Some (l1 ++ e :: l2) /\ gone e A = <[h := l1 ++ l2]> A /\ free (gone e A) e /\ e ∈ dom m.
Proof.
  intros R [E1%bool_decide_eq_true E2%negb_true_iff]%andb_prop. destruct (not_fresh_spec _ _ E2 E1) as (h & l & Hl & He).
  apply list_elem_of_split in He as (l1 & l2 & ->). exists h, l1, l2.
  assert (gone e A = <[h := l1 ++ l2]> A) as Eg by by eapply del_lists. split_and!; [done|done| |].
  - intros k l Hk. unfold gone in Hk. rewrite lookup_fmap, fmap_Some in Hk. destruct Hk as (l0 & Hk & ->).
    apply not_elem_of_cons. split; [by intros ->; congruence|]. intros [[] _]%list_elem_of_filter. done.
  - eapply rep_elem; [exact R|exact Hl|]. set_solver +.
Qed.

Abbreviation becomes m A := (fun (_ : unit) (m' : store) => rep m' A /\ dom m' = dom m).

Lemma void_wp m c A : wp c (becomes m A) m -> wp (void c) (fun r m' => r = [] /\ rep m' A /\ dom m' = dom m) m.
Proof. intros H. apply wp_bind. eapply wp_mono; [exact H|]. intros [] m' HA. by apply wp_ret. Qed.

Lemma void_wp_code m c a A : a = [] /\ wp c (becomes m A) m ->
  wp (void c) (fun r m' => r = a /\ rep m' A /\ dom m' = dom m) m.
Proof. intros [-> H]. by apply void_wp. Qed.

Lemma asks_wp m c b A : rep m A -> (forall Q : bool -> store -> Prop, Q b m -> wp c Q m) ->
  wp (asks c) (fun r m' => r = of_bool b /\ rep m' A /\ dom m' = dom m) m.
Proof. intros R H. by apply wp_bind, H, wp_ret. Qed.

(** ** One list *)

Section one.
Context {m : store} {A : lists}.
Hypothesis (R : rep m A).

Lemma alive x : x ∈ dom m -> is_Some (m !! x).
Proof. by rewrite elem_of_dom. Qed.

Lemma init_rep h : free A h -> h ∈ dom m -> wp (K_INIT_LIST_HEAD h) (becomes m (<[h := []]> A)) m.
Proof using R.
  intros F Hh%alive. apply k_init_wp; [done|]. intros m' R' O. split; [|apply O].
  apply rep_new; [eapply rep_frame; [exact R|exact O|]|exact R'|]; by intros x ->%list_elem_of_singleton.
Qed.

Lemma add_rep x h l : A !! h = Some l -> free A x -> x ∈ dom m -> wp (k_list_add x h) (becomes m (<[h := x :: l]> A)) m.
Proof using R.
  intros H F Hx%alive. apply (list_add_wp m x h l); [by apply R|done|by apply F|]. intros m' R' O. split; [|apply O].
  eapply rep_change; [exact R|exact H|exact R'|exact O|]. intros y. rewrite elem_of_app, !elem_of_cons. naive_solver.
Qed.

Lemma add_tail_rep x h l : A !! h = Some l -> free A x -> x ∈ dom m ->
  wp (k_list_add_tail x h) (becomes m (<[h := l ++ [x]]> A)) m.
Proof using R.
  intros H F Hx%alive. apply (list_add_tail_wp m x h l); [by apply R|done|by apply F|]. intros m' R' O. split; [|apply O].
  eapply rep_change; [exact R|exact H|exact R'|exact O|]. intros y. rewrite !elem_of_app, !elem_of_cons, !elem_of_nil. naive_solver.
Qed.

Lemma del_entry_rep e : member e A = true -> wp (__list_del_entry e) (becomes m (gone e A)) m.
Proof using R.
  intros (h & l1 & l2 & H & -> & _)%(member_spec m); [|exact R].
  eapply list_del_entry_wp; [by apply R|]. intros m' R' O. split; [|apply O].
  eapply rep_change; [exact R|exact H|exact R'|exact O|]. set_solver +.
Qed.

Lemma del_rep e : member e A = true -> wp (k_list_del e) (becomes m (gone e A)) m.
Proof using R.
  intros (h & l1 & l2 & H & -> & _)%(member_spec m); [|exact R].
  eapply k_list_del_wp; [by apply R|]. intros m' R' O. split; [|apply O].
  eapply rep_change; [exact R|exact H|exact R'|exact O|]. set_solver +.
Qed.
End one.

(** A node is taken out, and then [c] does something with it. *)
Lemma del_then_rep m A e c A' : rep m A -> member e A = true ->
  (forall m', rep m' (gone e A) -> free (gone e A) e -> e ∈ dom m' -> wp c (becomes m' A') m') ->
  wp (__list_del_entry e;; c) (becomes m A') m.
Proof.
  intros R He Hc. destruct (member_spec _ _ _ R He) as (_ & _ & _ & _ & _ & F & D).
  apply wp_bind. eapply wp_mono; [by apply (del_entry_rep R)|]. intros [] m1 [R1 D1].
  eapply wp_mono; [apply Hc; [done|done|by rewrite D1]|]. intros [] m2 [R2 D2]. split; [done|congruence].
Qed.

Lemma rotate_left_rep m A h l : rep m A -> A !! h = Some l -> wp (k_list_rotate_left h) (becomes m (<[h := rotate_left l]> A)) m.
Proof.
  intros R H. pose proof (rep_ring _ _ R _ _ H) as Rh. apply wp_bind. eapply k_list_empty_wp; [exact Rh|].
  destruct l as [|x l]; [rewrite insert_id by done; by apply wp_ret|]. rewrite bool_decide_false by done.
  destruct (ring_link_head _ _ _ Rh) as (n & Hn & Hx & _). apply wp_bind. eapply wp_get; [exact Hn|]. rewrite Hx. cbn [List.hd].
  apply wp_bind. eapply (list_del_entry_wp m x h [] l); [exact Rh|]. intros m1 R1 O1.
  pose proof (ring_mid_fresh m h [] x l Rh) as Hx1. destruct (ring_get m h (x :: l) x Rh) as [nx Hnx]; [set_solver +|].
  eapply list_add_tail_wp; [exact R1|rewrite (proj2 O1) by exact Hx1; eauto|exact Hx1|]. intros m2 R2 O2.
  assert (others m m2 (h :: x :: l)) as O by (eapply others_trans; eapply others_mono; [exact O1| |exact O2|]; set_solver +).
  split; [|apply O]. eapply rep_change; [exact R|exact H|exact R2|exact O|]. set_solver +.
Qed.

(** ** Replacement *)

Lemma swap_notin old new l : old ∉ l -> swap old new l = l.
Proof.
  induction l as [|x l IH]; [done|]. intros [H1 H2]%not_elem_of_cons. cbn. rewrite (proj2 (Z.eqb_neq x old)) by done.
  f_equal. by apply IH.
Qed.

Lemma swap_lists m A h l1 old l2 new : rep m A -> A !! h = Some (l1 ++ old :: l2) ->
  swap old new <$> A = <[h := l1 ++ new :: l2]> A.
Proof.
  intros [R D] H. apply map_eq. intros k. rewrite lookup_fmap. destruct (decide (k = h)) as [->|Hk].
  - rewrite H, lookup_insert_eq. cbn. f_equal. apply R in H as [_ [_ (N1 & N2 & [N3 _]%NoDup_cons)%NoDup_app]%NoDup_cons].
    unfold swap. rewrite fmap_app. cbn. rewrite Z.eqb_refl. f_equal; [|f_equal]; apply (swap_notin old new); [|done].
    intros Hl. apply (N2 _ Hl). set_solver +.
  - rewrite lookup_insert_ne by done. destruct (A !! k) as [l|] eqn:E; [|done]. cbn. f_equal. apply swap_notin.
    intros Hl. apply (D h k _ _ H E (not_eq_sym Hk) old); set_solver +Hl.
Qed.

Lemma replaced_rep m A old new A' : rep m A -> replaced (dom m) old new A = Some A' ->
  wp (k_list_replace old new) (becomes m A') m /\ free A' old /\ old ∈ dom m.
Proof.
  intros R H. unfold replaced in H. destruct (room (dom m) new A) as [B|] eqn:E; [|discriminate]. cbn in H.
  apply room_spec in E as (HB & F & Hnew%alive). pose proof (rep_sub _ _ _ R HB) as RB. clear R HB.
  destruct (member old B) eqn:Em.
  - injection H as <-. apply (member_spec m) in Em as (h & l1 & l2 & H & _ & _ & Ho); [|exact RB].
    pose proof (rep_ring _ _ RB _ _ H) as Rh. rewrite (swap_lists _ _ _ _ _ _ _ RB H). split_and!; [| |done].
    + eapply k_list_replace_wp; [exact Rh|done|by apply F|]. intros m' R' _ O. split; [|apply O].
      eapply rep_change; [exact RB|exact H|exact R'|exact O|]. intros x. rewrite elem_of_app, !elem_of_cons, !elem_of_app, !elem_of_cons. naive_solver.
    + pose proof (ring_mid_fresh _ _ _ _ _ Rh) as Hf. rewrite <- insert_delete_eq. apply free_insert.
      * eapply free_own; [exact RB|exact H|]. set_solver +.
      * assert (old <> new) by (intros ->; apply (F h _ H); set_solver +). set_solver.
  - destruct (B !! old) as [l|] eqn:El; [|discriminate]. cbn in H. destruct (bool_decide (l <> [])) eqn:Eb; [|discriminate].
    injection H as <-. apply bool_decide_eq_true in Eb. pose proof (rep_ring _ _ RB _ _ El) as Rh. split_and!.
    + eapply replace_head_wp; [exact Rh|done|done|by apply F|]. intros m' R' _ O. split; [|apply O].
      assert (forall x, x ∈ new :: l -> free (delete old B) x) as Fx.
      { intros x [->|Hx]%elem_of_cons; [by apply free_delete|]. eapply free_own; [exact RB|exact El|]. set_solver +Hx. }
      apply rep_new; [|exact R'|exact Fx]. eapply rep_frame; [eapply rep_sub; [exact RB|apply delete_subseteq]|exact O|exact Fx].
    + apply free_insert; [eapply free_own; [exact RB|exact El|set_solver +]|].
      pose proof (F old l El) as Hn. destruct Rh as [_ [N _]%NoDup_cons]. set_solver +Hn N.
    + eapply rep_elem; [exact RB|exact El|]. set_solver +.
Qed.

(** ** Two lists *)

(** The writes were on the nodes of two lists; one goes to [h], the other may
    be without a list. *)
Lemma rep_two m m' A s h l t l' X :
  rep m A -> A !! s = Some l -> A !! h = Some t -> s <> h -> ring m' h l' -> others m m' X ->
  (forall x, x ∈ X ++ l' -> x ∈ s :: h :: l ++ t) -> s ∉ l' ->
  rep m' (<[h := l']> (delete s A)) /\ free (<[h := l']> (delete s A)) s /\ s ∈ dom m.
Proof.
  intros R Hs Hh Hne R' O HX Hsl.
  assert (delete h (delete s A) ⊆ A) as Hsub by (etrans; apply delete_subseteq).
  assert (forall x, x ∈ s :: h :: l ++ t -> free (delete h (delete s A)) x) as F.
  { intros x Hx. assert (x ∈ s :: l \/ x ∈ h :: t) as [Hx1|Hx1] by set_solver +Hx.
    - apply free_delete. by eapply free_own.
    - rewrite delete_delete. apply free_delete. by eapply free_own. }
  rewrite <- insert_delete_eq. split_and!.
  - apply rep_new; [eapply rep_frame; [eapply rep_sub; [exact R|exact Hsub]|exact O|]|exact R'|].
    + intros x Hx. apply F, HX. set_solver +Hx.
    + intros x [->|Hx]%elem_of_cons; [apply F; set_solver +|]. apply F, HX. set_solver +Hx.
  - apply free_insert; [apply F; set_solver +|]. by apply not_elem_of_cons.
  - eapply rep_elem; [exact R|exact Hs|]. set_solver +.
Qed.

Lemma rep_two_disjoint m A s h l t : rep m A -> A !! s = Some l -> A !! h = Some t -> s <> h -> NoDup (s :: h :: l ++ t).
Proof.
  intros R Hs Hh Hne. pose proof (rep_ring _ _ R _ _ Hs) as [_ [N1 N2]%NoDup_cons].
  pose proof (rep_ring _ _ R _ _ Hh) as [_ [N3 N4]%NoDup_cons].
  pose proof (rep_disj _ _ R _ _ _ _ Hs Hh Hne) as D. rewrite !NoDup_cons, NoDup_app. set_solver.
Qed.

(** The four splices, from what each does to the rings. *)
Lemma joined_rep m A s h f (keep : bool) c A' :
  rep m A -> joined f keep s h A = Some A' -> (forall l t, f l t ≡ₚ l ++ t) ->
  (forall l t (Q : unit -> store -> Prop), ring m s l -> ring m h t -> NoDup (s :: h :: l ++ t) ->
     (forall m', ring m' h (f l t) -> (keep = true -> ring m' s []) -> others m m' (s :: h :: l ++ t) -> Q tt m') -> wp c Q m) ->
  wp c (becomes m A') m.
Proof.
  intros R H Hf Hc. unfold joined in H. destruct (A !! s) as [l|] eqn:Hs; [|discriminate]. cbn in H.
  destruct (A !! h) as [t|] eqn:Hh; [|discriminate]. cbn in H. destruct (bool_decide (s <> h)) eqn:E; [|discriminate].
  apply bool_decide_eq_true in E. injection H as <-. pose proof (rep_two_disjoint _ _ _ _ _ _ R Hs Hh E) as N.
  eapply Hc; [by apply R|by apply R|done|]. intros m' R1 R2 O.
  destruct (rep_two m m' A s h l t (f l t) _ R Hs Hh E R1 O) as (R3 & F & D).
  - intros x. rewrite elem_of_app, (Hf l t). rewrite !elem_of_cons. tauto.
  - rewrite (Hf l t). apply NoDup_cons in N as [N _]. set_solver +N.
  - split; [|apply O]. destruct keep; [|done]. apply rep_new; [done|by apply R2|]. by intros x ->%list_elem_of_singleton.
Qed.

Lemma room_keep nodes x A A1 h l : room nodes x A = Some A1 -> A !! h = Some l -> l <> [] -> A1 !! h = Some l.
Proof.
  unfold room. intros E H Hl. assert (A1 = A \/ A1 = delete x A /\ A !! x = Some []) as [->|[-> Hx]]; [|done|].
  - destruct (A !! x) as [[|]|]; destruct (_ && _); naive_solver.
  - rewrite lookup_delete_ne; [done|]. intros ->. congruence.
Qed.

(** [k_list_cut_position]: the shortcut for one node is never taken, as the
    entry is in the list. *)
Lemma cut_rep m A list head entry l A1 A' :
  rep m A -> A !! head = Some l -> l <> [] -> room (dom m) list A = Some A1 ->
  (if entry =? head then Some (<[list := []]> A1)
   else r ← split_at entry l; Some (<[list := fst r ++ [entry]]> (<[head := snd r]> A1))) = Some A' ->
  wp (k_list_cut_position list head entry) (becomes m A') m.
Proof.
  intros R H Hl Hroom HA. pose proof (rep_ring _ _ R _ _ H) as Rh. pose proof (room_keep _ _ _ _ _ _ Hroom H Hl) as H1.
  apply room_spec in Hroom as (Hsub & F & Hlist). pose proof (rep_sub _ _ _ R Hsub) as R1.
  destruct (ring_link_head _ _ _ Rh) as (n & Hn & Hx & _).
  apply wp_bind. eapply k_list_empty_wp; [exact Rh|]. rewrite bool_decide_false by done.
  apply wp_bind. eapply k_list_is_singular_wp; [exact Rh|]. apply wp_bind. eapply wp_get; [exact Hn|]. rewrite Hx.
  destruct (Z.eqb_spec entry head) as [->|Hne].
  - injection HA as <-. rewrite Z.eqb_refl, !andb_false_r. by apply init_rep.
  - destruct (split_at entry l) as [[l1 l2]|] eqn:E; [|discriminate]. injection HA as <-. apply split_at_spec in E as ->. cbn [fst snd] in *.
    replace (_ && _) with false; [|by destruct l1 as [|? []]; destruct l2; cbn; rewrite ?Z.eqb_refl].
    eapply cut_position_wp; [exact Rh|by apply alive|by apply (F head)|]. intros m' R2 R3 O. split; [|apply O].
    assert (forall x, x ∈ head :: l1 ++ entry :: l2 -> free (delete head A1) x) as Fo by (intros x; by apply (free_own m)).
    assert (free (delete head A1) list) as Fl by by apply free_delete.
    pose proof (F head _ H1) as Hnot. rewrite <- (insert_delete_eq A1 head).
    assert (rep m' (<[head := l2]> (delete head A1))) as R4.
    { apply rep_new; [|exact R3|intros x Hx2; apply Fo; set_solver +Hx2].
      eapply rep_frame; [eapply rep_sub; [exact R1|apply delete_subseteq]|exact O|].
      intros x [->|Hx2]%elem_of_cons; [done|by apply Fo]. }
    apply rep_new; [exact R4|exact R2|]. pose proof Rh as [_ N]. intros x [->|Hx2]%elem_of_cons.
    + apply free_insert; [done|]. set_solver +Hnot.
    + apply free_insert; [apply Fo; set_solver +Hx2|].
      apply NoDup_cons in N as [N1 (_ & N2 & [N3 _]%NoDup_cons)%NoDup_app].
      apply elem_of_app in Hx2 as [Hx2| ->%list_elem_of_singleton]; [pose proof (N2 _ Hx2) as N4; set_solver +N1 N4 Hx2|set_solver +N1 N3].
Qed.

Lemma del_range_rep m A h (first last : loc) l A' :
  rep m A -> A !! h = Some l ->
  (r ← split_at first l;
   if first =? last then Some ([] : Datatypes.list Z, <[h := fst r ++ snd r]> A)
   else q ← split_at last (snd r); Some ([], <[h := fst r ++ snd q]> A)) = Some ([], A') ->
  wp (list_del_range first last) (becomes m A') m.
Proof.
  intros R H HA. destruct (split_at first l) as [[l1 r]|] eqn:E; [|discriminate]. apply split_at_spec in E as ->. cbn [fst snd mbind option_bind] in *.
  pose proof (rep_ring _ _ R _ _ H) as Rh.
  assert (exists l2 mid, A' = <[h := l1 ++ l2]> A /\ first :: r = mid ++ l2 /\ mid <> [] /\ first = List.hd 0 mid /\ last = List.last mid 0)
    as (l2 & mid & -> & Er & Hmid & Ef & El).
  { destruct (Z.eqb_spec first last) as [->|Hne].
    - injection HA as <-. by exists r, [last].
    - destruct (split_at last r) as [[q l2]|] eqn:E; [|discriminate]. injection HA as <-. apply split_at_spec in E as ->. cbn [fst snd].
      exists l2, (first :: q ++ [last]). split_and!; [done|by rewrite <- app_comm_cons, <- app_assoc|done|done|].
      by rewrite app_comm_cons, List.last_last. }
  rewrite Er in Rh, H. rewrite Ef, El. eapply list_del_range_wp; [exact Rh|done|]. intros m' R' O. split; [|apply O].
  eapply rep_change; [exact R|exact H|exact R'|exact O|]. set_solver +.
Qed.

(** ** The theorem *)

Ltac klists_case H :=
  repeat match type of H with
  | (if ?b then _ else _) = Some _ => let E := fresh "E" in destruct b eqn:E; [|discriminate]
  | (?o ≫= _) = Some _ => let l := fresh "l" in let E := fresh "E" in
      destruct o as [l|] eqn:E; [|discriminate]; cbn [mbind option_bind] in H
  end.

(** A loop over a list of the store. *)
Lemma loop_rep m A off c h l r fuel : rep m A -> (size (dom m) <= fuel)%nat -> A !! h = Some l -> lspec off c h l = Some r ->
  wp (lexec fuel off c h) (fun a m' => a = fst r /\ rep m' (<[h := snd r]> A) /\ dom m' = dom m) m.
Proof.
  intros R Hs H Hl. pose proof (rep_length _ _ _ _ R H). destruct r as [a l'].
  eapply wp_mono; [apply (loop_wp fuel off c h l a l'); [by apply R|lia|done]|]. intros a' m' (-> & R' & O).
  split_and!; [done| |apply O]. eapply rep_change; [exact R|exact H|exact R'|exact O|].
  intros x. rewrite elem_of_app. intros [Hx|Hx%(lspec_sub _ _ _ _ _ _ Hl)]; left; set_solver +Hx.
Qed.

Lemma kexec_spec m A c a A' fuel :
  rep m A -> (size (dom m) <= fuel)%nat -> kspec (dom m) c A = Some (a, A') ->
  wp (kexec fuel c) (fun r m' => r = a /\ rep m' A' /\ dom m' = dom m) m.
Proof.
  intros R Hs H.
  destruct c; cbn [kspec kexec] in *; klists_case H; try (injection H as <- <-);
    repeat match goal with E : room _ _ _ = Some _ |- _ => apply room_spec in E as (Hsub & F & Hd); pose proof (rep_sub _ _ _ R Hsub) as R1 end.
  - by apply void_wp, init_rep.
  - by apply void_wp, add_rep.
  - by apply void_wp, add_tail_rep.
  - by apply void_wp, del_rep.
  - apply void_wp, (del_then_rep m A); [done|done|]. intros m' R' F' D'. by apply init_rep.
  - destruct (replaced_rep _ _ _ _ _ R E) as (W & _ & _). by apply void_wp.
  - destruct (replaced_rep _ _ _ _ _ R E) as (W & F & D). apply void_wp, wp_bind. eapply wp_mono; [exact W|].
    intros [] m1 [R1 D1]. rewrite <- D1. apply init_rep; [done|done|by rewrite D1].
  - apply void_wp, (del_then_rep m A); [done|done|]. intros m' R' F' D'. by apply add_rep.
  - apply void_wp, (del_then_rep m A); [done|done|]. intros m' R' F' D'. by apply add_tail_rep.
  - apply bool_decide_eq_true in E0. apply asks_wp; [done|]. intros Q HQ. eapply k_list_is_last_wp; [by apply R|done|exact HQ].
  - apply asks_wp; [done|]. intros Q HQ. eapply k_list_empty_wp; [by apply R|exact HQ].
  - apply asks_wp; [done|]. intros Q HQ. eapply k_list_empty_careful_wp; [by apply R|exact HQ].
  - apply asks_wp; [done|]. intros Q HQ. eapply k_list_is_singular_wp; [by apply R|exact HQ].
  - by apply void_wp, rotate_left_rep.
  - apply void_wp_code with (c := k_list_cut_position list head entry). destruct (bool_decide (l = [])) eqn:El.
    + apply bool_decide_eq_true in El as ->. injection H as <- <-. split; [done|]. apply wp_bind.
      eapply k_list_empty_wp; [by apply R|]. by apply wp_ret.
    + apply bool_decide_eq_false in El. destruct (room (dom m) list A) as [A1|] eqn:Er; [|discriminate]. cbn [mbind option_bind] in H.
      assert (a = []) as -> by (destruct (entry =? head); [|destruct (split_at entry l)]; naive_solver). split; [done|].
      eapply cut_rep; [exact R|exact E|exact El|exact Er|].
      destruct (entry =? head); [|destruct (split_at entry l); [|done]]; cbn in *; by simplify_eq.
  - apply void_wp. eapply joined_rep; [exact R|exact E|done|]. intros l1 t Q R1 R2 N HQ.
    eapply (k_list_splice_wp R1 R2 N). intros m' R' O. by apply HQ.
  - apply void_wp. eapply joined_rep; [exact R|exact E|intros; apply Permutation_app_comm|]. intros l1 t Q R1 R2 N HQ.
    eapply (k_list_splice_tail_wp R1 R2 N). intros m' R' O. by apply HQ.
  - apply void_wp. eapply joined_rep; [exact R|exact E|done|]. intros l1 t Q R1 R2 N HQ.
    eapply (k_list_splice_init_wp R1 R2 N). intros m' R' Rs O. by apply HQ.
  - apply void_wp. eapply joined_rep; [exact R|exact E|intros; apply Permutation_app_comm|]. intros l1 t Q R1 R2 N HQ.
    eapply (k_list_splice_tail_init_wp R1 R2 N). intros m' R' Rs O. by apply HQ.
  - apply wp_bind. eapply list_first_entry_wp; [by apply R|]. by apply wp_ret.
  - apply wp_bind. eapply list_last_entry_wp; [by apply R|]. by apply wp_ret.
  - apply void_wp_code with (c := list_del_range begin_ end_).
    assert (a = []) as -> by (destruct (begin_ =? end_); [|destruct (split_at end_ (snd l0))]; naive_solver). split; [done|].
    eapply del_range_rep; [exact R|exact E|]. rewrite E0. exact H.
  - pose proof (rep_length _ _ _ _ R E). eapply k_list_for_each_wp; [by apply R|lia|done].
  - pose proof (rep_length _ _ _ _ R E). eapply k_list_for_each_prev_wp; [by apply R|lia|done].
  - pose proof (rep_length _ _ _ _ R E). eapply k_list_for_each_safe_wp; [by apply R|lia|]. intros m' R' O. split_and!; [done| |apply O].
    eapply rep_change; [exact R|exact E|exact R'|exact O|]. set_solver +.
  - by apply loop_rep with (l := l).
Qed.

Lemma kexec_all_spec m A cs answers A' fuel :
  rep m A -> (size (dom m) <= fuel)%nat -> kspec_all (dom m) cs A = Some (answers, A') ->
  wp (kexec_all fuel cs) (fun r m' => r = answers /\ rep m' A' /\ dom m' = dom m) m.
Proof.
  revert m A answers. induction cs as [|c cs IH]; intros m A answers R Hs H; cbn [kspec_all kexec_all] in *; [by injection H as <- <-|].
  destruct (kspec (dom m) c A) as [[a A1]|] eqn:E; [|discriminate]. cbn [mbind option_bind fst snd] in H.
  destruct (kspec_all (dom m) cs A1) as [[r A2]|] eqn:E'; [|discriminate]. injection H as <- <-.
  apply wp_bind. eapply wp_mono; [by eapply kexec_spec|]. intros a' m1 (-> & R1 & D1).
  apply wp_bind. eapply wp_mono; [eapply IH; [done|by rewrite D1|by rewrite D1]|].
  intros r' m2 (-> & R2 & D2). apply wp_ret. split_and!; [done..|congruence].
Qed.

(** C15: The kernel lists are sequences of nodes: for every sequence of calls of the
    list operations of list.h (adding, deleting with and without
    initialisation, replacing, moving, rotating, cutting, the four splices,
    ranges, the tests and the loops over nodes and over entries, in both
    directions, from any place and while any of the entries are taken out) whose nodes are where the calls expect them, no dangling or poisoned
    pointer is followed, the loops end, the answers are those of the operations
    on sequences, and the store holds exactly the resulting lists. *)
Theorem kernel_lists_refine_sequences m A cs answers A' fuel :
  rep m A -> (size (dom m) <= fuel)%nat -> kspec_all (dom m) cs A = Some (answers, A') ->
  exists m', kexec_all fuel cs m = Some (answers, m') /\ rep m' A' /\ dom m' = dom m.
Proof.
  intros R Hs H. destruct (wp_run _ _ _ (kexec_all_spec _ _ _ _ _ _ R Hs H)) as (r & m' & E & -> & R' & D). by exists m'.
Qed.

Definition nine_nodes : store := list_to_map ((fun x => (x, LH 0 0)) <$> [1; 2; 3; 11; 12; 13; 14; 15; 16]).
Definition kdemo : list kcommand :=
  [KInit 1; KInit 2; KAddTail 11 1; KAddTail 12 1; KAdd 13 1; KForEach 1; KMoveTail 13 2; KAddTail 14 2; KReplace 14 15; KRotateLeft 2;
   KForEachPrev 2; KSpliceTailInit 2 1; KForEach 1; KCut 3 1 11; KForEach 3; KIsLast 13 1; KDel 12; KAdd 12 3; KDelInit 15; KEmpty 15;
   KSplice 3 1; KForEach 1; KLoop 8 LEach 1; KLoop 8 LReverse 1; KLoop 8 (LContinue (Some 4)) 1; KLoop 8 (LContinueReverse None) 1;
   KLoop 8 LLast 1; KLoop 8 (LSafeReverse (fun e => e =? 3)) 1; KLoop 0 (LNodesFrom 13) 1; KAddTail 11 1; KLoop 8 (LSafeFrom (fun e => e =? 3) 4) 1;
   KAdd 11 1; KMove 12 1; KDelRange 1 12 11; KIsSingular 1; KReplaceInit 1 16; KFirst 16; KEmptyCareful 1; KDrain 16; KEmpty 16].

Lemma kernel_lists_refine_sequences_witness :
  exists m', kexec_all 9 kdemo nine_nodes = Some ([[]; []; []; []; []; [13; 11; 12]; []; []; []; []; [13; 15]; []; [11; 12; 15; 13]; []; [11];
      [1]; []; []; []; [1]; []; [12; 11; 13]; [4; 3; 5]; [5; 3; 4]; [3; 5]; [5; 3; 4]; [5]; [5; 3; 4]; [13]; []; [4; 5; 3];
      []; []; []; [1]; []; [13]; [1]; [13]; [1]], m')
    /\ rep m' (list_to_map [(16, []); (1, []); (15, []); (2, [])]) /\ dom m' = dom nine_nodes.
Proof.
  apply (kernel_lists_refine_sequences nine_nodes ∅ kdemo).
  - constructor; intros *; by rewrite lookup_empty.
  - vm_compute. lia.
  - vm_compute. reflexivity.
Defined.
