(* ===== verification/AssocArray.v ===== *)
(** * hashtable-linux-kernel: the associative array

    Models [src/hashtable-linux-kernel/assoc_array.c], [hashtable.c] and the
    operations of [hashtable.h] it uses.  An entry is a hash list node, a list
    node, and a key, with a data pointer; it is known by its address.  [malloc]
    gives a block for the state, or none; [blocks] holds the key copies and the
    client's data.  A call back given to [array_create] or [set_ht_create] is a
    number, with its meaning as an argument.  A [key_size] is converted to
    [uint8_t] wherever it is passed. *)

From S2P Require Import Prelude KList KHash KHlist KernelList.
Import KHash KHlist KernelList.

Module AssocArray.

Record hashtable_t := HT { table : loc; bits : Z }.
Record entry_t := Entry { key : ptr; key_size : Z; data : ptr }.
Record array_t := Arr { ht : loc; size : Z; free_entry : option Z; fill_entry : option Z }.

Record memory := Mem {
  hl : hstore;                  (* [hnode] of the entries, tables of buckets *)
  lnodes : KList.store;         (* [lnode] of the entries, [list] of the arrays *)
  entries : gmap loc entry_t;
  hts : gmap loc hashtable_t;
  arrays : gmap loc array_t;
  blocks : gmap loc (list Z);
  custom_ht_create : option Z
}.

Definition set_hl (h : hstore) (m : memory) : memory := Mem h (lnodes m) (entries m) (hts m) (arrays m) (blocks m) (custom_ht_create m).
Definition set_lnodes (l : KList.store) (m : memory) : memory := Mem (hl m) l (entries m) (hts m) (arrays m) (blocks m) (custom_ht_create m).
Definition set_entries (e : gmap loc entry_t) (m : memory) : memory := Mem (hl m) (lnodes m) e (hts m) (arrays m) (blocks m) (custom_ht_create m).
Definition set_hts (h : gmap loc hashtable_t) (m : memory) : memory := Mem (hl m) (lnodes m) (entries m) h (arrays m) (blocks m) (custom_ht_create m).
Definition set_arrays (a : gmap loc array_t) (m : memory) : memory := Mem (hl m) (lnodes m) (entries m) (hts m) a (blocks m) (custom_ht_create m).
Definition set_blocks (b : gmap loc (list Z)) (m : memory) : memory := Mem (hl m) (lnodes m) (entries m) (hts m) (arrays m) b (custom_ht_create m).

Definition on_hlist {A} (c : M hstore A) : M memory A := zoom hl set_hl c.
Definition on_list {A} (c : M KList.store A) : M memory A := zoom lnodes set_lnodes c.

Definition get_entry (e : loc) : M memory entry_t := m ← gets entries; of_option (m !! e).
Definition put_entry (e : loc) (x : entry_t) : M memory unit :=
  _ ← get_entry e; modify (fun m => set_entries (<[e := x]> (entries m)) m).
Definition get_ht (h : loc) : M memory hashtable_t := m ← gets hts; of_option (m !! h).
Definition get_array (a : loc) : M memory array_t := m ← gets arrays; of_option (m !! a).
Definition put_array (a : loc) (x : array_t) : M memory unit :=
  _ ← get_array a; modify (fun m => set_arrays (<[a := x]> (arrays m)) m).
Definition get_block (p : ptr) : M memory (list Z) := b ← of_option p; m ← gets blocks; of_option (m !! b).

(** The contents of a new object are never read before they are written. *)
Definition new_entry_at (e : loc) : M memory unit :=
  modify (fun m => set_entries (<[e := Entry None 0 None]> (entries m))
    (set_lnodes (<[e := KList.LH 0 0]> (lnodes m)) (set_hl (HS (<[e := HN None None]> (hnodes (hl m))) (tables (hl m))) m))).
Definition free_entry_at (e : loc) : M memory unit :=
  _ ← get_entry e;
  modify (fun m => set_entries (delete e (entries m))
    (set_lnodes (delete e (lnodes m)) (set_hl (HS (delete e (hnodes (hl m))) (tables (hl m))) m))).
Definition free_block (p : ptr) : M memory unit :=
  match p with
  | None => mret tt
  | Some b => _ ← get_block p; modify (fun m => set_blocks (delete b (blocks m)) m)
  end.

(** [1 << bits] of an [int] *)
Definition one_shl (bits : Z) : M memory Z := if (0 <=? bits) && (bits <? 31) then mret (2 ^ bits) else ub.

(** ** hashtable.h *)

Fixpoint hash_init_loop (n : nat) (t i : Z) : M memory unit :=
  match n with
  | O => mret tt
  | S n => on_hlist (INIT_HLIST_HEAD t i);; hash_init_loop n t (i + 1)
  end.
Definition __hash_init (t sz : Z) : M memory unit := hash_init_loop (Z.to_nat sz) t 0.

Definition hash_hashed (n : loc) : M memory bool := u ← on_hlist (hlist_unhashed n); mret (negb u).

Fixpoint hash_empty_loop (n : nat) (t i : Z) : M memory Z :=
  match n with
  | O => mret 1
  | S n => e ← on_hlist (hlist_empty t i); if (e : bool) then hash_empty_loop n t (i + 1) else mret 0
  end.
Definition __hash_empty (t sz : Z) : M memory Z := hash_empty_loop (Z.to_nat sz) t 0.

Definition hash_del (n : loc) : M memory unit := on_hlist (hlist_del_init n).

Definition hash_add_bits (t bits node key : Z) : M memory unit :=
  d ← one_shl bits; on_hlist (hlist_add_head node t (calc_bkt key d)).

Section calls.
Context (malloc : memory -> ptr).
Context (user_ht_create : Z -> Z -> M memory ptr).
Context (user_free : Z -> loc -> M memory unit).
Context (user_fill : Z -> loc -> ptr -> list Z -> Z -> M memory Z).

Definition hashtable_init (h : loc) : M memory unit :=
  t ← get_ht h; n ← one_shl (bits t); __hash_init (table t) n.

Definition hashtable_add (h node key : Z) : M memory unit :=
  t ← get_ht h; hash_add_bits (table t) (bits t) node key.

(** ** hashtable.c *)

(** The buckets of a new table hold anything until they are initialised. *)
Definition ht_create (bits : Z) : M memory ptr :=
  p ← gets malloc;
  match p with
  | None => mret None
  | Some h =>
      modify (fun m => set_hts (<[h := HT 0 bits]> (hts m)) m);;
      n ← one_shl bits;
      q ← gets malloc;
      match q with
      | None => modify (fun m => set_hts (delete h (hts m)) m);; mret None
      | Some t =>
          modify (fun m => set_hts (<[h := HT t bits]> (hts m))
            (set_hl (HS (hnodes (hl m)) (<[t := replicate (Z.to_nat n) (Some 0)]> (tables (hl m)))) m));;
          hashtable_init h;;
          mret (Some h)
      end
  end.

(** ** assoc_array.c *)

Definition set_ht_create (f : option Z) : M memory unit :=
  modify (fun m => Mem (hl m) (lnodes m) (entries m) (hts m) (arrays m) (blocks m) f).

Definition call_ht_create (bits : Z) : M memory ptr :=
  f ← gets custom_ht_create;
  match f with None => ht_create bits | Some f => user_ht_create f bits end.

(** [k] is the key's buffer. *)
Definition fill_assoc_array_entry (e : loc) (d : ptr) (k : list Z) (key_size : Z) : M memory Z :=
  let key_size := u8 key_size in
  p ← gets malloc;
  x ← get_entry e;
  put_entry e (Entry p (AssocArray.key_size x) (data x));;
  match p with
  | Some b =>
      (if zlen k <? key_size then ub else modify (fun m => set_blocks (<[b := take (Z.to_nat key_size) k]> (blocks m)) m));;
      put_entry e (Entry p key_size d);;
      mret 0
  | None => mret 1
  end.

Definition free_assoc_array_entry (e : loc) : M memory unit :=
  x ← get_entry e;
  free_block (data x);;
  free_block (key x);;
  free_entry_at e.

Definition call_free_entry (f : option Z) (e : loc) : M memory unit :=
  match f with None => free_assoc_array_entry e | Some f => user_free f e end.
Definition call_fill_entry (f : option Z) (e : loc) (d : ptr) (k : list Z) (key_size : Z) : M memory Z :=
  match f with None => fill_assoc_array_entry e d k key_size | Some f => user_fill f e d k key_size end.

Definition array_create (bits : Z) (free_entry fill_entry : option Z) : M memory ptr :=
  p ← gets malloc;
  match p with
  | None => mret None
  | Some arr =>
      modify (fun m => set_arrays (<[arr := Arr 0 0 None None]> (arrays m)) (set_lnodes (<[arr := KList.LH 0 0]> (lnodes m)) m));;
      h ← call_ht_create bits;
      match h with
      | None =>
          modify (fun m => set_arrays (delete arr (arrays m)) (set_lnodes (delete arr (lnodes m)) m));;
          mret None
      | Some h =>
          on_list (K_INIT_LIST_HEAD arr);;
          put_array arr (Arr h 0 free_entry fill_entry);;
          mret (Some arr)
      end
  end.

Definition memcmp_eq (a b : list Z) (n : Z) : M memory bool :=
  if (zlen a <? n) || (zlen b <? n) then ub
  else mret (bool_decide (take (Z.to_nat n) a = take (Z.to_nat n) b)).

(** [hlist_for_each_entry_safe]: the next pointer is read before the body. *)
Fixpoint find_loop (fuel : nat) (cur : ptr) (k : list Z) (key_size : Z) : M memory ptr :=
  match fuel with
  | O => ub
  | S fuel =>
      match cur with
      | None => mret None
      | Some c =>
          n ← on_hlist (get_node c);
          x ← get_entry c;
          b ← get_block (key x);
          eq ← memcmp_eq b k key_size;
          if (eq : bool) then mret (Some c) else find_loop fuel (hnext n) k key_size
      end
  end.

Definition array_get_by_key (fuel : nat) (arr : ptr) (k : list Z) (key_size : Z) : M memory ptr :=
  let key_size := u8 key_size in
  match arr with
  | None => mret None
  | Some arr =>
      hash_key ← hash32_str fuel k key_size;
      a ← get_array arr;
      h ← get_ht (ht a);
      d ← one_shl (bits h);
      let bkt := calc_bkt hash_key d in
      first ← on_hlist (get_bucket (table h) bkt);
      find_loop fuel first k key_size
  end.

Definition array_add (fuel : nat) (arr : ptr) (d : ptr) (k : list Z) (key_size : Z) : M memory Z :=
  let key_size := u8 key_size in
  match arr with
  | None => mret (-1)
  | Some arr =>
      p ← gets malloc;
      match p with
      | None => mret (-1)
      | Some e =>
          new_entry_at e;;
          a ← get_array arr;
          ret ← call_fill_entry (fill_entry a) e d k key_size;
          if negb (ret =? 0) then free_entry_at e;; mret (-1)
          else
            hash_key ← hash32_str fuel k key_size;
            a ← get_array arr;
            hashtable_add (ht a) e (s32 hash_key);;
            on_list (k_list_add_tail e arr);;
            a ← get_array arr;
            put_array arr (Arr (ht a) (u64 (size a + 1)) (free_entry a) (fill_entry a));;
            mret 0
      end
  end.

Definition EINVAL : Z := 22.

(** [hlist_del], [k_list_del], the call back and the size. *)
Definition take_out (arr e : loc) : M memory unit :=
  on_hlist (hlist_del e);;
  on_list (k_list_del e);;
  a ← get_array arr;
  call_free_entry (free_entry a) e;;
  a ← get_array arr;
  put_array arr (Arr (ht a) (u64 (size a - 1)) (free_entry a) (fill_entry a)).

Definition array_del (fuel : nat) (arr : ptr) (k : list Z) (key_size : Z) : M memory Z :=
  let key_size := u8 key_size in
  match arr with
  | None => mret EINVAL
  | Some a =>
      existing ← array_get_by_key fuel arr k key_size;
      match existing with
      | None => mret 1
      | Some e => take_out a e;; mret 0
      end
  end.

Definition array_add_replace (fuel : nat) (arr : ptr) (d : ptr) (k : list Z) (key_size : Z) : M memory Z :=
  let key_size := u8 key_size in
  match arr with
  | None => mret (-1)
  | Some _ => array_del fuel arr k key_size;; array_add fuel arr d k key_size
  end.

(** [CLEAR_HASHTABLE_BITS]: one bucket, and all of them. *)
Fixpoint clear_chain (fuel : nat) (f : option Z) (cur : ptr) : M memory unit :=
  match fuel with
  | O => ub
  | S fuel =>
      match cur with
      | None => mret tt
      | Some c =>
          n ← on_hlist (get_node c);
          hash_del c;;
          call_free_entry f c;;
          clear_chain fuel f (hnext n)
      end
  end.

Fixpoint clear_buckets (n : nat) (fuel : nat) (f : option Z) (t bkt : Z) : M memory unit :=
  match n with
  | O => mret tt
  | S n =>
      first ← on_hlist (get_bucket t bkt);
      clear_chain fuel f first;;
      clear_buckets n fuel f t (bkt + 1)
  end.

Definition HT_FREE (fuel : nat) (h : loc) (f : option Z) : M memory unit :=
  t ← get_ht h;
  n ← one_shl (bits t);
  clear_buckets (Z.to_nat n) fuel f (table t) 0;;
  ts ← gets (fun m => tables (hl m));
  _ ← of_option (ts !! table t);
  modify (fun m => set_hl (HS (hnodes (hl m)) (delete (table t) (tables (hl m)))) m);;
  modify (fun m => set_hts (delete h (hts m)) m).

Definition array_free (fuel : nat) (arr : ptr) : M memory Z :=
  match arr with
  | None => mret (-1)
  | Some arr =>
      a ← get_array arr;
      HT_FREE fuel (ht a) (free_entry a);;
      modify (fun m => set_arrays (delete arr (arrays m)) (set_lnodes (delete arr (lnodes m)) m));;
      mret 0
  end.

Definition _array_get_first (arr : ptr) (is_first : bool) : M memory ptr :=
  match arr with
  | None => mret None
  | Some arr =>
      e ← on_list (k_list_empty arr);
      a ← get_array arr;
      if (e : bool) || (size a =? 0) then mret None
      else
        x ← on_list (if is_first then k_list_first_entry arr else k_list_last_entry arr);
        mret (Some x)
  end.

Definition array_get_first (arr : ptr) : M memory ptr := _array_get_first arr true.
Definition array_get_last (arr : ptr) : M memory ptr := _array_get_first arr false.

Definition _array_del_first (arr : ptr) (is_first : bool) : M memory Z :=
  match arr with
  | None => mret (-1)
  | Some arr =>
      e ← on_list (k_list_empty arr);
      a ← get_array arr;
      if (e : bool) || (size a =? 0) then mret (-1)
      else
        x ← on_list (if is_first then k_list_first_entry arr else k_list_last_entry arr);
        take_out arr x;;
        mret 0
  end.

Definition array_del_first (arr : ptr) : M memory Z := _array_del_first arr true.
Definition array_del_last (arr : ptr) : M memory Z := _array_del_first arr false.

Fixpoint chain_length (fuel : nat) (cur : ptr) (count : Z) : M memory Z :=
  match fuel with
  | O => ub
  | S fuel =>
      match cur with
      | None => mret count
      | Some c => n ← on_hlist (get_node c); chain_length fuel (hnext n) (u64 (count + 1))
      end
  end.

Fixpoint collision_loop (n : nat) (fuel : nat) (t i collisions : Z) : M memory Z :=
  match n with
  | O => mret collisions
  | S n =>
      first ← on_hlist (get_bucket t i);
      count ← chain_length fuel first 0;
      collision_loop n fuel t (i + 1) (if 1 <? count then u64 (collisions + (count - 1)) else collisions)
  end.

Definition array_collision_percent (fuel : nat) (arr : ptr) : M memory Z :=
  match arr with
  | None => mret 0
  | Some arr =>
      a ← get_array arr;
      if size a =? 0 then mret 0
      else
        h ← get_ht (ht a);
        num_buckets ← one_shl (bits h);
        collisions ← collision_loop (Z.to_nat num_buckets) fuel (table h) 0 0;
        mret (s32 (u64 (collisions * 100) / size a))
  end.

End calls.
End AssocArray.
