(* ===== verification/AssocArrayInv.v ===== *)
(** * hashtable-linux-kernel: the representation of an associative array

    An array owns its entries, their keys and data, its table and itself.  The
    list holds the entries in the order they were added; the chain of a bucket
    holds those with its hash, the latest first. *)

From S2P Require Import Prelude KList KListSpec KHash KHashSpec KHlist KernelList AssocArray.
Import KHash KHlist KernelList AssocArray.

(** An entry: its address, its key and the block it is in, the data likewise. *)
Record item := Item { it_e : loc; it_kb : loc; it_key : list Z; it_d : loc; it_val : list Z }.

Definition hash_value (k : list Z) : Z := Z.shiftr (u32 (str_sum k (zlen k) * GOLDEN_RATIO_PRIME_32)) 0.
Definition bucket_of (bits : Z) (k : list Z) : Z := calc_bkt (hash_value k) (2 ^ bits).

Definition in_bucket (bits i : Z) (x : item) : Prop := bucket_of bits (it_key x) = i.
#[export] Instance in_bucket_dec bits i x : Decision (in_bucket bits i x).
Proof. unfold in_bucket. tc_solve. Defined.

Definition chain_of (bits : Z) (L : list item) (i : Z) : list loc := it_e <$> filter (in_bucket bits i) (reverse L).

Definition own_blocks (L : list item) : list loc := concat ((fun x => [it_kb x; it_d x]) <$> L).

(** [b] is [a] with new objects at [X]. *)
Definition grown {A} (a b : gmap loc A) (X : list loc) : Prop :=
  (forall x, x ∈ X -> a !! x = None) /\ forall x, x ∉ X -> b !! x = a !! x.

Definition item_ok (m : memory) (ksz : Z) (x : item) : Prop :=
  entries m !! it_e x = Some (Entry (Some (it_kb x)) ksz (Some (it_d x))) /\
  blocks m !! it_kb x = Some (it_key x) /\ blocks m !! it_d x = Some (it_val x) /\ zlen (it_key x) = ksz.

(** In the memory [m], grown from [m0], the table [t] of [h] has the entries [L];
    the blocks [P] are the client's. *)
Record owned (m0 m : memory) (arr h t : loc) (bits ksz : Z) (L : list item) (P : list (loc * list Z)) : Prop := {
  ow_bits : 0 <= bits < 31;
  ow_ht : hts m !! h = Some (HT t bits);
  ow_hash : hashed (hl m) t (2 ^ bits) (chain_of bits L);
  ow_nodup : NoDup (it_e <$> L);
  ow_item : forall x, x ∈ L -> item_ok m ksz x;
  ow_pend : forall d v, (d, v) ∈ P -> blocks m !! d = Some v;
  ow_blocks : NoDup (own_blocks L ++ P.*1);
  ow_arr : arr ∉ it_e <$> L;
  gr_hnodes : grown (hnodes (hl m0)) (hnodes (hl m)) (it_e <$> L);
  gr_tables : grown (tables (hl m0)) (tables (hl m)) [t];
  gr_lnodes : grown (lnodes m0) (lnodes m) (arr :: (it_e <$> L));
  gr_entries : grown (entries m0) (entries m) (it_e <$> L);
  gr_hts : grown (hts m0) (hts m) [h];
  gr_arrays : grown (arrays m0) (arrays m) [arr];
  gr_blocks : grown (blocks m0) (blocks m) (own_blocks L ++ P.*1);
  gr_create : custom_ht_create m = custom_ht_create m0
}.

Record assoc (m0 m : memory) (arr h t : loc) (bits ksz : Z) (L : list item) (P : list (loc * list Z)) : Prop := {
  as_owned : owned m0 m arr h t bits ksz L P;
  as_array : arrays m !! arr = Some (Arr h (zlen L) None None);
  as_ring : ring (lnodes m) arr (it_e <$> L)
}.

(** A block the allocator may return. *)
Definition unused (m : memory) (p : loc) : Prop :=
  hnodes (hl m) !! p = None /\ tables (hl m) !! p = None /\ lnodes m !! p = None /\ entries m !! p = None /\
  hts m !! p = None /\ arrays m !! p = None /\ blocks m !! p = None.

(** ** Chains of a list of entries *)

Lemma chain_snoc bits L x i : chain_of bits (L ++ [x]) i =
  if decide (in_bucket bits i x) then it_e x :: chain_of bits L i else chain_of bits L i.
Proof. unfold chain_of. rewrite reverse_snoc, filter_cons. by destruct (decide _). Qed.

Lemma chain_mid bits L1 x L2 i : chain_of bits (L1 ++ x :: L2) i =
  chain_of bits L2 i ++ (if decide (in_bucket bits i x) then [it_e x] else []) ++ chain_of bits L1 i.
Proof.
  unfold chain_of. rewrite reverse_app, reverse_cons, <- app_assoc, !filter_app, !fmap_app, filter_cons.
  by destruct (decide _).
Qed.

Lemma chain_app bits L1 L2 i : chain_of bits (L1 ++ L2) i = chain_of bits L2 i ++ chain_of bits L1 i.
Proof. unfold chain_of. by rewrite reverse_app, filter_app, fmap_app. Qed.

Lemma elem_of_chain bits L i e : e ∈ chain_of bits L i <-> exists x, x ∈ L /\ it_e x = e /\ in_bucket bits i x.
Proof.
  unfold chain_of. rewrite list_elem_of_fmap. setoid_rewrite list_elem_of_filter. setoid_rewrite elem_of_reverse.
  split; intros (x & H); exists x; naive_solver.
Qed.

Lemma chain_elem bits L i e : e ∈ chain_of bits L i -> e ∈ it_e <$> L.
Proof. rewrite elem_of_chain, list_elem_of_fmap. intros (x & ? & ? & _). by exists x. Qed.

Lemma own_blocks_app L1 L2 : own_blocks (L1 ++ L2) = own_blocks L1 ++ own_blocks L2.
Proof. unfold own_blocks. by rewrite fmap_app, concat_app. Qed.

Lemma own_blocks_mid L1 x L2 P : own_blocks (L1 ++ x :: L2) ++ P ≡ₚ it_kb x :: it_d x :: own_blocks (L1 ++ L2) ++ P.
Proof. rewrite !own_blocks_app. cbn. solve_Permutation. Qed.

Lemma es_mid L1 x L2 : it_e <$> L1 ++ x :: L2 ≡ₚ it_e x :: (it_e <$> L1 ++ L2).
Proof. rewrite !fmap_app. cbn. solve_Permutation. Qed.

Lemma bucket_range bits k : 0 <= bits < 31 -> 0 <= bucket_of bits k < 2 ^ bits.
Proof. apply calc_bkt_range. Qed.

(** ** Memory that grows and shrinks *)

Lemma grown_perm {A} (a b : gmap loc A) X Y : X ≡ₚ Y -> grown a b X -> grown a b Y.
Proof. intros E [H1 H2]. split; intros x Hx; [apply H1|apply H2]; by rewrite E. Qed.

Lemma grown_add {A} (a b b' : gmap loc A) (X : list loc) e :
  grown a b X -> b !! e = None -> (forall y, y ∉ e :: X -> b' !! y = b !! y) -> grown a b' (e :: X).
Proof.
  intros [H1 H2] He Hb. split.
  - intros x [->|Hx]%elem_of_cons; [|by apply H1]. destruct (decide (e ∈ X)); [by apply H1|]. by rewrite <- H2.
  - intros x Hx. rewrite Hb by done. apply H2. set_solver.
Qed.

Lemma grown_del {A} (a b b' : gmap loc A) (X : list loc) e :
  grown a b (e :: X) -> (forall y, y ∉ e :: X -> b' !! y = b !! y) -> grown a (delete e b') X.
Proof.
  intros [H1 H2] Hb. split; [intros x Hx; apply H1; set_solver|]. intros x Hx. destruct (decide (x = e)) as [->|Hne].
  - rewrite lookup_delete_eq. symmetry. apply H1. set_solver.
  - rewrite lookup_delete_ne, Hb by set_solver. apply H2. set_solver.
Qed.

Lemma grown_same {A} (a b b' : gmap loc A) (X : list loc) :
  grown a b X -> (forall y, y ∉ X -> b' !! y = b !! y) -> grown a b' X.
Proof. intros [H1 H2] Hb. split; [done|]. intros x Hx. rewrite Hb by done. by apply H2. Qed.

Lemma grown_nil {A} (a b : gmap loc A) : grown a b [] -> b = a.
Proof. intros [_ H]. apply map_eq. intros x. apply H, not_elem_of_nil. Qed.

Lemma grown_refl {A} (a : gmap loc A) : grown a a [].
Proof. split; [by intros x ?%not_elem_of_nil|done]. Qed.

Lemma grown_new {A} (a b : gmap loc A) e : a !! e = None -> (forall y, y <> e -> b !! y = a !! y) -> grown a b [e].
Proof.
  intros He Hb. split; [by intros x ->%list_elem_of_singleton|]. intros x Hx. apply Hb. intros ->. apply Hx. set_solver +.
Qed.

Section rules.
Context {m0 m : memory} {arr h t : loc} {bits ksz : Z}.

Lemma owned_item_blocks L P x : owned m0 m arr h t bits ksz L P -> x ∈ L -> it_kb x ∈ own_blocks L /\ it_d x ∈ own_blocks L.
Proof. intros O Hx. apply list_elem_of_split in Hx as (L1 & L2 & ->). rewrite own_blocks_app. cbn. set_solver. Qed.

(** A new entry, with the client's data. *)
Lemma owned_add L P x s' l' a' :
  owned m0 m arr h t bits ksz L ((it_d x, it_val x) :: P) ->
  hnodes (hl m) !! it_e x = None -> lnodes m !! it_e x = None -> entries m !! it_e x = None ->
  blocks m !! it_kb x = None -> zlen (it_key x) = ksz -> it_e x <> arr ->
  hashed s' t (2 ^ bits) (chain_of bits (L ++ [x])) ->
  (forall y, y ∉ it_e x :: (it_e <$> L) -> hnodes s' !! y = hnodes (hl m) !! y) ->
  (forall u, u <> t -> tables s' !! u = tables (hl m) !! u) ->
  (forall y, y ∉ it_e x :: arr :: (it_e <$> L) -> l' !! y = lnodes m !! y) ->
  (forall y, y ∉ [arr] -> a' !! y = arrays m !! y) ->
  owned m0 (Mem s' l' (<[it_e x := Entry (Some (it_kb x)) ksz (Some (it_d x))]> (entries m)) (hts m) a'
    (<[it_kb x := it_key x]> (blocks m)) (custom_ht_create m)) arr h t bits ksz (L ++ [x]) P.
Proof.
  intros O E1 E2 E3 E4 Hk Harr Hh Hs Ht Hl Ha.
  assert (it_e x ∉ it_e <$> L) as Hx.
  { intros (y & Hy & HyL)%list_elem_of_fmap. destruct (ow_item _ _ _ _ _ _ _ _ _ O y HyL) as [He _]. congruence. }
  assert (forall y, y ∈ L -> it_e y <> it_e x) as Hne.
  { intros y Hy E. apply Hx, list_elem_of_fmap. eauto. }
  assert (it_e <$> L ++ [x] ≡ₚ it_e x :: (it_e <$> L)) as Ee by (rewrite fmap_app; cbn; solve_Permutation).
  assert (own_blocks (L ++ [x]) ++ P.*1 ≡ₚ it_kb x :: own_blocks L ++ it_d x :: P.*1) as Eb.
  { rewrite own_blocks_app. cbn. solve_Permutation. }
  assert (it_kb x ∉ own_blocks L ++ it_d x :: P.*1) as Hkb.
  { intros [Hb|Hb]%elem_of_app.
    - unfold own_blocks in Hb. apply list_elem_of_In, in_concat in Hb as (l & Hl1 & Hl2).
      apply list_elem_of_In, list_elem_of_fmap in Hl1 as (y & -> & Hy). apply list_elem_of_In in Hl2.
      destruct (ow_item _ _ _ _ _ _ _ _ _ O y Hy) as (_ & B1 & B2 & _).
      rewrite !elem_of_cons in Hl2. destruct Hl2 as [E|[E|E%not_elem_of_nil]]; [rewrite E in E4; congruence..|done].
    - apply (list_elem_of_fmap fst ((it_d x, it_val x) :: P)) in Hb as ([d v] & Hd & Hb). cbn in Hd. subst d.
      pose proof (ow_pend _ _ _ _ _ _ _ _ _ O _ _ Hb). congruence. }
  pose proof (ow_blocks _ _ _ _ _ _ _ _ _ O) as Nb. cbn in Nb.
  constructor; cbn [hl lnodes entries hts arrays blocks custom_ht_create hnodes tables].
  - apply (ow_bits _ _ _ _ _ _ _ _ _ O).
  - apply (ow_ht _ _ _ _ _ _ _ _ _ O).
  - done.
  - rewrite Ee. apply NoDup_cons. split; [done|apply (ow_nodup _ _ _ _ _ _ _ _ _ O)].
  - intros y [Hy|Hy]%elem_of_app.
    + destruct (ow_item _ _ _ _ _ _ _ _ _ O y Hy) as (A & B & C & D). destruct (owned_item_blocks _ _ _ O Hy).
      split_and!; cbn; [rewrite lookup_insert_ne by (intros E; by apply (Hne y))|rewrite lookup_insert_ne by (intros E; apply Hkb; rewrite E; set_solver)..|done]; done.
    + apply list_elem_of_singleton in Hy as ->. split_and!; cbn; [by rewrite lookup_insert_eq|by rewrite lookup_insert_eq| |done].
      rewrite lookup_insert_ne by (intros E; apply Hkb; rewrite E; set_solver). apply (ow_pend _ _ _ _ _ _ _ _ _ O). set_solver.
  - intros d v Hd. rewrite lookup_insert_ne; [apply (ow_pend _ _ _ _ _ _ _ _ _ O); set_solver|].
    intros E. apply Hkb. rewrite E. apply elem_of_app. right. apply elem_of_cons. right. apply list_elem_of_fmap. by exists (d, v).
  - rewrite Eb. by apply NoDup_cons.
  - rewrite Ee. apply not_elem_of_cons. split; [done|apply (ow_arr _ _ _ _ _ _ _ _ _ O)].
  - eapply grown_perm; [symmetry; exact Ee|]. eapply grown_add; [apply (gr_hnodes _ _ _ _ _ _ _ _ _ O)|done|done].
  - eapply grown_same; [apply (gr_tables _ _ _ _ _ _ _ _ _ O)|]. intros y Hy. apply Ht. set_solver.
  - eapply grown_perm; [|eapply grown_add; [apply (gr_lnodes _ _ _ _ _ _ _ _ _ O)|done|done]]. rewrite Ee. solve_Permutation.
  - eapply grown_perm; [symmetry; exact Ee|]. eapply grown_add; [apply (gr_entries _ _ _ _ _ _ _ _ _ O)|done|]. intros y Hy. apply lookup_insert_ne. set_solver.
  - apply (gr_hts _ _ _ _ _ _ _ _ _ O).
  - eapply grown_same; [apply (gr_arrays _ _ _ _ _ _ _ _ _ O)|done].
  - eapply grown_perm; [symmetry; exact Eb|]. eapply grown_add; [apply (gr_blocks _ _ _ _ _ _ _ _ _ O)|done|].
    intros y Hy. apply lookup_insert_ne. set_solver.
  - apply (gr_create _ _ _ _ _ _ _ _ _ O).
Qed.

(** An entry is gone, with its key and data. *)
Lemma owned_remove L1 x L2 P s' l' a' :
  owned m0 m arr h t bits ksz (L1 ++ x :: L2) P ->
  hashed s' t (2 ^ bits) (chain_of bits (L1 ++ L2)) ->
  (forall y, y ∉ it_e x :: (it_e <$> L1 ++ L2) -> hnodes s' !! y = hnodes (hl m) !! y) ->
  (forall u, u <> t -> tables s' !! u = tables (hl m) !! u) ->
  (forall y, y ∉ it_e x :: arr :: (it_e <$> L1 ++ L2) -> l' !! y = lnodes m !! y) ->
  (forall y, y ∉ [arr] -> a' !! y = arrays m !! y) ->
  owned m0 (Mem (HS (delete (it_e x) (hnodes s')) (tables s')) (delete (it_e x) l') (delete (it_e x) (entries m)) (hts m) a'
    (delete (it_kb x) (delete (it_d x) (blocks m))) (custom_ht_create m)) arr h t bits ksz (L1 ++ L2) P.
Proof.
  intros O Hh Hs Ht Hl Ha. pose proof (es_mid L1 x L2) as Ee. pose proof (own_blocks_mid L1 x L2 P.*1) as Eb.
  pose proof (ow_nodup _ _ _ _ _ _ _ _ _ O) as N. rewrite Ee in N. apply NoDup_cons in N as [N1 N2].
  pose proof (ow_blocks _ _ _ _ _ _ _ _ _ O) as Nb. rewrite Eb in Nb. apply NoDup_cons in Nb as [B1 [B2 B3]%NoDup_cons].
  assert (forall y, y ∈ L1 ++ L2 -> y ∈ L1 ++ x :: L2) as Hin by set_solver.
  assert (forall y, y ∈ L1 ++ L2 -> it_e y ∈ it_e <$> L1 ++ L2) as Hie by (intros y Hy; apply list_elem_of_fmap; eauto).
  assert (forall y, y ∈ L1 ++ L2 -> it_kb y ∈ own_blocks (L1 ++ L2) /\ it_d y ∈ own_blocks (L1 ++ L2)) as Hbl.
  { intros y Hy. apply list_elem_of_split in Hy as (l1 & l2 & ->). rewrite own_blocks_app. cbn. set_solver. }
  assert (forall b, b ∈ own_blocks (L1 ++ L2) ++ P.*1 -> it_kb x <> b /\ it_d x <> b) as Hoth.
  { intros b Hb. split; intros E; [rewrite E in B1|rewrite E in B2]; set_solver +B1 B2 Hb. }
  constructor; cbn [hl lnodes entries hts arrays blocks custom_ht_create hnodes tables].
  - apply (ow_bits _ _ _ _ _ _ _ _ _ O).
  - apply (ow_ht _ _ _ _ _ _ _ _ _ O).
  - eapply hashed_frame; [done| |done]. intros j y _ Hy%chain_elem. cbn. apply lookup_delete_ne. by intros <-.
  - done.
  - intros y Hy. destruct (ow_item _ _ _ _ _ _ _ _ _ O y (Hin y Hy)) as (A & B & C & D).
    destruct (Hbl y Hy) as [K1 K2]. pose proof (Hie y Hy) as K0.
    split_and!; cbn; [rewrite lookup_delete_ne by (intros E; by rewrite E in N1)|..|done]; [done| |].
    + rewrite !lookup_delete_ne by (apply Hoth; set_solver +K1). done.
    + rewrite !lookup_delete_ne by (apply Hoth; set_solver +K2). done.
  - intros d v Hd. assert (d ∈ P.*1) as Hd1 by (apply list_elem_of_fmap; by exists (d, v)).
    rewrite !lookup_delete_ne by (apply Hoth; set_solver +Hd1). by apply (ow_pend _ _ _ _ _ _ _ _ _ O).
  - done.
  - pose proof (ow_arr _ _ _ _ _ _ _ _ _ O) as Har. rewrite Ee in Har. set_solver.
  - eapply grown_del; [|exact Hs]. eapply grown_perm; [exact Ee|]. apply (gr_hnodes _ _ _ _ _ _ _ _ _ O).
  - eapply grown_same; [apply (gr_tables _ _ _ _ _ _ _ _ _ O)|]. intros y Hy. apply Ht. set_solver.
  - eapply grown_del; [|exact Hl]. eapply grown_perm; [|apply (gr_lnodes _ _ _ _ _ _ _ _ _ O)]. rewrite Ee. solve_Permutation.
  - eapply grown_del; [eapply grown_perm; [exact Ee|apply (gr_entries _ _ _ _ _ _ _ _ _ O)]|done].
  - apply (gr_hts _ _ _ _ _ _ _ _ _ O).
  - eapply grown_same; [apply (gr_arrays _ _ _ _ _ _ _ _ _ O)|done].
  - eapply grown_del; [eapply grown_perm; [|eapply grown_del; [eapply grown_perm; [|apply (gr_blocks _ _ _ _ _ _ _ _ _ O)]|done]]|done].
    2: { rewrite Eb. apply Permutation_swap. } done.
  - apply (gr_create _ _ _ _ _ _ _ _ _ O).
Qed.
End rules.
