(* ===== verification/AssocArrayOps.v ===== *)
(** * hashtable-linux-kernel: what the operations do to an array *)

From S2P Require Import Prelude KList KListSpec KHash KHashSpec KHlist KernelList AssocArray AssocArrayInv.
Import KHash KHlist KernelList AssocArray.

(** ** The accesses *)

Lemma wp_on_hlist {A} (c : M hstore A) (Q : A -> memory -> Prop) m :
  wp c (fun a h => Q a (set_hl h m)) (hl m) -> wp (on_hlist c) Q m.
Proof. intros H. by apply wp_zoom. Qed.

Lemma wp_on_list {A} (c : M KList.store A) (Q : A -> memory -> Prop) m :
  wp c (fun a l => Q a (set_lnodes l m)) (lnodes m) -> wp (on_list c) Q m.
Proof. intros H. by apply wp_zoom. Qed.

Lemma wp_get_entry e x (Q : entry_t -> memory -> Prop) m : entries m !! e = Some x -> Q x m -> wp (get_entry e) Q m.
Proof. intros H HQ. apply wp_bind, wp_gets. rewrite H. by apply wp_ret. Qed.

Lemma wp_put_entry e x y (Q : unit -> memory -> Prop) m : entries m !! e = Some x ->
  Q tt (set_entries (<[e := y]> (entries m)) m) -> wp (put_entry e y) Q m.
Proof. intros H HQ. by eapply wp_bind, wp_get_entry. Qed.

Lemma wp_get_ht h x (Q : hashtable_t -> memory -> Prop) m : hts m !! h = Some x -> Q x m -> wp (get_ht h) Q m.
Proof. intros H HQ. apply wp_bind, wp_gets. rewrite H. by apply wp_ret. Qed.

Lemma wp_get_array a x (Q : array_t -> memory -> Prop) m : arrays m !! a = Some x -> Q x m -> wp (get_array a) Q m.
Proof. intros H HQ. apply wp_bind, wp_gets. rewrite H. by apply wp_ret. Qed.

Lemma wp_put_array a x y (Q : unit -> memory -> Prop) m : arrays m !! a = Some x ->
  Q tt (set_arrays (<[a := y]> (arrays m)) m) -> wp (put_array a y) Q m.
Proof. intros H HQ. by eapply wp_bind, wp_get_array. Qed.

Lemma wp_get_block b v (Q : list Z -> memory -> Prop) m : blocks m !! b = Some v -> Q v m -> wp (get_block (Some b)) Q m.
Proof. intros H HQ. apply wp_bind, wp_ret, wp_bind, wp_gets. rewrite H. by apply wp_ret. Qed.

Lemma wp_free_block b v (Q : unit -> memory -> Prop) m : blocks m !! b = Some v ->
  Q tt (set_blocks (delete b (blocks m)) m) -> wp (free_block (Some b)) Q m.
Proof. intros H HQ. apply wp_bind. eapply wp_get_block; [done|]. by apply wp_modify. Qed.

Lemma wp_one_shl b (Q : Z -> memory -> Prop) m : 0 <= b < 31 -> Q (2 ^ b) m -> wp (one_shl b) Q m.
Proof. intros H HQ. unfold one_shl. destruct (Z.leb_spec 0 b), (Z.ltb_spec b 31); [by apply wp_ret|lia..]. Qed.

Lemma hash32_str_run {S} fuel k (s : S) : (Z.to_nat (zlen k) < fuel)%nat -> hash32_str fuel k (zlen k) s = Some (hash_value k, s).
Proof. intros Hf. pose proof (zlen_nonneg k). by apply hash_str_run. Qed.

Lemma wp_hash32 fuel k ksz (Q : Z -> memory -> Prop) m : zlen k = ksz -> (Z.to_nat ksz < fuel)%nat ->
  Q (hash_value k) m -> wp (hash32_str fuel k ksz) Q m.
Proof. intros <- Hf HQ. by eapply wp_intro; [apply hash32_str_run|]. Qed.

(** The hash goes through an [int] on its way to the bucket. *)
Lemma calc_bkt_s32 h d : calc_bkt (s32 h) d = calc_bkt h d.
Proof.
  unfold calc_bkt. f_equal. unfold wrap, swrap.
  rewrite <- Zminus_mod_idemp_l, Z.mod_mod, Zminus_mod_idemp_l by done. f_equal. lia.
Qed.

(** ** Lookup *)

Definition find_last (L : list item) (k : list Z) : option item :=
  List.find (fun x => bool_decide (it_key x = k)) (reverse L).

Lemma find_filter {A} (p : A -> bool) (q : A -> Prop) `{!forall x, Decision (q x)} l :
  (forall x, p x = true -> q x) -> List.find p (filter q l) = List.find p l.
Proof.
  intros Hpq. induction l as [|x l IH]; [done|]. rewrite filter_cons. cbn. destruct (p x) eqn:E.
  - rewrite decide_True by auto. cbn. by rewrite E.
  - destruct (decide (q x)); cbn; [by rewrite E|done].
Qed.

Lemma find_last_split L k x : find_last L k = Some x ->
  exists L1 L2, L = L1 ++ x :: L2 /\ it_key x = k /\ forall y, y ∈ L2 -> it_key y <> k.
Proof.
  unfold find_last. intros H. assert (exists r1 r2, reverse L = r1 ++ x :: r2 /\ it_key x = k /\ forall y, y ∈ r1 -> it_key y <> k)
    as (r1 & r2 & E & Hk & Hr).
  { revert H. generalize (reverse L) as r. induction r as [|y r IH]; [done|]. cbn. case_bool_decide as Hy.
    - intros [= ->]. exists [], r. split_and!; [done|done|]. by intros ? ?%not_elem_of_nil.
    - intros (r1 & r2 & -> & Hk & Hr)%IH. exists (y :: r1), r2. split_and!; [done|done|]. intros z [->|Hz]%elem_of_cons; [done|by apply Hr]. }
  exists (reverse r2), (reverse r1). split_and!; [|done|].
  - rewrite <- (reverse_involutive L), E, reverse_app, reverse_cons, <- app_assoc. done.
  - intros y Hy. rewrite elem_of_reverse in Hy. by apply Hr.
Qed.

Section find.
Context {m : memory} {ksz : Z} {k : list Z}.
Hypothesis (Hk : zlen k = ksz).

Lemma find_loop_item c s first s' fuel (Q : ptr -> memory -> Prop) :
  hseg (hnodes (hl m)) s first (it_e <$> c) s' None -> (forall x, x ∈ c -> item_ok m ksz x) -> (length c < fuel)%nat ->
  Q (it_e <$> List.find (fun x => bool_decide (it_key x = k)) c) m -> wp (find_loop fuel first k ksz) Q m.
Proof.
  revert s first fuel. induction c as [|x c IH]; intros s first fuel H Hi Hf HQ;
    (destruct fuel as [|fuel]; [cbn in Hf; lia|]); cbn [find_loop].
  - destruct H as [_ <-]. by apply wp_ret.
  - destruct H as (-> & nx & H1 & H2). destruct (Hi x) as (A & B & _ & D); [set_solver|].
    apply wp_bind, wp_on_hlist. eapply wp_hget; [done|]. destruct m as [hl0 ln en hs ar bl cr]; cbn in *.
    apply wp_bind. eapply wp_get_entry; [done|]. apply wp_bind. eapply wp_get_block; [done|].
    unfold memcmp_eq. rewrite D, Hk, Z.ltb_irrefl. cbn [orb]. apply wp_bind, wp_ret.
    rewrite !take_ge by (unfold zlen in *; lia). case_bool_decide; [by apply wp_ret|].
    eapply IH; [done|set_solver|lia|done].
Qed.
End find.

Section ops.
Context {malloc : memory -> ptr}.
Hypothesis (malloc_unused : forall m p, malloc m = Some p -> unused m p).
Context {user_free : Z -> loc -> M memory unit} {user_fill : Z -> loc -> ptr -> list Z -> Z -> M memory Z}.
Context {m0 : memory} {arr h t : loc} {bits ksz : Z}.
Hypothesis (Hksz : ksz < 256).

Lemma key_size_u8 (k : list Z) : zlen k = ksz -> u8 ksz = ksz.
Proof. intros <-. pose proof (zlen_nonneg k). apply wrap_small. lia. Qed.

Lemma array_get_by_key_wp m L P k fuel (Q : ptr -> memory -> Prop) :
  assoc m0 m arr h t bits ksz L P -> zlen k = ksz -> (length L < fuel)%nat -> (Z.to_nat ksz < fuel)%nat ->
  Q (it_e <$> find_last L k) m -> wp (array_get_by_key fuel (Some arr) k ksz) Q m.
Proof.
  intros [O Ha _] Hk Hf Hf2 HQ. unfold array_get_by_key. rewrite (key_size_u8 k Hk).
  apply wp_bind. eapply wp_hash32; [done..|]. apply wp_bind. eapply wp_get_array; [done|]. cbn [AssocArray.ht].
  apply wp_bind. eapply wp_get_ht; [apply (ow_ht _ _ _ _ _ _ _ _ _ O)|]. cbn [AssocArray.bits].
  pose proof (ow_bits _ _ _ _ _ _ _ _ _ O) as Hb. apply wp_bind, wp_one_shl; [done|]. cbn [table].
  pose proof (bucket_range bits k Hb) as Hr.
  destruct (hashed_bucket (ow_hash _ _ _ _ _ _ _ _ _ O) (bucket_of bits k) Hr) as (bs & first & Ht & _ & Hfi & sl & C).
  apply wp_bind, wp_on_hlist. eapply wp_hget_bucket; [done..|]. destruct m as [hl0 ln en hs ar bl cr]; cbn in *.
  eapply (find_loop_item Hk); [exact C| | |].
  - intros x [_ Hx]%list_elem_of_filter. rewrite elem_of_reverse in Hx. by apply (ow_item _ _ _ _ _ _ _ _ _ O).
  - pose proof (length_filter (in_bucket bits (bucket_of bits k)) (reverse L)). rewrite length_reverse in *. lia.
  - rewrite find_filter; [done|]. intros x Hx%bool_decide_eq_true. unfold in_bucket. by rewrite Hx.
Qed.

(** ** Taking an entry out *)

Lemma own_blocks_nodup L1 x L2 P : NoDup (own_blocks (L1 ++ x :: L2) ++ P) -> it_kb x <> it_d x.
Proof. rewrite own_blocks_mid. intros [N _]%NoDup_cons. set_solver +N. Qed.

Lemma free_assoc_array_entry_wp m x (Q : unit -> memory -> Prop) :
  item_ok m ksz x -> it_kb x <> it_d x ->
  Q tt (Mem (HS (delete (it_e x) (hnodes (hl m))) (tables (hl m))) (delete (it_e x) (lnodes m)) (delete (it_e x) (entries m))
    (hts m) (arrays m) (delete (it_kb x) (delete (it_d x) (blocks m))) (custom_ht_create m)) ->
  wp (free_assoc_array_entry (it_e x)) Q m.
Proof.
  intros (A & B & C & D) Hne HQ. destruct m as [hl0 ln en hs ar bl cr]. cbn in *.
  apply wp_bind. eapply wp_get_entry; [done|]. cbn [data key].
  apply wp_bind. eapply wp_free_block; [done|]. apply wp_bind.
  eapply wp_free_block; [cbn; by rewrite lookup_delete_ne by congruence|].
  apply wp_bind. eapply wp_get_entry; [done|]. apply wp_modify. exact HQ.
Qed.

Lemma zlen_mid {A} (l1 : list A) x l2 : zlen (l1 ++ x :: l2) = zlen (l1 ++ l2) + 1.
Proof. unfold zlen. rewrite !length_app. cbn. lia. Qed.

(** [hlist_del] of an entry of the table. *)
Lemma chain_take_out L1 x L2 :
  (exists c1 c2, chain_of bits (L1 ++ x :: L2) (bucket_of bits (it_key x)) = c1 ++ it_e x :: c2 /\
     chain_of bits (L1 ++ L2) (bucket_of bits (it_key x)) = c1 ++ c2) /\
  forall j, j <> bucket_of bits (it_key x) -> chain_of bits (L1 ++ L2) j = chain_of bits (L1 ++ x :: L2) j.
Proof.
  split.
  - exists (chain_of bits L2 (bucket_of bits (it_key x))), (chain_of bits L1 (bucket_of bits (it_key x))).
    rewrite chain_mid, chain_app, decide_True by done. done.
  - intros j Hj. by rewrite chain_mid, chain_app, decide_False by (intros E; by rewrite E in Hj).
Qed.

Lemma take_out_wp m L1 x L2 P (Q : unit -> memory -> Prop) :
  assoc m0 m arr h t bits ksz (L1 ++ x :: L2) P -> zlen (L1 ++ x :: L2) < 2 ^ 64 ->
  (forall m', assoc m0 m' arr h t bits ksz (L1 ++ L2) P -> Q tt m') -> wp (take_out user_free arr (it_e x)) Q m.
Proof.
  intros [O Ha R] Hsz HQ. destruct (chain_take_out L1 x L2) as [(c1 & c2 & E1 & E2) Eo].
  apply wp_bind, wp_on_hlist. eapply (k_hlist_del_wp _ t (2 ^ bits) (chain_of bits (L1 ++ x :: L2)));
    [apply O|apply bucket_range; apply O|exact E1|exact E2|exact Eo|].
  intros s' H' (_ & F1 & _ & F2). apply wp_bind, wp_on_list. cbn [lnodes set_hl]. rewrite fmap_app in R. cbn in R.
  eapply k_list_del_wp; [exact R|]. intros l' R' [_ F3]. rewrite <- fmap_app in R', F3.
  apply wp_bind. eapply wp_get_array; [exact Ha|]. cbn [free_entry call_free_entry]. apply wp_bind.
  pose proof (ow_item _ _ _ _ _ _ _ _ _ O x) as Hx.
  eapply free_assoc_array_entry_wp; [apply Hx; set_solver +|eapply own_blocks_nodup; apply (ow_blocks _ _ _ _ _ _ _ _ _ O)|]. cbn.
  apply wp_bind. eapply wp_get_array; [exact Ha|]. eapply wp_put_array; [exact Ha|]. apply HQ.
  constructor; cbn.
  - apply (owned_remove (m := m) L1 x L2 P s' l'); [exact O|done| |exact F2| |].
    + intros y Hy. apply F1. rewrite E2. intros Hc. apply Hy. apply elem_of_cons in Hc as [->|Hc]; [set_solver +|].
      apply elem_of_cons. right. apply (chain_elem bits _ (bucket_of bits (it_key x))). by rewrite E2.
    + intros y Hy. apply F3. set_solver +Hy.
    + intros y Hy. apply lookup_insert_ne. set_solver +Hy.
  - rewrite lookup_insert_eq. do 2 f_equal. pose proof (zlen_mid L1 x L2). pose proof (zlen_nonneg (L1 ++ L2)).
    rewrite wrap_small by lia. lia.
  - eapply ring_eq; [done|]. intros y Hy. apply lookup_delete_ne. intros <-.
    pose proof (ow_nodup _ _ _ _ _ _ _ _ _ O) as N. rewrite es_mid in N. apply NoDup_cons in N as [N _].
    pose proof (ow_arr _ _ _ _ _ _ _ _ _ O) as Har. rewrite es_mid in Har. set_solver +N Har Hy.
Qed.

(** ** Adding an entry *)

(** The memory with the new entry [e]. *)
Definition with_entry (e : loc) (x : entry_t) (b : gmap loc (list Z)) (m : memory) : memory :=
  Mem (HS (<[e := HN None None]> (hnodes (hl m))) (tables (hl m))) (<[e := KList.LH 0 0]> (lnodes m))
    (<[e := x]> (entries m)) (hts m) (arrays m) b (custom_ht_create m).

Lemma without_entry e x m : unused m e ->
  Mem (HS (delete e (<[e := HN None None]> (hnodes (hl m)))) (tables (hl m))) (delete e (<[e := KList.LH 0 0]> (lnodes m)))
    (delete e (<[e := x]> (entries m))) (hts m) (arrays m) (blocks m) (custom_ht_create m) = m.
Proof.
  intros (U1 & _ & U3 & U4 & _). rewrite !delete_insert_id by done. by destruct m as [[] ? ? ? ? ? ?].
Qed.

Lemma fill_entry_wp m e d k (Q : Z -> memory -> Prop) :
  unused m e -> zlen k = ksz ->
  (forall kb, blocks m !! kb = None -> Q 0 (with_entry e (Entry (Some kb) ksz d) (<[kb := k]> (blocks m)) m)) ->
  ((exists m1, malloc m1 = None) -> forall x, Q 1 (with_entry e x (blocks m) m)) ->
  wp (fill_assoc_array_entry malloc e d k ksz) Q (with_entry e (Entry None 0 None) (blocks m) m).
Proof.
  intros U Hk HQ HN. unfold fill_assoc_array_entry. rewrite (key_size_u8 k Hk). apply wp_bind, wp_gets.
  destruct (malloc _) as [kb|] eqn:E.
  all: apply wp_bind; (eapply wp_get_entry; [cbn; by rewrite lookup_insert_eq|]); cbn [AssocArray.key_size data];
    apply wp_bind; (eapply wp_put_entry; [cbn; by rewrite lookup_insert_eq|]);
    unfold set_entries, with_entry; cbn; rewrite insert_insert_eq.
  - apply malloc_unused in E as (_ & _ & _ & _ & _ & _ & Ub). cbn in Ub.
    rewrite Hk, Z.ltb_irrefl. apply wp_bind, wp_modify. unfold set_blocks. cbn.
    apply wp_bind. eapply wp_put_entry; [cbn; by rewrite lookup_insert_eq|]. apply wp_ret.
    unfold set_entries. cbn. rewrite insert_insert_eq, take_ge by (unfold zlen in *; lia). by apply HQ.
  - apply wp_ret. apply HN. eauto.
Qed.

Lemma array_add_wp m L P d v k fuel (Q : Z -> memory -> Prop) :
  assoc m0 m arr h t bits ksz L ((d, v) :: P) -> zlen k = ksz -> (Z.to_nat ksz < fuel)%nat -> zlen L + 1 < 2 ^ 64 ->
  (forall m' x, it_key x = k -> it_val x = v -> assoc m0 m' arr h t bits ksz (L ++ [x]) P -> Q 0 m') ->
  ((exists m1, malloc m1 = None) -> Q (-1) m) ->
  wp (array_add malloc user_fill fuel (Some arr) (Some d) k ksz) Q m.
Proof.
  intros [O Ha R] Hk Hf Hsz HQ HN. unfold array_add. rewrite (key_size_u8 k Hk). apply wp_bind, wp_gets.
  destruct (malloc m) as [e|] eqn:Em; [|apply wp_ret, HN; eauto].
  pose proof (malloc_unused _ _ Em) as U. pose proof U as (U1 & _ & U3 & U4 & _).
  apply wp_bind, wp_modify. change (set_entries _ _) with (with_entry e (Entry None 0 None) (blocks m) m).
  apply wp_bind. eapply wp_get_array; [exact Ha|]. cbn [fill_entry call_fill_entry].
  apply wp_bind. eapply fill_entry_wp; [done|done| |].
  2: { intros Hm x. cbn [Z.eqb negb]. apply wp_bind, wp_bind. eapply wp_get_entry; [cbn; by rewrite lookup_insert_eq|].
       apply wp_modify, wp_ret. unfold set_entries, set_lnodes, set_hl. cbn. rewrite without_entry by done. by apply HN. }
  intros kb Hkb. cbn [Z.eqb negb]. set (m2 := with_entry _ _ _ m).
  set (x := Item e kb k d v).
  assert (e ∉ arr :: (it_e <$> L)) as He.
  { intros He. destruct (ring_get _ _ _ e R He) as [n Hn]. congruence. }
  apply wp_bind. eapply wp_hash32; [done|done|]. apply wp_bind. eapply wp_get_array; [exact Ha|]. cbn [AssocArray.ht].
  apply wp_bind. eapply wp_bind, wp_get_ht; [apply (ow_ht _ _ _ _ _ _ _ _ _ O)|]. cbn [table AssocArray.bits].
  pose proof (ow_bits _ _ _ _ _ _ _ _ _ O) as Hb. apply wp_bind, wp_one_shl; [done|]. rewrite calc_bkt_s32.
  assert (hashed (hl m2) t (2 ^ bits) (chain_of bits L)) as H2.
  { eapply hashed_frame; [apply (ow_hash _ _ _ _ _ _ _ _ _ O)| |done]. intros j y _ Hy%chain_elem. cbn.
    apply lookup_insert_ne. intros <-. set_solver +He Hy. }
  apply wp_on_hlist. eapply (k_hlist_add_head_wp H2 e (bucket_of bits k) (chain_of bits (L ++ [x])));
    [by apply bucket_range|cbn; rewrite lookup_insert_eq; eauto| | |..].
  { intros j _ Hy%chain_elem. set_solver +He Hy. }
  { rewrite chain_snoc. by rewrite decide_True. }
  { intros j Hj. rewrite chain_snoc. by rewrite decide_False by (intros E; by apply Hj). }
  intros s' H' (_ & F1 & _ & F2). apply wp_bind, wp_on_list. cbn [lnodes set_hl].
  eapply (k_list_add_tail_wp _ e arr (it_e <$> L)); [|unfold m2; cbn; rewrite lookup_insert_eq; eauto|done|].
  { eapply ring_eq; [exact R|]. intros y Hy. unfold m2. cbn. apply lookup_insert_ne. by intros <-. }
  intros l' R' [_ F3]. apply wp_bind. eapply wp_get_array; [exact Ha|]. apply wp_bind. eapply wp_put_array; [exact Ha|].
  apply wp_ret. apply (HQ _ x); [done|done|]. constructor; cbn.
  - apply (owned_add (m := m) L P x s' l'); try done.
    + set_solver +He.
    + intros y Hy. rewrite F1.
      * unfold m2. cbn. apply lookup_insert_ne. set_solver +Hy.
      * intros [->|Hc%chain_elem]%elem_of_cons; [set_solver +Hy|set_solver +Hy Hc].
    + intros y Hy. rewrite F3 by set_solver +Hy. unfold m2. cbn. apply lookup_insert_ne. set_solver +Hy.
    + intros y Hy. apply lookup_insert_ne. set_solver +Hy.
  - rewrite lookup_insert_eq. do 2 f_equal. rewrite zlen_snoc. pose proof (zlen_nonneg L). rewrite wrap_small by lia. lia.
  - by rewrite fmap_app.
Qed.

(** ** Both ends *)

Definition end_item (is_first : bool) (L : list item) : option item := if is_first then head L else last L.

Lemma hd_map (L : list item) d : List.hd d (it_e <$> L) = default d (it_e <$> head L).
Proof. by destruct L. Qed.

Lemma last_map (L : list item) d : List.last (it_e <$> L) d = default d (it_e <$> last L).
Proof. destruct L as [|x L _] using rev_ind; [done|]. rewrite fmap_app, last_snoc. apply List.last_last. Qed.

Lemma end_entry_run m L P is_first (Q : loc -> memory -> Prop) :
  assoc m0 m arr h t bits ksz L P -> Q (default arr (it_e <$> end_item is_first L)) m ->
  wp (on_list (if is_first then k_list_first_entry arr else k_list_last_entry arr)) Q m.
Proof.
  intros [_ _ R] HQ. apply wp_on_list. destruct m as [hl0 ln en hs ar bl cr]. cbn in *. destruct is_first.
  - eapply list_first_entry_wp; [exact R|]. by rewrite hd_map.
  - eapply list_last_entry_wp; [exact R|]. by rewrite last_map.
Qed.

Lemma ends_wp {A} m L P (kn kx : M memory A) (Q : A -> memory -> Prop) :
  assoc m0 m arr h t bits ksz L P -> wp (if decide (L = []) then kn else kx) Q m ->
  wp (e ← on_list (k_list_empty arr); a ← get_array arr; if (e : bool) || (size a =? 0) then kn else kx) Q m.
Proof.
  intros [_ Ha R] HQ. apply wp_bind, wp_on_list. eapply (list_empty_wp _ arr (it_e <$> L)); [exact R|].
  destruct m as [hl0 ln en hs ar bl cr]. cbn [set_lnodes hl lnodes entries hts arrays blocks custom_ht_create] in *.
  apply wp_bind. eapply wp_get_array; [exact Ha|]. cbn [size].
  destruct L as [|y L]; [done|]. rewrite bool_decide_false by done. rewrite (proj2 (Z.eqb_neq _ _)); [done|].
  unfold zlen. cbn. lia.
Qed.

Lemma array_get_first_wp m L P is_first (Q : ptr -> memory -> Prop) :
  assoc m0 m arr h t bits ksz L P -> Q (it_e <$> end_item is_first L) m ->
  wp (_array_get_first (Some arr) is_first) Q m.
Proof.
  intros A HQ. eapply ends_wp; [done|]. destruct L as [|y L]; cbn [decide].
  - case_decide; [|done]. apply wp_ret. by destruct is_first.
  - rewrite decide_False by done. apply wp_bind. eapply end_entry_run; [done|]. apply wp_ret.
    destruct is_first; cbn [end_item] in *; [done|]. destruct (last (y :: L)) eqn:E; [done|by apply last_None in E].
Qed.

Lemma array_del_first_wp m L P (is_first : bool) (Q : Z -> memory -> Prop) :
  assoc m0 m arr h t bits ksz L P -> zlen L < 2 ^ 64 ->
  (L = [] -> Q (-1) m) ->
  (forall m' L1 x L2, L = L1 ++ x :: L2 -> (if is_first then L1 = [] else L2 = []) ->
     assoc m0 m' arr h t bits ksz (L1 ++ L2) P -> Q 0 m') ->
  wp (_array_del_first user_free (Some arr) is_first) Q m.
Proof.
  intros A Hsz HN HQ. eapply ends_wp; [done|]. case_decide as EL; [by apply wp_ret, HN|].
  apply wp_bind. eapply end_entry_run; [done|].
  assert (exists L1 x L2, L = L1 ++ x :: L2 /\ end_item is_first L = Some x /\ if is_first then L1 = [] else L2 = [])
    as (L1 & x & L2 & -> & -> & He).
  { destruct is_first.
    - destruct L as [|x L]; [done|]. by exists [], x, L.
    - destruct L as [|x L _] using rev_ind; [done|]. exists L, x, []. cbn. by rewrite last_snoc. }
  cbn [fmap option_fmap option_map default from_option id]. apply wp_bind. eapply take_out_wp; [done|done|].
  intros m' A'. apply wp_ret. eauto.
Qed.
End ops.
