(* ===== verification/AssocArrayLife.v ===== *)
(** * hashtable-linux-kernel: creating and freeing an array *)

From S2P Require Import Prelude KList KListSpec KHash KHashSpec KHlist KernelList AssocArray AssocArrayInv AssocArrayOps.
Import KHash KHlist KernelList AssocArray.

(** ** Release *)

Lemma hseg_head m s f c s' : hseg m s f c s' None -> f = head c.
Proof. destruct c; [by intros [_ <-]|by intros [-> _]]. Qed.

(** The first entry of a chain is the last one of the list with its hash. *)
Lemma chain_cons_split bits L i e rest : chain_of bits L i = e :: rest ->
  exists L1 x L2, L = L1 ++ x :: L2 /\ it_e x = e /\ in_bucket bits i x /\ chain_of bits (L1 ++ L2) i = rest.
Proof.
  revert e rest. induction L as [|y L IH] using rev_ind; intros e rest; [done|]. rewrite chain_snoc.
  destruct (decide (in_bucket bits i y)) as [Hy|Hy].
  - intros [= <- <-]. exists L, y, []. by rewrite app_nil_r.
  - intros (L1 & x & L2 & -> & Hx & Hb & Hr)%IH. exists L1, x, (L2 ++ [y]).
    split_and!; [by rewrite <- app_assoc|done|done|]. rewrite app_assoc, chain_snoc. by rewrite decide_False.
Qed.

Lemma chain_sub_nil bits L1 x L2 j : chain_of bits (L1 ++ x :: L2) j = [] -> chain_of bits (L1 ++ L2) j = [].
Proof. rewrite chain_mid, chain_app. intros [-> [_ ->]%app_eq_nil]%app_eq_nil. done. Qed.

Section life.
Context {user_free : Z -> loc -> M memory unit}.
Context {m0 : memory} {arr h t : loc} {bits ksz : Z}.

Lemma clear_chain_wp m L P i c fuel (Q : unit -> memory -> Prop) :
  owned m0 m arr h t bits ksz L P -> 0 <= i < 2 ^ bits -> chain_of bits L i = c -> (length c < fuel)%nat ->
  (forall m' L', owned m0 m' arr h t bits ksz L' P -> arrays m' = arrays m -> (length L' <= length L)%nat ->
     chain_of bits L' i = [] -> (forall j, chain_of bits L j = [] -> chain_of bits L' j = []) -> Q tt m') ->
  wp (clear_chain user_free fuel None (head c)) Q m.
Proof.
  revert m L fuel. induction c as [|e c IH]; intros m L fuel O Hi Hc Hf HQ;
    (destruct fuel as [|fuel]; [cbn in Hf; lia|]); cbn [clear_chain head].
  { apply wp_ret. by apply (HQ m L). }
  destruct (hashed_bucket (ow_hash _ _ _ _ _ _ _ _ _ O) i Hi) as (bs & first & _ & _ & _ & sl & C).
  rewrite Hc in C. destruct C as (-> & nx & Hn & C). pose proof (hseg_head _ _ _ _ _ C) as ->.
  destruct (chain_cons_split _ _ _ _ _ Hc) as (L1 & x & L2 & -> & <- & Hb & Hr). unfold in_bucket in Hb.
  destruct (chain_take_out (bits := bits) L1 x L2) as [(c1 & c2 & E1 & E2) Eo]. rewrite Hb in E1, E2, Eo.
  apply wp_bind, wp_on_hlist. eapply wp_hget; [exact Hn|]. 
  replace (set_hl (hl m) m) with m by by destruct m. cbn [hnext].
  apply wp_bind, wp_on_hlist. eapply (k_hlist_del_init_wp _ t (2 ^ bits) (chain_of bits (L1 ++ x :: L2)));
    [apply (ow_hash _ _ _ _ _ _ _ _ _ O)|exact Hi|exact E1|exact E2|exact Eo|].
  intros s' H' (_ & F1 & _ & F2). apply wp_bind. cbn [call_free_entry].
  pose proof (ow_item _ _ _ _ _ _ _ _ _ O x ltac:(set_solver +)) as Hx.
  eapply (free_assoc_array_entry_wp (ksz := ksz)); [exact Hx|eapply own_blocks_nodup; apply (ow_blocks _ _ _ _ _ _ _ _ _ O)|]. cbn.
  eapply (IH _ (L1 ++ L2)).
  - apply (owned_remove (m := m) L1 x L2 P s' (lnodes m) (arrays m)); [exact O|done| |exact F2|done|done].
    intros y Hy. apply F1. rewrite E2. intros [->|Hcy]%elem_of_cons; [set_solver +Hy|]. apply Hy, elem_of_cons. right.
    apply (chain_elem bits _ i). by rewrite E2.
  - done.
  - done.
  - cbn in Hf. lia.
  - intros m' L' O' Ha Hl He Hs. apply (HQ m' L'); [done|done| |done|].
    + rewrite length_app in *. cbn. lia.
    + intros j Hj. by apply Hs, chain_sub_nil with x.
Qed.

Lemma clear_buckets_wp n m L P i fuel (Q : unit -> memory -> Prop) :
  owned m0 m arr h t bits ksz L P -> 0 <= i -> i + Z.of_nat n = 2 ^ bits -> (length L < fuel)%nat ->
  (forall j, 0 <= j < i -> chain_of bits L j = []) ->
  (forall m', owned m0 m' arr h t bits ksz [] P -> arrays m' = arrays m -> Q tt m') ->
  wp (clear_buckets user_free n fuel None t i) Q m.
Proof.
  revert m L i. induction n as [|n IH]; intros m L i O Hi Hn Hf Hc HQ; cbn [clear_buckets].
  - apply wp_ret, HQ; [|done]. destruct L as [|x L]; [done|].
    pose proof (bucket_range bits (it_key x) (ow_bits _ _ _ _ _ _ _ _ _ O)) as Hr.
    specialize (Hc (bucket_of bits (it_key x)) ltac:(lia)).
    assert (it_e x ∈ chain_of bits (x :: L) (bucket_of bits (it_key x))) as Hx.
    { apply elem_of_chain. exists x. split_and!; [set_solver +|done|done]. }
    rewrite Hc in Hx. by apply not_elem_of_nil in Hx.
  - destruct (hashed_bucket (ow_hash _ _ _ _ _ _ _ _ _ O) i ltac:(lia)) as (bs & first & Ht & _ & Hb & sl & C).
    apply wp_bind, wp_on_hlist. eapply wp_hget_bucket; [exact Ht|exact Hb|]. rewrite (hseg_head _ _ _ _ _ C).
    replace (set_hl (hl m) m) with m by by destruct m.
    assert (length (chain_of bits L i) <= length L)%nat as Hl.
    { unfold chain_of. rewrite length_fmap. etrans; [apply length_filter|]. by rewrite length_reverse. }
    apply wp_bind. eapply (clear_chain_wp m L P i); [exact O|lia|done|lia|]. intros m' L' O' Ha Hl' He Hs.
    eapply IH; [exact O'|lia|lia|lia| |].
    + intros j Hj. destruct (decide (j = i)) as [->|]; [done|]. apply Hs, Hc. lia.
    + intros m2 O2 Ha2. apply HQ; [done|congruence].
Qed.

Lemma array_free_wp m L fuel (Q : Z -> memory -> Prop) :
  assoc m0 m arr h t bits ksz L [] -> (length L < fuel)%nat -> Q 0 m0 -> wp (array_free user_free fuel (Some arr)) Q m.
Proof.
  intros [O Ha _] Hf HQ. unfold array_free. apply wp_bind. eapply wp_get_array; [exact Ha|]. cbn [ht free_entry].
  pose proof (ow_bits _ _ _ _ _ _ _ _ _ O) as Hb.
  apply wp_bind. unfold HT_FREE. apply wp_bind. eapply wp_get_ht; [apply (ow_ht _ _ _ _ _ _ _ _ _ O)|]. cbn [table AssocArray.bits].
  apply wp_bind, wp_one_shl; [done|]. apply wp_bind. eapply (clear_buckets_wp _ m L []); [exact O|lia| |exact Hf|intros; lia|].
  { rewrite Z2Nat.id by (apply Z.pow_nonneg; lia). lia. }
  intros m' O' Ha'. destruct (hd_table _ _ _ _ (ow_hash _ _ _ _ _ _ _ _ _ O')) as (bs & Ht & _).
  apply wp_bind, wp_gets. rewrite Ht. apply wp_bind, wp_ret, wp_bind, wp_modify, wp_modify, wp_bind, wp_modify, wp_ret.
  match goal with |- Q 0 ?m2 => assert (m2 = m0) as ->; [|exact HQ] end.
  destruct O' as [_ _ _ _ _ _ _ _ G1 G2 G3 G4 G5 G6 G7 G8]. cbn in *.
  destruct m0 as [[hn0 tb0] ln0 en0 hs0 ar0 bl0 cr0], m' as [[hn tb] ln en hs ar bl cr]. cbn in *. unfold set_lnodes, set_hts, set_arrays, set_hl. cbn.
  rewrite (grown_nil _ _ G1), (grown_nil _ _ G4), (grown_nil _ _ G7), G8.
  rewrite (grown_nil _ _ (grown_del _ _ tb [] t G2 ltac:(done))), (grown_nil _ _ (grown_del _ _ ln [] arr G3 ltac:(done))),
    (grown_nil _ _ (grown_del _ _ hs [] h G5 ltac:(done))), (grown_nil _ _ (grown_del _ _ ar [] arr G6 ltac:(done))).
  done.
Qed.
End life.

(** ** Creation *)

Lemma hash_init_loop_wp n t i bs (Q : unit -> memory -> Prop) m :
  tables (hl m) !! t = Some bs -> 0 <= i -> i + Z.of_nat n = zlen bs -> (forall j, 0 <= j < i -> znth bs j = Some None) ->
  (forall bs', zlen bs' = zlen bs -> (forall j, 0 <= j < zlen bs -> znth bs' j = Some None) ->
     Q tt (set_hl (HS (hnodes (hl m)) (<[t := bs']> (tables (hl m)))) m)) ->
  wp (hash_init_loop n t i) Q m.
Proof.
  revert i bs m. induction n as [|n IH]; intros i bs m Ht Hi Hn Hb HQ; cbn [hash_init_loop].
  - apply wp_ret. specialize (HQ bs eq_refl). destruct m as [[hn tb] ln en hs ar bl cr]. cbn in *.
    unfold set_hl in HQ. cbn in HQ. rewrite insert_id in HQ by done. apply HQ. intros j Hj. apply Hb. lia.
  - destruct (znth_is_Some bs i ltac:(lia)) as [p Hp]. apply wp_bind, wp_on_hlist. eapply wp_hset_bucket; [done..|].
    eapply (IH (i + 1) (zset bs i None)).
    + cbn. by rewrite lookup_insert_eq.
    + lia.
    + rewrite zlen_zset. lia.
    + intros j Hj. destruct (decide (j = i)) as [->|]; [apply znth_zset_eq; lia|]. rewrite znth_zset_ne by done. apply Hb. lia.
    + intros bs' Hl Hb'. rewrite zlen_zset in Hl, Hb'. specialize (HQ bs' Hl Hb'). cbn. unfold set_hl in *. cbn in *.
      by rewrite insert_insert_eq.
Qed.

Section create.
Context {malloc : memory -> ptr}.
Hypothesis (malloc_unused : forall m p, malloc m = Some p -> unused m p).
Context {user_ht_create : Z -> Z -> M memory ptr}.
Context {m0 : memory} {bits ksz : Z}.
Hypothesis (Hbits : 0 <= bits < 31).

Lemma delete_insert_fresh {A} (m : gmap loc A) k x : m !! k = None -> delete k (<[k := x]> m) = m.
Proof. apply delete_insert_id. Qed.

Lemma ht_create_wp m (Q : ptr -> memory -> Prop) :
  ((exists m1, malloc m1 = None) -> Q None m) ->
  (forall h t bs m', hts m !! h = None -> tables (hl m) !! t = None -> zlen bs = 2 ^ bits ->
     (forall j, 0 <= j < 2 ^ bits -> znth bs j = Some None) ->
     m' = set_hts (<[h := HT t bits]> (hts m)) (set_hl (HS (hnodes (hl m)) (<[t := bs]> (tables (hl m)))) m) -> Q (Some h) m') ->
  wp (ht_create malloc bits) Q m.
Proof.
  intros HN HQ. unfold ht_create. apply wp_bind, wp_gets. destruct (malloc m) as [h|] eqn:Eh; [|apply wp_ret, HN; eauto].
  pose proof (malloc_unused _ _ Eh) as (_ & _ & _ & _ & Uh & _). apply wp_bind, wp_modify, wp_bind, wp_one_shl; [done|].
  apply wp_bind, wp_gets. destruct (malloc (set_hts _ m)) as [t|] eqn:Et.
  - pose proof (malloc_unused _ _ Et) as (_ & Ut & _). cbn in Ut. apply wp_bind, wp_modify, wp_bind.
    unfold hashtable_init. apply wp_bind. eapply wp_get_ht; [cbn; by rewrite lookup_insert_eq|]. cbn [AssocArray.bits table].
    apply wp_bind, wp_one_shl; [done|].
    assert (0 < 2 ^ bits) by (apply Z.pow_pos_nonneg; lia).
    eapply hash_init_loop_wp; [cbn; by rewrite lookup_insert_eq|lia|rewrite zlen_replicate by lia; lia|intros; lia|].
    intros bs Hl Hb. rewrite zlen_replicate in Hl, Hb by lia. apply wp_ret.
    eapply (HQ h t bs); [done|done|done|done|]. unfold set_hts, set_hl. cbn. by rewrite !insert_insert_eq.
  - apply wp_bind, wp_modify, wp_ret. unfold set_hts. cbn. rewrite delete_insert_fresh by done.
    destruct m. apply HN. eauto.
Qed.

Lemma array_create_wp (Q : ptr -> memory -> Prop) :
  custom_ht_create m0 = None ->
  ((exists m1, malloc m1 = None) -> Q None m0) ->
  (forall m arr h t, assoc m0 m arr h t bits ksz [] [] -> Q (Some arr) m) ->
  wp (array_create malloc user_ht_create bits None None) Q m0.
Proof.
  intros Hc HN HQ. unfold array_create. apply wp_bind, wp_gets. destruct (malloc m0) as [arr|] eqn:Ea; [|apply wp_ret, HN; eauto].
  pose proof (malloc_unused _ _ Ea) as (_ & _ & U3 & _ & _ & U6 & _). apply wp_bind, wp_modify.
  unfold call_ht_create. apply wp_bind, wp_bind, wp_gets. cbn [set_arrays set_lnodes custom_ht_create]. rewrite Hc.
  eapply ht_create_wp.
  - intros Hm. apply wp_bind, wp_modify, wp_ret. unfold set_arrays, set_lnodes. cbn. rewrite !delete_insert_fresh by done.
    destruct m0. by apply HN.
  - intros h t bs m' Uh Ut Hl Hb ->. cbn in Uh, Ut. apply wp_bind, wp_on_list.
    apply INIT_LIST_HEAD_wp; [cbn; rewrite lookup_insert_eq; eauto|]. intros l' R [_ F]. cbn in F.
    apply wp_bind. eapply wp_put_array; [cbn; by rewrite lookup_insert_eq|]. apply wp_ret, (HQ _ arr h t).
    unfold set_arrays, set_lnodes, set_hts, set_hl. cbn. rewrite insert_insert_eq.
    constructor; cbn; [|by rewrite lookup_insert_eq|done]. constructor; cbn.
    + done.
    + by rewrite lookup_insert_eq.
    + constructor; cbn; [|intros; apply NoDup_nil_2|intros ????? _ ? ?%not_elem_of_nil; done].
      exists bs. rewrite lookup_insert_eq. split_and!; [done|done|]. intros i Hi. exists None. split; [by apply Hb|]. by exists (Bucket t i).
    + apply NoDup_nil_2.
    + by intros x ?%not_elem_of_nil.
    + by intros d v ?%not_elem_of_nil.
    + apply NoDup_nil_2.
    + apply not_elem_of_nil.
    + apply grown_refl.
    + apply grown_new; [done|]. intros y Hy. by apply lookup_insert_ne.
    + apply grown_new; [done|]. intros y Hy. rewrite F by (by intros E%list_elem_of_singleton). by apply lookup_insert_ne.
    + apply grown_refl.
    + apply grown_new; [done|]. intros y Hy. by apply lookup_insert_ne.
    + apply grown_new; [done|]. intros y Hy. by apply lookup_insert_ne.
    + apply grown_refl.
    + done.
Qed.
End create.
