(* ===== verification/AssocArrayStats.v ===== *)
(** * hashtable-linux-kernel: the collision rate of an array

    [array_collision_percent] counts the entries beyond the first of each
    bucket: as many as there are entries, less the buckets in use. *)

From S2P Require Import Prelude KList KListSpec KHash KHashSpec KHlist KernelList AssocArray AssocArrayInv AssocArrayOps AssocArrayLife.
Import KHash KHlist KernelList AssocArray.

Definition used_buckets (bits : Z) (keys : list (list Z)) : gset Z := list_to_set (bucket_of bits <$> keys).

Definition collisions (bits : Z) (keys : list (list Z)) : Z := zlen keys - Z.of_nat (base.size (used_buckets bits keys)).

Definition percent (bits : Z) (keys : list (list Z)) : Z :=
  if decide (keys = []) then 0 else collisions bits keys * 100 / zlen keys.

Lemma zlen_keys (L : list item) : zlen (it_key <$> L) = zlen L.
Proof. unfold zlen. by rewrite length_fmap. Qed.

(** ** The sum over the buckets *)

Definition excess (bits : Z) (L : list item) (i : Z) : Z := Z.max 0 (zlen (chain_of bits L i) - 1).

Fixpoint excess_sum (bits : Z) (L : list item) (n : nat) (i : Z) : Z :=
  match n with O => 0 | S n => excess bits L i + excess_sum bits L n (i + 1) end.

Lemma excess_snoc bits L x i : excess bits (L ++ [x]) i =
  excess bits L i + if decide (bucket_of bits (it_key x) = i /\ chain_of bits L i <> []) then 1 else 0.
Proof.
  unfold excess. rewrite chain_snoc. destruct (decide (in_bucket bits i x)) as [E|E]; unfold in_bucket in E.
  - destruct (chain_of bits L i) as [|e c] eqn:Ec.
    + rewrite decide_False by tauto. unfold zlen. cbn. lia.
    + rewrite decide_True by done. unfold zlen. cbn. lia.
  - rewrite decide_False by tauto. lia.
Qed.

Lemma excess_sum_snoc bits L x n i : excess_sum bits (L ++ [x]) n i =
  excess_sum bits L n i +
  if decide (i <= bucket_of bits (it_key x) < i + Z.of_nat n /\ chain_of bits L (bucket_of bits (it_key x)) <> []) then 1 else 0.
Proof.
  revert i. induction n as [|n IH]; intros i; cbn [excess_sum]; [rewrite decide_False by lia; done|].
  rewrite excess_snoc, IH. destruct (decide (bucket_of bits (it_key x) = i)) as [<-|Hne].
  - rewrite (decide_False (P := _ + 1 <= _ < _ /\ _)) by lia.
    destruct (decide (chain_of bits L (bucket_of bits (it_key x)) = [])).
    + rewrite !decide_False by tauto. lia.
    + rewrite !decide_True by (split; [lia|done]). lia.
  - rewrite (decide_False (P := _ = i /\ _)) by tauto.
    destruct (decide (i <= bucket_of bits (it_key x) < i + Z.of_nat (S n) /\ chain_of bits L (bucket_of bits (it_key x)) <> [])).
    + rewrite decide_True by (split; [lia|tauto]). lia.
    + rewrite decide_False; [lia|]. intros [? ?]. destruct n0 as []. split; [lia|done].
Qed.

Lemma excess_sum_nil bits n i : excess_sum bits [] n i = 0.
Proof. revert i. induction n as [|n IH]; intros i; [done|]. cbn [excess_sum]. by rewrite IH. Qed.

Lemma used_snoc bits keys k : used_buckets bits (keys ++ [k]) = used_buckets bits keys ∪ {[bucket_of bits k]}.
Proof. unfold used_buckets. rewrite fmap_app, list_to_set_app_L. cbn. set_solver +. Qed.

Lemma chain_used bits L k : chain_of bits L (bucket_of bits k) <> [] <-> bucket_of bits k ∈ used_buckets bits (it_key <$> L).
Proof.
  unfold used_buckets. rewrite elem_of_list_to_set, list_elem_of_fmap. setoid_rewrite list_elem_of_fmap. split.
  - intros H. destruct (chain_of bits L (bucket_of bits k)) as [|e c] eqn:E; [done|].
    assert (e ∈ chain_of bits L (bucket_of bits k)) as (x & Hx & _ & Hb)%elem_of_chain by (rewrite E; set_solver +).
    exists (it_key x). split; [done|]. by exists x.
  - intros (k' & Hk & x & -> & Hx) E. assert (it_e x ∈ chain_of bits L (bucket_of bits k)) as Hc
      by (apply elem_of_chain; by exists x). rewrite E in Hc. by apply not_elem_of_nil in Hc.
Qed.

Lemma excess_sum_collisions bits L : 0 <= bits < 31 ->
  excess_sum bits L (Z.to_nat (2 ^ bits)) 0 = collisions bits (it_key <$> L).
Proof.
  intros Hb. unfold collisions. induction L as [|x L IH] using rev_ind.
  - rewrite excess_sum_nil. unfold used_buckets. cbn. by rewrite size_empty.
  - rewrite excess_sum_snoc, IH, fmap_app. cbn [fmap list_fmap]. rewrite zlen_snoc, used_snoc.
    pose proof (bucket_range bits (it_key x) Hb) as Hr.
    destruct (decide (bucket_of bits (it_key x) ∈ used_buckets bits (it_key <$> L))) as [Hu|Hu].
    + rewrite decide_True by (split; [lia|by apply chain_used]).
      replace (used_buckets bits (it_key <$> L) ∪ {[bucket_of bits (it_key x)]}) with (used_buckets bits (it_key <$> L)) by set_solver +Hu.
      lia.
    + rewrite decide_False by (rewrite chain_used; tauto). rewrite size_union, size_singleton by set_solver +Hu. lia.
Qed.

Lemma collisions_range bits keys : 0 <= collisions bits keys <= zlen keys.
Proof.
  unfold collisions. split; [|lia]. induction keys as [|k keys IH] using rev_ind; [done|]. rewrite zlen_snoc, used_snoc.
  pose proof (size_union_alt (used_buckets bits keys) {[bucket_of bits k]}) as E.
  pose proof (subseteq_size ({[bucket_of bits k]} ∖ used_buckets bits keys) {[bucket_of bits k]} ltac:(set_solver +)) as H.
  rewrite size_singleton in H. lia.
Qed.

(** ** The loops *)

Lemma chain_length_wp m s cur c s' fuel count (Q : Z -> memory -> Prop) :
  hseg (hnodes (hl m)) s cur c s' None -> (length c < fuel)%nat -> 0 <= count -> count + zlen c < 2 ^ 64 ->
  Q (count + zlen c) m -> wp (chain_length fuel cur count) Q m.
Proof.
  revert s cur fuel count. induction c as [|x c IH]; intros s cur fuel count H Hf Hc Hl HQ;
    (destruct fuel as [|fuel]; [cbn in Hf; lia|]); cbn [chain_length].
  - destruct H as [_ <-]. apply wp_ret. by rewrite Z.add_0_r in HQ.
  - destruct H as (-> & nx & H1 & H2). apply wp_bind, wp_on_hlist. eapply wp_hget; [done|].
    replace (set_hl (hl m) m) with m by by destruct m. unfold zlen in *. cbn [length] in *.
    rewrite wrap_small by lia. eapply IH; [exact H2|lia|lia|unfold zlen; lia|].
    unfold zlen. by replace (count + 1 + Z.of_nat (length c)) with (count + Z.of_nat (S (length c))) by lia.
Qed.

Lemma excess_sum_nonneg bits L n i : 0 <= excess_sum bits L n i.
Proof. revert i. induction n as [|n IH]; intros i; cbn [excess_sum]; [lia|]. specialize (IH (i + 1)). unfold excess. lia. Qed.

Section stats.
Context {m0 : memory} {arr h t : loc} {bits ksz : Z}.

Lemma collision_loop_wp m L P n i acc fuel (Q : Z -> memory -> Prop) :
  owned m0 m arr h t bits ksz L P -> 0 <= i -> i + Z.of_nat n = 2 ^ bits -> (length L < fuel)%nat -> zlen L < 2 ^ 64 ->
  0 <= acc -> acc + excess_sum bits L n i < 2 ^ 64 -> Q (acc + excess_sum bits L n i) m ->
  wp (collision_loop n fuel t i acc) Q m.
Proof.
  intros O. revert i acc. induction n as [|n IH]; intros i acc Hi Hn Hf Hl Hacc Hs HQ; cbn [collision_loop excess_sum] in *.
  - apply wp_ret. by rewrite Z.add_0_r in HQ.
  - destruct (hashed_bucket (ow_hash _ _ _ _ _ _ _ _ _ O) i ltac:(lia)) as (bs & first & Ht & _ & Hb & sl & C).
    apply wp_bind, wp_on_hlist. eapply wp_hget_bucket; [exact Ht|exact Hb|].
    replace (set_hl (hl m) m) with m by by destruct m.
    assert (length (chain_of bits L i) <= length L)%nat as Hc.
    { unfold chain_of. rewrite length_fmap. etrans; [apply length_filter|]. by rewrite length_reverse. }
    pose proof (excess_sum_nonneg bits L n (i + 1)). unfold excess in *.
    apply wp_bind. eapply chain_length_wp; [exact C|lia|lia|unfold zlen in *; lia|]. rewrite Z.add_0_l.
    set (c := zlen (chain_of bits L i)) in *.
    assert ((if 1 <? c then u64 (acc + (c - 1)) else acc) = acc + Z.max 0 (c - 1)) as ->.
    { destruct (Z.ltb_spec 1 c); [rewrite wrap_small by lia|]; lia. }
    apply IH; [lia|lia|done|done|lia|lia|]. by rewrite <- Z.add_assoc.
Qed.

Lemma array_collision_percent_wp m L P fuel (Q : Z -> memory -> Prop) :
  assoc m0 m arr h t bits ksz L P -> (length L < fuel)%nat -> 100 * zlen L < 2 ^ 64 ->
  Q (percent bits (it_key <$> L)) m -> wp (array_collision_percent fuel (Some arr)) Q m.
Proof.
  intros [O Ha _] Hf Hl HQ. pose proof (ow_bits _ _ _ _ _ _ _ _ _ O) as Hb. pose proof (zlen_nonneg L).
  pose proof (collisions_range bits (it_key <$> L)) as Hr. rewrite zlen_keys in Hr.
  unfold array_collision_percent. apply wp_bind. eapply wp_get_array; [exact Ha|]. cbn [size AssocArray.ht].
  unfold percent in HQ. destruct L as [|x L]; [by apply wp_ret|]. rewrite decide_False, zlen_keys in HQ by done.
  assert (0 < zlen (x :: L)) by (unfold zlen; cbn; lia).
  destruct (Z.eqb_spec (zlen (x :: L)) 0); [lia|]. apply wp_bind. eapply wp_get_ht; [apply (ow_ht _ _ _ _ _ _ _ _ _ O)|].
  cbn [table AssocArray.bits]. apply wp_bind, wp_one_shl; [done|].
  apply wp_bind. eapply collision_loop_wp; [exact O|lia| |exact Hf|lia|lia|..].
  { rewrite Z2Nat.id by (apply Z.pow_nonneg; lia). lia. }
  { rewrite excess_sum_collisions by done. lia. }
  rewrite excess_sum_collisions by done.
  apply wp_ret. rewrite wrap_small by lia. rewrite Z.add_0_l. rewrite swrap_small; [done|lia|].
  split; [apply Z.le_trans with 0; [done|apply Z.div_pos; lia]|].
  apply Z.lt_le_trans with 101; [|done]. apply Z.div_lt_upper_bound; lia.
Qed.
End stats.
