(* ===== verification/AssocArraySpec.v ===== *)
(** * hashtable-linux-kernel: what the associative array promises

    The array is a sequence of pairs of a key and a value in the order of their
    addition, where a key may stand more than once: a lookup and a deletion
    take the latest pair of the key.  A client creates an array, runs commands
    and frees it; its answers are those of the sequence, and the memory is what
    it was before. *)

From S2P Require Import Prelude KList KListSpec KHash KHashSpec KHlist KernelList AssocArray AssocArrayInv AssocArrayOps AssocArrayLife AssocArrayStats.
Import KHash KHlist KernelList AssocArray.

Abbreviation pair := (list Z * list Z)%type.

Inductive acommand :=
  | AddPair (k v : list Z)
  | ReplacePair (k v : list Z)
  | DelKey (k : list Z)
  | GetKey (k : list Z)
  | GetEnd (is_first : bool)
  | DelEnd (is_first : bool)
  | Collisions.

Inductive answer := Code (z : Z) | Found (kv : option pair).

(** ** The sequence *)

Fixpoint del_last (k : list Z) (l : list pair) : option (list pair) :=
  match l with
  | [] => None
  | x :: l =>
      match del_last k l with
      | Some l' => Some (x :: l')
      | None => if bool_decide (x.1 = k) then Some l else None
      end
  end.

Definition get_last (k : list Z) (l : list pair) : option pair := List.find (fun x => bool_decide (x.1 = k)) (reverse l).

Definition without (k : list Z) (l : list pair) : list pair := default l (del_last k l).

(** [oom]: whether the allocator can fail; the table has [2 ^ bits] buckets. *)
Inductive astep (oom : Prop) (bits : Z) : acommand -> list pair -> answer -> list pair -> Prop :=
  | add_done k v l : astep oom bits (AddPair k v) l (Code 0) (l ++ [(k, v)])
  | add_failed k v l : oom -> astep oom bits (AddPair k v) l (Code (-1)) l
  | replace_done k v l : astep oom bits (ReplacePair k v) l (Code 0) (without k l ++ [(k, v)])
  | replace_no_data k v l : oom -> astep oom bits (ReplacePair k v) l (Code (-1)) l
  | replace_no_entry k v l : oom -> astep oom bits (ReplacePair k v) l (Code (-1)) (without k l)
  | del_done k l : astep oom bits (DelKey k) l (Code (if del_last k l is Some _ then 0 else 1)) (without k l)
  | get_done k l : astep oom bits (GetKey k) l (Found (get_last k l)) l
  | end_done (is_first : bool) l : astep oom bits (GetEnd is_first) l (Found (if is_first then head l else last l)) l
  | del_end_none is_first : astep oom bits (DelEnd is_first) [] (Code (-1)) []
  | del_first_done x l : astep oom bits (DelEnd true) (x :: l) (Code 0) l
  | del_last_done x l : astep oom bits (DelEnd false) (l ++ [x]) (Code 0) l
  | collisions_done l : astep oom bits Collisions l (Code (percent bits l.*1)) l.

Inductive asteps (oom : Prop) (bits : Z) : list acommand -> list pair -> list answer -> list pair -> Prop :=
  | asteps_nil l : asteps oom bits [] l [] l
  | asteps_cons c cs l1 a l2 rs l3 :
      astep oom bits c l1 a l2 -> asteps oom bits cs l2 rs l3 -> asteps oom bits (c :: cs) l1 (a :: rs) l3.

Definition keys_of (c : acommand) : list (list Z) :=
  match c with AddPair k _ | ReplacePair k _ | DelKey k | GetKey k => [k] | _ => [] end.

(** ** The client *)

Section client.
Context (malloc : memory -> ptr) (user_ht_create : Z -> Z -> M memory ptr).
Context (user_free : Z -> loc -> M memory unit) (user_fill : Z -> loc -> ptr -> list Z -> Z -> M memory Z).

(** A call that takes a new block with the value; it is the caller's again when the call fails. *)
Definition with_data (v : list Z) (call : ptr -> M memory Z) : M memory answer :=
  p ← gets malloc;
  match p with
  | None => mret (Code (-1))
  | Some d =>
      modify (fun m => set_blocks (<[d := v]> (blocks m)) m);;
      r ← call (Some d);
      (if r =? 0 then mret tt else free_block (Some d));;
      mret (Code r)
  end.

(** The key and the value of an entry. *)
Definition read_entry (e : ptr) : M memory answer :=
  match e with
  | None => mret (Found None)
  | Some e => x ← get_entry e; k ← get_block (key x); v ← get_block (data x); mret (Found (Some (k, v)))
  end.

Definition exec (fuel : nat) (arr : loc) (c : acommand) : M memory answer :=
  match c with
  | AddPair k v => with_data v (fun d => array_add malloc user_fill fuel (Some arr) d k (zlen k))
  | ReplacePair k v => with_data v (fun d => array_add_replace malloc user_free user_fill fuel (Some arr) d k (zlen k))
  | DelKey k => r ← array_del user_free fuel (Some arr) k (zlen k); mret (Code r)
  | GetKey k => e ← array_get_by_key fuel (Some arr) k (zlen k); read_entry e
  | GetEnd b => e ← (if b then array_get_first (Some arr) else array_get_last (Some arr)); read_entry e
  | DelEnd b => r ← (if b then array_del_first user_free (Some arr) else array_del_last user_free (Some arr)); mret (Code r)
  | Collisions => r ← array_collision_percent fuel (Some arr); mret (Code r)
  end.

Fixpoint exec_all (fuel : nat) (arr : loc) (cs : list acommand) : M memory (list answer) :=
  match cs with
  | [] => mret []
  | c :: cs => a ← exec fuel arr c; rs ← exec_all fuel arr cs; mret (a :: rs)
  end.

Definition client (fuel : nat) (bits : Z) (cs : list acommand) : M memory (option (list answer)) :=
  p ← array_create malloc user_ht_create bits None None;
  match p with
  | None => mret None
  | Some arr => rs ← exec_all fuel arr cs; array_free user_free fuel (Some arr);; mret (Some rs)
  end.
End client.

(** ** The pairs of the entries *)

Definition pair_of (x : item) : pair := (it_key x, it_val x).

Lemma del_last_none k l : (forall x, x ∈ l -> x.1 <> k) -> del_last k l = None.
Proof.
  induction l as [|x l IH]; [done|]. intros H. cbn. rewrite IH by (intros y Hy; apply H; set_solver +Hy).
  rewrite bool_decide_false; [done|]. apply H. set_solver +.
Qed.

Lemma del_last_mid x l1 l2 : (forall y, y ∈ l2 -> y.1 <> x.1) -> del_last x.1 (l1 ++ x :: l2) = Some (l1 ++ l2).
Proof.
  intros H. induction l1 as [|y l1 IH]; cbn; [|by rewrite IH].
  rewrite del_last_none by done. by rewrite bool_decide_true.
Qed.

Lemma find_map {A B} (f : A -> B) p l : List.find p (f <$> l) = f <$> List.find (fun x => p (f x)) l.
Proof. induction l as [|x l IH]; [done|]. cbn. by destruct (p (f x)). Qed.

Lemma get_last_pairs k L : get_last k (pair_of <$> L) = pair_of <$> find_last L k.
Proof. unfold get_last, find_last. by rewrite <- fmap_reverse, find_map. Qed.

Lemma find_last_none L k : find_last L k = None -> del_last k (pair_of <$> L) = None.
Proof.
  intros H. apply del_last_none. intros y (x & -> & Hx)%list_elem_of_fmap. cbn. intros E.
  apply List.find_none with (x := x) in H; [|apply list_elem_of_In; by rewrite elem_of_reverse].
  by apply bool_decide_eq_false in H.
Qed.

(** The entry a lookup finds is the pair a deletion takes. *)
Lemma find_last_some L k x : find_last L k = Some x ->
  exists L1 L2, L = L1 ++ x :: L2 /\ del_last k (pair_of <$> L) = Some (pair_of <$> L1 ++ L2).
Proof.
  intros (L1 & L2 & -> & <- & H)%find_last_split. exists L1, L2. split; [done|].
  rewrite !fmap_app, fmap_cons. apply (del_last_mid (pair_of x)). intros y (z & -> & Hz)%list_elem_of_fmap. by apply H.
Qed.

(** ** The operations *)

Section operations.
Context {malloc : memory -> ptr}.
Hypothesis (malloc_unused : forall m p, malloc m = Some p -> unused m p).
Context {user_free : Z -> loc -> M memory unit} {user_fill : Z -> loc -> ptr -> list Z -> Z -> M memory Z}.
Context {m0 : memory} {arr h t : loc} {bits ksz : Z}.
Hypothesis (Hksz : ksz < 256).

Abbreviation oom := (exists m, malloc m = None).

(** The client's block is taken and given back. *)
Lemma assoc_pend m L d v : assoc m0 m arr h t bits ksz L [] -> unused m d ->
  assoc m0 (set_blocks (<[d := v]> (blocks m)) m) arr h t bits ksz L [(d, v)].
Proof.
  intros [O Ha R] (_ & _ & _ & _ & _ & _ & Ud). constructor; [|done|done].
  pose proof (ow_blocks _ _ _ _ _ _ _ _ _ O) as N. cbn in N. rewrite app_nil_r in N.
  assert (forall x, x ∈ L -> it_kb x <> d /\ it_d x <> d) as Hne.
  { intros x Hx. destruct (ow_item _ _ _ _ _ _ _ _ _ O x Hx) as (_ & B1 & B2 & _). split; intros E; subst d; congruence. }
  assert (d ∉ own_blocks L) as Hd.
  { intros Hd. unfold own_blocks in Hd. apply list_elem_of_In, in_concat in Hd as (l & Hl1 & Hl2).
    apply list_elem_of_In, list_elem_of_fmap in Hl1 as (y & -> & Hy). apply list_elem_of_In in Hl2.
    destruct (Hne y Hy). set_solver. }
  assert (own_blocks L ++ [d] ≡ₚ d :: own_blocks L ++ []) as Eb by solve_Permutation.
  destruct O as [o1 o2 o3 o4 o5 o6 o7 o8 g1 g2 g3 g4 g5 g6 g7 g8]. constructor; cbn; try done.
  - intros x Hx. destruct (o5 x Hx) as (A & B & C & D), (Hne x Hx).
    split_and!; cbn; [done|rewrite lookup_insert_ne by congruence..|done]; done.
  - intros d' v' [= -> ->]%list_elem_of_singleton. apply lookup_insert_eq.
  - rewrite Eb, app_nil_r. by apply NoDup_cons.
  - eapply grown_perm; [symmetry; exact Eb|]. eapply grown_add; [exact g7|done|].
    intros y Hy. apply lookup_insert_ne. set_solver +Hy.
Qed.

Lemma assoc_unpend m L d v : assoc m0 m arr h t bits ksz L [(d, v)] ->
  assoc m0 (set_blocks (delete d (blocks m)) m) arr h t bits ksz L [].
Proof.
  intros [O Ha R]. constructor; [|done|done].
  assert (own_blocks L ++ [d] ≡ₚ d :: own_blocks L ++ []) as Eb by solve_Permutation.
  pose proof (fun x => owned_item_blocks L _ x O) as Hb.
  destruct O as [o1 o2 o3 o4 o5 o6 o7 o8 g1 g2 g3 g4 g5 g6 g7 g8]. cbn in o7, g7. rewrite Eb in o7.
  apply NoDup_cons in o7 as [N1 N2]. rewrite app_nil_r in N1. constructor; cbn; try done.
  - intros x Hx. destruct (o5 x Hx) as (A & B & C & D), (Hb x Hx).
    split_and!; cbn; [done|rewrite lookup_delete_ne by (intros E; rewrite E in N1; done)..|done]; done.
  - by intros d' v' ?%not_elem_of_nil.
  - eapply grown_del; [eapply grown_perm; [exact Eb|exact g7]|done].
Qed.

Lemma array_del_wp m L P k fuel (Q : Z -> memory -> Prop) :
  assoc m0 m arr h t bits ksz L P -> zlen k = ksz -> (length L < fuel)%nat -> (Z.to_nat ksz < fuel)%nat -> zlen L < 2 ^ 64 ->
  (forall m' L', assoc m0 m' arr h t bits ksz L' P -> (length L' <= length L)%nat ->
     pair_of <$> L' = without k (pair_of <$> L) -> Q (if del_last k (pair_of <$> L) is Some _ then 0 else 1) m') ->
  wp (array_del user_free fuel (Some arr) k ksz) Q m.
Proof.
  intros A Hk Hf Hf2 Hsz HQ. unfold array_del. rewrite (key_size_u8 Hksz k Hk).
  apply wp_bind. eapply array_get_by_key_wp; [done|exact A|done..|].
  destruct (find_last L k) as [x|] eqn:E; cbn [fmap option_fmap option_map].
  - apply find_last_some in E as (L1 & L2 & -> & E). apply wp_bind. eapply take_out_wp; [exact A|done|].
    intros m' A'. apply wp_ret. specialize (HQ m' _ A'). unfold without in HQ. rewrite E in HQ. apply HQ; [|done].
    rewrite !length_app. cbn. lia.
  - apply wp_ret. apply find_last_none in E. specialize (HQ m L A). unfold without in HQ. rewrite E in HQ. by apply HQ.
Qed.

Lemma pairs_snoc L x k v : it_key x = k -> it_val x = v -> pair_of <$> L ++ [x] = (pair_of <$> L) ++ [(k, v)].
Proof. intros <- <-. by rewrite fmap_app. Qed.

(** A call with the client's block. *)
Lemma with_data_wp m L v call (Q : answer -> memory -> Prop) :
  assoc m0 m arr h t bits ksz L [] -> (oom -> Q (Code (-1)) m) ->
  (forall m' d, assoc m0 m' arr h t bits ksz L [(d, v)] ->
     wp (call (Some d)) (fun r m2 => (r = 0 /\ Q (Code 0) m2) \/
       (r = -1 /\ exists L2, assoc m0 m2 arr h t bits ksz L2 [(d, v)] /\
          forall m3, assoc m0 m3 arr h t bits ksz L2 [] -> Q (Code (-1)) m3)) m') ->
  wp (with_data malloc v call) Q m.
Proof.
  intros A HN Hc. unfold with_data. apply wp_bind, wp_gets. destruct (malloc m) as [d|] eqn:E; [|apply wp_ret, HN; eauto].
  apply wp_bind, wp_modify, wp_bind. eapply wp_mono; [apply Hc, assoc_pend; [exact A|by apply malloc_unused]|].
  intros r m2 [[-> HQ]|(-> & L2 & A2 & HQ)]; cbn [Z.eqb Pos.eqb]; apply wp_bind.
  - by apply wp_ret, wp_ret.
  - eapply wp_free_block; [apply (ow_pend _ _ _ _ _ _ _ _ _ (as_owned _ _ _ _ _ _ _ _ _ A2)); by apply list_elem_of_singleton|].
    apply wp_ret, HQ. by eapply assoc_unpend.
Qed.

Lemma read_entry_wp m L o (Q : answer -> memory -> Prop) :
  assoc m0 m arr h t bits ksz L [] -> (forall x, o = Some x -> x ∈ L) -> Q (Found (pair_of <$> o)) m ->
  wp (read_entry (it_e <$> o)) Q m.
Proof.
  intros [O _ _] Hx HQ. destruct o as [x|]; [|by apply wp_ret]. cbn.
  destruct (ow_item _ _ _ _ _ _ _ _ _ O x (Hx x eq_refl)) as (A & B & C & _).
  apply wp_bind. eapply wp_get_entry; [exact A|]. apply wp_bind. eapply wp_get_block; [exact B|].
  apply wp_bind. eapply wp_get_block; [exact C|]. by apply wp_ret.
Qed.

Lemma find_last_in L k x : find_last L k = Some x -> x ∈ L.
Proof. intros (L1 & L2 & -> & _)%find_last_split. set_solver +. Qed.

Lemma end_item_in b L x : end_item b L = Some x -> x ∈ L.
Proof.
  destruct b; cbn [end_item]; [destruct L; [done|intros [= ->]; set_solver +]|].
  intros (L' & ->)%last_Some. set_solver +.
Qed.

Lemma end_item_pairs b L : (if b : bool then head (pair_of <$> L) else last (pair_of <$> L)) = pair_of <$> end_item b L.
Proof. destruct b; [by destruct L|]. apply fmap_last. Qed.

(** One command does one step. *)
Lemma exec_wp m L c fuel (Q : answer -> memory -> Prop) :
  assoc m0 m arr h t bits ksz L [] -> (forall k, k ∈ keys_of c -> zlen k = ksz) ->
  (length L < fuel)%nat -> (Z.to_nat ksz < fuel)%nat -> 100 * (zlen L + 1) < 2 ^ 64 ->
  (forall m' L' a, assoc m0 m' arr h t bits ksz L' [] -> astep oom bits c (pair_of <$> L) a (pair_of <$> L') ->
     (length L' <= S (length L))%nat -> Q a m') ->
  wp (exec malloc user_free user_fill fuel arr c) Q m.
Proof.
  intros A Hk Hf Hf2 Hsz HQ. pose proof (zlen_nonneg L). destruct c as [k v|k v|k|k|b|b|]; cbn [exec keys_of] in *;
    try (assert (zlen k = ksz) as -> by (apply Hk; set_solver +)).
  - eapply with_data_wp; [exact A|intros; eapply HQ; [exact A|by apply add_failed|lia]|]. intros m' d A'.
    eapply array_add_wp; [done|done|exact A'|apply Hk; set_solver +|done|lia| |].
    + intros m2 x Hx Hv A2. left. split; [done|]. eapply HQ; [exact A2| |rewrite length_app; cbn; lia].
      rewrite (pairs_snoc _ _ k v) by done. apply add_done.
    + intros Hm. right. split; [done|]. exists L. split; [done|]. intros m3 A3. eapply HQ; [exact A3|by apply add_failed|lia].
  - eapply with_data_wp; [exact A|intros; eapply HQ; [exact A|by apply replace_no_data|lia]|]. intros m' d A'.
    unfold array_add_replace. rewrite (key_size_u8 Hksz k) by (apply Hk; set_solver +).
    apply wp_bind. eapply array_del_wp; [exact A'|apply Hk; set_solver +|done|done|lia|].
    intros m2 L2 A2 Hl E. assert (zlen L2 <= zlen L) by (unfold zlen; lia).
    eapply array_add_wp; [done|done|exact A2|apply Hk; set_solver +|done|lia| |].
    + intros m3 x Hx Hv A3. left. split; [done|]. eapply HQ; [exact A3| |rewrite length_app; cbn; lia].
      rewrite (pairs_snoc _ _ k v), E by done. apply replace_done.
    + intros Hm. right. split; [done|]. exists L2. split; [done|]. intros m3 A3. eapply HQ; [exact A3| |lia].
      rewrite E. by apply replace_no_entry.
  - apply wp_bind. eapply array_del_wp; [exact A|apply Hk; set_solver +|done|done|lia|]. intros m2 L2 A2 Hl E.
    apply wp_ret. eapply HQ; [exact A2| |lia]. rewrite E. apply del_done.
  - apply wp_bind. eapply array_get_by_key_wp; [done|exact A|apply Hk; set_solver +|done|done|].
    eapply read_entry_wp; [exact A|apply find_last_in|]. rewrite <- get_last_pairs. eapply HQ; [exact A|apply get_done|lia].
  - assert (forall Q : ptr -> memory -> Prop, Q (it_e <$> end_item b L) m ->
      wp (if b then array_get_first (Some arr) else array_get_last (Some arr)) Q m) as Hw
      by (destruct b; intros; by eapply array_get_first_wp).
    apply wp_bind, Hw. eapply read_entry_wp; [exact A|apply end_item_in|].
    rewrite <- end_item_pairs. eapply HQ; [exact A|apply end_done|lia].
  - assert (forall Q : Z -> memory -> Prop, wp (_array_del_first user_free (Some arr) b) Q m ->
      wp (if b then array_del_first user_free (Some arr) else array_del_last user_free (Some arr)) Q m) as Hw by by destruct b.
    apply wp_bind, Hw. eapply array_del_first_wp; [exact A|lia| |].
    + intros ->. apply wp_ret. eapply HQ; [exact A|apply del_end_none|cbn; lia].
    + intros m' L1 x L2 -> He A'. apply wp_ret. eapply HQ; [exact A'| |rewrite !length_app; cbn; lia].
      destruct b; subst; [apply del_first_done|]. rewrite app_nil_r, fmap_app. apply (del_last_done _ _ (pair_of x)).
  - apply wp_bind. eapply array_collision_percent_wp; [exact A|done|lia|]. apply wp_ret. eapply HQ; [exact A| |lia].
    replace (it_key <$> L) with ((pair_of <$> L).*1) by (by rewrite <- list_fmap_compose). apply collisions_done.
Qed.

Lemma exec_all_wp m L cs fuel (Q : list answer -> memory -> Prop) :
  assoc m0 m arr h t bits ksz L [] -> (forall c k, c ∈ cs -> k ∈ keys_of c -> zlen k = ksz) ->
  (length L + length cs < fuel)%nat -> (Z.to_nat ksz < fuel)%nat -> 100 * (zlen L + zlen cs) < 2 ^ 64 ->
  (forall m' L' rs, assoc m0 m' arr h t bits ksz L' [] -> asteps oom bits cs (pair_of <$> L) rs (pair_of <$> L') ->
     (length L' <= length L + length cs)%nat -> Q rs m') ->
  wp (exec_all malloc user_free user_fill fuel arr cs) Q m.
Proof.
  revert m L Q. induction cs as [|c cs IH]; intros m L Q A Hk Hf Hf2 Hsz HQ; cbn [exec_all].
  - apply wp_ret. eapply HQ; [exact A|apply asteps_nil|lia].
  - unfold zlen in Hsz. cbn in Hf, Hsz. apply wp_bind. eapply exec_wp; [exact A| |lia|done|unfold zlen; lia|].
    { intros k Hkc. apply (Hk c); [set_solver +|done]. }
    intros m' L' a A' Hs Hl. apply wp_bind. eapply IH; [exact A'| |lia|lia|unfold zlen; lia|].
    { intros c' k Hc'. apply Hk. set_solver +Hc'. }
    intros m2 L2 rs A2 Hss Hl2. apply wp_ret. eapply HQ; [exact A2| |cbn; lia]. by eapply asteps_cons.
Qed.
End operations.

(** C14: The associative array is the sequence of its pairs. For a table of at most
    [2^30] buckets and keys all of one length below 256 (a [key_size] is a
    [uint8_t]), a client that creates an array, runs any commands and frees it
    always finishes; its answers are those of the sequence of pairs, with [-1] for
    an addition only where the allocator can fail; and every block, entry, table
    and array that was allocated on the way is released, whatever failed.  Keys of
    two lengths, or of 256 bytes, are confused ([array_keys_of_two_lengths],
    [array_long_keys]). *)
Theorem assoc_array_refines_sequence malloc user_ht_create user_free user_fill (m0 : memory) bits ksz cs fuel :
  (forall m p, malloc m = Some p -> unused m p) -> custom_ht_create m0 = None ->
  0 <= bits < 31 -> ksz < 256 -> (forall c k, c ∈ cs -> k ∈ keys_of c -> zlen k = ksz) ->
  (length cs < fuel)%nat -> (Z.to_nat ksz < fuel)%nat -> 100 * zlen cs < 2 ^ 64 ->
  exists r, client malloc user_ht_create user_free user_fill fuel bits cs m0 = Some (r, m0) /\
    match r with
    | None => exists m, malloc m = None
    | Some rs => exists l, asteps (exists m, malloc m = None) bits cs [] rs l
    end.
Proof.
  intros Hm Hc Hb Hksz Hk Hf Hf2 Hsz.
  set (Q := fun (r : option (list answer)) m => m = m0 /\ match r with
    | None => exists m, malloc m = None | Some rs => exists l, asteps (exists m, malloc m = None) bits cs [] rs l end).
  enough (wp (client malloc user_ht_create user_free user_fill fuel bits cs) Q m0) as (r & m & E & -> & H)%wp_run by eauto.
  apply wp_bind. eapply array_create_wp with (ksz := ksz); [exact Hm|exact Hb|exact Hc|intros; by apply wp_ret|].
  intros m arr h t A. apply wp_bind. eapply exec_all_wp; [exact Hm|exact Hksz|exact A|exact Hk|cbn; lia|done|by cbn|].
  intros m' L' rs A' Hs Hl. cbn in Hl. apply wp_bind. eapply array_free_wp; [exact A'|lia|]. apply wp_ret. split; [done|].
  by exists (pair_of <$> L').
Qed.

(** An allocator with twelve blocks. *)
#[export] Instance unused_dec m p : Decision (unused m p).
Proof. unfold unused. tc_solve. Defined.

Definition twelve_blocks (m : memory) : ptr := List.find (fun p => bool_decide (unused m p)) (seqZ 1 12).

Lemma twelve_blocks_unused m p : twelve_blocks m = Some p -> unused m p.
Proof. intros H. apply List.find_some in H as [_ H]. by apply bool_decide_eq_true in H. Qed.

Definition empty_memory : memory := Mem (HS ∅ ∅) ∅ ∅ ∅ ∅ ∅ None.
Definition no_create (f b : Z) : M memory ptr := mret None.
Definition no_free (f : Z) (e : loc) : M memory unit := mret tt.
Definition no_fill (f : Z) (e : loc) (d : ptr) (k : list Z) (n : Z) : M memory Z := mret 1.

(** Keys of one bucket collide; the fifth pair does not fit into the twelve blocks. *)
Lemma assoc_array_refines_sequence_witness :
  let cs := [AddPair [1; 2] [10]; AddPair [3; 4] [30]; ReplacePair [1; 2] [11]; AddPair [3; 4] [31]; GetKey [3; 4]; GetEnd true;
             Collisions; AddPair [7; 7] [70]; DelKey [3; 4]; GetKey [3; 4]; DelEnd true; GetEnd false; DelKey [9; 9]] in
  let r := Some [Code 0; Code 0; Code 0; Code 0; Found (Some ([3; 4], [31])); Found (Some ([3; 4], [30]));
                 Code 66; Code (-1); Code 0; Found (Some ([3; 4], [30])); Code 0; Found (Some ([1; 2], [11])); Code 1] in
  client twelve_blocks no_create no_free no_fill 20 1 cs empty_memory = Some (r, empty_memory) /\
  exists r, client twelve_blocks no_create no_free no_fill 20 1 cs empty_memory = Some (r, empty_memory) /\
    match r with
    | None => exists m, twelve_blocks m = None
    | Some rs => exists l, asteps (exists m, twelve_blocks m = None) 1 cs [] rs l
    end.
Proof.
  intros cs r. split; [vm_compute; reflexivity|].
  apply (assoc_array_refines_sequence twelve_blocks no_create no_free no_fill empty_memory 1 2 cs 20 twelve_blocks_unused).
  - reflexivity.
  - lia.
  - lia.
  - intros c k Hc Hk. apply list_elem_of_In in Hc, Hk. repeat destruct Hc as [<-|Hc]; try destruct Hk as [<-|[]]; done.
  - vm_compute. lia.
  - vm_compute. lia.
  - vm_compute. reflexivity.
Defined.

(** [memcmp] compares as many bytes as the searched key has: a shorter key finds
    an entry it is only the beginning of, and a longer one reads past the end of
    a shorter key of its bucket. *)
Lemma array_keys_of_two_lengths :
  client twelve_blocks no_create no_free no_fill 20 0 [AddPair [1; 2] [10]; GetKey [1]] empty_memory
    = Some (Some [Code 0; Found (Some ([1; 2], [10]))], empty_memory) /\
  client twelve_blocks no_create no_free no_fill 20 0 [AddPair [1] [10]; GetKey [1; 2]] empty_memory = None.
Proof. split; vm_compute; reflexivity. Qed.

(** The size of a key of 256 bytes is 0 as a [uint8_t]: no byte of it is compared,
    and such a key finds the last entry of its bucket, that of the empty key. *)
Lemma array_long_keys :
  client twelve_blocks no_create no_free no_fill 300 0
    [AddPair (replicate 256 1) [10]; GetKey (replicate 256 2); DelKey (replicate 256 3)] empty_memory
    = Some (Some [Code 0; Found (Some ([], [10])); Code 0], empty_memory).
Proof. vm_compute. reflexivity. Qed.

(** [1 << bits] of 31 bits or more is not an [int]. *)
Lemma ht_create_bits_undefined malloc bits (m : memory) : 31 <= bits -> malloc m <> None -> ht_create malloc bits m = None.
Proof.
  intros Hb Hm. unfold ht_create. rewrite (bind_run _ _ m (malloc m) m) by done. destruct (malloc m); [|done].
  unfold one_shl. destruct (Z.ltb_spec bits 31); [lia|]. by rewrite andb_false_r.
Qed.
